(* ===== verification/_CoqProject ===== *)
-Q . S2P
Prelude.v
SeqRange.v
SeqRangeProps.v
SeqRangeSets.v
Strnum.v
Numpack.v
HexBinary.v
Base64.v
Bsearch.v
Unichar.v
UnicharProps.v
UnicodeMap.v
UnicodeMapProps.v
ImapSeqset.v
ImapUtf7.v
ImapUtf7Props.v
ImapMatch.v
ImapMatchProps.v
Strescape.v
WildcardMatch.v
Priorityq.v
Hash.v
HashProps.v
Table.v
HashLaws.v
ReplicatorQueue.v
ReplicatorQueueProps.v
ReplicatorSync.v
ReplicatorDb.v
DsyncClient.v
ReplicatorBrain.v
ReplicatorBrainProps.v
ReplicatorService.v
ReplicatorEvents.v
ImapArg.v
ImapQuote.v
ImapParser.v
ImapParserProps.v
ImapParserStream.v
ImapParserCalls.v
ImapParserText.v
ImapWriteProps.v
ImapParserLimits.v
MailSearch.v
MailSearchResults.v
MailSearchSimplify.v
MailSearchEval.v
MailSearchSimplifyProps.v
MailSearchSimplifyLoop.v
MailSearchSimplifyCorrect.v
MailSearchSimplifyHash.v
IndexSearch.v
IndexSearchProps.v
IndexSearchPasses.v
MailSearchLaws.v
IndexSearchRange.v
IndexSearchCorrect.v
IndexSearchThreads.v
IndexSearchQuery.v
MailIndexMap.v
MailIndexMapProps.v
MailIndexSync.v
MailIndexCounts.v
MailIndexLog.v
MailIndexSyncInv.v
MailIndexSyncSteps.v
MailIndexExpunge.v
MailIndexSyncCorrect.v
MailIndexSearch.v
