(* ===== verification/Prelude.v ===== *)
(** * Verification of Dovecot: text formats, containers, IMAP, search, indexes, replicator

    Dovecot is an IMAP and POP3 server.  Its processes (src/src/imap,
    src/src/pop3, the login, auth and director services) are built on a base
    library (src/src/lib), on a library for the IMAP protocol
    (src/src/lib-imap), and on index and storage libraries
    (src/src/lib-index, src/src/lib-storage).  This development models four
    parts of it.  The first is what everything else calls and what works on
    untrusted input: sets of message numbers, numbers, byte and text codings,
    hash tables and priority queues, and the sequence sets, mailbox names, list
    patterns and arguments that an IMAP client sends, with the parser that
    reads them.  The second is a search: its arguments, their simplification
    and their evaluation with the index.  The third is the index itself as it is
    in memory: maps that share records, brought up to date from the transaction
    log.  The fourth is a whole service, the replicator
    (src/src/replication/replicator), as a state machine.

    ** How the parts interact

    A command such as FETCH hands its sequence set to [imap_seq_set_parse],
    which fills a sorted array of ranges through [seq_range_array_add_range];
    the same arrays hold the expunges and flag changes of the index code.
    Mailbox names arrive in modified UTF-7 and are stored in UTF-8:
    [imap_utf7_to_utf8] decodes base64 groups into UTF-16 and writes UTF-8
    with the functions of unichar.c, which also normalise text for searching
    with the tables of unicodemap.c.  LIST compiles its patterns once with
    [imap_match_init_multiple] and matches every mailbox name against them.

    Commands are read by [imap_parser_read_args] from whatever a stream has
    delivered so far; the parser is called again with more data until a line is
    complete, and literals are announced by their size.  The writers of
    imap-quote.c and imap-util.c produce text that this parser reads.

    A search gets a tree of arguments.  [mailbox_search_init] simplifies it,
    merging conditions through a hash table; the index search then runs the
    searches inside of INTHREADs, limits the range of messages by sets and by
    what the header of the index says, and takes the rest in passes and rounds
    of lookups, the cheap ones first, while other messages are prefetched with
    their results saved.  What the header
    says is kept by mail-index-sync-update.c: each record of the transaction
    log is applied to the map of a view.  Maps that others hold are cloned,
    records that others share are copied before an expunge moves them, and a
    change of flags is counted in every map with the record.  The expunges of a
    transaction are collected in an array of sequence ranges.  MailIndexSearch.v
    puts the two together.

    The replicator keeps its users in a hash table by name and in a priority
    queue by urgency.  Lines from notify and doveadm connections add users or
    raise their priority; each change of the queue makes the brain pop users
    and hand them to dsync clients, whose replies push the users back and
    answer the requests that wait for them.  The queue is saved to a file of
    tab-escaped records.  ReplicatorQueue.v is written against the interface
    [Table], which HashLaws.v implements with the tables of hash.c, and
    against the heap of Priorityq.v; DsyncClient.v is written against a
    callback, which ReplicatorBrain.v instantiates.

    ** Files

    - Prelude.v: machine integers, arrays, bytes and C strings, tactics, and
      the list lemmas that several components share.
    - SeqRange.v, SeqRangeProps.v, SeqRangeSets.v: seq-range-array.c.  The
      invariant ([wf]) is preserved by every operation, and every operation
      computes the set operation of its name.
    - Strnum.v: strnum.c and [dec2str]: accepted strings, values, round trip.
    - Numpack.v: numpack.c, bits.c: round trip and the read past the end.
    - HexBinary.v: hex-binary.c, hex-dec.c: round trips and accepted strings.
    - Base64.v: base64.c: round trip; decoding a stream in pieces is the same
      as decoding it at once; buffer sizes.
    - Bsearch.v: bsearch-insert-pos.c: the position for every sorted array.
    - Unichar.v, UnicharProps.v: unichar.c: the decoder accepts exactly the
      shortest forms; round trips; repair of invalid text.
    - UnicodeMap.v, UnicodeMapProps.v: the tables of unicodemap.c and
      title-casing with decomposition, proved of the real tables.
    - ImapSeqset.v: imap-seqset.c: the accepted language and the set that a
      sequence set denotes.
    - ImapUtf7.v, ImapUtf7Props.v: imap-utf7.c: round trip, and the decoder's
      four-byte ring buffer refines decoding to a whole UTF-16 string.
    - ImapMatch.v, ImapMatchProps.v: imap-match.c: the matcher decides the
      meaning of the patterns as they were given, whatever compression and
      the INBOX test did to them.
    - ImapArg.v: imap-arg.c: arguments and their accessors.  ImapQuote.v:
      imap-quote.c and imap-util.c.
    - ImapParser.v: imap-parser.c as a state machine over the buffered data.
      ImapParserProps.v: its invariant and that no assertion fails.
      ImapParserStream.v, ImapParserCalls.v: the arguments do not depend on how
      the data arrives in pieces.  ImapParserText.v, ImapWriteProps.v: what was
      written is read back.  ImapParserLimits.v: the sizes of literals, read
      exactly up to 2^64, and errors.
    - MailSearch.v, MailSearchResults.v, MailSearchLaws.v: mail-search.c:
      evaluation, saved results, copies and mailboxes of a search.
      MailSearchEval.v: the value of a tree of conditions in three-valued logic.
    - MailSearchSimplify.v, MailSearchSimplifyProps.v,
      MailSearchSimplifyLoop.v, MailSearchSimplifyCorrect.v,
      MailSearchSimplifyHash.v: mail-search-args-simplify.c over the hash tables
      of Hash.v; the value of the arguments is kept.
    - IndexSearch.v: index-search.c.  IndexSearchProps.v: its callbacks;
      IndexSearchPasses.v: passes and aborted lookups; IndexSearchRange.v: the
      range of messages; IndexSearchCorrect.v: rounds, prefetching and the
      loop; IndexSearchThreads.v: INTHREADs.  IndexSearchQuery.v: whole queries,
      with * as the last message and INTHREADs over given threads, and the
      queries that the simplification and the limits by the header get wrong,
      which the theorems exclude by name ([ready], [range_ok], [limit_ok]).
    - MailIndexMap.v: mail-index-map.c and the lookups of mail-index-view.c.
      MailIndexMapProps.v: the binary search, ranges of UIDs, the first message
      with given flags.
    - MailIndexSync.v: mail-index-sync-update.c.  MailIndexCounts.v: counters
      and low-water marks; MailIndexExpunge.v: the records that are left after
      they are moved in place.  MailIndexLog.v: the specification, the messages
      that the log has at each position.  MailIndexSyncInv.v,
      MailIndexSyncSteps.v: the invariant of maps that share records, and each
      change.  MailIndexSyncCorrect.v: any sequence of opening, synchronising and
      closing views, as a step relation.  MailIndexSearch.v: searches and
      lookups in a map that was synchronised.
    - Strescape.v: strescape.c and [split_str]: round trips of both escapings
      and of whole tab-separated records.
    - WildcardMatch.v: wildcard-match.c: the backtracking matcher returns on
      every input and agrees with the meaning of * and ?.
    - Priorityq.v: priorityq.c: heap order and the stored positions are
      preserved, and popping everything sorts.
    - Hash.v, HashProps.v, HashLaws.v: hash.c and primes.c: insertion, removal
      and lookup satisfy the laws of finite maps through all resizing and
      deferred removal, and an update keeps the key that is there; iteration
      gives every entry once.  Table.v is the
      interface that its clients use.
    - ReplicatorQueue.v, ReplicatorQueueProps.v: replicator-queue.c; table,
      heap and users stay consistent.  ReplicatorSync.v: pushing a user back
      and the requests that are answered, and when that loop does not end.
      ReplicatorDb.v: the database file and its round trip.
    - DsyncClient.v: dsync-client.c: the command that is sent and the one
      callback that follows, for every sequence of lines and disconnections.
    - ReplicatorBrain.v, ReplicatorBrainProps.v: replicator-brain.c: each user
      in replication belongs to one client, no user loses its priority, and
      filling the connections ends.
    - ReplicatorService.v: the handlers of notify-connection.c,
      doveadm-connection.c and replicator-queue-auth.c, and the start and the
      dump of replicator.c.
    - ReplicatorEvents.v: the replicator from its start, its events as a step
      relation; the invariant of all reachable states, that the handlers
      return, and that an update is replicated or remembered.  Reading the
      database and NOTIFY break the order of the heap and nothing else, which a
      flag of the states tells.  The events that free a user who is still
      referred to (REMOVE of a user in replication, and NOUSER while somebody
      waits for the user's next replication) are no steps.

    ** Conventions

    Definitions keep the names of the C functions; a loop of a function is a
    fixpoint of its own with [_loop] behind the name.  An array is a list, a
    pointer into a string is the list of the bytes that are left, and a
    buffer that is appended to is a list that is passed along.  A byte is a
    [Z] from 0 to 255; unsigned arithmetic is written with its wrap-around
    ([u32], [mod]).  The result type [option] stands for the executions that
    have no result in C (a failed assertion, a read outside an array, a loop
    that does not end); error returns of the code are values.  Objects that
    are shared by pointer, such as the users of the replicator, are addresses
    in a map, and the address of a new object is an argument.

    ** Fuel

    Loops that are not structural take fuel: the length of the remaining
    input plus one where every round consumes input, the number of digits or
    bytes that a 64-bit number can have for [dec2str] (22) and
    [numpack_encode] (10), and the length of the array plus one for the
    binary search.  The parser has a measure of the data that is left and of
    the states that consume none ([read_args_fuel]); a pass of the
    simplification is repeated at most as often as there are arguments, plus
    one; the loop of a search takes one round for each message that is ahead or
    prefetched.  The wildcard matcher has a measure of the positions it
    may still return to; an insertion into a hash table resizes at most once
    ([INSERT_FUEL]); iteration visits at most all nodes; the brain starts at
    most one replication for each connection.  The theorems about these loops
    state that a result is returned, so the fuel is proved to be enough.  The
    one loop that may not end, in [replicator_queue_handle_sync_lookups], has
    fuel as an argument: one theorem gives the fuel that is enough where it
    ends, another shows that no fuel is enough where it does not.  The handlers
    of the replicator run it with the fuel that is enough where it ends; the
    theorems about them say in which states they return.

    ** Not modelled

    Memory management (pools, data stack, growth of buffers, lists of free
    nodes), system calls, streams and the event loop, and with them the other
    server processes.  What a stream delivers is an argument of the handlers
    that read from it, and what they send is part of their result.  The
    allocation of buffers is assumed to succeed, as the code assumes.
    [size_t] lengths are natural numbers except where the code truncates them
    (UTF-8 validation), and [char] comparisons use the byte value.  The user
    list of the auth server is an argument of the handlers that ask for it.

    Of a search: reading headers and bodies is a parameter whose results are
    part of a message ([m_text]), and the threads of a mailbox are a parameter;
    failing lookups inside of INTHREADs, sorting, waiting for disk and updates
    of search results are left out, as is [mail_search_args_init], which looks
    up keywords and UIDs in a mailbox and makes the arguments of INTHREADs.  Of
    an index: the synchronisation of views (mail-index-view-sync.c), its files, their
    locking and repair, the format of the transaction log, extensions,
    keywords, the cache, modification sequences and the reset of an index; the
    transactions of a log are given as their records, and that the log is valid
    ([log_ok]: UIDs ascend, the updates of the header leave its counters alone)
    is a hypothesis. *)

From stdpp Require Export base decidable option list numbers sorting strings.
From Stdlib Require Export ZArith Lia ZifyBool.

#[global] Open Scope Z_scope.

(** ** Machine integers *)

Notation UINT32_MAX := 4294967295%Z.
Notation INT_MAX := 2147483647%Z.
Definition u32 (x : Z) : Z := x mod 4294967296.
Definition is_u32 (x : Z) : Prop := 0 <= x <= UINT32_MAX.

Lemma u32_small x : is_u32 x -> u32 x = x.
Proof. unfold is_u32, u32. intros. apply Z.mod_small. lia. Qed.

Lemma u32_range x : 0 <= u32 x <= UINT32_MAX.
Proof. unfold u32. pose proof (Z.mod_pos_bound x 4294967296). lia. Qed.

(** ** Arrays

    An array of the C code is a list; an index is a [nat].  A read outside
    the array, a failed [i_assert] and an index subtraction that would wrap
    have no result ([None]). *)

Definition assert (b : bool) : option unit := if b then Some tt else None.

Definition idx_sub (i j : nat) : option nat :=
  if (j <=? i)%nat then Some (i - j)%nat else None.

Definition array_insert {A} (a : list A) (i : nat) (v : A) : option (list A) :=
  if (i <=? length a)%nat then Some (take i a ++ v :: drop i a) else None.

Definition array_delete {A} (a : list A) (i n : nat) : list A :=
  take i a ++ drop (i + n) a.

Definition array_set {A} (a : list A) (i : nat) (v : A) : option (list A) :=
  if (i <? length a)%nat then Some (<[i := v]> a) else None.

Lemma array_insert_app {A} (l1 l2 : list A) v :
  array_insert (l1 ++ l2) (length l1) v = Some (l1 ++ v :: l2).
Proof.
  unfold array_insert. rewrite length_app.
  replace (_ <=? _)%nat with true by (symmetry; apply Nat.leb_le; lia).
  by rewrite take_app_length, drop_app_length.
Qed.

Lemma array_delete_app {A} (l1 l2 l3 : list A) :
  array_delete (l1 ++ l2 ++ l3) (length l1) (length l2) = l1 ++ l3.
Proof.
  unfold array_delete. rewrite take_app_length, app_assoc.
  by rewrite <- length_app, drop_app_length.
Qed.

Lemma array_set_app {A} (l1 l2 : list A) x v :
  array_set (l1 ++ x :: l2) (length l1) v = Some (l1 ++ v :: l2).
Proof.
  unfold array_set. rewrite length_app. simpl.
  replace (_ <? _)%nat with true by (symmetry; apply Nat.ltb_lt; lia).
  f_equal. by rewrite insert_app_r_alt, Nat.sub_diag by lia.
Qed.

(** Array operations on a list split at the index; [S] is the element after
    the split. *)
Lemma lookup_app_mid_S {A} (l1 l2 : list A) x y :
  (l1 ++ x :: y :: l2) !! S (length l1) = Some y.
Proof.
  replace (l1 ++ x :: y :: l2) with ((l1 ++ [x]) ++ y :: l2) by by rewrite <- app_assoc.
  apply list_lookup_middle. rewrite length_app. simpl. lia.
Qed.

Lemma array_set_app_S {A} (l1 l2 : list A) x y v :
  array_set (l1 ++ x :: y :: l2) (S (length l1)) v = Some (l1 ++ x :: v :: l2).
Proof.
  pose proof (array_set_app (l1 ++ [x]) l2 y v) as H.
  rewrite <- !app_assoc, length_app, Nat.add_1_r in H. exact H.
Qed.

Lemma array_insert_app_S {A} (l1 l2 : list A) x v :
  array_insert (l1 ++ x :: l2) (S (length l1)) v = Some (l1 ++ x :: v :: l2).
Proof.
  pose proof (array_insert_app (l1 ++ [x]) l2 v) as H.
  rewrite <- !app_assoc, length_app, Nat.add_1_r in H. exact H.
Qed.

Lemma array_delete_app_1 {A} (l1 l2 : list A) x :
  array_delete (l1 ++ x :: l2) (length l1) 1 = l1 ++ l2.
Proof. apply (array_delete_app l1 [x] l2). Qed.

Lemma array_delete_app_S {A} (l1 l2 : list A) x y :
  array_delete (l1 ++ x :: y :: l2) (S (length l1)) 1 = l1 ++ x :: l2.
Proof.
  pose proof (array_delete_app (l1 ++ [x]) [y] l2) as H.
  rewrite <- !app_assoc, length_app, Nat.add_1_r in H. exact H.
Qed.

Lemma length_mid {A} (l1 l2 : list A) x : length (l1 ++ x :: l2) = S (length l1 + length l2).
Proof. rewrite length_app. simpl. lia. Qed.

(** ** Automation *)

(** Case analysis on one integer or index comparison of the goal. *)
Ltac zcase1 :=
  match goal with
  | |- context [(?a <=? ?b)%Z] => destruct (Z.leb_spec a b)
  | |- context [(?a <? ?b)%Z] => destruct (Z.ltb_spec a b)
  | |- context [(?a >=? ?b)%Z] => rewrite (Z.geb_leb a b)
  | |- context [(?a >? ?b)%Z] => rewrite (Z.gtb_ltb a b)
  | |- context [(?a =? ?b)%Z] => destruct (Z.eqb_spec a b)
  | |- context [(?a <=? ?b)%nat] => destruct (Nat.leb_spec a b)
  | |- context [(?a <? ?b)%nat] => destruct (Nat.ltb_spec a b)
  | |- context [(?a =? ?b)%nat] => destruct (Nat.eqb_spec a b)
  end; simpl; try lia.

Ltac zcases := repeat zcase1.

(** Splits a conjunction without unfolding its parts. *)
Ltac splits := repeat match goal with |- _ /\ _ => split end.

Lemma assert_true b : b = true -> assert b = Some tt.
Proof. by intros ->. Qed.

Lemma lookup_app_mid {A} (l1 l2 : list A) x i :
  i = length l1 -> (l1 ++ x :: l2) !! i = Some x.
Proof. intros ->. by apply list_lookup_middle. Qed.

Create HintDb arr discriminated.
#[export] Hint Rewrite @list_lookup_middle using reflexivity : arr.
#[export] Hint Rewrite @lookup_app_mid_S @array_set_app @array_set_app_S
  @array_insert_app @array_insert_app_S @array_delete_app_1 @array_delete_app_S : arr.

(** Evaluate array operations on a list split at the index. *)
Ltac arr := repeat first [progress autorewrite with arr | progress cbn [mbind option_bind]].

Lemma snoc_split {A} (l : list A) : l = [] \/ exists l' x, l = l' ++ [x].
Proof. destruct l as [|x l' _] using rev_ind; eauto. Qed.

(** The probe of a binary search over [l1 ++ m ++ l2], whose bounds enclose
    the part [m] still to be searched. *)
Lemma mid_split {A} (l1 m : list A) :
  m <> [] ->
  exists m1 x m2, m = m1 ++ x :: m2 /\
    ((length l1 + length (l1 ++ m)) / 2 = length (l1 ++ m1))%nat.
Proof.
  intros Hm.
  assert (Hlt : (length m / 2 < length m)%nat).
  { apply Nat.div_lt; [destruct m; simpl in *; [done | lia] | lia]. }
  destruct (lookup_lt_is_Some_2 m (length m / 2) Hlt) as [x Hx].
  exists (take (length m / 2) m), x, (drop (S (length m / 2)) m). split.
  - symmetry. by apply take_drop_middle.
  - rewrite !length_app, length_take, Nat.min_l by lia.
    replace (length l1 + (length l1 + length m))%nat
      with (length l1 * 2 + length m)%nat by lia.
    by rewrite Nat.div_add_l by lia.
Qed.

(** A non-empty array, seen from both ends. *)
Lemma array_ends {A} (data : list A) :
  data = [] \/
  exists r0 l0 l rl, data = r0 :: l0 /\ data = l ++ [rl] /\
    (length data =? 0)%nat = false /\ data !! 0%nat = Some r0 /\
    data !! (length data - 1)%nat = Some rl /\ (length data - 1)%nat = length l.
Proof.
  destruct (snoc_split data) as [->|(l & rl & Hl)]; [by left | right].
  destruct data as [|r0 l0]; [by destruct l |].
  assert (Hn : (length (r0 :: l0) - 1)%nat = length l).
  { rewrite Hl, length_app. simpl. lia. }
  exists r0, l0, l, rl. rewrite Hn. repeat split; try done.
  rewrite Hl. by apply lookup_app_mid.
Qed.

(** Arithmetic modulo 2^32 may reduce its operands or not. *)
(** A test of one bit. *)
Lemma land_bit f k : 0 <= k -> (Z.land f (2 ^ k) =? 0) = negb (Z.testbit f k).
Proof.
  intros Hk. destruct (Z.testbit f k) eqn:E; [apply Z.eqb_neq | apply Z.eqb_eq].
  - intros H. apply (f_equal (fun x => Z.testbit x k)) in H. by rewrite Z.land_spec, E, Z.pow2_bits_true, Z.bits_0 in H.
  - apply Z.bits_inj'. intros i Hi. rewrite Z.land_spec, Z.pow2_bits_eqb, Z.bits_0 by done. destruct (Z.eqb_spec k i) as [<- |]; [by rewrite E | by rewrite andb_false_r].
Qed.

Lemma u32_add_l a b : u32 (u32 a + b) = u32 (a + b).
Proof. apply Zplus_mod_idemp_l. Qed.
Lemma u32_add_r a b : u32 (a + u32 b) = u32 (a + b).
Proof. apply Zplus_mod_idemp_r. Qed.
Lemma u32_sub_l a b : u32 (u32 a - b) = u32 (a - b).
Proof. apply Zminus_mod_idemp_l. Qed.
Lemma u32_sub_r a b : u32 (a - u32 b) = u32 (a - b).
Proof. apply Zminus_mod_idemp_r. Qed.
Lemma u32_idem a : u32 (u32 a) = u32 a.
Proof. apply Z.mod_mod. lia. Qed.

Create HintDb u32 discriminated.
#[export] Hint Rewrite u32_add_l u32_add_r u32_sub_l u32_sub_r u32_idem : u32.

(** Equalities and bounds of 32-bit arithmetic by the division equations. *)
Ltac u32_lia := unfold u32, is_u32 in *; Z.div_mod_to_equations; lia.

(** ** Bytes and C strings

    A byte is a [Z] between 0 and 255; a C string is the list of its bytes,
    without the terminating NUL.  Reading at the end of the list reads the
    terminator. *)

Definition is_byte (c : Z) : Prop := 0 <= c < 256.
Definition byteb (c : Z) : bool := (0 <=? c) && (c <? 256).

(** The bytes of a NUL-terminated string. *)
Definition is_cstr (s : list Z) : Prop := Forall (fun c => 0 < c < 256) s.

Definition at0 (s : list Z) (i : nat) : Z := default 0 (s !! i).

Definition isdigit (c : Z) : bool := (48 <=? c) && (c <=? 57).

Definition str (s : string) : list Z :=
  map (fun a => Z.of_nat (Ascii.nat_of_ascii a)) (String.list_ascii_of_string s).

(** ** Bit operations *)

Lemma land_low x n : 0 <= n -> Z.land x (2 ^ n - 1) = x mod 2 ^ n.
Proof. intros. replace (2 ^ n - 1) with (Z.ones n) by (rewrite Z.ones_equiv; lia). by apply Z.land_ones. Qed.

(** Bits above [n] or-ed to a number below [2^n] add. *)
Lemma land_disjoint v x n : 0 <= n -> 0 <= v < 2 ^ n -> Z.land v (x * 2 ^ n) = 0.
Proof.
  intros Hn Hv. apply Z.bits_inj'. intros i Hi. rewrite Z.land_spec, Z.bits_0.
  destruct (Z.lt_ge_cases i n).
  - rewrite Z.mul_pow2_bits_low by lia. apply andb_false_r.
  - rewrite <- (Z.mod_small v (2 ^ n)), Z.mod_pow2_bits_high by lia. done.
Qed.

Lemma lor_disjoint v x n : 0 <= n -> 0 <= v < 2 ^ n -> Z.lor v (x * 2 ^ n) = v + x * 2 ^ n.
Proof.
  intros Hn Hv. rewrite <- Z.add_lor_land, land_disjoint by done. lia.
Qed.

Lemma lor_disjoint' v x n : 0 <= n -> 0 <= v < 2 ^ n -> Z.lor (x * 2 ^ n) v = x * 2 ^ n + v.
Proof. intros. rewrite Z.lor_comm, lor_disjoint by done. lia. Qed.

(** A property of every byte, by computing it. *)
Definition all_bytes : list Z := seqZ 0 256.

Lemma byte_forall (P : Z -> bool) :
  forallb P all_bytes = true -> forall c, is_byte c -> P c = true.
Proof.
  intros H c Hc. rewrite forallb_forall in H. apply H. apply list_elem_of_In.
  unfold all_bytes, is_byte in *. apply elem_of_seqZ. lia.
Qed.

(** [i_toupper] in the C locale. *)
Definition toupper (c : Z) : Z := if (97 <=? c) && (c <=? 122) then c - 32 else c.
