(* ===== verification/SeqRange.v ===== *)
(** * Sequence ranges (src/src/lib/seq-range-array.c)

    An [ARRAY_TYPE(seq_range)] is a list of [seq_range] records; sequences are
    32-bit, and every sum that the code computes on them wraps.  Loops over an
    index take fuel.  [None] is a failed assertion, an access outside the
    array or fuel that ran out; SeqRangeProps.v and SeqRangeSets.v show that
    none of them happens on well-formed arrays. *)

From S2P Require Import Prelude.

Record seq_range := SR { seq1 : Z; seq2 : Z }.

#[export] Instance seq_range_eq_dec : EqDecision seq_range.
Proof. solve_decision. Defined.

Definition set_seq1 (v : Z) (r : seq_range) : seq_range := SR v (seq2 r).
Definition set_seq2 (v : Z) (r : seq_range) : seq_range := SR (seq1 r) v.

Definition seq_range_length (r : seq_range) : option Z :=
  _ ← assert (seq1 r <=? seq2 r);
  Some (u32 (u32 (seq2 r - seq1 r) + 1)).

Fixpoint seq_range_lookup_loop (fuel : nat) (data : list seq_range) (seq : Z)
    (idx left_idx right_idx : nat) : option (bool * nat) :=
  match fuel with
  | O => None
  | S fuel =>
      if (left_idx <? right_idx)%nat then
        let idx := ((left_idx + right_idx) / 2)%nat in
        r ← data !! idx;
        if seq1 r <=? seq then
          if seq2 r >=? seq then Some (true, idx)
          else seq_range_lookup_loop fuel data seq idx (idx + 1) right_idx
        else seq_range_lookup_loop fuel data seq idx left_idx idx
      else Some (false, if (idx <? left_idx)%nat then S idx else idx)
  end.

Definition seq_range_lookup (data : list seq_range) (seq : Z) : option (bool * nat) :=
  _ ← assert (Z.of_nat (length data) <? INT_MAX);
  seq_range_lookup_loop (S (length data)) data seq 0 0 (length data).

Definition seq_range_array_add (data : list seq_range) (seq : Z)
    : option (bool * list seq_range) :=
  let value := SR seq seq in
  let count := length data in
  if (count =? 0)%nat then Some (false, data ++ [value])
  else
    rlast ← data !! (count - 1)%nat;
    r0 ← data !! 0%nat;
    if seq2 rlast <? seq then
      if seq2 rlast =? u32 (seq - 1) then
        data ← array_set data (count - 1) (set_seq2 seq rlast);
        Some (false, data)
      else Some (false, data ++ [value])
    else if seq1 r0 >? seq then
      if u32 (seq1 r0 - 1) =? seq then
        data ← array_set data 0 (set_seq1 seq r0);
        Some (false, data)
      else
        data ← array_insert data 0 value;
        Some (false, data)
    else
      '(found, idx) ← seq_range_lookup data seq;
      if (found : bool) then Some (true, data)
      else
        _ ← assert (idx <? count)%nat;
        r ← data !! idx;
        _ ← assert (seq1 r >=? seq);
        _ ← assert ((seq1 r >? seq) || (seq2 r <? seq));
        if seq1 r =? u32 (seq + 1) then
          data ← array_set data idx (set_seq1 seq r);
          if (0 <? idx)%nat then
            rp ← data !! (idx - 1)%nat;
            if seq2 rp =? u32 (seq - 1) then
              data ← array_set data (idx - 1) (set_seq2 (seq2 r) rp);
              Some (false, array_delete data idx 1)
            else Some (false, data)
          else Some (false, data)
        else
          idx ← (if (0 <? idx)%nat then
                   rp ← data !! (idx - 1)%nat;
                   Some (if seq2 rp =? u32 (seq - 1) then (idx - 1)%nat else idx)
                 else Some idx);
          r ← data !! idx;
          if seq2 r =? u32 (seq - 1) then
            _ ← assert (idx + 1 <? count)%nat;
            data ← array_set data idx (set_seq2 seq r);
            rn ← data !! (idx + 1)%nat;
            if seq1 rn =? u32 (seq + 1) then
              data ← array_set data (idx + 1) (set_seq1 (seq1 r) rn);
              Some (false, array_delete data idx 1)
            else Some (false, data)
          else
            data ← array_insert data idx value;
            Some (false, data).

(** The counting loop of [seq_range_array_add_range_internal]. *)
Fixpoint notadded_loop (fuel : nat) (data : list seq_range) (i countidx2 : nat)
    (notadded : Z) : option Z :=
  match fuel with
  | O => None
  | S fuel =>
      if (i <? countidx2)%nat then
        r ← data !! i;
        notadded_loop fuel data (S i) countidx2
          (u32 (notadded + (seq2 r + 1 - seq1 r)))
      else Some notadded
  end.

Definition add_range_r_count (data : list seq_range) (s1 s2 : Z) (idx1 idx2 : nat)
    : option Z :=
  let count := length data in
  let added := u32 (s2 + 1 - s1) in
  overcounted ←
    (if (idx1 =? count)%nat then Some 0
     else
       r ← data !! idx1;
       Some (if s1 <? seq1 r then 0 else u32 (0 + (s1 - seq1 r))));
  '(overcounted, countidx2) ←
    (if (idx2 =? count)%nat then Some (overcounted, idx2)
     else
       r ← data !! idx2;
       Some (if s2 <? seq1 r then (overcounted, idx2)
             else (u32 (overcounted + (seq2 r - s2)), S idx2)));
  notadded ← notadded_loop (S countidx2) data idx1 countidx2 0;
  Some (u32 (added - u32 (notadded - overcounted))).

(** The test for a range that touches no other one (lines 165-167). *)
Definition add_range_no_overlap (data : list seq_range) (s1 s2 : Z) (idx1 idx2 : nat)
    : option bool :=
  if (idx1 =? idx2)%nat then
    c1 ← (if (idx2 =? length data)%nat then Some true
          else r ← data !! idx2; Some (seq1 r >? u32 (s2 + 1)));
    if (c1 : bool) then
      if (idx1 =? 0)%nat then Some true
      else rp ← data !! (idx1 - 1)%nat; Some (seq2 rp <? u32 (s1 - 1))
    else Some false
  else Some false.

(** Merging into the range at [idx1] (lines 173-187). *)
Definition add_range_merge (data : list seq_range) (s1 s2 : Z) (idx1 idx2 : nat)
    : option (list seq_range) :=
  let count := length data in
  _ ← assert (idx1 <? count)%nat;
  r ← data !! idx1;
  data ← (if s1 <? seq1 r then array_set data idx1 (set_seq1 s1 r) else Some data);
  if s2 >? seq2 r then
    idx2 ← (if (idx2 =? count)%nat then idx_sub idx2 1
            else
              ri2 ← data !! idx2;
              if seq1 ri2 >? u32 (s2 + 1) then idx_sub idx2 1 else Some idx2);
    ri1 ← data !! idx1;
    ri2 ← data !! idx2;
    data ← (if s2 >=? seq2 ri2 then array_set data idx1 (set_seq2 s2 ri1)
            else array_set data idx1 (set_seq2 (seq2 ri2) ri1));
    n ← idx_sub idx2 idx1;
    Some (array_delete data (idx1 + 1) n)
  else Some data.

(** The range before [idx1] is extended when it ends just before [s1]
    (lines 162-163). *)
Definition add_range_adjust (data : list seq_range) (s1 : Z) (idx1 : nat) : option nat :=
  if (0 <? idx1)%nat then
    rp ← data !! (idx1 - 1)%nat;
    Some (if u32 (seq2 rp + 1) =? s1 then (idx1 - 1)%nat else idx1)
  else Some idx1.

Definition seq_range_array_add_range_internal (data : list seq_range) (s1 s2 : Z)
    (want_count : bool) : option (option Z * list seq_range) :=
  '(_, idx1) ← seq_range_lookup data s1;
  '(_, idx2) ← seq_range_lookup data s2;
  r_count ← (if want_count then Some <$> add_range_r_count data s1 s2 idx1 idx2
             else Some None);
  idx1 ← add_range_adjust data s1 idx1;
  no_overlap ← add_range_no_overlap data s1 s2 idx1 idx2;
  data ← (if (no_overlap : bool) then array_insert data idx1 (SR s1 s2)
          else add_range_merge data s1 s2 idx1 idx2);
  Some (r_count, data).

Definition seq_range_array_add_range (data : list seq_range) (s1 s2 : Z)
    : option (list seq_range) :=
  '(_, data) ← seq_range_array_add_range_internal data s1 s2 false;
  Some data.

Definition seq_range_array_add_range_count (data : list seq_range) (s1 s2 : Z)
    : option (Z * list seq_range) :=
  '(c, data) ← seq_range_array_add_range_internal data s1 s2 true;
  c ← c;
  Some (c, data).

Fixpoint seq_range_array_merge_loop (dest src : list seq_range) : option (list seq_range) :=
  match src with
  | [] => Some dest
  | r :: src =>
      dest ← seq_range_array_add_range dest (seq1 r) (seq2 r);
      seq_range_array_merge_loop dest src
  end.

Definition seq_range_array_merge (dest src : list seq_range) : option (list seq_range) :=
  if (length dest =? 0)%nat then Some (dest ++ src)
  else seq_range_array_merge_loop dest src.

(** The binary search of [seq_range_array_remove], with the removal in its
    "found it" branch. *)
Fixpoint seq_range_array_remove_loop (fuel : nat) (data : list seq_range) (seq : Z)
    (left_idx right_idx : nat) : option (bool * list seq_range) :=
  match fuel with
  | O => None
  | S fuel =>
      if (left_idx <? right_idx)%nat then
        let idx := ((left_idx + right_idx) / 2)%nat in
        r ← data !! idx;
        if seq1 r >? seq then seq_range_array_remove_loop fuel data seq left_idx idx
        else if seq2 r <? seq then
          seq_range_array_remove_loop fuel data seq (idx + 1) right_idx
        else if seq1 r =? seq then
          if seq1 r =? seq2 r then Some (true, array_delete data idx 1)
          else
            data ← array_set data idx (set_seq1 (u32 (seq1 r + 1)) r);
            Some (true, data)
        else if seq2 r =? seq then
          data ← array_set data idx (set_seq2 (u32 (seq2 r - 1)) r);
          Some (true, data)
        else
          let value := SR (u32 (seq + 1)) (seq2 r) in
          data ← array_set data idx (set_seq2 (u32 (seq - 1)) r);
          data ← array_insert data (idx + 1) value;
          Some (true, data)
      else Some (false, data)
  end.

Definition seq_range_array_remove (data : list seq_range) (seq : Z)
    : option (bool * list seq_range) :=
  let count := length data in
  if (count =? 0)%nat then Some (false, data)
  else
    rlast ← data !! (count - 1)%nat;
    r0 ← data !! 0%nat;
    if (seq >? seq2 rlast) || (seq <? seq1 r0) then Some (false, data)
    else if seq2 rlast =? seq then
      if negb (seq1 rlast =? seq2 rlast) then
        data ← array_set data (count - 1) (set_seq2 (u32 (seq2 rlast - 1)) rlast);
        Some (true, data)
      else Some (true, array_delete data (count - 1) 1)
    else if seq1 r0 =? seq then
      if negb (seq1 r0 =? seq2 r0) then
        data ← array_set data 0 (set_seq1 (u32 (seq1 r0 + 1)) r0);
        Some (true, data)
      else Some (true, array_delete data 0 1)
    else
      _ ← assert (Z.of_nat count <? INT_MAX);
      seq_range_array_remove_loop (S count) data seq 0 count.

(** The scan of [seq_range_array_remove_range] over the ranges to delete. *)
Fixpoint remove_range_scan (fuel : nat) (data : list seq_range) (s2 : Z) (idx2 : nat)
    (remove_count : Z) : option (nat * Z) :=
  match fuel with
  | O => None
  | S fuel =>
      if (idx2 <? length data)%nat then
        r ← data !! idx2;
        if seq1 r >? s2 then Some (idx2, remove_count)
        else remove_range_scan fuel data s2 (S idx2)
               (u32 (remove_count + (seq2 r - seq1 r + 1)))
      else Some (idx2, remove_count)
  end.

(** Deleting the ranges strictly between the removed ends (lines 313-327). *)
Definition remove_range_between (data : list seq_range) (s1 s2 remove_count : Z)
    : option (Z * list seq_range) :=
  '(_, idx) ← seq_range_lookup data s1;
  if (idx =? length data)%nat then Some (remove_count, data)
  else
    r ← data !! idx;
    _ ← assert (seq1 r >=? s1);
    '(idx2, remove_count) ←
      remove_range_scan (S (length data)) data s2 idx remove_count;
    n ← idx_sub idx2 idx;
    Some (remove_count, array_delete data idx n).

Definition seq_range_array_remove_range (data : list seq_range) (s1 s2 : Z)
    : option (Z * list seq_range) :=
  '(b1, data) ← seq_range_array_remove data s1;
  let remove_count := if (b1 : bool) then 1 else 0 in
  if s1 =? s2 then Some (remove_count, data)
  else
    let s1 := u32 (s1 + 1) in
    '(b2, data) ← seq_range_array_remove data s2;
    let s2 := u32 (s2 - 1) in
    let remove_count := if (b2 : bool) then u32 (remove_count + 1) else remove_count in
    if s1 >? s2 then Some (remove_count, data)
    else remove_range_between data s1 s2 remove_count.

Fixpoint seq_range_array_remove_seq_range_loop (dest src : list seq_range) (ret : Z)
    : option (Z * list seq_range) :=
  match src with
  | [] => Some (ret, dest)
  | r :: src =>
      '(n, dest) ← seq_range_array_remove_range dest (seq1 r) (seq2 r);
      seq_range_array_remove_seq_range_loop dest src (u32 (ret + n))
  end.

Definition seq_range_array_remove_seq_range (dest src : list seq_range)
    : option (Z * list seq_range) :=
  seq_range_array_remove_seq_range_loop dest src 0.

(** The iterator: [prev_n] and [prev_idx]; the array is passed separately. *)
Record seq_range_iter := Iter { prev_n : Z; prev_idx : nat }.

Definition seq_range_array_iter_init : seq_range_iter := Iter 0 0.

Fixpoint iter_nth_loop (fuel : nat) (data : list seq_range) (n pn : Z) (i : nat)
    : option (option Z * seq_range_iter) :=
  match fuel with
  | O => None
  | S fuel =>
      if (i <? length data)%nat then
        r ← data !! i;
        let diff := u32 (seq2 r - seq1 r) in
        if n <=? u32 (pn + diff) then
          _ ← assert (n >=? pn);
          Some (Some (u32 (seq1 r + (n - pn))), Iter pn i)
        else iter_nth_loop fuel data n (u32 (pn + (diff + 1))) (S i)
      else Some (None, Iter pn i)
  end.

Definition seq_range_array_iter_nth (data : list seq_range) (it : seq_range_iter) (n : Z)
    : option (option Z * seq_range_iter) :=
  let it := if n <? prev_n it then Iter 0 0 else it in
  iter_nth_loop (S (length data)) data n (prev_n it) (prev_idx it).

Definition seq_range_array_remove_nth (data : list seq_range) (n count : Z)
    : option (list seq_range) :=
  if count =? 0 then Some data
  else
    '(s1, it) ← seq_range_array_iter_nth data seq_range_array_iter_init n;
    match s1 with
    | None => Some data
    | Some s1 =>
        s2 ← (if u32 (count - 1) >=? u32 (UINT32_MAX - n) then Some UINT32_MAX
              else
                '(s2, _) ← seq_range_array_iter_nth data it (u32 (n + (count - 1)));
                Some (default UINT32_MAX s2));
        '(_, data) ← seq_range_array_remove_range data s1 s2;
        Some data
    end.

Fixpoint seq_range_array_intersect_loop (dest src : list seq_range) (last_seq ret : Z)
    : option (Z * Z * list seq_range) :=
  match src with
  | [] => Some (last_seq, ret, dest)
  | r :: src =>
      '(ret, dest) ←
        (if u32 (last_seq + 1) <? seq1 r then
           '(n, dest) ← seq_range_array_remove_range dest (u32 (last_seq + 1))
                          (u32 (seq1 r - 1));
           Some (u32 (ret + n), dest)
         else Some (ret, dest));
      seq_range_array_intersect_loop dest src (seq2 r) ret
  end.

Definition seq_range_array_intersect (dest src : list seq_range)
    : option (Z * list seq_range) :=
  '(last_seq, ret, dest) ← seq_range_array_intersect_loop dest src 0 0;
  if negb (last_seq =? UINT32_MAX) then
    '(n, dest) ← seq_range_array_remove_range dest (u32 (last_seq + 1)) UINT32_MAX;
    Some (u32 (ret + n), dest)
  else Some (ret, dest).

Definition seq_range_exists (data : list seq_range) (seq : Z) : option bool :=
  '(found, _) ← seq_range_lookup data seq;
  Some found.

Fixpoint have_common_loop (fuel : nat) (a1 a2 : list seq_range) (i1 i2 : nat)
    : option bool :=
  match fuel with
  | O => None
  | S fuel =>
      if (i1 <? length a1)%nat && (i2 <? length a2)%nat then
        r1 ← a1 !! i1;
        r2 ← a2 !! i2;
        if (seq1 r1 <=? seq2 r2) && (seq2 r1 >=? seq1 r2) then Some true
        else if seq1 r1 <? seq1 r2 then have_common_loop fuel a1 a2 (S i1) i2
        else have_common_loop fuel a1 a2 i1 (S i2)
      else Some false
  end.

Definition seq_range_array_have_common (a1 a2 : list seq_range) : option bool :=
  have_common_loop (S (length a1 + length a2)) a1 a2 0 0.

Definition seq_range_count (data : list seq_range) : Z :=
  fold_left (fun c r => u32 (c + (seq2 r - seq1 r + 1))) data 0.

Fixpoint invert_loop (fuel : nat) (data : list seq_range) (i : nat) (min_seq : Z)
    : option (Z * list seq_range) :=
  match fuel with
  | O => None
  | S fuel =>
      if (i <? length data)%nat then
        r ← data !! i;
        let next_min_seq := u32 (seq2 r + 1) in
        if seq1 r =? min_seq then
          invert_loop fuel (array_delete data i 1) i next_min_seq
        else
          data ← array_set data i (SR min_seq (u32 (seq1 r - 1)));
          invert_loop fuel data (S i) next_min_seq
      else Some (min_seq, data)
  end.

Definition seq_range_array_invert (data : list seq_range) (min_seq max_seq : Z)
    : option (list seq_range) :=
  let count := length data in
  if (count =? 0)%nat then Some (data ++ [SR min_seq max_seq])
  else
    r0 ← data !! 0%nat;
    rlast ← data !! (count - 1)%nat;
    _ ← assert (seq1 r0 >=? min_seq);
    _ ← assert (seq2 rlast <=? max_seq);
    if (seq1 r0 =? min_seq) && (seq2 r0 =? max_seq) then Some []
    else
      '(min_seq, data) ← invert_loop (S count) data 0 min_seq;
      if min_seq <=? max_seq then Some (data ++ [SR min_seq max_seq])
      else Some data.
