(* ===== verification/SeqRangeProps.v ===== *)
(** * Sequence ranges: the invariant, adding and removing

    [wf] says that the ranges are ordered, disjoint and not adjacent, [mem] is
    the set they stand for.  This file has the lemmas about lookup, about
    adding one sequence or a range, and about removing one sequence or a
    range, each with the fuel it needs. *)

From S2P Require Import Prelude SeqRange.

(** ** The invariant and the set a range array denotes *)

Fixpoint wf_from (lo : Z) (l : list seq_range) : Prop :=
  match l with
  | [] => True
  | r :: l => lo <= seq1 r /\ seq1 r <= seq2 r <= UINT32_MAX /\ wf_from (seq2 r + 2) l
  end.

Definition wf (l : list seq_range) : Prop := wf_from 0 l.

Fixpoint mem (x : Z) (l : list seq_range) : bool :=
  match l with
  | [] => false
  | r :: l => (seq1 r <=? x) && (x <=? seq2 r) || mem x l
  end.

(** The smallest sequence that may start a range after [l]. *)
Fixpoint nxt (lo : Z) (l : list seq_range) : Z :=
  match l with
  | [] => lo
  | r :: l => nxt (seq2 r + 2) l
  end.

Definition len_ok (l : list seq_range) : Prop := Z.of_nat (length l) < INT_MAX.

Lemma nxt_app lo l1 l2 : nxt lo (l1 ++ l2) = nxt (nxt lo l1) l2.
Proof. revert lo. induction l1; simpl; auto. Qed.

Lemma wf_from_app lo l1 l2 :
  wf_from lo (l1 ++ l2) <-> wf_from lo l1 /\ wf_from (nxt lo l1) l2.
Proof. revert lo. induction l1 as [|r l1 IH]; intros lo; simpl; [tauto |]. rewrite IH. tauto. Qed.

Lemma mem_app x l1 l2 : mem x (l1 ++ l2) = mem x l1 || mem x l2.
Proof. induction l1 as [|r l1 IH]; simpl; [done | rewrite IH; by rewrite orb_assoc]. Qed.

Lemma wf_from_mono lo lo' l : lo' <= lo -> wf_from lo l -> wf_from lo' l.
Proof. destruct l; simpl; intuition lia. Qed.

Lemma nxt_ge lo l : wf_from lo l -> lo <= nxt lo l.
Proof.
  revert lo. induction l as [|r l IH]; intros lo; simpl; [lia |].
  intros (? & ? & H). apply IH in H. lia.
Qed.

Lemma mem_bounds lo l x : wf_from lo l -> mem x l = true -> lo <= x <= UINT32_MAX /\ x + 2 <= nxt lo l.
Proof.
  revert lo. induction l as [|r l IH]; intros lo; simpl; [done |].
  intros (? & ? & H) Hm. specialize (IH _ H). apply nxt_ge in H. lia.
Qed.

Inductive lookup_spec (data : list seq_range) (seq : Z) : bool * nat -> Prop :=
| lookup_found l1 r l2 :
    data = l1 ++ r :: l2 -> seq1 r <= seq <= seq2 r ->
    lookup_spec data seq (true, length l1)
| lookup_missing l1 l2 :
    data = l1 ++ l2 -> nxt 0 l1 <= seq + 1 -> wf_from (seq + 1) l2 ->
    lookup_spec data seq (false, length l1).

Lemma seq_range_lookup_loop_spec fuel l1 m l2 seq idx :
  wf (l1 ++ m ++ l2) -> 0 <= seq ->
  nxt 0 l1 <= seq + 1 -> wf_from (seq + 1) l2 ->
  (length m < fuel)%nat ->
  (m = [] -> (if (idx <? length l1)%nat then S idx else idx) = length l1) ->
  exists res,
    seq_range_lookup_loop fuel (l1 ++ m ++ l2) seq idx (length l1) (length (l1 ++ m))
      = Some res /\ lookup_spec (l1 ++ m ++ l2) seq res.
Proof.
  revert l1 m l2 idx. induction fuel as [|fuel IH]; intros l1 m l2 idx Hwf H0 Hlo Hhi Hf Hidx; [lia |].
  destruct (decide (m = [])) as [->|Hm].
  - simpl. rewrite app_nil_r, Nat.ltb_irrefl, Hidx by done.
    eexists; split; [done | by econstructor].
  - destruct (mid_split l1 m Hm) as (m1 & r & m2 & -> & Hmid).
    rewrite !length_app in Hf; simpl in Hf.
    assert (Hlt : (length l1 <? length (l1 ++ m1 ++ r :: m2))%nat = true)
      by (apply Nat.ltb_lt; rewrite !length_app; simpl; lia).
    cbn [seq_range_lookup_loop]. rewrite Hlt, Hmid.
    assert (Hd : l1 ++ (m1 ++ r :: m2) ++ l2 = (l1 ++ m1) ++ r :: (m2 ++ l2))
      by by rewrite <- !app_assoc.
    rewrite Hd, lookup_app_mid by done. simpl.
    pose proof Hwf as Hwf'. unfold wf in Hwf'.
    rewrite Hd, wf_from_app in Hwf'. destruct Hwf' as [Hw1 (Hr1 & Hr2 & Hw2)].
    rewrite Z.geb_leb.
    destruct (Z.leb_spec (seq1 r) seq); [destruct (Z.leb_spec seq (seq2 r)) |].
    + eexists; split; [done | econstructor; [done | lia]].
    + replace (length (l1 ++ m1) + 1)%nat with (length ((l1 ++ m1) ++ [r]))
        by (rewrite !length_app; simpl; lia).
      replace (length (l1 ++ m1 ++ r :: m2)) with (length (((l1 ++ m1) ++ [r]) ++ m2))
        by (rewrite !length_app; simpl; lia).
      replace ((l1 ++ m1) ++ r :: m2 ++ l2) with (((l1 ++ m1) ++ [r]) ++ m2 ++ l2)
        by by rewrite <- !app_assoc.
      apply IH; try lia; try done.
      * unfold wf in *. rewrite <- app_assoc. simpl. by rewrite <- Hd.
      * rewrite nxt_app. simpl. lia.
      * intros _. rewrite !length_app. simpl. destruct (Nat.ltb_spec (length l1 + length m1) (length l1 + length m1 + 1)); lia.
    + replace ((l1 ++ m1) ++ r :: m2 ++ l2) with (l1 ++ m1 ++ (r :: m2 ++ l2))
        by by rewrite <- !app_assoc.
      apply IH; try lia; try done.
      * rewrite app_assoc. unfold wf in *. by rewrite <- Hd.
      * simpl. split; [lia | done].
      * intros ->. by rewrite app_nil_r, Nat.ltb_irrefl.
Qed.

Lemma seq_range_lookup_spec data seq :
  wf data -> len_ok data -> 0 <= seq ->
  exists res, seq_range_lookup data seq = Some res /\ lookup_spec data seq res.
Proof.
  intros Hwf Hlen H0. unfold seq_range_lookup.
  rewrite assert_true by by apply Z.ltb_lt.
  pose proof (seq_range_lookup_loop_spec (S (length data)) [] data [] seq 0) as H.
  simpl in H. rewrite app_nil_r in H. apply H; try lia; done.
Qed.

(** Rewrite wf and mem over appends into arithmetic facts. *)
Ltac norm_in H :=
  unfold wf in H; repeat rewrite ?wf_from_app, ?nxt_app in H; cbn [wf_from nxt seq1 seq2 set_seq1 set_seq2] in H.

Ltac solve_wf :=
  unfold wf, is_u32 in *; destruct_and?;
  repeat rewrite ?wf_from_app, ?nxt_app; cbn [wf_from nxt seq1 seq2 set_seq1 set_seq2];
  repeat split; try done; try lia;
  try (eapply wf_from_mono; [|eassumption]; lia).

(** The bounds of every membership test in the goal or the context. *)
Ltac mem_facts :=
  repeat match goal with
  | W : wf_from ?lo ?l |- context [mem ?x ?l] =>
      lazymatch goal with
      | _ : mem x l = true -> lo <= x <= UINT32_MAX /\ x + 2 <= nxt lo l |- _ => fail
      | _ => pose proof (mem_bounds lo l x W)
      end
  end.

Ltac solve_mem :=
  unfold is_u32 in *; intros;
  repeat rewrite ?mem_app; cbn [mem seq1 seq2 set_seq1 set_seq2]; mem_facts; lia.

Definition add_post (data : list seq_range) (seq : Z) (res : bool * list seq_range) : Prop :=
  wf res.2 /\ res.1 = mem seq data /\
  forall x, mem x res.2 = (x =? seq) || mem x data.

Lemma add_post_intro data seq b data' :
  wf data' -> mem seq data = b -> (forall x, mem x data' = (x =? seq) || mem x data) ->
  exists res, Some (b, data') = Some res /\ add_post data seq res.
Proof. intros. eexists; split; [done |]. by split_and!. Qed.

Lemma seq_range_array_add_spec data seq :
  wf data -> len_ok data -> is_u32 seq ->
  exists res, seq_range_array_add data seq = Some res /\ add_post data seq res.
Proof.
  intros Hwf Hlen Hseq. unfold seq_range_array_add.
  destruct (array_ends data) as [->|(r0 & l0 & l & rl & Hd0 & Hdl & -> & -> & -> & ->)].
  { apply add_post_intro; [solve_wf | done | solve_mem]. }
  cbn [mbind option_bind].
  pose proof Hwf as Hwf1. rewrite Hd0 in Hwf1. norm_in Hwf1. destruct Hwf1 as (? & ? & Hw0).
  pose proof Hwf as Hwf2. rewrite Hdl in Hwf2. norm_in Hwf2. destruct Hwf2 as (Hwl & ? & ? & _).
  pose proof (nxt_ge _ _ Hwl). unfold is_u32 in *.
  destruct (Z.ltb_spec (seq2 rl) seq).
  { rewrite u32_small by (unfold is_u32; lia). rewrite Hdl.
    destruct (Z.eqb_spec (seq2 rl) (seq - 1)); arr;
      (apply add_post_intro; [solve_wf | solve_mem..]). }
  rewrite Z.gtb_ltb. destruct (Z.ltb_spec seq (seq1 r0)).
  { rewrite u32_small by (unfold is_u32; lia). rewrite Hd0.
    destruct (Z.eqb_spec (seq1 r0 - 1) seq); simpl;
      (apply add_post_intro; [solve_wf | solve_mem..]). }
  destruct (seq_range_lookup_spec data seq) as (res & -> & Hres); [done.. | lia |].
  destruct Hres as [l1 r l2 Hd Hr|l1 l2 Hd Hlo Hhi]; cbn [mbind option_bind].
  { apply add_post_intro; [done | rewrite Hd; solve_mem..]. }
  destruct l2 as [|r l2].
  { rewrite app_nil_r in Hd. rewrite <- Hd, Hdl, nxt_app in Hlo. simpl in Hlo. lia. }
  destruct (snoc_split l1) as [->|(l1' & rp & ->)].
  { rewrite Hd0 in Hd. simpl in Hd. injection Hd as -> ->. simpl in Hhi. lia. }
  clear Hd0 Hdl Hwl Hw0. subst data.
  rewrite <- app_assoc in *. simpl app in *. rewrite length_app, Nat.add_1_r in *.
  rewrite length_mid. simpl length.
  norm_in Hwf. norm_in Hlo. destruct Hwf as (Hw1 & ? & ? & ? & ? & Hw2).
  pose proof (nxt_ge _ _ Hw1).
  rewrite assert_true by (apply Nat.ltb_lt; lia). arr.
  simpl in Hhi. destruct Hhi as [Hhi _].
  rewrite !assert_true by lia. arr.
  rewrite !u32_small by (unfold is_u32; lia).
  replace (S (length l1') - 1)%nat with (length l1') by lia. arr.
  change (0 <? S (length l1'))%nat with true. cbv iota.
  destruct (Z.eqb_spec (seq1 r) (seq + 1)); arr;
    destruct (Z.eqb_spec (seq2 rp) (seq - 1)); arr.
  - apply add_post_intro; [solve_wf | solve_mem..].
  - apply add_post_intro; [solve_wf | solve_mem..].
  - destruct (Z.eqb_spec (seq2 rp) (seq - 1)); [|lia].
    rewrite assert_true by (apply Nat.ltb_lt; lia). arr. rewrite Nat.add_1_r. arr.
    destruct (Z.eqb_spec (seq1 r) (seq + 1)); [lia |].
    apply add_post_intro; [solve_wf | solve_mem..].
  - destruct (Z.eqb_spec (seq2 r) (seq - 1)); [lia|]. arr.
    apply add_post_intro; [solve_wf | solve_mem..].
Qed.

(** ** Adding a range *)

Definition hd_ge (seq : Z) (l : list seq_range) : Prop :=
  match l with
  | [] => True
  | r :: _ => seq <= seq2 r
  end.

Fixpoint total (l : list seq_range) : Z :=
  match l with
  | [] => 0
  | r :: l => seq2 r - seq1 r + 1 + total l
  end.

Lemma total_app l1 l2 : total (l1 ++ l2) = total l1 + total l2.
Proof. induction l1; simpl; lia. Qed.

(** Where the binary search stops, found or not. *)
Lemma seq_range_lookup_pos data seq :
  wf data -> len_ok data -> 0 <= seq ->
  exists b l1 l2, seq_range_lookup data seq = Some (b, length l1) /\
    data = l1 ++ l2 /\ nxt 0 l1 <= seq + 1 /\ hd_ge seq l2.
Proof.
  intros Hwf Hlen H0.
  destruct (seq_range_lookup_spec data seq Hwf Hlen H0) as (res & -> & Hres).
  destruct Hres as [l1 r l2 -> Hr | l1 l2 -> Hlo Hhi].
  - exists true, l1, (r :: l2). norm_in Hwf. repeat split; simpl; lia.
  - exists false, l1, l2. repeat split; try done. destruct l2; simpl in *; [done | lia].
Qed.

Lemma seq_range_lookup_pair data s1 s2 :
  wf data -> len_ok data -> 0 <= s1 <= s2 ->
  exists b1 b2 A B C, data = A ++ B ++ C /\
    seq_range_lookup data s1 = Some (b1, length A) /\
    seq_range_lookup data s2 = Some (b2, (length A + length B)%nat) /\
    nxt 0 A <= s1 + 1 /\ nxt 0 (A ++ B) <= s2 + 1 /\ hd_ge s1 (B ++ C) /\ hd_ge s2 C.
Proof.
  intros Hwf Hlen Hs.
  destruct (seq_range_lookup_pos data s1) as (b1 & l1 & l2 & -> & Hd1 & Hn1 & Hh1); [done.. | lia |].
  destruct (seq_range_lookup_pos data s2) as (b2 & l3 & l4 & -> & Hd2 & Hn2 & Hh2); [done.. | lia |].
  rewrite Hd1 in Hd2. destruct (app_eq_inv _ _ _ _ Hd2) as [(k & -> & ->)|(k & -> & ->)].
  - destruct k as [|r k].
    + exists b1, b2, l3, [], l2. rewrite !app_nil_r in *. simpl. rewrite Nat.add_0_r. done.
    + exfalso. simpl in Hh2. rewrite nxt_app in Hn1.
      subst data. norm_in Hwf. destruct Hwf as ((Hw3 & ? & ? & Hwk) & _).
      apply nxt_ge in Hwk. simpl in Hn1. lia.
  - exists b1, b2, l1, k, l4. rewrite length_app. done.
Qed.

Lemma notadded_loop_spec fuel X Y W acc :
  (length Y < fuel)%nat -> u32 acc = acc ->
  notadded_loop fuel (X ++ Y ++ W) (length X) (length X + length Y) acc
    = Some (u32 (acc + total Y)).
Proof.
  revert X Y acc. induction fuel as [|fuel IH]; intros X Y acc Hf Hacc; [lia |].
  destruct Y as [|r Y]; simpl.
  - rewrite Nat.add_0_r, Nat.ltb_irrefl, Z.add_0_r, Hacc. done.
  - rewrite (proj2 (Nat.ltb_lt _ _)) by lia. arr.
    replace (X ++ r :: Y ++ W) with ((X ++ [r]) ++ Y ++ W) by by rewrite <- app_assoc.
    replace (S (length X)) with (length (X ++ [r])) by (rewrite length_app; simpl; lia).
    replace (length X + S (length Y))%nat with (length (X ++ [r]) + length Y)%nat
      by (rewrite length_app; simpl; lia).
    simpl in Hf. rewrite IH by (try lia; apply u32_idem).
    f_equal. rewrite u32_add_l. f_equal. lia.
Qed.

(** How many sequences of the scanned ranges lie outside [s1..s2]. *)
Definition overlap (s1 s2 : Z) (B C : list seq_range) : Z :=
  total B
  - (match B ++ C with [] => 0 | r :: _ => if s1 <? seq1 r then 0 else s1 - seq1 r end)
  + (match C with
     | [] => 0
     | c :: _ => if s2 <? seq1 c then 0 else s2 + 1 - seq1 c
     end).

Lemma add_range_r_count_spec A B C s1 s2 :
  add_range_r_count (A ++ B ++ C) s1 s2 (length A) (length A + length B)
    = Some (u32 (s2 + 1 - s1 - overlap s1 s2 B C)).
Proof.
  unfold add_range_r_count, overlap. rewrite !length_app.
  assert (H1 : (if (length A =? length A + (length B + length C))%nat then Some 0
     else r ← (A ++ B ++ C) !! length A;
          Some (if s1 <? seq1 r then 0 else u32 (0 + (s1 - seq1 r))))
    = Some (u32 (match B ++ C with [] => 0
            | r :: _ => if s1 <? seq1 r then 0 else s1 - seq1 r end))).
  { destruct B as [|b B]; [destruct C as [|c C] |]; simpl app; simpl length.
    - zcases. done.
    - zcase1. arr. by destruct (_ <? _).
    - zcase1. arr. by destruct (_ <? _). }
  rewrite H1. cbn [mbind option_bind].
  set (o1 := match B ++ C with [] => 0 | _ => _ end). clearbody o1. clear H1.
  destruct C as [|c C]; simpl length.
  - rewrite (proj2 (Nat.eqb_eq _ _)) by lia. cbn [mbind option_bind].
    rewrite notadded_loop_spec by (done || lia). cbn [mbind option_bind].
    f_equal. u32_lia.
  - rewrite (proj2 (Nat.eqb_neq _ _)) by lia.
    replace (length A + length B)%nat with (length (A ++ B)) by apply length_app.
    rewrite app_assoc. arr. destruct (s2 <? seq1 c); cbn [mbind option_bind].
    + rewrite <- app_assoc, length_app.
      rewrite notadded_loop_spec by (done || lia). cbn [mbind option_bind].
      f_equal. u32_lia.
    + rewrite length_app.
      replace ((A ++ B) ++ c :: C) with (A ++ (B ++ [c]) ++ C) by by rewrite <- !app_assoc.
      replace (S (length A + length B)) with (length A + length (B ++ [c]))%nat
        by (rewrite length_app; simpl; lia).
      rewrite notadded_loop_spec by (done || (rewrite !length_app; simpl; lia)).
      cbn [mbind option_bind].
      f_equal. rewrite total_app. simpl. u32_lia.
Qed.

Lemma add_range_adjust_spec A B C s1 :
  wf (A ++ B ++ C) -> nxt 0 A <= s1 + 1 -> hd_ge s1 (B ++ C) -> is_u32 s1 ->
  exists A1 B1, A ++ B = A1 ++ B1 /\
    add_range_adjust (A ++ B ++ C) s1 (length A) = Some (length A1) /\
    nxt 0 A1 <= s1 /\ hd_ge (s1 - 1) (B1 ++ C) /\
    (B1 = B \/ exists rp, B1 = rp :: B /\ seq2 rp = s1 - 1).
Proof.
  intros Hwf Hn Hh Hs1. unfold is_u32 in Hs1. unfold add_range_adjust.
  assert (Hh' : hd_ge (s1 - 1) (B ++ C)) by (destruct (B ++ C); simpl in *; [done | lia]).
  destruct (snoc_split A) as [->|(A' & rp & ->)].
  { exists [], B. simpl in *. repeat split; try done; [lia | tauto]. }
  rewrite length_app, Nat.add_1_r. rewrite <- !app_assoc in *. simpl app in *.
  change (0 <? S (length A'))%nat with true. replace (S (length A') - 1)%nat with (length A') by lia.
  arr. norm_in Hwf. destruct Hwf as (HwA & ? & ? & _). norm_in Hn.
  pose proof (nxt_ge _ _ HwA).
  rewrite u32_small by (unfold is_u32; lia).
  destruct (Z.eqb_spec (seq2 rp + 1) s1).
  - exists A', (rp :: B). repeat split; try done; simpl; try lia. right. exists rp. split; [done | lia].
  - exists (A' ++ [rp]), B. rewrite <- app_assoc, length_app, Nat.add_1_r, nxt_app. simpl.
    repeat split; try done; [lia | tauto].
Qed.

Ltac solve_len := rewrite ?length_app; simpl; rewrite ?length_app; simpl; lia.

Definition add_range_post (data : list seq_range) (s1 s2 : Z) (w : bool)
    (res : option Z * list seq_range) : Prop :=
  wf res.2 /\ (forall x, mem x res.2 = (s1 <=? x) && (x <=? s2) || mem x data) /\
  (length res.2 <= S (length data))%nat /\
  res.1 = if w then Some (u32 (total res.2 - total data)) else None.

Lemma add_range_post_intro data s1 s2 (w : bool) data' n :
  wf data' -> (forall x, mem x data' = (s1 <=? x) && (x <=? s2) || mem x data) ->
  (length data' <= S (length data))%nat -> total data' - total data = n ->
  exists res, Some (if w then Some (u32 n) else None, data') = Some res /\
    add_range_post data s1 s2 w res.
Proof. intros ? ? ? Hn. eexists; split; [done |]. split_and!; try done. destruct w; [|done]. simpl. by rewrite Hn. Qed.

Lemma add_range_no_overlap_spec A B C s1 s2 :
  wf (A ++ B ++ C) -> nxt 0 A <= s1 -> is_u32 s1 ->
  add_range_no_overlap (A ++ B ++ C) s1 s2 (length A) (length A + length B) =
    Some (match B, C with
          | [], [] => true
          | [], c :: _ => seq1 c >? u32 (s2 + 1)
          | _, _ => false
          end).
Proof.
  intros Hwf HnA Hs1. unfold add_range_no_overlap.
  destruct B as [|b B]; simpl length.
  2: { rewrite (proj2 (Nat.eqb_neq _ _)) by lia. done. }
  rewrite Nat.add_0_r, Nat.eqb_refl. simpl app.
  assert (Hlast : (if (length A =? 0)%nat then Some true
     else rp ← (A ++ C) !! (length A - 1)%nat; Some (seq2 rp <? u32 (s1 - 1))) = Some true).
  { destruct (snoc_split A) as [->|(A' & rp & ->)]; [done |].
    rewrite <- app_assoc, length_app, Nat.add_1_r.
    replace (S (length A') - 1)%nat with (length A') by lia. simpl. arr.
    norm_in Hwf. norm_in HnA. destruct Hwf as ((HwA & ? & ? & _) & _). apply nxt_ge in HwA.
    f_equal. u32_lia. }
  rewrite Hlast. destruct C as [|c C].
  - rewrite app_nil_r, Nat.eqb_refl in *. cbn [mbind option_bind]. done.
  - rewrite (proj2 (Nat.eqb_neq _ _)) by (rewrite length_app; simpl; lia).
    rewrite list_lookup_middle by done. cbn [mbind option_bind].
    by destruct (seq1 c >? _).
Qed.

(** Merging when the new range reaches the ranges [b :: B], and possibly the
    one after them. *)
Lemma add_range_merge_left A b B C s1 s2 :
  seq2 b < s2 -> nxt 0 (A ++ b :: B) <= s2 + 1 -> wf (A ++ (b :: B) ++ C) ->
  (forall c C', C = c :: C' -> u32 (s2 + 1) = s2 + 1) ->
  add_range_merge (A ++ (b :: B) ++ C) s1 s2 (length A) (length A + length (b :: B)) =
    Some (A ++ match C with
               | c :: C' =>
                   if seq1 c >? s2 + 1 then SR (Z.min s1 (seq1 b)) s2 :: C
                   else SR (Z.min s1 (seq1 b)) (Z.max s2 (seq2 c)) :: C'
               | [] => [SR (Z.min s1 (seq1 b)) s2]
               end).
Proof.
  intros Hb HnB Hwf HC. unfold add_range_merge.
  rewrite assert_true by (apply Nat.ltb_lt; rewrite !length_app; simpl; lia).
  simpl app. rewrite list_lookup_middle by done. cbn [mbind option_bind].
  set (b' := SR (Z.min s1 (seq1 b)) (seq2 b)).
  assert (Hset : (if s1 <? seq1 b then array_set (A ++ b :: B ++ C) (length A) (set_seq1 s1 b)
     else Some (A ++ b :: B ++ C)) = Some (A ++ b' :: B ++ C)).
  { subst b'. destruct (Z.ltb_spec s1 (seq1 b)).
    - arr. rewrite Z.min_l by lia. done.
    - rewrite Z.min_r by lia. by destruct b. }
  rewrite Hset. cbn [mbind option_bind]. rewrite Z.gtb_ltb, (proj2 (Z.ltb_lt _ _)) by lia.
  destruct (snoc_split (b' :: B)) as [|(B' & bl & HB)]; [done |].
  assert (Hbl : seq2 bl <= s2).
  { assert (Hn : nxt 0 (A ++ b' :: B) <= s2 + 1) by by rewrite nxt_app in *.
    rewrite HB, !nxt_app in Hn. simpl in Hn. lia. }
  assert (HlB : (length B = length B')%nat).
  { apply (f_equal length) in HB. rewrite length_app in HB. simpl in HB. lia. }
  assert (Hlast : (A ++ b' :: B ++ C) !! (length A + length (b :: B) - 1)%nat = Some bl).
  { replace (A ++ b' :: B ++ C) with ((A ++ B') ++ bl :: C)
      by (rewrite app_comm_cons, HB; by rewrite <- !app_assoc).
    apply lookup_app_mid. rewrite length_app. simpl. lia. }
  assert (Hdel : forall n v, n = length B ->
    array_delete (A ++ v :: B ++ C) (length A + 1) n = A ++ v :: C).
  { intros n v ->. pose proof (array_delete_app (A ++ [v]) B C) as H.
    rewrite length_app in H. rewrite <- !app_assoc in H. exact H. }
  unfold idx_sub. rewrite !length_app. simpl length. simpl length in Hlast.
  destruct C as [|c C].
  - rewrite (proj2 (Nat.eqb_eq _ _)) by (rewrite length_app; simpl; lia).
    rewrite (proj2 (Nat.leb_le 1 _)) by lia. cbn [mbind option_bind].
    rewrite Hlast, list_lookup_middle by done. cbn [mbind option_bind].
    rewrite Z.geb_leb, (proj2 (Z.leb_le _ _)) by lia. arr.
    rewrite (proj2 (Nat.leb_le _ _)) by lia. cbn [mbind option_bind].
    by rewrite Hdel by lia.
  - rewrite (proj2 (Nat.eqb_neq _ _)) by (rewrite length_app; simpl; lia).
    assert (Hc : (A ++ b' :: B ++ c :: C) !! (length A + S (length B))%nat = Some c).
    { replace (A ++ b' :: B ++ c :: C) with ((A ++ b' :: B) ++ c :: C) by by rewrite <- app_assoc.
      apply lookup_app_mid. rewrite length_app. simpl. lia. }
    rewrite Hc. cbn [mbind option_bind]. rewrite (HC c C) by done.
    rewrite Z.gtb_ltb. destruct (Z.ltb_spec (s2 + 1) (seq1 c)).
    + rewrite (proj2 (Nat.leb_le 1 _)) by lia. cbn [mbind option_bind].
      rewrite Hlast, list_lookup_middle by done. cbn [mbind option_bind].
      rewrite Z.geb_leb, (proj2 (Z.leb_le _ _)) by lia. arr.
      rewrite (proj2 (Nat.leb_le _ _)) by lia. cbn [mbind option_bind].
      by rewrite Hdel by lia.
    + cbn [mbind option_bind]. rewrite Hc, list_lookup_middle by done. cbn [mbind option_bind].
      arr.
      replace (if s2 >=? seq2 c then Some (A ++ set_seq2 s2 b' :: B ++ c :: C)
               else Some (A ++ set_seq2 (seq2 c) b' :: B ++ c :: C))
        with (Some (A ++ SR (Z.min s1 (seq1 b)) (Z.max s2 (seq2 c)) :: B ++ c :: C)).
      2: { rewrite Z.geb_leb. destruct (Z.leb_spec (seq2 c) s2);
             [rewrite Z.max_l by lia | rewrite Z.max_r by lia]; done. }
      cbn [mbind option_bind]. rewrite (proj2 (Nat.leb_le _ _)) by lia. cbn [mbind option_bind].
      f_equal. pose proof (array_delete_app (A ++ [SR (Z.min s1 (seq1 b)) (Z.max s2 (seq2 c))])
        (B ++ [c]) C) as H'.
      rewrite !length_app in H'. rewrite <- !app_assoc in H'. simpl in H'. rewrite <- H'.
      f_equal. lia.
Qed.

(** Merging into the range that already reaches past the new one. *)
Lemma add_range_merge_in A c C s1 s2 :
  s2 <= seq2 c ->
  add_range_merge (A ++ c :: C) s1 s2 (length A) (length A)
    = Some (A ++ SR (Z.min s1 (seq1 c)) (seq2 c) :: C).
Proof.
  intros Hc. unfold add_range_merge.
  rewrite assert_true by (apply Nat.ltb_lt; rewrite !length_app; simpl; lia).
  rewrite list_lookup_middle by done. cbn [mbind option_bind]. arr.
  rewrite Z.gtb_ltb, (proj2 (Z.ltb_ge (seq2 c) s2)) by lia.
  destruct (Z.ltb_spec s1 (seq1 c)); cbn [mbind option_bind];
    [rewrite Z.min_l by lia | rewrite Z.min_r by lia; destruct c]; done.
Qed.

Lemma seq_range_array_add_range_internal_spec data s1 s2 w :
  wf data -> len_ok data -> 0 <= s1 <= s2 -> s2 <= UINT32_MAX ->
  (s2 = UINT32_MAX -> mem UINT32_MAX data = false) ->
  exists res, seq_range_array_add_range_internal data s1 s2 w = Some res /\
    add_range_post data s1 s2 w res.
Proof.
  intros Hwf Hlen Hs Hs2 Hmax. unfold seq_range_array_add_range_internal.
  destruct (seq_range_lookup_pair data s1 s2)
    as (b1 & b2 & A & B & C & -> & -> & -> & HnA & HnB & Hh1 & Hh2); [done.. |].
  cbn [mbind option_bind].
  rewrite add_range_r_count_spec.
  replace (if w then Some <$> Some (u32 (s2 + 1 - s1 - overlap s1 s2 B C)) else Some None)
    with (Some (if w then Some (u32 (s2 + 1 - s1 - overlap s1 s2 B C)) else None))
    by by destruct w.
  cbn [mbind option_bind].
  destruct (add_range_adjust_spec A B C s1) as (A1 & B1 & HAB & -> & HnA1 & Hh3 & HB1);
    [done.. | unfold is_u32; lia |].
  cbn [mbind option_bind].
  replace (length A + length B)%nat with (length A1 + length B1)%nat
    by (rewrite <- !length_app; by rewrite HAB).
  assert (Hd : A ++ B ++ C = A1 ++ B1 ++ C) by by rewrite !app_assoc, HAB.
  rewrite HAB in HnB. rewrite Hd in *. clear Hd HAB HnA A.
  assert (HC : forall c C', C = c :: C' -> u32 (s2 + 1) = s2 + 1).
  { intros c C' ->. simpl in Hh2. norm_in Hwf. destruct Hwf as (_ & _ & ? & ? & _).
    apply u32_small. unfold is_u32. destruct (decide (s2 = UINT32_MAX)); [| lia].
    exfalso. specialize (Hmax e). rewrite !mem_app in Hmax. simpl in Hmax. lia. }
  rewrite add_range_no_overlap_spec by (done || unfold is_u32; lia).
  cbn [mbind option_bind].
  destruct B1 as [|b B1].
  - assert (HB : B = []) by (destruct HB1 as [<-|(? & ? & _)]; done). subst B. clear HB1.
    simpl app in *. simpl length. rewrite Nat.add_0_r. norm_in Hwf. norm_in HnB.
    destruct Hwf as [HwA HwC]. unfold overlap. simpl app.
    destruct C as [|c C]; [| rewrite (HC c C) by done; simpl in Hh2, HwC; simpl app;
      rewrite Z.gtb_ltb; destruct (Z.ltb_spec (s2 + 1) (seq1 c))].
    + arr. apply add_range_post_intro; [solve_wf | solve_mem | solve_len |].
      rewrite !total_app. simpl. lia.
    + arr. apply add_range_post_intro; [solve_wf | solve_mem | solve_len |].
      rewrite !total_app. simpl. zcases.
    + rewrite add_range_merge_in by lia. cbn [mbind option_bind].
      apply add_range_post_intro; [solve_wf | solve_mem | solve_len |].
      rewrite !total_app. simpl. zcases.
  - replace (match C with [] | _ => false end) with false by by destruct C.
    assert (Hb : seq2 b < s2 /\ s1 - 1 <= seq2 b).
    { split; [| simpl in Hh3; lia]. clear -Hwf HnB Hs. norm_in Hwf. norm_in HnB.
      destruct Hwf as (_ & (_ & _ & HwB) & _). apply nxt_ge in HwB. lia. }
    rewrite add_range_merge_left by (done || lia). cbn [mbind option_bind].
    assert (Hov : overlap s1 s2 B C = total (b :: B1) + Z.min s1 (seq1 b) - s1 +
              match C with [] => 0 | c :: _ => if s2 <? seq1 c then 0 else s2 + 1 - seq1 c end).
    { unfold overlap. norm_in Hwf. destruct Hwf as (_ & (? & ? & HwB) & HwC).
      destruct HB1 as [<-|(rp & [= -> ->] & Hrp)]; simpl.
      - destruct C; zcases.
      - assert (Hz : match B ++ C with [] => 0
                     | r :: _ => if s1 <? seq1 r then 0 else s1 - seq1 r end = 0).
        { destruct B as [|r B]; [destruct C as [|r C]; [done|] |]; simpl in *; zcases. }
        rewrite Hz. lia. }
    norm_in Hwf. norm_in HnB. destruct Hwf as (HwA & (? & ? & HwB) & HwC).
    pose proof (nxt_ge _ _ HwB).
    assert (HmB : forall x, mem x B1 = true -> seq1 b <= x <= s2)
      by (intros x Hx; pose proof (mem_bounds _ _ x HwB Hx); lia).
    rewrite Hov. destruct C as [|c C]; [| simpl in Hh2, HwC;
      rewrite Z.gtb_ltb; destruct (Z.ltb_spec (s2 + 1) (seq1 c))].
    + apply add_range_post_intro; [solve_wf | intros x; specialize (HmB x); solve_mem | solve_len |].
      rewrite !total_app. simpl. lia.
    + apply add_range_post_intro; [solve_wf | intros x; specialize (HmB x); solve_mem | solve_len |].
      rewrite !total_app. simpl. zcases.
    + apply add_range_post_intro; [solve_wf | intros x; specialize (HmB x); solve_mem | solve_len |].
      rewrite !total_app. simpl. zcases.
Qed.

(** ** Removing *)

Definition remove_post (data : list seq_range) (seq : Z) (res : bool * list seq_range) : Prop :=
  wf res.2 /\ res.1 = mem seq data /\
  (forall x, mem x res.2 = mem x data && negb (x =? seq)) /\
  (length res.2 <= S (length data))%nat /\
  total res.2 = total data - (if res.1 then 1 else 0).

Lemma remove_post_intro data seq b data' :
  wf data' -> mem seq data = b -> (forall x, mem x data' = mem x data && negb (x =? seq)) ->
  (length data' <= S (length data))%nat -> total data' = total data - (if b then 1 else 0) ->
  exists res, Some (b, data') = Some res /\ remove_post data seq res.
Proof. intros. eexists; split; [done |]. by split_and!. Qed.

Ltac solve_remove :=
  apply remove_post_intro;
  [solve_wf | solve_mem | solve_mem | solve_len
  | rewrite ?total_app; simpl; lia].

(** Removal inside the range the search stopped at. *)
Lemma seq_range_array_remove_at l1 r l2 seq :
  wf (l1 ++ r :: l2) -> seq1 r <= seq <= seq2 r ->
  exists res,
    (if seq1 r =? seq then
       if seq1 r =? seq2 r then Some (true, array_delete (l1 ++ r :: l2) (length l1) 1)
       else
         data ← array_set (l1 ++ r :: l2) (length l1) (set_seq1 (u32 (seq1 r + 1)) r);
         Some (true, data)
     else if seq2 r =? seq then
       data ← array_set (l1 ++ r :: l2) (length l1) (set_seq2 (u32 (seq2 r - 1)) r);
       Some (true, data)
     else
       let value := SR (u32 (seq + 1)) (seq2 r) in
       data ← array_set (l1 ++ r :: l2) (length l1) (set_seq2 (u32 (seq - 1)) r);
       data ← array_insert data (length l1 + 1) value;
       Some (true, data)) = Some res /\ remove_post (l1 ++ r :: l2) seq res.
Proof.
  intros Hwf Hr. norm_in Hwf. destruct Hwf as (Hw1 & ? & ? & Hw2).
  pose proof (nxt_ge _ _ Hw1). rewrite Nat.add_1_r. arr.
  destruct (Z.eqb_spec (seq1 r) seq); [destruct (Z.eqb_spec (seq1 r) (seq2 r)) |].
  - solve_remove.
  - rewrite u32_small by (unfold is_u32; lia). solve_remove.
  - destruct (Z.eqb_spec (seq2 r) seq); cbv zeta; arr;
      rewrite !u32_small by (unfold is_u32; lia); solve_remove.
Qed.

Lemma seq_range_array_remove_loop_spec fuel l1 m l2 seq :
  wf (l1 ++ m ++ l2) -> nxt 0 l1 <= seq + 1 -> wf_from (seq + 1) l2 ->
  (length m < fuel)%nat ->
  exists res,
    seq_range_array_remove_loop fuel (l1 ++ m ++ l2) seq (length l1) (length (l1 ++ m))
      = Some res /\ remove_post (l1 ++ m ++ l2) seq res.
Proof.
  revert l1 m l2. induction fuel as [|fuel IH]; intros l1 m l2 Hwf Hlo Hhi Hf; [lia |].
  destruct (decide (m = [])) as [->|Hm].
  - simpl. rewrite app_nil_r, Nat.ltb_irrefl. norm_in Hwf. destruct Hwf as [Hw1 Hw2]. simpl in *.
    solve_remove.
  - destruct (mid_split l1 m Hm) as (m1 & r & m2 & -> & Hmid).
    rewrite !length_app in Hf; simpl in Hf. cbn [seq_range_array_remove_loop].
    rewrite (proj2 (Nat.ltb_lt _ _)), Hmid by (rewrite !length_app; simpl; lia).
    assert (Hd : l1 ++ (m1 ++ r :: m2) ++ l2 = (l1 ++ m1) ++ r :: (m2 ++ l2))
      by by rewrite <- !app_assoc.
    rewrite Hd in *. rewrite lookup_app_mid by done. cbn [mbind option_bind].
    rewrite Z.gtb_ltb. destruct (Z.ltb_spec seq (seq1 r)).
    + pose proof (proj2 (proj1 (wf_from_app _ _ _) Hwf)) as (? & ? & ?).
      rewrite <- app_assoc in *. apply IH; try lia; try done; simpl. split; [lia | done].
    + destruct (Z.ltb_spec (seq2 r) seq).
      * replace (length (l1 ++ m1) + 1)%nat with (length ((l1 ++ m1) ++ [r]))
          by (rewrite !length_app; simpl; lia).
        replace (length (l1 ++ m1 ++ r :: m2)) with (length (((l1 ++ m1) ++ [r]) ++ m2))
          by (rewrite !length_app; simpl; lia).
        replace ((l1 ++ m1) ++ r :: m2 ++ l2) with (((l1 ++ m1) ++ [r]) ++ m2 ++ l2)
          in * by by rewrite <- !app_assoc.
        apply IH; try lia; try done. rewrite nxt_app. simpl. lia.
      * apply seq_range_array_remove_at; [done | lia].
Qed.

Lemma seq_range_array_remove_spec data seq :
  wf data -> len_ok data -> is_u32 seq ->
  exists res, seq_range_array_remove data seq = Some res /\ remove_post data seq res.
Proof.
  intros Hwf Hlen Hseq. unfold seq_range_array_remove.
  destruct (array_ends data) as [->|(r0 & l0 & l & rl & Hd0 & Hdl & -> & -> & -> & ->)].
  { simpl. solve_remove. }
  cbn [mbind option_bind].
  pose proof Hwf as Hwf1. rewrite Hd0 in Hwf1. norm_in Hwf1. destruct Hwf1 as (? & ? & Hw0).
  pose proof Hwf as Hwf2. rewrite Hdl in Hwf2. norm_in Hwf2. destruct Hwf2 as (Hwl & ? & ? & _).
  pose proof (nxt_ge _ _ Hwl). unfold is_u32 in *.
  rewrite Z.gtb_ltb. destruct (Z.ltb_spec (seq2 rl) seq); simpl orb.
  { rewrite Hdl in *. solve_remove. }
  destruct (Z.ltb_spec seq (seq1 r0)); simpl orb.
  { rewrite Hd0 in *. solve_remove. }
  destruct (Z.eqb_spec (seq2 rl) seq).
  { rewrite Hdl in *. clear Hd0 Hw0. destruct (Z.eqb_spec (seq1 rl) (seq2 rl)); simpl negb; arr.
    - solve_remove.
    - rewrite u32_small by (unfold is_u32; lia). solve_remove. }
  destruct (Z.eqb_spec (seq1 r0) seq).
  { rewrite Hd0 in *. clear Hdl Hwl. destruct (Z.eqb_spec (seq1 r0) (seq2 r0)); simpl.
    - unfold array_delete. simpl. rewrite drop_0. solve_remove.
    - rewrite u32_small by (unfold is_u32; lia). solve_remove. }
  rewrite assert_true by by apply Z.ltb_lt. cbn [mbind option_bind].
  pose proof (seq_range_array_remove_loop_spec (S (length data)) [] data [] seq) as H'.
  simpl in H'. rewrite app_nil_r in H'. apply H'; try done; lia.
Qed.

Lemma remove_range_scan_spec fuel X D s2 lo rc :
  wf_from lo D -> mem (s2 + 1) D = false -> (length D < fuel)%nat -> u32 rc = rc ->
  exists Y W, D = Y ++ W /\
    remove_range_scan fuel (X ++ D) s2 (length X) rc
      = Some ((length X + length Y)%nat, u32 (rc + total Y)) /\
    (forall x, mem x Y = mem x D && (x <=? s2)) /\
    (forall x, mem x W = mem x D && negb (x <=? s2)).
Proof.
  revert X D lo rc. induction fuel as [|fuel IH]; intros X D lo rc Hwf Hm Hf Hrc; [lia |].
  destruct D as [|r D].
  - exists [], []. cbn [remove_range_scan]. rewrite (app_nil_r X), Nat.ltb_irrefl. simpl.
    by rewrite Nat.add_0_r, Z.add_0_r, Hrc.
  - cbn [remove_range_scan]. rewrite (proj2 (Nat.ltb_lt _ _)) by (rewrite length_mid; lia).
    rewrite list_lookup_middle by done. cbn [mbind option_bind]. simpl in Hwf, Hm, Hf.
    destruct Hwf as (? & ? & Hw). rewrite Z.gtb_ltb. destruct (Z.ltb_spec s2 (seq1 r)).
    + exists [], (r :: D). rewrite Nat.add_0_r, Z.add_0_r, Hrc. split_and!; try done.
      all: intros x; simpl; pose proof (mem_bounds _ _ x Hw); lia.
    + replace (X ++ r :: D) with ((X ++ [r]) ++ D) by by rewrite <- app_assoc.
      replace (S (length X)) with (length (X ++ [r])) by (rewrite length_app; simpl; lia).
      destruct (IH (X ++ [r]) D (seq2 r + 2) (u32 (rc + (seq2 r - seq1 r + 1))))
        as (Y & W & -> & -> & HY & HW); [done | lia | lia | apply u32_idem |].
      exists (r :: Y), W. rewrite u32_add_l, length_app. simpl. split_and!; try done.
      * do 2 f_equal; [lia | f_equal; lia].
      * intros x. rewrite HY. lia.
      * intros x. rewrite HW. lia.
Qed.

Lemma wf_drop_mid lo A Y W : wf_from lo (A ++ Y ++ W) -> wf_from lo (A ++ W).
Proof.
  rewrite !wf_from_app. intros (HA & HY & HW). split; [done |].
  eapply wf_from_mono; [| done]. by apply nxt_ge.
Qed.

Lemma remove_range_between_spec data s1 s2 rc :
  wf data -> len_ok data -> 0 < s1 <= s2 -> u32 rc = rc ->
  mem (s1 - 1) data = false -> mem (s2 + 1) data = false ->
  exists d, remove_range_between data s1 s2 rc = Some (u32 (rc + total data - total d), d) /\
    wf d /\ (forall x, mem x d = mem x data && negb ((s1 <=? x) && (x <=? s2))) /\
    (length d <= length data)%nat.
Proof.
  intros Hwf Hlen Hs Hrc Hm1 Hm2. unfold remove_range_between.
  destruct (seq_range_lookup_pos data s1) as (b & l1 & l2 & -> & -> & Hn & Hh); [done.. | lia |].
  cbn [mbind option_bind]. pose proof Hwf as Hwf'. norm_in Hwf'. destruct Hwf' as [Hw1 Hw2].
  rewrite mem_app in Hm1, Hm2. destruct l2 as [|r l2].
  { rewrite app_nil_r in *. rewrite Nat.eqb_refl. exists l1. split_and!; try done.
    - do 2 f_equal. rewrite <- Hrc at 1. f_equal. lia.
    - intros x. pose proof (mem_bounds _ _ x Hw1). lia. }
  rewrite (proj2 (Nat.eqb_neq _ _)) by (rewrite length_mid; lia).
  rewrite list_lookup_middle by done. cbn [mbind option_bind].
  assert (Hr : s1 <= seq1 r) by (simpl in Hh, Hm1, Hw2; lia).
  rewrite assert_true by lia. cbn [mbind option_bind].
  destruct (remove_range_scan_spec (S (length (l1 ++ r :: l2))) l1 (r :: l2) s2 (nxt 0 l1) rc)
    as (Y & W & HYW & -> & HY & HW); [done | lia | rewrite length_mid; simpl; lia | done |].
  cbn [mbind option_bind]. unfold idx_sub. rewrite (proj2 (Nat.leb_le _ _)) by lia.
  cbn [mbind option_bind]. replace (length l1 + length Y - length l1)%nat with (length Y) by lia.
  exists (l1 ++ W). pose proof (Hw2) as (_ & _ & Hw2').
  assert (Hx : forall x, mem x (r :: l2) = true -> s1 <= x).
  { intros x. simpl. pose proof (mem_bounds _ _ x Hw2'). simpl in Hw2. lia. }
  rewrite HYW in *. rewrite array_delete_app. split_and!.
  - do 2 f_equal. f_equal. rewrite !total_app. lia.
  - by eapply wf_drop_mid.
  - intros x. rewrite !mem_app. specialize (Hx x). specialize (HW x). specialize (HY x).
    rewrite !mem_app in *. pose proof (mem_bounds _ _ x Hw1). clear -Hx HW HY Hn H Hs. lia.
  - rewrite !length_app. lia.
Qed.

Definition remove_range_post (data : list seq_range) (s1 s2 : Z) (res : Z * list seq_range)
    : Prop :=
  wf res.2 /\ (forall x, mem x res.2 = mem x data && negb ((s1 <=? x) && (x <=? s2))) /\
  (length res.2 <= S (S (length data)))%nat /\
  res.1 = u32 (total data - total res.2).

Lemma seq_range_array_remove_range_spec data s1 s2 :
  wf data -> Z.of_nat (length data) + 2 < INT_MAX -> 0 <= s1 <= s2 -> s2 <= UINT32_MAX ->
  exists res, seq_range_array_remove_range data s1 s2 = Some res /\
    remove_range_post data s1 s2 res.
Proof.
  intros Hwf Hlen Hs Hs2. unfold seq_range_array_remove_range.
  destruct (seq_range_array_remove_spec data s1) as ((b1 & d1) & -> & Hw1 & Hb1 & Hm1 & Hl1 & Ht1);
    [done | unfold len_ok; lia | unfold is_u32; lia |].
  cbn [mbind option_bind fst snd] in *. destruct (Z.eqb_spec s1 s2).
  { eexists; split; [done |]. split_and!; cbn [fst snd]; try done; try lia.
    - intros x. rewrite Hm1. lia.
    - rewrite Ht1. destruct b1; u32_lia. }
  destruct (seq_range_array_remove_spec d1 s2) as ((b2 & d2) & -> & Hw2 & Hb2 & Hm2 & Hl2 & Ht2);
    [done | unfold len_ok; lia | unfold is_u32; lia |].
  cbn [mbind option_bind fst snd] in *.
  rewrite (u32_small (s1 + 1)), (u32_small (s2 - 1)) by (unfold is_u32; lia).
  set (rc := if b2 then _ else _).
  assert (Hrc : rc = u32 (total data - total d2) /\ u32 rc = rc).
  { subst rc. rewrite Ht2, Ht1. destruct b1, b2; u32_lia. }
  destruct Hrc as [Hrc Hrc']. clearbody rc. rewrite Z.gtb_ltb.
  destruct (Z.ltb_spec (s2 - 1) (s1 + 1)).
  { eexists; split; [done |]. split_and!; cbn [fst snd]; try done; try lia.
    intros x. rewrite Hm2, Hm1. lia. }
  destruct (remove_range_between_spec d2 (s1 + 1) (s2 - 1) rc) as (d & -> & Hw & Hm & Hl);
    [done | unfold len_ok; lia | lia | done | rewrite Hm2, Hm1; lia.. |].
  eexists; split; [done |]. split_and!; cbn [fst snd]; try done; try lia.
  - intros x. rewrite Hm, Hm2, Hm1. lia.
  - rewrite Hrc. u32_lia.
Qed.

(** ** The sequences in order *)

Definition elements (l : list seq_range) : list Z :=
  concat (map (fun r => seqZ (seq1 r) (seq2 r - seq1 r + 1)) l).

Lemma elements_cons r l :
  elements (r :: l) = seqZ (seq1 r) (seq2 r - seq1 r + 1) ++ elements l.
Proof. done. Qed.

Lemma elements_app l1 l2 : elements (l1 ++ l2) = elements l1 ++ elements l2.
Proof. unfold elements. by rewrite map_app, concat_app. Qed.

Lemma length_elements lo l : wf_from lo l -> Z.of_nat (length (elements l)) = total l.
Proof.
  revert lo. induction l as [|r l IH]; intros lo; simpl; [done |].
  intros (? & ? & Hw). rewrite elements_cons, length_app, length_seqZ.
  specialize (IH _ Hw). lia.
Qed.

Lemma elem_of_elements l x : x ∈ elements l <-> mem x l = true.
Proof.
  induction l as [|r l IH]; simpl.
  - rewrite elem_of_nil. done.
  - rewrite elements_cons, elem_of_app, elem_of_seqZ, IH. lia.
Qed.

Lemma seqZ_sorted m n : StronglySorted Z.lt (seqZ m n).
Proof.
  destruct (Z.le_ge_cases n 0) as [Hn|Hn]; [rewrite seqZ_nil by lia; constructor |].
  revert m. pattern n. apply natlike_ind; [| | done].
  - intros m. constructor.
  - intros k Hk IH m. rewrite seqZ_cons by lia. constructor.
    + replace (Z.pred (Z.succ k)) with k by lia. apply IH.
    + apply Forall_forall. intros x. rewrite elem_of_seqZ. lia.
Qed.

Lemma elements_sorted lo l : wf_from lo l -> StronglySorted Z.lt (elements l).
Proof.
  revert lo. induction l as [|r l IH]; intros lo; simpl; [constructor |].
  intros (? & ? & Hw). rewrite elements_cons. apply StronglySorted_app; split_and!.
  - intros x y. rewrite elem_of_seqZ, elem_of_elements. intros ? Hy.
    pose proof (mem_bounds _ _ _ Hw Hy). lia.
  - apply seqZ_sorted.
  - by eapply IH.
Qed.

Lemma total_bounds lo l : wf_from lo l -> 0 <= lo -> 0 <= total l <= Z.max 0 (UINT32_MAX + 1 - lo).
Proof.
  revert lo. induction l as [|r l IH]; intros lo; simpl; [lia |].
  intros (? & ? & Hw) ?. specialize (IH _ Hw). lia.
Qed.

(** An array is determined by the set it denotes. *)
Lemma wf_canonical lo1 lo2 l1 l2 :
  wf_from lo1 l1 -> wf_from lo2 l2 -> (forall x, mem x l1 = mem x l2) -> l1 = l2.
Proof.
  revert lo1 lo2 l2. induction l1 as [|r1 l1 IH]; intros lo1 lo2 [|r2 l2] H1 H2 Hm.
  - done.
  - specialize (Hm (seq1 r2)). simpl in *. lia.
  - specialize (Hm (seq1 r1)). simpl in *. lia.
  - simpl in H1, H2. destruct H1 as (? & ? & H1), H2 as (? & ? & H2).
    assert (Ha : seq1 r1 = seq1 r2).
    { pose proof (Hm (seq1 r1)) as Ha. pose proof (Hm (seq1 r2)) as Hb. simpl in Ha, Hb.
      pose proof (mem_bounds _ _ (seq1 r1) H2). pose proof (mem_bounds _ _ (seq1 r2) H1). lia. }
    assert (Hb : seq2 r1 = seq2 r2).
    { pose proof (Hm (seq2 r1 + 1)) as Hx. pose proof (Hm (seq2 r2 + 1)) as Hy. simpl in Hx, Hy.
      pose proof (mem_bounds _ _ (seq2 r1 + 1) H1). pose proof (mem_bounds _ _ (seq2 r2 + 1) H2). lia. }
    f_equal; [destruct r1, r2; simpl in *; congruence |].
    eapply IH; [done.. |]. intros x. specialize (Hm x). simpl in Hm.
    pose proof (mem_bounds _ _ x H1). pose proof (mem_bounds _ _ x H2). lia.
Qed.

Lemma seq_range_count_spec data : seq_range_count data = u32 (total data).
Proof.
  unfold seq_range_count.
  assert (H : forall acc, u32 acc = acc ->
    fold_left (fun c r => u32 (c + (seq2 r - seq1 r + 1))) data acc = u32 (acc + total data)).
  { induction data as [|r l IH]; intros acc Hacc; simpl.
    - by rewrite Z.add_0_r.
    - rewrite IH, u32_add_l by apply u32_idem. f_equal. lia. }
  by rewrite H.
Qed.
