(* ===== verification/SeqRangeSets.v ===== *)
(** * Sequence ranges: the set operations and the properties

    Merge, intersection, inversion, membership, counting and selection of the
    n-th sequence, each proved to compute the set operation of its name on the
    sets that its arguments stand for. *)

From S2P Require Import Prelude SeqRange SeqRangeProps.

(** ** Merge *)

Lemma seq_range_array_merge_loop_spec dest src lo :
  wf dest -> wf_from lo src -> 0 <= lo ->
  Z.of_nat (length dest + length src) < INT_MAX ->
  mem UINT32_MAX dest && mem UINT32_MAX src = false ->
  exists d, seq_range_array_merge_loop dest src = Some d /\ wf d /\
    forall x, mem x d = mem x dest || mem x src.
Proof.
  revert dest lo. induction src as [|r src IH]; intros dest lo Hwd Hws Hlo Hlen Hmax; simpl.
  { exists dest. split_and!; try done. intros x. by rewrite orb_false_r. }
  simpl in Hws, Hmax, Hlen. destruct Hws as (? & ? & Hws).
  unfold seq_range_array_add_range.
  destruct (seq_range_array_add_range_internal_spec dest (seq1 r) (seq2 r) false)
    as ((rc & d) & -> & Hwf & Hm & Hl & _); [done | unfold len_ok; lia | lia | lia | lia |].
  cbn [mbind option_bind fst snd] in *.
  destruct (IH d (seq2 r + 2)) as (d' & -> & Hwf' & Hm'); [done.. | lia | lia | |].
  { rewrite Hm. pose proof (mem_bounds _ _ UINT32_MAX Hws). lia. }
  exists d'. split_and!; try done. intros x. rewrite Hm', Hm. simpl. lia.
Qed.

Lemma seq_range_array_merge_spec dest src :
  wf dest -> wf src -> Z.of_nat (length dest + length src) < INT_MAX ->
  mem UINT32_MAX dest && mem UINT32_MAX src = false ->
  exists d, seq_range_array_merge dest src = Some d /\ wf d /\
    forall x, mem x d = mem x dest || mem x src.
Proof.
  intros Hwd Hws Hlen Hmax. unfold seq_range_array_merge.
  destruct dest as [|r dest]; simpl length; cbn [Nat.eqb].
  - exists src. split_and!; done.
  - by apply seq_range_array_merge_loop_spec with (lo := 0).
Qed.

(** ** Removing a set *)

Lemma seq_range_array_remove_seq_range_loop_spec dest src lo ret :
  wf dest -> wf_from lo src -> 0 <= lo -> u32 ret = ret ->
  Z.of_nat (length dest + 2 * length src) < INT_MAX ->
  exists d, seq_range_array_remove_seq_range_loop dest src ret
      = Some (u32 (ret + total dest - total d), d) /\ wf d /\
    forall x, mem x d = mem x dest && negb (mem x src).
Proof.
  revert dest lo ret. induction src as [|r src IH]; intros dest lo ret Hwd Hws Hlo Hret Hlen; simpl.
  { exists dest. split_and!; try done; [| intros x; by rewrite andb_true_r].
    do 2 f_equal. rewrite <- Hret at 1. f_equal. lia. }
  simpl in Hws, Hlen. destruct Hws as (? & ? & Hws).
  destruct (seq_range_array_remove_range_spec dest (seq1 r) (seq2 r))
    as ((n & d) & -> & Hwf & Hm & Hl & Hn); [done | lia | lia | lia |].
  cbn [mbind option_bind fst snd] in *.
  destruct (IH d (seq2 r + 2) (u32 (ret + n))) as (d' & -> & Hwf' & Hm');
    [done.. | lia | apply u32_idem | lia |].
  exists d'. split_and!; try done.
  - do 2 f_equal. rewrite Hn. u32_lia.
  - intros x. rewrite Hm', Hm. simpl. lia.
Qed.

(** ** Intersection *)

Lemma seq_range_array_intersect_loop_spec dest src lo last ret :
  wf dest -> wf_from lo src -> 0 <= last <= UINT32_MAX ->
  (lo = last + 2 \/ (lo = 0 /\ last = 0)) -> u32 ret = ret ->
  Z.of_nat (length dest + 2 * length src + 2) < INT_MAX ->
  exists last' d, seq_range_array_intersect_loop dest src last ret
      = Some (last', u32 (ret + total dest - total d), d) /\ wf d /\
    0 <= last' <= UINT32_MAX /\ last <= last' /\
    (length d <= length dest + 2 * length src)%nat /\
    (forall x, mem x src = true -> x <= last') /\
    forall x, mem x d = mem x dest && ((x <=? last) || mem x src || (last' <? x)).
Proof.
  revert dest lo last ret. induction src as [|r src IH];
    intros dest lo last ret Hwd Hws Hlast Hlo Hret Hlen; simpl.
  { exists last, dest. split_and!; try done; try lia.
    do 3 f_equal. rewrite <- Hret at 1. f_equal. lia. }
  simpl in Hws, Hlen. destruct Hws as (? & ? & Hws).
  rewrite (u32_small (last + 1)) by (unfold is_u32; lia).
  assert (Hstep : exists d, (if last + 1 <? seq1 r then
       '(n, dest) ← seq_range_array_remove_range dest (last + 1) (u32 (seq1 r - 1));
       Some (u32 (ret + n), dest) else Some (ret, dest))
     = Some (u32 (ret + total dest - total d), d) /\ wf d /\
       (length d <= length dest + 2)%nat /\
       forall x, mem x d = mem x dest && ((x <=? last) || (seq1 r <=? x))).
  { destruct (Z.ltb_spec (last + 1) (seq1 r)).
    - rewrite u32_small by (unfold is_u32; lia).
      destruct (seq_range_array_remove_range_spec dest (last + 1) (seq1 r - 1))
        as ((n & d) & -> & Hwf & Hm & Hl & Hn); [done | lia | lia | lia |].
      cbn [mbind option_bind fst snd] in *. exists d. split_and!; try done; try lia.
      + do 2 f_equal. rewrite Hn. u32_lia.
      + intros x. rewrite Hm. lia.
    - exists dest. split_and!; try done; try lia.
      do 2 f_equal. rewrite <- Hret at 1. f_equal. lia. }
  destruct Hstep as (d & -> & Hwf & Hl & Hm). cbn [mbind option_bind].
  destruct (IH d (seq2 r + 2) (seq2 r) (u32 (ret + total dest - total d)))
    as (last' & d' & -> & Hwf' & ? & ? & Hl' & Hsrc & Hm');
    [done | done | lia | by left | apply u32_idem | lia |].
  exists last', d'. split_and!; try done; try lia.
  - do 3 f_equal. u32_lia.
  - intros x. specialize (Hsrc x). lia.
  - intros x. rewrite Hm', Hm. specialize (Hsrc x). pose proof (mem_bounds _ _ x Hws).
    clear -H H0 H1 H2 H3 Hsrc Hlo Hlast. lia.
Qed.

Lemma seq_range_array_intersect_spec dest src :
  wf dest -> wf src -> Z.of_nat (length dest + 2 * length src + 2) < INT_MAX ->
  exists d, seq_range_array_intersect dest src = Some (u32 (total dest - total d), d) /\ wf d /\
    forall x, mem x d = mem x dest && ((x =? 0) || mem x src).
Proof.
  intros Hwd Hws Hlen. unfold seq_range_array_intersect.
  destruct (seq_range_array_intersect_loop_spec dest src 0 0 0)
    as (last & d & -> & Hwf & ? & _ & Hl & Hsrc & Hm); [done | done | lia | by right | done | lia |].
  cbn [mbind option_bind]. destruct (Z.eqb_spec last UINT32_MAX); simpl.
  - exists d. split_and!; try done. intros x. rewrite Hm. specialize (Hsrc x).
    unfold wf in Hwd. pose proof (mem_bounds _ _ x Hwd). unfold wf in Hws. pose proof (mem_bounds _ _ x Hws).
    lia.
  - rewrite (u32_small (last + 1)) by (unfold is_u32; lia).
    destruct (seq_range_array_remove_range_spec d (last + 1) UINT32_MAX)
      as ((k & d') & -> & Hwf' & Hm' & Hl' & Hk); [done | lia | lia | lia |].
    cbn [mbind option_bind fst snd] in *. exists d'. split_and!; try done.
    + do 2 f_equal. rewrite Hk. u32_lia.
    + intros x. rewrite Hm', Hm. specialize (Hsrc x).
      unfold wf in Hwd. pose proof (mem_bounds _ _ x Hwd).
      unfold wf in Hws. pose proof (mem_bounds _ _ x Hws). lia.
Qed.

(** ** Inversion *)

(** The gaps before the ranges of [D], from [min] on. *)
Fixpoint gaps (min : Z) (D : list seq_range) : list seq_range :=
  match D with
  | [] => []
  | r :: D =>
      if seq1 r =? min then gaps (seq2 r + 1) D
      else SR min (seq1 r - 1) :: gaps (seq2 r + 1) D
  end.

Definition last_end (min : Z) (D : list seq_range) : Z :=
  match last D with Some r => seq2 r + 1 | None => min end.

Lemma last_end_cons min r D : last_end min (r :: D) = last_end (seq2 r + 1) D.
Proof. unfold last_end. destruct D; [done |]. rewrite last_cons_cons. by destruct (last (s :: D)) eqn:E; [|apply last_None in E]. Qed.

Lemma invert_loop_spec fuel P D lo min :
  wf_from lo D -> 0 <= min <= lo -> (length D < fuel)%nat ->
  last_end min D <= UINT32_MAX ->
  invert_loop fuel (P ++ D) (length P) min = Some (last_end min D, P ++ gaps min D).
Proof.
  revert P D lo min. induction fuel as [|fuel IH]; intros P D lo min Hwf Hmin Hf Hmax; [lia |].
  destruct D as [|r D]; cbn [invert_loop gaps].
  - by rewrite app_nil_r, Nat.ltb_irrefl.
  - rewrite (proj2 (Nat.ltb_lt _ _)) by (rewrite length_mid; lia).
    rewrite list_lookup_middle by done. cbn [mbind option_bind].
    simpl in Hwf, Hf. destruct Hwf as (? & ? & Hwf). rewrite last_end_cons in *.
    assert (Hlt : seq2 r + 1 <= UINT32_MAX).
    { clear IH. revert Hmax Hwf. clear. revert r. induction D as [|r' D IH]; intros r; [done |].
      rewrite last_end_cons. simpl. intros H (? & ? & Hw). specialize (IH _ H Hw). lia. }
    rewrite u32_small by (unfold is_u32; lia). arr.
    destruct (Z.eqb_spec (seq1 r) min).
    + eapply IH; [done | lia.. | done].
    + rewrite u32_small by (unfold is_u32; lia).
      replace (S (length P)) with (length (P ++ [SR min (seq1 r - 1)])) by (rewrite length_app; simpl; lia).
      replace (P ++ SR min (seq1 r - 1) :: D) with ((P ++ [SR min (seq1 r - 1)]) ++ D) by by rewrite <- app_assoc.
      erewrite IH; [| done | lia.. | done]. by rewrite <- app_assoc.
Qed.

Lemma last_end_ge lo min D : wf_from lo D -> min <= lo -> min <= last_end min D.
Proof.
  revert lo min. induction D as [|r D IH]; intros lo min; [unfold last_end; simpl; lia |].
  simpl. intros (? & ? & Hw) ?. rewrite last_end_cons. specialize (IH _ (seq2 r + 1) Hw). lia.
Qed.

Lemma gaps_spec lo min max D :
  wf_from lo D -> min <= lo -> last_end min D <= max + 1 -> max <= UINT32_MAX ->
  let D' := gaps min D ++ (if last_end min D <=? max then [SR (last_end min D) max] else []) in
  wf_from min D' /\
  (forall x, mem x D' = (min <=? x) && (x <=? max) && negb (mem x D)).
Proof.
  revert lo min. induction D as [|r D IH]; intros lo min Hwf Hmin Hend Hmax; simpl.
  - unfold last_end in *. simpl in *. destruct (Z.leb_spec min max); simpl.
    + split; [lia | intros x; lia].
    + split; [done | intros x; lia].
  - simpl in Hwf. destruct Hwf as (? & ? & Hwf). rewrite last_end_cons in *.
    pose proof (last_end_ge _ (seq2 r + 1) _ Hwf ltac:(lia)).
    destruct (IH (seq2 r + 2) (seq2 r + 1)) as [Hw Hm]; [done | lia.. |].
    destruct (Z.eqb_spec (seq1 r) min); simpl.
    + split; [eapply wf_from_mono; [| done]; lia |].
      intros x. rewrite Hm. pose proof (mem_bounds _ _ x Hwf). lia.
    + split; [split_and!; try lia; eapply wf_from_mono; [| done]; lia |].
      intros x. rewrite Hm. pose proof (mem_bounds _ _ x Hwf). lia.
Qed.

Lemma seq_range_array_invert_spec data min max :
  wf data -> 0 <= min <= max -> max <= UINT32_MAX ->
  (forall x, mem x data = true -> min <= x <= max) ->
  (max = UINT32_MAX -> mem UINT32_MAX data = false) ->
  exists d, seq_range_array_invert data min max = Some d /\ wf d /\
    forall x, mem x d = (min <=? x) && (x <=? max) && negb (mem x data).
Proof.
  intros Hwf Hmm Hmax Hin Hm. unfold seq_range_array_invert.
  destruct (array_ends data) as [->|(r0 & l0 & l & rl & Hd0 & Hdl & -> & -> & -> & Hll)].
  { exists [SR min max]. split_and!; [done | unfold wf; simpl; lia | intros x; simpl; lia]. }
  cbn [mbind option_bind].
  assert (H0 : min <= seq1 r0 <= max).
  { apply Hin. rewrite Hd0 in Hwf |- *. simpl in *. unfold wf in Hwf. simpl in Hwf. lia. }
  assert (Hl : min <= seq2 rl <= max).
  { apply Hin. rewrite Hdl in Hwf |- *. norm_in Hwf. rewrite mem_app. simpl. lia. }
  rewrite !assert_true by lia. cbn [mbind option_bind].
  assert (Hend : last_end min data <= max + 1 /\ last_end min data <= UINT32_MAX).
  { unfold last_end. rewrite Hdl, last_snoc. destruct (decide (max = UINT32_MAX)); [| lia].
    specialize (Hm e). rewrite Hdl in Hwf, Hm. norm_in Hwf. rewrite mem_app in Hm. simpl in Hm. lia. }
  destruct ((seq1 r0 =? min) && (seq2 r0 =? max)) eqn:Hfull.
  { exists []. split_and!; try done. intros x. rewrite Hd0. simpl. lia. }
  assert (Hwm : wf_from min data).
  { rewrite Hd0 in Hwf |- *. norm_in Hwf. simpl. destruct_and!. split_and!; (done || lia). }
  pose proof (invert_loop_spec (S (length data)) [] data min min) as Hloop. cbn [app length] in Hloop.
  rewrite Hloop by (done || lia). cbn [mbind option_bind].
  destruct (gaps_spec min min max data) as [Hw Hx]; [done | lia.. |].
  destruct (last_end min data <=? max); eexists; (split; [done |]).
  - split; [eapply wf_from_mono; [| done]; lia | done].
  - rewrite app_nil_r in *. split; [eapply wf_from_mono; [| done]; lia | done].
Qed.

(** ** Common sequences *)

Lemma have_common_loop_spec fuel P1 D1 P2 D2 lo1 lo2 :
  wf_from lo1 D1 -> wf_from lo2 D2 -> (length D1 + length D2 < fuel)%nat ->
  exists b, have_common_loop fuel (P1 ++ D1) (P2 ++ D2) (length P1) (length P2) = Some b /\
    (b = true <-> exists x, mem x D1 = true /\ mem x D2 = true).
Proof.
  revert P1 D1 P2 D2 lo1 lo2.
  induction fuel as [|fuel IH]; intros P1 D1 P2 D2 lo1 lo2 H1 H2 Hf; [lia |].
  cbn [have_common_loop].
  destruct D1 as [|r1 D1].
  { rewrite app_nil_r, Nat.ltb_irrefl. exists false. split; [done |]. split; [done |].
    intros (x & ? & _). done. }
  rewrite (proj2 (Nat.ltb_lt (length P1) _)) by (rewrite length_mid; lia). cbn [andb].
  destruct D2 as [|r2 D2].
  { rewrite app_nil_r, Nat.ltb_irrefl. exists false. split; [done |]. split; [done |].
    intros (x & _ & ?). done. }
  rewrite (proj2 (Nat.ltb_lt (length P2) _)) by (rewrite length_mid; lia).
  rewrite !list_lookup_middle by done. cbn [mbind option_bind]. simpl in H1, H2, Hf.
  destruct H1 as (? & ? & H1), H2 as (? & ? & H2).
  destruct ((seq1 r1 <=? seq2 r2) && (seq2 r1 >=? seq1 r2)) eqn:Hov.
  { exists true. split; [done |]. split; [| done]. intros _.
    exists (Z.max (seq1 r1) (seq1 r2)). simpl. lia. }
  destruct (Z.ltb_spec (seq1 r1) (seq1 r2)).
  - replace (P1 ++ r1 :: D1) with ((P1 ++ [r1]) ++ D1) by by rewrite <- app_assoc.
    replace (S (length P1)) with (length (P1 ++ [r1])) by (rewrite length_app; simpl; lia).
    destruct (IH (P1 ++ [r1]) D1 P2 (r2 :: D2) (seq2 r1 + 2) lo2) as (b & Hb & Hiff);
      [done | by simpl | simpl; lia |].
    exists b. split; [done |]. rewrite Hiff. split; intros (x & Hx & Hy); exists x; split; try done.
    + simpl. lia.
    + simpl in Hx, Hy. pose proof (mem_bounds _ _ x H2). lia.
  - replace (P2 ++ r2 :: D2) with ((P2 ++ [r2]) ++ D2) by by rewrite <- app_assoc.
    replace (S (length P2)) with (length (P2 ++ [r2])) by (rewrite length_app; simpl; lia).
    destruct (IH P1 (r1 :: D1) (P2 ++ [r2]) D2 lo1 (seq2 r2 + 2)) as (b & Hb & Hiff);
      [by simpl | done | simpl; lia |].
    exists b. split; [done |]. rewrite Hiff. split; intros (x & Hx & Hy); exists x; split; try done.
    + simpl. lia.
    + simpl in Hx, Hy. pose proof (mem_bounds _ _ x H1). lia.
Qed.

(** ** The n-th sequence *)

Definition iter_ok (data : list seq_range) (it : seq_range_iter) : Prop :=
  (prev_idx it <= length data)%nat /\ prev_n it = total (take (prev_idx it) data) /\
  prev_n it <= UINT32_MAX.

Lemma seq_range_exists_spec data seq :
  wf data -> len_ok data -> 0 <= seq -> seq_range_exists data seq = Some (mem seq data).
Proof.
  intros Hwf Hlen H0. unfold seq_range_exists.
  destruct (seq_range_lookup_spec data seq Hwf Hlen H0) as (res & -> & Hspec). unfold wf in Hwf.
  destruct Hspec as [l1 r l2 -> Hr | l1 l2 -> Hn Hw]; cbn [mbind option_bind]; f_equal; rewrite mem_app; cbn [mem].
  - lia.
  - apply wf_from_app in Hwf as [Hw1 _]. symmetry. apply orb_false_iff. split.
    + destruct (mem seq l1) eqn:E; [| done]. pose proof (mem_bounds 0 l1 seq Hw1 E). lia.
    + destruct (mem seq l2) eqn:E; [| done]. pose proof (mem_bounds (seq + 1) l2 seq Hw E). lia.
Qed.

Lemma iter_nth_loop_spec fuel P D lo n :
  wf (P ++ D) -> wf_from lo D -> 0 <= n <= UINT32_MAX ->
  total P <= n -> (length D < fuel)%nat ->
  exists it, iter_nth_loop fuel (P ++ D) n (total P) (length P)
      = Some (elements (P ++ D) !! Z.to_nat n, it) /\ iter_ok (P ++ D) it.
Proof.
  revert P D lo. induction fuel as [|fuel IH]; intros P D lo Hwf HwD Hn HP Hf; [lia |].
  cbn [iter_nth_loop].
  pose proof (total_bounds _ _ Hwf ltac:(lia)) as Htot. rewrite total_app in Htot.
  pose proof Hwf as HwP. norm_in HwP. destruct HwP as [HwP _].
  pose proof (total_bounds _ _ HwP ltac:(lia)) as HtP.
  pose proof (length_elements _ _ HwP) as HlP.
  destruct D as [|r D].
  - rewrite app_nil_r, Nat.ltb_irrefl. eexists. split.
    + rewrite lookup_ge_None_2 by lia. done.
    + split_and!; simpl; [lia | by rewrite take_ge by lia | lia].
  - rewrite (proj2 (Nat.ltb_lt _ _)) by (rewrite length_mid; lia).
    rewrite list_lookup_middle by done. cbn [mbind option_bind].
    simpl in HwD, Hf, Htot. destruct HwD as (? & ? & HwD).
    pose proof (nxt_ge _ _ HwP).
    pose proof Hwf as Hr. norm_in Hr. destruct Hr as (_ & ? & _ & HwD').
    pose proof (total_bounds _ _ HwD' ltac:(lia)).
    rewrite (u32_small (seq2 r - seq1 r)) by (unfold is_u32; lia).
    rewrite (u32_small (total P + (seq2 r - seq1 r))) by (unfold is_u32; lia).
    destruct (Z.leb_spec n (total P + (seq2 r - seq1 r))).
    + rewrite assert_true by lia. cbn [mbind option_bind]. eexists. split.
      * rewrite elements_app, elements_cons, lookup_app_r, lookup_app_l
          by (rewrite ?length_seqZ; lia).
        do 2 f_equal. symmetry. apply lookup_seqZ. rewrite u32_small by (unfold is_u32; lia). lia.
      * split_and!; simpl; [rewrite length_app; simpl; lia | by rewrite take_app_length | lia].
    + replace (P ++ r :: D) with ((P ++ [r]) ++ D) in * by by rewrite <- app_assoc.
      replace (S (length P)) with (length (P ++ [r])) by (rewrite length_app; simpl; lia).
      rewrite u32_small by (unfold is_u32; lia).
      replace (total P + (seq2 r - seq1 r + 1)) with (total (P ++ [r])) by (rewrite total_app; simpl; lia).
      apply IH with (lo := seq2 r + 2); try done; [rewrite total_app; simpl; lia | lia].
Qed.

Lemma seq_range_array_iter_nth_spec data it n :
  wf data -> iter_ok data it -> 0 <= n <= UINT32_MAX ->
  exists it', seq_range_array_iter_nth data it n = Some (elements data !! Z.to_nat n, it') /\
    iter_ok data it'.
Proof.
  intros Hwf (Hidx & Hpn & Hmax) Hn. unfold seq_range_array_iter_nth.
  destruct (Z.ltb_spec n (prev_n it)).
  - cbn [prev_n prev_idx].
    pose proof (iter_nth_loop_spec (S (length data)) [] data 0 n) as H'. cbn [app length total] in H'.
    apply H'; try done; lia.
  - pose proof (iter_nth_loop_spec (S (length data)) (take (prev_idx it) data)
      (drop (prev_idx it) data)) as H'.
    rewrite take_drop, length_take, Nat.min_l in H' by done. rewrite <- Hpn in H'.
    pose proof Hwf as Hw. unfold wf in Hw. rewrite <- (take_drop (prev_idx it) data) in Hw.
    rewrite wf_from_app in Hw. destruct Hw as [Hw1 Hw2].
    eapply H'; try done. rewrite length_drop; lia.
Qed.

Lemma sorted_lookup_lt (l : list Z) i j x y :
  StronglySorted Z.lt l -> l !! i = Some x -> l !! j = Some y -> (i < j)%nat -> x < y.
Proof.
  intros Hs Hi Hj Hij.
  rewrite <- (take_drop j l) in Hs. apply (StronglySorted_app_1_elem_of _ _ _ x y) in Hs; [done | |].
  - apply elem_of_take. eauto.
  - apply list_elem_of_lookup. exists 0%nat. rewrite lookup_drop, Nat.add_0_r. done.
Qed.

Lemma sorted_lookup_iff (l : list Z) i j x y :
  StronglySorted Z.lt l -> l !! i = Some x -> l !! j = Some y -> (i < j)%nat <-> x < y.
Proof.
  intros Hs Hi Hj. split; [by eapply sorted_lookup_lt |]. intros Hxy.
  destruct (Nat.lt_trichotomy i j) as [?|[->|Hji]]; [done | assert (x = y) by congruence; lia |].
  pose proof (sorted_lookup_lt _ _ _ _ _ Hs Hj Hi Hji). lia.
Qed.

Lemma sorted_NoDup (l : list Z) : StronglySorted Z.lt l -> NoDup l.
Proof.
  induction 1 as [|x l Hs IH Hx]; constructor; [| done].
  intros Hin. rewrite Forall_forall in Hx. specialize (Hx _ Hin). lia.
Qed.

Lemma sorted_ext (l1 l2 : list Z) :
  StronglySorted Z.lt l1 -> StronglySorted Z.lt l2 -> (forall x, x ∈ l1 <-> x ∈ l2) -> l1 = l2.
Proof.
  intros H1 H2 Hx. apply (StronglySorted_unique_strong Z.lt); [| done.. |].
  - intros x1 x2 _ _ ? ?. lia.
  - apply NoDup_Permutation; [by apply sorted_NoDup.. | done].
Qed.

Lemma seq_range_array_remove_nth_spec data n count :
  wf data -> Z.of_nat (length data) + 2 < INT_MAX -> is_u32 n -> is_u32 count ->
  exists d, seq_range_array_remove_nth data n count = Some d /\ wf d /\
    elements d = take (Z.to_nat n) (elements data)
                 ++ drop (Z.to_nat (n + count)) (elements data).
Proof.
  intros Hwf Hlen Hn Hc. unfold is_u32 in *. unfold seq_range_array_remove_nth.
  destruct (Z.eqb_spec count 0) as [->|Hc0].
  { exists data. rewrite Z.add_0_r, take_drop. done. }
  pose proof (length_elements _ _ Hwf) as HlE. pose proof (total_bounds _ _ Hwf ltac:(lia)) as Ht.
  pose proof (elements_sorted _ _ Hwf) as HsE.
  destruct (seq_range_array_iter_nth_spec data seq_range_array_iter_init n)
    as (it & -> & Hit); [done | split; [simpl; lia | done] | done |].
  cbn [mbind option_bind].
  destruct (elements data !! Z.to_nat n) as [s1|] eqn:Hs1.
  2: { apply lookup_ge_None in Hs1. exists data. split_and!; try done.
       rewrite take_ge, drop_ge, app_nil_r by lia. done. }
  set (E := elements data) in *.
  assert (Hs2 : exists s2, (if u32 (count - 1) >=? u32 (UINT32_MAX - n) then Some UINT32_MAX
       else '(s2, _) ← seq_range_array_iter_nth data it (u32 (n + (count - 1)));
            Some (default UINT32_MAX s2)) = Some s2 /\
      (E !! Z.to_nat (n + count - 1) = Some s2 \/
       (s2 = UINT32_MAX /\ (length E <= Z.to_nat (n + count))%nat))).
  { rewrite !u32_small by (unfold is_u32; lia).
    rewrite Z.geb_leb. destruct (Z.leb_spec (UINT32_MAX - n) (count - 1)).
    { eexists; split; [done |]. right. split; [done |]. lia. }
    rewrite u32_small by (unfold is_u32; lia).
    destruct (seq_range_array_iter_nth_spec data it (n + (count - 1)))
      as (it' & -> & _); [done.. | lia |]. cbn [mbind option_bind].
    replace (n + (count - 1)) with (n + count - 1) by lia. fold E.
    destruct (E !! Z.to_nat (n + count - 1)) as [s2|] eqn:Hs2; simpl; eexists; (split; [done |]).
    - by left.
    - right. split; [done |]. apply lookup_ge_None in Hs2. lia. }
  destruct Hs2 as (s2 & -> & Hs2). cbn [mbind option_bind].
  assert (Hm : forall x, x ∈ E -> 0 <= x <= UINT32_MAX).
  { intros x Hx. apply elem_of_elements in Hx. pose proof (mem_bounds _ _ _ Hwf Hx). lia. }
  assert (Hle : s1 <= s2 <= UINT32_MAX).
  { destruct Hs2 as [Hs2 | [-> _]].
    - pose proof (Hm s2 ltac:(apply list_elem_of_lookup; eauto)).
      destruct (decide (Z.to_nat n = Z.to_nat (n + count - 1))) as [He|He].
      + rewrite He in Hs1. assert (s1 = s2) by congruence. lia.
      + pose proof (sorted_lookup_lt _ _ _ _ _ HsE Hs1 Hs2 ltac:(lia)). lia.
    - pose proof (Hm s1 ltac:(apply list_elem_of_lookup; eauto)). lia. }
  pose proof (Hm s1 ltac:(apply list_elem_of_lookup; eauto)).
  destruct (seq_range_array_remove_range_spec data s1 s2) as ((k & d) & -> & Hwd & Hmd & _);
    [done | lia | lia | lia |].
  cbn [mbind option_bind fst snd] in *. exists d. split_and!; try done.
  apply sorted_ext; [by eapply elements_sorted | |].
  { rewrite <- (take_drop (Z.to_nat n) E) in HsE.
    apply StronglySorted_app in HsE. destruct HsE as (Hlt & HsT & HsD).
    apply StronglySorted_app. split_and!; [| done |].
    - intros x y Hx Hy. apply Hlt; [done |].
      replace (Z.to_nat (n + count)) with (Z.to_nat n + Z.to_nat count)%nat in Hy by lia.
      rewrite <- drop_drop in Hy. rewrite <- (take_drop (Z.to_nat count) (drop (Z.to_nat n) E)).
      apply elem_of_app. by right.
    - replace (Z.to_nat (n + count)) with (Z.to_nat n + Z.to_nat count)%nat by lia.
      rewrite <- drop_drop. rewrite <- (take_drop (Z.to_nat count)) in HsD.
      by apply StronglySorted_app_1_r in HsD. }
  intros x. rewrite elem_of_elements, Hmd, elem_of_app, andb_true_iff, <- elem_of_elements.
  fold E. rewrite elem_of_take. split.
  - intros [Hx Hne]. apply list_elem_of_lookup in Hx as [i Hi].
    destruct (Z.lt_ge_cases x s1) as [Hlt|Hge].
    + left. exists i. split; [done |]. by apply (sorted_lookup_iff _ _ _ _ _ HsE Hi Hs1).
    + right. destruct Hs2 as [Hs2|[-> _]].
      * assert (Hgt : s2 < x) by lia. apply (sorted_lookup_iff _ _ _ _ _ HsE Hs2 Hi) in Hgt.
        apply list_elem_of_lookup. exists (i - Z.to_nat (n + count))%nat. rewrite lookup_drop.
        rewrite <- Hi. f_equal. lia.
      * pose proof (Hm x ltac:(apply list_elem_of_lookup; eauto)). lia.
  - intros [(i & Hi & Hlt)|Hd].
    + pose proof (sorted_lookup_lt _ _ _ _ _ HsE Hi Hs1 Hlt). split; [| lia].
      apply list_elem_of_lookup; eauto.
    + apply list_elem_of_lookup in Hd as [i Hi]. rewrite lookup_drop in Hi.
      split; [apply list_elem_of_lookup; eauto |]. destruct Hs2 as [Hs2|[-> Hl]].
      * pose proof (sorted_lookup_lt _ _ _ _ _ HsE Hs2 Hi ltac:(lia)). lia.
      * apply lookup_lt_Some in Hi. lia.
Qed.

(** ** Properties *)

(** [seq_range_array_add] on a well-formed array always returns, keeps the
    array sorted, disjoint and non-adjacent, adds exactly [seq] to the set it
    denotes, and returns TRUE exactly when [seq] was there already. *)
Theorem seq_range_array_add_correct data seq :
  wf data -> len_ok data -> is_u32 seq ->
  exists found data', seq_range_array_add data seq = Some (found, data') /\
    wf data' /\ found = mem seq data /\
    forall x, mem x data' = (x =? seq) || mem x data.
Proof.
  intros. destruct (seq_range_array_add_spec data seq) as ((b & d) & ? & ? & ? & ?); eauto.
  exists b, d. auto.
Qed.

Lemma seq_range_array_add_correct_witness :
  exists found data', seq_range_array_add [SR 1 3; SR 5 6] 4 = Some (found, data') /\
    wf data' /\ found = mem 4 [SR 1 3; SR 5 6] /\
    forall x, mem x data' = (x =? 4) || mem x [SR 1 3; SR 5 6].
Proof. apply (seq_range_array_add_correct [SR 1 3; SR 5 6] 4); vm_compute; intuition congruence. Defined.

(** C12: [seq_range_array_add_range_count] on a well-formed array adds exactly the
    sequences [s1..s2] and returns how many of them were new, provided it is
    not asked to add the largest 32-bit sequence to an array that has it. *)
Theorem seq_range_array_add_range_count_correct data s1 s2 :
  wf data -> len_ok data -> 0 <= s1 <= s2 -> s2 <= UINT32_MAX ->
  (s2 = UINT32_MAX -> mem UINT32_MAX data = false) ->
  exists n data', seq_range_array_add_range_count data s1 s2 = Some (n, data') /\
    wf data' /\ (forall x, mem x data' = (s1 <=? x) && (x <=? s2) || mem x data) /\
    n = u32 (Z.of_nat (length (elements data')) - Z.of_nat (length (elements data))).
Proof.
  intros Hw ? ? ? ?. unfold seq_range_array_add_range_count.
  destruct (seq_range_array_add_range_internal_spec data s1 s2 true)
    as ((n & d) & -> & Hwf & Hm & _ & Hn); try done. simpl in *. subst n.
  eexists _, d. split_and!; try done. by rewrite (length_elements 0), (length_elements 0).
Qed.

Lemma seq_range_array_add_range_count_correct_witness :
  exists n data', seq_range_array_add_range_count [SR 1 3; SR 5 6; SR 10 12] 2 11 = Some (n, data') /\
    wf data' /\
    (forall x, mem x data' = (2 <=? x) && (x <=? 11) || mem x [SR 1 3; SR 5 6; SR 10 12]) /\
    n = u32 (Z.of_nat (length (elements data'))
             - Z.of_nat (length (elements [SR 1 3; SR 5 6; SR 10 12]))).
Proof.
  apply (seq_range_array_add_range_count_correct [SR 1 3; SR 5 6; SR 10 12] 2 11);
    vm_compute; intuition congruence.
Defined.

Lemma add_range_wraps_spec s1 lo :
  is_u32 s1 -> 0 < lo <= UINT32_MAX ->
  seq_range_array_add_range [SR lo UINT32_MAX] s1 UINT32_MAX = Some [SR s1 UINT32_MAX; SR lo UINT32_MAX].
Proof.
  intros Hs1 Hlo. unfold is_u32 in *.
  assert (Hlk : forall s, 0 <= s <= UINT32_MAX ->
    seq_range_lookup [SR lo UINT32_MAX] s = Some (lo <=? s, 0%nat)).
  { intros s Hs. unfold seq_range_lookup. cbn -[Z.leb Z.geb].
    rewrite Z.geb_leb, (proj2 (Z.leb_le s _)) by lia. by destruct (lo <=? s). }
  unfold seq_range_array_add_range, seq_range_array_add_range_internal.
  rewrite !Hlk by lia. cbn [mbind option_bind].
  unfold add_range_no_overlap. cbn -[u32 Z.gtb]. change (u32 (UINT32_MAX + 1)) with 0.
  rewrite (Z.gtb_ltb lo 0), (proj2 (Z.ltb_lt 0 _)) by lia. done.
Qed.

(** Adding a range that ends at the largest 32-bit sequence to an array that
    already has that sequence breaks the invariant: [seq2+1] wraps to 0 in the
    overlap test, and the ranges of the result overlap. *)
Theorem seq_range_array_add_range_wraps s1 lo :
  is_u32 s1 -> 0 < lo <= UINT32_MAX ->
  seq_range_array_add_range [SR lo UINT32_MAX] s1 UINT32_MAX
    = Some [SR s1 UINT32_MAX; SR lo UINT32_MAX] /\
  ~ wf [SR s1 UINT32_MAX; SR lo UINT32_MAX].
Proof.
  intros Hs1 Hlo. split; [by apply add_range_wraps_spec |]. unfold is_u32, wf in *. simpl. lia.
Qed.

Lemma seq_range_array_add_range_wraps_witness :
  seq_range_array_add_range [SR UINT32_MAX UINT32_MAX] 1 UINT32_MAX
    = Some [SR 1 UINT32_MAX; SR UINT32_MAX UINT32_MAX] /\
  ~ wf [SR 1 UINT32_MAX; SR UINT32_MAX UINT32_MAX].
Proof. apply (seq_range_array_add_range_wraps 1 UINT32_MAX); vm_compute; intuition congruence. Defined.

(** [seq_range_array_remove_range] removes exactly the sequences [s1..s2] and
    returns how many of them were in the set. *)
Theorem seq_range_array_remove_range_correct data s1 s2 :
  wf data -> Z.of_nat (length data) + 2 < INT_MAX -> 0 <= s1 <= s2 -> s2 <= UINT32_MAX ->
  exists n data', seq_range_array_remove_range data s1 s2 = Some (n, data') /\
    wf data' /\ (forall x, mem x data' = mem x data && negb ((s1 <=? x) && (x <=? s2))) /\
    n = u32 (Z.of_nat (length (elements data)) - Z.of_nat (length (elements data'))).
Proof.
  intros Hw ? ? ?. destruct (seq_range_array_remove_range_spec data s1 s2)
    as ((n & d) & -> & Hwf & Hm & _ & Hn); try done. simpl in *. subst n.
  eexists _, d. split_and!; try done. by rewrite (length_elements 0), (length_elements 0).
Qed.

Lemma seq_range_array_remove_range_correct_witness :
  exists n data', seq_range_array_remove_range [SR 1 9] 4 6 = Some (n, data') /\
    wf data' /\ (forall x, mem x data' = mem x [SR 1 9] && negb ((4 <=? x) && (x <=? 6))) /\
    n = u32 (Z.of_nat (length (elements [SR 1 9])) - Z.of_nat (length (elements data'))).
Proof. apply (seq_range_array_remove_range_correct [SR 1 9] 4 6); vm_compute; intuition congruence. Defined.

(** Merging computes the union, removing a sequence set the difference. *)
Theorem seq_range_array_merge_remove_correct dest src :
  wf dest -> wf src -> Z.of_nat (length dest + 2 * length src) < INT_MAX ->
  mem UINT32_MAX dest && mem UINT32_MAX src = false ->
  (exists d, seq_range_array_merge dest src = Some d /\ wf d /\
     forall x, mem x d = mem x dest || mem x src) /\
  (exists n d, seq_range_array_remove_seq_range dest src = Some (n, d) /\ wf d /\
     forall x, mem x d = mem x dest && negb (mem x src)).
Proof.
  intros Hd Hs Hl Hm. split; [by apply seq_range_array_merge_spec; try lia |].
  destruct (seq_range_array_remove_seq_range_loop_spec dest src 0 0) as (d & Hr & ? & ?); try done; try lia.
  eauto.
Qed.

Lemma seq_range_array_merge_remove_correct_witness :
  (exists d, seq_range_array_merge [SR 1 2; SR 8 9] [SR 4 6; SR 9 12] = Some d /\ wf d /\
     forall x, mem x d = mem x [SR 1 2; SR 8 9] || mem x [SR 4 6; SR 9 12]) /\
  (exists n d, seq_range_array_remove_seq_range [SR 1 2; SR 8 9] [SR 4 6; SR 9 12] = Some (n, d) /\ wf d /\
     forall x, mem x d = mem x [SR 1 2; SR 8 9] && negb (mem x [SR 4 6; SR 9 12])).
Proof.
  apply (seq_range_array_merge_remove_correct [SR 1 2; SR 8 9] [SR 4 6; SR 9 12]);
    vm_compute; intuition congruence.
Defined.

(** [seq_range_array_intersect] keeps of [dest] the sequences that are in
    [src], and sequence 0 (which no mail has), and counts the removed ones. *)
Theorem seq_range_array_intersect_correct dest src :
  wf dest -> wf src -> Z.of_nat (length dest + 2 * length src + 2) < INT_MAX ->
  exists n d, seq_range_array_intersect dest src = Some (n, d) /\ wf d /\
    (forall x, mem x d = mem x dest && ((x =? 0) || mem x src)) /\
    n = u32 (Z.of_nat (length (elements dest)) - Z.of_nat (length (elements d))).
Proof.
  intros Hd Hs Hl. destruct (seq_range_array_intersect_spec dest src) as (d & -> & Hwf & Hm); try done.
  eexists _, d. split_and!; try done. by rewrite !(length_elements 0).
Qed.

Lemma seq_range_array_intersect_correct_witness :
  exists n d, seq_range_array_intersect [SR 1 8] [SR 5 6; SR 8 12] = Some (n, d) /\ wf d /\
    (forall x, mem x d = mem x [SR 1 8] && ((x =? 0) || mem x [SR 5 6; SR 8 12])) /\
    n = u32 (Z.of_nat (length (elements [SR 1 8])) - Z.of_nat (length (elements d))).
Proof.
  apply (seq_range_array_intersect_correct [SR 1 8] [SR 5 6; SR 8 12]); vm_compute; intuition congruence.
Defined.

(** [seq_range_array_invert] computes the complement in [min..max]. *)
Theorem seq_range_array_invert_correct data min max :
  wf data -> 0 <= min <= max -> max <= UINT32_MAX ->
  (forall x, mem x data = true -> min <= x <= max) ->
  (max = UINT32_MAX -> mem UINT32_MAX data = false) ->
  exists d, seq_range_array_invert data min max = Some d /\ wf d /\
    forall x, mem x d = (min <=? x) && (x <=? max) && negb (mem x data).
Proof. apply seq_range_array_invert_spec. Qed.

Lemma seq_range_array_invert_correct_witness :
  exists d, seq_range_array_invert [SR 1 2; SR 5 6] 1 9 = Some d /\ wf d /\
    forall x, mem x d = (1 <=? x) && (x <=? 9) && negb (mem x [SR 1 2; SR 5 6]).
Proof.
  apply (seq_range_array_invert_correct [SR 1 2; SR 5 6] 1 9).
  1-3, 5: vm_compute; intuition congruence. intros x. simpl. lia.
Defined.

(** The iterator returns the [n]-th smallest sequence of the set whatever
    calls came before, and [seq_range_array_remove_nth] removes the [count]
    sequences from the [n]-th one on. *)
Theorem seq_range_array_nth_correct data it n count :
  wf data -> Z.of_nat (length data) + 2 < INT_MAX -> is_u32 n -> is_u32 count ->
  iter_ok data it ->
  (exists it', seq_range_array_iter_nth data it n = Some (elements data !! Z.to_nat n, it') /\
     iter_ok data it') /\
  (exists d, seq_range_array_remove_nth data n count = Some d /\ wf d /\
     elements d = take (Z.to_nat n) (elements data)
                  ++ drop (Z.to_nat (n + count)) (elements data)).
Proof.
  intros Hw Hl Hn Hc Hit. split.
  - by apply seq_range_array_iter_nth_spec.
  - by apply seq_range_array_remove_nth_spec.
Qed.

Lemma seq_range_array_nth_correct_witness :
  (exists it', seq_range_array_iter_nth [SR 1 3; SR 7 9] (Iter 3 1) 2
       = Some (elements [SR 1 3; SR 7 9] !! Z.to_nat 2, it') /\ iter_ok [SR 1 3; SR 7 9] it') /\
  (exists d, seq_range_array_remove_nth [SR 1 3; SR 7 9] 2 3 = Some d /\ wf d /\
     elements d = take (Z.to_nat 2) (elements [SR 1 3; SR 7 9])
                  ++ drop (Z.to_nat (2 + 3)) (elements [SR 1 3; SR 7 9])).
Proof.
  apply (seq_range_array_nth_correct [SR 1 3; SR 7 9] (Iter 3 1) 2 3).
  1-4: vm_compute; intuition congruence. split; [simpl; lia | split; [reflexivity | simpl; lia]].
Defined.

(** The queries agree with the set the array stands for: membership,
    a common element of two arrays, and the number of elements (as 32 bits). *)
Theorem seq_range_queries_correct d1 d2 seq :
  wf d1 -> wf d2 -> len_ok d1 -> 0 <= seq ->
  seq_range_exists d1 seq = Some (mem seq d1) /\
  (exists b, seq_range_array_have_common d1 d2 = Some b /\
     (b = true <-> exists x, mem x d1 = true /\ mem x d2 = true)) /\
  seq_range_count d1 = u32 (Z.of_nat (length (elements d1))).
Proof.
  intros H1 H2 Hl H0. split_and!; [by apply seq_range_exists_spec | |].
  - apply (have_common_loop_spec (S (length d1 + length d2)) [] d1 [] d2 0 0); [done | done | lia].
  - by rewrite seq_range_count_spec, (length_elements 0).
Qed.

Lemma seq_range_queries_correct_witness :
  seq_range_exists [SR 1 3; SR 7 7] 2 = Some (mem 2 [SR 1 3; SR 7 7]).
Proof.
  apply (seq_range_queries_correct [SR 1 3; SR 7 7] [SR 7 9] 2);
    [vm_compute; intuition congruence | vm_compute; intuition congruence | reflexivity | discriminate].
Defined.
