(* ===== verification/Strnum.v ===== *)
(** * Numbers in strings (src/src/lib/strnum.c, dec2str of strfuncs.c)

    Strings are lists of bytes without the terminating NUL.  The parsers
    return [None] where the code returns -1, and the rest of the string where
    it returns an end pointer.  Types have the widths of a 64-bit Unix:
    [int] has 32 bits, [long], [long long], [intmax_t], [uoff_t] and [time_t]
    have 64.  The theorems give the exact set of accepted strings and their
    values, and the round trip with [dec2str]. *)

From S2P Require Import Prelude.

Notation UINTMAX_MAX := 18446744073709551615%Z.
Notation INTMAX_MAX := 9223372036854775807%Z.
Notation INTMAX_MIN := (-9223372036854775808)%Z.
Notation UINT_MAX := 4294967295%Z.
Notation INT_MIN := (-2147483648)%Z.

Fixpoint str_is_numeric_loop (s : list Z) (end_char : Z) : bool :=
  match s with
  | [] => true
  | c :: s =>
      if c =? end_char then true
      else if (c <? 48) || (c >? 57) then false
      else str_is_numeric_loop s end_char
  end.

Definition str_is_numeric (s : list Z) (end_char : Z) : bool :=
  match s with
  | [] => false
  | c :: _ => if c =? end_char then false else str_is_numeric_loop s end_char
  end.

Fixpoint str_parse_uintmax_loop (n : Z) (s : list Z) : option (Z * list Z) :=
  match s with
  | c :: s' =>
      if (c >=? 48) && (c <=? 57) then
        if n >=? UINTMAX_MAX / 10 then
          if n >? UINTMAX_MAX / 10 then None
          else if c - 48 >? UINTMAX_MAX mod 10 then None
          else str_parse_uintmax_loop ((n * 10 + (c - 48)) mod 2 ^ 64) s'
        else str_parse_uintmax_loop ((n * 10 + (c - 48)) mod 2 ^ 64) s'
      else Some (n, s)
  | [] => Some (n, s)
  end.

(** [None] is the return value -1; the rest of the string is [*endp_r]. *)
Definition str_parse_uintmax (s : list Z) : option (Z * list Z) :=
  if (at0 s 0 <? 48) || (at0 s 0 >? 57) then None
  else str_parse_uintmax_loop 0 s.

Definition str_to_uintmax (s : list Z) : option Z :=
  match str_parse_uintmax s with
  | Some (n, []) => Some n
  | _ => None
  end.

(** The range check the unsigned conversions share; [max] is the largest
    value of the result type. *)
Definition str_to_unsigned (max : Z) (s : list Z) : option Z :=
  l ← str_to_uintmax s;
  if l >? max then None else Some l.

Definition str_to_uint : list Z -> option Z := str_to_unsigned UINT_MAX.
Definition str_to_ulong : list Z -> option Z := str_to_unsigned UINTMAX_MAX.
Definition str_to_ullong : list Z -> option Z := str_to_unsigned UINTMAX_MAX.
Definition str_to_uint32 : list Z -> option Z := str_to_unsigned UINT32_MAX.
Definition str_to_uint64 : list Z -> option Z := str_to_unsigned UINTMAX_MAX.
Definition str_to_uoff : list Z -> option Z := str_to_unsigned UINTMAX_MAX.

(** [STR_TO_U__TEMPLATE]. *)
Definition str_parse_u (max : Z) (s : list Z) : option (Z * list Z) :=
  '(l, s) ← str_parse_uintmax s;
  if l >? max then None else Some (l, s).

Definition str_parse_uoff : list Z -> option (Z * list Z) := str_parse_u UINTMAX_MAX.
Definition str_parse_uint : list Z -> option (Z * list Z) := str_parse_u UINT_MAX.

(** Conversion of a [uintmax_t] to [intmax_t]. *)
Definition to_intmax (l : Z) : Z := if l >? INTMAX_MAX then l - 2 ^ 64 else l.

Definition str_to_intmax (s : list Z) : option Z :=
  let '(neg, s) := match s with
                   | c :: s' => if c =? 45 then (true, s') else (false, s)
                   | [] => (false, s)
                   end in
  l ← str_to_uintmax s;
  if negb (neg : bool) then
    if l >? INTMAX_MAX then None else Some l
  else
    if l >? UINTMAX_MAX - (UINTMAX_MAX + INTMAX_MIN) then None
    else Some (to_intmax ((- l) mod 2 ^ 64)).

Definition str_to_signed (min max : Z) (s : list Z) : option Z :=
  l ← str_to_intmax s;
  if (l <? min) || (l >? max) then None else Some l.

Definition str_to_int : list Z -> option Z := str_to_signed INT_MIN INT_MAX.
Definition str_to_long : list Z -> option Z := str_to_signed INTMAX_MIN INTMAX_MAX.
Definition str_to_llong : list Z -> option Z := str_to_signed INTMAX_MIN INTMAX_MAX.
Definition str_to_time (s : list Z) : option Z := str_to_intmax s.

(** [result_size] in bytes. *)
Definition verify_xid (l : Z) (result_size : Z) : bool :=
  let result_bits := result_size * 8 - 1 in
  Z.shiftr l result_bits =? 0.

Definition str_to_xid (s : list Z) : option Z :=
  l ← str_to_uintmax s;
  if verify_xid l 4 then Some l else None.

Definition str_to_uid : list Z -> option Z := str_to_xid.
Definition str_to_gid : list Z -> option Z := str_to_xid.
Definition str_to_pid : list Z -> option Z := str_to_xid.

Definition str_uint_equals (s : list Z) (num : Z) : bool :=
  match str_to_uintmax s with
  | None => false
  | Some l => l =? num
  end.

Definition str_num_error (s : list Z) : string :=
  match s with
  | 45 :: s' =>
      if negb (str_is_numeric s' 0) then "Not a valid number" else "Number too small"
  | _ => if negb (str_is_numeric s 0) then "Not a valid number" else "Number too large"
  end.

(** [dec2str]: digits are written from the end of the buffer; the buffer is
    large enough for every 64-bit number, so the loop is over the digits. *)
Fixpoint dec2str_loop (fuel : nat) (number : Z) (acc : list Z) : option (list Z) :=
  match fuel with
  | O => None
  | S fuel =>
      let acc := (number mod 10 + 48) :: acc in
      let number := number / 10 in
      if negb (number =? 0) then dec2str_loop fuel number acc else Some acc
  end.

(** [MAX_INT_STRLEN] is 23: room for 22 digits and the NUL. *)
Definition dec2str (number : Z) : option (list Z) := dec2str_loop 22 number [].

(** ** Reference: the decimal value of a digit string *)

Definition decval (n : Z) (ds : list Z) : Z := fold_left (fun n c => n * 10 + (c - 48)) ds n.

Definition all_digits (s : list Z) : bool := forallb isdigit s.

Arguments decval : simpl never.

Lemma decval_nil n : decval n [] = n.
Proof. done. Qed.

Lemma decval_cons n c ds : decval n (c :: ds) = decval (n * 10 + (c - 48)) ds.
Proof. done. Qed.

Lemma decval_ge n ds : 0 <= n -> all_digits ds = true -> n <= decval n ds.
Proof.
  revert n. induction ds as [|c ds IH]; intros n Hn; simpl; [rewrite decval_nil; lia |].
  intros [Hc Hds]%andb_true_iff. unfold isdigit in Hc. specialize (IH (n * 10 + (c - 48))).
  rewrite decval_cons. lia.
Qed.

Lemma str_parse_uintmax_loop_spec n ds rest :
  0 <= n <= UINTMAX_MAX -> all_digits ds = true -> isdigit (at0 rest 0) = false ->
  str_parse_uintmax_loop n (ds ++ rest) =
    if decval n ds <=? UINTMAX_MAX then Some (decval n ds, rest) else None.
Proof.
  revert n. induction ds as [|c ds IH]; intros n Hn Hds Hrest; simpl.
  - rewrite decval_nil, (proj2 (Z.leb_le n _)) by lia. unfold at0, isdigit in Hrest.
    destruct rest as [|c rest]; [done |]. simpl in *. by rewrite Z.geb_leb, Hrest.
  - simpl in Hds. apply andb_true_iff in Hds as [Hc Hds]. unfold isdigit in Hc.
    rewrite Z.geb_leb, Hc, decval_cons.
    change (UINTMAX_MAX / 10) with 1844674407370955161. change (UINTMAX_MAX mod 10) with 5.
    change (2 ^ 64) with 18446744073709551616.
    assert (Hge : n * 10 + (c - 48) <= decval (n * 10 + (c - 48)) ds) by (apply decval_ge; [lia | done]).
    destruct (Z.leb_spec (n * 10 + (c - 48)) UINTMAX_MAX).
    + rewrite Z.mod_small, IH by (done || lia). zcases; done.
    + rewrite (proj2 (Z.leb_gt (decval _ ds) _)) by lia. zcases; done.
Qed.

(** Every string is a run of digits and a rest. *)
Lemma digit_split s : exists ds rest, s = ds ++ rest /\ all_digits ds = true /\ isdigit (at0 rest 0) = false.
Proof.
  induction s as [|c s IH].
  - exists [], []. done.
  - destruct (isdigit c) eqn:Hc.
    + destruct IH as (ds & rest & -> & ? & ?). exists (c :: ds), rest. simpl. by rewrite Hc.
    + exists [], (c :: s). done.
Qed.

Lemma str_parse_uintmax_spec ds rest :
  all_digits ds = true -> isdigit (at0 rest 0) = false ->
  str_parse_uintmax (ds ++ rest) =
    match ds with
    | [] => None
    | _ => if decval 0 ds <=? UINTMAX_MAX then Some (decval 0 ds, rest) else None
    end.
Proof.
  intros Hds Hrest. unfold str_parse_uintmax. rewrite Z.gtb_ltb. destruct ds as [|c ds].
  - simpl. unfold isdigit in Hrest. by replace (_ || _) with true by lia.
  - rewrite str_parse_uintmax_loop_spec by (done || lia).
    simpl in Hds |- *. apply andb_true_iff in Hds as [Hc _]. unfold isdigit in Hc.
    unfold at0. simpl. by replace (_ || _) with false by lia.
Qed.

Lemma all_digits_app_inv ds rest :
  isdigit (at0 rest 0) = false -> rest <> [] -> all_digits (ds ++ rest) = false.
Proof.
  intros Hr Hne. unfold all_digits. rewrite forallb_app. destruct rest as [|c rest]; [done |].
  unfold at0 in Hr. simpl in *. rewrite Hr. simpl. by rewrite andb_false_r.
Qed.

Lemma str_to_uintmax_spec s n :
  str_to_uintmax s = Some n <->
  s <> [] /\ all_digits s = true /\ n = decval 0 s /\ n <= UINTMAX_MAX.
Proof.
  unfold str_to_uintmax. destruct (digit_split s) as (ds & rest & -> & Hds & Hrest).
  rewrite str_parse_uintmax_spec by done.
  destruct rest as [|c rest].
  - rewrite app_nil_r. destruct ds as [|d ds].
    + split; [done | by intros [? _]].
    + destruct (Z.leb_spec (decval 0 (d :: ds)) UINTMAX_MAX); split; try done.
      * intros [= <-]. done.
      * intros (_ & _ & -> & _). done.
      * intros (_ & _ & -> & ?). lia.
  - split.
    + destruct ds; [done |]. by destruct (_ <=? _).
    + intros (_ & Hall & _). by rewrite all_digits_app_inv in Hall.
Qed.

Lemma str_to_unsigned_spec max s n :
  max <= UINTMAX_MAX ->
  str_to_unsigned max s = Some n <->
  s <> [] /\ all_digits s = true /\ n = decval 0 s /\ n <= max.
Proof.
  intros Hmax. unfold str_to_unsigned.
  destruct (str_to_uintmax s) as [l|] eqn:Hl; cbn [mbind option_bind].
  - apply str_to_uintmax_spec in Hl as (? & ? & -> & ?). rewrite Z.gtb_ltb.
    destruct (Z.ltb_spec max (decval 0 s)); split; try done.
    + intros (_ & _ & -> & ?). lia.
    + by intros [= <-].
    + by intros (_ & _ & -> & _).
  - split; [done |]. intros (? & ? & ? & ?).
    assert (str_to_uintmax s = Some n) by (apply str_to_uintmax_spec; repeat split; try done; lia).
    congruence.
Qed.

Lemma to_intmax_opp l : 0 <= l <= 2 ^ 63 -> to_intmax ((- l) mod 2 ^ 64) = - l.
Proof.
  intros Hl. unfold to_intmax. rewrite Z.gtb_ltb.
  change (2 ^ 64) with 18446744073709551616. change (2 ^ 63) with 9223372036854775808 in Hl.
  destruct (Z.ltb_spec INTMAX_MAX ((- l) mod 18446744073709551616)); Z.div_mod_to_equations; lia.
Qed.

Lemma str_to_intmax_spec s n :
  str_to_intmax s = Some n <->
  INTMAX_MIN <= n <= INTMAX_MAX /\
  ((s <> [] /\ all_digits s = true /\ n = decval 0 s) \/
   (exists ds, s = 45 :: ds /\ ds <> [] /\ all_digits ds = true /\ n = - decval 0 ds)).
Proof.
  unfold str_to_intmax.
  assert (Hpos : forall s, all_digits s = true -> 0 <= decval 0 s) by (intros; by apply decval_ge).
  assert (Hplain : forall s', at0 s' 0 <> 45 ->
    (l ← str_to_uintmax s'; if negb false then if l >? INTMAX_MAX then None else Some l
       else if l >? UINTMAX_MAX - (UINTMAX_MAX + INTMAX_MIN) then None
            else Some (to_intmax ((- l) mod 2 ^ 64))) = Some n <->
    INTMAX_MIN <= n <= INTMAX_MAX /\
    ((s' <> [] /\ all_digits s' = true /\ n = decval 0 s') \/
     (exists ds, s' = 45 :: ds /\ ds <> [] /\ all_digits ds = true /\ n = - decval 0 ds))).
  { intros s' Hs'. destruct (str_to_uintmax s') as [l|] eqn:Hl; cbn [mbind option_bind negb].
    - apply str_to_uintmax_spec in Hl as (? & Ha & -> & ?). specialize (Hpos _ Ha).
      rewrite Z.gtb_ltb. destruct (Z.ltb_spec INTMAX_MAX (decval 0 s')); split; try done.
      + intros [? [(_ & _ & ->)|(ds & -> & _)]]; [lia | done].
      + intros [= <-]. split; [lia | by left].
      + intros [? [(_ & _ & ->)|(ds & -> & _)]]; [done | done].
    - split; [done |]. intros [? [(? & ? & ->)|(ds & -> & _)]]; [| done].
      assert (str_to_uintmax s' = Some (decval 0 s')) by (apply str_to_uintmax_spec; repeat split; try done; lia).
      congruence. }
  destruct s as [|c s]; [by apply Hplain |].
  destruct (Z.eqb_spec c 45) as [->|Hc]; [| by apply Hplain].
  destruct (str_to_uintmax s) as [l|] eqn:Hl; cbn [mbind option_bind negb].
  - apply str_to_uintmax_spec in Hl as (? & Ha & -> & ?). specialize (Hpos _ Ha).
    change (UINTMAX_MAX - (UINTMAX_MAX + INTMAX_MIN)) with (2 ^ 63).
    rewrite Z.gtb_ltb. destruct (Z.ltb_spec (2 ^ 63) (decval 0 s)) as [Hlt|Hge]; split; try done.
    + intros [? [(_ & Hd & _)|(ds & [= <-] & _ & _ & ->)]]; [done |]. lia.
    + rewrite to_intmax_opp by lia. intros [= <-]. split; [lia |]. right. eauto.
    + intros [? [(_ & Hd & _)|(ds & [= <-] & _ & _ & ->)]]; [done |]. by rewrite to_intmax_opp by lia.
  - split; [done |]. intros [? [(_ & Hd & _)|(ds & [= <-] & ? & Ha & ->)]]; [done |].
    assert (str_to_uintmax s = Some (decval 0 s)) by (apply str_to_uintmax_spec; repeat split; try done; lia).
    congruence.
Qed.

Lemma decval_snoc n ds c : decval n (ds ++ [c]) = decval n ds * 10 + (c - 48).
Proof. unfold decval. by rewrite fold_left_app. Qed.

Lemma dec2str_loop_spec fuel n acc :
  0 <= n < 10 ^ Z.of_nat fuel -> (0 < fuel)%nat ->
  exists ds, dec2str_loop fuel n acc = Some (ds ++ acc) /\ ds <> [] /\
    all_digits ds = true /\ decval 0 ds = n.
Proof.
  revert n acc. induction fuel as [|fuel IH]; intros n acc Hn Hf; [lia |]. cbn [dec2str_loop].
  rewrite Nat2Z.inj_succ, Z.pow_succ_r in Hn by lia.
  pose proof (Z.mod_pos_bound n 10 ltac:(lia)). pose proof (Z.div_mod n 10 ltac:(lia)).
  destruct (Z.eqb_spec (n / 10) 0) as [Hz|Hz]; simpl negb; cbv iota.
  - exists [n mod 10 + 48]. split_and!; [done | done | | rewrite decval_cons, decval_nil; lia].
    unfold all_digits, isdigit. simpl. lia.
  - assert (Hq : 0 <= n / 10 < 10 ^ Z.of_nat fuel).
    { split; [apply Z.div_pos; lia | apply Z.div_lt_upper_bound; lia]. }
    destruct fuel as [|fuel]; [simpl in Hq; lia |].
    destruct (IH (n / 10) ((n mod 10 + 48) :: acc)) as (ds & -> & Hne & Hd & Hv); [done | lia |].
    exists (ds ++ [n mod 10 + 48]). rewrite <- app_assoc. split_and!.
    + done.
    + by destruct ds.
    + unfold all_digits in *. rewrite forallb_app, Hd. unfold isdigit. simpl. lia.
    + rewrite decval_snoc, Hv. lia.
Qed.

(** ** Properties *)

(** A conversion to an unsigned type of maximum [max] succeeds exactly on
    the non-empty digit strings whose decimal value fits, and returns that
    value: nothing wraps on the way. *)
Theorem str_to_unsigned_correct max s n :
  max <= UINTMAX_MAX ->
  str_to_unsigned max s = Some n <->
  s <> [] /\ all_digits s = true /\ n = decval 0 s /\ n <= max.
Proof. apply str_to_unsigned_spec. Qed.

Lemma str_to_unsigned_correct_witness :
  str_to_unsigned UINT32_MAX (str "4294967295") = Some 4294967295 <->
  str "4294967295" <> [] /\ all_digits (str "4294967295") = true /\
  4294967295 = decval 0 (str "4294967295") /\ 4294967295 <= UINT32_MAX.
Proof. apply (str_to_unsigned_correct UINT32_MAX (str "4294967295")). lia. Defined.

(** A conversion to a signed type of range [min..max] succeeds exactly on
    an optional minus sign and a non-empty digit string whose value is in
    range. *)
Theorem str_to_signed_correct min max s n :
  INTMAX_MIN <= min -> max <= INTMAX_MAX ->
  str_to_signed min max s = Some n <->
  min <= n <= max /\
  ((s <> [] /\ all_digits s = true /\ n = decval 0 s) \/
   (exists ds, s = 45 :: ds /\ ds <> [] /\ all_digits ds = true /\ n = - decval 0 ds)).
Proof.
  intros Hmin Hmax. unfold str_to_signed.
  destruct (str_to_intmax s) as [l|] eqn:Hl; cbn [mbind option_bind].
  - apply str_to_intmax_spec in Hl as [Hr Hs].
    assert (Hl : forall m, ((s <> [] /\ all_digits s = true /\ m = decval 0 s) \/
      (exists ds, s = 45 :: ds /\ ds <> [] /\ all_digits ds = true /\ m = - decval 0 ds)) <-> m = l).
    { intros m. split; [| by intros ->].
      intros [(? & ? & ->)|(ds & -> & ? & ? & ->)];
        destruct Hs as [(? & ? & ->)|(ds' & Hs' & ? & ? & ->)]; try done.
      - subst s. done.
      - by injection Hs' as <-. }
    rewrite Hl, Z.gtb_ltb. destruct ((l <? min) || (max <? l)) eqn:Hb; split; try done.
    + intros [? ->]. lia.
    + intros [= <-]. split; [lia | done].
    + by intros [_ ->].
  - split; [done |]. intros [? Hs].
    assert (str_to_intmax s = Some n) by (apply str_to_intmax_spec; split; [lia | done]).
    congruence.
Qed.

Lemma str_to_signed_correct_witness :
  str_to_signed INT_MIN INT_MAX (str "-2147483648") = Some (-2147483648) <->
  INT_MIN <= -2147483648 <= INT_MAX /\
  ((str "-2147483648" <> [] /\ all_digits (str "-2147483648") = true /\
      -2147483648 = decval 0 (str "-2147483648")) \/
   (exists ds, str "-2147483648" = 45 :: ds /\ ds <> [] /\ all_digits ds = true /\
      -2147483648 = - decval 0 ds)).
Proof. apply (str_to_signed_correct INT_MIN INT_MAX (str "-2147483648")); lia. Defined.

(** The digits [dec2str] writes for a 64-bit number fit its buffer and read
    back as that number. *)
Theorem dec2str_roundtrip n :
  0 <= n <= UINTMAX_MAX ->
  exists s, dec2str n = Some s /\ str_to_uintmax s = Some n.
Proof.
  intros Hn. unfold dec2str.
  destruct (dec2str_loop_spec 22 n []) as (ds & -> & Hne & Hd & Hv); [| lia |].
  { change (10 ^ Z.of_nat 22) with 10000000000000000000000. lia. }
  rewrite app_nil_r. exists ds. split; [done |]. apply str_to_uintmax_spec. split_and!; try done; lia.
Qed.

Lemma dec2str_roundtrip_witness :
  exists s, dec2str UINTMAX_MAX = Some s /\ str_to_uintmax s = Some UINTMAX_MAX.
Proof. apply (dec2str_roundtrip UINTMAX_MAX). lia. Defined.
