(* ===== verification/Numpack.v ===== *)
(** * Packed numbers and bit sizes (src/src/lib/numpack.c, bits.c, bits.h)

    [numpack_encode] writes a 64-bit number in groups of seven bits, lowest
    first.  The decoder has three outcomes: a value and the rest, an error
    ([Some None]), and a read outside the data ([None]).  [nearest_power] and
    the [bits_required] functions belong to the same sources. *)

From S2P Require Import Prelude.

Definition bits_required8 (num : Z) : Z :=
  let '(ret, num) := if num >? 0xf then (4, Z.shiftr num 4) else (0, num) in
  let '(ret, num) := if num >? 0x3 then (ret + 2, Z.shiftr num 2) else (ret, num) in
  let num := Z.land num (Z.lnot (Z.shiftr num 1)) in
  ret + num.

Definition bits_required16 (num : Z) : Z :=
  if num <=? 0xff then bits_required8 num else 8 + bits_required8 (Z.shiftr num 8).

Definition bits_required32 (num : Z) : Z :=
  if num <=? 0xffff then bits_required16 num else 16 + bits_required16 (Z.shiftr num 16).

Definition bits_required64 (num : Z) : Z :=
  if num <=? 0xffffffff then bits_required32 num else 32 + bits_required32 (Z.shiftr num 32).

Fixpoint nearest_power_loop (fuel : nat) (n num : Z) : option Z :=
  match fuel with
  | O => None
  | S fuel => if n <? num then nearest_power_loop fuel (Z.shiftl n 1 mod 2 ^ 64) num else Some n
  end.

Definition nearest_power (num : Z) : option Z :=
  _ ← assert (num <=? 2 ^ 63);
  nearest_power_loop 64 1 num.

(** The bytes [numpack_encode] appends to its buffer. *)
Fixpoint numpack_encode_loop (fuel : nat) (num : Z) : option (list Z) :=
  match fuel with
  | O => None
  | S fuel =>
      if num >=? 0x80 then
        rest ← numpack_encode_loop fuel (Z.shiftr num 7);
        Some (Z.lor (Z.land num 0x7f) 0x80 :: rest)
      else Some [num]
  end.

Definition numpack_encode (num : Z) : option (list Z) := numpack_encode_loop 10 num.

(** The loop of [numpack_decode].  [inr] is the return value -1, [inl] the
    state after the loop: the bits shifted, the value and the data from [c]
    on. *)
Fixpoint numpack_decode_loop (fuel : nat) (bits value : Z) (c : list Z)
    : option ((Z * Z * list Z) + unit) :=
  match fuel with
  | O => None
  | S fuel =>
      if bits <? 64 then
        match c with
        | [] => Some (inr tt)
        | b :: c' =>
            let value := Z.lor value (Z.shiftl (Z.land b 0x7f) bits mod 2 ^ 64) in
            if b <? 0x80 then Some (inl (bits, value, c))
            else numpack_decode_loop fuel (bits + 7) value c'
        end
      else Some (inl (bits, value, c))
  end.

(** [None]: a byte after the end of the data is read.  [Some None]: -1. *)
Definition numpack_decode (p : list Z) : option (option (Z * list Z)) :=
  res ← numpack_decode_loop 11 0 0 p;
  match res with
  | inr _ => Some None
  | inl (bits, value, c) =>
      b ← c !! 0%nat;
      let bits := bits + bits_required8 b in
      if bits >? 64 then Some None else Some (Some (value, drop 1 c))
  end.

Definition numpack_decode32 (p : list Z) : option (option (Z * list Z)) :=
  res ← numpack_decode p;
  match res with
  | None => Some None
  | Some (num, p) => if num >? 4294967295 then Some None else Some (Some (num, p))
  end.

Lemma bits_required8_spec num :
  is_byte num -> bits_required8 num = if num =? 0 then 0 else Z.log2 num + 1.
Proof.
  intros Hn. apply Z.eqb_eq.
  apply (byte_forall (fun num => bits_required8 num =? if num =? 0 then 0 else Z.log2 num + 1));
    [vm_compute; reflexivity | done].
Qed.

Lemma log2_shiftr n k : 0 < n -> 0 <= k -> 2 ^ k <= n -> Z.log2 (Z.shiftr n k) = Z.log2 n - k.
Proof.
  intros Hn Hk Hle. rewrite Z.log2_shiftr by done. apply Z.max_r.
  assert (k <= Z.log2 n) by (by apply Z.log2_le_pow2). lia.
Qed.

Lemma bits_required16_spec num :
  0 <= num < 65536 -> bits_required16 num = if num =? 0 then 0 else Z.log2 num + 1.
Proof.
  intros Hn. unfold bits_required16. destruct (Z.leb_spec num 0xff).
  - apply bits_required8_spec. unfold is_byte. lia.
  - rewrite bits_required8_spec.
    2: { unfold is_byte. rewrite Z.shiftr_div_pow2 by lia. change (2 ^ 8) with 256. Z.div_mod_to_equations; lia. }
    rewrite (proj2 (Z.eqb_neq num 0)) by lia.
    rewrite (proj2 (Z.eqb_neq (Z.shiftr num 8) 0)).
    2: { rewrite Z.shiftr_div_pow2 by lia. change (2 ^ 8) with 256. Z.div_mod_to_equations; lia. }
    rewrite log2_shiftr by (try lia; change (2 ^ 8) with 256; lia). lia.
Qed.

(** Splitting off the high half of a number that has one. *)
Lemma bits_half n k :
  0 < k -> 2 ^ k <= n < 2 ^ (2 * k) ->
  0 < Z.shiftr n k < 2 ^ k /\ Z.log2 n + 1 = k + (Z.log2 (Z.shiftr n k) + 1).
Proof.
  intros Hk Hn. assert (Hp : 0 < 2 ^ k) by lia. split.
  - rewrite Z.shiftr_div_pow2 by lia. rewrite Z.mul_comm, Z.pow_mul_r, Z.pow_2_r in Hn by lia.
    split; [apply Z.div_str_pos; lia | apply Z.div_lt_upper_bound; lia].
  - rewrite log2_shiftr; lia.
Qed.

Lemma bits_required64_spec num :
  0 <= num < 2 ^ 64 -> bits_required64 num = if num =? 0 then 0 else Z.log2 num + 1.
Proof.
  intros Hn.
  assert (H32 : forall n, 0 <= n < 2 ^ 32 -> bits_required32 n = if n =? 0 then 0 else Z.log2 n + 1).
  { intros n Hn'. unfold bits_required32. destruct (Z.leb_spec n 0xffff).
    - apply bits_required16_spec. lia.
    - destruct (bits_half n 16) as [Hh Hl]; [lia | change (2 ^ 16) with 65536; change (2 ^ (2 * 16)) with (2 ^ 32); lia |].
      change (2 ^ 16) with 65536 in Hh.
      rewrite bits_required16_spec by lia. rewrite !(proj2 (Z.eqb_neq _ 0)) by lia. lia. }
  unfold bits_required64. destruct (Z.leb_spec num 0xffffffff).
  - apply H32. change (2 ^ 32) with 4294967296. lia.
  - destruct (bits_half num 32) as [Hh Hl]; [lia | change (2 ^ 32) with 4294967296; change (2 ^ (2 * 32)) with (2 ^ 64); lia |].
    rewrite H32 by lia. rewrite !(proj2 (Z.eqb_neq _ 0)) by lia. lia.
Qed.

Lemma nearest_power_loop_spec fuel k num :
  (k + Z.of_nat fuel = 64) -> 0 <= k -> 0 < num <= 2 ^ 63 -> (0 < k -> 2 ^ (k - 1) < num) ->
  exists j, nearest_power_loop fuel (2 ^ k) num = Some (2 ^ j) /\ k <= j <= 63 /\
    num <= 2 ^ j /\ (0 < j -> 2 ^ (j - 1) < num).
Proof.
  revert k. induction fuel as [|fuel IH]; intros k Hf Hk Hnum Hlow.
  - exfalso. replace k with 64 in * by lia. specialize (Hlow ltac:(lia)).
    change (2 ^ (64 - 1)) with (2 ^ 63) in Hlow. lia.
  - cbn [nearest_power_loop]. destruct (Z.ltb_spec (2 ^ k) num).
    + assert (k < 63). { destruct (Z.lt_ge_cases k 63) as [|Hge]; [done |]. exfalso.
        pose proof (Z.pow_le_mono_r 2 63 k ltac:(lia) Hge). lia. }
      rewrite Z.shiftl_mul_pow2 by lia. change (2 ^ 1) with 2.
      replace (2 ^ k * 2) with (2 ^ (k + 1)) by (rewrite Z.pow_add_r by lia; lia).
      rewrite Z.mod_small by (split; [apply Z.pow_nonneg; lia | apply Z.pow_lt_mono_r; lia]).
      destruct (IH (k + 1)) as (j & Hj & ? & ? & ?); [lia | lia | done | |].
      { intros _. by replace (k + 1 - 1) with k by lia. }
      exists j. split_and!; try done; lia.
    + exists k. split_and!; try done; try lia.
Qed.

(** ** Encoding *)

Lemma numpack_low b : 0 <= b -> Z.lor (Z.land b 0x7f) 0x80 = b mod 128 + 128.
Proof.
  intros Hb. change 0x7f with (2 ^ 7 - 1). rewrite land_low by lia.
  apply (lor_disjoint (b mod 2 ^ 7) 1 7); [lia |]. apply Z.mod_pos_bound. lia.
Qed.

Lemma numpack_encode_loop_some fuel n :
  0 <= n < 2 ^ (7 * Z.of_nat fuel) -> (0 < fuel)%nat ->
  exists l, numpack_encode_loop fuel n = Some l.
Proof.
  revert n. induction fuel as [|fuel IH]; intros n Hn Hf; [lia |]. cbn [numpack_encode_loop].
  rewrite Z.geb_leb. destruct (Z.leb_spec 0x80 n); [| eauto].
  destruct fuel as [|fuel].
  { change (2 ^ (7 * Z.of_nat 1)) with 128 in Hn. lia. }
  destruct (IH (Z.shiftr n 7)) as (l & ->); [| lia | cbn; eauto].
  rewrite Z.shiftr_div_pow2 by lia. split; [apply Z.div_pos; lia |].
  apply Z.div_lt_upper_bound; [lia |]. rewrite <- Z.pow_add_r by lia.
  replace (7 + 7 * Z.of_nat (S fuel)) with (7 * Z.of_nat (S (S fuel))) by lia. lia.
Qed.

Definition after_loop (bits v : Z) (rest : list Z) (o : option ((Z * Z * list Z) + unit)) (n : Z) : Prop :=
  exists bits' b, o = Some (inl (bits', v + n * 2 ^ bits, b :: rest)) /\
    0 <= b < 128 /\ bits <= bits' < 64 /\ b * 2 ^ bits' <= v + n * 2 ^ bits.

Lemma numpack_roundtrip_loop efuel dfuel bits v n l rest :
  numpack_encode_loop efuel n = Some l ->
  0 <= bits -> 0 <= v < 2 ^ bits -> 0 <= n -> v + n * 2 ^ bits < 2 ^ 64 ->
  (n = 0 -> bits < 64) -> bits + 7 * Z.of_nat dfuel >= 70 ->
  after_loop bits v rest (numpack_decode_loop dfuel bits v (l ++ rest)) n.
Proof.
  revert dfuel bits v n l. induction efuel as [|efuel IH]; intros dfuel bits v n l He Hb Hv Hn Htot H0 Hf; [done |].
  cbn [numpack_encode_loop] in He.
  assert (Hlt : bits < 64).
  { destruct (Z.lt_ge_cases bits 64) as [|Hge]; [done |]. assert (n <> 0) by lia.
    pose proof (Z.pow_le_mono_r 2 64 bits ltac:(lia) Hge).
    pose proof (Z.mul_le_mono_nonneg_r 1 n (2 ^ bits) ltac:(lia) ltac:(lia)). lia. }
  destruct dfuel as [|dfuel]; [lia |]. cbn [numpack_decode_loop].
  rewrite (proj2 (Z.ltb_lt bits 64)) by lia.
  assert (Hval : forall c x, 0 <= c -> c mod 128 = x -> x * 2 ^ bits < 2 ^ 64 ->
     Z.lor v (Z.shiftl (Z.land c 0x7f) bits mod 2 ^ 64) = v + x * 2 ^ bits).
  { intros c x Hc Hx Hle. change 0x7f with (2 ^ 7 - 1). rewrite land_low by lia.
    change (2 ^ 7) with 128. rewrite Hx, Z.shiftl_mul_pow2 by lia.
    assert (0 <= x) by (rewrite <- Hx; apply Z.mod_pos_bound; lia).
    rewrite Z.mod_small by (split; [apply Z.mul_nonneg_nonneg; lia | done]).
    apply lor_disjoint; lia. }
  rewrite Z.geb_leb in He. destruct (Z.leb_spec 0x80 n).
  - destruct (numpack_encode_loop efuel (Z.shiftr n 7)) as [l'|] eqn:He'; [| done].
    cbn in He. injection He as <-. simpl app. rewrite numpack_low by lia.
    rewrite (proj2 (Z.ltb_ge _ 128)) by (pose proof (Z.mod_pos_bound n 128); lia).
    pose proof (Z.div_mod n 128 ltac:(lia)) as Hdm. pose proof (Z.mod_pos_bound n 128 ltac:(lia)).
    assert (Hq : 0 <= n / 128) by (apply Z.div_pos; lia).
    assert (Hp : 2 ^ (bits + 7) = 2 ^ bits * 128) by (rewrite Z.pow_add_r by lia; lia).
    rewrite Z.shiftr_div_pow2 in He' by lia. change (2 ^ 7) with 128 in He'.
    assert (Hv' : Z.lor v (Z.shiftl (Z.land (n mod 128 + 128) 0x7f) bits mod 2 ^ 64)
              = v + (n mod 128) * 2 ^ bits).
    { apply (Hval (n mod 128 + 128) (n mod 128)); [lia | |
        pose proof (Z.mul_le_mono_nonneg_r (n mod 128) n (2 ^ bits) ltac:(lia) ltac:(lia)); lia].
      Z.div_mod_to_equations. lia. }
    rewrite Hv'.
    assert (Hsum : v + n mod 128 * 2 ^ bits + n / 128 * 2 ^ (bits + 7) = v + n * 2 ^ bits).
    { rewrite Hp. rewrite Hdm at 3. ring. }
    assert (Hr : n mod 128 * 2 ^ bits <= 127 * 2 ^ bits) by (apply Z.mul_le_mono_nonneg_r; lia).
    destruct (IH dfuel (bits + 7) (v + n mod 128 * 2 ^ bits) (n / 128) l' He')
      as (bits' & b & Heq & ? & ? & ?); try lia.
    exists bits', b. split_and!; try lia.
    by rewrite Heq, Hsum.
  - injection He as <-. cbn [app]. cbv beta iota. rewrite (proj2 (Z.ltb_lt n 128)) by lia.
    rewrite (Hval n n) by (try lia; rewrite Z.mod_small; lia).
    exists bits, n. split_and!; try done; lia.
Qed.

Lemma bits_required8_bound b k : 0 <= b < 128 -> 0 <= k -> b * 2 ^ k < 2 ^ 64 -> k < 64 -> k + bits_required8 b <= 64.
Proof.
  intros Hb Hk Hlt Hk64. rewrite bits_required8_spec by (unfold is_byte; lia).
  destruct (Z.eqb_spec b 0); [lia |].
  destruct (Z.lt_ge_cases (Z.log2 b + k) 64) as [|Hge]; [lia |]. exfalso.
  pose proof (Z.log2_spec b ltac:(lia)) as [Hl _].
  pose proof (Z.pow_le_mono_r 2 64 (Z.log2 b + k) ltac:(lia) ltac:(lia)).
  rewrite Z.pow_add_r in H by (try apply Z.log2_nonneg; lia).
  pose proof (Z.mul_le_mono_nonneg_r (2 ^ Z.log2 b) b (2 ^ k) ltac:(lia) Hl). lia.
Qed.

Definition all_continued (l : list Z) : bool := forallb (fun b => 0x80 <=? b) l.

(** The loop ends within its fuel, and leaves the position at the end of the
    data only when as many continued bytes as the bits allow were all there was. *)
Lemma numpack_decode_loop_end i fuel value c :
  (i + fuel = 11)%nat -> (i <= 10)%nat ->
  exists r, numpack_decode_loop fuel (7 * Z.of_nat i) value c = Some r /\
    ((exists b v, r = inl (b, v, [])) <-> (i + length c = 10)%nat /\ all_continued c = true).
Proof.
  revert i value c. induction fuel as [|fuel IH]; intros i value c Hi Hle; [lia |].
  cbn [numpack_decode_loop]. destruct (Z.ltb_spec (7 * Z.of_nat i) 64) as [Hlt|Hge].
  - destruct c as [|b c]; [eexists; split; [done |]; split; [naive_solver | cbn; lia] |].
    cbv beta iota. cbn [length all_continued forallb]. destruct (Z.ltb_spec b 0x80).
    + eexists. split; [done |]. rewrite (proj2 (Z.leb_gt _ _)) by done. naive_solver.
    + replace (7 * Z.of_nat i + 7) with (7 * Z.of_nat (S i)) by lia.
      destruct (IH (S i) (Z.lor value (Z.shiftl (Z.land b 0x7f) (7 * Z.of_nat i) mod 2 ^ 64)) c)
        as (r & -> & Hr); [lia | lia |].
      eexists. split; [done |]. rewrite Hr, (proj2 (Z.leb_le _ _)) by done.
      unfold all_continued. rewrite andb_true_l. by replace (i + S (length c))%nat with (S i + length c)%nat by lia.
  - assert (i = 10)%nat as -> by lia. eexists. split; [done |].
    destruct c; split; [intros _; split; [cbn; lia | done] | eauto | naive_solver | cbn; lia].
Qed.

(** C36: every 64-bit number that [numpack_encode] writes is read back by
    [numpack_decode], which consumes exactly the bytes written and leaves the
    position at whatever follows them. *)
Theorem numpack_roundtrip n rest :
  0 <= n < 2 ^ 64 ->
  exists l, numpack_encode n = Some l /\ numpack_decode (l ++ rest) = Some (Some (n, rest)).
Proof.
  intros Hn. unfold numpack_encode, numpack_decode.
  destruct (numpack_encode_loop_some 10 n) as (l & Hl); [| lia |].
  { change (2 ^ (7 * Z.of_nat 10)) with (2 ^ 64 * 64). lia. }
  exists l. split; [done |].
  destruct (numpack_roundtrip_loop 10 11 0 0 n l rest Hl) as (bits & b & Heq & ? & ? & Hbn);
    [lia | lia | lia | rewrite Z.pow_0_r; lia | lia | lia |].
  rewrite Heq. rewrite Z.pow_0_r, Z.mul_1_r, Z.add_0_l in *. cbn [lookup list_lookup mbind option_bind].
  pose proof (bits_required8_bound b bits). rewrite Z.gtb_ltb.
  rewrite (proj2 (Z.ltb_ge 64 _)) by lia. done.
Qed.

Lemma numpack_roundtrip_witness :
  0 <= 300 < 2 ^ 64 /\
  exists l, numpack_encode 300 = Some l /\ numpack_decode (l ++ [7]) = Some (Some (300, [7])).
Proof. split; [split; [discriminate | reflexivity] | apply numpack_roundtrip; split; [discriminate | reflexivity]]. Defined.

(** [numpack_decode] reads the byte behind the end of its data exactly
    when the data is ten bytes that all have the continuation bit; on all other
    data it stays within the data and returns a number or the error. *)
Theorem numpack_decode_reads_past_end p :
  numpack_decode p = None <-> length p = 10%nat /\ all_continued p = true.
Proof.
  unfold numpack_decode. destruct (numpack_decode_loop_end 0 11 0 p) as (r & Hr & Hiff); [lia | lia |].
  change (7 * Z.of_nat 0) with 0 in Hr. rewrite Hr. cbn [mbind option_bind].
  rewrite Nat.add_0_l in Hiff. rewrite <- Hiff.
  destruct r as [[[b v] [|x c]]|]; cbn; [naive_solver | case_match; naive_solver | naive_solver].
Qed.

(** The bit counters agree with the logarithm on every 64-bit number, and
    [nearest_power] is the least power of two that is not below its argument. *)
Theorem bits_correct num :
  0 < num < 2 ^ 64 ->
  bits_required64 num = Z.log2 num + 1 /\ bits_required64 0 = 0 /\
  (num <= 2 ^ 63 -> exists j, nearest_power num = Some (2 ^ j) /\ 0 <= j <= 63 /\
    num <= 2 ^ j /\ (0 < j -> 2 ^ (j - 1) < num)).
Proof.
  intros Hn. split_and!; [| done |].
  - rewrite bits_required64_spec by lia. by rewrite (proj2 (Z.eqb_neq num 0)) by lia.
  - intros Hle. unfold nearest_power.
    replace (assert _) with (Some tt) by (unfold assert; case_match; [done | lia]).
    apply (nearest_power_loop_spec 64 0 num); lia.
Qed.

Lemma bits_correct_witness :
  0 < 1000 < 2 ^ 64 /\ bits_required64 1000 = 10.
Proof. split; [split; reflexivity | rewrite (proj1 (bits_correct 1000 ltac:(split; reflexivity))); reflexivity]. Defined.
