(* ===== verification/HexBinary.v ===== *)
(** * Hexadecimal coding (src/src/lib/hex-binary.c, hex-dec.c)

    [binary_to_hex], [binary_to_hex_ucase] and [hex_to_binary] code byte
    strings, [dec2hex] and [hex2dec] code unsigned integers of fixed width.
    The theorems are the two round trips and the exact set of inputs that
    [hex_to_binary] accepts. *)

From S2P Require Import Prelude.

(** The digit stored for a four-bit [value]; [base_char] is 'A' or 'a'. *)
Definition hex_char (base_char value : Z) : Z :=
  if value <? 10 then value + 48 else value - 10 + base_char.

Definition binary_to_hex_case (data : list Z) (ucase : bool) : list Z :=
  let base_char := if ucase then 65 else 97 in
  flat_map (fun c => [hex_char base_char (Z.shiftr c 4); hex_char base_char (Z.land c 0x0f)]) data.

Definition binary_to_hex (data : list Z) : list Z := binary_to_hex_case data false.

Definition binary_to_hex_ucase (data : list Z) : list Z := binary_to_hex_case data true.

Definition binary_to_hex_append (dest data : list Z) : list Z := dest ++ binary_to_hex_case data false.

(** The value of a digit, [None] where the code returns -1. *)
Definition hex_value (c : Z) : option Z :=
  if (c >=? 48) && (c <=? 57) then Some (c - 48)
  else if (c >=? 97) && (c <=? 102) then Some (c - 97 + 10)
  else if (c >=? 65) && (c <=? 70) then Some (c - 65 + 10)
  else None.

(** The return value and the contents of [dest].  The second digit of a pair
    may be the terminating NUL. *)
Fixpoint hex_to_binary (data dest : list Z) : Z * list Z :=
  match data with
  | [] => (0, dest)
  | c1 :: data' =>
      match hex_value c1 with
      | None => (-1, dest)
      | Some v1 =>
          match data' with
          | [] => (-1, dest)
          | c2 :: data'' =>
              match hex_value c2 with
              | None => (-1, dest)
              | Some v2 => hex_to_binary data'' (dest ++ [Z.lor (Z.shiftl v1 4) v2])
              end
          end
      end
  end.

(** The digits stored by [dec2hex], which fills its array from the end. *)
Fixpoint dec2hex_loop (hexstr_size : nat) (dec : Z) (hexstr : list Z) : list Z :=
  match hexstr_size with
  | O => hexstr
  | S n =>
      let value := Z.land dec 0x0f in
      dec2hex_loop n (Z.shiftr dec 4) (hex_char 65 value :: hexstr)
  end.

Definition dec2hex (dec : Z) (hexstr_size : nat) : list Z := dec2hex_loop hexstr_size dec [].

(** [hex2dec] tests the upper-case digits first, which makes no difference. *)
Definition hex2dec_value (c : Z) : option Z :=
  if (c >=? 48) && (c <=? 57) then Some (c - 48)
  else if (c >=? 65) && (c <=? 70) then Some (c - 65 + 10)
  else if (c >=? 97) && (c <=? 102) then Some (c - 97 + 10)
  else None.

Fixpoint hex2dec_loop (data : list Z) (value : Z) : Z :=
  match data with
  | [] => value
  | c :: data =>
      let value := value * 0x10 mod 2 ^ 64 in
      match hex2dec_value c with
      | Some v => hex2dec_loop data ((value + v) mod 2 ^ 64)
      | None => 0
      end
  end.

Definition hex2dec (data : list Z) : Z := hex2dec_loop data 0.

(** ** Lemmas *)

Lemma hex_value_char base v :
  base = 65 \/ base = 97 -> 0 <= v < 16 -> hex_value (hex_char base v) = Some v.
Proof.
  intros Hb Hv. unfold hex_value, hex_char. rewrite !Z.geb_leb.
  destruct Hb as [-> | ->]; destruct (Z.ltb_spec v 10); zcases; f_equal; lia.
Qed.

Lemma hex_value_range c v : hex_value c = Some v -> 0 <= v < 16.
Proof. unfold hex_value. rewrite !Z.geb_leb. intros H. repeat case_match; simplify_eq; lia. Qed.

Lemma byte_nibbles c : is_byte c ->
  0 <= Z.shiftr c 4 < 16 /\ 0 <= Z.land c 0x0f < 16 /\
  Z.lor (Z.shiftl (Z.shiftr c 4) 4) (Z.land c 0x0f) = c.
Proof.
  intros Hc.
  pose proof (byte_forall (fun c => (0 <=? Z.shiftr c 4) && (Z.shiftr c 4 <? 16) &&
    ((0 <=? Z.land c 0x0f) && (Z.land c 0x0f <? 16)) &&
    (Z.lor (Z.shiftl (Z.shiftr c 4) 4) (Z.land c 0x0f) =? c)) ltac:(vm_compute; reflexivity) c Hc) as H.
  cbv beta in H. lia.
Qed.

Lemma hex_roundtrip_spec data ucase dest :
  Forall is_byte data -> hex_to_binary (binary_to_hex_case data ucase) dest = (0, dest ++ data).
Proof.
  intros Hd. revert dest. induction Hd as [|c data Hc Hd IH]; intros dest; simpl; [by rewrite app_nil_r |].
  destruct (byte_nibbles c Hc) as (H1 & H2 & H3).
  assert (Hb : (if ucase then 65 else 97) = 65 \/ (if ucase then 65 else 97) = 97) by (destruct ucase; auto).
  rewrite !hex_value_char by (auto). rewrite H3. unfold binary_to_hex_case in IH. rewrite IH.
  by rewrite <- app_assoc.
Qed.

Definition is_hex (c : Z) : bool := match hex_value c with Some _ => true | None => false end.

Lemma hex_to_binary_accepts n data dest :
  (length data <= n)%nat ->
  fst (hex_to_binary data dest) = if Nat.even (length data) && forallb is_hex data then 0 else -1.
Proof.
  revert data dest. induction n as [|n IH]; intros data dest Hn; [by destruct data; [| simpl in Hn; lia] |].
  destruct data as [|c1 [|c2 data]]; [done | simpl; by case_match |].
  cbn [hex_to_binary forallb length Nat.even]. unfold is_hex at 1 2.
  destruct (hex_value c1); [| by rewrite andb_false_r].
  destruct (hex_value c2); [| by rewrite andb_false_r].
  rewrite IH by (simpl in Hn; lia). done.
Qed.

Lemma hex_to_binary_bytes n data dest :
  (length data <= n)%nat -> Forall is_byte dest -> Forall is_byte (snd (hex_to_binary data dest)).
Proof.
  revert data dest. induction n as [|n IH]; intros data dest Hn Hd; [by destruct data; [| simpl in Hn; lia] |].
  destruct data as [|c1 [|c2 data]]; cbn [hex_to_binary]; [done | by case_match |].
  destruct (hex_value c1) as [v1|] eqn:H1; [| done]. destruct (hex_value c2) as [v2|] eqn:H2; [| done].
  apply IH; [simpl in Hn; lia |]. apply Forall_app. split; [done |]. constructor; [| constructor].
  apply hex_value_range in H1, H2. rewrite Z.shiftl_mul_pow2, lor_disjoint' by lia.
  unfold is_byte. change (2 ^ 4) with 16. lia.
Qed.

Lemma hex2dec_value_char v : 0 <= v < 16 -> hex2dec_value (hex_char 65 v) = Some v.
Proof.
  intros Hv. unfold hex2dec_value, hex_char. rewrite !Z.geb_leb.
  destruct (Z.ltb_spec v 10); zcases; f_equal; lia.
Qed.

Lemma hex2dec_app n dec acc value :
  0 <= dec -> 0 <= value < 2 ^ 64 ->
  hex2dec_loop (dec2hex_loop n dec acc) value
  = hex2dec_loop acc ((value * 16 ^ Z.of_nat n + dec mod 16 ^ Z.of_nat n) mod 2 ^ 64).
Proof.
  intros Hdec Hv. revert dec acc Hdec. induction n as [|n IH]; intros dec acc Hdec.
  { cbn [dec2hex_loop]. change (16 ^ Z.of_nat 0) with 1.
    by rewrite Z.mod_1_r, Z.mul_1_r, Z.add_0_r, Z.mod_small. }
  cbn [dec2hex_loop]. change 0x0f with (2 ^ 4 - 1). rewrite land_low, Z.shiftr_div_pow2 by lia.
  change (2 ^ 4) with 16. pose proof (Z.mod_pos_bound dec 16 ltac:(lia)).
  assert (Hm : dec mod 16 ^ Z.of_nat (S n) = dec / 16 mod 16 ^ Z.of_nat n * 16 + dec mod 16).
  { rewrite Nat2Z.inj_succ, Z.pow_succ_r, Z.rem_mul_r by lia. lia. }
  rewrite (IH (dec / 16)) by (apply Z.div_pos; lia).
  cbn [hex2dec_loop]. rewrite hex2dec_value_char by done. f_equal.
  rewrite Hm, Nat2Z.inj_succ, Z.pow_succ_r by lia.
  rewrite Zmult_mod_idemp_l, Zplus_mod_idemp_l. f_equal. ring.
Qed.

(** ** Properties *)

(** Decoding the hexadecimal form of any bytes, in either case, succeeds
    and appends exactly those bytes. *)
Theorem hex_binary_roundtrip data dest :
  Forall is_byte data ->
  hex_to_binary (binary_to_hex data) dest = (0, dest ++ data) /\
  hex_to_binary (binary_to_hex_ucase data) dest = (0, dest ++ data) /\
  hex_to_binary (binary_to_hex_append [] data) dest = (0, dest ++ data).
Proof. intros. split_and!; by apply hex_roundtrip_spec. Qed.

Lemma hex_binary_roundtrip_witness :
  Forall is_byte [0; 175; 255] /\ hex_to_binary (binary_to_hex [0; 175; 255]) [1] = (0, [1; 0; 175; 255]).
Proof.
  assert (H : Forall is_byte [0; 175; 255]) by (repeat constructor; discriminate).
  split; [exact H | exact (proj1 (hex_binary_roundtrip [0; 175; 255] [1] H))].
Defined.

(** [hex_to_binary] accepts exactly the strings of an even number of
    hexadecimal digits, returns -1 on all others, and on every input only
    bytes are appended. *)
Theorem hex_to_binary_domain data :
  fst (hex_to_binary data []) = (if Nat.even (length data) && forallb is_hex data then 0 else -1) /\
  Forall is_byte (snd (hex_to_binary data [])).
Proof. split; [by eapply hex_to_binary_accepts | by eapply hex_to_binary_bytes]. Qed.

(** [hex2dec] reads back what [dec2hex] wrote, reduced to the number of
    digits written; with sixteen digits every 64-bit number survives. *)
Theorem dec2hex_roundtrip dec n :
  0 <= dec < 2 ^ 64 ->
  length (dec2hex dec n) = n /\ hex2dec (dec2hex dec n) = dec mod 16 ^ Z.of_nat n.
Proof.
  intros Hd. unfold dec2hex, hex2dec. split.
  - assert (H : forall n dec acc, length (dec2hex_loop n dec acc) = (n + length acc)%nat).
    { clear. induction n as [|n IH]; intros; [done |]. cbn [dec2hex_loop]. rewrite IH. simpl. lia. }
    rewrite H. simpl. lia.
  - rewrite hex2dec_app by lia. cbn [hex2dec_loop]. rewrite Z.mul_0_l, Z.add_0_l.
    pose proof (Z.mod_pos_bound dec (16 ^ Z.of_nat n) ltac:(lia)).
    apply Z.mod_small. pose proof (Z.mod_le dec (16 ^ Z.of_nat n) ltac:(lia) ltac:(lia)). lia.
Qed.

Lemma dec2hex_roundtrip_witness :
  hex2dec (dec2hex 0xDEADBEEF 8) = 0xDEADBEEF mod 16 ^ Z.of_nat 8.
Proof. apply (dec2hex_roundtrip 0xDEADBEEF 8); split; [discriminate | reflexivity]. Defined.
