(* ===== verification/Base64.v ===== *)
(** * Base64 (src/src/lib/base64.c, base64.h)

    [base64_encode] and [base64_decode] with their two tables.  A position in
    the source is the list of the bytes that are left; [base64_decode] returns
    its result code, the position it stopped at and the decoded bytes.  The
    theorems are the round trip, decoding a stream in pieces, the size bounds
    of the header's macros and the rejection of line breaks inside a group. *)

From S2P Require Import Prelude.

Definition b64enc : list Z :=
  str "ABCDEFGHIJKLMNOPQRSTUVWXYZabcdefghijklmnopqrstuvwxyz0123456789+/".

Definition b64dec : list Z :=
  [0xff; 0xff; 0xff; 0xff; 0xff; 0xff; 0xff; 0xff;
   0xff; 0xff; 0xff; 0xff; 0xff; 0xff; 0xff; 0xff;
   0xff; 0xff; 0xff; 0xff; 0xff; 0xff; 0xff; 0xff;
   0xff; 0xff; 0xff; 0xff; 0xff; 0xff; 0xff; 0xff;
   0xff; 0xff; 0xff; 0xff; 0xff; 0xff; 0xff; 0xff;
   0xff; 0xff; 0xff; 0x3e; 0xff; 0xff; 0xff; 0x3f;
   0x34; 0x35; 0x36; 0x37; 0x38; 0x39; 0x3a; 0x3b;
   0x3c; 0x3d; 0xff; 0xff; 0xff; 0xff; 0xff; 0xff;
   0xff; 0x00; 0x01; 0x02; 0x03; 0x04; 0x05; 0x06;
   0x07; 0x08; 0x09; 0x0a; 0x0b; 0x0c; 0x0d; 0x0e;
   0x0f; 0x10; 0x11; 0x12; 0x13; 0x14; 0x15; 0x16;
   0x17; 0x18; 0x19; 0xff; 0xff; 0xff; 0xff; 0xff;
   0xff; 0x1a; 0x1b; 0x1c; 0x1d; 0x1e; 0x1f; 0x20;
   0x21; 0x22; 0x23; 0x24; 0x25; 0x26; 0x27; 0x28;
   0x29; 0x2a; 0x2b; 0x2c; 0x2d; 0x2e; 0x2f; 0x30;
   0x31; 0x32; 0x33; 0xff; 0xff; 0xff; 0xff; 0xff;
   0xff; 0xff; 0xff; 0xff; 0xff; 0xff; 0xff; 0xff;
   0xff; 0xff; 0xff; 0xff; 0xff; 0xff; 0xff; 0xff;
   0xff; 0xff; 0xff; 0xff; 0xff; 0xff; 0xff; 0xff;
   0xff; 0xff; 0xff; 0xff; 0xff; 0xff; 0xff; 0xff;
   0xff; 0xff; 0xff; 0xff; 0xff; 0xff; 0xff; 0xff;
   0xff; 0xff; 0xff; 0xff; 0xff; 0xff; 0xff; 0xff;
   0xff; 0xff; 0xff; 0xff; 0xff; 0xff; 0xff; 0xff;
   0xff; 0xff; 0xff; 0xff; 0xff; 0xff; 0xff; 0xff;
   0xff; 0xff; 0xff; 0xff; 0xff; 0xff; 0xff; 0xff;
   0xff; 0xff; 0xff; 0xff; 0xff; 0xff; 0xff; 0xff;
   0xff; 0xff; 0xff; 0xff; 0xff; 0xff; 0xff; 0xff;
   0xff; 0xff; 0xff; 0xff; 0xff; 0xff; 0xff; 0xff;
   0xff; 0xff; 0xff; 0xff; 0xff; 0xff; 0xff; 0xff;
   0xff; 0xff; 0xff; 0xff; 0xff; 0xff; 0xff; 0xff;
   0xff; 0xff; 0xff; 0xff; 0xff; 0xff; 0xff; 0xff;
   0xff; 0xff; 0xff; 0xff; 0xff; 0xff; 0xff; 0xff].

Definition enc (i : Z) : Z := at0 b64enc (Z.to_nat i).

Definition dec (c : Z) : Z := default 0xff (b64dec !! Z.to_nat c).

Fixpoint base64_encode (src : list Z) : list Z :=
  match src with
  | [] => []
  | [a] => [enc (Z.shiftr a 2); enc (Z.shiftl (Z.land a 0x03) 4); 61; 61]
  | [a; b] =>
      [enc (Z.shiftr a 2); enc (Z.lor (Z.shiftl (Z.land a 0x03) 4) (Z.shiftr b 4));
       enc (Z.shiftl (Z.land b 0x0f) 2); 61]
  | a :: b :: c :: src =>
      enc (Z.shiftr a 2) :: enc (Z.lor (Z.shiftl (Z.land a 0x03) 4) (Z.shiftr b 4)) ::
      enc (Z.lor (Z.shiftl (Z.land b 0x0f) 2) (Z.shiftr (Z.land c 0xc0) 6)) ::
      enc (Z.land c 0x3f) :: base64_encode src
  end.

Definition IS_EMPTY (c : Z) : bool := (c =? 10) || (c =? 13) || (c =? 32) || (c =? 9).

(** The bytes are stored in [unsigned char output[3]]. *)
Definition out0 (i0 i1 : Z) : Z := Z.lor (Z.shiftl i0 2) (Z.shiftr i1 4) mod 256.
Definition out1 (i1 i2 : Z) : Z := Z.lor (Z.shiftl i1 4) (Z.shiftr i2 2) mod 256.
Definition out2 (i2 i3 : Z) : Z := Z.lor (Z.land (Z.shiftl i2 6) 0xc0) i3 mod 256.

(** The first loop: the result code, the source from [src_pos] on and [dest]. *)
Fixpoint base64_decode_loop (src dest : list Z) : Z * list Z * list Z :=
  match src with
  | c0 :: ((c1 :: c2 :: c3 :: rest) as src') =>
      if dec c0 =? 0xff then
        if negb (IS_EMPTY c0) then (-1, src, dest) else base64_decode_loop src' dest
      else if dec c1 =? 0xff then (-1, src, dest)
      else if dec c2 =? 0xff then
        if negb (c2 =? 61) || negb (c3 =? 61) then (-1, src, dest)
        else (0, rest, dest ++ [out0 (dec c0) (dec c1)])
      else if dec c3 =? 0xff then
        if negb (c3 =? 61) then (-1, src, dest)
        else (0, rest, dest ++ [out0 (dec c0) (dec c1); out1 (dec c1) (dec c2)])
      else
        base64_decode_loop rest
          (dest ++ [out0 (dec c0) (dec c1); out1 (dec c1) (dec c2); out2 (dec c2) (dec c3)])
  | _ => (1, src, dest)
  end.

(** The second loop. *)
Fixpoint skip_empty (src : list Z) : list Z :=
  match src with
  | c :: src' => if negb (IS_EMPTY c) then src else skip_empty src'
  | [] => []
  end.

(** The result code, [*src_pos_r] and the contents of [dest]. *)
Definition base64_decode (src dest : list Z) : Z * nat * list Z :=
  let '(ret, rest, dest) := base64_decode_loop src dest in
  (ret, (length src - length (skip_empty rest))%nat, dest).

Definition t_base64_decode_str (s : list Z) : list Z := (base64_decode s []).2.

Definition base64_is_valid_char (c : Z) : bool := negb (dec c =? 0xff).

Definition MAX_BASE64_ENCODED_SIZE (size : nat) : nat := (size / 3 * 4 + 2 + 2)%nat.
Definition MAX_BASE64_DECODED_SIZE (size : nat) : nat := (size / 4 * 3 + 3)%nat.

(** ** Tables *)

(** The tables are inverse to each other on the 64 values. *)
Lemma dec_enc i : 0 <= i < 64 -> dec (enc i) = i.
Proof.
  intros Hi.
  pose proof (byte_forall (fun i => (64 <=? i) || (dec (enc i) =? i)) ltac:(vm_compute; reflexivity) i) as H.
  cbv beta in H. unfold is_byte in H. lia.
Qed.

Lemma enc_valid i : 0 <= i < 64 -> (dec (enc i) =? 0xff) = false.
Proof. intros. rewrite dec_enc by done. lia. Qed.

Lemma dec_range c : is_byte c -> dec c <> 0xff -> 0 <= dec c < 64.
Proof.
  intros Hc Hv.
  pose proof (byte_forall (fun c => (dec c =? 0xff) || ((0 <=? dec c) && (dec c <? 64)))
    ltac:(vm_compute; reflexivity) c Hc) as H. cbv beta in H. lia.
Qed.

(** ** Six-bit groups as quotients and remainders *)

Lemma group1 a b : is_byte a -> is_byte b ->
  Z.lor (Z.shiftl (Z.land a 0x03) 4) (Z.shiftr b 4) = a mod 4 * 16 + b / 16.
Proof.
  unfold is_byte. intros Ha Hb. change 0x03 with (2 ^ 2 - 1). rewrite land_low by lia.
  rewrite Z.shiftl_mul_pow2, Z.shiftr_div_pow2 by lia. apply (lor_disjoint' (b / 16) (a mod 4) 4); [lia |].
  change (2 ^ 4) with 16. Z.div_mod_to_equations; lia.
Qed.

Lemma group2 b c : is_byte b -> is_byte c ->
  Z.lor (Z.shiftl (Z.land b 0x0f) 2) (Z.shiftr (Z.land c 0xc0) 6) = b mod 16 * 4 + c / 64.
Proof.
  unfold is_byte. intros Hb Hc. change 0x0f with (2 ^ 4 - 1). rewrite land_low by lia.
  pose proof (byte_forall (fun c => Z.shiftr (Z.land c 0xc0) 6 =? c / 64) ltac:(vm_compute; reflexivity) c Hc) as H.
  apply Z.eqb_eq in H. rewrite H. rewrite Z.shiftl_mul_pow2 by lia.
  apply (lor_disjoint' (c / 64) (b mod 16) 2); [lia |].
  change (2 ^ 2) with 4. Z.div_mod_to_equations; lia.
Qed.

Lemma out0_eq i0 i1 : 0 <= i0 < 64 -> 0 <= i1 < 64 -> out0 i0 i1 = i0 * 4 + i1 / 16.
Proof.
  intros. unfold out0. rewrite Z.shiftl_mul_pow2, Z.shiftr_div_pow2 by lia.
  rewrite lor_disjoint' by (change (2 ^ 2) with 4; change (2 ^ 4) with 16; Z.div_mod_to_equations; lia).
  change (2 ^ 2) with 4; change (2 ^ 4) with 16. apply Z.mod_small. Z.div_mod_to_equations; lia.
Qed.

Lemma out1_eq i1 i2 : 0 <= i1 < 64 -> 0 <= i2 < 64 -> out1 i1 i2 = i1 mod 16 * 16 + i2 / 4.
Proof.
  intros. unfold out1. rewrite Z.shiftl_mul_pow2, Z.shiftr_div_pow2 by lia.
  rewrite lor_disjoint' by (change (2 ^ 2) with 4; change (2 ^ 4) with 16; Z.div_mod_to_equations; lia).
  change (2 ^ 2) with 4; change (2 ^ 4) with 16. Z.div_mod_to_equations; lia.
Qed.

Lemma out2_eq i2 i3 : 0 <= i2 < 64 -> 0 <= i3 < 64 -> out2 i2 i3 = i2 mod 4 * 64 + i3.
Proof.
  intros. unfold out2.
  pose proof (byte_forall (fun i => Z.land (Z.shiftl i 6) 0xc0 =? i mod 4 * 64) ltac:(vm_compute; reflexivity) i2) as H1.
  cbv beta in H1. unfold is_byte in H1. rewrite Z.eqb_eq in H1. rewrite H1 by lia.
  change 64 with (2 ^ 6) at 1. rewrite lor_disjoint' by lia.
  change (2 ^ 6) with 64. apply Z.mod_small. Z.div_mod_to_equations; lia.
Qed.

Create HintDb b64 discriminated.
#[export] Hint Rewrite dec_enc enc_valid using (unfold is_byte in *; Z.div_mod_to_equations; lia) : b64.
#[export] Hint Rewrite out0_eq out1_eq out2_eq using (unfold is_byte in *; Z.div_mod_to_equations; lia) : b64.

Lemma base64_decode_loop_eq c0 c1 c2 c3 rest dest :
  base64_decode_loop (c0 :: c1 :: c2 :: c3 :: rest) dest =
  if dec c0 =? 0xff then
    if negb (IS_EMPTY c0) then (-1, c0 :: c1 :: c2 :: c3 :: rest, dest)
    else base64_decode_loop (c1 :: c2 :: c3 :: rest) dest
  else if dec c1 =? 0xff then (-1, c0 :: c1 :: c2 :: c3 :: rest, dest)
  else if dec c2 =? 0xff then
    if negb (c2 =? 61) || negb (c3 =? 61) then (-1, c0 :: c1 :: c2 :: c3 :: rest, dest)
    else (0, rest, dest ++ [out0 (dec c0) (dec c1)])
  else if dec c3 =? 0xff then
    if negb (c3 =? 61) then (-1, c0 :: c1 :: c2 :: c3 :: rest, dest)
    else (0, rest, dest ++ [out0 (dec c0) (dec c1); out1 (dec c1) (dec c2)])
  else base64_decode_loop rest
         (dest ++ [out0 (dec c0) (dec c1); out1 (dec c1) (dec c2); out2 (dec c2) (dec c3)]).
Proof. reflexivity. Qed.

Definition after (dest : list Z) (r : Z * list Z * list Z) : Z * list Z * list Z :=
  let '(ret, rest, d) := r in (ret, rest, dest ++ d).

Lemma base64_decode_loop_dest n src dest :
  (length src <= n)%nat -> base64_decode_loop src dest = after dest (base64_decode_loop src []).
Proof.
  revert src dest. induction n as [|n IH]; intros src dest Hn.
  - destruct src; simpl in *; [by rewrite app_nil_r | lia].
  - destruct src as [|c0 [|c1 [|c2 [|c3 src]]]]; try (simpl; by rewrite app_nil_r).
    cbn [length] in Hn. rewrite !base64_decode_loop_eq.
    repeat case_match; cbn [after]; rewrite ?app_nil_r; try done.
    + apply IH. simpl. lia.
    + cbn [app]. rewrite IH, (IH _ [_; _; _]) by lia.
      destruct (base64_decode_loop src []) as [[? ?] ?]. simpl. by rewrite <- app_assoc.
Qed.

(** A complete group of three bytes in front of any source. *)
Lemma base64_decode_group a b c tail dest :
  is_byte a -> is_byte b -> is_byte c ->
  base64_decode_loop (base64_encode [a; b; c] ++ tail) dest = base64_decode_loop tail (dest ++ [a; b; c]).
Proof.
  intros Ha Hb Hc. cbn [base64_encode app]. rewrite group1, group2 by done.
  change 0x3f with (2 ^ 6 - 1). rewrite land_low, Z.shiftr_div_pow2 by lia.
  change (2 ^ 2) with 4. change (2 ^ 6) with 64.
  rewrite base64_decode_loop_eq. autorewrite with b64.
  replace (a / 4 * 4 + (a mod 4 * 16 + b / 16) / 16) with a by (unfold is_byte in *; Z.div_mod_to_equations; lia).
  replace ((a mod 4 * 16 + b / 16) mod 16 * 16 + (b mod 16 * 4 + c / 64) / 4) with b
    by (unfold is_byte in *; Z.div_mod_to_equations; lia).
  replace ((b mod 16 * 4 + c / 64) mod 4 * 64 + c mod 64) with c
    by (unfold is_byte in *; Z.div_mod_to_equations; lia).
  done.
Qed.

(** The padded groups at the end. *)
Lemma base64_decode_pad src tail dest :
  Forall is_byte src -> (length src = 1 \/ length src = 2)%nat ->
  base64_decode_loop (base64_encode src ++ tail) dest = (0, tail, dest ++ src).
Proof.
  intros Hs Hl. destruct src as [|a [|b [|c src]]]; cbn [length] in Hl; try lia.
  - apply Forall_inv in Hs as Ha. cbn [base64_encode app]. rewrite base64_decode_loop_eq.
    change 0x03 with (2 ^ 2 - 1). rewrite land_low, Z.shiftr_div_pow2, Z.shiftl_mul_pow2 by lia.
    change (2 ^ 2) with 4. change (2 ^ 4) with 16. autorewrite with b64.
    change (dec 61 =? 255) with true. cbn [negb orb Z.eqb Pos.eqb]. do 4 f_equal.
    unfold is_byte in *. Z.div_mod_to_equations; lia.
  - apply Forall_inv in Hs as Ha. apply Forall_inv_tail, Forall_inv in Hs as Hb.
    cbn [base64_encode app]. rewrite base64_decode_loop_eq, group1 by done.
    change 0x0f with (2 ^ 4 - 1). rewrite land_low, Z.shiftr_div_pow2, Z.shiftl_mul_pow2 by lia.
    change (2 ^ 2) with 4. change (2 ^ 4) with 16. autorewrite with b64.
    change (dec 61 =? 255) with true. cbn [negb orb Z.eqb Pos.eqb].
    repeat (f_equal; try (unfold is_byte in *; Z.div_mod_to_equations; lia)).
Qed.

Lemma base64_encode_cons3 a b c src :
  base64_encode (a :: b :: c :: src) = base64_encode [a; b; c] ++ base64_encode src.
Proof. reflexivity. Qed.

(** Whole groups decode to their bytes and leave what follows. *)
Lemma base64_decode_groups k src tail dest :
  Forall is_byte src -> (length src = 3 * k)%nat ->
  base64_decode_loop (base64_encode src ++ tail) dest = base64_decode_loop tail (dest ++ src).
Proof.
  revert src dest. induction k as [|k IH]; intros src dest Hs Hl.
  { destruct src; [by rewrite app_nil_r | simpl in Hl; lia]. }
  destruct src as [|a [|b [|c src]]]; cbn [length] in Hl; try lia.
  rewrite !Forall_cons in Hs. destruct Hs as (? & ? & ? & Hs).
  rewrite base64_encode_cons3, <- app_assoc, base64_decode_group by done.
  rewrite IH by (try done; lia). by rewrite <- app_assoc.
Qed.

Lemma base64_encode_app k src1 src2 :
  (length src1 = 3 * k)%nat -> base64_encode (src1 ++ src2) = base64_encode src1 ++ base64_encode src2.
Proof.
  revert src1. induction k as [|k IH]; intros src1 Hl; [destruct src1; [done | simpl in Hl; lia] |].
  destruct src1 as [|a [|b [|c src1]]]; cbn [length] in Hl; try lia.
  change ((a :: b :: c :: src1) ++ src2) with (a :: b :: c :: (src1 ++ src2)).
  rewrite base64_encode_cons3, (IH src1), app_assoc by lia. by rewrite <- base64_encode_cons3.
Qed.

(** Every source is whole groups and at most one group to be padded. *)
Lemma groups_split (src : list Z) :
  exists src1 src2 k, src = src1 ++ src2 /\ (length src1 = 3 * k)%nat /\ (length src2 < 3)%nat.
Proof.
  exists (take (3 * (length src / 3)) src), (drop (3 * (length src / 3)) src), (length src / 3)%nat.
  pose proof (Nat.div_mod_eq (length src) 3). pose proof (Nat.mod_upper_bound (length src) 3).
  rewrite take_drop, length_take, length_drop. split_and!; [done | lia | lia].
Qed.

Lemma base64_roundtrip_loop src tail dest :
  Forall is_byte src ->
  base64_decode_loop (base64_encode src ++ tail) dest =
  if (length src mod 3 =? 0)%nat then base64_decode_loop tail (dest ++ src) else (0, tail, dest ++ src).
Proof.
  intros Hs. destruct (groups_split src) as (s1 & s2 & k & -> & H1 & H2).
  apply Forall_app in Hs as [Hs1 Hs2].
  rewrite (base64_encode_app k), <- app_assoc, (base64_decode_groups k) by done.
  rewrite length_app, H1, Nat.mul_comm, Nat.add_comm, Nat.Div0.mod_add, Nat.mod_small by lia.
  destruct s2 as [|x s2]; [by rewrite app_nil_r |].
  rewrite base64_decode_pad by (try done; simpl in *; lia). by rewrite <- app_assoc.
Qed.

(** ** Streams *)

(** One turn of the first loop: it waits for more data, consumes [q] and goes
    on, or stops; in the last two cases whatever data follows. *)
Lemma base64_decode_step src :
  (length src < 4)%nat /\ (forall d, base64_decode_loop src d = (1, src, d)) \/
  exists q o src', src = q ++ src' /\ (4 * length o <= 3 * length q)%nat /\
    (q <> [] /\ (forall y d, base64_decode_loop (src ++ y) d = base64_decode_loop (src' ++ y) (d ++ o)) \/
     exists ret, (ret = 0 \/ ret = -1) /\
       forall y d, base64_decode_loop (src ++ y) d = (ret, src' ++ y, d ++ o)).
Proof.
  destruct src as [|c0 [|c1 [|c2 [|c3 src]]]]; try (left; split; [simpl; lia | done]). right.
  destruct (dec c0 =? 255) eqn:E0; [destruct (negb (IS_EMPTY c0)) eqn:E0' |].
  2: { exists [c0], [], (c1 :: c2 :: c3 :: src). split_and!; [done | simpl; lia | left]. split; [done |].
       intros. cbn [app]. by rewrite base64_decode_loop_eq, E0, E0', app_nil_r. }
  2: destruct (dec c1 =? 255) eqn:E1; [| destruct (dec c2 =? 255) eqn:E2;
       [destruct (negb (c2 =? 61) || negb (c3 =? 61)) eqn:E2' |
        destruct (dec c3 =? 255) eqn:E3; [destruct (negb (c3 =? 61)) eqn:E3' |]]].
  7: { exists [c0; c1; c2; c3], [out0 (dec c0) (dec c1); out1 (dec c1) (dec c2); out2 (dec c2) (dec c3)], src.
       split_and!; [done | simpl; lia | left]. split; [done |]. intros. cbn [app].
       by rewrite base64_decode_loop_eq, E0, E1, E2, E3. }
  6: exists [c0; c1; c2; c3], [out0 (dec c0) (dec c1); out1 (dec c1) (dec c2)], src.
  4: exists [c0; c1; c2; c3], [out0 (dec c0) (dec c1)], src.
  1, 2, 3, 5: exists [], [], (c0 :: c1 :: c2 :: c3 :: src).
  all: split_and!; [done | simpl; lia | right]; eexists; split; [| intros; cbn [app];
    rewrite base64_decode_loop_eq, E0, ?E0', ?E1, ?E2, ?E2', ?E3, ?E3', ?app_nil_r; done]; auto.
Qed.

Lemma after_app d1 d2 r : after d1 (after d2 r) = after (d1 ++ d2) r.
Proof. destruct r as [[? ?] ?]. cbn. by rewrite app_assoc. Qed.

(** What a run of the first loop has consumed and produced. *)
Lemma base64_decode_loop_inv n src :
  (length src <= n)%nat ->
  exists ret pre rest d, base64_decode_loop src [] = (ret, rest, d) /\ src = pre ++ rest /\
    (4 * length d <= 3 * length pre)%nat /\ (ret = 1 \/ ret = 0 \/ ret = -1) /\
    (ret = 1 -> (length rest < 4)%nat /\
       forall x, base64_decode_loop (src ++ x) [] = after d (base64_decode_loop (rest ++ x) [])).
Proof.
  revert src. induction n as [n IH] using lt_wf_ind. intros src Hn.
  destruct (base64_decode_step src) as [[Hl Heq] | (q & o & src' & -> & Ho & Hcase)].
  { exists 1, [], src, []. rewrite Heq. split_and!; auto. intros _. split; [done |]. intros x.
    unfold after. by repeat case_match. }
  destruct Hcase as [[Hq Heq] | (ret & Hret & Heq)].
  - pose proof (Heq [] []) as H0. rewrite !app_nil_r in H0. rewrite length_app in Hn.
    assert (0 < length q)%nat by (destruct q; [done | simpl; lia]).
    destruct (IH (length src') ltac:(lia) src' ltac:(lia)) as (ret & pre & rest & d & Hd & Hp & Hle & Hr & Hx).
    exists ret, (q ++ pre), rest, (o ++ d). rewrite H0, app_nil_l, (base64_decode_loop_dest _ _ o (le_n _)), Hd.
    rewrite Hp, !length_app, <- !app_assoc. split_and!; [done | done | lia | done |].
    intros H1. destruct (Hx H1) as [Hl Hx']. split; [done |]. intros x.
    specialize (Heq x []). rewrite Hp, <- !app_assoc in Heq. rewrite <- !app_assoc, Heq, app_nil_l.
    rewrite (base64_decode_loop_dest _ _ o (le_n _)), app_assoc, <- Hp, Hx'. apply after_app.
  - pose proof (Heq [] []) as H0. rewrite !app_nil_r in H0.
    exists ret, q, src', o. rewrite H0. split_and!; [done | done | done | tauto | lia].
Qed.

Lemma skip_empty_suffix rest : exists ws, rest = ws ++ skip_empty rest /\ forallb IS_EMPTY ws = true.
Proof.
  induction rest as [|c rest (ws & Hws & Hall)]; [by exists [] |]. cbn [skip_empty].
  destruct (IS_EMPTY c) eqn:E; cbn [negb]; [| by exists []].
  exists (c :: ws). simpl. by rewrite <- Hws, E.
Qed.

(** The decoder as seen from outside: both loops, positions as suffixes. *)
Definition decode_rest (src : list Z) : Z * list Z * list Z :=
  let '(ret, rest, d) := base64_decode_loop src [] in (ret, skip_empty rest, d).

Lemma IS_EMPTY_dec c : IS_EMPTY c = true -> dec c = 0xff.
Proof.
  unfold IS_EMPTY. intros H. rewrite !orb_true_iff, !Z.eqb_eq in H.
  by destruct H as [[[-> | ->] | ->] | ->].
Qed.

Lemma decode_rest_skip ws src :
  forallb IS_EMPTY ws = true -> decode_rest (ws ++ src) = decode_rest src.
Proof.
  induction ws as [|c ws IH]; [done |]. cbn [forallb app]. intros [Hc Hws]%andb_true_iff.
  rewrite <- IH by done. unfold decode_rest.
  destruct (ws ++ src) as [|c1 [|c2 [|c3 rest]]]; try (simpl; by rewrite Hc).
  by rewrite base64_decode_loop_eq, IS_EMPTY_dec, Hc.
Qed.

Lemma base64_decode_rest src :
  exists ret pre rest d, decode_rest src = (ret, rest, d) /\ src = pre ++ rest /\
    base64_decode src [] = (ret, length pre, d) /\ (4 * length d <= 3 * length src)%nat /\
    (ret = 1 \/ ret = 0 \/ ret = -1) /\
    (ret = 1 -> (length rest < 4)%nat /\
      forall x, decode_rest (src ++ x) = after d (decode_rest (rest ++ x))).
Proof.
  destruct (base64_decode_loop_inv _ src (le_n _)) as (ret & pre & rest & d & Hd & Hp & Hle & Hr & Hx).
  destruct (skip_empty_suffix rest) as (ws & Hws & Hall).
  exists ret, (pre ++ ws), (skip_empty rest), d. unfold base64_decode, decode_rest at 1. rewrite Hd.
  split_and!; [done | by rewrite <- app_assoc, <- Hws | | rewrite Hp, length_app; lia | done |].
  { do 2 f_equal. rewrite Hp, length_app. apply (f_equal length) in Hws. rewrite length_app in *. lia. }
  intros H1. destruct (Hx H1) as [Hl Hx']. split.
  { apply (f_equal length) in Hws. rewrite length_app in Hws. lia. }
  intros x. rewrite <- (decode_rest_skip ws (skip_empty rest ++ x)) by done. rewrite app_assoc, <- Hws.
  unfold decode_rest. rewrite Hx'. by destruct (base64_decode_loop (rest ++ x) []) as [[? ?] ?].
Qed.

(** ** Properties *)

(** Encoded bytes decode to themselves, also with line breaks or blanks
    after any whole number of groups and behind the end; the result code tells
    whether padding was seen and the whole source is consumed. *)
Theorem base64_roundtrip src1 src2 ws1 ws2 dest k :
  Forall is_byte (src1 ++ src2) -> length src1 = (3 * k)%nat ->
  forallb IS_EMPTY (ws1 ++ ws2) = true ->
  base64_decode (base64_encode src1 ++ ws1 ++ base64_encode src2 ++ ws2) dest =
  (if (length src2 mod 3 =? 0)%nat then 1 else 0,
   length (base64_encode src1 ++ ws1 ++ base64_encode src2 ++ ws2), dest ++ src1 ++ src2).
Proof.
  intros [H1 H2]%Forall_app Hl Hws. rewrite forallb_app in Hws. apply andb_true_iff in Hws as [Hw1 Hw2].
  assert (Hrest : decode_rest (base64_encode src2 ++ ws2) =
    ((if (length src2 mod 3 =? 0)%nat then 1 else 0), [], src2)).
  { pose proof (decode_rest_skip ws2 [] Hw2) as Hnil. rewrite app_nil_r in Hnil.
    change (decode_rest []) with (1, [] : list Z, [] : list Z) in Hnil. unfold decode_rest in *. rewrite base64_roundtrip_loop by done. cbn [app]. destruct (length src2 mod 3 =? 0)%nat.
    - rewrite (base64_decode_loop_dest _ _ src2 (le_n _)). 
      destruct (base64_decode_loop ws2 []) as [[? ?] ?]. cbn [after]. injection Hnil as -> -> ->.
      by rewrite app_nil_r.
    - do 2 f_equal.
      clear -Hw2. induction ws2 as [|c ws2 IH]; [done |]. cbn in *.
      apply andb_true_iff in Hw2 as [-> Hw]. by apply IH. }
  rewrite <- (decode_rest_skip ws1) in Hrest by done. unfold decode_rest in Hrest.
  unfold base64_decode. rewrite (base64_decode_groups k), (base64_decode_loop_dest _ _ (dest ++ src1) (le_n _)) by done.
  destruct (base64_decode_loop (ws1 ++ base64_encode src2 ++ ws2) []) as [[r rest] d]. cbn [after].
  injection Hrest as -> Hr ->. rewrite Hr. cbn [length]. rewrite Nat.sub_0_r, <- app_assoc. done.
Qed.

Lemma base64_roundtrip_witness :
  base64_decode (base64_encode [1; 2; 3] ++ [13; 10] ++ base64_encode [250] ++ [10]) [9] = (0, 11%nat, [9; 1; 2; 3; 250]).
Proof.
  apply (base64_roundtrip [1; 2; 3] [250] [13; 10] [10] [9] 1);
    [repeat constructor; discriminate | reflexivity | reflexivity].
Defined.

(** C29: a stream may be decoded in pieces: after a piece that returned 1,
    decoding what it left over together with the next piece gives the same
    result code, position and bytes as decoding the whole stream at once. *)
Theorem base64_decode_stream src1 src2 pos d1 :
  base64_decode src1 [] = (1, pos, d1) ->
  base64_decode (src1 ++ src2) [] =
  let '(ret, p, d2) := base64_decode (drop pos src1 ++ src2) [] in (ret, (pos + p)%nat, d1 ++ d2).
Proof.
  intros H. destruct (base64_decode_rest src1) as (r & pre & rest & d & Hd & Hp & Heq & _ & _ & Hx).
  rewrite H in Heq. injection Heq as <- -> ->. destruct (Hx eq_refl) as [_ Hx'].
  rewrite Hp at 2. rewrite drop_app_length. specialize (Hx' src2).
  destruct (base64_decode_rest (rest ++ src2)) as (r2 & pre2 & rest2 & d2 & Hd2 & Hp2 & Heq2 & _).
  destruct (base64_decode_rest (src1 ++ src2)) as (r3 & pre3 & rest3 & d3 & Hd3 & Hp3 & Heq3 & _).
  rewrite Heq2, Heq3. rewrite Hd2, Hd3 in Hx'. cbn [after] in Hx'. injection Hx' as -> -> ->.
  do 2 f_equal. apply (f_equal length) in Hp, Hp2, Hp3. rewrite !length_app in *. lia.
Qed.

Lemma base64_decode_stream_witness :
  base64_decode (str "QUJDRA" ++ str "==") [] = (0, 8%nat, str "ABCD").
Proof. apply (base64_decode_stream (str "QUJDRA") (str "==") 4 (str "ABC")). reflexivity. Defined.

(** The buffer sizes of the header's macros are large enough for every
    input, valid or not, and the position returned is inside the source. *)
Theorem base64_sizes src :
  (length (base64_encode src) <= MAX_BASE64_ENCODED_SIZE (length src))%nat /\
  (length (t_base64_decode_str src) <= MAX_BASE64_DECODED_SIZE (length src))%nat /\
  ((base64_decode src []).1.2 <= length src)%nat.
Proof.
  unfold MAX_BASE64_ENCODED_SIZE, MAX_BASE64_DECODED_SIZE, t_base64_decode_str. split_and!.
  - destruct (groups_split src) as (s1 & s2 & k & -> & H1 & H2).
    assert (Hlen : forall k s, length s = (3 * k)%nat -> length (base64_encode s) = (4 * k)%nat).
    { clear. induction k as [|k IH]; intros s Hs; [by destruct s |].
      destruct s as [|a [|b [|c s]]]; cbn [length] in Hs; try lia.
      rewrite base64_encode_cons3, length_app, (IH s) by lia. cbn [base64_encode length]. lia. }
    rewrite (base64_encode_app k), !length_app, (Hlen k) by done.
    assert (length (base64_encode s2) <= 4)%nat by (destruct s2 as [|? [|? [|? ?]]]; simpl in *; lia).
    rewrite H1. replace (3 * k + length s2)%nat with (length s2 + k * 3)%nat by lia.
    rewrite Nat.div_add by lia. lia.
  - destruct (base64_decode_rest src) as (r & pre & rest & d & _ & _ & -> & Hle & _). cbn [snd].
    pose proof (Nat.div_mod_eq (length src) 4). pose proof (Nat.mod_upper_bound (length src) 4). lia.
  - destruct (base64_decode_rest src) as (r & pre & rest & d & _ & Hp & -> & _). cbn [fst snd].
    rewrite Hp, length_app. lia.
Qed.

(** A line break or blank after the first character of a group is not
    ignored: the data is rejected, although the same text without it decodes. *)
Theorem base64_break_inside_group c0 c1 c2 c3 rest :
  base64_is_valid_char c0 = true -> IS_EMPTY c1 = true ->
  base64_decode (c0 :: c1 :: c2 :: c3 :: rest) [] = (-1, 0%nat, []).
Proof.
  unfold base64_is_valid_char. intros H0%negb_true_iff H1%IS_EMPTY_dec.
  unfold base64_decode. rewrite base64_decode_loop_eq, H0, H1. cbn [Z.eqb Pos.eqb].
  assert (IS_EMPTY c0 = false) as Hc.
  { destruct (IS_EMPTY c0) eqn:E; [| done]. apply IS_EMPTY_dec in E. lia. }
  cbn [skip_empty]. rewrite Hc. cbn [negb]. by rewrite Nat.sub_diag.
Qed.

Lemma base64_break_inside_group_witness :
  base64_decode ([81] ++ [10] ++ str "UJD") [] = (-1, 0%nat, []) /\
  base64_decode (str "QUJD") [] = (1, 4%nat, str "ABC").
Proof. split; [by apply base64_break_inside_group | reflexivity]. Defined.
