(* ===== verification/Bsearch.v ===== *)
(** * Binary search (src/src/lib/bsearch-insert-pos.c, bsearch-insert-pos.h)

    [bsearch_insert_pos] with the comparison [cmp key] as an argument, and
    the search template [BINARY_NUMERIC_SEARCH] over numbers.  On an array
    sorted by the comparison both find an element exactly when there is one,
    and the position [bsearch_insert_pos] returns otherwise is the only one
    where the key can be inserted. *)

From S2P Require Import Prelude.

Section Bsearch.
Context {A : Type}.

(** The sign of [cmp p] is the sign of [cmp(key, p)]. *)
Variable cmp : A -> Z.

(** The loop; [inl] is a found index, [inr (left_idx, idx)] the state when
    the bounds have met. *)
Fixpoint bsearch_loop (fuel : nat) (base : list A) (idx left_idx right_idx : nat)
    : option (nat + nat * nat) :=
  match fuel with
  | O => None
  | S fuel =>
      if (left_idx <? right_idx)%nat then
        let idx := ((left_idx + right_idx) / 2)%nat in
        p ← base !! idx;
        if cmp p >? 0 then bsearch_loop fuel base idx (idx + 1) right_idx
        else if cmp p <? 0 then bsearch_loop fuel base idx left_idx idx
        else Some (inl idx)
      else Some (inr (left_idx, idx))
  end.

(** The return value and [*idx_r]. *)
Definition bsearch_insert_pos (base : list A) : option (bool * nat) :=
  _ ← assert (Z.of_nat (length base) <? INT_MAX);
  res ← bsearch_loop (S (length base)) base 0 0 (length base);
  match res with
  | inl idx => Some (true, idx)
  | inr (left_idx, idx) => Some (false, if (idx <? left_idx)%nat then (idx + 1)%nat else idx)
  end.

Definition array_bsearch_insert_pos_i (base : list A) : option (bool * nat) := bsearch_insert_pos base.

(** Sorted for the search: once the key is not above an element, it is below
    all later ones. *)
Fixpoint sorted_for (base : list A) : bool :=
  match base with
  | [] => true
  | p :: base => (if cmp p <=? 0 then forallb (fun q => cmp q <? 0) base else true) && sorted_for base
  end.

Definition above (l : list A) : bool := forallb (fun q => cmp q >? 0) l.
Definition below (l : list A) : bool := forallb (fun q => cmp q <? 0) l.

Lemma sorted_for_mid l1 x l2 :
  sorted_for (l1 ++ x :: l2) = true ->
  (0 <= cmp x -> above l1 = true) /\ (cmp x <= 0 -> below l2 = true).
Proof.
  unfold above, below. induction l1 as [|p l1 IH]; cbn [app sorted_for forallb].
  - intros [H1 H2]%andb_true_iff. split; [done |]. intros Hx. by rewrite (proj2 (Z.leb_le _ _) Hx) in H1.
  - intros [H1 H2]%andb_true_iff. destruct (IH H2) as [Ha Hb]. split; [| done].
    intros Hx. rewrite Ha, andb_true_r by done. destruct (Z.leb_spec (cmp p) 0) as [Hp|]; [| lia].
    rewrite forallb_app in H1. cbn in H1. lia.
Qed.

(** The bounds enclose the part still to be searched; the last probe is next
    to one of them. *)
Lemma bsearch_loop_spec fuel l1 m l2 idx :
  sorted_for (l1 ++ m ++ l2) = true -> above l1 = true -> below l2 = true ->
  (length m < fuel)%nat ->
  (m = [] -> idx = length l1 \/ idx + 1 = length l1)%nat ->
  exists r, bsearch_loop fuel (l1 ++ m ++ l2) idx (length l1) (length (l1 ++ m)) = Some r /\
    match r with
    | inl i => exists p, (l1 ++ m ++ l2) !! i = Some p /\ cmp p = 0
    | inr (left_idx, i) => (i = left_idx \/ i + 1 = left_idx)%nat /\
        exists k1 k2, l1 ++ m ++ l2 = k1 ++ k2 /\ above k1 = true /\ below k2 = true /\ length k1 = left_idx
    end.
Proof.
  revert l1 m l2 idx. induction fuel as [|fuel IH]; intros l1 m l2 idx Hs Ha Hb Hf Hi; [lia |].
  cbn [bsearch_loop]. destruct (decide (m = [])) as [-> | Hm].
  { rewrite app_nil_r, Nat.ltb_irrefl. eexists. split; [done |]. cbv beta iota. split; [auto |].
    exists l1, l2. auto. }
  destruct (mid_split l1 m Hm) as (m1 & x & m2 & -> & Hmid). rewrite Hmid.
  rewrite (proj2 (Nat.ltb_lt _ _)) by (rewrite !length_app; simpl; lia).
  rewrite <- app_assoc in *. cbn [app] in *.
  assert (Heq : l1 ++ m1 ++ x :: m2 ++ l2 = (l1 ++ m1) ++ x :: m2 ++ l2) by by rewrite <- app_assoc.
  destruct (sorted_for_mid (l1 ++ m1) x (m2 ++ l2)) as [Hu Hl]; [by rewrite <- Heq |].
  rewrite Heq. autorewrite with arr. cbn [mbind option_bind]. rewrite length_mid in Hf.
  rewrite Z.gtb_ltb. destruct (Z.ltb_spec 0 (cmp x)) as [Hx | Hx].
  - destruct (IH (l1 ++ m1 ++ [x]) m2 l2 (length (l1 ++ m1))) as (r & Hr & Hspec); try done.
    + by rewrite <- !app_assoc.
    + unfold above in *. rewrite app_assoc, forallb_app, Hu by lia. cbn. lia.
    + lia.
    + intros ->. right. rewrite !length_app. simpl. lia.
    + rewrite <- Heq. exists r.
      replace (length (l1 ++ m1) + 1)%nat with (length (l1 ++ m1 ++ [x])) by (rewrite !length_app; simpl; lia).
      rewrite <- !app_assoc in *. split; [exact Hr | exact Hspec].
  - destruct (Z.ltb_spec (cmp x) 0).
    + destruct (IH l1 m1 (x :: m2 ++ l2) (length (l1 ++ m1))) as (r & Hr & Hspec); try done.
      * unfold below in *. cbn. rewrite Hl by lia. lia.
      * lia.
      * intros ->. left. by rewrite app_nil_r.
      * rewrite <- Heq. exists r. split; [exact Hr | exact Hspec].
    + eexists. split; [done |]. cbv iota. exists x. split; [by apply lookup_app_mid | lia].
Qed.

Lemma bsearch_insert_pos_spec base :
  sorted_for base = true -> Z.of_nat (length base) < INT_MAX ->
  exists found idx, bsearch_insert_pos base = Some (found, idx) /\
    if found then exists p, base !! idx = Some p /\ cmp p = 0
    else above (take idx base) = true /\ below (drop idx base) = true /\ (idx <= length base)%nat.
Proof.
  intros Hs Hn. unfold bsearch_insert_pos. rewrite assert_true by lia. cbn [mbind option_bind].
  destruct (bsearch_loop_spec (S (length base)) [] base [] 0) as (r & Hr & Hspec);
    [by rewrite app_nil_r | done | done | lia | by left |].
  cbn [app length] in Hr, Hspec. rewrite app_nil_r in Hr, Hspec. rewrite Hr. cbn [mbind option_bind].
  destruct r as [i | [left_idx i]]; [by exists true, i |].
  destruct Hspec as (Hi & k1 & k2 & -> & Ha & Hb & Hk). exists false, (length k1).
  rewrite take_app_length, drop_app_length, length_app. split_and!; [| done | done | lia].
  do 2 f_equal. destruct (Nat.ltb_spec i left_idx); lia.
Qed.
End Bsearch.

(** The search template over numbers: [getdata(data, idx)] is compared with
    [value]. *)
Definition BINARY_NUMERIC_SEARCH {A} (getdata : A -> Z) (data : list A) (value : Z) : option (option nat) :=
  _ ← assert (Z.of_nat (length data) <? INT_MAX);
  res ← bsearch_loop (fun p => value - getdata p) (S (length data)) data 0 0 (length data);
  match res with
  | inl idx => Some (Some idx)
  | inr _ => Some None
  end.

Definition BINARY_NUMBER_SEARCH (data : list Z) (value : Z) : option (option nat) :=
  BINARY_NUMERIC_SEARCH id data value.

Lemma numeric_sorted_for {A} (getdata : A -> Z) data value :
  StronglySorted (fun p q => getdata p < getdata q) data ->
  sorted_for (fun p => value - getdata p) data = true.
Proof.
  induction 1 as [|p data Hs IH Hall]; [done |]. cbn [sorted_for]. rewrite IH, andb_true_r.
  destruct (Z.leb_spec (value - getdata p) 0); [| done].
  apply forallb_forall. intros q Hq%list_elem_of_In. rewrite Forall_forall in Hall.
  specialize (Hall q Hq). lia.
Qed.

Lemma BINARY_NUMERIC_SEARCH_spec {A} (getdata : A -> Z) data value :
  StronglySorted (fun p q => getdata p < getdata q) data -> Z.of_nat (length data) < INT_MAX ->
  exists r, BINARY_NUMERIC_SEARCH getdata data value = Some r /\
    match r with
    | Some idx => exists p, data !! idx = Some p /\ getdata p = value
    | None => forall p, p ∈ data -> getdata p <> value
    end.
Proof.
  intros Hs Hn. unfold BINARY_NUMERIC_SEARCH. rewrite assert_true by lia. cbn [mbind option_bind].
  destruct (bsearch_loop_spec (fun p => value - getdata p) (S (length data)) [] data [] 0)
    as (r & Hr & Hspec); [rewrite app_nil_r; by apply numeric_sorted_for | done | done | lia | by left |].
  cbn [app length] in Hr, Hspec. rewrite app_nil_r in Hr, Hspec. rewrite Hr. cbn [mbind option_bind].
  destruct r as [i | [left_idx i]]; eexists; (split; [done |]); cbv iota.
  - destruct Hspec as (p & Hp & Heq). exists p. split; [done | lia].
  - destruct Hspec as (_ & k1 & k2 & -> & Ha & Hb & _). intros p Hp%elem_of_app. unfold above, below in *.
    rewrite forallb_forall in Ha, Hb. destruct Hp as [Hp | Hp]; apply list_elem_of_In in Hp;
      [specialize (Ha p Hp) | specialize (Hb p Hp)]; cbv beta in *; lia.
Qed.

(** On an array sorted by the comparison, [bsearch_insert_pos] always
    returns; it reports a hit only at an element equal to the key, and on a
    miss the index splits the array into the elements below the key and those
    above it, so that no element is equal to the key. *)
Theorem bsearch_insert_pos_correct {A} (cmp : A -> Z) (base : list A) :
  sorted_for cmp base = true -> Z.of_nat (length base) < INT_MAX ->
  exists found idx, bsearch_insert_pos cmp base = Some (found, idx) /\
    if found then exists p, base !! idx = Some p /\ cmp p = 0
    else above cmp (take idx base) = true /\ below cmp (drop idx base) = true /\ (idx <= length base)%nat.
Proof. apply bsearch_insert_pos_spec. Qed.

Lemma bsearch_insert_pos_correct_witness :
  exists found idx, bsearch_insert_pos (fun p => 4 - p) [1; 3; 5; 7] = Some (found, idx) /\ found = false /\ idx = 2%nat.
Proof.
  destruct (bsearch_insert_pos_correct (fun p => 4 - p) [1; 3; 5; 7]) as (found & idx & Heq & _);
    [reflexivity | reflexivity |].
  exists found, idx. split; [exact Heq |]. vm_compute in Heq. injection Heq as <- <-. split; reflexivity.
Defined.
