(* ===== verification/Unichar.v ===== *)
(** * UTF-8 (src/src/lib/unichar.c, unichar.h)

    The UTF-8 decoder [uni_utf8_get_char_n], the encoder [uni_ucs4_to_utf8_c]
    and the functions built from them.  Data is the list of its bytes; a C
    string is decoded with its terminating NUL behind it.  [None] is a failed
    assertion or a read behind the data.  The case and decomposition tables of
    the generated unicodemap.c are arguments. *)

From S2P Require Import Prelude Bsearch.

(** ** Data *)

Definition utf8_replacement_char : list Z := [0xef; 0xbf; 0xbd].

Definition utf8_non1_bytes : list Z :=
  [2;2;2;2;2;2;2;2;2;2;2;2;2;2;2;2;2;2;2;2;2;2;2;2;2;2;2;2;2;2;
   3;3;3;3;3;3;3;3;3;3;3;3;3;3;3;3;4;4;4;4;4;4;4;4;5;5;5;5;6;6;1;1].

Definition uni_utf8_char_bytes (chr : Z) : nat :=
  if chr <? 192 + 2 then 1%nat
  else Z.to_nat (default 1 (utf8_non1_bytes !! Z.to_nat (chr - (192 + 2)))).

Definition lowest_valid_chr_table : list Z := [0; 0; 0x80; 0x800; 0x10000; 0x200000; 0x4000000].

Definition buffer_append_c (output : list Z) (c : Z) : list Z := output ++ [c mod 256].

(** Characters of a NUL-terminated array of code points. *)
Fixpoint uni_strlen (s : list Z) : option nat :=
  match s with
  | [] => None
  | c :: s => if c =? 0 then Some 0%nat else n ← uni_strlen s; Some (S n)
  end.

(** ** Decoding one character *)

(** The loop over the [cnt] following bytes: [inl] is the character, [inr]
    the return value of a byte that is not 10xxxxxx. *)
Fixpoint get_char_loop (cnt : nat) (input : list Z) (chr : Z) : option (Z + Z) :=
  match cnt with
  | O => Some (inl chr)
  | S cnt =>
      match input with
      | [] => None
      | b :: input =>
          if negb (Z.land b 0xc0 =? 0x80) then Some (inr (if b =? 0 then 0 else -1))
          else get_char_loop cnt input (Z.lor (u32 (Z.shiftl chr 6)) (Z.land b 0x3f))
      end
  end.

(** The mask of the first byte of a sequence of [len] bytes. *)
Definition first_mask (len : nat) : option Z :=
  match len with
  | 2%nat => Some 0x1f
  | 3%nat => Some 0x0f
  | 4%nat => Some 0x07
  | 5%nat => Some 0x03
  | 6%nat => Some 0x01
  | _ => None
  end.

(** The return value and what is stored in [*chr_r]. *)
Definition uni_utf8_get_char_n (input : list Z) (max_len : Z) : option (Z * option Z) :=
  _ ← assert (max_len >? 0);
  c ← input !! 0%nat;
  if c <? 0x80 then Some (1, Some c)
  else
    let len := uni_utf8_char_bytes c in
    match first_mask len with
    | None => _ ← assert (len =? 1)%nat; Some (-1, None)
    | Some mask =>
        '(lowest_valid_chr, ret, len) ←
          (if Z.of_nat len <=? max_len then l ← lowest_valid_chr_table !! len; Some (l, 1, len)
           else Some (0, 0, Z.to_nat max_len));
        res ← get_char_loop (len - 1) (drop 1 input) (Z.land c mask);
        match res with
        | inr ret => Some (ret, None)
        | inl chr => if chr <? lowest_valid_chr then Some (-1, None) else Some (ret, Some chr)
        end
    end.

(** The input is a C string; the size passed is the largest [size_t]. *)
Definition uni_utf8_get_char (input : list Z) : option (Z * option Z) :=
  uni_utf8_get_char_n (input ++ [0]) (2 ^ 64 - 1).

(** ** Encoding one character *)

(** The do-while loop; [k] is [bitpos / 6]. *)
Fixpoint utf8_tail (k : nat) (chr : Z) (output : list Z) : list Z :=
  match k with
  | O => output
  | S k =>
      utf8_tail k chr (buffer_append_c output (Z.lor 0x80 (Z.land (Z.shiftr chr (6 * Z.of_nat k)) 0x3f)))
  end.

Definition uni_ucs4_to_utf8_c (chr : Z) (output : list Z) : option (list Z) :=
  if chr <? 0x80 then Some (buffer_append_c output chr)
  else
    _ ← assert (chr <? 0x80000000);
    let '(k, first) :=
      if chr <? Z.shiftl 1 (6 + 5) then (1, Z.lor 0x80 0x40)
      else if chr <? Z.shiftl 1 (2 * 6 + 4) then (2, Z.lor (Z.lor 0x80 0x40) 0x20)
      else if chr <? Z.shiftl 1 (3 * 6 + 3) then (3, Z.lor (Z.lor (Z.lor 0x80 0x40) 0x20) 0x10)
      else if chr <? Z.shiftl 1 (4 * 6 + 2) then (4, Z.lor (Z.lor (Z.lor (Z.lor 0x80 0x40) 0x20) 0x10) 0x08)
      else (5, Z.lor (Z.lor (Z.lor (Z.lor (Z.lor 0x80 0x40) 0x20) 0x10) 0x08) 0x04) in
    Some (utf8_tail (Z.to_nat k) chr (buffer_append_c output (Z.lor first (Z.shiftr chr (6 * k))))).

(** ** Strings *)

(** The assertion is that [input] is not moved behind the terminating NUL. *)
Fixpoint utf8_to_ucs4_loop (fuel : nat) (input output : list Z) : option (Z * list Z) :=
  match fuel with
  | O => None
  | S fuel =>
      match input with
      | [] => Some (0, output)
      | c :: _ =>
          '(ret, chr) ← uni_utf8_get_char input;
          if ret <=? 0 then Some (-1, output)
          else
            chr ← chr;
            _ ← assert (uni_utf8_char_bytes c <=? length input)%nat;
            utf8_to_ucs4_loop fuel (drop (uni_utf8_char_bytes c) input) (output ++ [chr])
      end
  end.

Definition uni_utf8_to_ucs4 (input output : list Z) : option (Z * list Z) :=
  utf8_to_ucs4_loop (S (length input)) input output.

Fixpoint utf8_to_ucs4_n_loop (fuel : nat) (input output : list Z) : option (Z * list Z) :=
  match fuel with
  | O => None
  | S fuel =>
      match input with
      | [] => Some (0, output)
      | c :: _ =>
          '(ret, chr) ← uni_utf8_get_char_n input (Z.of_nat (length input));
          if ret <=? 0 then Some (-1, output)
          else
            chr ← chr;
            let len := uni_utf8_char_bytes c in
            _ ← assert (len <=? length input)%nat;
            utf8_to_ucs4_n_loop fuel (drop len input) (output ++ [chr])
      end
  end.

Definition uni_utf8_to_ucs4_n (input output : list Z) : option (Z * list Z) :=
  utf8_to_ucs4_n_loop (S (length input)) input output.

Fixpoint uni_ucs4_to_utf8 (input output : list Z) : option (list Z) :=
  match input with
  | [] => Some output
  | c :: input =>
      if c =? 0 then Some output
      else output ← uni_ucs4_to_utf8_c c output; uni_ucs4_to_utf8 input output
  end.

(** The number of characters and [*partial_pos_r]. *)
Fixpoint partial_strlen_loop (fuel : nat) (input : list Z) (i len : nat) : option (nat * nat) :=
  match fuel with
  | O => None
  | S fuel =>
      match input !! i with
      | None => Some (len, i)
      | Some c =>
          let count := uni_utf8_char_bytes c in
          if (length input <? i + count)%nat then Some (len, i)
          else partial_strlen_loop fuel input (i + count) (len + 1)
      end
  end.

Definition uni_utf8_partial_strlen_n (input : list Z) : option (nat * nat) :=
  partial_strlen_loop (S (length input)) input 0 0.

Definition uni_utf8_strlen_n (input : list Z) : option nat :=
  '(len, _) ← uni_utf8_partial_strlen_n input; Some len.

Definition uni_utf8_strlen (input : list Z) : option nat := uni_utf8_strlen_n input.

(** ** Validity *)

(** [size] is an [unsigned int], to which the callers' [size_t] is truncated. *)
Definition is_valid_utf8_seq (input : list Z) (size : Z) : option nat :=
  '(ret, _) ← uni_utf8_get_char_n input (u32 size);
  if ret <=? 0 then Some 0%nat
  else c ← input !! 0%nat; Some (uni_utf8_char_bytes c).

(** [None]: 0 is returned; [Some i]: -1 is returned and [*pos_r] is [i]. *)
Fixpoint find_invalid_pos_loop (fuel : nat) (input : list Z) (i : nat) : option (option nat) :=
  match fuel with
  | O => None
  | S fuel =>
      match input !! i with
      | None => Some None
      | Some c =>
          if c <? 0x80 then find_invalid_pos_loop fuel input (i + 1)
          else
            len ← is_valid_utf8_seq (drop i input) (Z.of_nat (length input - i));
            if (len =? 0)%nat then Some (Some i) else find_invalid_pos_loop fuel input (i + len)
      end
  end.

Definition uni_utf8_find_invalid_pos (input : list Z) : option (option nat) :=
  find_invalid_pos_loop (S (length input)) input 0.

Definition output_add_replacement_char (output : list Z) : list Z :=
  if (3 <=? length output)%nat && bool_decide (drop (length output - 3) output = utf8_replacement_char)
  then output
  else output ++ utf8_replacement_char.

Fixpoint get_valid_data_loop (fuel : nat) (input : list Z) (i : nat) (buf : list Z) : option (list Z) :=
  match fuel with
  | O => None
  | S fuel =>
      match input !! i with
      | None => Some buf
      | Some c =>
          if c <? 0x80 then get_valid_data_loop fuel input (i + 1) (buffer_append_c buf c)
          else
            len ← is_valid_utf8_seq (drop i input) (Z.of_nat (length input - i));
            if (len =? 0)%nat then get_valid_data_loop fuel input (i + 1) (output_add_replacement_char buf)
            else get_valid_data_loop fuel input (i + len) (buf ++ take len (drop i input))
      end
  end.

(** The return value and [buf]. *)
Definition uni_utf8_get_valid_data (input buf : list Z) : option (bool * list Z) :=
  pos ← uni_utf8_find_invalid_pos input;
  match pos with
  | None => Some (true, buf)
  | Some i =>
      let buf := buf ++ take i input in
      buf ← get_valid_data_loop (S (length input)) input (i + 1) (output_add_replacement_char buf);
      Some (false, buf)
  end.

Definition uni_utf8_data_is_valid (data : list Z) : option bool :=
  pos ← uni_utf8_find_invalid_pos data; Some (bool_decide (pos = None)).

Definition uni_utf8_str_is_valid (s : list Z) : option bool :=
  pos ← uni_utf8_find_invalid_pos s; Some (bool_decide (pos = None)).

(** ** Titlecase and decomposition *)

(** The tables of unicodemap.c. *)
Record unicodemap := UnicodeMap {
  titlecase8_map : list Z;
  titlecase16_keys : list Z;
  titlecase16_values : list Z;
  titlecase32_keys : list Z;
  titlecase32_values : list Z;
  uni8_decomp_map : list Z;
  uni16_decomp_keys : list Z;
  uni16_decomp_values : list Z;
  uni32_decomp_keys : list Z;
  uni32_decomp_values : list Z;
  multidecomp_keys : list Z;
  multidecomp_offsets : list Z;
  multidecomp_values : list Z
}.

Definition uint16_find (data : list Z) (value : Z) : option (option nat) := BINARY_NUMBER_SEARCH data value.
Definition uint32_find (data : list Z) (value : Z) : option (option nat) := BINARY_NUMBER_SEARCH data value.

Definition uni_ucs4_to_titlecase (t : unicodemap) (chr : Z) : option Z :=
  if chr <=? 0xff then titlecase8_map t !! Z.to_nat chr
  else if chr <=? 0xffff then
    r ← uint16_find (titlecase16_keys t) chr;
    match r with
    | None => Some chr
    | Some idx => titlecase16_values t !! idx
    end
  else
    r ← uint32_find (titlecase32_keys t) chr;
    match r with
    | None => Some chr
    | Some idx => titlecase32_values t !! idx
    end.

(** The return value and [*chr]. *)
Definition uni_ucs4_decompose_uni (t : unicodemap) (chr : Z) : option (bool * Z) :=
  if chr <=? 0xff then
    v ← uni8_decomp_map t !! Z.to_nat chr;
    if v =? chr then Some (false, chr) else Some (true, v)
  else if chr <=? 0xffff then
    k0 ← uni16_decomp_keys t !! 0%nat;
    if chr <? k0 then Some (false, chr)
    else
      r ← uint16_find (uni16_decomp_keys t) chr;
      match r with
      | None => Some (false, chr)
      | Some idx => v ← uni16_decomp_values t !! idx; Some (true, v)
      end
  else
    r ← uint32_find (uni32_decomp_keys t) chr;
    match r with
    | None => Some (false, chr)
    | Some idx => v ← uni32_decomp_values t !! idx; Some (true, v)
    end.

Definition HANGUL_FIRST : Z := 0xac00.
Definition HANGUL_LAST : Z := 0xd7a3.

Definition uni_ucs4_decompose_hangul_utf8 (chr : Z) (output : list Z) : option (list Z) :=
  let SIndex := u32 (chr - HANGUL_FIRST) in
  let L := 0x1100 + SIndex / (21 * 28) in
  let V := 0x1161 + SIndex mod (21 * 28) / 28 in
  let T := 0x11A7 + SIndex mod 28 in
  output ← uni_ucs4_to_utf8_c L output;
  output ← uni_ucs4_to_utf8_c V output;
  if negb (T =? 0x11A7) then uni_ucs4_to_utf8_c T output else Some output.

(** The characters stored from [value] on, up to a zero. *)
Fixpoint multidecomp_loop (value output : list Z) : option (list Z) :=
  match value with
  | [] => None
  | v :: value =>
      if v =? 0 then Some output
      else output ← uni_ucs4_to_utf8_c v output; multidecomp_loop value output
  end.

Definition uni_ucs4_decompose_multi_utf8 (t : unicodemap) (chr : Z) (output : list Z) : option (bool * list Z) :=
  k0 ← multidecomp_keys t !! 0%nat;
  if (chr <? k0) || (chr >? 0xffff) then Some (false, output)
  else
    r ← uint32_find (multidecomp_keys t) chr;
    match r with
    | None => Some (false, output)
    | Some idx =>
        off ← multidecomp_offsets t !! idx;
        output ← multidecomp_loop (drop (Z.to_nat off) (multidecomp_values t)) output;
        Some (true, output)
    end.

(** What is appended for one character. *)
Definition titlecase_char (t : unicodemap) (chr : Z) (output : list Z) : option (list Z) :=
  chr ← uni_ucs4_to_titlecase t chr;
  if (chr >=? HANGUL_FIRST) && (chr <=? HANGUL_LAST) then uni_ucs4_decompose_hangul_utf8 chr output
  else
    '(b, chr) ← uni_ucs4_decompose_uni t chr;
    if (b : bool) then uni_ucs4_to_utf8_c chr output
    else
      '(b, output) ← uni_ucs4_decompose_multi_utf8 t chr output;
      if (b : bool) then Some output else uni_ucs4_to_utf8_c chr output.

Fixpoint decomposed_titlecase_loop (fuel : nat) (t : unicodemap) (input : list Z) (ret : Z) (output : list Z)
    : option (Z * list Z) :=
  match fuel with
  | O => None
  | S fuel =>
      match input with
      | [] => Some (ret, output)
      | c :: input' =>
          '(r, chr) ← uni_utf8_get_char_n input (Z.of_nat (length input));
          if r <=? 0 then decomposed_titlecase_loop fuel t input' (-1) (output_add_replacement_char output)
          else
            chr ← chr;
            let bytes := uni_utf8_char_bytes c in
            _ ← assert (bytes <=? length input)%nat;
            output ← titlecase_char t chr output;
            decomposed_titlecase_loop fuel t (drop bytes input) ret output
      end
  end.

Definition uni_utf8_to_decomposed_titlecase (t : unicodemap) (input output : list Z) : option (Z * list Z) :=
  decomposed_titlecase_loop (S (length input)) t input 0 output.
