(* ===== verification/UnicharProps.v ===== *)
(** * Correctness of the UTF-8 functions

    [utf8] is the byte sequence of a code point, given by arithmetic.  The
    encoder writes it, the decoder accepts exactly it, and the functions on
    whole strings are related to [scan], which reads data as a sequence of
    characters and stray bytes. *)

From S2P Require Import Prelude Bsearch Unichar.

Definition lead (k : nat) : Z := nth k [0; 192; 224; 240; 248; 252] 0.

(** The [k] last bytes of a code point, of the form 10xxxxxx. *)
Fixpoint cont (k : nat) (chr : Z) : list Z :=
  match k with
  | O => []
  | S k => 128 + chr / 64 ^ Z.of_nat k mod 64 :: cont k chr
  end.

Definition class (chr : Z) : nat :=
  if chr <? 2 ^ 7 then 0 else if chr <? 2 ^ 11 then 1 else if chr <? 2 ^ 16 then 2
  else if chr <? 2 ^ 21 then 3 else if chr <? 2 ^ 26 then 4 else 5.

Definition utf8 (chr : Z) : list Z := lead (class chr) + chr / 64 ^ Z.of_nat (class chr) :: cont (class chr) chr.

Definition is_ucs4 (chr : Z) : Prop := 0 <= chr < 2 ^ 31.

(** ** Bytes *)

Lemma cont_byte x : 0 <= x < 64 ->
  is_byte (128 + x) /\ Z.lor 0x80 x = 128 + x /\ (Z.land (128 + x) 0xc0 =? 0x80) = true /\ Z.land (128 + x) 0x3f = x.
Proof.
  intros Hx.
  pose proof (byte_forall (fun x => (64 <=? x) || ((Z.lor 0x80 x =? 128 + x) &&
    (Z.land (128 + x) 0xc0 =? 0x80) && (Z.land (128 + x) 0x3f =? x))) ltac:(vm_compute; reflexivity) x) as H.
  unfold is_byte in *. cbv beta in H. lia.
Qed.

Lemma cont_byte_inv b : is_byte b -> (Z.land b 0xc0 =? 0x80) = true ->
  b = 128 + Z.land b 0x3f /\ 0 <= Z.land b 0x3f < 64.
Proof.
  intros Hb H1.
  pose proof (byte_forall (fun b => negb (Z.land b 0xc0 =? 0x80) || ((b =? 128 + Z.land b 0x3f) &&
    (0 <=? Z.land b 0x3f) && (Z.land b 0x3f <? 64))) ltac:(vm_compute; reflexivity) b Hb) as H.
  cbv beta in H. lia.
Qed.

Lemma lead_byte k q : (1 <= k <= 5)%nat -> 0 <= q < 2 ^ (6 - Z.of_nat k) -> (k = 1%nat -> 2 <= q) ->
  128 <= lead k + q < 256 /\ Z.lor (lead k) q = lead k + q /\
  uni_utf8_char_bytes (lead k + q) = S k /\
  exists mask, first_mask (S k) = Some mask /\ Z.land (lead k + q) mask = q.
Proof.
  intros Hk Hq H1.
  pose proof (byte_forall (fun q => forallb (fun k : nat =>
    (2 ^ (6 - Z.of_nat k) <=? q) || ((k =? 1)%nat && (q <? 2)) ||
    ((128 <=? lead k + q) && (lead k + q <? 256) && (Z.lor (lead k) q =? lead k + q) &&
     (uni_utf8_char_bytes (lead k + q) =? S k)%nat &&
     match first_mask (S k) with Some mask => Z.land (lead k + q) mask =? q | None => false end))
    [1; 2; 3; 4; 5]%nat) ltac:(vm_compute; reflexivity) q) as H.
  assert (Hle : 2 ^ (6 - Z.of_nat k) <= 32) by (apply (Z.pow_le_mono_r 2 _ 5); lia).
  cbv beta in H. rewrite forallb_forall in H. specialize (H ltac:(unfold is_byte; lia) k).
  assert (Hin : In k [1; 2; 3; 4; 5]%nat) by (simpl; lia). specialize (H Hin). cbv beta in H.
  rewrite !orb_true_iff, !andb_true_iff in H.
  destruct H as [[H | [H ?]] | [[[[H2 H3] H4] H5] H6]]; [lia | apply Nat.eqb_eq in H; lia |].
  apply Nat.eqb_eq in H5. split_and!; [lia | lia | lia | done |].
  destruct (first_mask (S k)) as [mask|]; [exists mask; split; [done | lia] | done].
Qed.

Lemma lead_byte_inv b : is_byte b -> 128 <= b ->
  match first_mask (uni_utf8_char_bytes b) with
  | None => uni_utf8_char_bytes b = 1%nat
  | Some mask => exists k, (1 <= k <= 5)%nat /\ uni_utf8_char_bytes b = S k /\ b = lead k + Z.land b mask /\
      0 <= Z.land b mask < 2 ^ (6 - Z.of_nat k) /\ (k = 1%nat -> 2 <= Z.land b mask)
  end.
Proof.
  intros Hb Hge.
  pose proof (byte_forall (fun b => (b <? 128) ||
    match first_mask (uni_utf8_char_bytes b) with
    | None => (uni_utf8_char_bytes b =? 1)%nat
    | Some mask => let k := (uni_utf8_char_bytes b - 1)%nat in
        (1 <=? k)%nat && (k <=? 5)%nat && (b =? lead k + Z.land b mask) && (0 <=? Z.land b mask) &&
        (Z.land b mask <? 2 ^ (6 - Z.of_nat k)) && (negb (k =? 1)%nat || (2 <=? Z.land b mask))
    end) ltac:(vm_compute; reflexivity) b Hb) as H. cbv beta zeta in H.
  rewrite orb_true_iff in H. destruct H as [H | H]; [lia |].
  destruct (first_mask (uni_utf8_char_bytes b)) as [mask|]; [| by apply Nat.eqb_eq].
  exists (uni_utf8_char_bytes b - 1)%nat. rewrite !andb_true_iff in H.
  destruct H as (((((H1 & H2) & H3) & H4) & H5) & H6). split_and!; try lia.
Qed.

(** ** Classes *)

(** A code point of class [k] needs exactly [k] continuation bytes: its
    leading bits fit the first byte, and it is not below the class. *)
Lemma class_spec chr : is_ucs4 chr ->
  let k := class chr in
  (k <= 5)%nat /\ 0 <= chr / 64 ^ Z.of_nat k /\
  ((1 <= k)%nat -> chr / 64 ^ Z.of_nat k < 2 ^ (6 - Z.of_nat k) /\ nth (S k) lowest_valid_chr_table 0 <= chr) /\
  (k = 1%nat -> 2 <= chr / 64 ^ Z.of_nat k) /\ (k = 0%nat <-> chr < 128).
Proof.
  unfold is_ucs4. intros Hc. cbv zeta. unfold class.
  repeat match goal with |- context [chr <? ?n] => destruct (Z.ltb_spec chr n) end;
    (split_and!; [lia | apply Z.div_pos; lia | intros | |]); try lia;
    simpl; change (2 ^ 31) with 2147483648 in *; change (2 ^ 7) with 128 in *;
    change (2 ^ 11) with 2048 in *; change (2 ^ 16) with 65536 in *; change (2 ^ 21) with 2097152 in *;
    change (2 ^ 26) with 67108864 in *; repeat match goal with |- context [Z.pow_pos ?a ?b] =>
      let v := eval vm_compute in (Z.pow_pos a b) in change (Z.pow_pos a b) with v end;
    try split; Z.div_mod_to_equations; lia.
Qed.

(** The class is determined by the two bounds. *)
Lemma class_unique chr k : (1 <= k <= 5)%nat -> nth (S k) lowest_valid_chr_table 0 <= chr ->
  chr / 64 ^ Z.of_nat k < 2 ^ (6 - Z.of_nat k) -> class chr = k.
Proof.
  intros Hk Hlo Hhi.
  assert (chr < 2 ^ (5 * Z.of_nat k + 6)).
  { destruct (Z.lt_ge_cases chr (2 ^ (5 * Z.of_nat k + 6))) as [|Hge]; [done |]. exfalso.
    apply (Z.div_le_mono _ _ (64 ^ Z.of_nat k)) in Hge; [| lia].
    replace (2 ^ (5 * Z.of_nat k + 6)) with (2 ^ (6 - Z.of_nat k) * 64 ^ Z.of_nat k) in Hge.
    - rewrite Z.div_mul in Hge by lia. lia.
    - change 64 with (2 ^ 6). rewrite <- Z.pow_mul_r, <- Z.pow_add_r by lia. f_equal. lia. }
  unfold class. destruct k as [|[|[|[|[|[|k]]]]]]; try lia; cbn [nth lowest_valid_chr_table] in Hlo;
    match type of H with _ < 2 ^ ?e => let e' := eval vm_compute in e in change (2 ^ e) with (2 ^ e') in H end;
    repeat match goal with |- context [chr <? ?n] => destruct (Z.ltb_spec chr n) end; lia.
Qed.

(** ** Encoding *)

Lemma buffer_append_c_byte output c : is_byte c -> buffer_append_c output c = output ++ [c].
Proof. unfold is_byte, buffer_append_c. intros. by rewrite Z.mod_small. Qed.

Lemma utf8_tail_spec k chr output : 0 <= chr -> utf8_tail k chr output = output ++ cont k chr.
Proof.
  intros Hc. revert output. induction k as [|k IH]; intros output; cbn [utf8_tail cont]; [by rewrite app_nil_r |].
  change 0x3f with (2 ^ 6 - 1). rewrite Z.shiftr_div_pow2, land_low, Z.pow_mul_r by lia.
  change (2 ^ 6) with 64. pose proof (Z.mod_pos_bound (chr / 64 ^ Z.of_nat k) 64 ltac:(lia)) as Hm.
  destruct (cont_byte _ Hm) as (Hb & -> & _). rewrite buffer_append_c_byte, IH, <- app_assoc by done. done.
Qed.

Lemma uni_ucs4_to_utf8_c_spec chr output :
  is_ucs4 chr -> uni_ucs4_to_utf8_c chr output = Some (output ++ utf8 chr).
Proof.
  intros Hc. destruct (class_spec chr Hc) as (H5 & H0 & Hhi & H1 & Hz).
  unfold uni_ucs4_to_utf8_c. destruct (Z.ltb_spec chr 0x80) as [Hlt|Hge].
  - unfold utf8. rewrite (proj2 Hz) by lia. cbn [lead nth cont]. change (64 ^ Z.of_nat 0) with 1.
    rewrite Z.div_1_r, Z.add_0_l. unfold is_ucs4 in Hc. by rewrite buffer_append_c_byte by (unfold is_byte; lia).
  - rewrite assert_true by (unfold is_ucs4 in Hc; lia). cbn [mbind option_bind].
    assert (Hk : (1 <= class chr)%nat) by lia. specialize (Hhi Hk) as [Hhi _].
    destruct (lead_byte (class chr) (chr / 64 ^ Z.of_nat (class chr))) as (Hb & Hlor & _); [lia | done | done |].
    transitivity (Some (utf8_tail (class chr) chr
      (buffer_append_c output (Z.lor (lead (class chr)) (chr / 64 ^ Z.of_nat (class chr)))))).
    + f_equal. change 64 with (2 ^ 6). rewrite <- Z.pow_mul_r, <- Z.shiftr_div_pow2 by lia.
      unfold class. rewrite (proj2 (Z.ltb_ge chr (2 ^ 7))) by lia.
      change (Z.shiftl 1 (6 + 5)) with (2 ^ 11). change (Z.shiftl 1 (2 * 6 + 4)) with (2 ^ 16).
      change (Z.shiftl 1 (3 * 6 + 3)) with (2 ^ 21). change (Z.shiftl 1 (4 * 6 + 2)) with (2 ^ 26).
      by repeat match goal with |- context [chr <? ?n] => destruct (Z.ltb_spec chr n) end.
    + rewrite Hlor, utf8_tail_spec by (unfold is_ucs4 in Hc; lia).
      rewrite buffer_append_c_byte, <- app_assoc by (unfold is_byte; lia). done.
Qed.

(** ** Decoding *)

Lemma div_step chr k : 0 <= chr ->
  chr / 64 ^ Z.of_nat (S k) * 64 + chr / 64 ^ Z.of_nat k mod 64 = chr / 64 ^ Z.of_nat k.
Proof.
  intros. rewrite Nat2Z.inj_succ, Z.pow_succ_r, (Z.mul_comm 64), <- Z.div_div by lia.
  pose proof (Z.div_mod (chr / 64 ^ Z.of_nat k) 64 ltac:(lia)). lia.
Qed.

Lemma chr_step c x : 0 <= c < 2 ^ 26 -> 0 <= x < 64 -> Z.lor (u32 (Z.shiftl c 6)) x = c * 64 + x.
Proof.
  intros Hc Hx. rewrite Z.shiftl_mul_pow2 by lia.
  rewrite u32_small by (unfold is_u32; change (2 ^ 6) with 64; lia).
  apply (lor_disjoint' x c 6); lia.
Qed.

Lemma div64_bound chr k : is_ucs4 chr -> 0 <= chr / 64 ^ Z.of_nat (S k) < 2 ^ 26.
Proof.
  intros [H0 H1]. split; [apply Z.div_pos; lia |]. apply Z.div_lt_upper_bound; [lia |].
  pose proof (Z.pow_le_mono_r 64 1 (Z.of_nat (S k)) ltac:(lia) ltac:(lia)) as Hp.
  change (64 ^ 1) with 64 in Hp. lia.
Qed.

(** The loop reads the continuation bytes of a code point. *)
Lemma get_char_loop_cont k chr rest :
  is_ucs4 chr -> get_char_loop k (cont k chr ++ rest) (chr / 64 ^ Z.of_nat k) = Some (inl chr).
Proof.
  intros Hc. pose proof Hc as [H0 _]. induction k as [|k IH]; cbn [get_char_loop cont app].
  { change (64 ^ Z.of_nat 0) with 1. by rewrite Z.div_1_r. }
  pose proof (Z.mod_pos_bound (chr / 64 ^ Z.of_nat k) 64 ltac:(lia)) as Hm.
  destruct (cont_byte _ Hm) as (_ & _ & -> & ->). cbn [negb].
  rewrite chr_step by (try done; by apply div64_bound). rewrite div_step by done. exact IH.
Qed.

(** Some of the bytes of a code point are missing. *)
Lemma get_char_loop_prefix k j chr rest :
  (j <= k)%nat -> is_ucs4 chr ->
  get_char_loop j (take j (cont k chr) ++ rest) (chr / 64 ^ Z.of_nat k) =
  Some (inl (chr / 64 ^ Z.of_nat (k - j))).
Proof.
  intros Hj Hc. pose proof Hc as [H0 _]. revert k Hj.
  induction j as [|j IH]; intros k Hj; [by rewrite Nat.sub_0_r |]. destruct k as [|k]; [lia |].
  cbn [get_char_loop cont app firstn].
  pose proof (Z.mod_pos_bound (chr / 64 ^ Z.of_nat k) 64 ltac:(lia)) as Hm.
  destruct (cont_byte _ Hm) as (_ & _ & -> & ->). cbn [negb].
  rewrite chr_step by (try done; by apply div64_bound). rewrite div_step by done. apply IH. lia.
Qed.

(** What the loop accepts are the continuation bytes of its result. *)
Lemma get_char_loop_inv k input c r :
  Forall is_byte input -> (k <= length input)%nat -> 0 <= c -> (c + 1) * 64 ^ Z.of_nat k <= 2 ^ 32 ->
  get_char_loop k input c = Some r ->
  match r with
  | inl chr => chr / 64 ^ Z.of_nat k = c /\ 0 <= chr /\ exists rest, input = cont k chr ++ rest
  | inr ret => ret = 0 \/ ret = -1
  end.
Proof.
  intros Hb. revert input Hb c. induction k as [|k IH]; intros input Hb c Hl Hc Hle; cbn [get_char_loop].
  { intros [= <-]. change (64 ^ Z.of_nat 0) with 1. rewrite Z.div_1_r. eauto. }
  destruct input as [|b input]; [done |]. apply Forall_cons in Hb as [Hb Hbs].
  destruct (Z.land b 0xc0 =? 0x80) eqn:Eb; cbn [negb].
  2: { intros [= <-]. case_match; auto. }
  destruct (cont_byte_inv b Hb Eb) as [Heq Hx].
  rewrite Nat2Z.inj_succ, Z.pow_succ_r in Hle by lia.
  pose proof (Z.pow_pos_nonneg 64 (Z.of_nat k) ltac:(lia) ltac:(lia)) as Hp.
  assert (c < 2 ^ 26).
  { pose proof (Z.mul_le_mono_nonneg_l 1 (64 ^ Z.of_nat k) ((c + 1) * 64) ltac:(lia) ltac:(lia)). lia. }
  rewrite chr_step by (try done; lia). intros Hr.
  apply IH in Hr; [| done | simpl in Hl; lia | lia |].
  2: { pose proof (Z.mul_le_mono_nonneg_r (c * 64 + Z.land b 63 + 1) ((c + 1) * 64) (64 ^ Z.of_nat k)). lia. }
  destruct r as [chr | ret]; [| done]. destruct Hr as (Hd & H0 & rest & ->).
  assert (Hq : chr / 64 ^ Z.of_nat (S k) = c).
  { rewrite Nat2Z.inj_succ, Z.pow_succ_r, (Z.mul_comm 64), <- Z.div_div, Hd by lia.
    Z.div_mod_to_equations; lia. }
  split_and!; [done | done |]. exists rest. cbn [cont app]. f_equal. rewrite Heq at 1. f_equal.
  rewrite Hd. Z.div_mod_to_equations; lia.
Qed.

Lemma length_cont k chr : length (cont k chr) = k.
Proof. induction k as [|k IH]; simpl; [done | by rewrite IH]. Qed.

Lemma utf8_length chr : length (utf8 chr) = S (class chr).
Proof. unfold utf8. cbn [length]. by rewrite length_cont. Qed.

Lemma utf8_ascii chr : 0 <= chr < 128 -> utf8 chr = [chr].
Proof.
  intros Hc. unfold utf8, class. change (2 ^ 7) with 128. rewrite (proj2 (Z.ltb_lt chr 128)) by lia.
  cbn [lead nth cont]. change (64 ^ Z.of_nat 0) with 1. by rewrite Z.div_1_r.
Qed.

Lemma utf8_bytes chr : is_ucs4 chr -> Forall is_byte (utf8 chr).
Proof.
  intros Hc. destruct (class_spec chr Hc) as (H5 & H0 & Hhi & H1 & Hz). unfold utf8. constructor.
  - destruct (decide (class chr = 0%nat)) as [Hk | Hk].
    + rewrite Hk. change (64 ^ Z.of_nat 0) with 1. rewrite Z.div_1_r. unfold is_byte, is_ucs4, lead in *. cbn. lia.
    + specialize (Hhi ltac:(lia)) as [Hhi _].
      destruct (lead_byte (class chr) (chr / 64 ^ Z.of_nat (class chr))) as (Hb & _); [lia | done | done |].
      unfold is_byte. lia.
  - generalize (class chr). intros k. induction k as [|k IH]; cbn; constructor; [| done].
    by apply cont_byte, Z.mod_pos_bound.
Qed.

(** The first byte of a code point and its number of bytes. *)
Lemma utf8_head chr : is_ucs4 chr ->
  exists b, utf8 chr = b :: cont (class chr) chr /\ is_byte b /\ uni_utf8_char_bytes b = S (class chr) /\
    (class chr = 0%nat /\ b = chr /\ b < 128 \/
     128 <= b /\ exists mask, first_mask (S (class chr)) = Some mask /\
       Z.land b mask = chr / 64 ^ Z.of_nat (class chr)).
Proof.
  intros Hc. destruct (class_spec chr Hc) as (H5 & H0 & Hhi & H1 & Hz).
  destruct (decide (class chr = 0%nat)) as [Hk | Hk].
  - exists chr. rewrite utf8_ascii, Hk by (unfold is_ucs4 in Hc; lia). unfold is_byte, is_ucs4 in *.
    split_and!; [done | lia | lia | | left; split_and!; [done | done | lia]].
    unfold uni_utf8_char_bytes. by rewrite (proj2 (Z.ltb_lt chr _)) by lia.
  - specialize (Hhi ltac:(lia)) as [Hhi _].
    destruct (lead_byte (class chr) (chr / 64 ^ Z.of_nat (class chr))) as (Hb & _ & Hcb & Hm); [lia | done | done |].
    eexists. split_and!; [done | unfold is_byte; lia | done | right]. split; [lia | done].
Qed.

(** A complete character is decoded, whatever follows. *)
Lemma get_char_n_utf8 chr rest max_len :
  is_ucs4 chr -> Z.of_nat (length (utf8 chr)) <= max_len ->
  uni_utf8_get_char_n (utf8 chr ++ rest) max_len = Some (1, Some chr).
Proof.
  intros Hc Hl. rewrite utf8_length in Hl. destruct (class_spec chr Hc) as (H5 & H0 & Hhi & H1 & Hz).
  destruct (utf8_head chr Hc) as (b & -> & Hb & Hcb & Hcase). unfold uni_utf8_get_char_n.
  rewrite assert_true by lia. cbn [app lookup list_lookup mbind option_bind].
  destruct Hcase as [(_ & -> & Hlt) | (Hge & mask & Hmask & Hland)].
  { by rewrite (proj2 (Z.ltb_lt chr _)) by lia. }
  rewrite (proj2 (Z.ltb_ge b _)) by lia. cbv zeta. rewrite Hcb, Hmask, (proj2 (Z.leb_le _ _)) by lia.
  assert (Hk : (1 <= class chr)%nat) by (unfold first_mask in Hmask; destruct (class chr); [done | lia]).
  assert (Hlow : lowest_valid_chr_table !! S (class chr) = Some (nth (S (class chr)) lowest_valid_chr_table 0)).
  { destruct (class chr) as [|[|[|[|[|[|?]]]]]]; try lia; reflexivity. }
  rewrite Hlow. cbn [mbind option_bind skipn]. rewrite ?drop_0. replace (S (class chr) - 1)%nat with (class chr) by lia.
  rewrite Hland, get_char_loop_cont by done. cbn [mbind option_bind].
  specialize (Hhi Hk) as [_ Hlo]. by rewrite (proj2 (Z.ltb_ge chr _)) by lia.
Qed.

(** A character that is cut short is reported as incomplete. *)
Lemma get_char_n_partial chr n rest :
  is_ucs4 chr -> (0 < n < length (utf8 chr))%nat ->
  exists c, uni_utf8_get_char_n (take n (utf8 chr) ++ rest) (Z.of_nat n) = Some (0, c).
Proof.
  intros Hc Hn. rewrite utf8_length in Hn. destruct (utf8_head chr Hc) as (b & -> & Hb & Hcb & Hcase).
  destruct n as [|n]; [lia |]. unfold uni_utf8_get_char_n.
  rewrite assert_true by lia. cbn [firstn app lookup list_lookup mbind option_bind].
  destruct Hcase as [(Hk & _) | (Hge & mask & Hmask & Hland)]; [lia |].
  rewrite (proj2 (Z.ltb_ge b _)) by lia. cbv zeta. rewrite Hcb, Hmask, (proj2 (Z.leb_gt _ _)) by lia.
  cbn [mbind option_bind skipn]. rewrite ?drop_0. rewrite Nat2Z.id. replace (S n - 1)%nat with n by lia.
  rewrite Hland, get_char_loop_prefix by (done || lia). cbn [mbind option_bind].
  rewrite (proj2 (Z.ltb_ge _ 0)); [eauto |]. destruct Hc. apply Z.div_pos; lia.
Qed.

(** The loop has a result when the bytes are there. *)
Lemma get_char_loop_some k input c :
  (k <= length input)%nat -> exists r, get_char_loop k input c = Some r.
Proof.
  revert input c. induction k as [|k IH]; intros input c Hl; cbn; [eauto |].
  destruct input as [|b input]; [simpl in Hl; lia |]. case_match; [eauto |]. apply IH. simpl in Hl. lia.
Qed.

(** The decoder always returns, and 1 only for a complete character. *)
Lemma get_char_n_inv input max_len :
  Forall is_byte input -> 0 < max_len <= Z.of_nat (length input) ->
  exists ret chr, uni_utf8_get_char_n input max_len = Some (ret, chr) /\
    (ret = 0 \/ ret = -1 \/
     ret = 1 /\ exists c rest, chr = Some c /\ is_ucs4 c /\ input = utf8 c ++ rest /\
       Z.of_nat (length (utf8 c)) <= max_len).
Proof.
  intros Hbs Hm. destruct input as [|b input]; [simpl in Hm; lia |].
  apply Forall_cons in Hbs as [Hb Hbs]. unfold uni_utf8_get_char_n. rewrite assert_true by lia.
  cbn [lookup list_lookup mbind option_bind]. cbn [length] in Hm.
  destruct (Z.ltb_spec b 0x80) as [Hlt | Hge].
  { eexists _, _. split; [done |]. right; right. split; [done |]. exists b, input.
    rewrite utf8_ascii by (unfold is_byte in Hb; lia). unfold is_ucs4, is_byte in *. cbn. split_and!; (done || lia). }
  pose proof (lead_byte_inv b Hb Hge) as Hlead. cbv zeta.
  destruct (first_mask (uni_utf8_char_bytes b)) as [mask|].
  2: { rewrite Hlead. exists (-1), None. auto. }
  destruct Hlead as (k & Hk & Hcb & Hbe & Hq & H1). rewrite Hcb.
  assert (Hp : 64 ^ Z.of_nat k = 2 ^ (6 * Z.of_nat k)) by (rewrite Z.pow_mul_r by lia; done).
  assert (Hbound : (Z.land b mask + 1) * 64 ^ Z.of_nat k <= 2 ^ 31).
  { transitivity (2 ^ (6 - Z.of_nat k) * 64 ^ Z.of_nat k); [apply Z.mul_le_mono_nonneg_r; lia |].
    rewrite Hp, <- Z.pow_add_r by lia. apply Z.pow_le_mono_r; lia. }
  destruct (Z.leb_spec (Z.of_nat (S k)) max_len) as [Hle | Hgt].
  - assert (Hlow : lowest_valid_chr_table !! S k = Some (nth (S k) lowest_valid_chr_table 0)).
    { destruct k as [|[|[|[|[|[|?]]]]]]; try lia; reflexivity. }
    rewrite Hlow. cbn [mbind option_bind skipn]. rewrite ?drop_0. replace (S k - 1)%nat with k by lia.
    destruct (get_char_loop_some k input (Z.land b mask)) as (r & Hr); [lia |]. rewrite Hr.
    apply get_char_loop_inv in Hr; [| done | lia | lia | lia]. cbn [mbind option_bind].
    destruct r as [chr | ret]; [| eexists _, _; split; [done |]; tauto].
    destruct Hr as (Hd & H0 & rest & ->). destruct (Z.ltb_spec chr (nth (S k) lowest_valid_chr_table 0)); [by exists (-1), None; auto |].
    eexists _, _. split; [done |]. right; right. split; [done |]. exists chr, rest.
    assert (Hcl : class chr = k) by (apply class_unique; [done | done | rewrite Hd; apply Hq]).
    assert (Hu : is_ucs4 chr).
    { split; [done |]. pose proof (Z.div_mod chr (64 ^ Z.of_nat k) ltac:(lia)).
      pose proof (Z.mod_pos_bound chr (64 ^ Z.of_nat k) ltac:(lia)). rewrite Hd in *. lia. }
    split_and!; [done | done | | rewrite utf8_length, Hcl; lia].
    unfold utf8. rewrite Hcl, Hd. cbn [app]. by rewrite <- Hbe.
  - cbn [mbind option_bind skipn]. rewrite ?drop_0.
    destruct (get_char_loop_some (Z.to_nat max_len - 1) input (Z.land b mask)) as (r & Hr); [lia |]. rewrite Hr.
    apply get_char_loop_inv in Hr; [| done | lia | lia |].
    2: { etransitivity; [| etransitivity; [exact Hbound | lia]]. apply Z.mul_le_mono_nonneg_l; [lia |].
         apply Z.pow_le_mono_r; lia. }
    cbn [mbind option_bind]. destruct r as [chr | ret]; [| eexists _, _; split; [done |]; tauto].
    case_match; eexists _, _; (split; [done |]); auto.
Qed.

(** ** Data as characters and stray bytes *)

(** [scan d ts]: reading [d] from the left gives the tokens [ts], a character
    wherever one starts and otherwise a single byte that belongs to none. *)
Inductive scan : list Z -> list (option Z) -> Prop :=
| scan_nil : scan [] []
| scan_chr c d ts : is_ucs4 c -> scan d ts -> scan (utf8 c ++ d) (Some c :: ts)
| scan_bad b d ts : (forall c rest, is_ucs4 c -> b :: d <> utf8 c ++ rest) -> scan d ts -> scan (b :: d) (None :: ts).

(** The next token, as the decoder sees it. *)
Lemma next_token input :
  Forall is_byte input -> input <> [] ->
  exists ret chr, uni_utf8_get_char_n input (Z.of_nat (length input)) = Some (ret, chr) /\
   ((ret = 1 /\ exists c rest, chr = Some c /\ is_ucs4 c /\ input = utf8 c ++ rest) \/
    (ret <= 0 /\ forall c rest, is_ucs4 c -> input <> utf8 c ++ rest)).
Proof.
  intros Hb Hne. destruct (get_char_n_inv input (Z.of_nat (length input)) Hb) as (ret & chr & Heq & Hcase).
  { destruct input; [done | simpl; lia]. }
  exists ret, chr. split; [done |]. destruct Hcase as [-> | [-> | (-> & c & rest & -> & ? & ? & ?)]].
  3: { left. eauto 8. }
  all: right; (split; [lia |]); intros c rest Hc ->; rewrite get_char_n_utf8 in Heq; try done;
    rewrite length_app; lia.
Qed.

Lemma utf8_head_bytes c : is_ucs4 c -> exists b t, utf8 c = b :: t /\ uni_utf8_char_bytes b = length (utf8 c).
Proof.
  intros Hc. destruct (utf8_head c Hc) as (b & Hu & _ & Hcb & _). exists b, (cont (class c) c).
  by rewrite utf8_length.
Qed.

(** [is_valid_utf8_seq] on data of less than 4 GB. *)
Lemma is_valid_utf8_seq_spec input :
  Forall is_byte input -> input <> [] -> Z.of_nat (length input) <= UINT32_MAX ->
  (exists c rest, is_ucs4 c /\ input = utf8 c ++ rest /\
     is_valid_utf8_seq input (Z.of_nat (length input)) = Some (length (utf8 c))) \/
  (forall c rest, is_ucs4 c -> input <> utf8 c ++ rest) /\
     is_valid_utf8_seq input (Z.of_nat (length input)) = Some 0%nat.
Proof.
  intros Hb Hne Hl. unfold is_valid_utf8_seq. rewrite u32_small by (unfold is_u32; lia).
  destruct (next_token input Hb Hne) as (ret & chr & -> & [(-> & c & rest & -> & Hc & ->) | (Hr & Hno)]);
    cbn [mbind option_bind].
  - left. exists c, rest. split_and!; [done | done |]. destruct (utf8_head_bytes c Hc) as (b & t & Hu & Hcb).
    rewrite Hu in *. cbn. by rewrite Hcb.
  - right. rewrite (proj2 (Z.leb_le _ _)) by done. auto.
Qed.

Lemma scan_exists n d : (length d <= n)%nat -> Forall is_byte d -> exists ts, scan d ts.
Proof.
  revert d. induction n as [|n IH]; intros d Hn Hb.
  { destruct d; [exists []; constructor | simpl in Hn; lia]. }
  destruct d as [|b d]; [exists []; constructor |].
  destruct (next_token (b :: d) Hb) as (ret & chr & _ & [(_ & c & rest & _ & Hc & Heq) | (_ & Hno)]); [done | |].
  - destruct (IH rest) as (ts & Hts).
    + apply (f_equal length) in Heq. rewrite length_app, utf8_length in Heq. simpl in *. lia.
    + rewrite Heq in Hb. by apply Forall_app in Hb as [_ ?].
    + exists (Some c :: ts). rewrite Heq. by constructor.
  - apply Forall_cons in Hb as [_ Hb]. destruct (IH d) as (ts & Hts); [simpl in Hn; lia | done |].
    exists (None :: ts). by constructor.
Qed.

(** Characters are recognised in only one way. *)
Lemma utf8_inj c1 c2 r1 r2 : is_ucs4 c1 -> is_ucs4 c2 -> utf8 c1 ++ r1 = utf8 c2 ++ r2 -> c1 = c2 /\ r1 = r2.
Proof.
  intros H1 H2 Heq.
  assert (c1 = c2) as ->.
  { pose proof (get_char_n_utf8 c1 r1 (2 ^ 10) H1) as E1. pose proof (get_char_n_utf8 c2 r2 (2 ^ 10) H2) as E2.
    rewrite utf8_length in E1, E2. destruct (class_spec c1 H1) as [? _]. destruct (class_spec c2 H2) as [? _].
    rewrite Heq, E2 in E1 by lia. specialize (E1 ltac:(lia)). congruence. }
  by apply app_inv_head in Heq.
Qed.

Lemma scan_unique d ts1 ts2 : scan d ts1 -> scan d ts2 -> ts1 = ts2.
Proof.
  intros H1. revert ts2. induction H1 as [|c d ts Hc H IH|b d ts Hno H IH]; intros ts2 H2.
  - by inversion H2.
  - remember (utf8 c ++ d) as x eqn:Hx. destruct H2 as [|c' d' ts' Hc' H'|b d' ts' Hno' H']; [done | |].
    + apply utf8_inj in Hx as [-> ->]; [| done | done]. f_equal. by apply IH.
    + exfalso. by eapply Hno'.
  - remember (b :: d) as x eqn:Hx. destruct H2 as [|c' d' ts' Hc' H'|b' d' ts' Hno' H']; [done | |].
    + exfalso. by eapply Hno.
    + injection Hx as -> ->. f_equal. by apply IH.
Qed.

Definition all_chars (ts : list (option Z)) : bool := forallb (fun t => bool_decide (is_Some t)) ts.

(** Valid data is the concatenation of the encodings of code points. *)
Definition valid_utf8 (d : list Z) : Prop := exists cs, Forall is_ucs4 cs /\ d = flat_map utf8 cs.

Lemma scan_valid d ts : scan d ts -> (all_chars ts = true <-> valid_utf8 d).
Proof.
  unfold valid_utf8, all_chars. induction 1 as [|c d ts Hc H IH|b d ts Hno H IH]; cbn [forallb].
  - split; [by exists [] | done].
  - rewrite bool_decide_eq_true_2, andb_true_l, IH by eauto. split.
    + intros (cs & Hcs & ->). exists (c :: cs). split; [by constructor | done].
    + intros ([|c' cs] & Hcs & Heq).
      { apply (f_equal length) in Heq. rewrite length_app, utf8_length in Heq. simpl in Heq. lia. }
      apply Forall_cons in Hcs as [? ?]. apply utf8_inj in Heq as [-> ->]; eauto.
  - rewrite bool_decide_eq_false_2 by (intros [? [=]]). split; [done |].
    intros ([|c cs] & Hcs & Heq); [done |]. apply Forall_cons in Hcs as [? ?]. by eapply Hno in Heq.
Qed.

(** ** Functions on whole strings *)

Lemma scan_bytes_tail c d : Forall is_byte (utf8 c ++ d) -> Forall is_byte d.
Proof. by intros [_ ?]%Forall_app. Qed.

(** The two cases of the validity test at a position of the data. *)
Lemma valid_seq_chr pre c d :
  is_ucs4 c -> Forall is_byte d -> Z.of_nat (length (pre ++ utf8 c ++ d)) <= UINT32_MAX ->
  is_valid_utf8_seq (drop (length pre) (pre ++ utf8 c ++ d))
    (Z.of_nat (length (pre ++ utf8 c ++ d) - length pre)) = Some (length (utf8 c)).
Proof.
  intros Hc Hd Hl. rewrite drop_app_length. rewrite length_app in *.
  replace (length pre + length (utf8 c ++ d) - length pre)%nat with (length (utf8 c ++ d)) by lia.
  destruct (is_valid_utf8_seq_spec (utf8 c ++ d)) as [(c' & rest & Hc' & Heq & ->) | [Hno _]].
  - apply Forall_app. split; [by apply utf8_bytes | done].
  - by destruct (utf8 c) eqn:E; [apply (f_equal length) in E; rewrite utf8_length in E |].
  - lia.
  - by apply utf8_inj in Heq as [-> _].
  - exfalso. by eapply Hno.
Qed.

Lemma valid_seq_bad pre b d :
  (forall c rest, is_ucs4 c -> b :: d <> utf8 c ++ rest) -> Forall is_byte (b :: d) ->
  Z.of_nat (length (pre ++ b :: d)) <= UINT32_MAX ->
  128 <= b /\ is_valid_utf8_seq (drop (length pre) (pre ++ b :: d))
    (Z.of_nat (length (pre ++ b :: d) - length pre)) = Some 0%nat.
Proof.
  intros Hno Hb Hl. split.
  - destruct (Z.lt_ge_cases b 128); [| lia]. exfalso. apply Forall_inv in Hb. unfold is_byte in Hb.
    apply (Hno b d); [unfold is_ucs4; lia |]. by rewrite utf8_ascii by lia.
  - rewrite drop_app_length. rewrite length_app in *.
    replace (length pre + length (b :: d) - length pre)%nat with (length (b :: d)) by lia.
    destruct (is_valid_utf8_seq_spec (b :: d) Hb) as [(c & rest & Hc & Heq & _) | [_ ->]]; [done | lia | | done].
    exfalso. by eapply Hno.
Qed.

(** The byte at a character: an ASCII character, or not below 0x80. *)
Lemma utf8_lookup pre c d : is_ucs4 c ->
  exists b, (pre ++ utf8 c ++ d) !! length pre = Some b /\ is_byte b /\ (b < 128 /\ utf8 c = [b] \/ 128 <= b).
Proof.
  intros Hc. destruct (utf8_head c Hc) as (b & -> & Hb & _ & Hcase). exists b. cbn [app].
  rewrite list_lookup_middle by done. split_and!; [done | done |].
  destruct Hcase as [(Hk & -> & ?) | (? & _)]; [left; rewrite Hk; auto | right; lia].
Qed.

Fixpoint valid_prefix (ts : list (option Z)) : list Z :=
  match ts with
  | Some c :: ts => c :: valid_prefix ts
  | _ => []
  end.

Definition add_token (buf : list Z) (t : option Z) : list Z :=
  match t with
  | Some c => buf ++ utf8 c
  | None => output_add_replacement_char buf
  end.

(** One step of a loop that handles ASCII bytes separately: both branches of a
    character advance over it. *)
Lemma scan_step {R} (body : nat -> list Z -> option R) (bad none : option R) pre c d buf :
  is_ucs4 c -> Forall is_byte d -> Z.of_nat (length (pre ++ utf8 c ++ d)) <= UINT32_MAX ->
  (match (pre ++ utf8 c ++ d) !! length pre with
   | None => none
   | Some b =>
       if b <? 0x80 then body (length pre + 1)%nat (buffer_append_c buf b)
       else
         len ← is_valid_utf8_seq (drop (length pre) (pre ++ utf8 c ++ d))
                 (Z.of_nat (length (pre ++ utf8 c ++ d) - length pre));
         if (len =? 0)%nat then bad
         else body (length pre + len)%nat (buf ++ take len (drop (length pre) (pre ++ utf8 c ++ d)))
   end) = body (length (pre ++ utf8 c)) (buf ++ utf8 c).
Proof.
  intros Hc Hd Hl. destruct (utf8_lookup pre c d Hc) as (b & -> & Hb & Hcase).
  destruct Hcase as [[Hlt Hu] | Hge].
  - rewrite (proj2 (Z.ltb_lt b _)) by lia. rewrite Hu, length_app, buffer_append_c_byte by done. done.
  - rewrite (proj2 (Z.ltb_ge b _)) by lia. rewrite valid_seq_chr by done. cbn [mbind option_bind].
    rewrite utf8_length at 1. cbn [Nat.eqb]. rewrite drop_app_length, take_app_length, length_app. done.
Qed.

Lemma find_invalid_pos_loop_spec fuel pre d ts :
  scan d ts -> Forall is_byte d -> Z.of_nat (length (pre ++ d)) <= UINT32_MAX -> (length d < fuel)%nat ->
  find_invalid_pos_loop fuel (pre ++ d) (length pre) =
  Some (if all_chars ts then None else Some (length (pre ++ flat_map utf8 (valid_prefix ts)))).
Proof.
  intros Hs. revert pre fuel. induction Hs as [|c d ts Hc Hs IH|b d ts Hno Hs IH]; intros pre fuel Hb Hl Hf;
    (destruct fuel as [|fuel]; [lia |]); cbn [find_invalid_pos_loop].
  - by rewrite app_nil_r, lookup_ge_None_2 by done.
  - apply scan_bytes_tail in Hb.
    etransitivity; [exact (scan_step (fun i _ => find_invalid_pos_loop fuel (pre ++ utf8 c ++ d) i) _ _ pre c d [] Hc Hb Hl) |].
    cbv beta. rewrite app_assoc, IH; [| done | by rewrite <- app_assoc |].
    + unfold all_chars. cbn [forallb valid_prefix flat_map]. rewrite (bool_decide_eq_true_2 (is_Some (Some c))) by eauto.
      by rewrite <- app_assoc.
    + rewrite length_app, utf8_length in Hf. lia.
  - destruct (valid_seq_bad pre b d Hno Hb Hl) as [Hge Hv].
    rewrite list_lookup_middle, (proj2 (Z.ltb_ge b _)), Hv by (done || lia). cbn [mbind option_bind Nat.eqb].
    unfold all_chars. cbn [forallb valid_prefix flat_map].
    rewrite (bool_decide_eq_false_2 (is_Some None)), app_nil_r by (intros [? [=]]). done.
Qed.

Lemma get_valid_data_loop_spec fuel pre d ts buf :
  scan d ts -> Forall is_byte d -> Z.of_nat (length (pre ++ d)) <= UINT32_MAX -> (length d < fuel)%nat ->
  get_valid_data_loop fuel (pre ++ d) (length pre) buf = Some (fold_left add_token ts buf).
Proof.
  intros Hs. revert pre fuel buf. induction Hs as [|c d ts Hc Hs IH|b d ts Hno Hs IH]; intros pre fuel buf Hb Hl Hf;
    (destruct fuel as [|fuel]; [lia |]); cbn [get_valid_data_loop fold_left add_token].
  - by rewrite app_nil_r, lookup_ge_None_2 by done.
  - apply scan_bytes_tail in Hb.
    etransitivity; [exact (scan_step (get_valid_data_loop fuel (pre ++ utf8 c ++ d)) _ _ pre c d buf Hc Hb Hl) |].
    rewrite app_assoc. apply IH; [done | by rewrite <- app_assoc |]. rewrite length_app, utf8_length in Hf. lia.
  - destruct (valid_seq_bad pre b d Hno Hb Hl) as [Hge Hv].
    rewrite list_lookup_middle, (proj2 (Z.ltb_ge b _)), Hv by (done || lia). cbn [mbind option_bind Nat.eqb].
    replace (length pre + 1)%nat with (length (pre ++ [b])) by (by rewrite length_app).
    apply Forall_cons in Hb as [_ Hb]. replace (pre ++ b :: d) with ((pre ++ [b]) ++ d) in * by (by rewrite <- app_assoc).
    apply IH; [done | done | simpl in Hf; lia].
Qed.

(** The data up to the first stray byte. *)
Lemma scan_split d ts : scan d ts -> all_chars ts = false ->
  exists b d' ts', ts = map Some (valid_prefix ts) ++ None :: ts' /\
    d = flat_map utf8 (valid_prefix ts) ++ b :: d' /\ scan d' ts'.
Proof.
  unfold all_chars. induction 1 as [|c d ts Hc H IH|b d ts Hno H IH]; cbn [forallb valid_prefix flat_map map app].
  - done.
  - rewrite (bool_decide_eq_true_2 (is_Some (Some c))) by eauto. intros (b & d' & ts' & Hts & Hd & Hs')%IH.
    exists b, d', ts'. rewrite <- app_assoc, <- Hts, <- Hd. auto.
  - intros _. exists b, d, ts. auto.
Qed.

Lemma fold_valid cs buf : fold_left add_token (map Some cs) buf = buf ++ flat_map utf8 cs.
Proof.
  revert buf. induction cs as [|c cs IH]; intros buf; cbn; [by rewrite app_nil_r |].
  by rewrite IH, <- app_assoc.
Qed.

Lemma uni_utf8_get_valid_data_spec input buf ts :
  scan input ts -> Forall is_byte input -> Z.of_nat (length input) <= UINT32_MAX ->
  uni_utf8_get_valid_data input buf =
  Some (if all_chars ts then (true, buf) else (false, fold_left add_token ts buf)).
Proof.
  intros Hs Hb Hl. unfold uni_utf8_get_valid_data, uni_utf8_find_invalid_pos.
  pose proof (find_invalid_pos_loop_spec (S (length input)) [] input ts Hs Hb Hl ltac:(lia)) as Hpos.
  cbn [app length] in Hpos. rewrite Hpos. cbn [mbind option_bind].
  destruct (all_chars ts) eqn:E; [done |].
  destruct (scan_split input ts Hs E) as (b & d' & ts' & Hts & Hd & Hs').
  set (cs := valid_prefix ts) in *. rewrite Hd at 1 2 3. rewrite take_app_length.
  replace (length (flat_map utf8 cs) + 1)%nat with (length (flat_map utf8 cs ++ [b])) by (by rewrite length_app).
  replace (flat_map utf8 cs ++ b :: d') with ((flat_map utf8 cs ++ [b]) ++ d') by (by rewrite <- app_assoc).
  rewrite (get_valid_data_loop_spec _ _ _ ts'); [| done | | |].
  - cbn [mbind option_bind]. do 2 f_equal. by rewrite Hts, fold_left_app, fold_valid.
  - rewrite Hd in Hb. apply Forall_app in Hb as [_ Hb]. by apply Forall_cons in Hb as [_ ?].
  - rewrite <- app_assoc. cbn [app]. by rewrite <- Hd.
  - rewrite !length_app. lia.
Qed.

(** Replacing keeps data valid. *)
Lemma add_token_valid buf t :
  valid_utf8 buf -> (forall c, t = Some c -> is_ucs4 c) -> valid_utf8 (add_token buf t).
Proof.
  intros (cs & Hcs & ->) Ht. destruct t as [c|]; cbn [add_token].
  - exists (cs ++ [c]). rewrite flat_map_app, Forall_app. cbn [flat_map]. rewrite app_nil_r. auto.
  - unfold output_add_replacement_char. case_match; [by exists cs |].
    exists (cs ++ [0xfffd]). rewrite flat_map_app, Forall_app. split; [| done].
    split; [done |]. repeat constructor; unfold is_ucs4; lia.
Qed.

Lemma fold_add_token_valid ts buf :
  valid_utf8 buf -> Forall (fun t => forall c, t = Some c -> is_ucs4 c) ts -> valid_utf8 (fold_left add_token ts buf).
Proof.
  intros Hb Hts. revert buf Hb. induction Hts as [|t ts Ht Hts IH]; intros buf Hb; cbn; [done |].
  apply IH. by apply add_token_valid.
Qed.

Lemma scan_chars d ts : scan d ts -> Forall (fun t => forall c, t = Some c -> is_ucs4 c) ts.
Proof. induction 1; constructor; congruence. Qed.

(** ** Conversion to code points *)

Lemma get_char_n_bad b d :
  (forall c rest, is_ucs4 c -> b :: d <> utf8 c ++ rest) -> Forall is_byte (b :: d) ->
  exists ret chr, uni_utf8_get_char_n (b :: d) (Z.of_nat (length (b :: d))) = Some (ret, chr) /\ ret <= 0.
Proof.
  intros Hno Hb. destruct (next_token (b :: d) Hb) as (ret & chr & Heq & [(_ & c & rest & _ & Hc & Hd) | [Hr _]]);
    [done | by exfalso; eapply Hno | eauto].
Qed.

(** A loop over characters in which the counter of a match is the decoder. *)
Lemma utf8_to_ucs4_n_loop_spec fuel d ts output :
  scan d ts -> Forall is_byte d -> (length d < fuel)%nat ->
  utf8_to_ucs4_n_loop fuel d output = Some (if all_chars ts then 0 else -1, output ++ valid_prefix ts).
Proof.
  intros Hs. revert fuel output. induction Hs as [|c d ts Hc Hs IH|b d ts Hno Hs IH]; intros fuel output Hb Hf;
    (destruct fuel as [|fuel]; [lia |]).
  - cbn. by rewrite app_nil_r.
  - destruct (utf8_head_bytes c Hc) as (b & t & Hu & Hcb). apply scan_bytes_tail in Hb.
    pose proof (get_char_n_utf8 c d (Z.of_nat (length (utf8 c ++ d))) Hc ltac:(rewrite length_app; lia)) as Hg.
    rewrite Hu in Hg. cbn [app] in Hg. rewrite Hu. cbn [app utf8_to_ucs4_n_loop]. rewrite Hg.
    cbn [mbind option_bind Z.leb Z.compare]. rewrite Hcb.
    change (b :: t ++ d) with ((b :: t) ++ d). rewrite <- Hu, length_app.
    rewrite assert_true by lia. cbn [mbind option_bind]. rewrite drop_app_length, IH, <- app_assoc.
    + unfold all_chars. cbn [forallb valid_prefix]. by rewrite (bool_decide_eq_true_2 (is_Some (Some c))) by eauto.
    + done.
    + rewrite length_app, utf8_length in Hf. lia.
  - destruct (get_char_n_bad b d Hno Hb) as (ret & chr & Hg & Hr). cbn [utf8_to_ucs4_n_loop]. rewrite Hg.
    cbn [mbind option_bind]. rewrite (proj2 (Z.leb_le _ _)) by done. cbn. by rewrite app_nil_r.
Qed.

(** In a C string the terminating NUL stops the decoder. *)
Lemma get_char_loop_nul k l c :
  (length l < k)%nat -> exists ret, get_char_loop k (l ++ [0]) c = Some (inr ret) /\ ret <= 0.
Proof.
  revert k c. induction l as [|b l IH]; intros k c Hk; (destruct k as [|k]; [simpl in Hk; lia |]); cbn.
  - by exists 0.
  - case_match; [eexists; split; [done | case_match; lia] |]. apply IH. simpl in Hk. lia.
Qed.

Lemma get_char_loop_app k l r c : (k <= length l)%nat -> get_char_loop k (l ++ r) c = get_char_loop k l c.
Proof.
  revert l c. induction k as [|k IH]; intros l c Hk; [done |].
  destruct l as [|b l]; [simpl in Hk; lia |]. cbn. case_match; [done |]. apply IH. simpl in Hk. lia.
Qed.

Lemma char_bytes_le b : (1 <= uni_utf8_char_bytes b <= 6)%nat.
Proof.
  unfold uni_utf8_char_bytes. case_match; [lia |].
  destruct (utf8_non1_bytes !! Z.to_nat (b - (192 + 2))) as [x|] eqn:E; [| simpl; lia].
  assert (Hall : forallb (fun x => (1 <=? x) && (x <=? 6)) utf8_non1_bytes = true) by reflexivity.
  rewrite forallb_forall in Hall. apply list_elem_of_lookup_2, list_elem_of_In, Hall in E. simpl. lia.
Qed.

(** Decoding from a C string is decoding from its bytes. *)
Lemma get_char_str b d :
  is_byte b -> Z.of_nat (length d) < 2 ^ 63 ->
  uni_utf8_get_char (b :: d) = uni_utf8_get_char_n (b :: d) (Z.of_nat (length (b :: d))) \/
  exists ret chr, uni_utf8_get_char (b :: d) = Some (ret, chr) /\ ret <= 0.
Proof.
  intros Hb Hd. unfold uni_utf8_get_char, uni_utf8_get_char_n. cbn [app length skipn].
  rewrite !assert_true by lia. cbn [lookup list_lookup mbind option_bind]. rewrite !drop_0.
  pose proof (char_bytes_le b). case_match; [by left |]. cbv zeta.
  pose proof (lead_byte_inv b Hb ltac:(lia)) as Hinv.
  destruct (first_mask (uni_utf8_char_bytes b)) as [mask|]; [| by left].
  destruct Hinv as (k & Hk & -> & _). rewrite (proj2 (Z.leb_le _ (2 ^ 64 - 1))) by lia.
  destruct (decide (k <= length d)%nat) as [Hle | Hgt].
  - left. rewrite (proj2 (Z.leb_le _ (Z.of_nat _))) by lia.
    destruct (lowest_valid_chr_table !! S k); [| done]. cbn [mbind option_bind].
    by rewrite get_char_loop_app by lia.
  - right. destruct (lowest_valid_chr_table !! S k) eqn:E.
    2: { apply lookup_ge_None_1 in E. simpl in E. lia. }
    cbn [mbind option_bind].
    destruct (get_char_loop_nul (S k - 1) d (Z.land b mask)) as (ret & -> & Hr); [lia |]. cbn. eauto.
Qed.

Lemma get_char_str_bad b d :
  (forall c rest, is_ucs4 c -> b :: d <> utf8 c ++ rest) -> Forall is_byte (b :: d) -> Z.of_nat (length d) < 2 ^ 63 ->
  exists ret chr, uni_utf8_get_char (b :: d) = Some (ret, chr) /\ ret <= 0.
Proof.
  intros Hno Hb Hl. destruct (get_char_str b d) as [-> | H]; [by apply Forall_inv in Hb | done | | done].
  by apply get_char_n_bad.
Qed.

Lemma utf8_to_ucs4_loop_spec fuel d ts output :
  scan d ts -> Forall is_byte d -> Z.of_nat (length d) < 2 ^ 63 -> (length d < fuel)%nat ->
  utf8_to_ucs4_loop fuel d output = Some (if all_chars ts then 0 else -1, output ++ valid_prefix ts).
Proof.
  intros Hs. revert fuel output. induction Hs as [|c d ts Hc Hs IH|b d ts Hno Hs IH]; intros fuel output Hb Hl Hf;
    (destruct fuel as [|fuel]; [lia |]).
  - cbn. by rewrite app_nil_r.
  - destruct (utf8_head_bytes c Hc) as (b & t & Hu & Hcb). apply scan_bytes_tail in Hb.
    rewrite length_app, utf8_length in Hl, Hf.
    assert (Hg : uni_utf8_get_char (utf8 c ++ d) = Some (1, Some c)).
    { unfold uni_utf8_get_char. rewrite <- app_assoc. apply get_char_n_utf8; [done |].
      rewrite utf8_length. destruct (class_spec c Hc). lia. }
    rewrite Hu in Hg. cbn [app] in Hg. rewrite Hu. cbn [app utf8_to_ucs4_loop]. rewrite Hg.
    cbn [mbind option_bind Z.leb Z.compare]. rewrite Hcb.
    change (b :: t ++ d) with ((b :: t) ++ d). rewrite <- Hu, length_app.
    rewrite assert_true by lia. cbn [mbind option_bind]. rewrite drop_app_length, IH, <- app_assoc by (done || lia).
    unfold all_chars. cbn [forallb valid_prefix]. by rewrite (bool_decide_eq_true_2 (is_Some (Some c))) by eauto.
  - destruct (get_char_str_bad b d Hno Hb) as (ret & chr & Hg & Hr); [simpl in Hl; lia |].
    cbn [utf8_to_ucs4_loop]. rewrite Hg.
    cbn [mbind option_bind]. rewrite (proj2 (Z.leb_le _ _)) by done. cbn. by rewrite app_nil_r.
Qed.

Lemma uni_ucs4_to_utf8_spec cs output :
  Forall (fun c => is_ucs4 c /\ c <> 0) cs -> uni_ucs4_to_utf8 cs output = Some (output ++ flat_map utf8 cs).
Proof.
  intros H. revert output. induction H as [|c cs [Hc Hz] H IH]; intros output; cbn; [by rewrite app_nil_r |].
  rewrite (proj2 (Z.eqb_neq _ _)), uni_ucs4_to_utf8_c_spec by done. cbn. rewrite IH. by rewrite <- app_assoc.
Qed.

Lemma scan_flat_map cs : Forall is_ucs4 cs -> scan (flat_map utf8 cs) (map Some cs).
Proof. induction 1; cbn [flat_map map]; by constructor. Qed.

Lemma flat_map_bytes cs : Forall is_ucs4 cs -> Forall is_byte (flat_map utf8 cs).
Proof. induction 1; cbn [flat_map]; [constructor |]. apply Forall_app. auto using utf8_bytes. Qed.

Lemma valid_prefix_all cs : valid_prefix (map Some cs) = cs /\ all_chars (map Some cs) = true.
Proof.
  unfold all_chars. induction cs as [|c cs [IH1 IH2]]; [done |].
  cbn [map valid_prefix forallb]. rewrite IH1, IH2. by rewrite (bool_decide_eq_true_2 (is_Some (Some c))) by eauto.
Qed.

(** ** Counting characters *)

Lemma partial_strlen_loop_spec fuel pre cs c k len :
  Forall is_ucs4 cs -> is_ucs4 c -> (k < length (utf8 c))%nat ->
  (length (flat_map utf8 cs ++ take k (utf8 c)) < fuel)%nat ->
  partial_strlen_loop fuel (pre ++ flat_map utf8 cs ++ take k (utf8 c)) (length pre) len =
  Some ((len + length cs)%nat, length (pre ++ flat_map utf8 cs)).
Proof.
  intros Hcs Hc Hk. revert pre fuel len. induction Hcs as [|c' cs Hc' Hcs IH]; intros pre fuel len Hf;
    (destruct fuel as [|fuel]; [lia |]); cbn [partial_strlen_loop].
  - cbn [flat_map app]. rewrite app_nil_r. destruct k as [|k].
    { cbn [firstn]. rewrite app_nil_r, lookup_ge_None_2 by done. do 2 f_equal; simpl; lia. }
    destruct (utf8_head_bytes c Hc) as (b & t & Hu & Hcb). rewrite Hu. cbn [firstn].
    rewrite list_lookup_middle by done. cbv zeta. rewrite Hcb, length_app.
    rewrite Hu in Hk |- *. cbn [length] in *. rewrite length_take.
    rewrite (proj2 (Nat.ltb_lt _ _)) by lia. do 2 f_equal; lia.
  - destruct (utf8_head_bytes c' Hc') as (b & t & Hu & Hcb). cbn [flat_map] in *. rewrite <- app_assoc in *.
    assert (Hl : (pre ++ utf8 c' ++ flat_map utf8 cs ++ take k (utf8 c)) !! length pre = Some b).
    { rewrite Hu. cbn [app]. by rewrite list_lookup_middle. }
    rewrite Hl. cbv zeta. rewrite Hcb. rewrite (proj2 (Nat.ltb_ge _ _)) by (rewrite !length_app; lia).
    specialize (IH (pre ++ utf8 c') fuel (len + 1)%nat). rewrite <- !app_assoc in IH.
    rewrite <- (length_app pre (utf8 c')), IH by (rewrite !length_app, utf8_length in Hf; rewrite !length_app; lia).
    do 2 f_equal. simpl. lia.
Qed.

(** ** Titlecase *)

(** What unicodemap.c provides: sorted keys with a value each, values that are
    code points, and multi-character values that end in a zero. *)
Definition ok_table (keys values : list Z) : Prop :=
  StronglySorted Z.lt keys /\ Z.of_nat (length keys) < INT_MAX /\ (length keys <= length values)%nat /\
  Forall is_ucs4 values.

Definition ok_multi (value : list Z) : Prop := exists cs rest, value = cs ++ 0 :: rest /\ Forall (fun c => is_ucs4 c /\ c <> 0) cs.

Record ok_unicodemap (t : unicodemap) : Prop := {
  ok_title8 : length (titlecase8_map t) = 256%nat /\ Forall is_ucs4 (titlecase8_map t);
  ok_title16 : ok_table (titlecase16_keys t) (titlecase16_values t);
  ok_title32 : ok_table (titlecase32_keys t) (titlecase32_values t);
  ok_decomp8 : length (uni8_decomp_map t) = 256%nat /\ Forall is_ucs4 (uni8_decomp_map t);
  ok_decomp16 : ok_table (uni16_decomp_keys t) (uni16_decomp_values t) /\ uni16_decomp_keys t <> [];
  ok_decomp32 : ok_table (uni32_decomp_keys t) (uni32_decomp_values t);
  ok_multi_keys : StronglySorted Z.lt (multidecomp_keys t) /\ Z.of_nat (length (multidecomp_keys t)) < INT_MAX /\
    multidecomp_keys t <> [] /\ (length (multidecomp_keys t) <= length (multidecomp_offsets t))%nat;
  ok_multi_values : Forall (fun off => ok_multi (drop (Z.to_nat off) (multidecomp_values t))) (multidecomp_offsets t)
}.

Lemma search_lookup {P : Z -> Prop} keys values v :
  StronglySorted Z.lt keys -> Z.of_nat (length keys) < INT_MAX -> (length keys <= length values)%nat -> Forall P values ->
  exists r, BINARY_NUMBER_SEARCH keys v = Some r /\
    match r with Some idx => exists x, values !! idx = Some x /\ P x | None => True end.
Proof.
  intros Hs Hn Hl Hv. destruct (BINARY_NUMERIC_SEARCH_spec id keys v Hs Hn) as (r & Hr & Hspec).
  exists r. split; [done |]. destruct r as [idx|]; [| done]. destruct Hspec as (p & Hp & _).
  destruct (lookup_lt_is_Some_2 values idx) as [x Hx]; [apply lookup_lt_Some in Hp; lia |].
  exists x. split; [done |]. by eapply Forall_lookup_1 in Hx.
Qed.

Lemma lookup_byte_map (P : Z -> Prop) values c :
  length values = 256%nat -> Forall P values -> 0 <= c <= 0xff -> exists x, values !! Z.to_nat c = Some x /\ P x.
Proof.
  intros Hl Hv Hc. destruct (lookup_lt_is_Some_2 values (Z.to_nat c)) as [x Hx]; [lia |].
  exists x. split; [done |]. by eapply Forall_lookup_1 in Hx.
Qed.

Section Titlecase.
Variable t : unicodemap.
Hypothesis Ht : ok_unicodemap t.

Lemma titlecase_total chr : is_ucs4 chr -> exists c, uni_ucs4_to_titlecase t chr = Some c /\ is_ucs4 c.
Proof.
  intros Hc. unfold uni_ucs4_to_titlecase, uint16_find, uint32_find.
  destruct (Z.leb_spec chr 0xff).
  { destruct (ok_title8 t Ht) as [Hl Hv]. destruct Hc. by apply lookup_byte_map. }
  destruct (ok_title16 t Ht) as (H1 & H2 & H3 & H4). destruct (ok_title32 t Ht) as (H5 & H6 & H7 & H8).
  destruct (Z.leb_spec chr 0xffff);
    [destruct (search_lookup _ _ chr H1 H2 H3 H4) as (r & -> & Hr) | destruct (search_lookup _ _ chr H5 H6 H7 H8) as (r & -> & Hr)];
    cbn [mbind option_bind]; destruct r; eauto.
Qed.

Lemma decompose_uni_total chr : is_ucs4 chr ->
  exists b c, uni_ucs4_decompose_uni t chr = Some (b, c) /\ is_ucs4 c.
Proof.
  intros Hc. unfold uni_ucs4_decompose_uni, uint16_find, uint32_find.
  destruct (Z.leb_spec chr 0xff).
  { destruct (ok_decomp8 t Ht) as [Hl Hv]. destruct (lookup_byte_map is_ucs4 _ chr Hl Hv) as (x & -> & Hx); [destruct Hc; lia |].
    cbn. case_match; eauto. }
  destruct (ok_decomp16 t Ht) as [(H1 & H2 & H3 & H4) Hne]. destruct (ok_decomp32 t Ht) as (H5 & H6 & H7 & H8).
  destruct (Z.leb_spec chr 0xffff).
  - destruct (uni16_decomp_keys t) as [|k0 ks] eqn:E; [done |]. rewrite <- E in *.
    replace (uni16_decomp_keys t !! 0%nat) with (Some k0) by (by rewrite E). cbn [mbind option_bind].
    case_match; [eauto |].
    destruct (search_lookup _ _ chr H1 H2 H3 H4) as (r & -> & Hr). cbn [mbind option_bind].
    destruct r; [destruct Hr as (x & -> & ?) |]; cbn; eauto.
  - destruct (search_lookup _ _ chr H5 H6 H7 H8) as (r & -> & Hr). cbn [mbind option_bind].
    destruct r; [destruct Hr as (x & -> & ?) |]; cbn; eauto.
Qed.

(** Appending keeps the output valid. *)
Definition appends (f : list Z -> option (list Z)) : Prop :=
  forall output, valid_utf8 output -> exists output', f output = Some output' /\ valid_utf8 output'.

Lemma to_utf8_appends c : is_ucs4 c -> appends (uni_ucs4_to_utf8_c c).
Proof.
  intros Hc output Ho. eexists. split; [by apply uni_ucs4_to_utf8_c_spec |].
  apply (add_token_valid output (Some c)); [done | congruence].
Qed.

Lemma multidecomp_appends value : ok_multi value -> appends (multidecomp_loop value).
Proof.
  intros (cs & rest & -> & Hcs) output. revert output.
  induction Hcs as [|c cs [Hc Hz] Hcs IH]; intros output Ho; cbn; [eauto |].
  rewrite (proj2 (Z.eqb_neq _ _)) by done. destruct (to_utf8_appends c Hc output Ho) as (o' & -> & Ho').
  cbn. by apply IH.
Qed.

Lemma hangul_appends chr : HANGUL_FIRST <= chr <= HANGUL_LAST -> appends (uni_ucs4_decompose_hangul_utf8 chr).
Proof.
  unfold HANGUL_FIRST, HANGUL_LAST. intros Hc output Ho. unfold uni_ucs4_decompose_hangul_utf8, HANGUL_FIRST. cbv zeta.
  rewrite u32_small by (unfold is_u32; lia).
  edestruct (to_utf8_appends (0x1100 + (chr - 0xac00) / (21 * 28))) as (o1 & -> & Ho1);
    [unfold is_ucs4; Z.div_mod_to_equations; lia | exact Ho |]. cbn [mbind option_bind].
  edestruct (to_utf8_appends (0x1161 + (chr - 0xac00) mod (21 * 28) / 28)) as (o2 & -> & Ho2);
    [unfold is_ucs4; Z.div_mod_to_equations; lia | exact Ho1 |]. cbn [mbind option_bind].
  case_match; [| eauto]. apply to_utf8_appends; [| done]. unfold is_ucs4. Z.div_mod_to_equations; lia.
Qed.

Lemma titlecase_char_appends chr : is_ucs4 chr -> appends (titlecase_char t chr).
Proof.
  intros Hc output Ho. unfold titlecase_char. destruct (titlecase_total chr Hc) as (c & -> & Hc').
  cbn [mbind option_bind]. destruct ((c >=? HANGUL_FIRST) && (c <=? HANGUL_LAST)) eqn:E.
  { apply hangul_appends; [lia | done]. }
  destruct (decompose_uni_total c Hc') as (b & c2 & -> & Hc2). cbn [mbind option_bind].
  destruct b; [by apply to_utf8_appends |]. unfold uni_ucs4_decompose_multi_utf8.
  destruct (ok_multi_keys t Ht) as (H1 & H2 & Hne & H3). pose proof (ok_multi_values t Ht) as H4.
  destruct (multidecomp_keys t) as [|k0 ks] eqn:Ek; [done |]. rewrite <- Ek in *.
  replace (multidecomp_keys t !! 0%nat) with (Some k0) by (by rewrite Ek). cbn [mbind option_bind].
  case_match; [by apply to_utf8_appends |]. unfold uint32_find.
  destruct (search_lookup _ _ c2 H1 H2 H3 H4) as (r & -> & Hr). cbn [mbind option_bind].
  destruct r as [idx|]; [| by apply to_utf8_appends]. destruct Hr as (off & -> & Hoff). cbn [mbind option_bind].
  destruct (multidecomp_appends _ Hoff output Ho) as (o' & -> & Ho'). cbn. eauto.
Qed.

Lemma decomposed_titlecase_loop_spec fuel d ts ret output :
  scan d ts -> Forall is_byte d -> (length d < fuel)%nat -> valid_utf8 output ->
  exists output', decomposed_titlecase_loop fuel t d ret output = Some (if all_chars ts then ret else -1, output') /\
    valid_utf8 output'.
Proof.
  intros Hs. revert fuel ret output. induction Hs as [|c d ts Hc Hs IH|b d ts Hno Hs IH]; intros fuel ret output Hb Hf Ho;
    (destruct fuel as [|fuel]; [lia |]).
  - cbn. eauto.
  - destruct (utf8_head_bytes c Hc) as (b & t' & Hu & Hcb). apply scan_bytes_tail in Hb.
    pose proof (get_char_n_utf8 c d (Z.of_nat (length (utf8 c ++ d))) Hc ltac:(rewrite length_app; lia)) as Hg.
    rewrite Hu in Hg. cbn [app] in Hg. rewrite Hu. cbn [app decomposed_titlecase_loop]. rewrite Hg.
    cbn [mbind option_bind Z.leb Z.compare]. rewrite Hcb.
    change (b :: t' ++ d) with ((b :: t') ++ d). rewrite <- Hu, length_app.
    rewrite assert_true by lia. cbn [mbind option_bind]. rewrite drop_app_length.
    destruct (titlecase_char_appends c Hc output Ho) as (o' & -> & Ho'). cbn [mbind option_bind].
    unfold all_chars. cbn [forallb]. rewrite (bool_decide_eq_true_2 (is_Some (Some c))) by eauto.
    apply IH; [done | rewrite length_app, utf8_length in Hf; lia | done].
  - destruct (get_char_n_bad b d Hno Hb) as (r & chr & Hg & Hr). cbn [decomposed_titlecase_loop]. rewrite Hg.
    cbn [mbind option_bind]. rewrite (proj2 (Z.leb_le _ _)) by done. apply Forall_cons in Hb as [_ Hb].
    destruct (IH fuel (-1) (output_add_replacement_char output)) as (o' & -> & Ho'); [done | simpl in Hf; lia | |].
    { by apply (add_token_valid output None). }
    exists o'. unfold all_chars. cbn [forallb]. rewrite (bool_decide_eq_false_2 (is_Some None)) by (intros [? [=]]).
    split; [cbn [andb]; by destruct (forallb _ ts) | done].
Qed.
End Titlecase.

(** ** Properties *)

(** The decoder inverts the encoder: every code point below 2^31 that
    [uni_ucs4_to_utf8_c] writes is read back by [uni_utf8_get_char_n],
    whatever follows it, its first byte tells its length, and when only some
    of its bytes are there the result is 0, not an error. *)
Theorem utf8_roundtrip chr rest n :
  is_ucs4 chr -> (0 < n)%nat ->
  exists l, uni_ucs4_to_utf8_c chr [] = Some l /\
    uni_utf8_get_char_n (l ++ rest) (Z.of_nat (length (l ++ rest))) = Some (1, Some chr) /\
    uni_utf8_get_char (l ++ rest) = Some (1, Some chr) /\
    (exists b t, l = b :: t /\ uni_utf8_char_bytes b = length l) /\
    ((n < length l)%nat -> exists c, uni_utf8_get_char_n (take n l) (Z.of_nat n) = Some (0, c)).
Proof.
  intros Hc Hn. exists (utf8 chr). rewrite uni_ucs4_to_utf8_c_spec by done. split_and!; [done | | | |].
  - apply get_char_n_utf8; [done |]. rewrite length_app. lia.
  - unfold uni_utf8_get_char. rewrite <- app_assoc. apply get_char_n_utf8; [done |].
    rewrite utf8_length. destruct (class_spec chr Hc). lia.
  - by apply utf8_head_bytes.
  - intros Hlt. pose proof (get_char_n_partial chr n [] Hc) as H. rewrite app_nil_r in H. by apply H.
Qed.

Lemma utf8_roundtrip_witness : is_ucs4 0x20ac /\
  exists l, uni_ucs4_to_utf8_c 0x20ac [] = Some l /\ uni_utf8_get_char_n (l ++ [65]) (Z.of_nat (length (l ++ [65]))) = Some (1, Some 0x20ac).
Proof.
  assert (H : is_ucs4 0x20ac) by (split; [discriminate | reflexivity]). split; [exact H |].
  destruct (utf8_roundtrip 0x20ac [65] 1 H ltac:(lia)) as (l & H1 & H2 & _). exists l. split; assumption.
Defined.

(** C19: the decoder always returns on data with the bytes it is told of, and
    it accepts nothing but the encoder's output: no overlong form, no stray
    or missing continuation byte. *)
Theorem utf8_decode_canonical input max_len :
  Forall is_byte input -> 0 < max_len <= Z.of_nat (length input) ->
  exists ret chr, uni_utf8_get_char_n input max_len = Some (ret, chr) /\
    (ret = 0 \/ ret = -1 \/
     ret = 1 /\ exists c l rest, chr = Some c /\ uni_ucs4_to_utf8_c c [] = Some l /\ input = l ++ rest /\
       Z.of_nat (length l) <= max_len).
Proof.
  intros Hb Hm. destruct (get_char_n_inv input max_len Hb Hm) as (ret & chr & Heq & Hcase).
  exists ret, chr. split; [done |]. destruct Hcase as [? | [? | (? & c & rest & ? & Hc & ? & ?)]]; [auto | auto |].
  right; right. split; [done |]. exists c, (utf8 c), rest. by rewrite uni_ucs4_to_utf8_c_spec.
Qed.

Lemma utf8_decode_canonical_witness :
  exists ret chr, uni_utf8_get_char_n [0xc3; 0xa4; 65] 3 = Some (ret, chr) /\ ret = 1.
Proof.
  destruct (utf8_decode_canonical [0xc3; 0xa4; 65] 3) as (ret & chr & Heq & _);
    [repeat constructor; discriminate | split; [reflexivity | discriminate] |].
  exists ret, chr. split; [exact Heq |]. vm_compute in Heq. congruence.
Defined.

(** Strings of non-zero code points survive the conversion to UTF-8 and
    back, as data and as C strings; and on any bytes the conversion returns -1
    exactly when the data is not valid UTF-8, with the characters before the
    first stray byte. *)
Theorem ucs4_string_roundtrip cs input :
  Forall (fun c => is_ucs4 c /\ c <> 0) cs -> Forall is_byte input -> Z.of_nat (length (flat_map utf8 cs)) < 2 ^ 63 ->
  (exists d, uni_ucs4_to_utf8 cs [] = Some d /\ uni_utf8_to_ucs4_n d [] = Some (0, cs) /\
    uni_utf8_to_ucs4 d [] = Some (0, cs) /\ uni_utf8_strlen d = Some (length cs)) /\
  exists ts, scan input ts /\
    uni_utf8_to_ucs4_n input [] = Some (if all_chars ts then 0 else -1, valid_prefix ts) /\
    (all_chars ts = true <-> valid_utf8 input).
Proof.
  intros Hcs Hb Hl. assert (Hu : Forall is_ucs4 cs) by (eapply Forall_impl; [exact Hcs |]; naive_solver).
  destruct (valid_prefix_all cs) as [Hp Ha]. split.
  - exists (flat_map utf8 cs). rewrite uni_ucs4_to_utf8_spec by done. split; [done |].
    unfold uni_utf8_to_ucs4_n, uni_utf8_to_ucs4, uni_utf8_strlen, uni_utf8_strlen_n, uni_utf8_partial_strlen_n.
    rewrite (utf8_to_ucs4_n_loop_spec _ _ (map Some cs)), (utf8_to_ucs4_loop_spec _ _ (map Some cs)), Hp, Ha
      by auto using scan_flat_map, flat_map_bytes.
    split_and!; [done | done |].
    pose proof (partial_strlen_loop_spec (S (length (flat_map utf8 cs))) [] cs 0 0 0 Hu) as Hs.
    cbn [firstn app length Nat.add] in Hs. rewrite app_nil_r in Hs. rewrite Hs; [done | unfold is_ucs4; lia | | lia].
    rewrite utf8_length. lia.
  - destruct (scan_exists _ input (le_n _) Hb) as (ts & Hts). exists ts. split; [done |].
    unfold uni_utf8_to_ucs4_n. rewrite (utf8_to_ucs4_n_loop_spec _ _ ts) by auto. split; [done |].
    by apply scan_valid.
Qed.

Lemma ucs4_string_roundtrip_witness :
  exists d, uni_ucs4_to_utf8 [65; 0xe4; 0x1f600] [] = Some d /\ uni_utf8_to_ucs4_n d [] = Some (0, [65; 0xe4; 0x1f600]).
Proof.
  destruct (ucs4_string_roundtrip [65; 0xe4; 0x1f600] []) as [(d & H1 & H2 & _) _];
    [repeat constructor; unfold is_ucs4; discriminate | constructor | reflexivity |].
  exists d. split; assumption.
Defined.

(** [uni_utf8_get_valid_data] returns TRUE and writes nothing when the
    data is valid UTF-8, and otherwise writes the data read as characters and
    stray bytes, each run of stray bytes replaced by U+FFFD; what it writes
    behind a valid buffer is valid UTF-8.  The data is less than 4 GB. *)
Theorem get_valid_data_correct input buf :
  Forall is_byte input -> Z.of_nat (length input) <= UINT32_MAX ->
  exists ts, scan input ts /\ (all_chars ts = true <-> valid_utf8 input) /\
    uni_utf8_data_is_valid input = Some (all_chars ts) /\
    uni_utf8_get_valid_data input buf =
      Some (if all_chars ts then (true, buf) else (false, fold_left add_token ts buf)) /\
    (valid_utf8 buf -> valid_utf8 (fold_left add_token ts buf)).
Proof.
  intros Hb Hl. destruct (scan_exists _ input (le_n _) Hb) as (ts & Hts). exists ts.
  split_and!; [done | by apply scan_valid | | by apply uni_utf8_get_valid_data_spec |].
  - unfold uni_utf8_data_is_valid, uni_utf8_find_invalid_pos.
    pose proof (find_invalid_pos_loop_spec (S (length input)) [] input ts Hts Hb Hl ltac:(lia)) as H.
    cbn [app length] in H. rewrite H. cbn [mbind option_bind]. by destruct (all_chars ts).
  - intros Hbuf. apply fold_add_token_valid; [done |]. by eapply scan_chars.
Qed.

Lemma get_valid_data_correct_witness :
  Forall is_byte [65; 0xff; 0xfe; 66] /\ uni_utf8_get_valid_data [65; 0xff; 0xfe; 66] [] = Some (false, [65; 0xef; 0xbf; 0xbd; 66]).
Proof.
  assert (H : Forall is_byte [65; 0xff; 0xfe; 66]) by (repeat constructor; discriminate).
  split; [exact H |]. destruct (get_valid_data_correct [65; 0xff; 0xfe; 66] [] H) as (ts & _ & _ & _ & Heq & _); [discriminate |].
  vm_compute uni_utf8_get_valid_data. reflexivity.
Defined.

(** The validity test receives the size as [unsigned int]: at a position
    that has a multiple of 2^32 bytes (and at least one) behind it, a
    multi-byte character fails the decoder's assertion on its size. *)
Theorem valid_seq_size_wraps input k :
  is_valid_utf8_seq input (k * 2 ^ 32) = None.
Proof.
  unfold is_valid_utf8_seq, uni_utf8_get_char_n, u32. change 4294967296 with (2 ^ 32).
  by rewrite Z.mod_mul by lia.
Qed.

