(* ===== verification/UnicodeMap.v ===== *)
(** * The case and decomposition tables (src/src/lib/unicodemap.c)

    The arrays of the generated file, in its order, as the record of tables
    that the functions of unichar.c read. *)

From S2P Require Import Prelude Unichar.

Definition c_titlecase8_map : list Z :=
  [0; 1; 2; 3; 4; 5; 6; 7; 8; 9; 10; 11; 12; 13; 14; 15;
   16; 17; 18; 19; 20; 21; 22; 23; 24; 25; 26; 27; 28; 29; 30; 31;
   32; 33; 34; 35; 36; 37; 38; 39; 40; 41; 42; 43; 44; 45; 46; 47;
   48; 49; 50; 51; 52; 53; 54; 55; 56; 57; 58; 59; 60; 61; 62; 63;
   64; 65; 66; 67; 68; 69; 70; 71; 72; 73; 74; 75; 76; 77; 78; 79;
   80; 81; 82; 83; 84; 85; 86; 87; 88; 89; 90; 91; 92; 93; 94; 95;
   96; 65; 66; 67; 68; 69; 70; 71; 72; 73; 74; 75; 76; 77; 78; 79;
   80; 81; 82; 83; 84; 85; 86; 87; 88; 89; 90; 123; 124; 125; 126; 127;
   128; 129; 130; 131; 132; 133; 134; 135; 136; 137; 138; 139; 140; 141; 142; 143;
   144; 145; 146; 147; 148; 149; 150; 151; 152; 153; 154; 155; 156; 157; 158; 159;
   160; 161; 162; 163; 164; 165; 166; 167; 168; 169; 170; 171; 172; 173; 174; 175;
   176; 177; 178; 179; 180; 924; 182; 183; 184; 185; 186; 187; 188; 189; 190; 191;
   192; 193; 194; 195; 196; 197; 198; 199; 200; 201; 202; 203; 204; 205; 206; 207;
   208; 209; 210; 211; 212; 213; 214; 215; 216; 217; 218; 219; 220; 221; 222; 223;
   192; 193; 194; 195; 196; 197; 198; 199; 200; 201; 202; 203; 204; 205; 206; 207;
   208; 209; 210; 211; 212; 213; 214; 247; 216; 217; 218; 219; 220; 221; 222; 376].

Definition c_titlecase16_keys : list Z :=
  [257; 259; 261; 263; 265; 267; 269; 271; 273; 275; 277; 279; 281; 283; 285; 287;
   289; 291; 293; 295; 297; 299; 301; 303; 305; 307; 309; 311; 314; 316; 318; 320;
   322; 324; 326; 328; 331; 333; 335; 337; 339; 341; 343; 345; 347; 349; 351; 353;
   355; 357; 359; 361; 363; 365; 367; 369; 371; 373; 375; 378; 380; 382; 383; 384;
   387; 389; 392; 396; 402; 405; 409; 410; 414; 417; 419; 421; 424; 429; 432; 436;
   438; 441; 445; 447; 452; 454; 455; 457; 458; 460; 462; 464; 466; 468; 470; 472;
   474; 476; 477; 479; 481; 483; 485; 487; 489; 491; 493; 495; 497; 499; 501; 505;
   507; 509; 511; 513; 515; 517; 519; 521; 523; 525; 527; 529; 531; 533; 535; 537;
   539; 541; 543; 547; 549; 551; 553; 555; 557; 559; 561; 563; 572; 575; 576; 578;
   583; 585; 587; 589; 591; 592; 593; 594; 595; 596; 598; 599; 601; 603; 608; 611;
   613; 614; 616; 617; 619; 623; 625; 626; 629; 637; 640; 643; 648; 649; 650; 651;
   652; 658; 837; 881; 883; 887; 891; 892; 893; 940; 941; 942; 943; 945; 946; 947;
   948; 949; 950; 951; 952; 953; 954; 955; 956; 957; 958; 959; 960; 961; 962; 963;
   964; 965; 966; 967; 968; 969; 970; 971; 972; 973; 974; 976; 977; 981; 982; 983;
   985; 987; 989; 991; 993; 995; 997; 999; 1001; 1003; 1005; 1007; 1008; 1009; 1010; 1013;
   1016; 1019; 1072; 1073; 1074; 1075; 1076; 1077; 1078; 1079; 1080; 1081; 1082; 1083; 1084; 1085;
   1086; 1087; 1088; 1089; 1090; 1091; 1092; 1093; 1094; 1095; 1096; 1097; 1098; 1099; 1100; 1101;
   1102; 1103; 1104; 1105; 1106; 1107; 1108; 1109; 1110; 1111; 1112; 1113; 1114; 1115; 1116; 1117;
   1118; 1119; 1121; 1123; 1125; 1127; 1129; 1131; 1133; 1135; 1137; 1139; 1141; 1143; 1145; 1147;
   1149; 1151; 1153; 1163; 1165; 1167; 1169; 1171; 1173; 1175; 1177; 1179; 1181; 1183; 1185; 1187;
   1189; 1191; 1193; 1195; 1197; 1199; 1201; 1203; 1205; 1207; 1209; 1211; 1213; 1215; 1218; 1220;
   1222; 1224; 1226; 1228; 1230; 1231; 1233; 1235; 1237; 1239; 1241; 1243; 1245; 1247; 1249; 1251;
   1253; 1255; 1257; 1259; 1261; 1263; 1265; 1267; 1269; 1271; 1273; 1275; 1277; 1279; 1281; 1283;
   1285; 1287; 1289; 1291; 1293; 1295; 1297; 1299; 1301; 1303; 1305; 1307; 1309; 1311; 1313; 1315;
   1317; 1319; 1377; 1378; 1379; 1380; 1381; 1382; 1383; 1384; 1385; 1386; 1387; 1388; 1389; 1390;
   1391; 1392; 1393; 1394; 1395; 1396; 1397; 1398; 1399; 1400; 1401; 1402; 1403; 1404; 1405; 1406;
   1407; 1408; 1409; 1410; 1411; 1412; 1413; 1414; 7545; 7549; 7681; 7683; 7685; 7687; 7689; 7691;
   7693; 7695; 7697; 7699; 7701; 7703; 7705; 7707; 7709; 7711; 7713; 7715; 7717; 7719; 7721; 7723;
   7725; 7727; 7729; 7731; 7733; 7735; 7737; 7739; 7741; 7743; 7745; 7747; 7749; 7751; 7753; 7755;
   7757; 7759; 7761; 7763; 7765; 7767; 7769; 7771; 7773; 7775; 7777; 7779; 7781; 7783; 7785; 7787;
   7789; 7791; 7793; 7795; 7797; 7799; 7801; 7803; 7805; 7807; 7809; 7811; 7813; 7815; 7817; 7819;
   7821; 7823; 7825; 7827; 7829; 7835; 7841; 7843; 7845; 7847; 7849; 7851; 7853; 7855; 7857; 7859;
   7861; 7863; 7865; 7867; 7869; 7871; 7873; 7875; 7877; 7879; 7881; 7883; 7885; 7887; 7889; 7891;
   7893; 7895; 7897; 7899; 7901; 7903; 7905; 7907; 7909; 7911; 7913; 7915; 7917; 7919; 7921; 7923;
   7925; 7927; 7929; 7931; 7933; 7935; 7936; 7937; 7938; 7939; 7940; 7941; 7942; 7943; 7952; 7953;
   7954; 7955; 7956; 7957; 7968; 7969; 7970; 7971; 7972; 7973; 7974; 7975; 7984; 7985; 7986; 7987;
   7988; 7989; 7990; 7991; 8000; 8001; 8002; 8003; 8004; 8005; 8017; 8019; 8021; 8023; 8032; 8033;
   8034; 8035; 8036; 8037; 8038; 8039; 8048; 8049; 8050; 8051; 8052; 8053; 8054; 8055; 8056; 8057;
   8058; 8059; 8060; 8061; 8064; 8065; 8066; 8067; 8068; 8069; 8070; 8071; 8080; 8081; 8082; 8083;
   8084; 8085; 8086; 8087; 8096; 8097; 8098; 8099; 8100; 8101; 8102; 8103; 8112; 8113; 8115; 8126;
   8131; 8144; 8145; 8160; 8161; 8165; 8179; 8526; 8560; 8561; 8562; 8563; 8564; 8565; 8566; 8567;
   8568; 8569; 8570; 8571; 8572; 8573; 8574; 8575; 8580; 9424; 9425; 9426; 9427; 9428; 9429; 9430;
   9431; 9432; 9433; 9434; 9435; 9436; 9437; 9438; 9439; 9440; 9441; 9442; 9443; 9444; 9445; 9446;
   9447; 9448; 9449; 11312; 11313; 11314; 11315; 11316; 11317; 11318; 11319; 11320; 11321; 11322; 11323; 11324;
   11325; 11326; 11327; 11328; 11329; 11330; 11331; 11332; 11333; 11334; 11335; 11336; 11337; 11338; 11339; 11340;
   11341; 11342; 11343; 11344; 11345; 11346; 11347; 11348; 11349; 11350; 11351; 11352; 11353; 11354; 11355; 11356;
   11357; 11358; 11361; 11365; 11366; 11368; 11370; 11372; 11379; 11382; 11393; 11395; 11397; 11399; 11401; 11403;
   11405; 11407; 11409; 11411; 11413; 11415; 11417; 11419; 11421; 11423; 11425; 11427; 11429; 11431; 11433; 11435;
   11437; 11439; 11441; 11443; 11445; 11447; 11449; 11451; 11453; 11455; 11457; 11459; 11461; 11463; 11465; 11467;
   11469; 11471; 11473; 11475; 11477; 11479; 11481; 11483; 11485; 11487; 11489; 11491; 11500; 11502; 11507; 11520;
   11521; 11522; 11523; 11524; 11525; 11526; 11527; 11528; 11529; 11530; 11531; 11532; 11533; 11534; 11535; 11536;
   11537; 11538; 11539; 11540; 11541; 11542; 11543; 11544; 11545; 11546; 11547; 11548; 11549; 11550; 11551; 11552;
   11553; 11554; 11555; 11556; 11557; 11559; 11565; 42561; 42563; 42565; 42567; 42569; 42571; 42573; 42575; 42577;
   42579; 42581; 42583; 42585; 42587; 42589; 42591; 42593; 42595; 42597; 42599; 42601; 42603; 42605; 42625; 42627;
   42629; 42631; 42633; 42635; 42637; 42639; 42641; 42643; 42645; 42647; 42787; 42789; 42791; 42793; 42795; 42797;
   42799; 42803; 42805; 42807; 42809; 42811; 42813; 42815; 42817; 42819; 42821; 42823; 42825; 42827; 42829; 42831;
   42833; 42835; 42837; 42839; 42841; 42843; 42845; 42847; 42849; 42851; 42853; 42855; 42857; 42859; 42861; 42863;
   42874; 42876; 42879; 42881; 42883; 42885; 42887; 42892; 42897; 42899; 42913; 42915; 42917; 42919; 42921; 65345;
   65346; 65347; 65348; 65349; 65350; 65351; 65352; 65353; 65354; 65355; 65356; 65357; 65358; 65359; 65360; 65361;
   65362; 65363; 65364; 65365; 65366; 65367; 65368; 65369; 65370].

Definition c_titlecase16_values : list Z :=
  [256; 258; 260; 262; 264; 266; 268; 270; 272; 274; 276; 278; 280; 282; 284; 286;
   288; 290; 292; 294; 296; 298; 300; 302; 73; 306; 308; 310; 313; 315; 317; 319;
   321; 323; 325; 327; 330; 332; 334; 336; 338; 340; 342; 344; 346; 348; 350; 352;
   354; 356; 358; 360; 362; 364; 366; 368; 370; 372; 374; 377; 379; 381; 83; 579;
   386; 388; 391; 395; 401; 502; 408; 573; 544; 416; 418; 420; 423; 428; 431; 435;
   437; 440; 444; 503; 453; 453; 456; 456; 459; 459; 461; 463; 465; 467; 469; 471;
   473; 475; 398; 478; 480; 482; 484; 486; 488; 490; 492; 494; 498; 498; 500; 504;
   506; 508; 510; 512; 514; 516; 518; 520; 522; 524; 526; 528; 530; 532; 534; 536;
   538; 540; 542; 546; 548; 550; 552; 554; 556; 558; 560; 562; 571; 11390; 11391; 577;
   582; 584; 586; 588; 590; 11375; 11373; 11376; 385; 390; 393; 394; 399; 400; 403; 404;
   42893; 42922; 407; 406; 11362; 412; 11374; 413; 415; 11364; 422; 425; 430; 580; 433; 434;
   581; 439; 921; 880; 882; 886; 1021; 1022; 1023; 902; 904; 905; 906; 913; 914; 915;
   916; 917; 918; 919; 920; 921; 922; 923; 924; 925; 926; 927; 928; 929; 931; 931;
   932; 933; 934; 935; 936; 937; 938; 939; 908; 910; 911; 914; 920; 934; 928; 975;
   984; 986; 988; 990; 992; 994; 996; 998; 1000; 1002; 1004; 1006; 922; 929; 1017; 917;
   1015; 1018; 1040; 1041; 1042; 1043; 1044; 1045; 1046; 1047; 1048; 1049; 1050; 1051; 1052; 1053;
   1054; 1055; 1056; 1057; 1058; 1059; 1060; 1061; 1062; 1063; 1064; 1065; 1066; 1067; 1068; 1069;
   1070; 1071; 1024; 1025; 1026; 1027; 1028; 1029; 1030; 1031; 1032; 1033; 1034; 1035; 1036; 1037;
   1038; 1039; 1120; 1122; 1124; 1126; 1128; 1130; 1132; 1134; 1136; 1138; 1140; 1142; 1144; 1146;
   1148; 1150; 1152; 1162; 1164; 1166; 1168; 1170; 1172; 1174; 1176; 1178; 1180; 1182; 1184; 1186;
   1188; 1190; 1192; 1194; 1196; 1198; 1200; 1202; 1204; 1206; 1208; 1210; 1212; 1214; 1217; 1219;
   1221; 1223; 1225; 1227; 1229; 1216; 1232; 1234; 1236; 1238; 1240; 1242; 1244; 1246; 1248; 1250;
   1252; 1254; 1256; 1258; 1260; 1262; 1264; 1266; 1268; 1270; 1272; 1274; 1276; 1278; 1280; 1282;
   1284; 1286; 1288; 1290; 1292; 1294; 1296; 1298; 1300; 1302; 1304; 1306; 1308; 1310; 1312; 1314;
   1316; 1318; 1329; 1330; 1331; 1332; 1333; 1334; 1335; 1336; 1337; 1338; 1339; 1340; 1341; 1342;
   1343; 1344; 1345; 1346; 1347; 1348; 1349; 1350; 1351; 1352; 1353; 1354; 1355; 1356; 1357; 1358;
   1359; 1360; 1361; 1362; 1363; 1364; 1365; 1366; 42877; 11363; 7680; 7682; 7684; 7686; 7688; 7690;
   7692; 7694; 7696; 7698; 7700; 7702; 7704; 7706; 7708; 7710; 7712; 7714; 7716; 7718; 7720; 7722;
   7724; 7726; 7728; 7730; 7732; 7734; 7736; 7738; 7740; 7742; 7744; 7746; 7748; 7750; 7752; 7754;
   7756; 7758; 7760; 7762; 7764; 7766; 7768; 7770; 7772; 7774; 7776; 7778; 7780; 7782; 7784; 7786;
   7788; 7790; 7792; 7794; 7796; 7798; 7800; 7802; 7804; 7806; 7808; 7810; 7812; 7814; 7816; 7818;
   7820; 7822; 7824; 7826; 7828; 7776; 7840; 7842; 7844; 7846; 7848; 7850; 7852; 7854; 7856; 7858;
   7860; 7862; 7864; 7866; 7868; 7870; 7872; 7874; 7876; 7878; 7880; 7882; 7884; 7886; 7888; 7890;
   7892; 7894; 7896; 7898; 7900; 7902; 7904; 7906; 7908; 7910; 7912; 7914; 7916; 7918; 7920; 7922;
   7924; 7926; 7928; 7930; 7932; 7934; 7944; 7945; 7946; 7947; 7948; 7949; 7950; 7951; 7960; 7961;
   7962; 7963; 7964; 7965; 7976; 7977; 7978; 7979; 7980; 7981; 7982; 7983; 7992; 7993; 7994; 7995;
   7996; 7997; 7998; 7999; 8008; 8009; 8010; 8011; 8012; 8013; 8025; 8027; 8029; 8031; 8040; 8041;
   8042; 8043; 8044; 8045; 8046; 8047; 8122; 8123; 8136; 8137; 8138; 8139; 8154; 8155; 8184; 8185;
   8170; 8171; 8186; 8187; 8072; 8073; 8074; 8075; 8076; 8077; 8078; 8079; 8088; 8089; 8090; 8091;
   8092; 8093; 8094; 8095; 8104; 8105; 8106; 8107; 8108; 8109; 8110; 8111; 8120; 8121; 8124; 921;
   8140; 8152; 8153; 8168; 8169; 8172; 8188; 8498; 8544; 8545; 8546; 8547; 8548; 8549; 8550; 8551;
   8552; 8553; 8554; 8555; 8556; 8557; 8558; 8559; 8579; 9398; 9399; 9400; 9401; 9402; 9403; 9404;
   9405; 9406; 9407; 9408; 9409; 9410; 9411; 9412; 9413; 9414; 9415; 9416; 9417; 9418; 9419; 9420;
   9421; 9422; 9423; 11264; 11265; 11266; 11267; 11268; 11269; 11270; 11271; 11272; 11273; 11274; 11275; 11276;
   11277; 11278; 11279; 11280; 11281; 11282; 11283; 11284; 11285; 11286; 11287; 11288; 11289; 11290; 11291; 11292;
   11293; 11294; 11295; 11296; 11297; 11298; 11299; 11300; 11301; 11302; 11303; 11304; 11305; 11306; 11307; 11308;
   11309; 11310; 11360; 570; 574; 11367; 11369; 11371; 11378; 11381; 11392; 11394; 11396; 11398; 11400; 11402;
   11404; 11406; 11408; 11410; 11412; 11414; 11416; 11418; 11420; 11422; 11424; 11426; 11428; 11430; 11432; 11434;
   11436; 11438; 11440; 11442; 11444; 11446; 11448; 11450; 11452; 11454; 11456; 11458; 11460; 11462; 11464; 11466;
   11468; 11470; 11472; 11474; 11476; 11478; 11480; 11482; 11484; 11486; 11488; 11490; 11499; 11501; 11506; 4256;
   4257; 4258; 4259; 4260; 4261; 4262; 4263; 4264; 4265; 4266; 4267; 4268; 4269; 4270; 4271; 4272;
   4273; 4274; 4275; 4276; 4277; 4278; 4279; 4280; 4281; 4282; 4283; 4284; 4285; 4286; 4287; 4288;
   4289; 4290; 4291; 4292; 4293; 4295; 4301; 42560; 42562; 42564; 42566; 42568; 42570; 42572; 42574; 42576;
   42578; 42580; 42582; 42584; 42586; 42588; 42590; 42592; 42594; 42596; 42598; 42600; 42602; 42604; 42624; 42626;
   42628; 42630; 42632; 42634; 42636; 42638; 42640; 42642; 42644; 42646; 42786; 42788; 42790; 42792; 42794; 42796;
   42798; 42802; 42804; 42806; 42808; 42810; 42812; 42814; 42816; 42818; 42820; 42822; 42824; 42826; 42828; 42830;
   42832; 42834; 42836; 42838; 42840; 42842; 42844; 42846; 42848; 42850; 42852; 42854; 42856; 42858; 42860; 42862;
   42873; 42875; 42878; 42880; 42882; 42884; 42886; 42891; 42896; 42898; 42912; 42914; 42916; 42918; 42920; 65313;
   65314; 65315; 65316; 65317; 65318; 65319; 65320; 65321; 65322; 65323; 65324; 65325; 65326; 65327; 65328; 65329;
   65330; 65331; 65332; 65333; 65334; 65335; 65336; 65337; 65338].

Definition c_titlecase32_keys : list Z :=
  [66600; 66601; 66602; 66603; 66604; 66605; 66606; 66607; 66608; 66609; 66610; 66611; 66612; 66613; 66614; 66615;
   66616; 66617; 66618; 66619; 66620; 66621; 66622; 66623; 66624; 66625; 66626; 66627; 66628; 66629; 66630; 66631;
   66632; 66633; 66634; 66635; 66636; 66637; 66638; 66639].

Definition c_titlecase32_values : list Z :=
  [66560; 66561; 66562; 66563; 66564; 66565; 66566; 66567; 66568; 66569; 66570; 66571; 66572; 66573; 66574; 66575;
   66576; 66577; 66578; 66579; 66580; 66581; 66582; 66583; 66584; 66585; 66586; 66587; 66588; 66589; 66590; 66591;
   66592; 66593; 66594; 66595; 66596; 66597; 66598; 66599].

Definition c_uni8_decomp_map : list Z :=
  [0; 1; 2; 3; 4; 5; 6; 7; 8; 9; 10; 11; 12; 13; 14; 15;
   16; 17; 18; 19; 20; 21; 22; 23; 24; 25; 26; 27; 28; 29; 30; 31;
   32; 33; 34; 35; 36; 37; 38; 39; 40; 41; 42; 43; 44; 45; 46; 47;
   48; 49; 50; 51; 52; 53; 54; 55; 56; 57; 58; 59; 60; 61; 62; 63;
   64; 65; 66; 67; 68; 69; 70; 71; 72; 73; 74; 75; 76; 77; 78; 79;
   80; 81; 82; 83; 84; 85; 86; 87; 88; 89; 90; 91; 92; 93; 94; 95;
   96; 97; 98; 99; 100; 101; 102; 103; 104; 105; 106; 107; 108; 109; 110; 111;
   112; 113; 114; 115; 116; 117; 118; 119; 120; 121; 122; 123; 124; 125; 126; 127;
   128; 129; 130; 131; 132; 133; 134; 135; 136; 137; 138; 139; 140; 141; 142; 143;
   144; 145; 146; 147; 148; 149; 150; 151; 152; 153; 154; 155; 156; 157; 158; 159;
   32; 161; 162; 163; 164; 165; 166; 167; 168; 169; 97; 171; 172; 173; 174; 175;
   176; 177; 50; 51; 180; 181; 182; 183; 184; 49; 111; 187; 188; 189; 190; 191;
   192; 193; 194; 195; 196; 197; 198; 199; 200; 201; 202; 203; 204; 205; 206; 207;
   208; 209; 210; 211; 212; 213; 214; 215; 216; 217; 218; 219; 220; 221; 222; 223;
   224; 225; 226; 227; 228; 229; 230; 231; 232; 233; 234; 235; 236; 237; 238; 239;
   240; 241; 242; 243; 244; 245; 246; 247; 248; 249; 250; 251; 252; 253; 254; 255].

Definition c_uni16_decomp_keys : list Z :=
  [688; 689; 690; 691; 692; 693; 694; 695; 696; 736; 737; 738; 739; 740; 832; 833;
   835; 884; 894; 903; 978; 1012; 1017; 3852; 4348; 7468; 7469; 7470; 7472; 7473; 7474; 7475;
   7476; 7477; 7478; 7479; 7480; 7481; 7482; 7484; 7485; 7486; 7487; 7488; 7489; 7490; 7491; 7492;
   7493; 7494; 7495; 7496; 7497; 7498; 7499; 7500; 7501; 7503; 7504; 7505; 7506; 7507; 7508; 7509;
   7510; 7511; 7512; 7513; 7514; 7515; 7516; 7517; 7518; 7519; 7520; 7521; 7522; 7523; 7524; 7525;
   7526; 7527; 7528; 7529; 7530; 7544; 7579; 7580; 7581; 7582; 7583; 7584; 7585; 7586; 7587; 7588;
   7589; 7590; 7591; 7592; 7593; 7594; 7595; 7596; 7597; 7598; 7599; 7600; 7601; 7602; 7603; 7604;
   7605; 7606; 7607; 7608; 7609; 7610; 7611; 7612; 7613; 7614; 7615; 8123; 8137; 8139; 8147; 8155;
   8163; 8171; 8174; 8175; 8185; 8187; 8189; 8192; 8193; 8194; 8195; 8196; 8197; 8198; 8199; 8200;
   8201; 8202; 8209; 8228; 8239; 8287; 8304; 8305; 8308; 8309; 8310; 8311; 8312; 8313; 8314; 8315;
   8316; 8317; 8318; 8319; 8320; 8321; 8322; 8323; 8324; 8325; 8326; 8327; 8328; 8329; 8330; 8331;
   8332; 8333; 8334; 8336; 8337; 8338; 8339; 8340; 8341; 8342; 8343; 8344; 8345; 8346; 8347; 8348;
   8450; 8455; 8458; 8459; 8460; 8461; 8462; 8463; 8464; 8465; 8466; 8467; 8469; 8473; 8474; 8475;
   8476; 8477; 8484; 8486; 8488; 8490; 8491; 8492; 8493; 8495; 8496; 8497; 8499; 8500; 8501; 8502;
   8503; 8504; 8505; 8508; 8509; 8510; 8511; 8512; 8517; 8518; 8519; 8520; 8521; 8544; 8548; 8553;
   8556; 8557; 8558; 8559; 9001; 9002; 9312; 9313; 9314; 9315; 9316; 9317; 9318; 9319; 9320; 9398;
   9399; 9400; 9401; 9402; 9403; 9404; 9405; 9406; 9407; 9408; 9409; 9410; 9411; 9412; 9413; 9414;
   9415; 9416; 9417; 9418; 9419; 9420; 9421; 9422; 9423; 9450; 11388; 11389; 11631; 11935; 12019; 12032;
   12033; 12034; 12035; 12036; 12037; 12038; 12039; 12040; 12041; 12042; 12043; 12044; 12045; 12046; 12047; 12048;
   12049; 12050; 12051; 12052; 12053; 12054; 12055; 12056; 12057; 12058; 12059; 12060; 12061; 12062; 12063; 12064;
   12065; 12066; 12067; 12068; 12069; 12070; 12071; 12072; 12073; 12074; 12075; 12076; 12077; 12078; 12079; 12080;
   12081; 12082; 12083; 12084; 12085; 12086; 12087; 12088; 12089; 12090; 12091; 12092; 12093; 12094; 12095; 12096;
   12097; 12098; 12099; 12100; 12101; 12102; 12103; 12104; 12105; 12106; 12107; 12108; 12109; 12110; 12111; 12112;
   12113; 12114; 12115; 12116; 12117; 12118; 12119; 12120; 12121; 12122; 12123; 12124; 12125; 12126; 12127; 12128;
   12129; 12130; 12131; 12132; 12133; 12134; 12135; 12136; 12137; 12138; 12139; 12140; 12141; 12142; 12143; 12144;
   12145; 12146; 12147; 12148; 12149; 12150; 12151; 12152; 12153; 12154; 12155; 12156; 12157; 12158; 12159; 12160;
   12161; 12162; 12163; 12164; 12165; 12166; 12167; 12168; 12169; 12170; 12171; 12172; 12173; 12174; 12175; 12176;
   12177; 12178; 12179; 12180; 12181; 12182; 12183; 12184; 12185; 12186; 12187; 12188; 12189; 12190; 12191; 12192;
   12193; 12194; 12195; 12196; 12197; 12198; 12199; 12200; 12201; 12202; 12203; 12204; 12205; 12206; 12207; 12208;
   12209; 12210; 12211; 12212; 12213; 12214; 12215; 12216; 12217; 12218; 12219; 12220; 12221; 12222; 12223; 12224;
   12225; 12226; 12227; 12228; 12229; 12230; 12231; 12232; 12233; 12234; 12235; 12236; 12237; 12238; 12239; 12240;
   12241; 12242; 12243; 12244; 12245; 12288; 12342; 12344; 12345; 12346; 12593; 12594; 12595; 12596; 12597; 12598;
   12599; 12600; 12601; 12602; 12603; 12604; 12605; 12606; 12607; 12608; 12609; 12610; 12611; 12612; 12613; 12614;
   12615; 12616; 12617; 12618; 12619; 12620; 12621; 12622; 12623; 12624; 12625; 12626; 12627; 12628; 12629; 12630;
   12631; 12632; 12633; 12634; 12635; 12636; 12637; 12638; 12639; 12640; 12641; 12642; 12643; 12644; 12645; 12646;
   12647; 12648; 12649; 12650; 12651; 12652; 12653; 12654; 12655; 12656; 12657; 12658; 12659; 12660; 12661; 12662;
   12663; 12664; 12665; 12666; 12667; 12668; 12669; 12670; 12671; 12672; 12673; 12674; 12675; 12676; 12677; 12678;
   12679; 12680; 12681; 12682; 12683; 12684; 12685; 12686; 12690; 12691; 12692; 12693; 12694; 12695; 12696; 12697;
   12698; 12699; 12700; 12701; 12702; 12703; 12868; 12869; 12870; 12871; 12896; 12897; 12898; 12899; 12900; 12901;
   12902; 12903; 12904; 12905; 12906; 12907; 12908; 12909; 12928; 12929; 12930; 12931; 12932; 12933; 12934; 12935;
   12936; 12937; 12938; 12939; 12940; 12941; 12942; 12943; 12944; 12945; 12946; 12947; 12948; 12949; 12950; 12951;
   12952; 12953; 12954; 12955; 12956; 12957; 12958; 12959; 12960; 12961; 12962; 12963; 12964; 12965; 12966; 12967;
   12968; 12969; 12970; 12971; 12972; 12973; 12974; 12975; 12976; 13008; 13009; 13010; 13011; 13012; 13013; 13014;
   13015; 13016; 13017; 13018; 13019; 13020; 13021; 13022; 13023; 13024; 13025; 13026; 13027; 13028; 13029; 13030;
   13031; 13032; 13033; 13034; 13035; 13036; 13037; 13038; 13039; 13040; 13041; 13042; 13043; 13044; 13045; 13046;
   13047; 13048; 13049; 13050; 13051; 13052; 13053; 13054; 42864; 43000; 43001; 63744; 63745; 63746; 63747; 63748;
   63749; 63750; 63751; 63752; 63753; 63754; 63755; 63756; 63757; 63758; 63759; 63760; 63761; 63762; 63763; 63764;
   63765; 63766; 63767; 63768; 63769; 63770; 63771; 63772; 63773; 63774; 63775; 63776; 63777; 63778; 63779; 63780;
   63781; 63782; 63783; 63784; 63785; 63786; 63787; 63788; 63789; 63790; 63791; 63792; 63793; 63794; 63795; 63796;
   63797; 63798; 63799; 63800; 63801; 63802; 63803; 63804; 63805; 63806; 63807; 63808; 63809; 63810; 63811; 63812;
   63813; 63814; 63815; 63816; 63817; 63818; 63819; 63820; 63821; 63822; 63823; 63824; 63825; 63826; 63827; 63828;
   63829; 63830; 63831; 63832; 63833; 63834; 63835; 63836; 63837; 63838; 63839; 63840; 63841; 63842; 63843; 63844;
   63845; 63846; 63847; 63848; 63849; 63850; 63851; 63852; 63853; 63854; 63855; 63856; 63857; 63858; 63859; 63860;
   63861; 63862; 63863; 63864; 63865; 63866; 63867; 63868; 63869; 63870; 63871; 63872; 63873; 63874; 63875; 63876;
   63877; 63878; 63879; 63880; 63881; 63882; 63883; 63884; 63885; 63886; 63887; 63888; 63889; 63890; 63891; 63892;
   63893; 63894; 63895; 63896; 63897; 63898; 63899; 63900; 63901; 63902; 63903; 63904; 63905; 63906; 63907; 63908;
   63909; 63910; 63911; 63912; 63913; 63914; 63915; 63916; 63917; 63918; 63919; 63920; 63921; 63922; 63923; 63924;
   63925; 63926; 63927; 63928; 63929; 63930; 63931; 63932; 63933; 63934; 63935; 63936; 63937; 63938; 63939; 63940;
   63941; 63942; 63943; 63944; 63945; 63946; 63947; 63948; 63949; 63950; 63951; 63952; 63953; 63954; 63955; 63956;
   63957; 63958; 63959; 63960; 63961; 63962; 63963; 63964; 63965; 63966; 63967; 63968; 63969; 63970; 63971; 63972;
   63973; 63974; 63975; 63976; 63977; 63978; 63979; 63980; 63981; 63982; 63983; 63984; 63985; 63986; 63987; 63988;
   63989; 63990; 63991; 63992; 63993; 63994; 63995; 63996; 63997; 63998; 63999; 64000; 64001; 64002; 64003; 64004;
   64005; 64006; 64007; 64008; 64009; 64010; 64011; 64012; 64013; 64016; 64018; 64021; 64022; 64023; 64024; 64025;
   64026; 64027; 64028; 64029; 64030; 64032; 64034; 64037; 64038; 64042; 64043; 64044; 64045; 64046; 64047; 64048;
   64049; 64050; 64051; 64052; 64053; 64054; 64055; 64056; 64057; 64058; 64059; 64060; 64061; 64062; 64063; 64064;
   64065; 64066; 64067; 64068; 64069; 64070; 64071; 64072; 64073; 64074; 64075; 64076; 64077; 64078; 64079; 64080;
   64081; 64082; 64083; 64084; 64085; 64086; 64087; 64088; 64089; 64090; 64091; 64092; 64093; 64094; 64095; 64096;
   64097; 64098; 64099; 64100; 64101; 64102; 64103; 64104; 64105; 64106; 64107; 64108; 64109; 64112; 64113; 64114;
   64115; 64116; 64117; 64118; 64119; 64120; 64121; 64122; 64123; 64124; 64125; 64126; 64127; 64128; 64129; 64130;
   64131; 64132; 64133; 64134; 64135; 64136; 64137; 64138; 64139; 64140; 64141; 64142; 64143; 64144; 64145; 64146;
   64147; 64148; 64149; 64150; 64151; 64152; 64153; 64154; 64155; 64156; 64157; 64158; 64159; 64160; 64161; 64162;
   64163; 64164; 64165; 64166; 64167; 64168; 64169; 64170; 64171; 64172; 64173; 64174; 64175; 64176; 64177; 64178;
   64179; 64180; 64181; 64182; 64183; 64184; 64185; 64186; 64187; 64188; 64189; 64190; 64191; 64192; 64193; 64194;
   64195; 64196; 64197; 64198; 64199; 64200; 64201; 64202; 64203; 64204; 64205; 64206; 64207; 64208; 64209; 64210;
   64211; 64212; 64213; 64214; 64215; 64216; 64217; 64288; 64289; 64290; 64291; 64292; 64293; 64294; 64295; 64296;
   64297; 64336; 64337; 64338; 64339; 64340; 64341; 64342; 64343; 64344; 64345; 64346; 64347; 64348; 64349; 64350;
   64351; 64352; 64353; 64354; 64355; 64356; 64357; 64358; 64359; 64360; 64361; 64362; 64363; 64364; 64365; 64366;
   64367; 64368; 64369; 64370; 64371; 64372; 64373; 64374; 64375; 64376; 64377; 64378; 64379; 64380; 64381; 64382;
   64383; 64384; 64385; 64386; 64387; 64388; 64389; 64390; 64391; 64392; 64393; 64394; 64395; 64396; 64397; 64398;
   64399; 64400; 64401; 64402; 64403; 64404; 64405; 64406; 64407; 64408; 64409; 64410; 64411; 64412; 64413; 64414;
   64415; 64416; 64417; 64418; 64419; 64420; 64421; 64422; 64423; 64424; 64425; 64426; 64427; 64428; 64429; 64430;
   64431; 64432; 64433; 64467; 64468; 64469; 64470; 64471; 64472; 64473; 64474; 64475; 64476; 64477; 64478; 64479;
   64480; 64481; 64482; 64483; 64484; 64485; 64486; 64487; 64488; 64489; 64508; 64509; 64510; 64511; 65040; 65041;
   65042; 65043; 65044; 65045; 65046; 65047; 65048; 65049; 65072; 65073; 65074; 65075; 65076; 65077; 65078; 65079;
   65080; 65081; 65082; 65083; 65084; 65085; 65086; 65087; 65088; 65089; 65090; 65091; 65092; 65095; 65096; 65097;
   65098; 65099; 65100; 65101; 65102; 65103; 65104; 65105; 65106; 65108; 65109; 65110; 65111; 65112; 65113; 65114;
   65115; 65116; 65117; 65118; 65119; 65120; 65121; 65122; 65123; 65124; 65125; 65126; 65128; 65129; 65130; 65131;
   65152; 65153; 65154; 65155; 65156; 65157; 65158; 65159; 65160; 65161; 65162; 65163; 65164; 65165; 65166; 65167;
   65168; 65169; 65170; 65171; 65172; 65173; 65174; 65175; 65176; 65177; 65178; 65179; 65180; 65181; 65182; 65183;
   65184; 65185; 65186; 65187; 65188; 65189; 65190; 65191; 65192; 65193; 65194; 65195; 65196; 65197; 65198; 65199;
   65200; 65201; 65202; 65203; 65204; 65205; 65206; 65207; 65208; 65209; 65210; 65211; 65212; 65213; 65214; 65215;
   65216; 65217; 65218; 65219; 65220; 65221; 65222; 65223; 65224; 65225; 65226; 65227; 65228; 65229; 65230; 65231;
   65232; 65233; 65234; 65235; 65236; 65237; 65238; 65239; 65240; 65241; 65242; 65243; 65244; 65245; 65246; 65247;
   65248; 65249; 65250; 65251; 65252; 65253; 65254; 65255; 65256; 65257; 65258; 65259; 65260; 65261; 65262; 65263;
   65264; 65265; 65266; 65267; 65268; 65281; 65282; 65283; 65284; 65285; 65286; 65287; 65288; 65289; 65290; 65291;
   65292; 65293; 65294; 65295; 65296; 65297; 65298; 65299; 65300; 65301; 65302; 65303; 65304; 65305; 65306; 65307;
   65308; 65309; 65310; 65311; 65312; 65313; 65314; 65315; 65316; 65317; 65318; 65319; 65320; 65321; 65322; 65323;
   65324; 65325; 65326; 65327; 65328; 65329; 65330; 65331; 65332; 65333; 65334; 65335; 65336; 65337; 65338; 65339;
   65340; 65341; 65342; 65343; 65344; 65371; 65372; 65373; 65374; 65375; 65376; 65377; 65378; 65379; 65380; 65381;
   65382; 65383; 65384; 65385; 65386; 65387; 65388; 65389; 65390; 65391; 65392; 65393; 65394; 65395; 65396; 65397;
   65398; 65399; 65400; 65401; 65402; 65403; 65404; 65405; 65406; 65407; 65408; 65409; 65410; 65411; 65412; 65413;
   65414; 65415; 65416; 65417; 65418; 65419; 65420; 65421; 65422; 65423; 65424; 65425; 65426; 65427; 65428; 65429;
   65430; 65431; 65432; 65433; 65434; 65435; 65436; 65437; 65438; 65439; 65440; 65441; 65442; 65443; 65444; 65445;
   65446; 65447; 65448; 65449; 65450; 65451; 65452; 65453; 65454; 65455; 65456; 65457; 65458; 65459; 65460; 65461;
   65462; 65463; 65464; 65465; 65466; 65467; 65468; 65469; 65470; 65474; 65475; 65476; 65477; 65478; 65479; 65482;
   65483; 65484; 65485; 65486; 65487; 65490; 65491; 65492; 65493; 65494; 65495; 65498; 65499; 65500; 65504; 65505;
   65506; 65507; 65508; 65509; 65510; 65512; 65513; 65514; 65515; 65516; 65517; 65518].

Definition c_uni16_decomp_values : list Z :=
  [104; 614; 106; 114; 633; 635; 641; 119; 121; 611; 108; 115; 120; 661; 768; 769;
   787; 697; 59; 183; 933; 920; 931; 3851; 4316; 65; 198; 66; 68; 69; 398; 71;
   72; 73; 74; 75; 76; 77; 78; 79; 546; 80; 82; 84; 85; 87; 97; 592;
   593; 7426; 98; 100; 101; 601; 603; 604; 103; 107; 109; 331; 111; 596; 7446; 7447;
   112; 116; 117; 7453; 623; 118; 7461; 946; 947; 948; 966; 967; 105; 114; 117; 118;
   946; 947; 961; 966; 967; 1085; 594; 99; 597; 240; 604; 102; 607; 609; 613; 616;
   617; 618; 7547; 669; 621; 7557; 671; 625; 624; 626; 627; 628; 629; 632; 642; 643;
   427; 649; 650; 7452; 651; 652; 122; 656; 657; 658; 952; 902; 904; 905; 912; 906;
   944; 910; 901; 96; 908; 911; 180; 8194; 8195; 32; 32; 32; 32; 32; 32; 32;
   32; 32; 8208; 46; 32; 32; 48; 105; 52; 53; 54; 55; 56; 57; 43; 8722;
   61; 40; 41; 110; 48; 49; 50; 51; 52; 53; 54; 55; 56; 57; 43; 8722;
   61; 40; 41; 97; 101; 111; 120; 601; 104; 107; 108; 109; 110; 112; 115; 116;
   67; 400; 103; 72; 72; 72; 104; 295; 73; 73; 76; 108; 78; 80; 81; 82;
   82; 82; 90; 937; 90; 75; 197; 66; 67; 101; 69; 70; 77; 111; 1488; 1489;
   1490; 1491; 105; 960; 947; 915; 928; 8721; 68; 100; 101; 105; 106; 73; 86; 88;
   76; 67; 68; 77; 12296; 12297; 49; 50; 51; 52; 53; 54; 55; 56; 57; 65;
   66; 67; 68; 69; 70; 71; 72; 73; 74; 75; 76; 77; 78; 79; 80; 81;
   82; 83; 84; 85; 86; 87; 88; 89; 90; 48; 106; 86; 11617; 27597; 40863; 19968;
   20008; 20022; 20031; 20057; 20101; 20108; 20128; 20154; 20799; 20837; 20843; 20866; 20886; 20907; 20960; 20981;
   20992; 21147; 21241; 21269; 21274; 21304; 21313; 21340; 21353; 21378; 21430; 21448; 21475; 22231; 22303; 22763;
   22786; 22794; 22805; 22823; 22899; 23376; 23424; 23544; 23567; 23586; 23608; 23662; 23665; 24027; 24037; 24049;
   24062; 24178; 24186; 24191; 24308; 24318; 24331; 24339; 24400; 24417; 24435; 24515; 25096; 25142; 25163; 25903;
   25908; 25991; 26007; 26020; 26041; 26080; 26085; 26352; 26376; 26408; 27424; 27490; 27513; 27571; 27595; 27604;
   27611; 27663; 27668; 27700; 28779; 29226; 29238; 29243; 29247; 29255; 29273; 29275; 29356; 29572; 29577; 29916;
   29926; 29976; 29983; 29992; 30000; 30091; 30098; 30326; 30333; 30382; 30399; 30446; 30683; 30690; 30707; 31034;
   31160; 31166; 31348; 31435; 31481; 31859; 31992; 32566; 32593; 32650; 32701; 32769; 32780; 32786; 32819; 32895;
   32905; 33251; 33258; 33267; 33276; 33292; 33307; 33311; 33390; 33394; 33400; 34381; 34411; 34880; 34892; 34915;
   35198; 35211; 35282; 35328; 35895; 35910; 35925; 35960; 35997; 36196; 36208; 36275; 36523; 36554; 36763; 36784;
   36789; 37009; 37193; 37318; 37324; 37329; 38263; 38272; 38428; 38582; 38585; 38632; 38737; 38750; 38754; 38761;
   38859; 38893; 38899; 38913; 39080; 39131; 39135; 39318; 39321; 39340; 39592; 39640; 39647; 39717; 39727; 39730;
   39740; 39770; 40165; 40565; 40575; 40613; 40635; 40643; 40653; 40657; 40697; 40701; 40718; 40723; 40736; 40763;
   40778; 40786; 40845; 40860; 40864; 32; 12306; 21313; 21316; 21317; 4352; 4353; 4522; 4354; 4524; 4525;
   4355; 4356; 4357; 4528; 4529; 4530; 4531; 4532; 4533; 4378; 4358; 4359; 4360; 4385; 4361; 4362;
   4363; 4364; 4365; 4366; 4367; 4368; 4369; 4370; 4449; 4450; 4451; 4452; 4453; 4454; 4455; 4456;
   4457; 4458; 4459; 4460; 4461; 4462; 4463; 4464; 4465; 4466; 4467; 4468; 4469; 4448; 4372; 4373;
   4551; 4552; 4556; 4558; 4563; 4567; 4569; 4380; 4573; 4575; 4381; 4382; 4384; 4386; 4387; 4391;
   4393; 4395; 4396; 4397; 4398; 4399; 4402; 4406; 4416; 4423; 4428; 4593; 4594; 4439; 4440; 4441;
   4484; 4485; 4488; 4497; 4498; 4500; 4510; 4513; 19968; 20108; 19977; 22235; 19978; 20013; 19979; 30002;
   20057; 19993; 19969; 22825; 22320; 20154; 21839; 24188; 25991; 31631; 4352; 4354; 4355; 4357; 4358; 4359;
   4361; 4363; 4364; 4366; 4367; 4368; 4369; 4370; 19968; 20108; 19977; 22235; 20116; 20845; 19971; 20843;
   20061; 21313; 26376; 28779; 27700; 26408; 37329; 22303; 26085; 26666; 26377; 31038; 21517; 29305; 36001; 31069;
   21172; 31192; 30007; 22899; 36969; 20778; 21360; 27880; 38917; 20241; 20889; 27491; 19978; 20013; 19979; 24038;
   21491; 21307; 23447; 23398; 30435; 20225; 36039; 21332; 22812; 12450; 12452; 12454; 12456; 12458; 12459; 12461;
   12463; 12465; 12467; 12469; 12471; 12473; 12475; 12477; 12479; 12481; 12484; 12486; 12488; 12490; 12491; 12492;
   12493; 12494; 12495; 12498; 12501; 12504; 12507; 12510; 12511; 12512; 12513; 12514; 12516; 12518; 12520; 12521;
   12522; 12523; 12524; 12525; 12527; 12528; 12529; 12530; 42863; 294; 339; 35912; 26356; 36554; 36040; 28369;
   20018; 21477; 40860; 40860; 22865; 37329; 21895; 22856; 25078; 30313; 32645; 34367; 34746; 35064; 37007; 27138;
   27931; 28889; 29662; 33853; 37226; 39409; 20098; 21365; 27396; 29211; 34349; 40478; 23888; 28651; 34253; 35172;
   25289; 33240; 34847; 24266; 26391; 28010; 29436; 37070; 20358; 20919; 21214; 25796; 27347; 29200; 30439; 32769;
   34310; 34396; 36335; 38706; 39791; 40442; 30860; 31103; 32160; 33737; 37636; 40575; 35542; 22751; 24324; 31840;
   32894; 29282; 30922; 36034; 38647; 22744; 23650; 27155; 28122; 28431; 32047; 32311; 38475; 21202; 32907; 20956;
   20940; 31260; 32190; 33777; 38517; 35712; 25295; 27138; 35582; 20025; 23527; 24594; 29575; 30064; 21271; 30971;
   20415; 24489; 19981; 27852; 25976; 32034; 21443; 22622; 30465; 33865; 35498; 27578; 36784; 27784; 25342; 33509;
   25504; 30053; 20142; 20841; 20937; 26753; 31975; 33391; 35538; 37327; 21237; 21570; 22899; 24300; 26053; 28670;
   31018; 38317; 39530; 40599; 40654; 21147; 26310; 27511; 36706; 24180; 24976; 25088; 25754; 28451; 29001; 29833;
   31178; 32244; 32879; 36646; 34030; 36899; 37706; 21015; 21155; 21693; 28872; 35010; 35498; 24265; 24565; 25467;
   27566; 31806; 29557; 20196; 22265; 23527; 23994; 24604; 29618; 29801; 32666; 32838; 37428; 38646; 38728; 38936;
   20363; 31150; 37300; 38584; 24801; 20102; 20698; 23534; 23615; 26009; 27138; 29134; 30274; 34044; 36988; 40845;
   26248; 38446; 21129; 26491; 26611; 27969; 28316; 29705; 30041; 30827; 32016; 39006; 20845; 25134; 38520; 20523;
   23833; 28138; 36650; 24459; 24900; 26647; 29575; 38534; 21033; 21519; 23653; 26131; 26446; 26792; 27877; 29702;
   30178; 32633; 35023; 35041; 37324; 38626; 21311; 28346; 21533; 29136; 29848; 34298; 38563; 40023; 40607; 26519;
   28107; 33256; 31435; 31520; 31890; 29376; 28825; 35672; 20160; 33590; 21050; 20999; 24230; 25299; 31958; 23429;
   27934; 26292; 36667; 34892; 38477; 35211; 24275; 20800; 21952; 22618; 26228; 20958; 29482; 30410; 31036; 31070;
   31077; 31119; 38742; 31934; 32701; 34322; 35576; 36920; 37117; 39151; 39164; 39208; 40372; 37086; 38583; 20398;
   20711; 20813; 21193; 21220; 21329; 21917; 22022; 22120; 22592; 22696; 23652; 23662; 24724; 24936; 24974; 25074;
   25935; 26082; 26257; 26757; 28023; 28186; 28450; 29038; 29227; 29730; 30865; 31038; 31049; 31048; 31056; 31062;
   31069; 31117; 31118; 31296; 31361; 31680; 32244; 32265; 32321; 32626; 32773; 33261; 33401; 33401; 33879; 35088;
   35222; 35585; 35641; 36051; 36104; 36790; 36920; 38627; 38911; 38971; 24693; 148206; 33304; 20006; 20917; 20840;
   20352; 20805; 20864; 21191; 21242; 21917; 21845; 21913; 21986; 22618; 22707; 22852; 22868; 23138; 23336; 24274;
   24281; 24425; 24493; 24792; 24910; 24840; 24974; 24928; 25074; 25140; 25540; 25628; 25682; 25942; 26228; 26391;
   26395; 26454; 27513; 27578; 27969; 28379; 28363; 28450; 28702; 29038; 30631; 29237; 29359; 29482; 29809; 29958;
   30011; 30237; 30239; 30410; 30427; 30452; 30538; 30528; 30924; 31409; 31680; 31867; 32091; 32244; 32574; 32773;
   33618; 33775; 34681; 35137; 35206; 35222; 35519; 35576; 35531; 35585; 35582; 35565; 35641; 35722; 36104; 36664;
   36978; 37273; 37494; 38524; 38627; 38742; 38875; 38911; 38923; 38971; 39698; 40860; 141386; 141380; 144341; 15261;
   16408; 16441; 152137; 154832; 163539; 40771; 40846; 1506; 1488; 1491; 1492; 1499; 1500; 1501; 1512; 1514;
   43; 1649; 1649; 1659; 1659; 1659; 1659; 1662; 1662; 1662; 1662; 1664; 1664; 1664; 1664; 1658;
   1658; 1658; 1658; 1663; 1663; 1663; 1663; 1657; 1657; 1657; 1657; 1700; 1700; 1700; 1700; 1702;
   1702; 1702; 1702; 1668; 1668; 1668; 1668; 1667; 1667; 1667; 1667; 1670; 1670; 1670; 1670; 1671;
   1671; 1671; 1671; 1677; 1677; 1676; 1676; 1678; 1678; 1672; 1672; 1688; 1688; 1681; 1681; 1705;
   1705; 1705; 1705; 1711; 1711; 1711; 1711; 1715; 1715; 1715; 1715; 1713; 1713; 1713; 1713; 1722;
   1722; 1723; 1723; 1723; 1723; 1728; 1728; 1729; 1729; 1729; 1729; 1726; 1726; 1726; 1726; 1746;
   1746; 1747; 1747; 1709; 1709; 1709; 1709; 1735; 1735; 1734; 1734; 1736; 1736; 1655; 1739; 1739;
   1733; 1733; 1737; 1737; 1744; 1744; 1744; 1744; 1609; 1609; 1740; 1740; 1740; 1740; 44; 12289;
   12290; 58; 59; 33; 63; 12310; 12311; 8230; 8229; 8212; 8211; 95; 95; 40; 41; 123;
   125; 12308; 12309; 12304; 12305; 12298; 12299; 12296; 12297; 12300; 12301; 12302; 12303; 91; 93; 8254;
   8254; 8254; 8254; 95; 95; 95; 44; 12289; 46; 59; 58; 63; 33; 8212; 40; 41;
   123; 125; 12308; 12309; 35; 38; 42; 43; 45; 60; 62; 61; 92; 36; 37; 64;
   1569; 1570; 1570; 1571; 1571; 1572; 1572; 1573; 1573; 1574; 1574; 1574; 1574; 1575; 1575; 1576;
   1576; 1576; 1576; 1577; 1577; 1578; 1578; 1578; 1578; 1579; 1579; 1579; 1579; 1580; 1580; 1580;
   1580; 1581; 1581; 1581; 1581; 1582; 1582; 1582; 1582; 1583; 1583; 1584; 1584; 1585; 1585; 1586;
   1586; 1587; 1587; 1587; 1587; 1588; 1588; 1588; 1588; 1589; 1589; 1589; 1589; 1590; 1590; 1590;
   1590; 1591; 1591; 1591; 1591; 1592; 1592; 1592; 1592; 1593; 1593; 1593; 1593; 1594; 1594; 1594;
   1594; 1601; 1601; 1601; 1601; 1602; 1602; 1602; 1602; 1603; 1603; 1603; 1603; 1604; 1604; 1604;
   1604; 1605; 1605; 1605; 1605; 1606; 1606; 1606; 1606; 1607; 1607; 1607; 1607; 1608; 1608; 1609;
   1609; 1610; 1610; 1610; 1610; 33; 34; 35; 36; 37; 38; 39; 40; 41; 42; 43;
   44; 45; 46; 47; 48; 49; 50; 51; 52; 53; 54; 55; 56; 57; 58; 59;
   60; 61; 62; 63; 64; 65; 66; 67; 68; 69; 70; 71; 72; 73; 74; 75;
   76; 77; 78; 79; 80; 81; 82; 83; 84; 85; 86; 87; 88; 89; 90; 91;
   92; 93; 94; 95; 96; 123; 124; 125; 126; 10629; 10630; 12290; 12300; 12301; 12289; 12539;
   12530; 12449; 12451; 12453; 12455; 12457; 12515; 12517; 12519; 12483; 12540; 12450; 12452; 12454; 12456; 12458;
   12459; 12461; 12463; 12465; 12467; 12469; 12471; 12473; 12475; 12477; 12479; 12481; 12484; 12486; 12488; 12490;
   12491; 12492; 12493; 12494; 12495; 12498; 12501; 12504; 12507; 12510; 12511; 12512; 12513; 12514; 12516; 12518;
   12520; 12521; 12522; 12523; 12524; 12525; 12527; 12531; 12441; 12442; 12644; 12593; 12594; 12595; 12596; 12597;
   12598; 12599; 12600; 12601; 12602; 12603; 12604; 12605; 12606; 12607; 12608; 12609; 12610; 12611; 12612; 12613;
   12614; 12615; 12616; 12617; 12618; 12619; 12620; 12621; 12622; 12623; 12624; 12625; 12626; 12627; 12628; 12629;
   12630; 12631; 12632; 12633; 12634; 12635; 12636; 12637; 12638; 12639; 12640; 12641; 12642; 12643; 162; 163;
   172; 175; 166; 165; 8361; 9474; 8592; 8593; 8594; 8595; 9632; 9675].

Definition c_uni32_decomp_keys : list Z :=
  [119808; 119809; 119810; 119811; 119812; 119813; 119814; 119815; 119816; 119817; 119818; 119819; 119820; 119821; 119822; 119823;
   119824; 119825; 119826; 119827; 119828; 119829; 119830; 119831; 119832; 119833; 119834; 119835; 119836; 119837; 119838; 119839;
   119840; 119841; 119842; 119843; 119844; 119845; 119846; 119847; 119848; 119849; 119850; 119851; 119852; 119853; 119854; 119855;
   119856; 119857; 119858; 119859; 119860; 119861; 119862; 119863; 119864; 119865; 119866; 119867; 119868; 119869; 119870; 119871;
   119872; 119873; 119874; 119875; 119876; 119877; 119878; 119879; 119880; 119881; 119882; 119883; 119884; 119885; 119886; 119887;
   119888; 119889; 119890; 119891; 119892; 119894; 119895; 119896; 119897; 119898; 119899; 119900; 119901; 119902; 119903; 119904;
   119905; 119906; 119907; 119908; 119909; 119910; 119911; 119912; 119913; 119914; 119915; 119916; 119917; 119918; 119919; 119920;
   119921; 119922; 119923; 119924; 119925; 119926; 119927; 119928; 119929; 119930; 119931; 119932; 119933; 119934; 119935; 119936;
   119937; 119938; 119939; 119940; 119941; 119942; 119943; 119944; 119945; 119946; 119947; 119948; 119949; 119950; 119951; 119952;
   119953; 119954; 119955; 119956; 119957; 119958; 119959; 119960; 119961; 119962; 119963; 119964; 119966; 119967; 119970; 119973;
   119974; 119977; 119978; 119979; 119980; 119982; 119983; 119984; 119985; 119986; 119987; 119988; 119989; 119990; 119991; 119992;
   119993; 119995; 119997; 119998; 119999; 120000; 120001; 120002; 120003; 120005; 120006; 120007; 120008; 120009; 120010; 120011;
   120012; 120013; 120014; 120015; 120016; 120017; 120018; 120019; 120020; 120021; 120022; 120023; 120024; 120025; 120026; 120027;
   120028; 120029; 120030; 120031; 120032; 120033; 120034; 120035; 120036; 120037; 120038; 120039; 120040; 120041; 120042; 120043;
   120044; 120045; 120046; 120047; 120048; 120049; 120050; 120051; 120052; 120053; 120054; 120055; 120056; 120057; 120058; 120059;
   120060; 120061; 120062; 120063; 120064; 120065; 120066; 120067; 120068; 120069; 120071; 120072; 120073; 120074; 120077; 120078;
   120079; 120080; 120081; 120082; 120083; 120084; 120086; 120087; 120088; 120089; 120090; 120091; 120092; 120094; 120095; 120096;
   120097; 120098; 120099; 120100; 120101; 120102; 120103; 120104; 120105; 120106; 120107; 120108; 120109; 120110; 120111; 120112;
   120113; 120114; 120115; 120116; 120117; 120118; 120119; 120120; 120121; 120123; 120124; 120125; 120126; 120128; 120129; 120130;
   120131; 120132; 120134; 120138; 120139; 120140; 120141; 120142; 120143; 120144; 120146; 120147; 120148; 120149; 120150; 120151;
   120152; 120153; 120154; 120155; 120156; 120157; 120158; 120159; 120160; 120161; 120162; 120163; 120164; 120165; 120166; 120167;
   120168; 120169; 120170; 120171; 120172; 120173; 120174; 120175; 120176; 120177; 120178; 120179; 120180; 120181; 120182; 120183;
   120184; 120185; 120186; 120187; 120188; 120189; 120190; 120191; 120192; 120193; 120194; 120195; 120196; 120197; 120198; 120199;
   120200; 120201; 120202; 120203; 120204; 120205; 120206; 120207; 120208; 120209; 120210; 120211; 120212; 120213; 120214; 120215;
   120216; 120217; 120218; 120219; 120220; 120221; 120222; 120223; 120224; 120225; 120226; 120227; 120228; 120229; 120230; 120231;
   120232; 120233; 120234; 120235; 120236; 120237; 120238; 120239; 120240; 120241; 120242; 120243; 120244; 120245; 120246; 120247;
   120248; 120249; 120250; 120251; 120252; 120253; 120254; 120255; 120256; 120257; 120258; 120259; 120260; 120261; 120262; 120263;
   120264; 120265; 120266; 120267; 120268; 120269; 120270; 120271; 120272; 120273; 120274; 120275; 120276; 120277; 120278; 120279;
   120280; 120281; 120282; 120283; 120284; 120285; 120286; 120287; 120288; 120289; 120290; 120291; 120292; 120293; 120294; 120295;
   120296; 120297; 120298; 120299; 120300; 120301; 120302; 120303; 120304; 120305; 120306; 120307; 120308; 120309; 120310; 120311;
   120312; 120313; 120314; 120315; 120316; 120317; 120318; 120319; 120320; 120321; 120322; 120323; 120324; 120325; 120326; 120327;
   120328; 120329; 120330; 120331; 120332; 120333; 120334; 120335; 120336; 120337; 120338; 120339; 120340; 120341; 120342; 120343;
   120344; 120345; 120346; 120347; 120348; 120349; 120350; 120351; 120352; 120353; 120354; 120355; 120356; 120357; 120358; 120359;
   120360; 120361; 120362; 120363; 120364; 120365; 120366; 120367; 120368; 120369; 120370; 120371; 120372; 120373; 120374; 120375;
   120376; 120377; 120378; 120379; 120380; 120381; 120382; 120383; 120384; 120385; 120386; 120387; 120388; 120389; 120390; 120391;
   120392; 120393; 120394; 120395; 120396; 120397; 120398; 120399; 120400; 120401; 120402; 120403; 120404; 120405; 120406; 120407;
   120408; 120409; 120410; 120411; 120412; 120413; 120414; 120415; 120416; 120417; 120418; 120419; 120420; 120421; 120422; 120423;
   120424; 120425; 120426; 120427; 120428; 120429; 120430; 120431; 120432; 120433; 120434; 120435; 120436; 120437; 120438; 120439;
   120440; 120441; 120442; 120443; 120444; 120445; 120446; 120447; 120448; 120449; 120450; 120451; 120452; 120453; 120454; 120455;
   120456; 120457; 120458; 120459; 120460; 120461; 120462; 120463; 120464; 120465; 120466; 120467; 120468; 120469; 120470; 120471;
   120472; 120473; 120474; 120475; 120476; 120477; 120478; 120479; 120480; 120481; 120482; 120483; 120484; 120485; 120488; 120489;
   120490; 120491; 120492; 120493; 120494; 120495; 120496; 120497; 120498; 120499; 120500; 120501; 120502; 120503; 120504; 120505;
   120506; 120507; 120508; 120509; 120510; 120511; 120512; 120513; 120514; 120515; 120516; 120517; 120518; 120519; 120520; 120521;
   120522; 120523; 120524; 120525; 120526; 120527; 120528; 120529; 120530; 120531; 120532; 120533; 120534; 120535; 120536; 120537;
   120538; 120539; 120540; 120541; 120542; 120543; 120544; 120545; 120546; 120547; 120548; 120549; 120550; 120551; 120552; 120553;
   120554; 120555; 120556; 120557; 120558; 120559; 120560; 120561; 120562; 120563; 120564; 120565; 120566; 120567; 120568; 120569;
   120570; 120571; 120572; 120573; 120574; 120575; 120576; 120577; 120578; 120579; 120580; 120581; 120582; 120583; 120584; 120585;
   120586; 120587; 120588; 120589; 120590; 120591; 120592; 120593; 120594; 120595; 120596; 120597; 120598; 120599; 120600; 120601;
   120602; 120603; 120604; 120605; 120606; 120607; 120608; 120609; 120610; 120611; 120612; 120613; 120614; 120615; 120616; 120617;
   120618; 120619; 120620; 120621; 120622; 120623; 120624; 120625; 120626; 120627; 120628; 120629; 120630; 120631; 120632; 120633;
   120634; 120635; 120636; 120637; 120638; 120639; 120640; 120641; 120642; 120643; 120644; 120645; 120646; 120647; 120648; 120649;
   120650; 120651; 120652; 120653; 120654; 120655; 120656; 120657; 120658; 120659; 120660; 120661; 120662; 120663; 120664; 120665;
   120666; 120667; 120668; 120669; 120670; 120671; 120672; 120673; 120674; 120675; 120676; 120677; 120678; 120679; 120680; 120681;
   120682; 120683; 120684; 120685; 120686; 120687; 120688; 120689; 120690; 120691; 120692; 120693; 120694; 120695; 120696; 120697;
   120698; 120699; 120700; 120701; 120702; 120703; 120704; 120705; 120706; 120707; 120708; 120709; 120710; 120711; 120712; 120713;
   120714; 120715; 120716; 120717; 120718; 120719; 120720; 120721; 120722; 120723; 120724; 120725; 120726; 120727; 120728; 120729;
   120730; 120731; 120732; 120733; 120734; 120735; 120736; 120737; 120738; 120739; 120740; 120741; 120742; 120743; 120744; 120745;
   120746; 120747; 120748; 120749; 120750; 120751; 120752; 120753; 120754; 120755; 120756; 120757; 120758; 120759; 120760; 120761;
   120762; 120763; 120764; 120765; 120766; 120767; 120768; 120769; 120770; 120771; 120772; 120773; 120774; 120775; 120776; 120777;
   120778; 120779; 120782; 120783; 120784; 120785; 120786; 120787; 120788; 120789; 120790; 120791; 120792; 120793; 120794; 120795;
   120796; 120797; 120798; 120799; 120800; 120801; 120802; 120803; 120804; 120805; 120806; 120807; 120808; 120809; 120810; 120811;
   120812; 120813; 120814; 120815; 120816; 120817; 120818; 120819; 120820; 120821; 120822; 120823; 120824; 120825; 120826; 120827;
   120828; 120829; 120830; 120831; 126464; 126465; 126466; 126467; 126469; 126470; 126471; 126472; 126473; 126474; 126475; 126476;
   126477; 126478; 126479; 126480; 126481; 126482; 126483; 126484; 126485; 126486; 126487; 126488; 126489; 126490; 126491; 126492;
   126493; 126494; 126495; 126497; 126498; 126500; 126503; 126505; 126506; 126507; 126508; 126509; 126510; 126511; 126512; 126513;
   126514; 126516; 126517; 126518; 126519; 126521; 126523; 126530; 126535; 126537; 126539; 126541; 126542; 126543; 126545; 126546;
   126548; 126551; 126553; 126555; 126557; 126559; 126561; 126562; 126564; 126567; 126568; 126569; 126570; 126572; 126573; 126574;
   126575; 126576; 126577; 126578; 126580; 126581; 126582; 126583; 126585; 126586; 126587; 126588; 126590; 126592; 126593; 126594;
   126595; 126596; 126597; 126598; 126599; 126600; 126601; 126603; 126604; 126605; 126606; 126607; 126608; 126609; 126610; 126611;
   126612; 126613; 126614; 126615; 126616; 126617; 126618; 126619; 126625; 126626; 126627; 126629; 126630; 126631; 126632; 126633;
   126635; 126636; 126637; 126638; 126639; 126640; 126641; 126642; 126643; 126644; 126645; 126646; 126647; 126648; 126649; 126650;
   126651; 127275; 127276; 127280; 127281; 127282; 127283; 127284; 127285; 127286; 127287; 127288; 127289; 127290; 127291; 127292;
   127293; 127294; 127295; 127296; 127297; 127298; 127299; 127300; 127301; 127302; 127303; 127304; 127305; 127490; 127504; 127505;
   127506; 127507; 127508; 127509; 127510; 127511; 127512; 127513; 127514; 127515; 127516; 127517; 127518; 127519; 127520; 127521;
   127522; 127523; 127524; 127525; 127526; 127527; 127528; 127529; 127530; 127531; 127532; 127533; 127534; 127535; 127536; 127537;
   127538; 127539; 127540; 127541; 127542; 127543; 127544; 127545; 127546; 127568; 127569; 194560; 194561; 194562; 194563; 194564;
   194565; 194566; 194567; 194568; 194569; 194570; 194571; 194572; 194573; 194574; 194575; 194576; 194577; 194578; 194579; 194580;
   194581; 194582; 194583; 194584; 194585; 194586; 194587; 194588; 194589; 194590; 194591; 194592; 194593; 194594; 194595; 194596;
   194597; 194598; 194599; 194600; 194601; 194602; 194603; 194604; 194605; 194606; 194607; 194608; 194609; 194610; 194611; 194612;
   194613; 194614; 194615; 194616; 194617; 194618; 194619; 194620; 194621; 194622; 194623; 194624; 194625; 194626; 194627; 194628;
   194629; 194630; 194631; 194632; 194633; 194634; 194635; 194636; 194637; 194638; 194639; 194640; 194641; 194642; 194643; 194644;
   194645; 194646; 194647; 194648; 194649; 194650; 194651; 194652; 194653; 194654; 194655; 194656; 194657; 194658; 194659; 194660;
   194661; 194662; 194663; 194664; 194665; 194666; 194667; 194668; 194669; 194670; 194671; 194672; 194673; 194674; 194675; 194676;
   194677; 194678; 194679; 194680; 194681; 194682; 194683; 194684; 194685; 194686; 194687; 194688; 194689; 194690; 194691; 194692;
   194693; 194694; 194695; 194696; 194697; 194698; 194699; 194700; 194701; 194702; 194703; 194704; 194705; 194706; 194707; 194708;
   194709; 194710; 194711; 194712; 194713; 194714; 194715; 194716; 194717; 194718; 194719; 194720; 194721; 194722; 194723; 194724;
   194725; 194726; 194727; 194728; 194729; 194730; 194731; 194732; 194733; 194734; 194735; 194736; 194737; 194738; 194739; 194740;
   194741; 194742; 194743; 194744; 194745; 194746; 194747; 194748; 194749; 194750; 194751; 194752; 194753; 194754; 194755; 194756;
   194757; 194758; 194759; 194760; 194761; 194762; 194763; 194764; 194765; 194766; 194767; 194768; 194769; 194770; 194771; 194772;
   194773; 194774; 194775; 194776; 194777; 194778; 194779; 194780; 194781; 194782; 194783; 194784; 194785; 194786; 194787; 194788;
   194789; 194790; 194791; 194792; 194793; 194794; 194795; 194796; 194797; 194798; 194799; 194800; 194801; 194802; 194803; 194804;
   194805; 194806; 194807; 194808; 194809; 194810; 194811; 194812; 194813; 194814; 194815; 194816; 194817; 194818; 194819; 194820;
   194821; 194822; 194823; 194824; 194825; 194826; 194827; 194828; 194829; 194830; 194831; 194832; 194833; 194834; 194835; 194836;
   194837; 194838; 194839; 194840; 194841; 194842; 194843; 194844; 194845; 194846; 194847; 194848; 194849; 194850; 194851; 194852;
   194853; 194854; 194855; 194856; 194857; 194858; 194859; 194860; 194861; 194862; 194863; 194864; 194865; 194866; 194867; 194868;
   194869; 194870; 194871; 194872; 194873; 194874; 194875; 194876; 194877; 194878; 194879; 194880; 194881; 194882; 194883; 194884;
   194885; 194886; 194887; 194888; 194889; 194890; 194891; 194892; 194893; 194894; 194895; 194896; 194897; 194898; 194899; 194900;
   194901; 194902; 194903; 194904; 194905; 194906; 194907; 194908; 194909; 194910; 194911; 194912; 194913; 194914; 194915; 194916;
   194917; 194918; 194919; 194920; 194921; 194922; 194923; 194924; 194925; 194926; 194927; 194928; 194929; 194930; 194931; 194932;
   194933; 194934; 194935; 194936; 194937; 194938; 194939; 194940; 194941; 194942; 194943; 194944; 194945; 194946; 194947; 194948;
   194949; 194950; 194951; 194952; 194953; 194954; 194955; 194956; 194957; 194958; 194959; 194960; 194961; 194962; 194963; 194964;
   194965; 194966; 194967; 194968; 194969; 194970; 194971; 194972; 194973; 194974; 194975; 194976; 194977; 194978; 194979; 194980;
   194981; 194982; 194983; 194984; 194985; 194986; 194987; 194988; 194989; 194990; 194991; 194992; 194993; 194994; 194995; 194996;
   194997; 194998; 194999; 195000; 195001; 195002; 195003; 195004; 195005; 195006; 195007; 195008; 195009; 195010; 195011; 195012;
   195013; 195014; 195015; 195016; 195017; 195018; 195019; 195020; 195021; 195022; 195023; 195024; 195025; 195026; 195027; 195028;
   195029; 195030; 195031; 195032; 195033; 195034; 195035; 195036; 195037; 195038; 195039; 195040; 195041; 195042; 195043; 195044;
   195045; 195046; 195047; 195048; 195049; 195050; 195051; 195052; 195053; 195054; 195055; 195056; 195057; 195058; 195059; 195060;
   195061; 195062; 195063; 195064; 195065; 195066; 195067; 195068; 195069; 195070; 195071; 195072; 195073; 195074; 195075; 195076;
   195077; 195078; 195079; 195080; 195081; 195082; 195083; 195084; 195085; 195086; 195087; 195088; 195089; 195090; 195091; 195092;
   195093; 195094; 195095; 195096; 195097; 195098; 195099; 195100; 195101].

Definition c_uni32_decomp_values : list Z :=
  [65; 66; 67; 68; 69; 70; 71; 72; 73; 74; 75; 76; 77; 78; 79; 80;
   81; 82; 83; 84; 85; 86; 87; 88; 89; 90; 97; 98; 99; 100; 101; 102;
   103; 104; 105; 106; 107; 108; 109; 110; 111; 112; 113; 114; 115; 116; 117; 118;
   119; 120; 121; 122; 65; 66; 67; 68; 69; 70; 71; 72; 73; 74; 75; 76;
   77; 78; 79; 80; 81; 82; 83; 84; 85; 86; 87; 88; 89; 90; 97; 98;
   99; 100; 101; 102; 103; 105; 106; 107; 108; 109; 110; 111; 112; 113; 114; 115;
   116; 117; 118; 119; 120; 121; 122; 65; 66; 67; 68; 69; 70; 71; 72; 73;
   74; 75; 76; 77; 78; 79; 80; 81; 82; 83; 84; 85; 86; 87; 88; 89;
   90; 97; 98; 99; 100; 101; 102; 103; 104; 105; 106; 107; 108; 109; 110; 111;
   112; 113; 114; 115; 116; 117; 118; 119; 120; 121; 122; 65; 67; 68; 71; 74;
   75; 78; 79; 80; 81; 83; 84; 85; 86; 87; 88; 89; 90; 97; 98; 99;
   100; 102; 104; 105; 106; 107; 108; 109; 110; 112; 113; 114; 115; 116; 117; 118;
   119; 120; 121; 122; 65; 66; 67; 68; 69; 70; 71; 72; 73; 74; 75; 76;
   77; 78; 79; 80; 81; 82; 83; 84; 85; 86; 87; 88; 89; 90; 97; 98;
   99; 100; 101; 102; 103; 104; 105; 106; 107; 108; 109; 110; 111; 112; 113; 114;
   115; 116; 117; 118; 119; 120; 121; 122; 65; 66; 68; 69; 70; 71; 74; 75;
   76; 77; 78; 79; 80; 81; 83; 84; 85; 86; 87; 88; 89; 97; 98; 99;
   100; 101; 102; 103; 104; 105; 106; 107; 108; 109; 110; 111; 112; 113; 114; 115;
   116; 117; 118; 119; 120; 121; 122; 65; 66; 68; 69; 70; 71; 73; 74; 75;
   76; 77; 79; 83; 84; 85; 86; 87; 88; 89; 97; 98; 99; 100; 101; 102;
   103; 104; 105; 106; 107; 108; 109; 110; 111; 112; 113; 114; 115; 116; 117; 118;
   119; 120; 121; 122; 65; 66; 67; 68; 69; 70; 71; 72; 73; 74; 75; 76;
   77; 78; 79; 80; 81; 82; 83; 84; 85; 86; 87; 88; 89; 90; 97; 98;
   99; 100; 101; 102; 103; 104; 105; 106; 107; 108; 109; 110; 111; 112; 113; 114;
   115; 116; 117; 118; 119; 120; 121; 122; 65; 66; 67; 68; 69; 70; 71; 72;
   73; 74; 75; 76; 77; 78; 79; 80; 81; 82; 83; 84; 85; 86; 87; 88;
   89; 90; 97; 98; 99; 100; 101; 102; 103; 104; 105; 106; 107; 108; 109; 110;
   111; 112; 113; 114; 115; 116; 117; 118; 119; 120; 121; 122; 65; 66; 67; 68;
   69; 70; 71; 72; 73; 74; 75; 76; 77; 78; 79; 80; 81; 82; 83; 84;
   85; 86; 87; 88; 89; 90; 97; 98; 99; 100; 101; 102; 103; 104; 105; 106;
   107; 108; 109; 110; 111; 112; 113; 114; 115; 116; 117; 118; 119; 120; 121; 122;
   65; 66; 67; 68; 69; 70; 71; 72; 73; 74; 75; 76; 77; 78; 79; 80;
   81; 82; 83; 84; 85; 86; 87; 88; 89; 90; 97; 98; 99; 100; 101; 102;
   103; 104; 105; 106; 107; 108; 109; 110; 111; 112; 113; 114; 115; 116; 117; 118;
   119; 120; 121; 122; 65; 66; 67; 68; 69; 70; 71; 72; 73; 74; 75; 76;
   77; 78; 79; 80; 81; 82; 83; 84; 85; 86; 87; 88; 89; 90; 97; 98;
   99; 100; 101; 102; 103; 104; 105; 106; 107; 108; 109; 110; 111; 112; 113; 114;
   115; 116; 117; 118; 119; 120; 121; 122; 65; 66; 67; 68; 69; 70; 71; 72;
   73; 74; 75; 76; 77; 78; 79; 80; 81; 82; 83; 84; 85; 86; 87; 88;
   89; 90; 97; 98; 99; 100; 101; 102; 103; 104; 105; 106; 107; 108; 109; 110;
   111; 112; 113; 114; 115; 116; 117; 118; 119; 120; 121; 122; 305; 567; 913; 914;
   915; 916; 917; 918; 919; 920; 921; 922; 923; 924; 925; 926; 927; 928; 929; 1012;
   931; 932; 933; 934; 935; 936; 937; 8711; 945; 946; 947; 948; 949; 950; 951; 952;
   953; 954; 955; 956; 957; 958; 959; 960; 961; 962; 963; 964; 965; 966; 967; 968;
   969; 8706; 1013; 977; 1008; 981; 1009; 982; 913; 914; 915; 916; 917; 918; 919; 920;
   921; 922; 923; 924; 925; 926; 927; 928; 929; 1012; 931; 932; 933; 934; 935; 936;
   937; 8711; 945; 946; 947; 948; 949; 950; 951; 952; 953; 954; 955; 956; 957; 958;
   959; 960; 961; 962; 963; 964; 965; 966; 967; 968; 969; 8706; 1013; 977; 1008; 981;
   1009; 982; 913; 914; 915; 916; 917; 918; 919; 920; 921; 922; 923; 924; 925; 926;
   927; 928; 929; 1012; 931; 932; 933; 934; 935; 936; 937; 8711; 945; 946; 947; 948;
   949; 950; 951; 952; 953; 954; 955; 956; 957; 958; 959; 960; 961; 962; 963; 964;
   965; 966; 967; 968; 969; 8706; 1013; 977; 1008; 981; 1009; 982; 913; 914; 915; 916;
   917; 918; 919; 920; 921; 922; 923; 924; 925; 926; 927; 928; 929; 1012; 931; 932;
   933; 934; 935; 936; 937; 8711; 945; 946; 947; 948; 949; 950; 951; 952; 953; 954;
   955; 956; 957; 958; 959; 960; 961; 962; 963; 964; 965; 966; 967; 968; 969; 8706;
   1013; 977; 1008; 981; 1009; 982; 913; 914; 915; 916; 917; 918; 919; 920; 921; 922;
   923; 924; 925; 926; 927; 928; 929; 1012; 931; 932; 933; 934; 935; 936; 937; 8711;
   945; 946; 947; 948; 949; 950; 951; 952; 953; 954; 955; 956; 957; 958; 959; 960;
   961; 962; 963; 964; 965; 966; 967; 968; 969; 8706; 1013; 977; 1008; 981; 1009; 982;
   988; 989; 48; 49; 50; 51; 52; 53; 54; 55; 56; 57; 48; 49; 50; 51;
   52; 53; 54; 55; 56; 57; 48; 49; 50; 51; 52; 53; 54; 55; 56; 57;
   48; 49; 50; 51; 52; 53; 54; 55; 56; 57; 48; 49; 50; 51; 52; 53;
   54; 55; 56; 57; 1575; 1576; 1580; 1583; 1608; 1586; 1581; 1591; 1610; 1603; 1604; 1605;
   1606; 1587; 1593; 1601; 1589; 1602; 1585; 1588; 1578; 1579; 1582; 1584; 1590; 1592; 1594; 1646;
   1722; 1697; 1647; 1576; 1580; 1607; 1581; 1610; 1603; 1604; 1605; 1606; 1587; 1593; 1601; 1589;
   1602; 1588; 1578; 1579; 1582; 1590; 1594; 1580; 1581; 1610; 1604; 1606; 1587; 1593; 1589; 1602;
   1588; 1582; 1590; 1594; 1722; 1647; 1576; 1580; 1607; 1581; 1591; 1610; 1603; 1605; 1606; 1587;
   1593; 1601; 1589; 1602; 1588; 1578; 1579; 1582; 1590; 1592; 1594; 1646; 1697; 1575; 1576; 1580;
   1583; 1607; 1608; 1586; 1581; 1591; 1610; 1604; 1605; 1606; 1587; 1593; 1601; 1589; 1602; 1585;
   1588; 1578; 1579; 1582; 1584; 1590; 1592; 1594; 1576; 1580; 1583; 1608; 1586; 1581; 1591; 1610;
   1604; 1605; 1606; 1587; 1593; 1601; 1589; 1602; 1585; 1588; 1578; 1579; 1582; 1584; 1590; 1592;
   1594; 67; 82; 65; 66; 67; 68; 69; 70; 71; 72; 73; 74; 75; 76; 77;
   78; 79; 80; 81; 82; 83; 84; 85; 86; 87; 88; 89; 90; 12469; 25163; 23383;
   21452; 12487; 20108; 22810; 35299; 22825; 20132; 26144; 28961; 26009; 21069; 24460; 20877; 26032; 21021; 32066;
   29983; 36009; 22768; 21561; 28436; 25237; 25429; 19968; 19977; 36938; 24038; 20013; 21491; 25351; 36208; 25171;
   31105; 31354; 21512; 28288; 26377; 26376; 30003; 21106; 21942; 24471; 21487; 20029; 20024; 20033; 131362; 20320;
   20398; 20411; 20482; 20602; 20633; 20711; 20687; 13470; 132666; 20813; 20820; 20836; 20855; 132380; 13497; 20839;
   20877; 132427; 20887; 20900; 20172; 20908; 20917; 168415; 20981; 20995; 13535; 21051; 21062; 21106; 21111; 13589;
   21191; 21193; 21220; 21242; 21253; 21254; 21271; 21321; 21329; 21338; 21363; 21373; 21375; 21375; 21375; 133676;
   28784; 21450; 21471; 133987; 21483; 21489; 21510; 21662; 21560; 21576; 21608; 21666; 21750; 21776; 21843; 21859;
   21892; 21892; 21913; 21931; 21939; 21954; 22294; 22022; 22295; 22097; 22132; 20999; 22766; 22478; 22516; 22541;
   22411; 22578; 22577; 22700; 136420; 22770; 22775; 22790; 22810; 22818; 22882; 136872; 136938; 23020; 23067; 23079;
   23000; 23142; 14062; 14076; 23304; 23358; 23358; 137672; 23491; 23512; 23527; 23539; 138008; 23551; 23558; 24403;
   23586; 14209; 23648; 23662; 23744; 23693; 138724; 23875; 138726; 23918; 23915; 23932; 24033; 24034; 14383; 24061;
   24104; 24125; 24169; 14434; 139651; 14460; 24240; 24243; 24246; 24266; 172946; 24318; 140081; 140081; 33281; 24354;
   24354; 14535; 144056; 156122; 24418; 24427; 14563; 24474; 24525; 24535; 24569; 24705; 14650; 14620; 24724; 141012;
   24775; 24904; 24908; 24910; 24908; 24954; 24974; 25010; 24996; 25007; 25054; 25074; 25078; 25104; 25115; 25181;
   25265; 25300; 25424; 142092; 25405; 25340; 25448; 25475; 25572; 142321; 25634; 25541; 25513; 14894; 25705; 25726;
   25757; 25719; 14956; 25935; 25964; 143370; 26083; 26360; 26185; 15129; 26257; 15112; 15076; 20882; 20885; 26368;
   26268; 32941; 17369; 26391; 26395; 26401; 26462; 26451; 144323; 15177; 26618; 26501; 26706; 26757; 144493; 26766;
   26655; 26900; 15261; 26946; 27043; 27114; 27304; 145059; 27355; 15384; 27425; 145575; 27476; 15438; 27506; 27551;
   27578; 27579; 146061; 138507; 146170; 27726; 146620; 27839; 27853; 27751; 27926; 27966; 28023; 27969; 28009; 28024;
   28037; 146718; 27956; 28207; 28270; 15667; 28363; 28359; 147153; 28153; 28526; 147294; 147342; 28614; 28729; 28702;
   28699; 15766; 28746; 28797; 28791; 28845; 132389; 28997; 148067; 29084; 148395; 29224; 29237; 29264; 149000; 29312;
   29333; 149301; 149524; 29562; 29579; 16044; 29605; 16056; 16056; 29767; 29788; 29809; 29829; 29898; 16155; 29988;
   150582; 30014; 150674; 30064; 139679; 30224; 151457; 151480; 151620; 16380; 16392; 30452; 151795; 151794; 151833; 151859;
   30494; 30495; 30495; 30538; 16441; 30603; 16454; 16534; 152605; 30798; 30860; 30924; 16611; 153126; 31062; 153242;
   153285; 31119; 31211; 16687; 31296; 31306; 31311; 153980; 154279; 154279; 31470; 16898; 154539; 31686; 31689; 16935;
   154752; 31954; 17056; 31976; 31971; 32000; 155526; 32099; 17153; 32199; 32258; 32325; 17204; 156200; 156231; 17241;
   156377; 32634; 156478; 32661; 32762; 32773; 156890; 156963; 32864; 157096; 32880; 144223; 17365; 32946; 33027; 17419;
   33086; 23221; 157607; 157621; 144275; 144284; 33281; 33284; 36766; 17515; 33425; 33419; 33437; 21171; 33457; 33459;
   33469; 33510; 158524; 33509; 33565; 33635; 33709; 33571; 33725; 33767; 33879; 33619; 33738; 33740; 33756; 158774;
   159083; 158933; 17707; 34033; 34035; 34070; 160714; 34148; 159532; 17757; 17761; 159665; 159954; 17771; 34384; 34396;
   34407; 34409; 34473; 34440; 34574; 34530; 34681; 34600; 34667; 34694; 17879; 34785; 34817; 17913; 34912; 34915;
   161383; 35031; 35038; 17973; 35066; 13499; 161966; 162150; 18110; 18119; 35488; 35565; 35722; 35925; 162984; 36011;
   36033; 36123; 36215; 163631; 133124; 36299; 36284; 36336; 133342; 36564; 36664; 165330; 165357; 37012; 37105; 37137;
   165678; 37147; 37432; 37591; 37592; 37500; 37881; 37909; 166906; 38283; 18837; 38327; 167287; 18918; 38595; 23986;
   38691; 168261; 168474; 19054; 19062; 38880; 168970; 19122; 169110; 38923; 38923; 38953; 169398; 39138; 19251; 39209;
   39335; 39362; 39422; 19406; 170800; 39698; 40000; 40189; 19662; 19693; 40295; 172238; 19704; 172293; 172558; 172689;
   40635; 19798; 40697; 40702; 40709; 40719; 40726; 40763; 173568].

Definition c_multidecomp_keys : list Z :=
  [168; 175; 180; 184; 188; 189; 190; 192; 193; 194; 195; 196; 197; 199; 200; 201;
   202; 203; 204; 205; 206; 207; 209; 210; 211; 212; 213; 214; 217; 218; 219; 220;
   221; 256; 258; 260; 262; 264; 266; 268; 270; 274; 276; 278; 280; 282; 284; 286;
   288; 290; 292; 296; 298; 300; 302; 304; 306; 308; 310; 313; 315; 317; 319; 323;
   325; 327; 329; 332; 334; 336; 340; 342; 344; 346; 348; 350; 352; 354; 356; 360;
   362; 364; 366; 368; 370; 372; 374; 376; 377; 379; 381; 416; 431; 461; 463; 465;
   467; 469; 471; 473; 475; 478; 480; 482; 486; 488; 490; 492; 494; 496; 500; 504;
   506; 508; 510; 512; 514; 516; 518; 520; 522; 524; 526; 528; 530; 532; 534; 536;
   538; 542; 550; 552; 554; 556; 558; 560; 562; 728; 729; 730; 731; 732; 733; 836;
   890; 900; 901; 902; 904; 905; 906; 908; 910; 911; 912; 938; 939; 944; 979; 980;
   1024; 1025; 1027; 1031; 1036; 1037; 1038; 1049; 1142; 1217; 1232; 1234; 1238; 1242; 1244; 1246;
   1250; 1252; 1254; 1258; 1260; 1262; 1264; 1266; 1268; 1272; 1415; 1570; 1571; 1572; 1573; 1574;
   1653; 1654; 1655; 1656; 1728; 1730; 1747; 2345; 2353; 2356; 2392; 2393; 2394; 2395; 2396; 2397;
   2398; 2399; 2507; 2508; 2524; 2525; 2527; 2611; 2614; 2649; 2650; 2651; 2654; 2888; 2891; 2892;
   2908; 2909; 2964; 3018; 3019; 3020; 3144; 3264; 3271; 3272; 3274; 3275; 3402; 3403; 3404; 3546;
   3548; 3549; 3550; 3635; 3763; 3804; 3805; 3907; 3917; 3922; 3927; 3932; 3945; 3955; 3957; 3958;
   3959; 3960; 3961; 3969; 3987; 3997; 4002; 4007; 4012; 4025; 4134; 6918; 6920; 6922; 6924; 6926;
   6930; 6971; 6973; 6976; 6977; 6979; 7680; 7682; 7684; 7686; 7688; 7690; 7692; 7694; 7696; 7698;
   7700; 7702; 7704; 7706; 7708; 7710; 7712; 7714; 7716; 7718; 7720; 7722; 7724; 7726; 7728; 7730;
   7732; 7734; 7736; 7738; 7740; 7742; 7744; 7746; 7748; 7750; 7752; 7754; 7756; 7758; 7760; 7762;
   7764; 7766; 7768; 7770; 7772; 7774; 7776; 7778; 7780; 7782; 7784; 7786; 7788; 7790; 7792; 7794;
   7796; 7798; 7800; 7802; 7804; 7806; 7808; 7810; 7812; 7814; 7816; 7818; 7820; 7822; 7824; 7826;
   7828; 7830; 7831; 7832; 7833; 7834; 7840; 7842; 7844; 7846; 7848; 7850; 7852; 7854; 7856; 7858;
   7860; 7862; 7864; 7866; 7868; 7870; 7872; 7874; 7876; 7878; 7880; 7882; 7884; 7886; 7888; 7890;
   7892; 7894; 7896; 7898; 7900; 7902; 7904; 7906; 7908; 7910; 7912; 7914; 7916; 7918; 7920; 7922;
   7924; 7926; 7928; 7944; 7945; 7946; 7947; 7948; 7949; 7950; 7951; 7960; 7961; 7962; 7963; 7964;
   7965; 7976; 7977; 7978; 7979; 7980; 7981; 7982; 7983; 7992; 7993; 7994; 7995; 7996; 7997; 7998;
   7999; 8008; 8009; 8010; 8011; 8012; 8013; 8016; 8018; 8020; 8022; 8025; 8027; 8029; 8031; 8040;
   8041; 8042; 8043; 8044; 8045; 8046; 8047; 8072; 8073; 8074; 8075; 8076; 8077; 8078; 8079; 8088;
   8089; 8090; 8091; 8092; 8093; 8094; 8095; 8104; 8105; 8106; 8107; 8108; 8109; 8110; 8111; 8114;
   8116; 8118; 8119; 8120; 8121; 8122; 8124; 8125; 8127; 8128; 8129; 8130; 8132; 8134; 8135; 8136;
   8138; 8140; 8141; 8142; 8143; 8146; 8150; 8151; 8152; 8153; 8154; 8157; 8158; 8159; 8162; 8164;
   8166; 8167; 8168; 8169; 8170; 8172; 8173; 8178; 8180; 8182; 8183; 8184; 8186; 8188; 8190; 8215;
   8229; 8230; 8243; 8244; 8246; 8247; 8252; 8254; 8263; 8264; 8265; 8279; 8360; 8448; 8449; 8451;
   8453; 8454; 8457; 8470; 8480; 8481; 8482; 8507; 8528; 8529; 8530; 8531; 8532; 8533; 8534; 8535;
   8536; 8537; 8538; 8539; 8540; 8541; 8542; 8543; 8545; 8546; 8547; 8549; 8550; 8551; 8552; 8554;
   8555; 8585; 8602; 8603; 8622; 8653; 8654; 8655; 8708; 8713; 8716; 8740; 8742; 8748; 8749; 8751;
   8752; 8769; 8772; 8775; 8777; 8800; 8802; 8813; 8814; 8815; 8816; 8817; 8820; 8821; 8824; 8825;
   8832; 8833; 8836; 8837; 8840; 8841; 8876; 8877; 8878; 8879; 8928; 8929; 8930; 8931; 8938; 8939;
   8940; 8941; 9321; 9322; 9323; 9324; 9325; 9326; 9327; 9328; 9329; 9330; 9331; 9332; 9333; 9334;
   9335; 9336; 9337; 9338; 9339; 9340; 9341; 9342; 9343; 9344; 9345; 9346; 9347; 9348; 9349; 9350;
   9351; 9352; 9353; 9354; 9355; 9356; 9357; 9358; 9359; 9360; 9361; 9362; 9363; 9364; 9365; 9366;
   9367; 9368; 9369; 9370; 9371; 9372; 9373; 9374; 9375; 9376; 9377; 9378; 9379; 9380; 9381; 9382;
   9383; 9384; 9385; 9386; 9387; 9388; 9389; 9390; 9391; 9392; 9393; 9394; 9395; 9396; 9397; 10764;
   10868; 10869; 10870; 10972; 12364; 12366; 12368; 12370; 12372; 12374; 12376; 12378; 12380; 12382; 12384; 12386;
   12389; 12391; 12393; 12400; 12401; 12403; 12404; 12406; 12407; 12409; 12410; 12412; 12413; 12436; 12443; 12444;
   12446; 12447; 12460; 12462; 12464; 12466; 12468; 12470; 12472; 12474; 12476; 12478; 12480; 12482; 12485; 12487;
   12489; 12496; 12497; 12499; 12500; 12502; 12503; 12505; 12506; 12508; 12509; 12532; 12535; 12536; 12537; 12538;
   12542; 12543; 12800; 12801; 12802; 12803; 12804; 12805; 12806; 12807; 12808; 12809; 12810; 12811; 12812; 12813;
   12814; 12815; 12816; 12817; 12818; 12819; 12820; 12821; 12822; 12823; 12824; 12825; 12826; 12827; 12828; 12829;
   12830; 12832; 12833; 12834; 12835; 12836; 12837; 12838; 12839; 12840; 12841; 12842; 12843; 12844; 12845; 12846;
   12847; 12848; 12849; 12850; 12851; 12852; 12853; 12854; 12855; 12856; 12857; 12858; 12859; 12860; 12861; 12862;
   12863; 12864; 12865; 12866; 12867; 12880; 12881; 12882; 12883; 12884; 12885; 12886; 12887; 12888; 12889; 12890;
   12891; 12892; 12893; 12894; 12895; 12910; 12911; 12912; 12913; 12914; 12915; 12916; 12917; 12918; 12919; 12920;
   12921; 12922; 12923; 12924; 12925; 12926; 12977; 12978; 12979; 12980; 12981; 12982; 12983; 12984; 12985; 12986;
   12987; 12988; 12989; 12990; 12991; 12992; 12993; 12994; 12995; 12996; 12997; 12998; 12999; 13000; 13001; 13002;
   13003; 13004; 13005; 13006; 13007; 13056; 13057; 13058; 13059; 13060; 13061; 13062; 13063; 13064; 13065; 13066;
   13067; 13068; 13069; 13070; 13071; 13072; 13073; 13074; 13075; 13076; 13077; 13078; 13079; 13080; 13081; 13082;
   13083; 13084; 13085; 13086; 13087; 13088; 13089; 13090; 13091; 13092; 13093; 13094; 13095; 13096; 13097; 13098;
   13099; 13100; 13101; 13102; 13103; 13104; 13105; 13106; 13107; 13108; 13109; 13110; 13111; 13112; 13113; 13114;
   13115; 13116; 13117; 13118; 13119; 13120; 13121; 13122; 13123; 13124; 13125; 13126; 13127; 13128; 13129; 13130;
   13131; 13132; 13133; 13134; 13135; 13136; 13137; 13138; 13139; 13140; 13141; 13142; 13143; 13144; 13145; 13146;
   13147; 13148; 13149; 13150; 13151; 13152; 13153; 13154; 13155; 13156; 13157; 13158; 13159; 13160; 13161; 13162;
   13163; 13164; 13165; 13166; 13167; 13168; 13169; 13170; 13171; 13172; 13173; 13174; 13175; 13176; 13177; 13178;
   13179; 13180; 13181; 13182; 13183; 13184; 13185; 13186; 13187; 13188; 13189; 13190; 13191; 13192; 13193; 13194;
   13195; 13196; 13197; 13198; 13199; 13200; 13201; 13202; 13203; 13204; 13205; 13206; 13207; 13208; 13209; 13210;
   13211; 13212; 13213; 13214; 13215; 13216; 13217; 13218; 13219; 13220; 13221; 13222; 13223; 13224; 13225; 13226;
   13227; 13228; 13229; 13230; 13231; 13232; 13233; 13234; 13235; 13236; 13237; 13238; 13239; 13240; 13241; 13242;
   13243; 13244; 13245; 13246; 13247; 13248; 13249; 13250; 13251; 13252; 13253; 13254; 13255; 13256; 13257; 13258;
   13259; 13260; 13261; 13262; 13263; 13264; 13265; 13266; 13267; 13268; 13269; 13270; 13271; 13272; 13273; 13274;
   13275; 13276; 13277; 13278; 13279; 13280; 13281; 13282; 13283; 13284; 13285; 13286; 13287; 13288; 13289; 13290;
   13291; 13292; 13293; 13294; 13295; 13296; 13297; 13298; 13299; 13300; 13301; 13302; 13303; 13304; 13305; 13306;
   13307; 13308; 13309; 13310; 13311; 64256; 64257; 64258; 64259; 64260; 64261; 64262; 64275; 64276; 64277; 64278;
   64279; 64285; 64287; 64298; 64299; 64300; 64301; 64302; 64303; 64304; 64305; 64306; 64307; 64308; 64309; 64310;
   64312; 64313; 64314; 64315; 64316; 64318; 64320; 64321; 64323; 64324; 64326; 64327; 64328; 64329; 64330; 64331;
   64332; 64333; 64334; 64335; 64490; 64491; 64492; 64493; 64494; 64495; 64496; 64497; 64498; 64499; 64500; 64501;
   64502; 64503; 64504; 64505; 64506; 64507; 64512; 64513; 64514; 64515; 64516; 64517; 64518; 64519; 64520; 64521;
   64522; 64523; 64524; 64525; 64526; 64527; 64528; 64529; 64530; 64531; 64532; 64533; 64534; 64535; 64536; 64537;
   64538; 64539; 64540; 64541; 64542; 64543; 64544; 64545; 64546; 64547; 64548; 64549; 64550; 64551; 64552; 64553;
   64554; 64555; 64556; 64557; 64558; 64559; 64560; 64561; 64562; 64563; 64564; 64565; 64566; 64567; 64568; 64569;
   64570; 64571; 64572; 64573; 64574; 64575; 64576; 64577; 64578; 64579; 64580; 64581; 64582; 64583; 64584; 64585;
   64586; 64587; 64588; 64589; 64590; 64591; 64592; 64593; 64594; 64595; 64596; 64597; 64598; 64599; 64600; 64601;
   64602; 64603; 64604; 64605; 64606; 64607; 64608; 64609; 64610; 64611; 64612; 64613; 64614; 64615; 64616; 64617;
   64618; 64619; 64620; 64621; 64622; 64623; 64624; 64625; 64626; 64627; 64628; 64629; 64630; 64631; 64632; 64633;
   64634; 64635; 64636; 64637; 64638; 64639; 64640; 64641; 64642; 64643; 64644; 64645; 64646; 64647; 64648; 64649;
   64650; 64651; 64652; 64653; 64654; 64655; 64656; 64657; 64658; 64659; 64660; 64661; 64662; 64663; 64664; 64665;
   64666; 64667; 64668; 64669; 64670; 64671; 64672; 64673; 64674; 64675; 64676; 64677; 64678; 64679; 64680; 64681;
   64682; 64683; 64684; 64685; 64686; 64687; 64688; 64689; 64690; 64691; 64692; 64693; 64694; 64695; 64696; 64697;
   64698; 64699; 64700; 64701; 64702; 64703; 64704; 64705; 64706; 64707; 64708; 64709; 64710; 64711; 64712; 64713;
   64714; 64715; 64716; 64717; 64718; 64719; 64720; 64721; 64722; 64723; 64724; 64725; 64726; 64727; 64728; 64729;
   64730; 64731; 64732; 64733; 64734; 64735; 64736; 64737; 64738; 64739; 64740; 64741; 64742; 64743; 64744; 64745;
   64746; 64747; 64748; 64749; 64750; 64751; 64752; 64753; 64754; 64755; 64756; 64757; 64758; 64759; 64760; 64761;
   64762; 64763; 64764; 64765; 64766; 64767; 64768; 64769; 64770; 64771; 64772; 64773; 64774; 64775; 64776; 64777;
   64778; 64779; 64780; 64781; 64782; 64783; 64784; 64785; 64786; 64787; 64788; 64789; 64790; 64791; 64792; 64793;
   64794; 64795; 64796; 64797; 64798; 64799; 64800; 64801; 64802; 64803; 64804; 64805; 64806; 64807; 64808; 64809;
   64810; 64811; 64812; 64813; 64814; 64815; 64816; 64817; 64818; 64819; 64820; 64821; 64822; 64823; 64824; 64825;
   64826; 64827; 64828; 64829; 64848; 64849; 64850; 64851; 64852; 64853; 64854; 64855; 64856; 64857; 64858; 64859;
   64860; 64861; 64862; 64863; 64864; 64865; 64866; 64867; 64868; 64869; 64870; 64871; 64872; 64873; 64874; 64875;
   64876; 64877; 64878; 64879; 64880; 64881; 64882; 64883; 64884; 64885; 64886; 64887; 64888; 64889; 64890; 64891;
   64892; 64893; 64894; 64895; 64896; 64897; 64898; 64899; 64900; 64901; 64902; 64903; 64904; 64905; 64906; 64907;
   64908; 64909; 64910; 64911; 64914; 64915; 64916; 64917; 64918; 64919; 64920; 64921; 64922; 64923; 64924; 64925;
   64926; 64927; 64928; 64929; 64930; 64931; 64932; 64933; 64934; 64935; 64936; 64937; 64938; 64939; 64940; 64941;
   64942; 64943; 64944; 64945; 64946; 64947; 64948; 64949; 64950; 64951; 64952; 64953; 64954; 64955; 64956; 64957;
   64958; 64959; 64960; 64961; 64962; 64963; 64964; 64965; 64966; 64967; 65008; 65009; 65010; 65011; 65012; 65013;
   65014; 65015; 65016; 65017; 65018; 65019; 65020; 65136; 65137; 65138; 65140; 65142; 65143; 65144; 65145; 65146;
   65147; 65148; 65149; 65150; 65151; 65269; 65270; 65271; 65272; 65273; 65274; 65275; 65276; 69786; 69788; 69803;
   69934; 69935; 119134; 119135; 119136; 119137; 119138; 119139; 119140; 119227; 119228; 119229; 119230; 119231; 119232; 127232;
   127233; 127234; 127235; 127236; 127237; 127238; 127239; 127240; 127241; 127242; 127248; 127249; 127250; 127251; 127252; 127253;
   127254; 127255; 127256; 127257; 127258; 127259; 127260; 127261; 127262; 127263; 127264; 127265; 127266; 127267; 127268; 127269;
   127270; 127271; 127272; 127273; 127274; 127277; 127278; 127306; 127307; 127308; 127309; 127310; 127311; 127338; 127339; 127376;
   127488; 127489; 127552; 127553; 127554; 127555; 127556; 127557; 127558; 127559; 127560].

Definition c_multidecomp_offsets : list Z :=
  [0; 3; 6; 9; 12; 16; 20; 24; 27; 30; 33; 36; 39; 42; 45; 48;
   51; 54; 57; 60; 63; 66; 69; 72; 75; 78; 81; 84; 87; 90; 93; 96;
   99; 102; 105; 108; 111; 114; 117; 120; 123; 126; 129; 132; 135; 138; 141; 144;
   147; 150; 153; 156; 159; 162; 165; 168; 171; 174; 177; 180; 183; 186; 189; 192;
   195; 198; 201; 204; 207; 210; 213; 216; 219; 222; 225; 228; 231; 234; 237; 240;
   243; 246; 249; 252; 255; 258; 261; 264; 267; 270; 273; 276; 279; 282; 285; 288;
   291; 294; 297; 300; 303; 306; 309; 312; 315; 318; 321; 324; 327; 330; 333; 336;
   339; 342; 345; 348; 351; 354; 357; 360; 363; 366; 369; 372; 375; 378; 381; 384;
   387; 390; 393; 396; 399; 402; 405; 408; 411; 414; 417; 420; 423; 426; 429; 432;
   435; 438; 441; 444; 447; 450; 453; 456; 459; 462; 465; 468; 471; 474; 477; 480;
   483; 486; 489; 492; 495; 498; 501; 504; 507; 510; 513; 516; 519; 522; 525; 528;
   531; 534; 537; 540; 543; 546; 549; 552; 555; 558; 561; 564; 567; 570; 573; 576;
   579; 582; 585; 588; 591; 594; 597; 600; 603; 606; 609; 612; 615; 618; 621; 624;
   627; 630; 633; 636; 639; 642; 645; 648; 651; 654; 657; 660; 663; 666; 669; 672;
   675; 678; 681; 684; 687; 690; 693; 696; 699; 702; 705; 708; 711; 714; 717; 720;
   723; 726; 729; 732; 735; 738; 741; 744; 747; 750; 753; 756; 759; 762; 765; 768;
   771; 774; 777; 780; 783; 786; 789; 792; 795; 798; 801; 804; 807; 810; 813; 816;
   819; 822; 825; 828; 831; 834; 837; 840; 843; 846; 849; 852; 855; 858; 861; 864;
   867; 870; 873; 876; 879; 882; 885; 888; 891; 894; 897; 900; 903; 906; 909; 912;
   915; 918; 921; 924; 927; 930; 933; 936; 939; 942; 945; 948; 951; 954; 957; 960;
   963; 966; 969; 972; 975; 978; 981; 984; 987; 990; 993; 996; 999; 1002; 1005; 1008;
   1011; 1014; 1017; 1020; 1023; 1026; 1029; 1032; 1035; 1038; 1041; 1044; 1047; 1050; 1053; 1056;
   1059; 1062; 1065; 1068; 1071; 1074; 1077; 1080; 1083; 1086; 1089; 1092; 1095; 1098; 1101; 1104;
   1107; 1110; 1113; 1116; 1119; 1122; 1125; 1128; 1131; 1134; 1137; 1140; 1143; 1146; 1149; 1152;
   1155; 1158; 1161; 1164; 1167; 1170; 1173; 1176; 1179; 1182; 1185; 1188; 1191; 1194; 1197; 1200;
   1203; 1206; 1209; 1212; 1215; 1218; 1221; 1224; 1227; 1230; 1233; 1236; 1239; 1242; 1245; 1248;
   1251; 1254; 1257; 1260; 1263; 1266; 1269; 1272; 1275; 1278; 1281; 1284; 1287; 1290; 1293; 1296;
   1299; 1302; 1305; 1308; 1311; 1314; 1317; 1320; 1323; 1326; 1329; 1332; 1335; 1338; 1341; 1344;
   1347; 1350; 1353; 1356; 1359; 1362; 1365; 1368; 1371; 1374; 1377; 1380; 1383; 1386; 1389; 1392;
   1395; 1398; 1401; 1404; 1407; 1410; 1413; 1416; 1419; 1422; 1425; 1428; 1431; 1434; 1437; 1440;
   1443; 1446; 1449; 1452; 1455; 1458; 1461; 1464; 1467; 1470; 1473; 1476; 1479; 1482; 1485; 1488;
   1491; 1494; 1497; 1500; 1503; 1506; 1509; 1512; 1515; 1518; 1521; 1524; 1527; 1530; 1533; 1536;
   1539; 1542; 1545; 1548; 1551; 1554; 1557; 1560; 1563; 1566; 1569; 1572; 1575; 1578; 1581; 1584;
   1587; 1590; 1594; 1597; 1601; 1604; 1608; 1611; 1614; 1617; 1620; 1623; 1628; 1631; 1635; 1639;
   1642; 1646; 1650; 1653; 1656; 1659; 1663; 1666; 1670; 1674; 1678; 1683; 1687; 1691; 1695; 1699;
   1703; 1707; 1711; 1715; 1719; 1723; 1727; 1731; 1734; 1737; 1741; 1744; 1747; 1751; 1756; 1759;
   1762; 1766; 1770; 1773; 1776; 1779; 1782; 1785; 1788; 1791; 1794; 1797; 1800; 1803; 1806; 1810;
   1813; 1817; 1820; 1823; 1826; 1829; 1832; 1835; 1838; 1841; 1844; 1847; 1850; 1853; 1856; 1859;
   1862; 1865; 1868; 1871; 1874; 1877; 1880; 1883; 1886; 1889; 1892; 1895; 1898; 1901; 1904; 1907;
   1910; 1913; 1916; 1919; 1922; 1925; 1928; 1931; 1934; 1937; 1940; 1943; 1946; 1949; 1953; 1957;
   1961; 1965; 1969; 1973; 1977; 1981; 1985; 1990; 1995; 2000; 2005; 2010; 2015; 2020; 2025; 2030;
   2035; 2040; 2043; 2046; 2049; 2052; 2055; 2058; 2061; 2064; 2067; 2071; 2075; 2079; 2083; 2087;
   2091; 2095; 2099; 2103; 2107; 2111; 2115; 2119; 2123; 2127; 2131; 2135; 2139; 2143; 2147; 2151;
   2155; 2159; 2163; 2167; 2171; 2175; 2179; 2183; 2187; 2191; 2195; 2199; 2203; 2207; 2211; 2215;
   2220; 2224; 2227; 2231; 2234; 2237; 2240; 2243; 2246; 2249; 2252; 2255; 2258; 2261; 2264; 2267;
   2270; 2273; 2276; 2279; 2282; 2285; 2288; 2291; 2294; 2297; 2300; 2303; 2306; 2309; 2312; 2315;
   2318; 2321; 2324; 2327; 2330; 2333; 2336; 2339; 2342; 2345; 2348; 2351; 2354; 2357; 2360; 2363;
   2366; 2369; 2372; 2375; 2378; 2381; 2384; 2387; 2390; 2393; 2396; 2399; 2402; 2405; 2408; 2411;
   2414; 2417; 2420; 2424; 2428; 2432; 2436; 2440; 2444; 2448; 2452; 2456; 2460; 2464; 2468; 2472;
   2476; 2481; 2486; 2491; 2496; 2501; 2506; 2511; 2516; 2521; 2526; 2531; 2536; 2541; 2546; 2551;
   2559; 2566; 2570; 2574; 2578; 2582; 2586; 2590; 2594; 2598; 2602; 2606; 2610; 2614; 2618; 2622;
   2626; 2630; 2634; 2638; 2642; 2646; 2650; 2654; 2658; 2662; 2666; 2670; 2674; 2678; 2682; 2686;
   2690; 2694; 2698; 2702; 2706; 2710; 2714; 2717; 2720; 2723; 2726; 2729; 2732; 2735; 2738; 2741;
   2744; 2747; 2750; 2753; 2756; 2759; 2762; 2765; 2768; 2771; 2774; 2777; 2780; 2783; 2786; 2789;
   2792; 2795; 2798; 2801; 2807; 2812; 2815; 2818; 2821; 2824; 2827; 2830; 2833; 2836; 2839; 2842;
   2845; 2848; 2851; 2854; 2857; 2860; 2863; 2866; 2869; 2872; 2875; 2878; 2881; 2884; 2887; 2891;
   2895; 2899; 2902; 2906; 2909; 2913; 2918; 2923; 2928; 2932; 2937; 2941; 2945; 2951; 2956; 2960;
   2964; 2968; 2973; 2978; 2982; 2986; 2989; 2993; 2998; 3003; 3006; 3012; 3019; 3025; 3029; 3035;
   3041; 3046; 3050; 3054; 3058; 3063; 3069; 3074; 3078; 3082; 3086; 3089; 3092; 3095; 3098; 3102;
   3106; 3112; 3116; 3121; 3127; 3131; 3134; 3137; 3143; 3148; 3154; 3158; 3164; 3167; 3171; 3175;
   3179; 3183; 3187; 3192; 3196; 3199; 3203; 3207; 3211; 3216; 3220; 3224; 3228; 3234; 3239; 3242;
   3248; 3251; 3256; 3261; 3265; 3269; 3273; 3278; 3281; 3285; 3290; 3293; 3299; 3303; 3306; 3309;
   3312; 3315; 3318; 3321; 3324; 3327; 3330; 3333; 3337; 3341; 3345; 3349; 3353; 3357; 3361; 3365;
   3369; 3373; 3377; 3381; 3385; 3389; 3393; 3397; 3400; 3403; 3407; 3410; 3413; 3416; 3420; 3424;
   3427; 3430; 3433; 3436; 3439; 3444; 3447; 3450; 3453; 3456; 3459; 3462; 3465; 3468; 3472; 3477;
   3480; 3483; 3486; 3489; 3492; 3495; 3498; 3502; 3506; 3510; 3514; 3517; 3520; 3523; 3526; 3529;
   3532; 3535; 3538; 3541; 3544; 3548; 3552; 3555; 3559; 3563; 3567; 3570; 3574; 3578; 3583; 3586;
   3590; 3594; 3598; 3602; 3608; 3615; 3618; 3621; 3624; 3627; 3630; 3633; 3636; 3639; 3642; 3645;
   3648; 3651; 3654; 3657; 3660; 3663; 3666; 3669; 3674; 3677; 3680; 3683; 3688; 3692; 3695; 3698;
   3701; 3704; 3707; 3710; 3713; 3716; 3719; 3722; 3726; 3729; 3732; 3736; 3740; 3743; 3748; 3752;
   3755; 3758; 3761; 3764; 3768; 3772; 3775; 3778; 3781; 3784; 3787; 3790; 3793; 3796; 3799; 3803;
   3807; 3811; 3815; 3819; 3823; 3827; 3831; 3835; 3839; 3843; 3847; 3851; 3855; 3859; 3863; 3867;
   3871; 3875; 3879; 3883; 3887; 3891; 3894; 3897; 3900; 3904; 3908; 3911; 3914; 3917; 3920; 3923;
   3926; 3929; 3932; 3935; 3938; 3941; 3944; 3947; 3950; 3953; 3956; 3959; 3962; 3965; 3968; 3971;
   3974; 3977; 3980; 3983; 3986; 3989; 3992; 3995; 3998; 4001; 4004; 4007; 4010; 4013; 4016; 4019;
   4022; 4025; 4028; 4031; 4034; 4037; 4040; 4043; 4046; 4049; 4052; 4055; 4058; 4061; 4064; 4067;
   4070; 4073; 4076; 4079; 4082; 4085; 4088; 4091; 4094; 4097; 4100; 4103; 4106; 4109; 4112; 4115;
   4118; 4121; 4124; 4127; 4130; 4133; 4136; 4139; 4142; 4145; 4148; 4151; 4154; 4157; 4160; 4163;
   4166; 4169; 4172; 4175; 4178; 4181; 4184; 4187; 4190; 4193; 4196; 4199; 4202; 4205; 4208; 4211;
   4214; 4217; 4220; 4223; 4226; 4229; 4232; 4235; 4238; 4241; 4244; 4247; 4250; 4253; 4256; 4259;
   4262; 4265; 4268; 4271; 4274; 4277; 4280; 4283; 4286; 4289; 4292; 4295; 4298; 4301; 4304; 4307;
   4310; 4313; 4316; 4319; 4322; 4325; 4328; 4331; 4334; 4337; 4340; 4343; 4346; 4349; 4352; 4355;
   4358; 4361; 4364; 4367; 4370; 4374; 4378; 4382; 4386; 4390; 4394; 4397; 4400; 4403; 4406; 4409;
   4412; 4415; 4418; 4421; 4424; 4427; 4430; 4433; 4436; 4439; 4442; 4445; 4448; 4451; 4454; 4457;
   4460; 4463; 4466; 4469; 4472; 4475; 4478; 4481; 4484; 4487; 4490; 4493; 4496; 4499; 4502; 4505;
   4508; 4511; 4514; 4517; 4520; 4523; 4526; 4529; 4532; 4535; 4538; 4541; 4544; 4547; 4550; 4553;
   4556; 4559; 4562; 4565; 4568; 4571; 4574; 4577; 4580; 4583; 4586; 4589; 4592; 4595; 4598; 4601;
   4604; 4607; 4610; 4613; 4616; 4619; 4622; 4625; 4628; 4631; 4634; 4637; 4640; 4643; 4646; 4649;
   4652; 4655; 4658; 4661; 4664; 4667; 4670; 4673; 4676; 4679; 4682; 4685; 4688; 4691; 4694; 4697;
   4700; 4703; 4706; 4709; 4712; 4715; 4718; 4721; 4724; 4727; 4730; 4733; 4736; 4739; 4742; 4745;
   4748; 4751; 4754; 4757; 4760; 4763; 4766; 4769; 4772; 4775; 4778; 4781; 4784; 4787; 4790; 4793;
   4796; 4799; 4802; 4805; 4808; 4811; 4814; 4817; 4820; 4824; 4828; 4832; 4835; 4838; 4841; 4844;
   4847; 4850; 4853; 4856; 4859; 4862; 4865; 4868; 4871; 4874; 4877; 4880; 4883; 4886; 4889; 4892;
   4895; 4898; 4901; 4904; 4907; 4910; 4913; 4916; 4919; 4922; 4925; 4928; 4931; 4934; 4937; 4940;
   4943; 4946; 4949; 4952; 4955; 4958; 4961; 4964; 4967; 4970; 4973; 4976; 4979; 4982; 4985; 4988;
   4991; 4994; 4997; 5000; 5003; 5006; 5009; 5012; 5015; 5018; 5021; 5024; 5027; 5030; 5033; 5036;
   5039; 5042; 5045; 5048; 5051; 5055; 5059; 5063; 5067; 5071; 5075; 5079; 5083; 5087; 5091; 5095;
   5099; 5103; 5107; 5111; 5115; 5119; 5123; 5127; 5131; 5135; 5139; 5143; 5147; 5151; 5155; 5159;
   5163; 5167; 5171; 5175; 5179; 5183; 5187; 5191; 5195; 5199; 5203; 5207; 5211; 5215; 5219; 5223;
   5227; 5231; 5235; 5239; 5243; 5247; 5251; 5255; 5259; 5263; 5267; 5271; 5275; 5279; 5283; 5287;
   5291; 5295; 5299; 5303; 5307; 5311; 5315; 5319; 5323; 5327; 5331; 5335; 5339; 5343; 5347; 5351;
   5355; 5359; 5363; 5367; 5371; 5375; 5379; 5383; 5387; 5391; 5395; 5399; 5403; 5407; 5411; 5415;
   5419; 5423; 5427; 5431; 5435; 5439; 5443; 5447; 5451; 5455; 5459; 5463; 5467; 5471; 5475; 5479;
   5483; 5487; 5491; 5495; 5499; 5503; 5507; 5511; 5515; 5519; 5523; 5527; 5531; 5536; 5541; 5546;
   5551; 5556; 5561; 5566; 5570; 5589; 5598; 5603; 5606; 5609; 5612; 5615; 5618; 5621; 5624; 5627;
   5630; 5633; 5636; 5639; 5642; 5645; 5648; 5651; 5654; 5657; 5660; 5663; 5666; 5669; 5672; 5675;
   5678; 5681; 5684; 5687; 5690; 5693; 5696; 5699; 5702; 5705; 5708; 5711; 5714; 5717; 5720; 5723;
   5726; 5729; 5732; 5735; 5738; 5741; 5744; 5747; 5750; 5753; 5756; 5760; 5764; 5768; 5772; 5776;
   5780; 5784; 5788; 5792; 5796; 5800; 5804; 5808; 5812; 5816; 5820; 5824; 5828; 5832; 5836; 5840;
   5844; 5848; 5852; 5856; 5860; 5864; 5867; 5870; 5873; 5876; 5879; 5882; 5886; 5889; 5892; 5895;
   5898; 5901; 5904; 5908; 5912; 5916; 5920; 5924; 5928; 5932; 5936].

Definition c_multidecomp_values : list Z :=
  [32; 776; 0; 32; 772; 0; 32; 769; 0; 32; 807; 0; 49; 8260; 52; 0;
   49; 8260; 50; 0; 51; 8260; 52; 0; 65; 768; 0; 65; 769; 0; 65; 770;
   0; 65; 771; 0; 65; 776; 0; 65; 778; 0; 67; 807; 0; 69; 768; 0;
   69; 769; 0; 69; 770; 0; 69; 776; 0; 73; 768; 0; 73; 769; 0; 73;
   770; 0; 73; 776; 0; 78; 771; 0; 79; 768; 0; 79; 769; 0; 79; 770;
   0; 79; 771; 0; 79; 776; 0; 85; 768; 0; 85; 769; 0; 85; 770; 0;
   85; 776; 0; 89; 769; 0; 65; 772; 0; 65; 774; 0; 65; 808; 0; 67;
   769; 0; 67; 770; 0; 67; 775; 0; 67; 780; 0; 68; 780; 0; 69; 772;
   0; 69; 774; 0; 69; 775; 0; 69; 808; 0; 69; 780; 0; 71; 770; 0;
   71; 774; 0; 71; 775; 0; 71; 807; 0; 72; 770; 0; 73; 771; 0; 73;
   772; 0; 73; 774; 0; 73; 808; 0; 73; 775; 0; 73; 74; 0; 74; 770;
   0; 75; 807; 0; 76; 769; 0; 76; 807; 0; 76; 780; 0; 76; 183; 0;
   78; 769; 0; 78; 807; 0; 78; 780; 0; 700; 110; 0; 79; 772; 0; 79;
   774; 0; 79; 779; 0; 82; 769; 0; 82; 807; 0; 82; 780; 0; 83; 769;
   0; 83; 770; 0; 83; 807; 0; 83; 780; 0; 84; 807; 0; 84; 780; 0;
   85; 771; 0; 85; 772; 0; 85; 774; 0; 85; 778; 0; 85; 779; 0; 85;
   808; 0; 87; 770; 0; 89; 770; 0; 89; 776; 0; 90; 769; 0; 90; 775;
   0; 90; 780; 0; 79; 795; 0; 85; 795; 0; 65; 780; 0; 73; 780; 0;
   79; 780; 0; 85; 780; 0; 220; 772; 0; 220; 769; 0; 220; 780; 0; 220;
   768; 0; 196; 772; 0; 550; 772; 0; 198; 772; 0; 71; 780; 0; 75; 780;
   0; 79; 808; 0; 490; 772; 0; 439; 780; 0; 106; 780; 0; 71; 769; 0;
   78; 768; 0; 197; 769; 0; 198; 769; 0; 216; 769; 0; 65; 783; 0; 65;
   785; 0; 69; 783; 0; 69; 785; 0; 73; 783; 0; 73; 785; 0; 79; 783;
   0; 79; 785; 0; 82; 783; 0; 82; 785; 0; 85; 783; 0; 85; 785; 0;
   83; 806; 0; 84; 806; 0; 72; 780; 0; 65; 775; 0; 69; 807; 0; 214;
   772; 0; 213; 772; 0; 79; 775; 0; 558; 772; 0; 89; 772; 0; 32; 774;
   0; 32; 775; 0; 32; 778; 0; 32; 808; 0; 32; 771; 0; 32; 779; 0;
   776; 769; 0; 32; 837; 0; 32; 769; 0; 168; 769; 0; 913; 769; 0; 917;
   769; 0; 919; 769; 0; 921; 769; 0; 927; 769; 0; 933; 769; 0; 937; 769;
   0; 970; 769; 0; 921; 776; 0; 933; 776; 0; 971; 769; 0; 978; 769; 0;
   978; 776; 0; 1045; 768; 0; 1045; 776; 0; 1043; 769; 0; 1030; 776; 0; 1050;
   769; 0; 1048; 768; 0; 1059; 774; 0; 1048; 774; 0; 1140; 783; 0; 1046; 774;
   0; 1040; 774; 0; 1040; 776; 0; 1045; 774; 0; 1240; 776; 0; 1046; 776; 0;
   1047; 776; 0; 1048; 772; 0; 1048; 776; 0; 1054; 776; 0; 1256; 776; 0; 1069;
   776; 0; 1059; 772; 0; 1059; 776; 0; 1059; 779; 0; 1063; 776; 0; 1067; 776;
   0; 1381; 1410; 0; 1575; 1619; 0; 1575; 1620; 0; 1608; 1620; 0; 1575; 1621; 0;
   1610; 1620; 0; 1575; 1652; 0; 1608; 1652; 0; 1735; 1652; 0; 1610; 1652; 0; 1749;
   1620; 0; 1729; 1620; 0; 1746; 1620; 0; 2344; 2364; 0; 2352; 2364; 0; 2355; 2364;
   0; 2325; 2364; 0; 2326; 2364; 0; 2327; 2364; 0; 2332; 2364; 0; 2337; 2364; 0;
   2338; 2364; 0; 2347; 2364; 0; 2351; 2364; 0; 2503; 2494; 0; 2503; 2519; 0; 2465;
   2492; 0; 2466; 2492; 0; 2479; 2492; 0; 2610; 2620; 0; 2616; 2620; 0; 2582; 2620;
   0; 2583; 2620; 0; 2588; 2620; 0; 2603; 2620; 0; 2887; 2902; 0; 2887; 2878; 0;
   2887; 2903; 0; 2849; 2876; 0; 2850; 2876; 0; 2962; 3031; 0; 3014; 3006; 0; 3015;
   3006; 0; 3014; 3031; 0; 3142; 3158; 0; 3263; 3285; 0; 3270; 3285; 0; 3270; 3286;
   0; 3270; 3266; 0; 3274; 3285; 0; 3398; 3390; 0; 3399; 3390; 0; 3398; 3415; 0;
   3545; 3530; 0; 3545; 3535; 0; 3548; 3530; 0; 3545; 3551; 0; 3661; 3634; 0; 3789;
   3762; 0; 3755; 3737; 0; 3755; 3745; 0; 3906; 4023; 0; 3916; 4023; 0; 3921; 4023;
   0; 3926; 4023; 0; 3931; 4023; 0; 3904; 4021; 0; 3953; 3954; 0; 3953; 3956; 0;
   4018; 3968; 0; 4018; 3969; 0; 4019; 3968; 0; 4019; 3969; 0; 3953; 3968; 0; 3986;
   4023; 0; 3996; 4023; 0; 4001; 4023; 0; 4006; 4023; 0; 4011; 4023; 0; 3984; 4021;
   0; 4133; 4142; 0; 6917; 6965; 0; 6919; 6965; 0; 6921; 6965; 0; 6923; 6965; 0;
   6925; 6965; 0; 6929; 6965; 0; 6970; 6965; 0; 6972; 6965; 0; 6974; 6965; 0; 6975;
   6965; 0; 6978; 6965; 0; 65; 805; 0; 66; 775; 0; 66; 803; 0; 66; 817;
   0; 199; 769; 0; 68; 775; 0; 68; 803; 0; 68; 817; 0; 68; 807; 0;
   68; 813; 0; 274; 768; 0; 274; 769; 0; 69; 813; 0; 69; 816; 0; 552;
   774; 0; 70; 775; 0; 71; 772; 0; 72; 775; 0; 72; 803; 0; 72; 776;
   0; 72; 807; 0; 72; 814; 0; 73; 816; 0; 207; 769; 0; 75; 769; 0;
   75; 803; 0; 75; 817; 0; 76; 803; 0; 7734; 772; 0; 76; 817; 0; 76;
   813; 0; 77; 769; 0; 77; 775; 0; 77; 803; 0; 78; 775; 0; 78; 803;
   0; 78; 817; 0; 78; 813; 0; 213; 769; 0; 213; 776; 0; 332; 768; 0;
   332; 769; 0; 80; 769; 0; 80; 775; 0; 82; 775; 0; 82; 803; 0; 7770;
   772; 0; 82; 817; 0; 83; 775; 0; 83; 803; 0; 346; 775; 0; 352; 775;
   0; 7778; 775; 0; 84; 775; 0; 84; 803; 0; 84; 817; 0; 84; 813; 0;
   85; 804; 0; 85; 816; 0; 85; 813; 0; 360; 769; 0; 362; 776; 0; 86;
   771; 0; 86; 803; 0; 87; 768; 0; 87; 769; 0; 87; 776; 0; 87; 775;
   0; 87; 803; 0; 88; 775; 0; 88; 776; 0; 89; 775; 0; 90; 770; 0;
   90; 803; 0; 90; 817; 0; 104; 817; 0; 116; 776; 0; 119; 778; 0; 121;
   778; 0; 97; 702; 0; 65; 803; 0; 65; 777; 0; 194; 769; 0; 194; 768;
   0; 194; 777; 0; 194; 771; 0; 7840; 770; 0; 258; 769; 0; 258; 768; 0;
   258; 777; 0; 258; 771; 0; 7840; 774; 0; 69; 803; 0; 69; 777; 0; 69;
   771; 0; 202; 769; 0; 202; 768; 0; 202; 777; 0; 202; 771; 0; 7864; 770;
   0; 73; 777; 0; 73; 803; 0; 79; 803; 0; 79; 777; 0; 212; 769; 0;
   212; 768; 0; 212; 777; 0; 212; 771; 0; 7884; 770; 0; 416; 769; 0; 416;
   768; 0; 416; 777; 0; 416; 771; 0; 416; 803; 0; 85; 803; 0; 85; 777;
   0; 431; 769; 0; 431; 768; 0; 431; 777; 0; 431; 771; 0; 431; 803; 0;
   89; 768; 0; 89; 803; 0; 89; 777; 0; 89; 771; 0; 913; 787; 0; 913;
   788; 0; 7944; 768; 0; 7945; 768; 0; 7944; 769; 0; 7945; 769; 0; 7944; 834;
   0; 7945; 834; 0; 917; 787; 0; 917; 788; 0; 7960; 768; 0; 7961; 768; 0;
   7960; 769; 0; 7961; 769; 0; 919; 787; 0; 919; 788; 0; 7976; 768; 0; 7977;
   768; 0; 7976; 769; 0; 7977; 769; 0; 7976; 834; 0; 7977; 834; 0; 921; 787;
   0; 921; 788; 0; 7992; 768; 0; 7993; 768; 0; 7992; 769; 0; 7993; 769; 0;
   7992; 834; 0; 7993; 834; 0; 927; 787; 0; 927; 788; 0; 8008; 768; 0; 8009;
   768; 0; 8008; 769; 0; 8009; 769; 0; 965; 787; 0; 8016; 768; 0; 8016; 769;
   0; 8016; 834; 0; 933; 788; 0; 8025; 768; 0; 8025; 769; 0; 8025; 834; 0;
   937; 787; 0; 937; 788; 0; 8040; 768; 0; 8041; 768; 0; 8040; 769; 0; 8041;
   769; 0; 8040; 834; 0; 8041; 834; 0; 7944; 837; 0; 7945; 837; 0; 7946; 837;
   0; 7947; 837; 0; 7948; 837; 0; 7949; 837; 0; 7950; 837; 0; 7951; 837; 0;
   7976; 837; 0; 7977; 837; 0; 7978; 837; 0; 7979; 837; 0; 7980; 837; 0; 7981;
   837; 0; 7982; 837; 0; 7983; 837; 0; 8040; 837; 0; 8041; 837; 0; 8042; 837;
   0; 8043; 837; 0; 8044; 837; 0; 8045; 837; 0; 8046; 837; 0; 8047; 837; 0;
   8048; 837; 0; 940; 837; 0; 945; 834; 0; 8118; 837; 0; 913; 774; 0; 913;
   772; 0; 913; 768; 0; 913; 837; 0; 32; 787; 0; 32; 787; 0; 32; 834;
   0; 168; 834; 0; 8052; 837; 0; 942; 837; 0; 951; 834; 0; 8134; 837; 0;
   917; 768; 0; 919; 768; 0; 919; 837; 0; 8127; 768; 0; 8127; 769; 0; 8127;
   834; 0; 970; 768; 0; 953; 834; 0; 970; 834; 0; 921; 774; 0; 921; 772;
   0; 921; 768; 0; 8190; 768; 0; 8190; 769; 0; 8190; 834; 0; 971; 768; 0;
   961; 787; 0; 965; 834; 0; 971; 834; 0; 933; 774; 0; 933; 772; 0; 933;
   768; 0; 929; 788; 0; 168; 768; 0; 8060; 837; 0; 974; 837; 0; 969; 834;
   0; 8182; 837; 0; 927; 768; 0; 937; 768; 0; 937; 837; 0; 32; 788; 0;
   32; 819; 0; 46; 46; 0; 46; 46; 46; 0; 8242; 8242; 0; 8242; 8242; 8242;
   0; 8245; 8245; 0; 8245; 8245; 8245; 0; 33; 33; 0; 32; 773; 0; 63; 63;
   0; 63; 33; 0; 33; 63; 0; 8242; 8242; 8242; 8242; 0; 82; 115; 0; 97;
   47; 99; 0; 97; 47; 115; 0; 176; 67; 0; 99; 47; 111; 0; 99; 47;
   117; 0; 176; 70; 0; 78; 111; 0; 83; 77; 0; 84; 69; 76; 0; 84;
   77; 0; 70; 65; 88; 0; 49; 8260; 55; 0; 49; 8260; 57; 0; 49; 8260;
   49; 48; 0; 49; 8260; 51; 0; 50; 8260; 51; 0; 49; 8260; 53; 0; 50;
   8260; 53; 0; 51; 8260; 53; 0; 52; 8260; 53; 0; 49; 8260; 54; 0; 53;
   8260; 54; 0; 49; 8260; 56; 0; 51; 8260; 56; 0; 53; 8260; 56; 0; 55;
   8260; 56; 0; 49; 8260; 0; 73; 73; 0; 73; 73; 73; 0; 73; 86; 0;
   86; 73; 0; 86; 73; 73; 0; 86; 73; 73; 73; 0; 73; 88; 0; 88;
   73; 0; 88; 73; 73; 0; 48; 8260; 51; 0; 8592; 824; 0; 8594; 824; 0;
   8596; 824; 0; 8656; 824; 0; 8660; 824; 0; 8658; 824; 0; 8707; 824; 0; 8712;
   824; 0; 8715; 824; 0; 8739; 824; 0; 8741; 824; 0; 8747; 8747; 0; 8747; 8747;
   8747; 0; 8750; 8750; 0; 8750; 8750; 8750; 0; 8764; 824; 0; 8771; 824; 0; 8773;
   824; 0; 8776; 824; 0; 61; 824; 0; 8801; 824; 0; 8781; 824; 0; 60; 824;
   0; 62; 824; 0; 8804; 824; 0; 8805; 824; 0; 8818; 824; 0; 8819; 824; 0;
   8822; 824; 0; 8823; 824; 0; 8826; 824; 0; 8827; 824; 0; 8834; 824; 0; 8835;
   824; 0; 8838; 824; 0; 8839; 824; 0; 8866; 824; 0; 8872; 824; 0; 8873; 824;
   0; 8875; 824; 0; 8828; 824; 0; 8829; 824; 0; 8849; 824; 0; 8850; 824; 0;
   8882; 824; 0; 8883; 824; 0; 8884; 824; 0; 8885; 824; 0; 49; 48; 0; 49;
   49; 0; 49; 50; 0; 49; 51; 0; 49; 52; 0; 49; 53; 0; 49; 54;
   0; 49; 55; 0; 49; 56; 0; 49; 57; 0; 50; 48; 0; 40; 49; 41;
   0; 40; 50; 41; 0; 40; 51; 41; 0; 40; 52; 41; 0; 40; 53; 41;
   0; 40; 54; 41; 0; 40; 55; 41; 0; 40; 56; 41; 0; 40; 57; 41;
   0; 40; 49; 48; 41; 0; 40; 49; 49; 41; 0; 40; 49; 50; 41; 0;
   40; 49; 51; 41; 0; 40; 49; 52; 41; 0; 40; 49; 53; 41; 0; 40;
   49; 54; 41; 0; 40; 49; 55; 41; 0; 40; 49; 56; 41; 0; 40; 49;
   57; 41; 0; 40; 50; 48; 41; 0; 49; 46; 0; 50; 46; 0; 51; 46;
   0; 52; 46; 0; 53; 46; 0; 54; 46; 0; 55; 46; 0; 56; 46; 0;
   57; 46; 0; 49; 48; 46; 0; 49; 49; 46; 0; 49; 50; 46; 0; 49;
   51; 46; 0; 49; 52; 46; 0; 49; 53; 46; 0; 49; 54; 46; 0; 49;
   55; 46; 0; 49; 56; 46; 0; 49; 57; 46; 0; 50; 48; 46; 0; 40;
   97; 41; 0; 40; 98; 41; 0; 40; 99; 41; 0; 40; 100; 41; 0; 40;
   101; 41; 0; 40; 102; 41; 0; 40; 103; 41; 0; 40; 104; 41; 0; 40;
   105; 41; 0; 40; 106; 41; 0; 40; 107; 41; 0; 40; 108; 41; 0; 40;
   109; 41; 0; 40; 110; 41; 0; 40; 111; 41; 0; 40; 112; 41; 0; 40;
   113; 41; 0; 40; 114; 41; 0; 40; 115; 41; 0; 40; 116; 41; 0; 40;
   117; 41; 0; 40; 118; 41; 0; 40; 119; 41; 0; 40; 120; 41; 0; 40;
   121; 41; 0; 40; 122; 41; 0; 8747; 8747; 8747; 8747; 0; 58; 58; 61; 0;
   61; 61; 0; 61; 61; 61; 0; 10973; 824; 0; 12363; 12441; 0; 12365; 12441; 0;
   12367; 12441; 0; 12369; 12441; 0; 12371; 12441; 0; 12373; 12441; 0; 12375; 12441; 0; 12377;
   12441; 0; 12379; 12441; 0; 12381; 12441; 0; 12383; 12441; 0; 12385; 12441; 0; 12388; 12441;
   0; 12390; 12441; 0; 12392; 12441; 0; 12399; 12441; 0; 12399; 12442; 0; 12402; 12441; 0;
   12402; 12442; 0; 12405; 12441; 0; 12405; 12442; 0; 12408; 12441; 0; 12408; 12442; 0; 12411;
   12441; 0; 12411; 12442; 0; 12358; 12441; 0; 32; 12441; 0; 32; 12442; 0; 12445; 12441;
   0; 12424; 12426; 0; 12459; 12441; 0; 12461; 12441; 0; 12463; 12441; 0; 12465; 12441; 0;
   12467; 12441; 0; 12469; 12441; 0; 12471; 12441; 0; 12473; 12441; 0; 12475; 12441; 0; 12477;
   12441; 0; 12479; 12441; 0; 12481; 12441; 0; 12484; 12441; 0; 12486; 12441; 0; 12488; 12441;
   0; 12495; 12441; 0; 12495; 12442; 0; 12498; 12441; 0; 12498; 12442; 0; 12501; 12441; 0;
   12501; 12442; 0; 12504; 12441; 0; 12504; 12442; 0; 12507; 12441; 0; 12507; 12442; 0; 12454;
   12441; 0; 12527; 12441; 0; 12528; 12441; 0; 12529; 12441; 0; 12530; 12441; 0; 12541; 12441;
   0; 12467; 12488; 0; 40; 4352; 41; 0; 40; 4354; 41; 0; 40; 4355; 41; 0;
   40; 4357; 41; 0; 40; 4358; 41; 0; 40; 4359; 41; 0; 40; 4361; 41; 0;
   40; 4363; 41; 0; 40; 4364; 41; 0; 40; 4366; 41; 0; 40; 4367; 41; 0;
   40; 4368; 41; 0; 40; 4369; 41; 0; 40; 4370; 41; 0; 40; 4352; 4449; 41;
   0; 40; 4354; 4449; 41; 0; 40; 4355; 4449; 41; 0; 40; 4357; 4449; 41; 0;
   40; 4358; 4449; 41; 0; 40; 4359; 4449; 41; 0; 40; 4361; 4449; 41; 0; 40;
   4363; 4449; 41; 0; 40; 4364; 4449; 41; 0; 40; 4366; 4449; 41; 0; 40; 4367;
   4449; 41; 0; 40; 4368; 4449; 41; 0; 40; 4369; 4449; 41; 0; 40; 4370; 4449;
   41; 0; 40; 4364; 4462; 41; 0; 40; 4363; 4457; 4364; 4453; 4523; 41; 0; 40;
   4363; 4457; 4370; 4462; 41; 0; 40; 19968; 41; 0; 40; 20108; 41; 0; 40; 19977;
   41; 0; 40; 22235; 41; 0; 40; 20116; 41; 0; 40; 20845; 41; 0; 40; 19971;
   41; 0; 40; 20843; 41; 0; 40; 20061; 41; 0; 40; 21313; 41; 0; 40; 26376;
   41; 0; 40; 28779; 41; 0; 40; 27700; 41; 0; 40; 26408; 41; 0; 40; 37329;
   41; 0; 40; 22303; 41; 0; 40; 26085; 41; 0; 40; 26666; 41; 0; 40; 26377;
   41; 0; 40; 31038; 41; 0; 40; 21517; 41; 0; 40; 29305; 41; 0; 40; 36001;
   41; 0; 40; 31069; 41; 0; 40; 21172; 41; 0; 40; 20195; 41; 0; 40; 21628;
   41; 0; 40; 23398; 41; 0; 40; 30435; 41; 0; 40; 20225; 41; 0; 40; 36039;
   41; 0; 40; 21332; 41; 0; 40; 31085; 41; 0; 40; 20241; 41; 0; 40; 33258;
   41; 0; 40; 33267; 41; 0; 80; 84; 69; 0; 50; 49; 0; 50; 50; 0;
   50; 51; 0; 50; 52; 0; 50; 53; 0; 50; 54; 0; 50; 55; 0; 50;
   56; 0; 50; 57; 0; 51; 48; 0; 51; 49; 0; 51; 50; 0; 51; 51;
   0; 51; 52; 0; 51; 53; 0; 4352; 4449; 0; 4354; 4449; 0; 4355; 4449; 0;
   4357; 4449; 0; 4358; 4449; 0; 4359; 4449; 0; 4361; 4449; 0; 4363; 4449; 0; 4364;
   4449; 0; 4366; 4449; 0; 4367; 4449; 0; 4368; 4449; 0; 4369; 4449; 0; 4370; 4449;
   0; 4366; 4449; 4535; 4352; 4457; 0; 4364; 4462; 4363; 4468; 0; 4363; 4462; 0; 51;
   54; 0; 51; 55; 0; 51; 56; 0; 51; 57; 0; 52; 48; 0; 52; 49;
   0; 52; 50; 0; 52; 51; 0; 52; 52; 0; 52; 53; 0; 52; 54; 0;
   52; 55; 0; 52; 56; 0; 52; 57; 0; 53; 48; 0; 49; 26376; 0; 50;
   26376; 0; 51; 26376; 0; 52; 26376; 0; 53; 26376; 0; 54; 26376; 0; 55; 26376;
   0; 56; 26376; 0; 57; 26376; 0; 49; 48; 26376; 0; 49; 49; 26376; 0; 49;
   50; 26376; 0; 72; 103; 0; 101; 114; 103; 0; 101; 86; 0; 76; 84; 68;
   0; 12450; 12497; 12540; 12488; 0; 12450; 12523; 12501; 12449; 0; 12450; 12531; 12506; 12450; 0;
   12450; 12540; 12523; 0; 12452; 12491; 12531; 12464; 0; 12452; 12531; 12481; 0; 12454; 12457; 12531;
   0; 12456; 12473; 12463; 12540; 12489; 0; 12456; 12540; 12459; 12540; 0; 12458; 12531; 12473; 0;
   12458; 12540; 12512; 0; 12459; 12452; 12522; 0; 12459; 12521; 12483; 12488; 0; 12459; 12525; 12522;
   12540; 0; 12460; 12525; 12531; 0; 12460; 12531; 12510; 0; 12462; 12460; 0; 12462; 12491; 12540;
   0; 12461; 12517; 12522; 12540; 0; 12462; 12523; 12480; 12540; 0; 12461; 12525; 0; 12461; 12525;
   12464; 12521; 12512; 0; 12461; 12525; 12513; 12540; 12488; 12523; 0; 12461; 12525; 12527; 12483; 12488;
   0; 12464; 12521; 12512; 0; 12464; 12521; 12512; 12488; 12531; 0; 12463; 12523; 12476; 12452; 12525;
   0; 12463; 12525; 12540; 12493; 0; 12465; 12540; 12473; 0; 12467; 12523; 12490; 0; 12467; 12540;
   12509; 0; 12469; 12452; 12463; 12523; 0; 12469; 12531; 12481; 12540; 12512; 0; 12471; 12522; 12531;
   12464; 0; 12475; 12531; 12481; 0; 12475; 12531; 12488; 0; 12480; 12540; 12473; 0; 12487; 12471;
   0; 12489; 12523; 0; 12488; 12531; 0; 12490; 12494; 0; 12494; 12483; 12488; 0; 12495; 12452;
   12484; 0; 12497; 12540; 12475; 12531; 12488; 0; 12497; 12540; 12484; 0; 12496; 12540; 12524; 12523;
   0; 12500; 12450; 12473; 12488; 12523; 0; 12500; 12463; 12523; 0; 12500; 12467; 0; 12499; 12523;
   0; 12501; 12449; 12521; 12483; 12489; 0; 12501; 12451; 12540; 12488; 0; 12502; 12483; 12471; 12455;
   12523; 0; 12501; 12521; 12531; 0; 12504; 12463; 12479; 12540; 12523; 0; 12506; 12477; 0; 12506;
   12491; 12498; 0; 12504; 12523; 12484; 0; 12506; 12531; 12473; 0; 12506; 12540; 12472; 0; 12505;
   12540; 12479; 0; 12509; 12452; 12531; 12488; 0; 12508; 12523; 12488; 0; 12507; 12531; 0; 12509;
   12531; 12489; 0; 12507; 12540; 12523; 0; 12507; 12540; 12531; 0; 12510; 12452; 12463; 12525; 0;
   12510; 12452; 12523; 0; 12510; 12483; 12495; 0; 12510; 12523; 12463; 0; 12510; 12531; 12471; 12519;
   12531; 0; 12511; 12463; 12525; 12531; 0; 12511; 12522; 0; 12511; 12522; 12496; 12540; 12523; 0;
   12513; 12460; 0; 12513; 12460; 12488; 12531; 0; 12513; 12540; 12488; 12523; 0; 12516; 12540; 12489;
   0; 12516; 12540; 12523; 0; 12518; 12450; 12531; 0; 12522; 12483; 12488; 12523; 0; 12522; 12521;
   0; 12523; 12500; 12540; 0; 12523; 12540; 12502; 12523; 0; 12524; 12512; 0; 12524; 12531; 12488;
   12466; 12531; 0; 12527; 12483; 12488; 0; 48; 28857; 0; 49; 28857; 0; 50; 28857; 0;
   51; 28857; 0; 52; 28857; 0; 53; 28857; 0; 54; 28857; 0; 55; 28857; 0; 56;
   28857; 0; 57; 28857; 0; 49; 48; 28857; 0; 49; 49; 28857; 0; 49; 50; 28857;
   0; 49; 51; 28857; 0; 49; 52; 28857; 0; 49; 53; 28857; 0; 49; 54; 28857;
   0; 49; 55; 28857; 0; 49; 56; 28857; 0; 49; 57; 28857; 0; 50; 48; 28857;
   0; 50; 49; 28857; 0; 50; 50; 28857; 0; 50; 51; 28857; 0; 50; 52; 28857;
   0; 104; 80; 97; 0; 100; 97; 0; 65; 85; 0; 98; 97; 114; 0; 111;
   86; 0; 112; 99; 0; 100; 109; 0; 100; 109; 178; 0; 100; 109; 179; 0;
   73; 85; 0; 24179; 25104; 0; 26157; 21644; 0; 22823; 27491; 0; 26126; 27835; 0; 26666;
   24335; 20250; 31038; 0; 112; 65; 0; 110; 65; 0; 956; 65; 0; 109; 65; 0;
   107; 65; 0; 75; 66; 0; 77; 66; 0; 71; 66; 0; 99; 97; 108; 0;
   107; 99; 97; 108; 0; 112; 70; 0; 110; 70; 0; 956; 70; 0; 956; 103;
   0; 109; 103; 0; 107; 103; 0; 72; 122; 0; 107; 72; 122; 0; 77; 72;
   122; 0; 71; 72; 122; 0; 84; 72; 122; 0; 956; 8467; 0; 109; 8467; 0;
   100; 8467; 0; 107; 8467; 0; 102; 109; 0; 110; 109; 0; 956; 109; 0; 109;
   109; 0; 99; 109; 0; 107; 109; 0; 109; 109; 178; 0; 99; 109; 178; 0;
   109; 178; 0; 107; 109; 178; 0; 109; 109; 179; 0; 99; 109; 179; 0; 109;
   179; 0; 107; 109; 179; 0; 109; 8725; 115; 0; 109; 8725; 115; 178; 0; 80;
   97; 0; 107; 80; 97; 0; 77; 80; 97; 0; 71; 80; 97; 0; 114; 97;
   100; 0; 114; 97; 100; 8725; 115; 0; 114; 97; 100; 8725; 115; 178; 0; 112;
   115; 0; 110; 115; 0; 956; 115; 0; 109; 115; 0; 112; 86; 0; 110; 86;
   0; 956; 86; 0; 109; 86; 0; 107; 86; 0; 77; 86; 0; 112; 87; 0;
   110; 87; 0; 956; 87; 0; 109; 87; 0; 107; 87; 0; 77; 87; 0; 107;
   937; 0; 77; 937; 0; 97; 46; 109; 46; 0; 66; 113; 0; 99; 99; 0;
   99; 100; 0; 67; 8725; 107; 103; 0; 67; 111; 46; 0; 100; 66; 0; 71;
   121; 0; 104; 97; 0; 72; 80; 0; 105; 110; 0; 75; 75; 0; 75; 77;
   0; 107; 116; 0; 108; 109; 0; 108; 110; 0; 108; 111; 103; 0; 108; 120;
   0; 109; 98; 0; 109; 105; 108; 0; 109; 111; 108; 0; 80; 72; 0; 112;
   46; 109; 46; 0; 80; 80; 77; 0; 80; 82; 0; 115; 114; 0; 83; 118;
   0; 87; 98; 0; 86; 8725; 109; 0; 65; 8725; 109; 0; 49; 26085; 0; 50;
   26085; 0; 51; 26085; 0; 52; 26085; 0; 53; 26085; 0; 54; 26085; 0; 55; 26085;
   0; 56; 26085; 0; 57; 26085; 0; 49; 48; 26085; 0; 49; 49; 26085; 0; 49;
   50; 26085; 0; 49; 51; 26085; 0; 49; 52; 26085; 0; 49; 53; 26085; 0; 49;
   54; 26085; 0; 49; 55; 26085; 0; 49; 56; 26085; 0; 49; 57; 26085; 0; 50;
   48; 26085; 0; 50; 49; 26085; 0; 50; 50; 26085; 0; 50; 51; 26085; 0; 50;
   52; 26085; 0; 50; 53; 26085; 0; 50; 54; 26085; 0; 50; 55; 26085; 0; 50;
   56; 26085; 0; 50; 57; 26085; 0; 51; 48; 26085; 0; 51; 49; 26085; 0; 103;
   97; 108; 0; 102; 102; 0; 102; 105; 0; 102; 108; 0; 102; 102; 105; 0;
   102; 102; 108; 0; 383; 116; 0; 115; 116; 0; 1396; 1398; 0; 1396; 1381; 0;
   1396; 1387; 0; 1406; 1398; 0; 1396; 1389; 0; 1497; 1460; 0; 1522; 1463; 0; 1513;
   1473; 0; 1513; 1474; 0; 64329; 1473; 0; 64329; 1474; 0; 1488; 1463; 0; 1488; 1464;
   0; 1488; 1468; 0; 1489; 1468; 0; 1490; 1468; 0; 1491; 1468; 0; 1492; 1468; 0;
   1493; 1468; 0; 1494; 1468; 0; 1496; 1468; 0; 1497; 1468; 0; 1498; 1468; 0; 1499;
   1468; 0; 1500; 1468; 0; 1502; 1468; 0; 1504; 1468; 0; 1505; 1468; 0; 1507; 1468;
   0; 1508; 1468; 0; 1510; 1468; 0; 1511; 1468; 0; 1512; 1468; 0; 1513; 1468; 0;
   1514; 1468; 0; 1493; 1465; 0; 1489; 1471; 0; 1499; 1471; 0; 1508; 1471; 0; 1488;
   1500; 0; 1574; 1575; 0; 1574; 1575; 0; 1574; 1749; 0; 1574; 1749; 0; 1574; 1608;
   0; 1574; 1608; 0; 1574; 1735; 0; 1574; 1735; 0; 1574; 1734; 0; 1574; 1734; 0;
   1574; 1736; 0; 1574; 1736; 0; 1574; 1744; 0; 1574; 1744; 0; 1574; 1744; 0; 1574;
   1609; 0; 1574; 1609; 0; 1574; 1609; 0; 1574; 1580; 0; 1574; 1581; 0; 1574; 1605;
   0; 1574; 1609; 0; 1574; 1610; 0; 1576; 1580; 0; 1576; 1581; 0; 1576; 1582; 0;
   1576; 1605; 0; 1576; 1609; 0; 1576; 1610; 0; 1578; 1580; 0; 1578; 1581; 0; 1578;
   1582; 0; 1578; 1605; 0; 1578; 1609; 0; 1578; 1610; 0; 1579; 1580; 0; 1579; 1605;
   0; 1579; 1609; 0; 1579; 1610; 0; 1580; 1581; 0; 1580; 1605; 0; 1581; 1580; 0;
   1581; 1605; 0; 1582; 1580; 0; 1582; 1581; 0; 1582; 1605; 0; 1587; 1580; 0; 1587;
   1581; 0; 1587; 1582; 0; 1587; 1605; 0; 1589; 1581; 0; 1589; 1605; 0; 1590; 1580;
   0; 1590; 1581; 0; 1590; 1582; 0; 1590; 1605; 0; 1591; 1581; 0; 1591; 1605; 0;
   1592; 1605; 0; 1593; 1580; 0; 1593; 1605; 0; 1594; 1580; 0; 1594; 1605; 0; 1601;
   1580; 0; 1601; 1581; 0; 1601; 1582; 0; 1601; 1605; 0; 1601; 1609; 0; 1601; 1610;
   0; 1602; 1581; 0; 1602; 1605; 0; 1602; 1609; 0; 1602; 1610; 0; 1603; 1575; 0;
   1603; 1580; 0; 1603; 1581; 0; 1603; 1582; 0; 1603; 1604; 0; 1603; 1605; 0; 1603;
   1609; 0; 1603; 1610; 0; 1604; 1580; 0; 1604; 1581; 0; 1604; 1582; 0; 1604; 1605;
   0; 1604; 1609; 0; 1604; 1610; 0; 1605; 1580; 0; 1605; 1581; 0; 1605; 1582; 0;
   1605; 1605; 0; 1605; 1609; 0; 1605; 1610; 0; 1606; 1580; 0; 1606; 1581; 0; 1606;
   1582; 0; 1606; 1605; 0; 1606; 1609; 0; 1606; 1610; 0; 1607; 1580; 0; 1607; 1605;
   0; 1607; 1609; 0; 1607; 1610; 0; 1610; 1580; 0; 1610; 1581; 0; 1610; 1582; 0;
   1610; 1605; 0; 1610; 1609; 0; 1610; 1610; 0; 1584; 1648; 0; 1585; 1648; 0; 1609;
   1648; 0; 32; 1612; 1617; 0; 32; 1613; 1617; 0; 32; 1614; 1617; 0; 32; 1615;
   1617; 0; 32; 1616; 1617; 0; 32; 1617; 1648; 0; 1574; 1585; 0; 1574; 1586; 0;
   1574; 1605; 0; 1574; 1606; 0; 1574; 1609; 0; 1574; 1610; 0; 1576; 1585; 0; 1576;
   1586; 0; 1576; 1605; 0; 1576; 1606; 0; 1576; 1609; 0; 1576; 1610; 0; 1578; 1585;
   0; 1578; 1586; 0; 1578; 1605; 0; 1578; 1606; 0; 1578; 1609; 0; 1578; 1610; 0;
   1579; 1585; 0; 1579; 1586; 0; 1579; 1605; 0; 1579; 1606; 0; 1579; 1609; 0; 1579;
   1610; 0; 1601; 1609; 0; 1601; 1610; 0; 1602; 1609; 0; 1602; 1610; 0; 1603; 1575;
   0; 1603; 1604; 0; 1603; 1605; 0; 1603; 1609; 0; 1603; 1610; 0; 1604; 1605; 0;
   1604; 1609; 0; 1604; 1610; 0; 1605; 1575; 0; 1605; 1605; 0; 1606; 1585; 0; 1606;
   1586; 0; 1606; 1605; 0; 1606; 1606; 0; 1606; 1609; 0; 1606; 1610; 0; 1609; 1648;
   0; 1610; 1585; 0; 1610; 1586; 0; 1610; 1605; 0; 1610; 1606; 0; 1610; 1609; 0;
   1610; 1610; 0; 1574; 1580; 0; 1574; 1581; 0; 1574; 1582; 0; 1574; 1605; 0; 1574;
   1607; 0; 1576; 1580; 0; 1576; 1581; 0; 1576; 1582; 0; 1576; 1605; 0; 1576; 1607;
   0; 1578; 1580; 0; 1578; 1581; 0; 1578; 1582; 0; 1578; 1605; 0; 1578; 1607; 0;
   1579; 1605; 0; 1580; 1581; 0; 1580; 1605; 0; 1581; 1580; 0; 1581; 1605; 0; 1582;
   1580; 0; 1582; 1605; 0; 1587; 1580; 0; 1587; 1581; 0; 1587; 1582; 0; 1587; 1605;
   0; 1589; 1581; 0; 1589; 1582; 0; 1589; 1605; 0; 1590; 1580; 0; 1590; 1581; 0;
   1590; 1582; 0; 1590; 1605; 0; 1591; 1581; 0; 1592; 1605; 0; 1593; 1580; 0; 1593;
   1605; 0; 1594; 1580; 0; 1594; 1605; 0; 1601; 1580; 0; 1601; 1581; 0; 1601; 1582;
   0; 1601; 1605; 0; 1602; 1581; 0; 1602; 1605; 0; 1603; 1580; 0; 1603; 1581; 0;
   1603; 1582; 0; 1603; 1604; 0; 1603; 1605; 0; 1604; 1580; 0; 1604; 1581; 0; 1604;
   1582; 0; 1604; 1605; 0; 1604; 1607; 0; 1605; 1580; 0; 1605; 1581; 0; 1605; 1582;
   0; 1605; 1605; 0; 1606; 1580; 0; 1606; 1581; 0; 1606; 1582; 0; 1606; 1605; 0;
   1606; 1607; 0; 1607; 1580; 0; 1607; 1605; 0; 1607; 1648; 0; 1610; 1580; 0; 1610;
   1581; 0; 1610; 1582; 0; 1610; 1605; 0; 1610; 1607; 0; 1574; 1605; 0; 1574; 1607;
   0; 1576; 1605; 0; 1576; 1607; 0; 1578; 1605; 0; 1578; 1607; 0; 1579; 1605; 0;
   1579; 1607; 0; 1587; 1605; 0; 1587; 1607; 0; 1588; 1605; 0; 1588; 1607; 0; 1603;
   1604; 0; 1603; 1605; 0; 1604; 1605; 0; 1606; 1605; 0; 1606; 1607; 0; 1610; 1605;
   0; 1610; 1607; 0; 1600; 1614; 1617; 0; 1600; 1615; 1617; 0; 1600; 1616; 1617; 0;
   1591; 1609; 0; 1591; 1610; 0; 1593; 1609; 0; 1593; 1610; 0; 1594; 1609; 0; 1594;
   1610; 0; 1587; 1609; 0; 1587; 1610; 0; 1588; 1609; 0; 1588; 1610; 0; 1581; 1609;
   0; 1581; 1610; 0; 1580; 1609; 0; 1580; 1610; 0; 1582; 1609; 0; 1582; 1610; 0;
   1589; 1609; 0; 1589; 1610; 0; 1590; 1609; 0; 1590; 1610; 0; 1588; 1580; 0; 1588;
   1581; 0; 1588; 1582; 0; 1588; 1605; 0; 1588; 1585; 0; 1587; 1585; 0; 1589; 1585;
   0; 1590; 1585; 0; 1591; 1609; 0; 1591; 1610; 0; 1593; 1609; 0; 1593; 1610; 0;
   1594; 1609; 0; 1594; 1610; 0; 1587; 1609; 0; 1587; 1610; 0; 1588; 1609; 0; 1588;
   1610; 0; 1581; 1609; 0; 1581; 1610; 0; 1580; 1609; 0; 1580; 1610; 0; 1582; 1609;
   0; 1582; 1610; 0; 1589; 1609; 0; 1589; 1610; 0; 1590; 1609; 0; 1590; 1610; 0;
   1588; 1580; 0; 1588; 1581; 0; 1588; 1582; 0; 1588; 1605; 0; 1588; 1585; 0; 1587;
   1585; 0; 1589; 1585; 0; 1590; 1585; 0; 1588; 1580; 0; 1588; 1581; 0; 1588; 1582;
   0; 1588; 1605; 0; 1587; 1607; 0; 1588; 1607; 0; 1591; 1605; 0; 1587; 1580; 0;
   1587; 1581; 0; 1587; 1582; 0; 1588; 1580; 0; 1588; 1581; 0; 1588; 1582; 0; 1591;
   1605; 0; 1592; 1605; 0; 1575; 1611; 0; 1575; 1611; 0; 1578; 1580; 1605; 0; 1578;
   1581; 1580; 0; 1578; 1581; 1580; 0; 1578; 1581; 1605; 0; 1578; 1582; 1605; 0; 1578;
   1605; 1580; 0; 1578; 1605; 1581; 0; 1578; 1605; 1582; 0; 1580; 1605; 1581; 0; 1580;
   1605; 1581; 0; 1581; 1605; 1610; 0; 1581; 1605; 1609; 0; 1587; 1581; 1580; 0; 1587;
   1580; 1581; 0; 1587; 1580; 1609; 0; 1587; 1605; 1581; 0; 1587; 1605; 1581; 0; 1587;
   1605; 1580; 0; 1587; 1605; 1605; 0; 1587; 1605; 1605; 0; 1589; 1581; 1581; 0; 1589;
   1581; 1581; 0; 1589; 1605; 1605; 0; 1588; 1581; 1605; 0; 1588; 1581; 1605; 0; 1588;
   1580; 1610; 0; 1588; 1605; 1582; 0; 1588; 1605; 1582; 0; 1588; 1605; 1605; 0; 1588;
   1605; 1605; 0; 1590; 1581; 1609; 0; 1590; 1582; 1605; 0; 1590; 1582; 1605; 0; 1591;
   1605; 1581; 0; 1591; 1605; 1581; 0; 1591; 1605; 1605; 0; 1591; 1605; 1610; 0; 1593;
   1580; 1605; 0; 1593; 1605; 1605; 0; 1593; 1605; 1605; 0; 1593; 1605; 1609; 0; 1594;
   1605; 1605; 0; 1594; 1605; 1610; 0; 1594; 1605; 1609; 0; 1601; 1582; 1605; 0; 1601;
   1582; 1605; 0; 1602; 1605; 1581; 0; 1602; 1605; 1605; 0; 1604; 1581; 1605; 0; 1604;
   1581; 1610; 0; 1604; 1581; 1609; 0; 1604; 1580; 1580; 0; 1604; 1580; 1580; 0; 1604;
   1582; 1605; 0; 1604; 1582; 1605; 0; 1604; 1605; 1581; 0; 1604; 1605; 1581; 0; 1605;
   1581; 1580; 0; 1605; 1581; 1605; 0; 1605; 1581; 1610; 0; 1605; 1580; 1581; 0; 1605;
   1580; 1605; 0; 1605; 1582; 1580; 0; 1605; 1582; 1605; 0; 1605; 1580; 1582; 0; 1607;
   1605; 1580; 0; 1607; 1605; 1605; 0; 1606; 1581; 1605; 0; 1606; 1581; 1609; 0; 1606;
   1580; 1605; 0; 1606; 1580; 1605; 0; 1606; 1580; 1609; 0; 1606; 1605; 1610; 0; 1606;
   1605; 1609; 0; 1610; 1605; 1605; 0; 1610; 1605; 1605; 0; 1576; 1582; 1610; 0; 1578;
   1580; 1610; 0; 1578; 1580; 1609; 0; 1578; 1582; 1610; 0; 1578; 1582; 1609; 0; 1578;
   1605; 1610; 0; 1578; 1605; 1609; 0; 1580; 1605; 1610; 0; 1580; 1581; 1609; 0; 1580;
   1605; 1609; 0; 1587; 1582; 1609; 0; 1589; 1581; 1610; 0; 1588; 1581; 1610; 0; 1590;
   1581; 1610; 0; 1604; 1580; 1610; 0; 1604; 1605; 1610; 0; 1610; 1581; 1610; 0; 1610;
   1580; 1610; 0; 1610; 1605; 1610; 0; 1605; 1605; 1610; 0; 1602; 1605; 1610; 0; 1606;
   1581; 1610; 0; 1602; 1605; 1581; 0; 1604; 1581; 1605; 0; 1593; 1605; 1610; 0; 1603;
   1605; 1610; 0; 1606; 1580; 1581; 0; 1605; 1582; 1610; 0; 1604; 1580; 1605; 0; 1603;
   1605; 1605; 0; 1604; 1580; 1605; 0; 1606; 1580; 1581; 0; 1580; 1581; 1610; 0; 1581;
   1580; 1610; 0; 1605; 1580; 1610; 0; 1601; 1605; 1610; 0; 1576; 1581; 1610; 0; 1603;
   1605; 1605; 0; 1593; 1580; 1605; 0; 1589; 1605; 1605; 0; 1587; 1582; 1610; 0; 1606;
   1580; 1610; 0; 1589; 1604; 1746; 0; 1602; 1604; 1746; 0; 1575; 1604; 1604; 1607; 0;
   1575; 1603; 1576; 1585; 0; 1605; 1581; 1605; 1583; 0; 1589; 1604; 1593; 1605; 0; 1585;
   1587; 1608; 1604; 0; 1593; 1604; 1610; 1607; 0; 1608; 1587; 1604; 1605; 0; 1589; 1604;
   1609; 0; 1589; 1604; 1609; 32; 1575; 1604; 1604; 1607; 32; 1593; 1604; 1610; 1607; 32;
   1608; 1587; 1604; 1605; 0; 1580; 1604; 32; 1580; 1604; 1575; 1604; 1607; 0; 1585; 1740;
   1575; 1604; 0; 32; 1611; 0; 1600; 1611; 0; 32; 1612; 0; 32; 1613; 0; 32;
   1614; 0; 1600; 1614; 0; 32; 1615; 0; 1600; 1615; 0; 32; 1616; 0; 1600; 1616;
   0; 32; 1617; 0; 1600; 1617; 0; 32; 1618; 0; 1600; 1618; 0; 1604; 1570; 0;
   1604; 1570; 0; 1604; 1571; 0; 1604; 1571; 0; 1604; 1573; 0; 1604; 1573; 0; 1604;
   1575; 0; 1604; 1575; 0; 69785; 69818; 0; 69787; 69818; 0; 69797; 69818; 0; 69937; 69927;
   0; 69938; 69927; 0; 119127; 119141; 0; 119128; 119141; 0; 119135; 119150; 0; 119135; 119151; 0;
   119135; 119152; 0; 119135; 119153; 0; 119135; 119154; 0; 119225; 119141; 0; 119226; 119141; 0; 119227;
   119150; 0; 119228; 119150; 0; 119227; 119151; 0; 119228; 119151; 0; 48; 46; 0; 48; 44;
   0; 49; 44; 0; 50; 44; 0; 51; 44; 0; 52; 44; 0; 53; 44; 0;
   54; 44; 0; 55; 44; 0; 56; 44; 0; 57; 44; 0; 40; 65; 41; 0;
   40; 66; 41; 0; 40; 67; 41; 0; 40; 68; 41; 0; 40; 69; 41; 0;
   40; 70; 41; 0; 40; 71; 41; 0; 40; 72; 41; 0; 40; 73; 41; 0;
   40; 74; 41; 0; 40; 75; 41; 0; 40; 76; 41; 0; 40; 77; 41; 0;
   40; 78; 41; 0; 40; 79; 41; 0; 40; 80; 41; 0; 40; 81; 41; 0;
   40; 82; 41; 0; 40; 83; 41; 0; 40; 84; 41; 0; 40; 85; 41; 0;
   40; 86; 41; 0; 40; 87; 41; 0; 40; 88; 41; 0; 40; 89; 41; 0;
   40; 90; 41; 0; 12308; 83; 12309; 0; 67; 68; 0; 87; 90; 0; 72; 86;
   0; 77; 86; 0; 83; 68; 0; 83; 83; 0; 80; 80; 86; 0; 87; 67;
   0; 77; 67; 0; 77; 68; 0; 68; 74; 0; 12411; 12363; 0; 12467; 12467; 0;
   12308; 26412; 12309; 0; 12308; 19977; 12309; 0; 12308; 20108; 12309; 0; 12308; 23433; 12309; 0;
   12308; 28857; 12309; 0; 12308; 25171; 12309; 0; 12308; 30423; 12309; 0; 12308; 21213; 12309; 0;
   12308; 25943; 12309; 0].

Definition unicodemap_c : unicodemap :=
  UnicodeMap c_titlecase8_map c_titlecase16_keys c_titlecase16_values c_titlecase32_keys c_titlecase32_values c_uni8_decomp_map c_uni16_decomp_keys c_uni16_decomp_values c_uni32_decomp_keys c_uni32_decomp_values c_multidecomp_keys c_multidecomp_offsets c_multidecomp_values.
