(* ===== verification/UnicodeMapProps.v ===== *)
(** * Titlecase with the tables of unicodemap.c

    The tables are checked by computation: sorted keys, a value for every key,
    code points as values, multi-character values that end within their array.
    With that, titlecase conversion is total and writes valid UTF-8. *)

From S2P Require Import Prelude Bsearch Unichar UnicharProps UnicodeMap.

(** ** Checking tables *)

Fixpoint sortedb (l : list Z) : bool :=
  match l with
  | x :: ((y :: _) as l') => (x <? y) && sortedb l'
  | _ => true
  end.

Lemma sortedb_sound l : sortedb l = true -> StronglySorted Z.lt l.
Proof.
  intros H. apply Sorted_StronglySorted; [intros x y z; lia |].
  induction l as [|x l IH]; [constructor |]. destruct l as [|y l]; [repeat constructor |].
  cbn [sortedb] in H. apply andb_true_iff in H as [H1 H2]. constructor; [by apply IH |]. constructor. lia.
Qed.

Definition ucs4b (c : Z) : bool := (0 <=? c) && (c <? 2 ^ 31).

Lemma ucs4b_sound l : forallb ucs4b l = true -> Forall is_ucs4 l.
Proof.
  intros H. apply Forall_forall. intros x Hx%list_elem_of_In. rewrite forallb_forall in H.
  specialize (H x Hx). unfold ucs4b in H. unfold is_ucs4. lia.
Qed.

Definition tableb (keys values : list Z) : bool :=
  sortedb keys && (Z.of_nat (length keys) <? INT_MAX) && (length keys <=? length values)%nat && forallb ucs4b values.

Lemma tableb_sound keys values : tableb keys values = true -> ok_table keys values.
Proof.
  unfold tableb, ok_table. rewrite !andb_true_iff. intros [[[H1 H2] H3] H4].
  split_and!; [by apply sortedb_sound | lia | lia | by apply ucs4b_sound].
Qed.

Fixpoint multib (value : list Z) : bool :=
  match value with
  | [] => false
  | v :: value => if v =? 0 then true else ucs4b v && multib value
  end.

Lemma multib_sound value : multib value = true -> ok_multi value.
Proof.
  induction value as [|v value IH]; cbn [multib]; [done |]. destruct (Z.eqb_spec v 0) as [-> | Hv].
  - intros _. exists [], value. split; [done | constructor].
  - intros [H1 H2]%andb_true_iff. destruct (IH H2) as (cs & rest & -> & Hcs). exists (v :: cs), rest.
    split; [done |]. constructor; [| done]. unfold ucs4b in H1. unfold is_ucs4. split; [lia | done].
Qed.

Definition nonempty (l : list Z) : bool := match l with [] => false | _ => true end.

Lemma nonempty_sound l : nonempty l = true -> l <> [].
Proof. by destruct l. Qed.

Definition unicodemapb (t : unicodemap) : bool :=
  (length (titlecase8_map t) =? 256)%nat && forallb ucs4b (titlecase8_map t) &&
  tableb (titlecase16_keys t) (titlecase16_values t) && tableb (titlecase32_keys t) (titlecase32_values t) &&
  (length (uni8_decomp_map t) =? 256)%nat && forallb ucs4b (uni8_decomp_map t) &&
  tableb (uni16_decomp_keys t) (uni16_decomp_values t) && nonempty (uni16_decomp_keys t) &&
  tableb (uni32_decomp_keys t) (uni32_decomp_values t) &&
  sortedb (multidecomp_keys t) && (Z.of_nat (length (multidecomp_keys t)) <? INT_MAX) &&
  nonempty (multidecomp_keys t) && (length (multidecomp_keys t) <=? length (multidecomp_offsets t))%nat &&
  forallb (fun off => multib (drop (Z.to_nat off) (multidecomp_values t))) (multidecomp_offsets t).

Lemma unicodemapb_sound t : unicodemapb t = true -> ok_unicodemap t.
Proof.
  unfold unicodemapb. rewrite !andb_true_iff, !Nat.eqb_eq, Nat.leb_le, Z.ltb_lt.
  intros (((((((((((((H1 & H2) & H3) & H4) & H5) & H6) & H7) & H8) & H9) & H10) & H11) & H12) & H13) & H14).
  split; auto using ucs4b_sound, tableb_sound, sortedb_sound, nonempty_sound.
  apply Forall_forall. intros off Hoff%list_elem_of_In. apply multib_sound.
  rewrite forallb_forall in H14. by apply H14.
Qed.

Lemma unicodemap_c_ok : ok_unicodemap unicodemap_c.
Proof. apply unicodemapb_sound. vm_compute. reflexivity. Qed.

(** ** Titlecase of titlecase *)

Definition titlecase_fixb (t : unicodemap) (c : Z) : bool :=
  match uni_ucs4_to_titlecase t c with
  | Some c' => bool_decide (uni_ucs4_to_titlecase t c' = Some c')
  | None => false
  end.

(** The characters whose titlecase a table gives. *)
Definition titlecase_domain (t : unicodemap) : list Z := seqZ 0 256 ++ titlecase16_keys t ++ titlecase32_keys t.

Lemma search_miss keys v :
  StronglySorted Z.lt keys -> Z.of_nat (length keys) < INT_MAX -> v ∉ keys -> BINARY_NUMBER_SEARCH keys v = Some None.
Proof.
  intros Hs Hn Hv. destruct (BINARY_NUMERIC_SEARCH_spec id keys v Hs Hn) as (r & Hr & Hspec).
  unfold BINARY_NUMBER_SEARCH. rewrite Hr. destruct r as [idx|]; [| done]. exfalso.
  destruct Hspec as (p & Hp & <-). by apply list_elem_of_lookup_2 in Hp.
Qed.

(** Outside the tables a character is its own titlecase. *)
Lemma titlecase_outside t c : ok_unicodemap t -> is_ucs4 c -> c ∉ titlecase_domain t -> uni_ucs4_to_titlecase t c = Some c.
Proof.
  intros Ht Hc Hd. unfold titlecase_domain in Hd. rewrite !not_elem_of_app, elem_of_seqZ in Hd.
  destruct Hd as (H1 & H2 & H3). unfold is_ucs4 in Hc. unfold uni_ucs4_to_titlecase, uint16_find, uint32_find.
  destruct (ok_title16 t Ht) as (? & ? & _). destruct (ok_title32 t Ht) as (? & ? & _).
  rewrite (proj2 (Z.leb_gt c 0xff)) by lia. case_match; by rewrite search_miss.
Qed.

Lemma titlecase_fix_all : forallb (titlecase_fixb unicodemap_c) (titlecase_domain unicodemap_c) = true.
Proof. vm_compute. reflexivity. Qed.

(** ** Properties *)

(** Titlecase conversion of a code point always has a result and is
    idempotent: the titlecase of a titlecase character is itself. *)
Theorem titlecase_idempotent c :
  is_ucs4 c ->
  exists c', uni_ucs4_to_titlecase unicodemap_c c = Some c' /\ uni_ucs4_to_titlecase unicodemap_c c' = Some c'.
Proof.
  intros Hc. destruct (decide (c ∈ titlecase_domain unicodemap_c)) as [Hin | Hout].
  - pose proof titlecase_fix_all as H. rewrite forallb_forall in H. apply list_elem_of_In, H in Hin.
    unfold titlecase_fixb in Hin. destruct (uni_ucs4_to_titlecase unicodemap_c c) as [c'|]; [| done].
    exists c'. split; [done |]. by apply bool_decide_eq_true_1 in Hin.
  - exists c. split; by apply titlecase_outside; [apply unicodemap_c_ok | |].
Qed.

Lemma titlecase_idempotent_witness :
  exists c', uni_ucs4_to_titlecase unicodemap_c 0xe4 = Some c' /\ uni_ucs4_to_titlecase unicodemap_c c' = Some c'.
Proof. apply titlecase_idempotent. split; [discriminate | reflexivity]. Defined.


(** C37: [uni_utf8_to_decomposed_titlecase] with the tables of the program
    returns on every input, without reading outside a table; it returns -1
    exactly when the input is not valid UTF-8, and what it writes behind valid
    output is valid UTF-8. *)
Theorem decomposed_titlecase_correct input output :
  Forall is_byte input -> valid_utf8 output ->
  exists ret output', uni_utf8_to_decomposed_titlecase unicodemap_c input output = Some (ret, output') /\
    valid_utf8 output' /\ (ret = 0 /\ valid_utf8 input \/ ret = -1 /\ ~ valid_utf8 input).
Proof.
  intros Hb Ho. destruct (scan_exists _ input (le_n _) Hb) as (ts & Hts).
  destruct (decomposed_titlecase_loop_spec unicodemap_c unicodemap_c_ok (S (length input)) input ts 0 output Hts Hb
    ltac:(lia) Ho) as (o' & Heq & Ho').
  eexists _, o'. split; [exact Heq |]. split; [done |]. pose proof (scan_valid input ts Hts) as Hv.
  destruct (all_chars ts); [left | right]; (split; [done |]); naive_solver.
Qed.

Lemma decomposed_titlecase_correct_witness :
  exists ret output', uni_utf8_to_decomposed_titlecase unicodemap_c [0xc3; 0xa4; 0xff] [] = Some (ret, output') /\
    ret = -1.
Proof.
  destruct (decomposed_titlecase_correct [0xc3; 0xa4; 0xff] []) as (ret & o & H & _);
    [repeat constructor; discriminate | exists []; split; [constructor | reflexivity] |].
  exists ret, o. split; [exact H |]. vm_compute in H. congruence.
Defined.
