(* ===== verification/ImapSeqset.v ===== *)
(** * IMAP sequence sets (src/src/lib-imap/imap-seqset.c)

    The parser of IMAP sequence sets, which stores the parsed ranges in a
    sequence-range array.  A [const char **str] argument is the list of the
    characters that are left.  The theorems give the exact language the parser
    accepts and the set it stores for a string of it. *)

From S2P Require Import Prelude SeqRange SeqRangeProps SeqRangeSets Strnum.

(** [num] and the rest of the string. *)
Fixpoint get_next_number_loop (s : list Z) (num : Z) : Z * list Z :=
  match s with
  | [] => (num, s)
  | c :: s' =>
      if (c <? 48) || (c >? 57) then (num, s)
      else get_next_number_loop s' (u32 (num * 10 + (c - 48)))
  end.

Definition get_next_number (s : list Z) : Z * list Z :=
  let '(num, s) := get_next_number_loop s 0 in
  if num =? UINT32_MAX then (num - 1, s) else (num, s).

(** One end of a range: [*], or a number that is not zero. *)
Definition get_next_seq (s : list Z) : option (Z * list Z) :=
  if at0 s 0 =? 42 then Some (UINT32_MAX, drop 1 s)
  else
    let '(seq, s) := get_next_number s in
    if seq =? 0 then None else Some (seq, s).

(** [None] is the return value -1. *)
Definition get_next_seq_range (s : list Z) : option (Z * Z * list Z) :=
  '(seq1, s) ← get_next_seq s;
  '(seq2, s) ← (if negb (at0 s 0 =? 58) then Some (seq1, s) else get_next_seq (drop 1 s));
  if seq1 >? seq2 then Some (seq2, seq1, s) else Some (seq1, seq2, s).

(** The return value and the array; [None] is a failed assertion in
    [seq_range_array_add_range]. *)
Fixpoint imap_seq_set_parse_loop (fuel : nat) (s : list Z) (dest : list seq_range) : option (Z * list seq_range) :=
  match fuel with
  | O => None
  | S fuel =>
      match s with
      | [] => Some (0, dest)
      | _ =>
          match get_next_seq_range s with
          | None => Some (-1, dest)
          | Some (seq1, seq2, s) =>
              dest ← seq_range_array_add_range dest seq1 seq2;
              if at0 s 0 =? 44 then imap_seq_set_parse_loop fuel (drop 1 s) dest
              else if negb (at0 s 0 =? 0) then Some (-1, dest)
              else imap_seq_set_parse_loop fuel s dest
          end
      end
  end.

Definition imap_seq_set_parse (s : list Z) (dest : list seq_range) : option (Z * list seq_range) :=
  imap_seq_set_parse_loop (S (length s)) s dest.

Definition imap_seq_set_nostar_parse (s : list Z) (dest : list seq_range) : option (Z * list seq_range) :=
  '(ret, dest) ← imap_seq_set_parse s dest;
  if ret <? 0 then Some (-1, dest)
  else
    found ← seq_range_exists dest UINT32_MAX;
    if (found : bool) then Some (-1, dest) else Some (0, dest).

(** The return value 0 with both ends, or -1. *)
Definition imap_seq_range_parse (s : list Z) : option (Z * Z) :=
  '(seq1, seq2, s) ← get_next_seq_range s;
  if at0 s 0 =? 0 then Some (seq1, seq2) else None.

(** ** The language *)

(** The value of a number: 32 bits wide, and never the one that stands for
    the last message. *)
Definition token_value (ds : list Z) : Z :=
  let n := u32 (decval 0 ds) in if n =? UINT32_MAX then n - 1 else n.

Inductive seqnum : list Z -> Z -> Prop :=
| seqnum_star : seqnum [42] UINT32_MAX
| seqnum_digits ds : all_digits ds = true -> token_value ds <> 0 -> seqnum ds (token_value ds).

Inductive item : list Z -> Z * Z -> Prop :=
| item_single s n : seqnum s n -> item s (n, n)
| item_range s1 s2 n1 n2 : seqnum s1 n1 -> seqnum s2 n2 -> item (s1 ++ 58 :: s2) (Z.min n1 n2, Z.max n1 n2).

(** A sequence set: items separated by commas; one comma may follow the last. *)
Inductive seqset : list Z -> list (Z * Z) -> Prop :=
| seqset_nil : seqset [] []
| seqset_last s r : item s r -> seqset s [r]
| seqset_cons s r rest rs : item s r -> seqset rest rs -> seqset (s ++ 44 :: rest) (r :: rs).

(** The array after adding the ranges in order. *)
Fixpoint add_ranges (rs : list (Z * Z)) (dest : list seq_range) : option (list seq_range) :=
  match rs with
  | [] => Some dest
  | (a, b) :: rs => dest ← seq_range_array_add_range dest a b; add_ranges rs dest
  end.

(** ** Numbers *)

Lemma u32_decval n ds : u32 (decval (u32 n) ds) = u32 (decval n ds).
Proof.
  revert n. induction ds as [|c ds IH]; intros n; rewrite ?decval_nil, ?decval_cons; [apply u32_idem |].
  rewrite <- (IH (u32 n * 10 + (c - 48))), <- (IH (n * 10 + (c - 48))). do 2 f_equal.
  unfold u32. rewrite (Zplus_mod (n mod _ * 10)), Zmult_mod_idemp_l, <- Zplus_mod. done.
Qed.

Lemma get_next_number_loop_spec ds rest n :
  all_digits ds = true -> isdigit (at0 rest 0) = false -> u32 n = n ->
  get_next_number_loop (ds ++ rest) n = (u32 (decval n ds), rest).
Proof.
  revert n. induction ds as [|c ds IH]; intros n Hd Hr Hn.
  - cbn [app]. rewrite decval_nil, Hn. destruct rest as [|c rest]; [done |]. cbn [get_next_number_loop].
    unfold isdigit, at0 in Hr. cbn in Hr. rewrite Z.gtb_ltb. destruct (Z.ltb_spec c 48), (Z.ltb_spec 57 c); try done; lia.
  - cbn [all_digits forallb] in Hd. apply andb_true_iff in Hd as [Hc Hd]. unfold isdigit in Hc.
    cbn [app get_next_number_loop]. rewrite Z.gtb_ltb.
    destruct (Z.ltb_spec c 48), (Z.ltb_spec 57 c); cbn [orb]; try lia.
    rewrite IH by (done || apply u32_idem). by rewrite decval_cons, u32_decval.
Qed.

Lemma get_next_number_spec ds rest :
  all_digits ds = true -> isdigit (at0 rest 0) = false -> get_next_number (ds ++ rest) = (token_value ds, rest).
Proof.
  intros Hd Hr. unfold get_next_number, token_value. rewrite get_next_number_loop_spec by done. by case_match.
Qed.

(** A digit string of its own starts with a digit or is empty. *)
Lemma all_digits_head ds rest : all_digits ds = true -> ds <> [] -> isdigit (at0 (ds ++ rest) 0) = true.
Proof. destruct ds as [|c ds]; [done |]. cbn. intros [? _]%andb_true_iff _. done. Qed.

(** Reading one end of a range accepts what [seqnum] describes, up to the
    first character that cannot belong to it. *)
Lemma get_next_seq_complete s n rest :
  seqnum s n -> isdigit (at0 rest 0) = false -> get_next_seq (s ++ rest) = Some (n, rest).
Proof.
  intros Hs Hr. unfold get_next_seq. destruct Hs as [|ds Hd Hv]; [done |].
  destruct (decide (ds = [])) as [-> | Hne]; [done |].
  pose proof (all_digits_head ds rest Hd Hne) as Hh. unfold isdigit in Hh.
  rewrite (proj2 (Z.eqb_neq _ 42)) by lia. rewrite get_next_number_spec by done.
  by rewrite (proj2 (Z.eqb_neq _ 0)) by done.
Qed.

Lemma get_next_seq_sound s n rest :
  get_next_seq s = Some (n, rest) -> exists s1, s = s1 ++ rest /\ seqnum s1 n.
Proof.
  unfold get_next_seq. destruct (Z.eqb_spec (at0 s 0) 42) as [Heq | Hne].
  - destruct s as [|c s]; [done |]. cbn in Heq. subst c. intros [= <- <-]. exists [42]. split; [done | constructor].
  - destruct (digit_split s) as (ds & r & -> & Hd & Hr). rewrite get_next_number_spec by done.
    destruct (Z.eqb_spec (token_value ds) 0); [done |]. intros [= <- <-]. exists ds. split; [done | by constructor].
Qed.

(** ** Items *)

Lemma seqnum_range s n : seqnum s n -> 0 < n <= UINT32_MAX /\ s <> [].
Proof.
  destruct 1 as [|ds Hd Hv]; [done |]. split; [| by intros ->].
  unfold token_value in *. pose proof (u32_range (decval 0 ds)). case_match; lia.
Qed.

Lemma item_range_bounds s a b : item s (a, b) -> 0 < a <= b /\ b <= UINT32_MAX /\ s <> [].
Proof.
  inversion 1 as [s' n Hn | s1 s2 n1 n2 H1 H2]; subst.
  - apply seqnum_range in Hn. intuition lia.
  - apply seqnum_range in H1, H2. split_and!; try lia. by destruct s1.
Qed.

Lemma get_next_seq_range_complete s a b rest :
  item s (a, b) -> isdigit (at0 rest 0) = false -> at0 rest 0 <> 58 ->
  get_next_seq_range (s ++ rest) = Some (a, b, rest).
Proof.
  intros Hi Hd Hc. unfold get_next_seq_range. inversion Hi as [s' n Hn | s1 s2 n1 n2 H1 H2]; subst.
  - rewrite (get_next_seq_complete _ _ _ Hn) by done. cbn [mbind option_bind].
    rewrite (proj2 (Z.eqb_neq _ 58)) by done. cbn [negb mbind option_bind]. by rewrite Z.gtb_ltb, Z.ltb_irrefl.
  - rewrite <- app_assoc. cbn [app]. rewrite (get_next_seq_complete _ _ _ H1) by done. cbn [mbind option_bind].
    change (at0 (58 :: s2 ++ rest) 0 =? 58) with true. cbn [negb skipn]. rewrite drop_0.
    rewrite (get_next_seq_complete _ _ _ H2) by done. cbn [mbind option_bind].
    rewrite Z.gtb_ltb. destruct (Z.ltb_spec n2 n1); do 3 f_equal; lia.
Qed.

Lemma get_next_seq_range_sound s a b rest :
  get_next_seq_range s = Some (a, b, rest) -> exists s1, s = s1 ++ rest /\ item s1 (a, b).
Proof.
  unfold get_next_seq_range. destruct (get_next_seq s) as [[n1 r1]|] eqn:E1; [| done].
  apply get_next_seq_sound in E1 as (s1 & -> & H1). cbn [mbind option_bind].
  destruct (Z.eqb_spec (at0 r1 0) 58) as [Heq | Hne]; cbn [negb].
  - destruct r1 as [|c r1]; [done |]. cbn in Heq. subst c. cbn [skipn]. rewrite drop_0.
    destruct (get_next_seq r1) as [[n2 r2]|] eqn:E2; [| done].
    apply get_next_seq_sound in E2 as (s2 & -> & H2). cbn [mbind option_bind]. intros H.
    exists (s1 ++ 58 :: s2).
    assert (rest = r2 /\ a = Z.min n1 n2 /\ b = Z.max n1 n2) as (-> & -> & ->).
    { rewrite Z.gtb_ltb in H. destruct (Z.ltb_spec n2 n1); injection H as <- <- <-; split_and!; lia || done. }
    split; [by rewrite <- app_assoc | by constructor].
  - cbn [mbind option_bind]. rewrite Z.gtb_ltb, Z.ltb_irrefl. intros [= <- <- <-].
    exists s1. split; [done | by constructor].
Qed.

(** ** Sets *)

Lemma item_at0 s r : item s r -> at0 s 0 <> 0.
Proof.
  assert (Hn : forall s n t, seqnum s n -> at0 (s ++ t) 0 <> 0).
  { intros s' n t Hn. pose proof (seqnum_range _ _ Hn) as [_ Hne]. destruct Hn as [|ds Hd _]; [done |].
    pose proof (all_digits_head ds t Hd Hne) as H. unfold isdigit in H. lia. }
  destruct 1 as [s n H | s1 s2 n1 n2 H1 H2]; [| by eapply Hn]. specialize (Hn s n [] H). by rewrite app_nil_r in Hn.
Qed.

Lemma seqset_complete s rs dest d fuel :
  seqset s rs -> add_ranges rs dest = Some d -> (length s < fuel)%nat ->
  imap_seq_set_parse_loop fuel s dest = Some (0, d).
Proof.
  intros Hs. revert dest d fuel. induction Hs as [|s [a b] Hi|s [a b] rest rs Hi Hs IH]; intros dest d fuel Ha Hf;
    (destruct fuel as [|fuel]; [lia |]).
  - by injection Ha as ->.
  - destruct (item_range_bounds _ _ _ Hi) as (_ & _ & Hne).
    pose proof (get_next_seq_range_complete s a b [] Hi eq_refl ltac:(done)) as Hr. rewrite app_nil_r in Hr.
    destruct s as [|c s]; [done |]. cbn [imap_seq_set_parse_loop]. rewrite Hr. cbn [add_ranges] in Ha.
    destruct (seq_range_array_add_range dest a b) as [d'|]; [| done]. cbn [mbind option_bind] in *.
    injection Ha as ->. cbn [length] in Hf. by destruct fuel; [lia |].
  - destruct (item_range_bounds _ _ _ Hi) as (_ & _ & Hne).
    pose proof (get_next_seq_range_complete s a b (44 :: rest) Hi eq_refl ltac:(done)) as Hr.
    rewrite length_app in Hf. cbn [length] in Hf. destruct s as [|c s]; [done |].
    cbn [app imap_seq_set_parse_loop]. cbn [app] in Hr. rewrite Hr. cbn [add_ranges] in Ha.
    destruct (seq_range_array_add_range dest a b) as [d'|]; [| done]. cbn [mbind option_bind] in *.
    change (at0 (44 :: rest) 0 =? 44) with true. cbn [skipn]. rewrite drop_0. apply IH; [done | lia].
Qed.

Lemma seqset_sound fuel s dest d :
  is_cstr s -> imap_seq_set_parse_loop fuel s dest = Some (0, d) ->
  exists rs, seqset s rs /\ add_ranges rs dest = Some d.
Proof.
  revert s dest. induction fuel as [|fuel IH]; intros s dest Hs; [done |]. cbn [imap_seq_set_parse_loop].
  destruct s as [|c s]; [intros [= ->]; exists []; split; [constructor | done] |].
  destruct (get_next_seq_range (c :: s)) as [[[a b] rest]|] eqn:E; [| done].
  apply get_next_seq_range_sound in E as (s1 & Heq & Hi). rewrite Heq in *. clear Heq.
  destruct (seq_range_array_add_range dest a b) as [d'|] eqn:Ha; [| done]. cbn [mbind option_bind].
  apply Forall_app in Hs as [_ Hrest].
  destruct rest as [|c' rest].
  - change (at0 [] 0 =? 44) with false. change (at0 [] 0 =? 0) with true. cbn [negb].
    destruct fuel; [done |]. intros [= ->]. exists [(a, b)]. rewrite app_nil_r.
    split; [by constructor |]. cbn. by rewrite Ha.
  - apply Forall_cons in Hrest as [Hc' Hrest]. change (at0 (c' :: rest) 0) with c'.
    destruct (Z.eqb_spec c' 44) as [-> | Hne].
    + cbn [skipn]. rewrite drop_0. intros (rs & Hrs & Hd)%IH; [| done]. exists ((a, b) :: rs).
      split; [by constructor |]. cbn. by rewrite Ha.
    + rewrite (proj2 (Z.eqb_neq c' 0)) by lia. done.
Qed.

(** ** The set stored *)

Definition in_ranges (x : Z) (rs : list (Z * Z)) : bool := existsb (fun '(a, b) => (a <=? x) && (x <=? b)) rs.

(** The ranges that end at the last message. *)
Definition last_count (rs : list (Z * Z)) : nat := length (filter (fun '(a, b) => b = UINT32_MAX) rs).

Lemma add_ranges_spec rs dest :
  Forall (fun '(a, b) => 0 <= a <= b /\ b <= UINT32_MAX) rs -> wf dest ->
  Z.of_nat (length dest + length rs) < INT_MAX ->
  (last_count rs + (if mem UINT32_MAX dest then 1 else 0) <= 1)%nat ->
  exists d, add_ranges rs dest = Some d /\ wf d /\ (forall x, mem x d = in_ranges x rs || mem x dest) /\
    (length d <= length dest + length rs)%nat.
Proof.
  intros Hrs. revert dest. induction Hrs as [|[a b] rs [Hab Hb] Hrs IH]; intros dest Hwf Hlen Hone; cbn [add_ranges].
  { exists dest. split_and!; try done. lia. }
  unfold last_count in *. rewrite filter_cons in Hone. cbn [length] in Hlen.
  destruct (seq_range_array_add_range_internal_spec dest a b false) as ([c d] & Heq & Hwf' & Hm & Hl & _);
    [done | unfold len_ok; lia | done | done | |].
  { intros ->. rewrite decide_True in Hone by done. cbn [length] in Hone. by destruct (mem UINT32_MAX dest); [lia |]. }
  unfold seq_range_array_add_range. rewrite Heq. cbn [mbind option_bind]. cbn [snd] in *.
  destruct (IH d) as (d' & Hd' & Hwf'' & Hm' & Hl'); [done | lia | |].
  { rewrite Hm. destruct (decide (b = UINT32_MAX)) as [-> | Hne]; cbn [length] in Hone.
    - destruct (mem UINT32_MAX dest); [lia |]. case_match; lia.
    - rewrite (proj2 (Z.leb_gt UINT32_MAX b)) by lia. rewrite andb_false_r. cbn [orb]. lia. }
  exists d'. split_and!; [done | done | | simpl; lia]. intros x. rewrite Hm', Hm. cbn [in_ranges existsb].
  unfold in_ranges. destruct (existsb _ rs); lia.
Qed.

Lemma seqset_bounds s rs : seqset s rs ->
  Forall (fun '(a, b) => 0 < a <= b /\ b <= UINT32_MAX) rs /\ (length rs <= length s)%nat.
Proof.
  induction 1 as [|s [a b] Hi|s [a b] rest rs Hi Hs [IH1 IH2]].
  - done.
  - destruct (item_range_bounds _ _ _ Hi) as (? & ? & Hne). destruct s; [done |].
    split; [constructor; [done | constructor] | simpl; lia].
  - destruct (item_range_bounds _ _ _ Hi) as (? & ? & Hne). split; [by constructor |].
    rewrite length_app. simpl. lia.
Qed.

(** ** Properties *)

(** [imap_seq_set_parse] returns 0 exactly for the strings of the
    language [seqset], and then has added the ranges of the string in order. *)
Theorem imap_seq_set_parse_language s dest d :
  is_cstr s ->
  (imap_seq_set_parse s dest = Some (0, d) <-> exists rs, seqset s rs /\ add_ranges rs dest = Some d).
Proof.
  intros Hs. unfold imap_seq_set_parse. split.
  - by apply seqset_sound.
  - intros (rs & Hrs & Ha). by eapply seqset_complete; [| | lia].
Qed.

Lemma imap_seq_set_parse_language_witness :
  is_cstr (str "5:3,7") /\ exists rs, seqset (str "5:3,7") rs /\ add_ranges rs [] = Some [SR 3 5; SR 7 7].
Proof.
  assert (H : is_cstr (str "5:3,7")) by (repeat constructor).
  split; [exact H | apply (imap_seq_set_parse_language (str "5:3,7") [] [SR 3 5; SR 7 7] H); reflexivity].
Defined.

(** C28: the parser succeeds for every sequence set, and the array holds exactly
    the numbers of the set besides those it held before, with numbers reduced to
    32 bits and [*] as the largest of them; the variant without [*] succeeds
    exactly when neither the set nor the array before it has that largest
    number.  It is assumed that this number is reached at most once in all, by a
    part of the set or by the array before it, and that the array does not grow
    beyond 2^31 ranges. *)
Theorem imap_seq_set_parse_set s rs dest :
  seqset s rs -> wf dest -> Z.of_nat (length dest + length s) + 1 < INT_MAX ->
  (last_count rs + (if mem UINT32_MAX dest then 1 else 0) <= 1)%nat ->
  exists d, imap_seq_set_parse s dest = Some (0, d) /\ wf d /\
    (forall x, mem x d = in_ranges x rs || mem x dest) /\
    imap_seq_set_nostar_parse s dest =
      Some (if in_ranges UINT32_MAX rs || mem UINT32_MAX dest then -1 else 0, d).
Proof.
  intros Hs Hwf Hlen Hone. destruct (seqset_bounds s rs Hs) as [Hb Hl].
  destruct (add_ranges_spec rs dest) as (d & Ha & Hwf' & Hm & Hl'); [| done | lia | done |].
  { eapply Forall_impl; [exact Hb |]. intros [a b]. lia. }
  assert (Hp : imap_seq_set_parse s dest = Some (0, d)) by (eapply seqset_complete; [done | done | lia]).
  exists d. split_and!; [done | done | done |]. unfold imap_seq_set_nostar_parse. rewrite Hp.
  cbn [mbind option_bind Z.ltb Z.compare]. rewrite seq_range_exists_spec by (done || unfold len_ok; lia).
  cbn [mbind option_bind]. rewrite <- Hm. by destruct (mem UINT32_MAX d).
Qed.

Lemma imap_seq_set_parse_set_witness :
  exists d, imap_seq_set_parse (str "2,4:*") [] = Some (0, d) /\ mem 7 d = true.
Proof.
  destruct (imap_seq_set_parse_set (str "2,4:*") [(2, 2); (4, UINT32_MAX)] []) as (d & Hd & _ & Hm & _).
  - apply (seqset_cons (str "2") (2, 2) (str "4:*")).
    + apply item_single, (seqnum_digits (str "2")); [reflexivity | discriminate].
    + apply seqset_last. apply (item_range (str "4") [42] 4 UINT32_MAX); [| constructor].
      apply (seqnum_digits (str "4")); [reflexivity | discriminate].
  - exact I.
  - reflexivity.
  - reflexivity.
  - exists d. split; [exact Hd | rewrite Hm; reflexivity].
Defined.

(** A set that names the last message twice is stored as overlapping
    ranges in the wrong order: ["*,n:*"] gives the range from [n] to the end
    and behind it the last message again, which is not a well-formed array. *)
Theorem imap_seq_set_parse_star_twice ds :
  all_digits ds = true -> token_value ds <> 0 ->
  imap_seq_set_parse ([42; 44] ++ ds ++ [58; 42]) [] =
    Some (0, [SR (token_value ds) UINT32_MAX; SR UINT32_MAX UINT32_MAX]) /\
  ~ wf [SR (token_value ds) UINT32_MAX; SR UINT32_MAX UINT32_MAX].
Proof.
  intros Hd Hv. pose proof (seqnum_digits ds Hd Hv) as Hn. destruct (seqnum_range _ _ Hn) as [Hr _].
  split; [| unfold wf; cbn; lia]. unfold imap_seq_set_parse.
  apply (seqset_complete _ [(UINT32_MAX, UINT32_MAX); (token_value ds, UINT32_MAX)]); [| | lia].
  - apply (seqset_cons [42] (UINT32_MAX, UINT32_MAX) (ds ++ [58; 42])); [repeat constructor |].
    apply seqset_last. pose proof (item_range ds [42] _ _ Hn seqnum_star) as Hi.
    by rewrite Z.min_l, Z.max_r in Hi by lia.
  - cbn [add_ranges]. change (seq_range_array_add_range [] UINT32_MAX UINT32_MAX) with (Some [SR UINT32_MAX UINT32_MAX]).
    cbn [mbind option_bind]. rewrite add_range_wraps_spec by (unfold is_u32; lia). done.
Qed.

Lemma imap_seq_set_parse_star_twice_witness :
  imap_seq_set_parse (str "*,1:*") [] = Some (0, [SR 1 UINT32_MAX; SR UINT32_MAX UINT32_MAX]).
Proof. apply (imap_seq_set_parse_star_twice (str "1")); [reflexivity | discriminate]. Defined.
