(* ===== verification/ImapUtf7.v ===== *)
(** * IMAP mailbox names in modified UTF-7 (src/src/lib-imap/imap-utf7.c)

    Both directions of the conversion between UTF-8 and IMAP-UTF-7.  Strings
    are lists of bytes without the terminating NUL; [dest] is the buffer
    appended to.  A function returns its result code and [dest]; [None] is a
    failed assertion of the UTF-8 encoder. *)

From S2P Require Import Prelude Bsearch Unichar.

Definition imap_b64enc : list Z :=
  str "ABCDEFGHIJKLMNOPQRSTUVWXYZabcdefghijklmnopqrstuvwxyz0123456789+,".

Definition imap_b64dec : list Z :=
  [0xff; 0xff; 0xff; 0xff; 0xff; 0xff; 0xff; 0xff; 0xff; 0xff; 0xff; 0xff; 0xff; 0xff; 0xff; 0xff;
   0xff; 0xff; 0xff; 0xff; 0xff; 0xff; 0xff; 0xff; 0xff; 0xff; 0xff; 0xff; 0xff; 0xff; 0xff; 0xff;
   0xff; 0xff; 0xff; 0xff; 0xff; 0xff; 0xff; 0xff; 0xff; 0xff; 0xff; 62; 63; 0xff; 0xff; 0xff;
   52; 53; 54; 55; 56; 57; 58; 59; 60; 61; 0xff; 0xff; 0xff; 0xff; 0xff; 0xff;
   0xff; 0; 1; 2; 3; 4; 5; 6; 7; 8; 9; 10; 11; 12; 13; 14;
   15; 16; 17; 18; 19; 20; 21; 22; 23; 24; 25; 0xff; 0xff; 0xff; 0xff; 0xff;
   0xff; 26; 27; 28; 29; 30; 31; 32; 33; 34; 35; 36; 37; 38; 39; 40;
   41; 42; 43; 44; 45; 46; 47; 48; 49; 50; 51; 0xff; 0xff; 0xff; 0xff; 0xff;
   0xff; 0xff; 0xff; 0xff; 0xff; 0xff; 0xff; 0xff; 0xff; 0xff; 0xff; 0xff; 0xff; 0xff; 0xff; 0xff;
   0xff; 0xff; 0xff; 0xff; 0xff; 0xff; 0xff; 0xff; 0xff; 0xff; 0xff; 0xff; 0xff; 0xff; 0xff; 0xff;
   0xff; 0xff; 0xff; 0xff; 0xff; 0xff; 0xff; 0xff; 0xff; 0xff; 0xff; 0xff; 0xff; 0xff; 0xff; 0xff;
   0xff; 0xff; 0xff; 0xff; 0xff; 0xff; 0xff; 0xff; 0xff; 0xff; 0xff; 0xff; 0xff; 0xff; 0xff; 0xff;
   0xff; 0xff; 0xff; 0xff; 0xff; 0xff; 0xff; 0xff; 0xff; 0xff; 0xff; 0xff; 0xff; 0xff; 0xff; 0xff;
   0xff; 0xff; 0xff; 0xff; 0xff; 0xff; 0xff; 0xff; 0xff; 0xff; 0xff; 0xff; 0xff; 0xff; 0xff; 0xff;
   0xff; 0xff; 0xff; 0xff; 0xff; 0xff; 0xff; 0xff; 0xff; 0xff; 0xff; 0xff; 0xff; 0xff; 0xff; 0xff;
   0xff; 0xff; 0xff; 0xff; 0xff; 0xff; 0xff; 0xff; 0xff; 0xff; 0xff; 0xff; 0xff; 0xff; 0xff; 0xff].

Definition ienc (i : Z) : Z := at0 imap_b64enc (Z.to_nat i).
Definition idec (c : Z) : Z := default 0xff (imap_b64dec !! Z.to_nat c).

(** ** From UTF-8 *)

(** The groups of three bytes and what remains of them. *)
Fixpoint mbase64_groups (l : list Z) : list Z :=
  match l with
  | [] => []
  | [a] => [ienc (Z.shiftr a 2); ienc (Z.shiftl (Z.land a 0x03) 4)]
  | [a; b] =>
      [ienc (Z.shiftr a 2); ienc (Z.lor (Z.shiftl (Z.land a 0x03) 4) (Z.shiftr b 4));
       ienc (Z.shiftl (Z.land b 0x0f) 2)]
  | a :: b :: c :: l =>
      ienc (Z.shiftr a 2) :: ienc (Z.lor (Z.shiftl (Z.land a 3) 4) (Z.shiftr b 4)) ::
      ienc (Z.lor (Z.shiftl (Z.land b 0x0f) 2) (Z.shiftr (Z.land c 0xc0) 6)) ::
      ienc (Z.land c 0x3f) :: mbase64_groups l
  end.

Definition mbase64_encode (dest l : list Z) : list Z := dest ++ [38] ++ mbase64_groups l ++ [45].

(** Characters outside 0x20..0x7e; a [char] above 0x7f may be negative. *)
Definition not_printable (c : Z) : bool := (c <? 0x20) || (c >=? 0x7f).

(** The number of characters before the first one to be encoded. *)
Fixpoint imap_utf8_first_encode_char (s : list Z) : option nat :=
  match s with
  | [] => None
  | c :: s =>
      if (c =? 38) || not_printable c then Some 0%nat
      else n ← imap_utf8_first_encode_char s; Some (S n)
  end.

Definition UTF16_SURROGATE_BASE : Z := 0x10000.
Definition UTF16_SURROGATE_HIGH (chr : Z) : Z := 0xd800 + Z.shiftr (u32 (chr - UTF16_SURROGATE_BASE)) 10.
Definition UTF16_SURROGATE_LOW (chr : Z) : Z := 0xdc00 + Z.land (u32 (chr - UTF16_SURROGATE_BASE)) 0x03ff.

(** The two bytes of a [uint16_t]. *)
Definition u16_bytes (x : Z) : list Z := [Z.shiftr (x mod 65536) 8; Z.land (x mod 65536) 0xff].

Definition utf16 (chr : Z) : list Z :=
  if chr <? UTF16_SURROGATE_BASE then u16_bytes chr
  else u16_bytes (UTF16_SURROGATE_HIGH chr) ++ u16_bytes (UTF16_SURROGATE_LOW chr).

(** The inner loop: the UTF-16 bytes of the characters to be encoded and the
    rest of the string; [inr] is the return value -1. *)
Fixpoint utf16_run (fuel : nat) (p u : list Z) : option (list Z * list Z + unit) :=
  match fuel with
  | O => None
  | S fuel =>
      match p with
      | [] => Some (inl (u, p))
      | c :: _ =>
          if not_printable c then
            '(ret, chr) ← uni_utf8_get_char p;
            if ret <=? 0 then Some (inr tt)
            else chr ← chr; utf16_run fuel (drop (uni_utf8_char_bytes c) p) (u ++ utf16 chr)
          else Some (inl (u, p))
      end
  end.

Fixpoint utf8_to_utf7_loop (fuel : nat) (p dest : list Z) : option (Z * list Z) :=
  match fuel with
  | O => None
  | S fuel =>
      match p with
      | [] => Some (0, dest)
      | c :: p' =>
          if c =? 38 then utf8_to_utf7_loop fuel p' (dest ++ [38; 45])
          else if negb (not_printable c) then utf8_to_utf7_loop fuel p' (dest ++ [c])
          else
            run ← utf16_run (S (length p)) p [];
            match run with
            | inr _ => Some (-1, dest)
            | inl (u, p) => utf8_to_utf7_loop fuel p (mbase64_encode dest u)
            end
      end
  end.

Definition imap_utf8_to_utf7 (src dest : list Z) : option (Z * list Z) :=
  match imap_utf8_first_encode_char src with
  | None => Some (0, dest ++ src)
  | Some n => utf8_to_utf7_loop (S (length src)) (drop n src) (dest ++ take n src)
  end.

Definition t_imap_utf8_to_utf7 (src : list Z) : option (Z * list Z) :=
  match imap_utf8_first_encode_char src with
  | None => Some (0, src)
  | Some _ => imap_utf8_to_utf7 src []
  end.

(** ** To UTF-8 *)

(** [output] is the ring of four bytes, [pos] the place of the first of the
    [len] bytes that are in it.  The result is the return value, [dest] and
    the new place. *)
Definition utf16buf_to_utf8 (dest output : list Z) (pos len : nat) : option (Z * list Z * nat) :=
  let out i := nth ((pos + i) mod 4) output 0 in
  if negb (len mod 2 =? 0)%nat then Some (-1, dest, pos)
  else
    let high := Z.lor (Z.shiftl (out 0%nat) 8) (out 1%nat) in
    if (high <? 0xd800) || (high >? 0xdfff) then
      let oldlen := length dest in
      if high =? 0 then Some (-1, dest, pos)
      else
        dest ← uni_ucs4_to_utf8_c high dest;
        let last := nth oldlen dest 0 in
        if (length dest - oldlen =? 1)%nat && (last >=? 0x20) && (last <? 0x7f) then Some (-1, dest, pos)
        else Some (0, dest, ((pos + 2) mod 4)%nat)
    else if high >? 0xdbff then Some (-1, dest, pos)
    else if negb (len =? 4)%nat then Some (-1, dest, pos)
    else
      let low := Z.lor (Z.shiftl (out 2%nat) 8) (out 3%nat) in
      if (low <? 0xdc00) || (low >? 0xdfff) then Some (-1, dest, pos)
      else
        let chr := UTF16_SURROGATE_BASE + Z.lor (Z.shiftl (Z.land high 0x03ff) 10) (Z.land low 0x03ff) in
        dest ← uni_ucs4_to_utf8_c chr dest;
        Some (0, dest, pos).

Record ring := Ring { r_dest : list Z; r_output : list Z; r_outstart : nat; r_outpos : nat }.

(** Storing a byte, and decoding when the ring is full. *)
Definition ring_put (r : ring) (b : Z) : option (Z * ring) :=
  let output := <[(r_outpos r mod 4)%nat := b]> (r_output r) in
  let outpos := S (r_outpos r) in
  if (outpos mod 4 =? r_outstart r)%nat then
    '(ret, dest, outstart) ← utf16buf_to_utf8 (r_dest r) output (r_outstart r) 4;
    Some (ret, Ring dest output outstart outpos)
  else Some (0, Ring (r_dest r) output (r_outstart r) outpos).

(** The bytes stored for one group of characters. *)
Definition dec0 (i0 i1 : Z) : Z := Z.lor (Z.shiftl i0 2) (Z.shiftr i1 4) mod 256.
Definition dec1 (i1 i2 : Z) : Z := Z.lor (Z.shiftl i1 4) (Z.shiftr i2 2) mod 256.
Definition dec2 (i2 i3 : Z) : Z := Z.lor (Z.land (Z.shiftl i2 6) 0xc0) i3 mod 256.

(** The loop: the return value, the ring and the string from the ending [-]. *)
Fixpoint mbase64_decode_loop (fuel : nat) (r : ring) (src : list Z) : option (Z * ring * list Z) :=
  match fuel with
  | O => None
  | S fuel =>
      if at0 src 0 =? 45 then Some (0, r, src)
      else
        let i0 := idec (at0 src 0) in
        if i0 =? 0xff then Some (-1, r, src)
        else
          let i1 := idec (at0 src 1) in
          if i1 =? 0xff then Some (-1, r, src)
          else
            '(ret, r) ← ring_put r (dec0 i0 i1);
            if ret <? 0 then Some (-1, r, src)
            else
              let i2 := idec (at0 src 2) in
              if i2 =? 0xff then
                if negb (at0 src 2 =? 45) then Some (-1, r, src) else Some (0, r, drop 2 src)
              else
                '(ret, r) ← ring_put r (dec1 i1 i2);
                if ret <? 0 then Some (-1, r, src)
                else
                  let i3 := idec (at0 src 3) in
                  if i3 =? 0xff then
                    if negb (at0 src 3 =? 45) then Some (-1, r, src) else Some (0, r, drop 3 src)
                  else
                    '(ret, r) ← ring_put r (dec2 i2 i3);
                    if ret <? 0 then Some (-1, r, src)
                    else mbase64_decode_loop fuel r (drop 4 src)
  end.

(** The return value, [dest] and the rest of the string. *)
Definition mbase64_decode_to_utf8 (dest src : list Z) : option (Z * list Z * list Z) :=
  '(ret, r, src') ← mbase64_decode_loop (S (length src)) (Ring dest [0; 0; 0; 0] 0 0) src;
  if ret <? 0 then Some (-1, r_dest r, src)
  else if negb (r_outstart r =? r_outpos r mod 4)%nat then
    '(ret, dest, _) ← utf16buf_to_utf8 (r_dest r) (r_output r) (r_outstart r)
                        ((4 + r_outpos r - r_outstart r) mod 4);
    if ret <? 0 then Some (-1, dest, src) else Some (0, dest, drop 1 src')
  else Some (0, r_dest r, drop 1 src').

(** The first loop: -1 for a character that is not allowed, otherwise the
    number of characters before the first [&]. *)
Fixpoint utf7_scan (s : list Z) : option nat :=
  match s with
  | [] => Some 0%nat
  | c :: s => if not_printable c then None else if c =? 38 then Some 0%nat else n ← utf7_scan s; Some (S n)
  end.

Fixpoint utf7_to_utf8_loop (fuel : nat) (p dest : list Z) : option (Z * list Z) :=
  match fuel with
  | O => None
  | S fuel =>
      match p with
      | [] => Some (0, dest)
      | c :: p =>
          if c =? 38 then
            if at0 p 0 =? 45 then utf7_to_utf8_loop fuel (drop 1 p) (dest ++ [38])
            else
              '(ret, dest, p) ← mbase64_decode_to_utf8 dest p;
              if ret <? 0 then Some (-1, dest)
              else if (at0 p 0 =? 38) && negb (at0 p 1 =? 45) then Some (-1, dest)
              else utf7_to_utf8_loop fuel p dest
          else utf7_to_utf8_loop fuel p (dest ++ [c])
      end
  end.

Definition imap_utf7_to_utf8 (src dest : list Z) : option (Z * list Z) :=
  match utf7_scan src with
  | None => Some (-1, dest)
  | Some n =>
      match drop n src with
      | [] => Some (0, dest ++ src)
      | p => utf7_to_utf8_loop (S (length src)) p (dest ++ take n src)
      end
  end.

Fixpoint imap_utf7_is_valid (src : list Z) : option bool :=
  match src with
  | [] => Some true
  | c :: src' =>
      if not_printable c then Some false
      else if c =? 38 then
        '(ret, _) ← imap_utf7_to_utf8 src [];
        if ret <? 0 then Some false else imap_utf7_is_valid src'
      else imap_utf7_is_valid src'
  end.
