(* ===== verification/ImapUtf7Props.v ===== *)
(** * Correctness of the IMAP-UTF-7 conversion

    [parse16] reads big-endian UTF-16 bytes as code points.  The decoder's
    ring of four bytes refines it, whatever the alignment of the bytes in the
    base64 groups, and the conversion to IMAP-UTF-7 and back is the identity
    on names of Unicode scalar values. *)

From S2P Require Import Prelude Base64 Bsearch Unichar UnicharProps ImapUtf7.

(** ** UTF-16 as code points *)

(** A BMP code unit that the decoder accepts: not NUL, and not a character
    that may be written directly. *)
Definition bmp_ok (high : Z) : bool := negb (high =? 0) && not_printable high.

(** The code point the bytes start with, and the bytes behind it. *)
Definition first_unit (l : list Z) : option (Z * list Z) :=
  match l with
  | b0 :: b1 :: l' =>
      let high := b0 * 256 + b1 in
      if (high <? 0xd800) || (high >? 0xdfff) then
        if bmp_ok high then Some (high, l') else None
      else if high >? 0xdbff then None
      else
        match l' with
        | b2 :: b3 :: l'' =>
            let low := b2 * 256 + b3 in
            if (low <? 0xdc00) || (low >? 0xdfff) then None
            else Some (0x10000 + ((high - 0xd800) * 1024 + (low - 0xdc00)), l'')
        | _ => None
        end
  | _ => None
  end.

Fixpoint parse16 (fuel : nat) (l : list Z) : option (list Z) :=
  match fuel with
  | O => None
  | S fuel =>
      match l with
      | [] => Some []
      | _ => '(c, l') ← first_unit l; cs ← parse16 fuel l'; Some (c :: cs)
      end
  end.

Lemma first_unit_rest l c l' : first_unit l = Some (c, l') -> Forall is_byte l ->
  is_ucs4 c /\ (exists pre, l = pre ++ l' /\ (length pre = 2 \/ length pre = 4)%nat).
Proof.
  unfold is_ucs4. destruct l as [|b0 [|b1 l]]; cbn [first_unit]; [done | done |].
  rewrite !Forall_cons. unfold is_byte. intros H (H0 & H1 & Hl). rewrite !Z.gtb_ltb in H.
  destruct (Z.ltb_spec (b0 * 256 + b1) 0xd800), (Z.ltb_spec 0xdfff (b0 * 256 + b1)); cbn [orb] in H.
  1, 2, 3: destruct (bmp_ok _); [| done]; injection H as <- <-; (split; [lia |]); exists [b0; b1]; auto.
  destruct (Z.ltb_spec 0xdbff (b0 * 256 + b1)); [done |].
  destruct l as [|b2 [|b3 l]]; [done | done |]. rewrite Z.gtb_ltb in H.
  destruct (Z.ltb_spec (b2 * 256 + b3) 0xdc00), (Z.ltb_spec 0xdfff (b2 * 256 + b3)); cbn [orb] in H; try done.
  injection H as <- <-. split; [lia |]. exists [b0; b1; b2; b3]. auto.
Qed.

(** ** The ring *)

(** The ring holds the bytes [pend] from its start on. *)
Definition rep (r : ring) (pend : list Z) : Prop :=
  (exists o0 o1 o2 o3, r_output r = [o0; o1; o2; o3]) /\ (r_outstart r < 4)%nat /\ (length pend < 4)%nat /\
  Forall is_byte pend /\ (r_outpos r mod 4 = (r_outstart r + length pend) mod 4)%nat /\
  forall i b, pend !! i = Some b -> nth ((r_outstart r + i) mod 4) (r_output r) 0 = b.

(** The two code units as the decoder computes them. *)
Lemma u16_join b0 b1 : is_byte b0 -> is_byte b1 -> Z.lor (Z.shiftl b0 8) b1 = b0 * 256 + b1.
Proof.
  unfold is_byte. intros. rewrite Z.shiftl_mul_pow2 by lia. apply (lor_disjoint' b1 b0 8); lia.
Qed.

Lemma surrogate_join high low : 0xd800 <= high <= 0xdbff -> 0xdc00 <= low <= 0xdfff ->
  Z.lor (Z.shiftl (Z.land high 0x03ff) 10) (Z.land low 0x03ff) = (high - 0xd800) * 1024 + (low - 0xdc00).
Proof.
  intros Hh Hl. change 0x03ff with (2 ^ 10 - 1). rewrite !land_low, Z.shiftl_mul_pow2 by lia.
  rewrite lor_disjoint' by (try apply Z.mod_pos_bound; lia). change (2 ^ 10) with 1024.
  Z.div_mod_to_equations. lia.
Qed.

Lemma utf8_single c : is_ucs4 c -> length (utf8 c) = 1%nat -> utf8 c = [c].
Proof.
  intros Hc Hl. rewrite utf8_length in Hl. destruct (class_spec c Hc) as (_ & _ & _ & _ & Hz).
  apply utf8_ascii. unfold is_ucs4 in Hc. assert (c < 128) by (apply Hz; lia). lia.
Qed.

(** [utf16buf_to_utf8] decodes the first code point of the bytes it is told of. *)
Lemma utf16buf_spec dest output pos l :
  Forall is_byte l -> (length l = 2 \/ length l = 4)%nat -> (pos < 4)%nat ->
  (forall i b, l !! i = Some b -> nth ((pos + i) mod 4) output 0 = b) ->
  match first_unit l with
  | Some (c, l') => utf16buf_to_utf8 dest output pos (length l) =
      Some (0, dest ++ utf8 c, ((pos + (length l - length l')) mod 4)%nat)
  | None => exists dest', utf16buf_to_utf8 dest output pos (length l) = Some (-1, dest', pos)
  end.
Proof.
  intros Hb Hlen Hpos Hout.
  assert (Heven : negb (length l mod 2 =? 0)%nat = false) by (destruct Hlen as [-> | ->]; reflexivity).
  unfold utf16buf_to_utf8. rewrite Heven. clear Heven.
  destruct l as [|b0 [|b1 l]]; cbn [length] in Hlen; try lia.
  rewrite (Hout 0%nat b0), (Hout 1%nat b1) by done. rewrite !Forall_cons in Hb. destruct Hb as (H0 & H1 & Hl).
  rewrite u16_join by done. cbn [first_unit]. set (high := b0 * 256 + b1). unfold is_byte in H0, H1.
  assert (Hh : 0 <= high < 65536) by (unfold high; lia). cbv zeta.
  destruct ((high <? 0xd800) || (high >? 0xdfff)) eqn:Ebmp.
  - unfold bmp_ok. destruct (Z.eqb_spec high 0); cbn [negb andb]; [eauto |].
    rewrite uni_ucs4_to_utf8_c_spec by (unfold is_ucs4; lia). cbn [mbind option_bind].
    assert (Hlast : (length (dest ++ utf8 high) - length dest =? 1)%nat && (nth (length dest) (dest ++ utf8 high) 0 >=? 0x20)
      && (nth (length dest) (dest ++ utf8 high) 0 <? 0x7f) = negb (not_printable high)).
    { rewrite length_app, Nat.add_comm, Nat.add_sub, app_nth2, Nat.sub_diag by lia.
      unfold not_printable. rewrite !Z.geb_leb. destruct (Nat.eqb_spec (length (utf8 high)) 1) as [E | E]; cbn [andb].
      - rewrite utf8_single by (done || unfold is_ucs4; lia). cbn [nth]. lia.
      - assert (128 <= high); [| lia]. destruct (Z.lt_ge_cases high 128); [| done].
        exfalso. apply E. by rewrite utf8_ascii by lia. }
    rewrite Hlast. destruct (not_printable high); cbn [negb]; [| eauto].
    do 4 f_equal. cbn [length]. lia.
  - rewrite Z.gtb_ltb. destruct (Z.ltb_spec 0xdbff high); [eauto |].
    destruct l as [|b2 [|b3 l]]; [cbn; eauto | cbn [length] in Hlen; lia |].
    assert (l = []) as -> by (destruct l; [done | cbn [length] in Hlen; lia]). cbn [length Nat.eqb negb].
    rewrite (Hout 2%nat b2), (Hout 3%nat b3) by done. rewrite !Forall_cons in Hl. destruct Hl as (H2 & H3 & _).
    rewrite u16_join by done. set (low := b2 * 256 + b3).
    destruct ((low <? 0xdc00) || (low >? 0xdfff)) eqn:El; [eauto |].
    rewrite surrogate_join by lia. unfold UTF16_SURROGATE_BASE.
    rewrite uni_ucs4_to_utf8_c_spec by (unfold is_ucs4; lia). cbn [mbind option_bind].
    do 3 f_equal. destruct pos as [|[|[|[|pos]]]]; try lia; reflexivity.
Qed.

(** ** Feeding bytes *)

(** The pending bytes and the code points decoded when one more byte comes. *)
Definition feed (pend : list Z) (b : Z) : option (list Z * list Z) :=
  if (length pend <? 3)%nat then Some (pend ++ [b], [])
  else '(c, l') ← first_unit (pend ++ [b]); Some (l', [c]).

Lemma mod4_succ n k : (n mod 4 = k)%nat -> (S n mod 4 = S k mod 4)%nat.
Proof. intros <-. by rewrite <- (Nat.add_1_r n), <- (Nat.add_1_r (n mod 4)), Nat.Div0.add_mod_idemp_l. Qed.

Lemma rep_insert r pend b :
  rep r pend -> is_byte b ->
  let output := <[(r_outpos r mod 4)%nat := b]> (r_output r) in
  (exists o0 o1 o2 o3, output = [o0; o1; o2; o3]) /\ Forall is_byte (pend ++ [b]) /\
  (forall i c, (pend ++ [b]) !! i = Some c -> nth ((r_outstart r + i) mod 4) output 0 = c) /\
  (S (r_outpos r) mod 4 = (r_outstart r + S (length pend)) mod 4)%nat /\
  ((S (r_outpos r) mod 4 =? r_outstart r) = (length pend =? 3))%nat.
Proof.
  intros ((o0 & o1 & o2 & o3 & Ho) & Hs & Hl & Hb & Hpos & Hnth) Hbyte. cbv zeta.
  apply mod4_succ in Hpos as Hpos'. rewrite Hpos, Ho. rewrite Ho in Hnth.
  destruct (r_outstart r) as [|[|[|[|?]]]]; [| | | | lia];
    (destruct pend as [|p0 [|p1 [|p2 [|? ?]]]]; cbn [length] in *; try lia);
    (split_and!; [cbn; eauto | apply Forall_app; auto | | rewrite Hpos'; reflexivity | rewrite Hpos'; reflexivity]);
    intros i c Hi; (destruct i as [|[|[|[|i]]]]; cbn in Hi; try done; injection Hi as <-; cbn;
    first [reflexivity | apply (Hnth 0%nat); reflexivity | apply (Hnth 1%nat); reflexivity | apply (Hnth 2%nat); reflexivity]).
Qed.

Lemma ring_put_spec r pend b :
  rep r pend -> is_byte b ->
  match feed pend b with
  | Some (pend', cs) => exists r', ring_put r b = Some (0, r') /\ rep r' pend' /\ r_dest r' = r_dest r ++ flat_map utf8 cs
  | None => exists r', ring_put r b = Some (-1, r')
  end.
Proof.
  intros Hrep Hbyte. destruct (rep_insert r pend b Hrep Hbyte) as (Hout & Hb & Hnth & Hpos & Hfull).
  destruct Hrep as (_ & Hs & Hl & _). unfold ring_put, feed. cbv zeta. rewrite Hfull.
  destruct (Nat.eqb_spec (length pend) 3) as [E3 | E3].
  - rewrite (proj2 (Nat.ltb_ge _ 3)) by lia.
    assert (Hlen : length (pend ++ [b]) = 4%nat) by (rewrite length_app, E3; done).
    pose proof (utf16buf_spec (r_dest r) _ (r_outstart r) (pend ++ [b]) Hb (or_intror Hlen) Hs Hnth) as Hspec.
    rewrite Hlen in Hspec.
    destruct (first_unit (pend ++ [b])) as [[c l']|] eqn:E; cbn [mbind option_bind].
    2: { destruct Hspec as (dest' & ->). cbn. eauto. }
    rewrite Hspec. cbn [mbind option_bind]. eexists. split; [done |]. cbn [r_dest flat_map]. rewrite app_nil_r.
    split; [| done]. destruct (first_unit_rest _ _ _ E Hb) as (_ & pre & Hpre & Hlp).
    assert (Hll : length (pre ++ l') = 4%nat) by (by rewrite <- Hpre). rewrite length_app in Hll.
    unfold rep. cbn [r_output r_outstart r_outpos]. split_and!; [done | apply Nat.mod_upper_bound; lia | lia | | |].
    + rewrite Hpre in Hb. by apply Forall_app in Hb as [_ ?].
    + rewrite Hpos, E3, Nat.Div0.add_mod_idemp_l. f_equal. lia.
    + intros i c' Hi. rewrite Nat.Div0.add_mod_idemp_l, <- Nat.add_assoc. apply Hnth. rewrite Hpre.
      rewrite lookup_app_r by lia. by replace (4 - length l' + i - length pre)%nat with i by lia.
  - rewrite (proj2 (Nat.ltb_lt _ 3)) by lia. eexists. split; [done |]. cbn [r_dest flat_map]. rewrite app_nil_r.
    split; [| done]. unfold rep. cbn [r_output r_outstart r_outpos]. rewrite length_app. cbn [length].
    split_and!; [done | done | lia | done | by rewrite Hpos, Nat.add_1_r | done].
Qed.

Fixpoint feed_all (pend bytes : list Z) : option (list Z * list Z) :=
  match bytes with
  | [] => Some (pend, [])
  | b :: bytes =>
      '(pend, cs) ← feed pend b;
      '(pend, cs') ← feed_all pend bytes;
      Some (pend, cs ++ cs')
  end.

(** What is left over at the end must be nothing or one code unit. *)
Definition flush (pend : list Z) : option (list Z) :=
  match pend with
  | [] => Some []
  | [b0; b1] => '(c, _) ← first_unit [b0; b1]; Some [c]
  | _ => None
  end.

Lemma first_unit_app l bs : length l = 4%nat ->
  first_unit (l ++ bs) = '(c, l') ← first_unit l; Some (c, l' ++ bs).
Proof.
  destruct l as [|b0 [|b1 [|b2 [|b3 [|? ?]]]]]; cbn [length]; intros; try lia.
  cbn [app first_unit]. by repeat case_match.
Qed.

Lemma first_unit_shorter l c l' : first_unit l = Some (c, l') -> (length l' < length l)%nat.
Proof.
  destruct l as [|b0 [|b1 [|b2 [|b3 l]]]]; cbn [first_unit]; intros H; repeat case_match; simplify_eq; cbn; lia.
Qed.

Lemma parse16_fuel f1 f2 l : (length l < f1)%nat -> (length l < f2)%nat -> parse16 f1 l = parse16 f2 l.
Proof.
  revert f2 l. induction f1 as [|f1 IH]; intros f2 l H1 H2; [lia |]. destruct f2 as [|f2]; [lia |]. cbn [parse16].
  destruct l as [|b l]; [done |]. destruct (first_unit (b :: l)) as [[c l']|] eqn:E; [| done]. cbn [mbind option_bind].
  apply first_unit_shorter in E. cbn [length] in *. by rewrite (IH f2 l') by lia.
Qed.

Lemma flush_parse pend : (length pend < 4)%nat -> parse16 (S (length pend)) pend = flush pend.
Proof.
  intros Hl. destruct pend as [|b0 [|b1 [|b2 [|? ?]]]]; cbn [length] in *; try lia; [done | done | |].
  - cbn [parse16 flush]. destruct (first_unit [b0; b1]) as [[c l']|] eqn:E; [| done]. cbn [mbind option_bind].
    assert (l' = []) as ->; [| done]. cbn [first_unit] in E. by repeat case_match; simplify_eq.
  - cbn [parse16 flush]. destruct (first_unit [b0; b1; b2]) as [[c l']|] eqn:E; [| done]. cbn [mbind option_bind].
    assert (l' = [b2]) as ->; [| done]. cbn [first_unit] in E. by repeat case_match; simplify_eq.
Qed.

(** Decoding as bytes come is decoding the whole. *)
Lemma feed_parse pend bytes :
  (length pend < 4)%nat ->
  parse16 (S (length (pend ++ bytes))) (pend ++ bytes) =
  '(pend', cs) ← feed_all pend bytes; cs' ← flush pend'; Some (cs ++ cs').
Proof.
  revert pend. induction bytes as [|b bytes IH]; intros pend Hl; cbn [feed_all].
  - rewrite app_nil_r, flush_parse by done. cbn [mbind option_bind]. by destruct (flush pend).
  - replace (pend ++ b :: bytes) with ((pend ++ [b]) ++ bytes) by (by rewrite <- app_assoc).
    unfold feed. destruct (Nat.ltb_spec (length pend) 3).
    + rewrite IH by (rewrite length_app; cbn; lia). cbn [mbind option_bind].
      destruct (feed_all (pend ++ [b]) bytes) as [[p cs]|]; [| done]. done.
    + assert (Hlen : length (pend ++ [b]) = 4%nat) by (rewrite length_app; cbn; lia).
      cbn [parse16]. rewrite first_unit_app by done.
      destruct ((pend ++ [b]) ++ bytes) as [|x xs] eqn:Ex; [by destruct pend |]. rewrite <- Ex. clear Ex x xs.
      destruct (first_unit (pend ++ [b])) as [[c l']|] eqn:E; [| done]. cbn [mbind option_bind].
      apply first_unit_shorter in E. rewrite (parse16_fuel _ (S (length (l' ++ bytes)))) by (rewrite !length_app in *; cbn in *; lia).
      rewrite IH by lia. destruct (feed_all l' bytes) as [[p cs]|]; [| done]. cbn [mbind option_bind].
      by destruct (flush p).
Qed.

(** ** Base64 *)

Lemma idec_ienc i : 0 <= i < 64 -> idec (ienc i) = i /\ ienc i <> 45 /\ ienc i <> 38 /\ not_printable (ienc i) = false.
Proof.
  intros Hi.
  pose proof (byte_forall (fun i => (64 <=? i) || ((idec (ienc i) =? i) && negb (ienc i =? 45) && negb (ienc i =? 38) &&
    negb (not_printable (ienc i)))) ltac:(vm_compute; reflexivity) i) as H.
  cbv beta in H. unfold is_byte in H. destruct (not_printable (ienc i)); lia.
Qed.

Definition runs (r : ring) (pend l : list Z) (src : list Z) (o : option (Z * ring * list Z)) : Prop :=
  match feed_all pend l with
  | Some (pend', cs) => exists r', o = Some (0, r', src) /\ rep r' pend' /\ r_dest r' = r_dest r ++ flat_map utf8 cs
  | None => exists r' src', o = Some (-1, r', src')
  end.

(** The continuation after one byte was put. *)
Lemma runs_put r pend b l src k fail :
  rep r pend -> is_byte b ->
  (forall r' pend', rep r' pend' -> runs r' pend' l src (k r')) ->
  (forall r', exists r'' src', fail r' = Some (-1, r'', src')) ->
  runs r pend (b :: l) src
    ('(ret, r) ← ring_put r b; if ret <? 0 then fail r else k r).
Proof.
  intros Hr Hb Hk Hf. pose proof (ring_put_spec r pend b Hr Hb) as H. unfold runs. cbn [feed_all].
  destruct (feed pend b) as [[p1 cs1]|]; cbn [mbind option_bind].
  - destruct H as (r1 & -> & Hr1 & Hd1). cbn [mbind option_bind Z.ltb Z.compare].
    specialize (Hk r1 p1 Hr1). unfold runs in Hk. destruct (feed_all p1 l) as [[p2 cs2]|]; cbn [mbind option_bind].
    + destruct Hk as (r2 & -> & Hr2 & Hd2). exists r2. split_and!; [done | done |].
      by rewrite Hd2, Hd1, flat_map_app, app_assoc.
    + exact Hk.
  - destruct H as (r1 & ->). cbn [mbind option_bind Z.ltb Z.compare]. apply Hf.
Qed.

Lemma dec_groups a b c : is_byte a -> is_byte b -> is_byte c ->
  dec0 (a / 4) (a mod 4 * 16 + b / 16) = a /\
  dec1 (a mod 4 * 16 + b / 16) (b mod 16 * 4 + c / 64) = b /\
  dec2 (b mod 16 * 4 + c / 64) (c mod 64) = c.
Proof.
  unfold is_byte. intros. change dec0 with out0. change dec1 with out1. change dec2 with out2.
  rewrite out0_eq, out1_eq, out2_eq by (Z.div_mod_to_equations; lia).
  split_and!; Z.div_mod_to_equations; lia.
Qed.

Lemma groups3 a b c l : is_byte a -> is_byte b -> is_byte c ->
  mbase64_groups (a :: b :: c :: l) =
  ienc (a / 4) :: ienc (a mod 4 * 16 + b / 16) :: ienc (b mod 16 * 4 + c / 64) :: ienc (c mod 64) :: mbase64_groups l.
Proof.
  intros. cbn [mbase64_groups]. change 3 with 0x03. rewrite group1, group2 by done.
  change 0x3f with (2 ^ 6 - 1). rewrite land_low, Z.shiftr_div_pow2 by lia. done.
Qed.

Lemma groups2 a b : is_byte a -> is_byte b ->
  mbase64_groups [a; b] = [ienc (a / 4); ienc (a mod 4 * 16 + b / 16); ienc (b mod 16 * 4 + 0 / 64)].
Proof.
  intros. cbn [mbase64_groups]. rewrite group1 by done. change 0x0f with (2 ^ 4 - 1).
  rewrite land_low, Z.shiftr_div_pow2, Z.shiftl_mul_pow2 by lia. change (0 / 64) with 0. by rewrite Z.add_0_r.
Qed.

Lemma groups1 a : is_byte a -> mbase64_groups [a] = [ienc (a / 4); ienc (a mod 4 * 16 + 0 / 16)].
Proof.
  intros. cbn [mbase64_groups]. change 0x03 with (2 ^ 2 - 1).
  rewrite land_low, Z.shiftr_div_pow2, Z.shiftl_mul_pow2 by lia. change (0 / 16) with 0. by rewrite Z.add_0_r.
Qed.

(** One character of a group is read. *)
Ltac six_bits := unfold is_byte in *; Z.div_mod_to_equations; lia.

Ltac read_char i := destruct (idec_ienc i) as (? & ? & ? & _); [six_bits |].

Ltac not_ff i := rewrite (proj2 (Z.eqb_neq i 0xff)) by six_bits.

Lemma mbase64_decode_loop_spec n fuel r pend l rest :
  (length l <= n)%nat -> Forall is_byte l -> rep r pend -> (length l < fuel)%nat ->
  runs r pend l (45 :: rest) (mbase64_decode_loop fuel r (mbase64_groups l ++ 45 :: rest)).
Proof.
  revert fuel r pend l. induction n as [|n IH]; intros fuel r pend l Hn Hl Hr Hf;
    (destruct fuel as [|fuel]; [lia |]).
  { destruct l; [| cbn in Hn; lia]. unfold runs. cbn. exists r. by rewrite app_nil_r. }
  destruct l as [|a [|b [|c l]]]; rewrite ?Forall_cons in Hl.
  - unfold runs. cbn. exists r. by rewrite app_nil_r.
  - destruct Hl as (Ha & _). rewrite groups1 by done. read_char (a / 4). read_char (a mod 4 * 16 + 0 / 16).
    cbn [app mbase64_decode_loop]. unfold at0. cbn [lookup list_lookup from_option id].
    destruct (dec_groups a 0 0) as (Hd & _); [done | unfold is_byte; lia | unfold is_byte; lia |].
    rewrite (proj2 (Z.eqb_neq _ 45)) by done. cbv zeta. rewrite H, H2, Hd.
    not_ff (a / 4). not_ff (a mod 4 * 16 + 0 / 16).
    eapply (runs_put r pend a [] (45 :: rest)); [done | done | | eauto].
    intros r' pend' Hr'. unfold runs. cbn. exists r'. by rewrite app_nil_r.
  - destruct Hl as (Ha & Hb & _). rewrite groups2 by done. read_char (a / 4). read_char (a mod 4 * 16 + b / 16).
    read_char (b mod 16 * 4 + 0 / 64).
    cbn [app mbase64_decode_loop]. unfold at0. cbn [lookup list_lookup from_option id].
    destruct (dec_groups a b 0) as (Hd & Hd' & _); [done | done | unfold is_byte; lia |].
    rewrite (proj2 (Z.eqb_neq _ 45)) by done. cbv zeta. rewrite H, H2, H5, Hd, Hd'.
    not_ff (a / 4). not_ff (a mod 4 * 16 + b / 16). not_ff (b mod 16 * 4 + 0 / 64).
    eapply (runs_put r pend a [b] (45 :: rest)); [done | done | | eauto]. intros r1 p1 Hr1.
    eapply (runs_put r1 p1 b [] (45 :: rest)); [done | done | | eauto]. intros r2 p2 Hr2.
    unfold runs. cbn. exists r2. by rewrite app_nil_r.
  - destruct Hl as (Ha & Hb & Hc & Hl). rewrite groups3 by done. cbn [length] in *.
    read_char (a / 4). read_char (a mod 4 * 16 + b / 16). read_char (b mod 16 * 4 + c / 64). read_char (c mod 64).
    cbn [app mbase64_decode_loop]. unfold at0. cbn [lookup list_lookup from_option id].
    destruct (dec_groups a b c) as (Hd & Hd' & Hd''); [done | done | done |].
    rewrite (proj2 (Z.eqb_neq _ 45)) by done. cbv zeta. rewrite H, H2, H5, H8, Hd, Hd', Hd''.
    not_ff (a / 4). not_ff (a mod 4 * 16 + b / 16). not_ff (b mod 16 * 4 + c / 64). not_ff (c mod 64).
    eapply (runs_put r pend a (b :: c :: l) (45 :: rest)); [done | done | | eauto]. intros r1 p1 Hr1.
    eapply (runs_put r1 p1 b (c :: l) (45 :: rest)); [done | done | | eauto]. intros r2 p2 Hr2.
    eapply (runs_put r2 p2 c l (45 :: rest)); [done | done | | eauto]. intros r3 p3 Hr3.
    cbn [skipn]. apply IH; (done || lia).
Qed.

Lemma groups_length l : (length l <= length (mbase64_groups l))%nat.
Proof.
  assert (H : forall n l, (length l <= n)%nat -> (length l <= length (mbase64_groups l))%nat); [| by eapply H].
  induction n as [|n IH]; intros k Hk; destruct k as [|a [|b [|c k]]]; cbn [length mbase64_groups] in *; try lia.
  specialize (IH k). lia.
Qed.

Lemma ring_len r pend : rep r pend ->
  ((4 + r_outpos r - r_outstart r) mod 4 = length pend)%nat /\
  (r_outstart r =? r_outpos r mod 4)%nat = (length pend =? 0)%nat.
Proof.
  intros (_ & Hs & Hl & _ & Hpos & _).
  pose proof (Nat.div_mod_eq (r_outpos r) 4) as Hdm. rewrite Hpos in Hdm.
  assert (Hlen : (4 + r_outpos r - r_outstart r = length pend +
      (1 + r_outpos r / 4 - (if (r_outstart r + length pend <? 4)%nat then 0 else 1)) * 4)%nat).
  { destruct (Nat.ltb_spec (r_outstart r + length pend) 4) as [Hlt | Hge].
    - rewrite Nat.mod_small in Hdm by done. lia.
    - replace (r_outstart r + length pend)%nat with ((r_outstart r + length pend - 4) + 1 * 4)%nat in Hdm at 1 by lia.
      rewrite Nat.Div0.mod_add, Nat.mod_small in Hdm by lia. lia. }
  split.
  - rewrite Hlen, Nat.Div0.mod_add. apply Nat.mod_small. lia.
  - rewrite Hpos. destruct (r_outstart r) as [|[|[|[|?]]]]; [| | | | lia];
      destruct (length pend) as [|[|[|[|?]]]]; (lia || reflexivity).
Qed.

(** The decoder of a base64 run: the code points of its bytes. *)
Lemma mbase64_decode_spec dest l rest :
  Forall is_byte l ->
  match parse16 (S (length l)) l with
  | Some cs => mbase64_decode_to_utf8 dest (mbase64_groups l ++ 45 :: rest) = Some (0, dest ++ flat_map utf8 cs, rest)
  | None => exists d s, mbase64_decode_to_utf8 dest (mbase64_groups l ++ 45 :: rest) = Some (-1, d, s)
  end.
Proof.
  intros Hl. pose proof (feed_parse [] l ltac:(cbn; lia)) as Hp. cbn [app] in Hp. rewrite Hp. clear Hp.
  assert (Hr : rep (Ring dest [0; 0; 0; 0] 0 0) []).
  { unfold rep. cbn. split_and!; [eauto | lia | lia | constructor | done | done]. }
  pose proof (mbase64_decode_loop_spec (length l) (S (length (mbase64_groups l ++ 45 :: rest))) _ [] l rest
    (le_n _) Hl Hr) as H.
  specialize (H ltac:(rewrite length_app; pose proof (groups_length l); lia)).
  unfold runs in H. unfold mbase64_decode_to_utf8. destruct (feed_all [] l) as [[pend cs]|]; cbn [mbind option_bind].
  2: { destruct H as (r' & src' & ->). cbn. eauto. }
  destruct H as (r' & -> & Hr' & Hd). cbn [mbind option_bind Z.ltb Z.compare r_dest] in *.
  destruct (ring_len r' pend Hr') as [Hlen Hempty]. rewrite Hlen, Hempty.
  destruct Hr' as (_ & Hs & Hl4 & Hb & _ & Hnth).
  destruct pend as [|b0 [|b1 [|b2 [|? ?]]]]; cbn [length] in *; try lia; cbn [Nat.eqb negb skipn flush mbind option_bind].
  - by rewrite drop_0, Hd, app_nil_r.
  - cbn. eauto.
  - pose proof (utf16buf_spec (r_dest r') (r_output r') (r_outstart r') [b0; b1] Hb (or_introl eq_refl) Hs Hnth) as H.
    cbn [length] in H. destruct (first_unit [b0; b1]) as [[c l']|]; cbn [mbind option_bind].
    + rewrite H. cbn [mbind option_bind Z.ltb Z.compare]. rewrite drop_0, Hd, flat_map_app. cbn [flat_map].
      by rewrite app_nil_r, app_assoc.
    + destruct H as (d & ->). cbn. eauto.
  - cbn. eauto.
Qed.

(** ** Names of Unicode scalar values *)

Definition is_scalar (c : Z) : Prop := 0 < c < 0x110000 /\ ~ (0xd800 <= c <= 0xdfff).

Lemma scalar_ucs4 c : is_scalar c -> is_ucs4 c.
Proof. unfold is_scalar, is_ucs4. lia. Qed.

Lemma u16_bytes_split x : 0 <= x < 65536 -> u16_bytes x = [x / 256; x mod 256] /\ Forall is_byte (u16_bytes x).
Proof.
  intros Hx. unfold u16_bytes. rewrite !Z.mod_small, Z.shiftr_div_pow2 by lia. change 0xff with (2 ^ 8 - 1).
  rewrite land_low by lia. change (2 ^ 8) with 256. split; [done |]. unfold is_byte.
  repeat constructor; Z.div_mod_to_equations; lia.
Qed.

Lemma surrogates c : 0x10000 <= c < 0x110000 ->
  UTF16_SURROGATE_HIGH c = 0xd800 + (c - 0x10000) / 1024 /\ UTF16_SURROGATE_LOW c = 0xdc00 + (c - 0x10000) mod 1024.
Proof.
  intros Hc. unfold UTF16_SURROGATE_HIGH, UTF16_SURROGATE_LOW, UTF16_SURROGATE_BASE.
  rewrite u32_small by (unfold is_u32; lia). change 0x03ff with (2 ^ 10 - 1).
  rewrite land_low, Z.shiftr_div_pow2 by lia. done.
Qed.

Lemma utf16_bytes c : is_scalar c -> Forall is_byte (utf16 c).
Proof.
  intros Hc. unfold utf16, UTF16_SURROGATE_BASE, is_scalar in *. destruct (Z.ltb_spec c 0x10000).
  - apply u16_bytes_split. lia.
  - destruct (surrogates c) as [-> ->]; [lia |].
    apply Forall_app. split; apply u16_bytes_split; Z.div_mod_to_equations; lia.
Qed.

Lemma first_unit_utf16 c l : is_scalar c -> not_printable c = true -> first_unit (utf16 c ++ l) = Some (c, l).
Proof.
  intros Hc Hp. unfold utf16, UTF16_SURROGATE_BASE, is_scalar in *. destruct (Z.ltb_spec c 0x10000).
  - destruct (u16_bytes_split c) as [-> _]; [lia |]. cbn [app first_unit].
    replace (c / 256 * 256 + c mod 256) with c by (Z.div_mod_to_equations; lia). cbv zeta.
    replace ((c <? 0xd800) || (c >? 0xdfff)) with true by lia. unfold bmp_ok.
    by rewrite Hp, (proj2 (Z.eqb_neq c 0)) by lia.
  - destruct (surrogates c) as [-> ->]; [lia |].
    destruct (u16_bytes_split (0xd800 + (c - 0x10000) / 1024)) as [-> _]; [Z.div_mod_to_equations; lia |].
    destruct (u16_bytes_split (0xdc00 + (c - 0x10000) mod 1024)) as [-> _]; [Z.div_mod_to_equations; lia |].
    cbn [app first_unit]. cbv zeta.
    set (h := 0xd800 + (c - 0x10000) / 1024). set (w := 0xdc00 + (c - 0x10000) mod 1024).
    assert (Hh : 0xd800 <= h <= 0xdbff) by (unfold h; Z.div_mod_to_equations; lia).
    assert (Hw : 0xdc00 <= w <= 0xdfff) by (unfold w; Z.div_mod_to_equations; lia).
    assert (Hcw : 0x10000 + ((h - 0xd800) * 1024 + (w - 0xdc00)) = c) by (unfold h, w; Z.div_mod_to_equations; lia).
    replace (h / 256 * 256 + h mod 256) with h by (Z.div_mod_to_equations; lia).
    replace (w / 256 * 256 + w mod 256) with w by (Z.div_mod_to_equations; lia). rewrite Hcw.
    replace ((h <? 0xd800) || (h >? 0xdfff)) with false by lia.
    replace (h >? 0xdbff) with false by lia. by replace ((w <? 0xdc00) || (w >? 0xdfff)) with false by lia.
Qed.

Lemma parse16_utf16 cs fuel :
  Forall (fun c => is_scalar c /\ not_printable c = true) cs -> (length cs < fuel)%nat ->
  parse16 fuel (flat_map utf16 cs) = Some cs.
Proof.
  intros Hcs. revert fuel. induction Hcs as [|c cs [Hc Hp] Hcs IH]; intros fuel Hf;
    (destruct fuel as [|fuel]; [lia |]); cbn [parse16 flat_map]; [done |].
  rewrite first_unit_utf16 by done. cbn [length] in Hf.
  destruct (utf16 c ++ flat_map utf16 cs) eqn:E.
  { apply (f_equal first_unit) in E. by rewrite first_unit_utf16 in E. }
  cbn [mbind option_bind]. rewrite IH by lia. done.
Qed.

(** The encoding of a name: characters that may be written directly, [&-] for
    an ampersand, and maximal runs of other characters in base64. *)
Definition printable_start (cs : list Z) : Prop :=
  match cs with [] => True | c :: _ => not_printable c = false end.

Inductive enc7 : list Z -> list Z -> Prop :=
| enc7_nil : enc7 [] []
| enc7_amp cs o : enc7 cs o -> enc7 (38 :: cs) (38 :: 45 :: o)
| enc7_chr c cs o : not_printable c = false -> c <> 38 -> enc7 cs o -> enc7 (c :: cs) (c :: o)
| enc7_run run cs o :
    run <> [] -> Forall (fun c => is_scalar c /\ not_printable c = true) run -> printable_start cs -> enc7 cs o ->
    enc7 (run ++ cs) (38 :: mbase64_groups (flat_map utf16 run) ++ 45 :: o).

Lemma run_split cs : Forall is_scalar cs ->
  exists run cs', cs = run ++ cs' /\ Forall (fun c => is_scalar c /\ not_printable c = true) run /\
    printable_start cs' /\ Forall is_scalar cs'.
Proof.
  induction 1 as [|c cs Hc Hcs (run & cs' & -> & Hrun & Hstart & Hcs')].
  - exists [], []. cbn. auto.
  - destruct (not_printable c) eqn:E.
    + exists (c :: run), cs'. auto.
    + exists [], (c :: run ++ cs'). cbn. auto.
Qed.

Lemma enc7_exists n cs : (length cs <= n)%nat -> Forall is_scalar cs -> exists o, enc7 cs o.
Proof.
  revert cs. induction n as [|n IH]; intros cs Hn Hcs.
  { destruct cs; [| cbn in Hn; lia]. exists []. constructor. }
  destruct cs as [|c cs]; [exists []; constructor |]. cbn [length] in Hn.
  destruct (not_printable c) eqn:E.
  - destruct (run_split (c :: cs) Hcs) as (run & cs' & Heq & Hrun & Hstart & Hcs').
    destruct run as [|c' run]; [cbn [app] in Heq; subst cs'; cbn in Hstart; congruence |].
    destruct (IH cs') as (o & Ho); [| done |].
    { apply (f_equal length) in Heq. rewrite length_app in Heq. cbn [length] in Heq. lia. }
    rewrite Heq. eexists. by apply enc7_run.
  - apply Forall_cons in Hcs as [_ Hcs]. destruct (IH cs) as (o & Ho); [lia | done |].
    destruct (decide (c = 38)) as [-> | Hne]; eexists; by constructor.
Qed.

(** A code point that may be written directly is one byte. *)
Lemma printable_utf8 c : not_printable c = false -> utf8 c = [c] /\ 0x20 <= c < 0x7f.
Proof. unfold not_printable. intros H. split; [apply utf8_ascii |]; lia. Qed.

(** The first byte of any other character is not printable either. *)
Lemma not_printable_utf8 c : is_scalar c -> not_printable c = true ->
  exists b t, utf8 c = b :: t /\ not_printable b = true /\ b <> 38 /\ uni_utf8_char_bytes b = length (utf8 c).
Proof.
  intros Hc Hp. destruct (utf8_head c (scalar_ucs4 c Hc)) as (b & Hu & Hb & Hcb & Hcase).
  exists b, (cont (class c) c). rewrite utf8_length. unfold not_printable in *.
  destruct Hcase as [(_ & -> & Hlt) | (Hge & _)]; split_and!; try done; lia.
Qed.

Lemma get_char_utf8 c d : is_scalar c -> uni_utf8_get_char (utf8 c ++ d) = Some (1, Some c).
Proof.
  intros Hc%scalar_ucs4. unfold uni_utf8_get_char. rewrite <- app_assoc. apply get_char_n_utf8; [done |].
  rewrite utf8_length. destruct (class_spec c Hc). lia.
Qed.

Lemma utf16_run_spec fuel run p u :
  Forall (fun c => is_scalar c /\ not_printable c = true) run -> printable_start p -> (length run < fuel)%nat ->
  utf16_run fuel (flat_map utf8 run ++ p) u = Some (inl (u ++ flat_map utf16 run, p)).
Proof.
  intros Hrun Hp. revert fuel u. induction Hrun as [|c run [Hc Hnp] Hrun IH]; intros fuel u Hf;
    (destruct fuel as [|fuel]; [lia |]); cbn [flat_map].
  - rewrite app_nil_r. cbn [app]. destruct p as [|c p]; [done |]. cbn in Hp. cbn [utf16_run]. by rewrite Hp.
  - rewrite <- app_assoc. pose proof (get_char_utf8 c (flat_map utf8 run ++ p) Hc) as Hg.
    destruct (not_printable_utf8 c Hc Hnp) as (b & t & Hu & Hb & _ & Hcb).
    rewrite Hu in Hg |- *. cbn [app] in *. cbn [utf16_run]. rewrite Hb, Hg. cbn [mbind option_bind Z.leb Z.compare].
    rewrite Hcb. change (b :: t ++ flat_map utf8 run ++ p) with ((b :: t) ++ flat_map utf8 run ++ p).
    rewrite <- Hu, drop_app_length, IH by (cbn [length] in Hf; lia). by rewrite <- app_assoc.
Qed.

Lemma flat_map_utf8_start cs : printable_start cs -> printable_start (flat_map utf8 cs).
Proof.
  destruct cs as [|c cs]; [done |]. cbn [printable_start flat_map]. intros Hp.
  destruct (printable_utf8 c Hp) as [Hu _]. by rewrite Hu.
Qed.

Lemma flat_map_utf8_length cs : (length cs <= length (flat_map utf8 cs))%nat.
Proof. induction cs as [|c cs IH]; cbn [flat_map length]; [lia |]. rewrite length_app, utf8_length. lia. Qed.

Lemma utf8_to_utf7_loop_spec cs o fuel dest :
  enc7 cs o -> (length cs < fuel)%nat -> utf8_to_utf7_loop fuel (flat_map utf8 cs) dest = Some (0, dest ++ o).
Proof.
  intros He. revert fuel dest. induction He as [|cs o He IH|c cs o Hp Hne He IH|run cs o Hne Hrun Hstart He IH];
    intros fuel dest Hf; (destruct fuel as [|fuel]; [lia |]).
  - cbn. by rewrite app_nil_r.
  - cbn [flat_map]. rewrite utf8_ascii by lia. cbn [app utf8_to_utf7_loop Z.eqb Pos.eqb].
    rewrite IH by (cbn [length] in Hf; lia). by rewrite <- app_assoc.
  - cbn [flat_map]. destruct (printable_utf8 c Hp) as [Hu _]. rewrite Hu. cbn [app utf8_to_utf7_loop].
    rewrite (proj2 (Z.eqb_neq c 38)), Hp by done. cbn [negb].
    rewrite IH by (cbn [length] in Hf; lia). by rewrite <- app_assoc.
  - rewrite flat_map_app, length_app in *.
    pose proof (utf16_run_spec (S (length (flat_map utf8 run ++ flat_map utf8 cs))) run (flat_map utf8 cs) []
      Hrun (flat_map_utf8_start _ Hstart) ltac:(rewrite length_app; pose proof (flat_map_utf8_length run); lia)) as Hr.
    destruct run as [|c run]; [done |]. apply Forall_cons in Hrun as [[Hc Hnp] Hrun].
    destruct (not_printable_utf8 c Hc Hnp) as (b & t & Hu & Hb & Hb38 & _). cbn [length] in Hf.
    cbn [flat_map] in *. rewrite Hu in *. cbn [app] in *. cbn [utf8_to_utf7_loop].
    rewrite (proj2 (Z.eqb_neq b 38)), Hb by done. cbn [negb]. cbn [app length] in Hr |- *. rewrite Hr.
    cbn [mbind option_bind app]. rewrite IH by lia. unfold mbase64_encode. rewrite <- !app_assoc. done.
Qed.

(** ** Decoding *)

Lemma run_bytes run : Forall (fun c => is_scalar c /\ not_printable c = true) run -> Forall is_byte (flat_map utf16 run).
Proof. induction 1 as [|c run [Hc _] _ IH]; cbn [flat_map]; [constructor |]. apply Forall_app. auto using utf16_bytes. Qed.

(** The text of a base64 run: base64 characters only, and at least one. *)
Lemma groups_chars l : Forall is_byte l -> Forall (fun c => c <> 45 /\ c <> 38 /\ not_printable c = false) (mbase64_groups l).
Proof.
  assert (H : forall n l, (length l <= n)%nat -> Forall is_byte l ->
    Forall (fun c => c <> 45 /\ c <> 38 /\ not_printable c = false) (mbase64_groups l)); [| by eapply H].
  assert (Hi : forall i, 0 <= i < 64 -> ienc i <> 45 /\ ienc i <> 38 /\ not_printable (ienc i) = false).
  { intros i Hi. destruct (idec_ienc i Hi) as (_ & ? & ? & ?). auto. }
  induction n as [|n IH]; intros k Hk Hb; destruct k as [|a [|b [|c k]]]; cbn [length] in Hk; try lia;
    rewrite ?Forall_cons in Hb; try (constructor; fail).
  - destruct Hb as (Ha & _). rewrite groups1 by done. repeat constructor; apply Hi; six_bits.
  - destruct Hb as (Ha & Hb & _). rewrite groups2 by done. repeat constructor; apply Hi; six_bits.
  - destruct Hb as (Ha & Hb & Hc & Hk'). rewrite groups3 by done.
    repeat (constructor; [apply Hi; six_bits |]). apply IH; [lia | done].
Qed.

Lemma groups_nonempty run : run <> [] -> Forall (fun c => is_scalar c /\ not_printable c = true) run ->
  exists g gs, mbase64_groups (flat_map utf16 run) = g :: gs /\ g <> 45.
Proof.
  intros Hne Hrun. pose proof (groups_chars _ (run_bytes run Hrun)) as Hg.
  pose proof (groups_length (flat_map utf16 run)) as Hl.
  destruct (mbase64_groups (flat_map utf16 run)) as [|g gs]; [| apply Forall_inv in Hg; exists g, gs; naive_solver].
  exfalso. destruct run as [|c run]; [done |]. apply Forall_inv in Hrun as [Hc Hp].
  pose proof (first_unit_utf16 c [] Hc Hp) as Hf. rewrite app_nil_r in Hf.
  cbn [flat_map] in Hl. rewrite length_app in Hl. destruct (utf16 c); [done | cbn in Hl; lia].
Qed.

Lemma enc7_start cs o : printable_start cs -> enc7 cs o -> (at0 o 0 =? 38) && negb (at0 o 1 =? 45) = false.
Proof.
  intros Hs He. destruct He as [|cs o He|c cs o Hp Hne He|run cs o Hne Hrun Hstart He]; [done | done | |].
  - unfold at0. cbn [lookup list_lookup from_option id]. by rewrite (proj2 (Z.eqb_neq c 38)) by done.
  - destruct run as [|c run]; [done |]. apply Forall_inv in Hrun as [_ ?]. cbn in Hs. congruence.
Qed.

Lemma utf7_to_utf8_loop_spec cs o fuel dest :
  enc7 cs o -> (length o < fuel)%nat -> utf7_to_utf8_loop fuel o dest = Some (0, dest ++ flat_map utf8 cs).
Proof.
  intros He. revert fuel dest. induction He as [|cs o He IH|c cs o Hp Hne He IH|run cs o Hne Hrun Hstart He IH];
    intros fuel dest Hf; (destruct fuel as [|fuel]; [lia |]).
  - cbn. by rewrite app_nil_r.
  - cbn [utf7_to_utf8_loop Z.eqb Pos.eqb]. change (at0 (45 :: o) 0 =? 45) with true. cbn [skipn flat_map].
    rewrite drop_0, IH by (cbn [length] in Hf; lia). rewrite utf8_ascii by lia. by rewrite <- app_assoc.
  - cbn [utf7_to_utf8_loop flat_map]. rewrite (proj2 (Z.eqb_neq c 38)) by done.
    destruct (printable_utf8 c Hp) as [-> _]. rewrite IH by (cbn [length] in Hf; lia). by rewrite <- app_assoc.
  - destruct (groups_nonempty run Hne Hrun) as (g & gs & Hgs & Hg).
    pose proof (mbase64_decode_spec dest (flat_map utf16 run) o (run_bytes run Hrun)) as Hd.
    assert (Hlr : (length run <= length (flat_map utf16 run))%nat).
    { clear -Hrun. induction Hrun as [|c run [Hc Hp] _ IH]; cbn [flat_map length]; [lia |]. rewrite length_app.
      pose proof (first_unit_utf16 c [] Hc Hp) as Hf. rewrite app_nil_r in Hf. destruct (utf16 c); [done | cbn; lia]. }
    rewrite parse16_utf16 in Hd by (done || lia).
    cbn [utf7_to_utf8_loop Z.eqb Pos.eqb]. cbn [length] in Hf. rewrite length_app in Hf. cbn [length] in Hf.
    replace (at0 (mbase64_groups (flat_map utf16 run) ++ 45 :: o) 0 =? 45) with false
      by (rewrite Hgs; symmetry; by apply Z.eqb_neq).
    rewrite Hd. cbn [mbind option_bind Z.ltb Z.compare]. rewrite (enc7_start cs o Hstart He), IH by lia.
    by rewrite flat_map_app, app_assoc.
Qed.

(** ** The fast paths for a leading part that needs no conversion *)

Lemma first_encode_char_spec cs o : enc7 cs o ->
  match imap_utf8_first_encode_char (flat_map utf8 cs) with
  | None => o = flat_map utf8 cs
  | Some n => exists cs' o', enc7 cs' o' /\ drop n (flat_map utf8 cs) = flat_map utf8 cs' /\
      o = take n (flat_map utf8 cs) ++ o' /\ (length cs' <= length cs)%nat
  end.
Proof.
  induction 1 as [|cs o He IH|c cs o Hp Hne He IH|run cs o Hne Hrun Hstart He IH].
  - done.
  - cbn [flat_map]. rewrite utf8_ascii by lia. cbn. exists (38 :: cs), (38 :: 45 :: o).
    split_and!; [by constructor | cbn [flat_map]; by rewrite utf8_ascii by lia | done | done].
  - cbn [flat_map]. destruct (printable_utf8 c Hp) as [-> _]. cbn [app imap_utf8_first_encode_char].
    rewrite (proj2 (Z.eqb_neq c 38)), Hp by done. cbn [orb].
    destruct (imap_utf8_first_encode_char (flat_map utf8 cs)) as [n|]; cbn [mbind option_bind].
    + destruct IH as (cs' & o' & He' & Hd & -> & Hl). exists cs', o'. cbn [skipn firstn length app]. auto.
    + by rewrite IH.
  - destruct run as [|c run]; [done |]. apply Forall_inv in Hrun as Hc. destruct Hc as [Hc Hnp].
    destruct (not_printable_utf8 c Hc Hnp) as (b & t & Hu & Hb & _ & _).
    assert (Hf : imap_utf8_first_encode_char (flat_map utf8 ((c :: run) ++ cs)) = Some 0%nat).
    { rewrite flat_map_app. cbn [flat_map]. rewrite Hu. cbn. by rewrite Hb, orb_true_r. }
    rewrite Hf. eexists _, _. split_and!; [by apply enc7_run | done | done | done].
Qed.

Lemma utf7_scan_spec cs o : enc7 cs o ->
  exists n cs' o', utf7_scan o = Some n /\ enc7 cs' o' /\ drop n o = o' /\
    flat_map utf8 cs = take n o ++ flat_map utf8 cs' /\ (length o' <= length o)%nat /\
    (forallb (fun c => negb (not_printable c)) o = true).
Proof.
  induction 1 as [|cs o He IH|c cs o Hp Hne He IH|run cs o Hne Hrun Hstart He IH].
  - exists 0%nat, [], []. split_and!; try done. constructor.
  - exists 0%nat, (38 :: cs), (38 :: 45 :: o). split_and!; try done; [by constructor |].
    cbn. by destruct IH as (_ & _ & _ & _ & _ & _ & _ & _ & ?).
  - destruct IH as (n & cs' & o' & Hs & He' & Hd & Hf & Hl & Ha). exists (S n), cs', o'.
    cbn [utf7_scan skipn firstn flat_map forallb length]. rewrite Hp, (proj2 (Z.eqb_neq c 38)), Hs by done.
    cbn [mbind option_bind]. destruct (printable_utf8 c Hp) as [-> _]. split_and!; try done; [by rewrite Hf | lia].
  - exists 0%nat, (run ++ cs), (38 :: mbase64_groups (flat_map utf16 run) ++ 45 :: o).
    split_and!; try done; [by apply enc7_run |]. cbn. rewrite forallb_app. cbn.
    destruct IH as (_ & _ & _ & _ & _ & _ & _ & _ & ->). rewrite andb_true_r.
    apply forallb_forall. intros x Hx%list_elem_of_In. pose proof (groups_chars _ (run_bytes run Hrun)) as Hg.
    rewrite Forall_forall in Hg. by destruct (Hg x Hx) as (_ & _ & ->).
Qed.

Lemma imap_utf7_to_utf8_enc7 cs o dest : enc7 cs o -> imap_utf7_to_utf8 o dest = Some (0, dest ++ flat_map utf8 cs).
Proof.
  intros He. destruct (utf7_scan_spec cs o He) as (n & cs' & o' & Hs & He' & Hd & Hf & Hl & _).
  unfold imap_utf7_to_utf8. rewrite Hs, Hd. destruct o' as [|c o2] eqn:E; rewrite <- ?E in *.
  - rewrite Hf. assert (cs' = []) as ->; [| cbn [flat_map]; rewrite app_nil_r].
    { rewrite E in He'. by inversion He'. }
    do 3 f_equal. rewrite <- (take_drop n o) at 1. by rewrite Hd, E, app_nil_r.
  - rewrite (utf7_to_utf8_loop_spec cs') by (done || lia). by rewrite Hf, app_assoc.
Qed.

Lemma imap_utf8_to_utf7_enc7 cs o dest : enc7 cs o -> imap_utf8_to_utf7 (flat_map utf8 cs) dest = Some (0, dest ++ o).
Proof.
  intros He. pose proof (first_encode_char_spec cs o He) as H. unfold imap_utf8_to_utf7.
  destruct (imap_utf8_first_encode_char (flat_map utf8 cs)) as [n|]; [| by rewrite H].
  destruct H as (cs' & o' & He' & -> & -> & Hl).
  rewrite (utf8_to_utf7_loop_spec cs' o') by (done || pose proof (flat_map_utf8_length cs); lia).
  by rewrite app_assoc.
Qed.

Lemma imap_utf7_is_valid_skip l o :
  Forall (fun c => c <> 45 /\ c <> 38 /\ not_printable c = false) l ->
  imap_utf7_is_valid (l ++ 45 :: o) = imap_utf7_is_valid o.
Proof.
  induction 1 as [|c l (_ & Hc & Hp) _ IH]; [done |]. cbn [app imap_utf7_is_valid].
  by rewrite Hp, (proj2 (Z.eqb_neq c 38)), IH by done.
Qed.

Lemma imap_utf7_is_valid_enc7 cs o : enc7 cs o -> imap_utf7_is_valid o = Some true.
Proof.
  intros He. pose proof (fun cs o => imap_utf7_to_utf8_enc7 cs o []) as Hdec.
  induction He as [|cs o He IH|c cs o Hp Hne He IH|run cs o Hne Hrun Hstart He IH]; [done | | |].
  - cbn [imap_utf7_is_valid]. change (not_printable 38) with false. cbn [Z.eqb Pos.eqb].
    rewrite (Hdec (38 :: cs)) by (by constructor). cbn. exact IH.
  - cbn [imap_utf7_is_valid]. by rewrite Hp, (proj2 (Z.eqb_neq c 38)) by done.
  - cbn [imap_utf7_is_valid]. change (not_printable 38) with false. cbn [Z.eqb Pos.eqb].
    rewrite (Hdec (run ++ cs)) by (by apply enc7_run). cbn [mbind option_bind Z.ltb Z.compare].
    by rewrite imap_utf7_is_valid_skip by (apply groups_chars, run_bytes, Hrun).
Qed.

(** ** Properties *)

(** C18: a mailbox name of Unicode scalar values (none of them NUL) converts to
    IMAP-UTF-7 and back to itself; the IMAP-UTF-7 name is printable ASCII and
    [imap_utf7_is_valid] accepts it. *)
Theorem imap_utf7_roundtrip cs :
  Forall is_scalar cs ->
  exists o, imap_utf8_to_utf7 (flat_map utf8 cs) [] = Some (0, o) /\
    imap_utf7_to_utf8 o [] = Some (0, flat_map utf8 cs) /\
    imap_utf7_is_valid o = Some true /\ forallb (fun c => negb (not_printable c)) o = true.
Proof.
  intros Hcs. destruct (enc7_exists _ cs (le_n _) Hcs) as (o & Ho). exists o.
  split_and!; [exact (imap_utf8_to_utf7_enc7 cs o [] Ho) | exact (imap_utf7_to_utf8_enc7 cs o [] Ho) | by eapply imap_utf7_is_valid_enc7 |].
  by destruct (utf7_scan_spec cs o Ho) as (_ & _ & _ & _ & _ & _ & _ & _ & ?).
Qed.

Lemma imap_utf7_roundtrip_witness :
  exists o, imap_utf8_to_utf7 (flat_map utf8 [65; 38; 0xe4; 0x1f600; 66]) [] = Some (0, o) /\
    imap_utf7_to_utf8 o [] = Some (0, flat_map utf8 [65; 38; 0xe4; 0x1f600; 66]).
Proof.
  destruct (imap_utf7_roundtrip [65; 38; 0xe4; 0x1f600; 66]) as (o & H1 & H2 & _).
  - repeat constructor; try discriminate; intros [H1 H2]; vm_compute in H1, H2; congruence.
  - exists o. split; assumption.
Defined.

(** Decoding a base64 run through the ring of four bytes is decoding its
    bytes as big-endian UTF-16: the same code points are appended, whatever
    the alignment of surrogate pairs, and it fails exactly on an odd number of
    bytes, a broken surrogate pair, a NUL or a character that must not be
    encoded. *)
Theorem mbase64_decode_refines dest l rest :
  Forall is_byte l ->
  match parse16 (S (length l)) l with
  | Some cs => mbase64_decode_to_utf8 dest (mbase64_groups l ++ 45 :: rest) = Some (0, dest ++ flat_map utf8 cs, rest)
  | None => exists d s, mbase64_decode_to_utf8 dest (mbase64_groups l ++ 45 :: rest) = Some (-1, d, s)
  end.
Proof. apply mbase64_decode_spec. Qed.

Lemma mbase64_decode_refines_witness :
  mbase64_decode_to_utf8 [] (mbase64_groups [0; 0xe4; 0xd8; 0x3d; 0xde; 0] ++ 45 :: [65]) =
    Some (0, flat_map utf8 [0xe4; 0x1f600], [65]).
Proof. apply (mbase64_decode_refines [] [0; 0xe4; 0xd8; 0x3d; 0xde; 0] [65]). repeat constructor; discriminate. Defined.

(** [imap_utf7_to_utf8] checks for characters that are not allowed only
    up to the first ampersand: behind one, every control or 8-bit character is
    copied and 0 is returned, while [imap_utf7_is_valid] rejects the string and
    the character alone is refused. *)
Theorem imap_utf7_accepts_behind_ampersand c :
  not_printable c = true ->
  imap_utf7_to_utf8 [38; 45; c] [] = Some (0, [38; c]) /\ imap_utf7_is_valid [38; 45; c] = Some false /\
  imap_utf7_to_utf8 [c] [] = Some (-1, []).
Proof.
  intros Hc. assert (c <> 38) by (intros ->; done).
  split_and!; unfold imap_utf7_to_utf8; cbn [utf7_scan imap_utf7_is_valid].
  - change (not_printable 38) with false. cbn [Z.eqb Pos.eqb skipn firstn app length utf7_to_utf8_loop].
    change (at0 [45; c] 0 =? 45) with true. cbn. by rewrite (proj2 (Z.eqb_neq c 38)).
  - unfold imap_utf7_to_utf8. cbn [utf7_scan]. change (not_printable 38) with false. change (not_printable 45) with false.
    cbn [Z.eqb Pos.eqb skipn firstn app length utf7_to_utf8_loop]. change (at0 [45; c] 0 =? 45) with true.
    cbn. rewrite (proj2 (Z.eqb_neq c 38)) by done. cbn. by rewrite Hc.
  - by rewrite Hc.
Qed.

Lemma imap_utf7_accepts_behind_ampersand_witness : imap_utf7_to_utf8 [38; 45; 0xff] [] = Some (0, [38; 0xff]).
Proof. apply (imap_utf7_accepts_behind_ampersand 0xff). reflexivity. Defined.

(** A six-byte UTF-8 form that is 2^26 above a supplementary character is
    converted to the IMAP-UTF-7 name of that character: two different UTF-8
    names get the same mailbox name, and no error is returned. *)
Theorem imap_utf7_collision c :
  0x10000 <= c < 0x110000 ->
  imap_utf8_to_utf7 (utf8 (c + 2 ^ 26)) [] = imap_utf8_to_utf7 (utf8 c) [] /\ utf8 (c + 2 ^ 26) <> utf8 c.
Proof.
  intros Hc.
  assert (Hcu : is_ucs4 c) by (unfold is_ucs4; lia). assert (Hcu' : is_ucs4 (c + 2 ^ 26)) by (unfold is_ucs4; lia).
  split.
  2: { intros Heq. destruct (utf8_inj (c + 2 ^ 26) c [] [] Hcu' Hcu) as [? _]; [by rewrite Heq | lia]. }
  assert (Hone : forall c, is_ucs4 c -> 128 <= c -> imap_utf8_to_utf7 (utf8 c) [] = Some (0, mbase64_encode [] (utf16 c))).
  { clear. intros c Hc Hge. destruct (utf8_head c Hc) as (b & Hu & _ & Hcb & Hcase).
    assert (Hb : 128 <= b) by (destruct Hcase as [(_ & -> & _) | (? & _)]; lia).
    assert (Hnp : not_printable b = true) by (unfold not_printable; lia).
    assert (Hg : uni_utf8_get_char (utf8 c) = Some (1, Some c)).
    { unfold uni_utf8_get_char. apply get_char_n_utf8; [done |]. rewrite utf8_length. destruct (class_spec c Hc). lia. }
    unfold imap_utf8_to_utf7. rewrite Hu in *. cbn [imap_utf8_first_encode_char]. rewrite Hnp, orb_true_r.
    cbn [skipn firstn app length utf8_to_utf7_loop]. rewrite (proj2 (Z.eqb_neq b 38)), Hnp by lia. cbn [negb].
    cbn [utf16_run]. rewrite Hnp, Hg. cbn [mbind option_bind Z.leb Z.compare app].
    rewrite Hcb. replace (S (class c)) with (length (b :: cont (class c) c)) by (cbn; by rewrite length_cont).
    rewrite drop_all. cbn [length]. rewrite length_cont. destruct (class c); reflexivity. }
  rewrite !Hone by (done || lia). do 3 f_equal. unfold utf16, UTF16_SURROGATE_BASE.
  rewrite !(proj2 (Z.ltb_ge _ 0x10000)) by lia. destruct (surrogates c Hc) as [Hh Hl].
  unfold UTF16_SURROGATE_HIGH, UTF16_SURROGATE_LOW, UTF16_SURROGATE_BASE, u16_bytes in *.
  rewrite u32_small in Hh, Hl by (unfold is_u32; lia). rewrite !u32_small by (unfold is_u32; lia).
  change 0x03ff with (2 ^ 10 - 1) in *. rewrite !land_low, !Z.shiftr_div_pow2 by lia.
  change (2 ^ 10) with 1024. change (2 ^ 26) with 67108864.
  replace ((c + 67108864 - 0x10000) / 1024) with ((c - 0x10000) / 1024 + 65536) by (Z.div_mod_to_equations; lia).
  replace ((c + 67108864 - 0x10000) mod 1024) with ((c - 0x10000) mod 1024) by (Z.div_mod_to_equations; lia).
  rewrite Z.add_assoc. replace ((0xd800 + (c - 0x10000) / 1024 + 65536) mod 65536)
    with ((0xd800 + (c - 0x10000) / 1024) mod 65536) by (Z.div_mod_to_equations; lia). done.
Qed.

Lemma imap_utf7_collision_witness :
  imap_utf8_to_utf7 (utf8 (0x1f600 + 2 ^ 26)) [] = imap_utf8_to_utf7 (utf8 0x1f600) [].
Proof. apply (imap_utf7_collision 0x1f600). split; [discriminate | reflexivity]. Defined.
