(* ===== verification/ImapMatch.v ===== *)
(** * IMAP list patterns (src/src/lib-imap/imap-match.c)

    Matching of mailbox names against LIST patterns with the wildcards [*] and
    [%].  A pattern is the list of its characters; a pointer into the name is
    the list of the characters that are left, each with whether it lies before
    [ctx->inboxcase_end], where comparison ignores case.  Character codes: 42
    is [*], 37 is [%]. *)

From S2P Require Import Prelude.

(** ** Results and globs *)

Definition IMAP_MATCH_NO : Z := 0x00.
Definition IMAP_MATCH_YES : Z := 0x01.
Definition IMAP_MATCH_CHILDREN : Z := 0x02.
Definition IMAP_MATCH_PARENT : Z := 0x04.

Record imap_match_pattern_t := MatchPattern { pattern : list Z; inboxcase : bool }.
Record imap_match_glob := Glob { patterns : list imap_match_pattern_t; sep : Z }.

Definition inbox : list Z := str "INBOX".

(** ** Compiling patterns *)

Fixpoint skip_wild (both : bool) (p : list Z) : list Z :=
  match p with
  | c :: p' => if (c =? 37) || both && (c =? 42) then skip_wild both p' else p
  | [] => []
  end.

Fixpoint pattern_compress_loop (fuel : nat) (p : list Z) : option (list Z) :=
  match fuel with
  | O => None
  | S fuel =>
      match p with
      | [] => Some []
      | c :: p' =>
          if (c =? 42) || (c =? 37) then
            let q := skip_wild false p in
            if at0 q 0 =? 42 then
              rest ← pattern_compress_loop fuel (skip_wild true q); Some (42 :: rest)
            else
              rest ← pattern_compress_loop fuel q; Some (37 :: rest)
          else rest ← pattern_compress_loop fuel p'; Some (c :: rest)
      end
  end.

Definition pattern_compress (p : list Z) : option (list Z) := pattern_compress_loop (S (length p)) p.

(** The exact matches that are skipped: what remains of [inboxp] and of [p]. *)
Fixpoint inboxcase_skip (inboxp p : list Z) : list Z * list Z :=
  match inboxp, p with
  | i :: inboxp', c :: p' => if i =? toupper c then inboxcase_skip inboxp' p' else (inboxp, p)
  | _, _ => (inboxp, p)
  end.

(** [strchr] on a C string: the string from the first [c] on; the character
    searched for is never NUL here. *)
Fixpoint strchr (s : list Z) (c : Z) : option (list Z) :=
  match s with
  | [] => None
  | x :: s' => if x =? c then Some s else strchr s' c
  end.

(** The loop for patterns like [I%B%X]. *)
Fixpoint inboxcase_loop (inboxp p : list Z) (separator : Z) : bool :=
  match p with
  | [] => true
  | c :: p' =>
      if (c =? 42) || (c =? separator) then true
      else if negb (c =? 37) then
        match strchr inboxp (toupper c) with
        | None => false
        | Some inboxp =>
            match drop 1 inboxp with
            | [] =>
                let q := if at0 p' 0 =? 37 then drop 1 p' else p' in
                (at0 q 0 =? 0) || (at0 q 0 =? 42) || (at0 q 0 =? separator)
            | inboxp => inboxcase_loop inboxp p' separator
            end
        end
      else inboxcase_loop inboxp p' separator
  end.

Definition pattern_is_inboxcase (p : list Z) (separator : Z) : bool :=
  let '(inboxp, p) := inboxcase_skip inbox p in
  if negb (at0 p 0 =? 37) then
    (at0 p 0 =? 42) || (at0 p 0 =? separator) || (at0 inboxp 0 =? 0) && (at0 p 0 =? 0)
  else inboxcase_loop inboxp p separator.

Fixpoint compress_patterns (ps : list (list Z)) (inboxcase : bool) (separator : Z) : option (list imap_match_pattern_t) :=
  match ps with
  | [] => Some []
  | p :: ps =>
      p ← pattern_compress p;
      rest ← compress_patterns ps inboxcase separator;
      Some (MatchPattern p (inboxcase && pattern_is_inboxcase p separator) :: rest)
  end.

Definition imap_match_init_multiple_real (ps : list (list Z)) (inboxcase : bool) (separator : Z) : option imap_match_glob :=
  match_patterns ← compress_patterns ps inboxcase separator;
  Some (Glob match_patterns separator).

Definition imap_match_init_multiple (ps : list (list Z)) (inboxcase : bool) (separator : Z) : option imap_match_glob :=
  imap_match_init_multiple_real ps inboxcase separator.

Definition imap_match_init (p : list Z) (inboxcase : bool) (separator : Z) : option imap_match_glob :=
  imap_match_init_multiple [p] inboxcase separator.

Definition imap_match_dup_real (glob : imap_match_glob) : option imap_match_glob :=
  imap_match_init_multiple_real (map pattern (patterns glob)) (existsb inboxcase (patterns glob)) (sep glob).

Definition imap_match_dup (glob : imap_match_glob) : option imap_match_glob := imap_match_dup_real glob.

Fixpoint patterns_equal (p1 p2 : list imap_match_pattern_t) : bool :=
  match p1, p2 with
  | x :: p1, y :: p2 =>
      if negb (bool_decide (pattern x = pattern y)) then false
      else if negb (Bool.eqb (inboxcase x) (inboxcase y)) then false
      else patterns_equal p1 p2
  | [], [] => true
  | _, _ => false
  end.

Definition imap_match_globs_equal (glob1 glob2 : imap_match_glob) : bool :=
  if negb (sep glob1 =? sep glob2) then false else patterns_equal (patterns glob1) (patterns glob2).

(** ** Matching *)

Notation data_t := (list (Z * bool)).

Section Match.
(** [ctx->sep]. *)
Variable csep : Z.

(** [CMP_CUR_CHR] at a character of the name; at its end nothing matches. *)
Definition CMP_CUR_CHR (d : Z * bool) (c : Z) : bool :=
  (d.1 =? c) || (toupper d.1 =? toupper c) && d.2.

(** The first loop of [match_sub]; [prev] holds [data[-1]] and [pattern[i-1]]
    once a character has matched.  [inl] is an early result. *)
Fixpoint match_literals (data : data_t) (p : list Z) (prev : option (Z * Z)) {struct p} : Z + data_t * list Z * option (Z * Z) :=
  match p with
  | [] => inr (data, p, prev)
  | c :: p' =>
      if (c =? 42) || (c =? 37) then inr (data, p, prev)
      else
        match data with
        | d :: data' =>
            if CMP_CUR_CHR d c then match_literals data' p' (Some (d.1, c)) else inl IMAP_MATCH_NO
        | [] =>
            if c =? csep then inl IMAP_MATCH_CHILDREN
            else
              match prev with
              | Some (_, pc) => if pc =? csep then inl IMAP_MATCH_CHILDREN else inl IMAP_MATCH_NO
              | None => inl IMAP_MATCH_NO
              end
        end
  end.

(** To the end of this hierarchy level. *)
Fixpoint skip_hierarchy (data : data_t) : data_t :=
  match data with
  | [] => []
  | d :: data' => if d.1 =? csep then data else skip_hierarchy data'
  end.

Section Scan.
(** The recursive call. *)
Variable sub : data_t -> list Z -> option (Z * data_t * list Z).

(** The inner loop after a wildcard, for [%] ([hier]) and for [*]: [match] and
    the positions where it stops. *)
Fixpoint match_scan (hier : bool) (data : data_t) (p : list Z) (m : Z) : option (Z * data_t * list Z) :=
  match data with
  | [] => Some (m, data, p)
  | d :: data' =>
      r ← (if CMP_CUR_CHR d (at0 p 0) then
             '(ret, data2, p2) ← sub data p;
             Some (if ret =? IMAP_MATCH_YES then inl (data2, p2) else inr (Z.lor m ret))
           else Some (inr m));
      match r with
      | inl (data2, p2) => Some (m, data2, p2)
      | inr m => if hier && (d.1 =? csep) then Some (m, data, p) else match_scan hier data' p m
      end
  end.

(** [while ( *pattern == '%')]. *)
Fixpoint match_percent (n : nat) (data : data_t) (p : list Z) (m : Z) : option (Z * data_t * list Z) :=
  match n with
  | O => None
  | S n =>
      match p with
      | c :: p' =>
          if c =? 37 then
            match p' with
            | [] => Some (m, skip_hierarchy data, p')
            | _ => '(m, data, p) ← match_scan true data p' m; match_percent n data p m
            end
          else Some (m, data, p)
      | [] => Some (m, data, p)
      end
  end.
End Scan.

(** The result and, when it is YES, the new positions. *)
Fixpoint match_sub (fuel : nat) (data : data_t) (p : list Z) : option (Z * data_t * list Z) :=
  match fuel with
  | O => None
  | S fuel =>
      match match_literals data p None with
      | inl ret => Some (ret, data, p)
      | inr (data1, p1, prev) =>
          let m := match data1, prev, p1 with
                   | [], Some (dc, _), _ :: _ => if dc =? csep then IMAP_MATCH_CHILDREN else IMAP_MATCH_NO
                   | _, _, _ => IMAP_MATCH_NO
                   end in
          '(m, data2, p2) ← match_percent (match_sub fuel) (S (length p1)) data1 p1 m;
          if negb (at0 p2 0 =? 42) then
            match data2, p2 with
            | [], c :: _ => Some (if c =? csep then Z.lor m IMAP_MATCH_CHILDREN else m, data, p)
            | d :: _, [] => Some (if d.1 =? csep then Z.lor m IMAP_MATCH_PARENT else m, data, p)
            | _ :: _, _ => Some (m, data, p)
            | [], [] => Some (IMAP_MATCH_YES, data2, p2)
            end
          else Some (IMAP_MATCH_YES, data2, p2)
      end
  end.

(** [while ( *pattern == '*')] of [imap_match_pattern]; [inl] is the early
    return. *)
Fixpoint match_star (n : nat) (fuel : nat) (data : data_t) (p : list Z) (m : Z) : option (Z + Z * data_t * list Z) :=
  match n with
  | O => None
  | S n =>
      match p with
      | c :: p' =>
          if c =? 42 then
            match p' with
            | [] => Some (inl IMAP_MATCH_YES)
            | _ => '(m, data, p) ← match_scan (match_sub fuel) false data p' m; match_star n fuel data p m
            end
          else Some (inr (m, data, p))
      | [] => Some (inr (m, data, p))
      end
  end.
End Match.

(** [data[INBOXLEN]] is the end or a separator behind INBOX in any case. *)
Definition begins_with_inbox (data : list Z) (separator : Z) : bool :=
  bool_decide (map toupper (take 5 data) = inbox) && ((at0 data 5 =? 0) || (at0 data 5 =? separator)).

(** The name with its case-insensitive part marked. *)
Definition mark_inboxcase (data : list Z) (icase : bool) (separator : Z) : data_t :=
  let n := if icase && begins_with_inbox data separator then 5%nat else 0%nat in
  map (fun c => (c, true)) (take n data) ++ map (fun c => (c, false)) (drop n data).

Definition imap_match_pattern (csep : Z) (icase : bool) (data p : list Z) : option Z :=
  let data := mark_inboxcase data icase csep in
  let fuel := S (length p) in
  r ← (if negb (at0 p 0 =? 42) then
         '(ret, data, p) ← match_sub csep fuel data p;
         Some (if negb (ret =? IMAP_MATCH_YES) || (at0 p 0 =? 0) then inl ret else inr (data, p))
       else Some (inr (data, p)));
  match r with
  | inl ret => Some ret
  | inr (data, p) =>
      r ← match_star csep fuel fuel data p IMAP_MATCH_CHILDREN;
      match r with
      | inl ret => Some ret
      | inr (m, data, p) => Some (match data, p with [], [] => IMAP_MATCH_YES | _, _ => m end)
      end
  end.

Fixpoint imap_match_loop (csep : Z) (ps : list imap_match_pattern_t) (data : list Z) (m : Z) : option Z :=
  match ps with
  | [] => Some m
  | p :: ps =>
      ret ← imap_match_pattern csep (inboxcase p) data (pattern p);
      if ret =? IMAP_MATCH_YES then Some IMAP_MATCH_YES else imap_match_loop csep ps data (Z.lor m ret)
  end.

Definition imap_match (glob : imap_match_glob) (data : list Z) : option Z :=
  imap_match_loop (sep glob) (patterns glob) data IMAP_MATCH_NO.
