(* ===== verification/ImapMatchProps.v ===== *)
(** * Correctness of IMAP pattern matching

    [gmatch] is the meaning of a pattern: [*] stands for any characters, [%]
    for any characters but the separator, every other character for itself.
    Compression does not change the meaning of a pattern, and the matcher,
    which never goes back over a [*], returns YES exactly for the names that
    match. *)

From S2P Require Import Prelude ImapMatch.

Definition wild (c : Z) : bool := (c =? 42) || (c =? 37).

Section Meaning.
Variable csep : Z.

(** No separator among these characters. *)
Definition no_sep (s : data_t) : bool := forallb (fun d => negb (d.1 =? csep)) s.

Inductive gmatch : list Z -> data_t -> Prop :=
| gmatch_nil : gmatch [] []
| gmatch_lit c p d data : wild c = false -> CMP_CUR_CHR d c = true -> gmatch p data -> gmatch (c :: p) (d :: data)
| gmatch_star p s data : gmatch p data -> gmatch (42 :: p) (s ++ data)
| gmatch_percent p s data : no_sep s = true -> gmatch p data -> gmatch (37 :: p) (s ++ data).

(** A pattern without [*] that matches a prefix of the name, and what is left
    of the name. *)
Inductive smatch : list Z -> data_t -> data_t -> Prop :=
| smatch_nil data : smatch [] data data
| smatch_lit c p d data rest :
    wild c = false -> CMP_CUR_CHR d c = true -> smatch p data rest -> smatch (c :: p) (d :: data) rest
| smatch_percent p s data rest : no_sep s = true -> smatch p data rest -> smatch (37 :: p) (s ++ data) rest.

Lemma smatch_suffix p data rest : smatch p data rest -> exists s, data = s ++ rest.
Proof.
  induction 1 as [data|c p d data rest _ _ _ [s ->]|p s data rest _ _ [s' ->]].
  - by exists [].
  - by exists (d :: s).
  - exists (s ++ s'). by rewrite app_assoc.
Qed.

(** A match of the first part of a pattern is a match of that part. *)
Lemma gmatch_app p q data :
  forallb (fun c => negb (c =? 42)) p = true ->
  (gmatch (p ++ q) data <-> exists rest, smatch p data rest /\ gmatch q rest).
Proof.
  revert data. induction p as [|c p IH]; intros data; cbn [app forallb].
  - intros _. split; [intros H; exists data; split; [constructor | done] |]. intros (rest & Hs & H). by inversion Hs; subst.
  - intros [Hc Hp]%andb_true_iff. split.
    + inversion 1 as [|c' p' d data' Hw Hcmp Hg|p' s data' Hg|p' s data' Hn Hg]; subst; [| done |].
      * apply (IH data' Hp) in Hg as (rest & Hs & Hg). exists rest. split; [by constructor | done].
      * apply (IH data' Hp) in Hg as (rest & Hs & Hg). exists rest. split; [by constructor | done].
    + intros (rest & Hs & Hg). inversion Hs as [|c' p' d data' rest' Hw Hcmp Hs'|p' s data' rest' Hn Hs']; subst.
      * constructor; [done | done |]. apply (IH data' Hp). eauto.
      * constructor; [done |]. apply (IH data' Hp). eauto.
Qed.

Lemma smatch_percent_inv p data rest : smatch (37 :: p) data rest ->
  exists s data', data = s ++ data' /\ no_sep s = true /\ smatch p data' rest.
Proof. inversion 1; subst; [done | eauto]. Qed.

Lemma smatch_lit_inv c p data rest : wild c = false -> smatch (c :: p) data rest ->
  exists d data', data = d :: data' /\ CMP_CUR_CHR d c = true /\ smatch p data' rest.
Proof. intros Hw. inversion 1; subst; [eauto | done]. Qed.

(** From an earlier start a match leaves at least as much. *)
Lemma smatch_mono p s data r1 r2 :
  smatch p (s ++ data) r1 -> smatch p data r2 ->
  exists r, smatch p (s ++ data) r /\ (length r2 <= length r)%nat.
Proof.
  revert s data r1 r2. induction p as [|c p IH]; intros s data r1 r2 H1 H2.
  { inversion H2; subst. exists (s ++ r2). split; [constructor | rewrite length_app; lia]. }
  destruct (decide (c = 37)) as [-> | Hc].
  - apply smatch_percent_inv in H1 as (t1 & e1 & Heq & Hn1 & Hs1).
    apply smatch_percent_inv in H2 as (t2 & e2 & -> & Hn2 & Hs2).
    destruct (no_sep s) eqn:Es.
    + exists r2. split; [| done]. rewrite app_assoc. apply smatch_percent; [| done].
      unfold no_sep in *. by rewrite forallb_app, Es.
    + assert (exists s1, s = t1 ++ s1) as (s1 & ->).
      { destruct (app_eq_inv _ _ _ _ Heq) as [(k & Ht & _) | (k & Ht & _)]; [by exists k |].
        rewrite Ht in Hn1. unfold no_sep in *. rewrite forallb_app, Es in Hn1. done. }
      rewrite <- app_assoc in Heq. apply app_inv_head in Heq. subst e1.
      destruct (IH (s1 ++ t2) e2 r1 r2) as (r & Hr & Hl); [by rewrite <- app_assoc | done |].
      exists r. split; [| done]. rewrite <- !app_assoc in *. by apply smatch_percent.
  - destruct s as [|d s]; [by exists r2 |].
    assert (Hw : wild c = false) by (inversion H1; by subst).
    apply smatch_lit_inv in H1 as (d1 & data1 & [= <- <-] & Hcmp & Hs1); [| done].
    apply smatch_lit_inv in H2 as (d2 & data2 & -> & _ & Hs2); [| done].
    destruct (IH (s ++ [d2]) data2 r1 r2) as (r & Hr & Hl); [by rewrite <- app_assoc | done |].
    exists r. rewrite <- app_assoc in Hr. split; [by apply smatch_lit | done].
Qed.
End Meaning.

(** ** The matcher between two stars *)

Fixpoint compressed (p : list Z) : bool :=
  match p with
  | c :: ((c' :: _) as p') => negb (wild c && wild c') && compressed p'
  | _ => true
  end.

Lemma compressed_tail c p : compressed (c :: p) = true -> compressed p = true.
Proof. destruct p; [done |]. cbn. by intros [_ ?]%andb_true_iff. Qed.

Lemma compressed_app p q : compressed (p ++ q) = true -> compressed q = true.
Proof. induction p as [|c p IH]; [done |]. intros H. by apply IH, (compressed_tail c). Qed.

Definition no_star (p : list Z) : bool := forallb (fun c => negb (c =? 42)) p.
Definition literal (p : list Z) : bool := forallb (fun c => negb (wild c)) p.

(** What follows a part without [*]: the end or a [*]. *)
Definition star_tail (tail : list Z) : Prop := tail = [] \/ exists p, tail = 42 :: p.

Lemma literals_split seg : no_star seg = true ->
  exists lits seg2, seg = lits ++ seg2 /\ literal lits = true /\ (seg2 = [] \/ exists seg', seg2 = 37 :: seg' /\ no_star seg' = true).
Proof.
  induction seg as [|c seg IH]; cbn [no_star forallb]; [by exists [], []; auto |].
  intros [Hc Hs]%andb_true_iff. destruct (decide (c = 37)) as [-> | Hne].
  - exists [], (37 :: seg). split_and!; [done | done |]. right. by exists seg.
  - destruct (IH Hs) as (lits & seg2 & -> & Hl & Hcase). exists (c :: lits), seg2. split_and!; [done | | done].
    cbn. unfold wild at 1. rewrite (proj2 (Z.eqb_neq c 37)) by done. destruct (c =? 42); done.
Qed.

Definition even (m : Z) : Prop := Z.even m = true.

Lemma even_lor a b : even a -> even b -> even (Z.lor a b).
Proof. unfold even. rewrite <- !Z.negb_odd, <- !Z.bit0_odd, Z.lor_spec. by destruct (Z.testbit a 0), (Z.testbit b 0). Qed.

Lemma even_not_yes m : even m -> (m =? IMAP_MATCH_YES) = false.
Proof. intros H. apply Z.eqb_neq. by intros ->. Qed.

Section Sub.
Variable csep : Z.

(** Only the end of the name is accepted at the end of the pattern. *)
Definition accepts (tail : list Z) (r : data_t) : Prop := tail = [] -> r = [].

(** YES: the part matches and leaves as much as possible.  Otherwise: it does
    not match in any way. *)
Definition sub_spec (seg tail : list Z) (data : data_t) (res : Z * data_t * list Z) : Prop :=
  let '(ret, data2, p2) := res in
  (ret = IMAP_MATCH_YES /\ p2 = tail /\ smatch csep seg data data2 /\ accepts tail data2 /\
     forall r, smatch csep seg data r -> accepts tail r -> (length r <= length data2)%nat) \/
  (even ret /\ forall r, smatch csep seg data r -> accepts tail r -> False).

Lemma match_literals_spec lits q data prev :
  literal lits = true -> (q = [] \/ exists c q', q = c :: q' /\ wild c = true) ->
  match match_literals csep data (lits ++ q) prev with
  | inl ret => even ret /\ forall seg r, ~ smatch csep (lits ++ seg) data r
  | inr (data1, p1, _) => p1 = q /\ forall seg r, smatch csep (lits ++ seg) data r <-> smatch csep seg data1 r
  end.
Proof.
  intros Hl Hq. revert data prev. induction lits as [|c lits IH]; intros data prev; cbn [app match_literals].
  - destruct q as [|c q]; cbn [match_literals]; [done |]. destruct Hq as [? | (c' & q' & [= <- <-] & Hw)]; [done |].
    unfold wild in Hw. by rewrite Hw.
  - cbn [literal forallb] in Hl. apply andb_true_iff in Hl as [Hc Hl]. apply negb_true_iff in Hc.
    pose proof Hc as Hw. unfold wild in Hc. rewrite Hc. destruct data as [|d data].
    { assert (Hno : forall seg r, ~ smatch csep (c :: lits ++ seg) [] r).
      { intros seg r H. by apply smatch_lit_inv in H as (? & ? & ? & _). }
      destruct (c =? csep), prev as [[? pc]|]; try destruct (pc =? csep); (split; [by red | exact Hno]). }
    destruct (CMP_CUR_CHR d c) eqn:Ecmp.
    + specialize (IH Hl data (Some (d.1, c))). destruct (match_literals _ _ _ _) as [ret | [[data1 p1] prev1]].
      * destruct IH as [He IH]. split; [done |]. intros seg r H.
        apply smatch_lit_inv in H as (? & ? & [= <- <-] & _ & H); [by eapply IH | done].
      * destruct IH as [-> IH]. split; [done |]. intros seg r. rewrite <- IH. split.
        -- intros H. by apply smatch_lit_inv in H as (? & ? & [= <- <-] & _ & H).
        -- intros H. by apply smatch_lit.
    + split; [by red |]. intros seg r H. apply smatch_lit_inv in H as (? & ? & [= <- <-] & H & _); [congruence | done].
Qed.

(** All ways to match after a wildcard. *)
Definition scan_match (hier : bool) (seg : list Z) (data r : data_t) : Prop :=
  exists s e, data = s ++ e /\ (hier = true -> no_sep csep s = true) /\ smatch csep seg e r.

Lemma scan_match_cons hier seg d data r :
  scan_match hier seg (d :: data) r <->
  smatch csep seg (d :: data) r \/ ((hier && (d.1 =? csep)) = false /\ scan_match hier seg data r).
Proof.
  unfold scan_match. split.
  - intros (s & e & Heq & Hn & Hs). destruct s as [|d' s]; [left; by rewrite Heq |]. injection Heq as <- ->. right.
    split; [| exists s, e; split_and!; [done | | done]].
    + destruct hier; [| done]. specialize (Hn eq_refl). cbn in Hn. apply andb_true_iff in Hn as [Hn _]. by apply negb_true_iff in Hn.
    + intros Hh. specialize (Hn Hh). cbn in Hn. by apply andb_true_iff in Hn as [_ ?].
  - intros [Hs | (Hd & s & e & -> & Hn & Hs)]; [by exists [], (d :: data) |]. exists (d :: s), e.
    split_and!; [done | | done]. intros ->. cbn in Hd |- *. rewrite Hd. cbn. by apply Hn.
Qed.

(** From the first place where a part matches, no later one leaves more. *)
Lemma scan_match_first hier seg tail data r0 r :
  smatch csep seg data r0 -> accepts tail r0 ->
  (forall r, smatch csep seg data r -> accepts tail r -> (length r <= length r0)%nat) ->
  scan_match hier seg data r -> accepts tail r -> (length r <= length r0)%nat.
Proof.
  intros H0 Ha0 Hmax (s & e & -> & _ & Hs) Ha. destruct tail as [|c tail].
  - rewrite Ha by done. cbn. lia.
  - destruct (smatch_mono csep seg s e r0 r H0 Hs) as (r' & Hr' & Hl). etransitivity; [exact Hl |].
    apply Hmax; [done | by intros].
Qed.

Lemma match_scan_spec sub hier c seg tail data m :
  (forall e, exists res, sub e (c :: seg ++ tail) = Some res /\ sub_spec (c :: seg) tail e res) -> wild c = false -> even m ->
  exists m' data2 p2, match_scan csep sub hier data (c :: seg ++ tail) m = Some (m', data2, p2) /\ even m' /\
    ((p2 = tail /\ scan_match hier (c :: seg) data data2 /\ accepts tail data2 /\
      forall r, scan_match hier (c :: seg) data r -> accepts tail r -> (length r <= length data2)%nat) \/
     (p2 = c :: seg ++ tail /\ forall r, scan_match hier (c :: seg) data r -> accepts tail r -> False)).
Proof.
  intros Hsub Hw. revert m. induction data as [|d data IH]; intros m Hm; cbn [match_scan].
  - eexists _, _, _. split; [done |]. split; [done |]. right. split; [done |].
    intros r (s & e & Heq & _ & Hs) _. destruct s; [| done]. cbn in Heq. subst e.
    by apply smatch_lit_inv in Hs as (? & ? & ? & _).
  - change (at0 (c :: seg ++ tail) 0) with c.
    (* nothing matches here: the rest of the name decides *)
    assert (Hfail : forall m, even m -> (forall r, smatch csep (c :: seg) (d :: data) r -> accepts tail r -> False) ->
      exists m' data2 p2, (if hier && (d.1 =? csep) then Some (m, d :: data, c :: seg ++ tail)
          else match_scan csep sub hier data (c :: seg ++ tail) m) = Some (m', data2, p2) /\ even m' /\
        ((p2 = tail /\ scan_match hier (c :: seg) (d :: data) data2 /\ accepts tail data2 /\
          forall r, scan_match hier (c :: seg) (d :: data) r -> accepts tail r -> (length r <= length data2)%nat) \/
         (p2 = c :: seg ++ tail /\ forall r, scan_match hier (c :: seg) (d :: data) r -> accepts tail r -> False))).
    { clear m Hm. intros m Hm Hno. setoid_rewrite scan_match_cons. destruct (hier && (d.1 =? csep)) eqn:Eh.
      - eexists _, _, _. split; [done |]. split; [done |]. right. split; [done |]. intros r [H | [H _]] Ha; [by eapply Hno | done].
      - destruct (IH m Hm) as (m' & data2 & p2 & -> & Hm' & Hcase). eexists _, _, _. split; [done |]. split; [done |].
        destruct Hcase as [(-> & Hs & Ha & Hmax) | (-> & Hnone)].
        + left. split_and!; [done | by right | done |]. intros r [H | [_ H]] Hr; [exfalso; by eapply Hno | by apply Hmax].
        + right. split; [done |]. intros r [H | [_ H]] Hr; [by eapply Hno | by eapply Hnone]. }
    destruct (CMP_CUR_CHR d c) eqn:Ecmp; cbn [mbind option_bind].
    + destruct (Hsub (d :: data)) as ([[ret data2] p2] & -> & Hspec). cbn [mbind option_bind].
      destruct Hspec as [(-> & -> & Hs & Ha & Hmax) | (He & Hno)].
      * cbn. eexists _, _, _. split; [done |]. split; [done |]. left. split_and!; [done | | done |].
        -- apply scan_match_cons. by left.
        -- intros r Hr Har. by eapply scan_match_first.
      * rewrite even_not_yes by done. apply Hfail; [by apply even_lor | done].
    + apply Hfail; [done |]. intros r H _. apply smatch_lit_inv in H as (? & ? & [= <- <-] & H & _); [congruence | done].
Qed.
(** ** One part of a pattern *)

Lemma skip_hierarchy_spec data : skip_hierarchy csep data = [] <-> no_sep csep data = true.
Proof.
  induction data as [|d data IH]; [done |]. cbn [skip_hierarchy no_sep forallb].
  destruct (d.1 =? csep); [done |]. exact IH.
Qed.

Lemma match_percent_stop sub n data p m :
  (0 < n)%nat -> at0 p 0 <> 37 -> match_percent csep sub n data p m = Some (m, data, p).
Proof.
  intros Hn Hp. destruct n as [|n]; [lia |]. destruct p as [|c p]; [done |]. cbn [match_percent].
  by rewrite (proj2 (Z.eqb_neq c 37)).
Qed.

(** The final tests of [match_sub]: not at the end of the part. *)
Definition sub_result (data0 : data_t) (p0 : list Z) (m : Z) (data2 : data_t) (p2 : list Z) : Z * data_t * list Z :=
  if negb (at0 p2 0 =? 42) then
    match data2, p2 with
    | [], c :: _ => (if c =? csep then Z.lor m IMAP_MATCH_CHILDREN else m, data0, p0)
    | d :: _, [] => (if d.1 =? csep then Z.lor m IMAP_MATCH_PARENT else m, data0, p0)
    | _ :: _, _ => (m, data0, p0)
    | [], [] => (IMAP_MATCH_YES, data2, p2)
    end
  else (IMAP_MATCH_YES, data2, p2).

Lemma sub_result_no data0 p0 m data2 p2 :
  even m -> at0 p2 0 <> 42 -> (data2 = [] -> p2 <> []) ->
  exists ret, sub_result data0 p0 m data2 p2 = (ret, data0, p0) /\ even ret.
Proof.
  intros Hm Hp Hne. unfold sub_result. rewrite (proj2 (Z.eqb_neq _ 42)) by done. cbn [negb].
  destruct data2 as [|d data2], p2 as [|c p2]; [by destruct Hne | | |]; eexists; (split; [done |]);
    try case_match; try done; by apply even_lor.
Qed.

Lemma sub_result_yes data0 p0 m data2 tail :
  star_tail tail -> accepts tail data2 -> sub_result data0 p0 m data2 tail = (IMAP_MATCH_YES, data2, tail).
Proof. intros [-> | (p & ->)] Ha; [| done]. by rewrite Ha. Qed.

Lemma scan_match_percent seg data r : scan_match true seg data r <-> smatch csep (37 :: seg) data r.
Proof.
  split.
  - intros (s & e & -> & Hn & Hs). apply smatch_percent; [by apply Hn | done].
  - intros H. apply smatch_percent_inv in H as (s & e & -> & Hn & Hs). by exists s, e.
Qed.

Lemma star_tail_not_percent tail : star_tail tail -> at0 tail 0 <> 37.
Proof. by intros [-> | (p & ->)]. Qed.

Lemma literal_at0 c p : wild c = false -> at0 (c :: p) 0 <> 37 /\ at0 (c :: p) 0 <> 42.
Proof. unfold wild. intros [H1 H2]%orb_false_iff. split; change (c <> 37) || change (c <> 42); lia. Qed.

(** The part behind the leading literals. *)
Lemma match_percent_spec sub n data0 p0 data seg2 tail m :
  (seg2 = [] \/ exists seg', seg2 = 37 :: seg' /\ no_star seg' = true) ->
  compressed (seg2 ++ tail) = true -> star_tail tail -> (length (seg2 ++ tail) < n)%nat -> even m ->
  (forall c seg' e, seg2 = 37 :: c :: seg' -> exists res, sub e (c :: seg' ++ tail) = Some res /\ sub_spec (c :: seg') tail e res) ->
  exists m' data2 p2, match_percent csep sub n data (seg2 ++ tail) m = Some (m', data2, p2) /\
    sub_spec seg2 tail data (sub_result data0 p0 m' data2 p2).
Proof.
  intros Hseg Hc Ht Hn Hm Hsub. destruct Hseg as [-> | (seg' & -> & Hns)].
  { cbn [app]. rewrite match_percent_stop by (lia || by apply star_tail_not_percent).
    eexists _, _, _. split; [done |]. destruct Ht as [-> | (p & ->)].
    - destruct data as [|d data]; [left; split_and!; try done; [constructor |]; intros r H _; by inversion H |].
      destruct (sub_result_no data0 p0 m (d :: data) []) as (ret & -> & He); [done | done | done |].
      right. split; [done |]. intros r H Ha. inversion H; subst. by specialize (Ha eq_refl).
    - rewrite sub_result_yes; [| right; eauto | done]. left. split_and!; try done; [constructor |].
      intros r H _. by inversion H. }
  destruct n as [|n]; [lia |]. cbn [app match_percent Z.eqb Pos.eqb].
  destruct seg' as [|c seg'].
  - cbn [app] in Hc |- *. assert (tail = []) as -> by (destruct Ht as [-> | (p & ->)]; done).
    eexists _, _, _. split; [done |]. pose proof (skip_hierarchy_spec data) as Hsk.
    destruct (skip_hierarchy csep data) as [|d rest] eqn:E.
    + rewrite sub_result_yes; [| by left | done]. left. split_and!; try done.
      * rewrite <- (app_nil_r data). apply smatch_percent; [by apply Hsk | constructor].
      * intros r _ Ha. by rewrite Ha.
    + destruct (sub_result_no data0 p0 m (d :: rest) []) as (ret & -> & He); [done | done | done |].
      right. split; [done |]. intros r H Ha. apply smatch_percent_inv in H as (s & e & -> & Hs & H).
      inversion H; subst. rewrite (Ha eq_refl), app_nil_r in Hsk. by apply Hsk in Hs.
  - assert (Hw : wild c = false).
    { cbn in Hc. by apply andb_true_iff in Hc as [Hc%negb_true_iff _]. }
    destruct (match_scan_spec sub true c seg' tail data m) as (m' & data2 & p2 & Heq & Hm' & Hcase); [by intros; apply Hsub | done | done |].
    cbn [app]. rewrite Heq. cbn [mbind option_bind]. destruct Hcase as [(-> & Hs & Ha & Hmax) | (-> & Hnone)].
    + cbn [app length] in Hn. rewrite match_percent_stop by (lia || by apply star_tail_not_percent). eexists _, _, _. split; [done |].
      rewrite sub_result_yes by done. left. split_and!; [done | done | by apply scan_match_percent | done |].
      intros r Hr. by apply Hmax, scan_match_percent.
    + destruct (literal_at0 c (seg' ++ tail) Hw) as [Hn37 Hn42].
      cbn [app length] in Hn. rewrite match_percent_stop by (done || lia). eexists _, _, _. split; [done |].
      destruct (sub_result_no data0 p0 m' data2 (c :: seg' ++ tail)) as (ret & -> & He); [done | done | done |].
      right. split; [done |]. intros r Hr. by apply Hnone, scan_match_percent.
Qed.

Lemma match_sub_spec fuel seg tail data :
  no_star seg = true -> star_tail tail -> compressed (seg ++ tail) = true -> (length (seg ++ tail) < fuel)%nat ->
  exists res, match_sub csep fuel data (seg ++ tail) = Some res /\ sub_spec seg tail data res.
Proof.
  revert seg data. induction fuel as [|fuel IH]; intros seg data Hns Ht Hc Hf; [lia |].
  destruct (literals_split seg Hns) as (lits & seg2 & -> & Hl & Hseg2). rewrite <- app_assoc in *.
  cbn [match_sub]. pose proof (match_literals_spec lits (seg2 ++ tail) data None Hl) as Hlit.
  destruct (match_literals csep data (lits ++ seg2 ++ tail) None) as [ret | [[data1 p1] prev]].
  - destruct Hlit as [He Hno].
    { destruct Hseg2 as [-> | (seg' & -> & _)]; [destruct Ht as [-> | (p & ->)] |]; eauto 8. }
    eexists. split; [done |]. right. split; [done |]. intros r Hr _. by eapply Hno.
  - destruct Hlit as [-> Hiff].
    { destruct Hseg2 as [-> | (seg' & -> & _)]; [destruct Ht as [-> | (p & ->)] |]; eauto 8. }
    cbv zeta. set (m := match data1, prev, seg2 ++ tail with [], Some (dc, _), _ :: _ => _ | _, _, _ => _ end).
    assert (Hm : even m) by (unfold m; repeat case_match; done).
    destruct (match_percent_spec (match_sub csep fuel) (S (length (seg2 ++ tail))) data (lits ++ seg2 ++ tail)
      data1 seg2 tail m) as (m' & data2 & p2 & Heq & Hspec); [done | by eapply compressed_app | done | lia | done | |].
    { intros c seg' e ->. apply (IH (c :: seg') e); [| done | |].
      - destruct Hseg2 as [? | (seg2' & [= ->] & ?)]; done.
      - apply compressed_app in Hc. by apply (compressed_tail 37).
      - rewrite !length_app in *. cbn [length app] in *. rewrite ?length_app in *. lia. }
    rewrite Heq. cbn [mbind option_bind]. exists (sub_result data (lits ++ seg2 ++ tail) m' data2 p2). split.
    + unfold sub_result. destruct (negb (at0 p2 0 =? 42)); [| done]. by destruct data2, p2.
    + unfold sub_spec in *. destruct (sub_result data (lits ++ seg2 ++ tail) m' data2 p2) as [[ret d'] p'].
      setoid_rewrite Hiff. exact Hspec.
Qed.
End Sub.

(** ** Whole patterns *)

Section Pattern.
Variable csep : Z.

Lemma gmatch_star_inv q data : gmatch csep (42 :: q) data -> exists s e, data = s ++ e /\ gmatch csep q e.
Proof. inversion 1; subst; [done | eauto]. Qed.

Lemma gmatch_percent_inv q data :
  gmatch csep (37 :: q) data -> exists s e, data = s ++ e /\ no_sep csep s = true /\ gmatch csep q e.
Proof. inversion 1; subst; [done | eauto 6]. Qed.

Lemma gmatch_star_mono q s data : gmatch csep (42 :: q) data -> gmatch csep (42 :: q) (s ++ data).
Proof. intros (s' & e & -> & H)%gmatch_star_inv. rewrite app_assoc. by apply gmatch_star. Qed.

Lemma gmatch_end data : gmatch csep [] data <-> data = [].
Proof. split; [by inversion 1 | intros ->; constructor]. Qed.

(** Of two rests of one name, the longer one ends in the shorter one. *)
Lemma suffix_of_longer {A} (s1 s2 r1 r2 : list A) :
  s1 ++ r1 = s2 ++ r2 -> (length r1 <= length r2)%nat -> exists s, r2 = s ++ r1.
Proof.
  intros Heq Hl. destruct (app_eq_inv _ _ _ _ Heq) as [(k & _ & ->) | (k & -> & ->)]; [by exists k |].
  rewrite length_app in Hl. destruct k; [by exists [] | cbn in Hl; lia].
Qed.

(** A part that leaves as much as possible decides the whole match. *)
Lemma gmatch_best (P : data_t -> Prop) tail data best :
  star_tail tail -> (forall r, P r -> exists s, data = s ++ r) -> P best -> accepts tail best ->
  (forall r, P r -> accepts tail r -> (length r <= length best)%nat) ->
  ((exists r, P r /\ gmatch csep tail r) <-> gmatch csep tail best).
Proof.
  intros Ht Hsuf Hb Ha Hmax. split; [| eauto]. intros (r & Hr & Hg). destruct Ht as [-> | (p & ->)].
  - rewrite gmatch_end in *. by apply Ha.
  - destruct (Hsuf r Hr) as (s1 & H1). destruct (Hsuf best Hb) as (s2 & H2).
    destruct (suffix_of_longer s1 s2 r best) as (s & ->); [congruence | by apply Hmax |]. by apply gmatch_star_mono.
Qed.

Lemma accepts_gmatch tail r : star_tail tail -> gmatch csep tail r -> accepts tail r.
Proof. intros [-> | (p & ->)] Hg; [intros _; by apply gmatch_end | done]. Qed.

(** Up to the first star. *)
Lemma star_split p : exists seg tail, p = seg ++ tail /\ no_star seg = true /\ star_tail tail.
Proof.
  induction p as [|c p (seg & tail & -> & Hn & Ht)]; [exists [], []; split_and!; [done | done | by left] |].
  destruct (decide (c = 42)) as [-> | Hne].
  - exists [], (42 :: seg ++ tail). split_and!; [done | done | right; eauto].
  - exists (c :: seg), tail. split_and!; [done | | done]. cbn. by rewrite (proj2 (Z.eqb_neq c 42)).
Qed.

(** What [imap_match_pattern] returns after its loop over the stars. *)
Definition star_result (r : Z + Z * data_t * list Z) : Z :=
  match r with
  | inl ret => ret
  | inr (m, data, p) => match data, p with [], [] => IMAP_MATCH_YES | _, _ => m end
  end.

Definition decides (ret : Z) (P : Prop) : Prop := ret = IMAP_MATCH_YES /\ P \/ even ret /\ ~ P.

Lemma match_star_spec n fuel data p m :
  star_tail p -> compressed p = true -> (length p < n)%nat -> (length p < fuel)%nat -> even m -> accepts p data ->
  exists r, match_star csep n fuel data p m = Some r /\ decides (star_result r) (gmatch csep p data).
Proof.
  revert data p m. induction n as [|n IH]; intros data p m Hp Hc Hn Hf Hm Ha; [lia |]. cbn [match_star].
  destruct Hp as [-> | (q & ->)].
  { eexists. split; [done |]. rewrite Ha by done. left. split; [done | constructor]. }
  cbn [Z.eqb Pos.eqb]. destruct q as [|c q].
  { eexists. split; [done |]. left. split; [done |]. rewrite <- (app_nil_r data). apply gmatch_star. constructor. }
  assert (Hw : wild c = false) by (cbn in Hc; by apply andb_true_iff in Hc as [Hc%negb_true_iff _]).
  destruct (star_split q) as (seg & tail & -> & Hns & Ht). cbn [length] in Hn, Hf. apply compressed_tail in Hc.
  assert (Hns' : no_star (c :: seg) = true) by (cbn; by rewrite (proj2 (Z.eqb_neq c 42)) by (unfold wild in Hw; lia)).
  destruct (match_scan_spec csep (match_sub csep fuel) false c seg tail data m)
    as (m' & data2 & p2 & Heq & Hm' & Hcase); [| done | done |].
  { intros e. apply (match_sub_spec csep fuel (c :: seg) tail e); [done | done | done | cbn [length app]; lia]. }
  rewrite Heq. cbn [mbind option_bind].
  assert (Hg : gmatch csep (42 :: c :: seg ++ tail) data <-> exists r, scan_match csep false (c :: seg) data r /\ gmatch csep tail r).
  { split.
    - intros (s & e & -> & H)%gmatch_star_inv. apply (gmatch_app csep (c :: seg)) in H as (r & Hs & Hr); [| done].
      exists r. split; [by exists s, e | done].
    - intros (r & (s & e & -> & _ & Hs) & Hr). apply gmatch_star. apply (gmatch_app csep (c :: seg)); eauto. }
  destruct Hcase as [(-> & Hs & Hacc & Hmax) | (-> & Hnone)].
  - destruct (IH data2 tail m') as (r & Hr & Hdec); [done | | rewrite length_app in Hn; lia | rewrite length_app in Hf; lia | done | done |].
    { by apply (compressed_app (c :: seg)). }
    exists r. split; [done |]. unfold decides in *. rewrite Hg, (gmatch_best _ tail data data2); try done.
    intros r' (s & e & -> & _ & Hs'). apply smatch_suffix in Hs' as (s' & ->). exists (s ++ s'). by rewrite app_assoc.
  - destruct n as [|n]; [cbn in Hn; lia |]. destruct (literal_at0 c (seg ++ tail) Hw) as [_ H42].
    cbn [match_star]. rewrite (proj2 (Z.eqb_neq c 42)) by done. eexists. split; [done |]. right.
    split; [by destruct data2 |]. rewrite Hg. intros (r & Hr & Hgr). eapply Hnone; [done |]. by apply accepts_gmatch.
Qed.

Lemma imap_match_pattern_spec icase data p :
  compressed p = true ->
  exists ret, imap_match_pattern csep icase data p = Some ret /\
    decides ret (gmatch csep p (mark_inboxcase data icase csep)).
Proof.
  intros Hc. unfold imap_match_pattern. cbv zeta. set (data' := mark_inboxcase data icase csep).
  assert (Hstar : forall q e, star_tail q -> accepts q e -> compressed q = true -> (length q <= length p)%nat ->
    exists ret, (r ← match_star csep (S (length p)) (S (length p)) e q IMAP_MATCH_CHILDREN;
      match r with inl ret => Some ret
      | inr (m, data, p) => Some (match data, p with [], [] => IMAP_MATCH_YES | _, _ => m end) end) = Some ret /\
      decides ret (gmatch csep q e)).
  { intros q e Hq Ha Hcq Hl. destruct (match_star_spec (S (length p)) (S (length p)) e q IMAP_MATCH_CHILDREN)
      as (r & -> & Hdec); [done | done | lia | lia | by red | done |].
    exists (star_result r). split; [| done]. cbn [mbind option_bind]. by destruct r as [? | [[? ?] ?]]. }
  destruct (Z.eqb_spec (at0 p 0) 42) as [H42 | H42]; cbn [negb mbind option_bind].
  { destruct p as [|c p]; [done |]. cbn in H42. subst c. apply Hstar; [right; eauto | done | done | done]. }
  destruct (star_split p) as (seg & tail & Heq & Hns & Ht). rewrite Heq in Hc |- *.
  destruct (match_sub_spec csep (S (length (seg ++ tail))) seg tail data') as ([[ret data2] p2] & -> & Hspec); [done | done | done | lia |].
  cbn [mbind option_bind]. pose proof (gmatch_app csep seg tail data' Hns) as Hg.
  destruct Hspec as [(-> & -> & Hs & Hacc & Hmax) | (He & Hno)].
  - rewrite (gmatch_best (smatch csep seg data') tail data' data2 Ht (smatch_suffix csep seg data') Hs Hacc Hmax) in Hg.
    cbn [negb orb Z.eqb Pos.eqb IMAP_MATCH_YES]. destruct Ht as [-> | (q & ->)].
    + cbn. eexists. split; [done |]. left. split; [done |]. by apply Hg, gmatch_end, Hacc.
    + change (at0 (42 :: q) 0 =? 0) with false. cbn [mbind option_bind]. rewrite <- Heq.
      destruct (Hstar (42 :: q) data2) as (ret & -> & Hdec);
        [right; eauto | done | by apply (compressed_app seg) | rewrite Heq, length_app; lia |].
      exists ret. split; [done |]. unfold decides in *. by rewrite Heq, Hg.
  - rewrite even_not_yes by done. cbn [negb orb mbind option_bind]. eexists. split; [done |]. right. split; [done |].
    intros (r & Hr & Hgr)%Hg. eapply Hno; [done |]. by apply accepts_gmatch.
Qed.
End Pattern.

(** ** Compression *)

(** Patterns with the same meaning. *)
Definition pequiv (csep : Z) (p q : list Z) : Prop := forall data, gmatch csep p data <-> gmatch csep q data.

#[export] Instance pequiv_equivalence csep : Equivalence (pequiv csep).
Proof.
  split; unfold pequiv.
  - intros p data. done.
  - intros p q H data. by rewrite H.
  - intros p q r H1 H2 data. by rewrite H1.
Qed.

#[export] Instance cons_pequiv csep c : Proper (pequiv csep ==> pequiv csep) (cons c).
Proof.
  assert (H : forall p q, pequiv csep p q -> forall data, gmatch csep (c :: p) data -> gmatch csep (c :: q) data).
  { intros p q Hpq data Hg. inversion Hg; subst; [apply gmatch_lit | apply gmatch_star | apply gmatch_percent];
      try done; by apply Hpq. }
  intros p q Hpq data. split; apply H; [done | by symmetry].
Qed.

Section Compress.
Variable csep : Z.
Notation "p ≡ₚ q" := (pequiv csep p q) (at level 70).

Lemma star_wild c p : wild c = true -> 42 :: c :: p ≡ₚ 42 :: p.
Proof.
  intros Hw data. split.
  - intros (s & e & -> & H)%gmatch_star_inv.
    assert (exists s' e', e = s' ++ e' /\ gmatch csep p e') as (s' & e' & -> & H').
    { destruct (decide (c = 42)) as [-> | Hne]; [by apply gmatch_star_inv |].
      assert (c = 37) as -> by (unfold wild in Hw; lia). apply gmatch_percent_inv in H as (s' & e' & -> & _ & ?). eauto. }
    rewrite app_assoc. by apply gmatch_star.
  - intros (s & e & -> & H)%gmatch_star_inv. apply gmatch_star.
    assert (c = 42 \/ c = 37) as [-> | ->] by (unfold wild in Hw; lia);
      [apply (gmatch_star csep p [] e H) | by apply (gmatch_percent csep p [] e)].
Qed.

Lemma percent_star p : 37 :: 42 :: p ≡ₚ 42 :: p.
Proof.
  intros data. split.
  - intros (s & e & -> & _ & H)%gmatch_percent_inv. by apply gmatch_star_mono.
  - intros H. by apply (gmatch_percent csep (42 :: p) [] data).
Qed.

Lemma percent_percent p : 37 :: 37 :: p ≡ₚ 37 :: p.
Proof.
  intros data. split.
  - intros (s & e & -> & Hs & (s' & e' & -> & Hs' & H)%gmatch_percent_inv)%gmatch_percent_inv.
    rewrite app_assoc. apply gmatch_percent; [| done]. unfold no_sep in *. by rewrite forallb_app, Hs.
  - intros (s & e & -> & Hs & H)%gmatch_percent_inv. apply gmatch_percent; [done |].
    by apply (gmatch_percent csep p [] e).
Qed.

(** Skipping the wildcards behind one. *)
Lemma skip_wild_true p : 42 :: p ≡ₚ 42 :: skip_wild true p.
Proof.
  induction p as [|c p IH]; [done |]. cbn [skip_wild]. destruct ((c =? 37) || true && (c =? 42)) eqn:E; [| done].
  rewrite star_wild by (unfold wild; cbn in E; lia). exact IH.
Qed.

Lemma skip_wild_false p : 37 :: p ≡ₚ 37 :: skip_wild false p.
Proof.
  induction p as [|c p IH]; [done |]. cbn [skip_wild]. rewrite orb_false_r. destruct (Z.eqb_spec c 37) as [-> |]; [| done].
  rewrite percent_percent. exact IH.
Qed.

Definition wild_head (p : list Z) : bool := match p with [] => false | c :: _ => wild c end.

Lemma skip_wild_head both p :
  match skip_wild both p with [] => True | c :: _ => c <> 37 /\ (both = true -> c <> 42) end /\
  (length (skip_wild both p) <= length p)%nat.
Proof.
  induction p as [|c p [IH1 IH2]]; [done |]. cbn [skip_wild].
  destruct ((c =? 37) || both && (c =? 42)) eqn:E; [split; [done | cbn; lia] |]. split; [| done].
  split; [lia |]. intros ->. cbn in E. lia.
Qed.

Lemma compressed_cons c p : compressed p = true -> (wild c = true -> wild_head p = false) -> compressed (c :: p) = true.
Proof.
  intros Hp Hw. destruct p as [|c' p]; [done |]. cbn in *. rewrite Hp, andb_true_r.
  destruct (wild c); [by rewrite Hw | done].
Qed.

Lemma pattern_compress_loop_spec fuel p :
  (length p < fuel)%nat ->
  exists q, pattern_compress_loop fuel p = Some q /\ q ≡ₚ p /\ compressed q = true /\ (wild_head p = false -> wild_head q = false).
Proof.
  revert p. induction fuel as [|fuel IH]; intros p Hf; [lia |]. destruct p as [|c p]; [by exists [] |].
  cbn [pattern_compress_loop]. destruct ((c =? 42) || (c =? 37)) eqn:Ec.
  2: { destruct (IH p) as (q & -> & Hq & Hc & Hh); [cbn in Hf; lia |]. exists (c :: q). cbn [mbind option_bind].
       split_and!; [done | by rewrite Hq | | by intros]. apply compressed_cons; [done |]. unfold wild. by rewrite Ec. }
  cbv zeta. cbn [length] in Hf. set (q := skip_wild false (c :: p)).
  assert (Hq : c :: p ≡ₚ (if at0 q 0 =? 42 then 42 :: skip_wild true q else 37 :: q) /\ (length q <= S (length p))%nat /\
    (at0 q 0 <> 42 -> (length q < S (length p))%nat /\ wild_head q = false)).
  { unfold q. cbn [skip_wild]. rewrite orb_false_r. destruct (Z.eqb_spec c 37) as [-> | Hne].
    - destruct (skip_wild_head false p) as [Hh Hl]. split_and!; [| lia | intros H42; split; [lia |]].
      + rewrite skip_wild_false. destruct (skip_wild false p) as [|c' p'] eqn:E; [done |].
        change (at0 (c' :: p') 0) with c'. destruct (Z.eqb_spec c' 42) as [-> |]; [| done].
        rewrite percent_star. cbn [skip_wild Z.eqb Pos.eqb orb andb]. apply skip_wild_true.
      + destruct (skip_wild false p) as [|c' p']; [done |]. change (at0 (c' :: p') 0) with c' in H42. cbn. unfold wild. lia.
    - assert (c = 42) as -> by lia. change (at0 (42 :: p) 0 =? 42) with true. cbn [skip_wild Z.eqb Pos.eqb orb andb].
      split_and!; [apply skip_wild_true | done | done]. }
  destruct Hq as (Hq & Hl & Hd). destruct (Z.eqb_spec (at0 q 0) 42) as [H42 | H42].
  - destruct (skip_wild_head true q) as [Hh Hl2].
    assert (Hl3 : (length (skip_wild true q) < S (length p))%nat).
    { destruct q as [|c' q']; [done |]. cbn in H42. subst c'. cbn [skip_wild Z.eqb Pos.eqb orb andb].
      destruct (skip_wild_head true q'). cbn [length] in *. lia. }
    destruct (IH (skip_wild true q)) as (r & -> & Hr & Hc & Hrh); [lia |]. exists (42 :: r). cbn [mbind option_bind].
    split_and!; [done | by rewrite Hq, Hr | | by cbn; unfold wild; rewrite Ec].
    apply compressed_cons; [done |]. intros _. apply Hrh. destruct (skip_wild true q); [done |]. cbn. unfold wild. lia.
  - destruct (Hd H42) as [Hl3 Hw]. destruct (IH q) as (r & -> & Hr & Hc & Hrh); [lia |]. exists (37 :: r). cbn [mbind option_bind].
    split_and!; [done | by rewrite Hq, Hr | | by cbn; unfold wild; rewrite Ec].
    apply compressed_cons; [done |]. intros _. by apply Hrh.
Qed.
End Compress.

(** ** Case-insensitive INBOX

    The flag computed by [pattern_is_inboxcase] only saves work: a pattern that
    can match INBOX in some case has it set. *)

Section Inbox.
Variable csep : Z.

(** The marked characters [w], and what follows INBOX: nothing or a separator. *)
Definition marked (w : list Z) (rest : data_t) : data_t := map (fun c => (c, true)) w ++ rest.
Definition behind_inbox (rest : data_t) : Prop := rest = [] \/ exists rest', rest = (csep, false) :: rest'.

Lemma marked_cons x w rest : marked (x :: w) rest = (x, true) :: marked w rest.
Proof. done. Qed.

Lemma cmp_upper x c b : CMP_CUR_CHR (x, b) c = true -> toupper x = toupper c.
Proof.
  unfold CMP_CUR_CHR. cbn. rewrite orb_true_iff, andb_true_iff, !Z.eqb_eq. by intros [-> | [-> _]].
Qed.

Lemma gmatch_lit_inv c p data : wild c = false -> gmatch csep (c :: p) data ->
  exists d data', data = d :: data' /\ CMP_CUR_CHR d c = true /\ gmatch csep p data'.
Proof. intros Hw. inversion 1; subst; [eauto | done | done]. Qed.

(** A literal that matches behind INBOX is a separator. *)
Lemma behind_literal c p rest :
  behind_inbox rest -> wild c = false -> gmatch csep (c :: p) rest -> c = csep.
Proof.
  intros Hr Hw (d & data' & Heq & Hcmp & _)%gmatch_lit_inv; [| done].
  destruct Hr as [-> | (rest' & ->)]; [done |]. injection Heq as <- <-. unfold CMP_CUR_CHR in Hcmp. cbn in Hcmp.
  rewrite andb_false_r, orb_false_r in Hcmp. by apply Z.eqb_eq in Hcmp.
Qed.

(** A [%] does not reach behind INBOX. *)
Lemma percent_marked p w rest :
  behind_inbox rest -> gmatch csep (37 :: p) (marked w rest) ->
  exists x w', w = x ++ w' /\ gmatch csep p (marked w' rest).
Proof.
  intros Hr (s & e & Heq & Hs & Hg)%gmatch_percent_inv. unfold marked in *.
  revert s Heq Hs. induction w as [|y w IH]; intros s Heq Hs; cbn [map app] in *.
  - exists [], []. split; [done |]. destruct s as [|d s]; [by rewrite Heq; cbn |]. exfalso.
    destruct Hr as [-> | (rest' & ->)]; [done |]. injection Heq as <- _. cbn in Hs. by rewrite Z.eqb_refl in Hs.
  - destruct s as [|d s].
    + exists [], (y :: w). split; [done |]. cbn in Heq. by rewrite <- Heq in Hg.
    + injection Heq as <- Heq. cbn in Hs. apply andb_true_iff in Hs as [_ Hs].
      destruct (IH s Heq Hs) as (x & w' & -> & H). by exists (y :: x), w'.
Qed.

Lemma inboxcase_skip_spec w p rest :
  behind_inbox rest -> gmatch csep p (marked w rest) -> (forall x, x ∈ w -> wild (toupper x) = false) ->
  let '(inboxp, p') := inboxcase_skip (map toupper w) p in
  exists w', inboxp = map toupper w' /\ gmatch csep p' (marked w' rest) /\ (exists x, w = x ++ w') /\
    (w' = [] \/ p' = [] \/ wild_head p' = true) /\ (exists pre, p = pre ++ p').
Proof.
  intros Hr. revert p. induction w as [|x w IH]; intros p Hg Hx; cbn [map inboxcase_skip].
  { exists []. split_and!; [done | done | by exists [] | by left | by exists []]. }
  destruct p as [|c p]; [exists (x :: w); split_and!; [done | done | by exists [] | by right; left | by exists []] |].
  destruct (Z.eqb_spec (toupper x) (toupper c)) as [Heq | Hne].
  - assert (Hw : wild c = false).
    { specialize (Hx x ltac:(by left)). unfold wild in *. rewrite Heq in Hx. unfold toupper in Hx.
      destruct ((97 <=? c) && (c <=? 122)) eqn:E; lia. }
    apply gmatch_lit_inv in Hg as (d & data' & Hd & _ & Hg); [| done]. rewrite marked_cons in Hd. injection Hd as <- <-.
    specialize (IH p Hg ltac:(intros; apply Hx; by right)). destruct (inboxcase_skip (map toupper w) p) as [inboxp p'].
    destruct IH as (w' & -> & Hg' & (y & ->) & Hcase & (pre & ->)).
    exists w'. split_and!; [done | done | by exists (x :: y) | done | by exists (c :: pre)].
  - exists (x :: w). split_and!; [done | done | by exists [] | | by exists []]. right. right. cbn.
    destruct (wild c) eqn:Hw; [done |]. exfalso. apply Hne.
    apply gmatch_lit_inv in Hg as (d & data' & Hd & Hcmp & _); [| done]. rewrite marked_cons in Hd. injection Hd as <- <-.
    by eapply cmp_upper.
Qed.

(** [strchr] finds a character at or before any occurrence. *)
Lemma strchr_spec s x i t : s = x ++ i :: t -> exists y z, strchr s i = Some (i :: y ++ z) /\ z = t.
Proof.
  intros ->. induction x as [|c x IH]; cbn [app strchr].
  - rewrite Z.eqb_refl. by exists [], t.
  - destruct (Z.eqb_spec c i) as [-> | _]; [| exact IH]. exists (x ++ [i]), t. by rewrite <- app_assoc.
Qed.

(** After INBOX is used up, only the end, a star or a separator can follow,
    perhaps behind a [%]. *)
Lemma behind_inbox_end p rest :
  behind_inbox rest -> compressed p = true -> gmatch csep p rest ->
  let q := if at0 p 0 =? 37 then drop 1 p else p in
  (at0 q 0 =? 0) || (at0 q 0 =? 42) || (at0 q 0 =? csep) = true.
Proof.
  intros Hr Hc Hg. cbv zeta.
  assert (Hlit : forall q, gmatch csep q rest -> wild_head q = false \/ at0 q 0 = 42 ->
    (at0 q 0 =? 0) || (at0 q 0 =? 42) || (at0 q 0 =? csep) = true).
  { intros q Hq Hw. destruct q as [|c q]; [done |]. change (at0 (c :: q) 0) with c in *. cbn [wild_head] in Hw.
    destruct Hw as [Hw | ->]; [| by rewrite orb_true_r].
    rewrite (behind_literal c q rest) by done. rewrite Z.eqb_refl. by rewrite orb_true_r. }
  destruct p as [|c p]; [done |]. change (at0 (c :: p) 0) with c. destruct (Z.eqb_spec c 37) as [-> | Hne].
  - cbn [skipn]. rewrite drop_0. apply Hlit.
    + destruct (percent_marked p [] rest Hr Hg) as (x & w' & Heq & H). by destruct x, w'.
    + left. destruct p as [|c p]; [done |]. cbn in Hc. by apply andb_true_iff in Hc as [Hc%negb_true_iff _].
  - apply Hlit; [done |]. change (at0 (c :: p) 0) with c. cbn. unfold wild. lia.
Qed.

Lemma inboxcase_loop_spec p x w rest :
  behind_inbox rest -> compressed p = true -> gmatch csep p (marked w rest) ->
  inboxcase_loop (x ++ map toupper w) p csep = true.
Proof.
  intros Hr. revert x w. induction p as [|c p IH]; intros x w Hc Hg; cbn [inboxcase_loop]; [done |].
  destruct ((c =? 42) || (c =? csep)) eqn:E; [done |]. apply compressed_tail in Hc as Hc'.
  destruct (Z.eqb_spec c 37) as [-> | H37]; cbn [negb].
  - apply percent_marked in Hg as (y & w' & -> & Hg); [| done]. rewrite map_app, app_assoc. by apply IH.
  - assert (Hw : wild c = false) by (unfold wild; lia). destruct w as [|i w].
    { exfalso. unfold marked in Hg. cbn in Hg. pose proof (behind_literal c p rest Hr Hw Hg). lia. }
    apply gmatch_lit_inv in Hg as (d & data' & Hd & Hcmp & Hg); [| done]. rewrite marked_cons in Hd. injection Hd as <- <-.
    apply cmp_upper in Hcmp. destruct (strchr_spec (x ++ map toupper (i :: w)) x (toupper c) (map toupper w)) as (y & z & -> & ->);
      [cbn; by rewrite Hcmp |]. cbn [skipn]. rewrite drop_0.
    destruct (y ++ map toupper w) as [|c0 s0] eqn:Ey; [| rewrite <- Ey; by apply IH].
    apply app_nil in Ey as [_ Hw0]. destruct w; [| done]. by apply behind_inbox_end with rest.
Qed.

Lemma pattern_is_inboxcase_complete p w rest :
  compressed p = true -> map toupper w = inbox -> behind_inbox rest -> gmatch csep p (marked w rest) ->
  pattern_is_inboxcase p csep = true.
Proof.
  intros Hc Hw Hr Hg. unfold pattern_is_inboxcase. rewrite <- Hw.
  pose proof (inboxcase_skip_spec w p rest Hr Hg) as Hskip.
  destruct (inboxcase_skip (map toupper w) p) as [inboxp p']. destruct Hskip as (w' & -> & Hg' & _ & Hcase & (pre & ->)).
  { intros x Hx. assert (Hin : toupper x ∈ inbox) by (rewrite <- Hw; by apply list_elem_of_fmap_2).
    repeat (apply elem_of_cons in Hin as [-> | Hin]; [done |]). by apply elem_of_nil in Hin. }
  destruct (Z.eqb_spec (at0 p' 0) 37) as [H37 | H37]; cbn [negb].
  - apply (inboxcase_loop_spec p' [] w' rest); [done | by apply (compressed_app pre) | done].
  - destruct p' as [|c p'].
    + rewrite gmatch_end in Hg'. unfold marked in Hg'. apply app_nil in Hg' as [Hn _]. apply fmap_nil_inv in Hn as ->.
      by rewrite orb_true_r.
    + change (at0 (c :: p') 0) with c in *. destruct (wild c) eqn:Hwc; [unfold wild in Hwc; lia |].
      destruct Hcase as [-> | [? | Hh]]; [| done | cbn in Hh; congruence].
      assert (c = csep) as ->; [| by rewrite Z.eqb_refl, orb_true_r]. by eapply behind_literal.
Qed.
End Inbox.

(** Names contain no NUL. *)
Definition cstr (s : list Z) : Prop := Forall (fun c => c <> 0) s.

(** Ignoring case in more characters loses no match. *)
Lemma gmatch_unmark csep p data data' :
  Forall2 (fun d d' => d.1 = d'.1 /\ (d.2 = true -> d'.2 = true)) data data' ->
  gmatch csep p data -> gmatch csep p data'.
Proof.
  intros Hf Hg. revert data' Hf. induction Hg as [|c p d data Hw Hcmp Hg IH|p s data Hg IH|p s data Hs Hg IH]; intros data' Hf.
  - inversion Hf. constructor.
  - apply Forall2_cons_inv_l in Hf as (d' & l & [H1 H2] & Hf & ->). apply gmatch_lit; [done | | by apply IH].
    unfold CMP_CUR_CHR in *. rewrite <- H1. destruct (d.1 =? c); [done |]. cbn [orb] in *.
    apply andb_true_iff in Hcmp as [-> H]. by rewrite H2.
  - apply Forall2_app_inv_l in Hf as (s' & l & _ & Hf & ->). apply gmatch_star. by apply IH.
  - apply Forall2_app_inv_l in Hf as (s' & l & Hf1 & Hf & ->). apply gmatch_percent; [| by apply IH].
    clear -Hs Hf1. induction Hf1 as [|d d' s s' [H _] _ IH]; [done |]. cbn in *. rewrite <- H.
    apply andb_true_iff in Hs as [-> Hs]. by apply IH.
Qed.

Lemma mark_mono data separator :
  Forall2 (fun d d' : Z * bool => d.1 = d'.1 /\ (d.2 = true -> d'.2 = true))
    (mark_inboxcase data false separator) (mark_inboxcase data true separator).
Proof.
  unfold mark_inboxcase. cbn [andb]. set (n := if begins_with_inbox data separator then 5%nat else 0%nat).
  rewrite take_0, drop_0. cbn [map app]. rewrite <- (take_drop n data) at 1. rewrite map_app.
  apply Forall2_app; rewrite Forall2_fmap; apply Forall_Forall2_diag, Forall_true; by intros.
Qed.

(** The flag of a compiled pattern makes no difference to what it matches. *)
Lemma inboxcase_flag_spec csep p data :
  cstr data -> compressed p = true ->
  gmatch csep p (mark_inboxcase data (pattern_is_inboxcase p csep) csep) <-> gmatch csep p (mark_inboxcase data true csep).
Proof.
  intros Hd Hc. destruct (pattern_is_inboxcase p csep) eqn:E; [done |].
  split; [by apply gmatch_unmark, mark_mono |]. intros Hg.
  unfold mark_inboxcase in *. cbn [andb] in *. destruct (begins_with_inbox data csep) eqn:Eb; [exfalso | done].
  unfold begins_with_inbox in Eb. apply andb_true_iff in Eb as [Hin%bool_decide_eq_true Hend].
  rewrite (pattern_is_inboxcase_complete csep p (take 5 data) (map (fun c => (c, false)) (drop 5 data))) in E; [done | done | done | | done].
  unfold behind_inbox. destruct (drop 5 data) as [|c rest] eqn:Ed; [by left | right].
  assert (Hl : data !! 5%nat = Some c) by (rewrite <- (Nat.add_0_r 5), <- lookup_drop, Ed; done).
  assert (Hc0 : c <> 0) by (eapply Forall_lookup_1 in Hd; [| exact Hl]; done).
  assert (at0 data 5 = c) as Hat by (unfold at0; by rewrite Hl). rewrite Hat in Hend.
  exists (map (fun c => (c, false)) rest). cbn. do 2 f_equal. lia.
Qed.

(** ** Globs *)

(** A glob as [imap_match_init_multiple] leaves it. *)
Definition glob_ok (icase : bool) (glob : imap_match_glob) : Prop :=
  Forall (fun mp => compressed (pattern mp) = true /\
    inboxcase mp = icase && pattern_is_inboxcase (pattern mp) (sep glob)) (patterns glob).

Lemma compress_patterns_spec ps icase csep :
  exists mps, compress_patterns ps icase csep = Some mps /\ glob_ok icase (Glob mps csep) /\
    Forall2 (fun p mp => pequiv csep (pattern mp) p) ps mps.
Proof.
  induction ps as [|p ps (mps & IH & Hok & Hf)]; cbn [compress_patterns]; [exists []; split_and!; [done | constructor | constructor] |].
  destruct (pattern_compress_loop_spec csep (S (length p)) p) as (q & Hq & He & Hc & _); [lia |].
  unfold pattern_compress. rewrite Hq, IH. cbn [mbind option_bind]. eexists. split_and!; [done | by constructor | by constructor].
Qed.

Lemma imap_match_pattern_mark csep icase flag data p :
  cstr data -> compressed p = true -> flag = icase && pattern_is_inboxcase p csep ->
  gmatch csep p (mark_inboxcase data flag csep) <-> gmatch csep p (mark_inboxcase data icase csep).
Proof. intros Hd Hc ->. destruct icase; [by apply inboxcase_flag_spec | done]. Qed.

Lemma imap_match_loop_spec icase csep mps data m :
  cstr data -> glob_ok icase (Glob mps csep) -> even m ->
  exists ret, imap_match_loop csep mps data m = Some ret /\
    decides ret (exists mp, mp ∈ mps /\ gmatch csep (pattern mp) (mark_inboxcase data icase csep)).
Proof.
  intros Hd Hok. revert m. unfold glob_ok in Hok. cbn in Hok.
  induction Hok as [|mp mps [Hc Hi] Hok IH]; intros m Hm; cbn [imap_match_loop].
  { exists m. split; [done |]. right. split; [done |]. by intros (mp & Hin%elem_of_nil & _). }
  destruct (imap_match_pattern_spec csep (inboxcase mp) data (pattern mp) Hc) as (ret & -> & Hdec). cbn [mbind option_bind].
  pose proof (imap_match_pattern_mark csep icase (inboxcase mp) data (pattern mp) Hd Hc Hi) as Hmark.
  destruct Hdec as [[-> Hg] | [He Hno]].
  - exists IMAP_MATCH_YES. split; [done |]. left. split; [done |]. exists mp. split; [by left | by apply Hmark].
  - rewrite even_not_yes by done. destruct (IH (Z.lor m ret)) as (ret' & -> & Hdec); [by apply even_lor |].
    exists ret'. split; [done |]. destruct Hdec as [[-> (mp' & Hin & Hg)] | [He' Hno']].
    + left. split; [done |]. exists mp'. split; [by right | done].
    + right. split; [done |]. intros (mp' & [-> | Hin]%elem_of_cons & Hg); [by apply Hno, Hmark | apply Hno'; eauto].
Qed.

Lemma skip_wild_id both p : wild_head p = false -> skip_wild both p = p.
Proof. destruct p as [|c p]; [done |]. cbn. unfold wild. intros H. destruct both; cbn; case_match; lia || done. Qed.

Lemma compressed_head c p : compressed (c :: p) = true -> wild c = true -> wild_head p = false.
Proof. destruct p; [done |]. cbn. intros [H _]%andb_true_iff Hc. rewrite Hc in H. by apply negb_true_iff in H. Qed.

Lemma pattern_compress_loop_id fuel p :
  (length p < fuel)%nat -> compressed p = true -> pattern_compress_loop fuel p = Some p.
Proof.
  revert p. induction fuel as [|fuel IH]; intros p Hf Hc; [lia |]. destruct p as [|c p]; [done |].
  cbn [pattern_compress_loop length] in *. pose proof (compressed_tail c p Hc) as Hc'.
  destruct ((c =? 42) || (c =? 37)) eqn:Ec; [| by rewrite IH by (done || lia)].
  pose proof (compressed_head c p Hc Ec) as Hh. cbv zeta. cbn [skip_wild]. rewrite orb_false_r.
  destruct (Z.eqb_spec c 37) as [-> | Hne].
  - rewrite (skip_wild_id false) by done. destruct (Z.eqb_spec (at0 p 0) 42) as [H42 | _]; [| by rewrite IH by (done || lia)].
    destruct p as [|c p]; [done |]. cbn in H42. by subst.
  - assert (c = 42) as -> by lia. change (at0 (42 :: p) 0 =? 42) with true. cbn [skip_wild Z.eqb Pos.eqb orb andb].
    rewrite (skip_wild_id true) by done. by rewrite IH by (done || lia).
Qed.

Lemma compress_patterns_id icase csep mps flag :
  glob_ok icase (Glob mps csep) ->
  Forall (fun mp => inboxcase mp = flag && pattern_is_inboxcase (pattern mp) csep) mps ->
  compress_patterns (map pattern mps) flag csep = Some mps.
Proof.
  intros Hok Hf. unfold glob_ok in Hok. cbn in Hok.
  induction Hok as [|[p b] mps [Hc _] Hok IH]; [done |]. apply Forall_cons_1 in Hf as [Hb Hf].
  cbn [map compress_patterns pattern inboxcase] in *. unfold pattern_compress.
  rewrite pattern_compress_loop_id by (done || lia). cbn [mbind option_bind]. rewrite IH by done. cbn. by rewrite Hb.
Qed.

Lemma imap_match_dup_spec icase glob : glob_ok icase glob -> imap_match_dup glob = Some glob.
Proof.
  destruct glob as [mps csep]. intros Hok. unfold imap_match_dup, imap_match_dup_real, imap_match_init_multiple_real.
  cbn [patterns sep]. rewrite (compress_patterns_id icase); [done | done |]. unfold glob_ok in Hok. cbn in Hok.
  destruct (existsb inboxcase mps) eqn:E.
  - apply existsb_exists in E as (mp & Hin & Hb). assert (icase = true) as ->.
    { apply Forall_forall with (x := mp) in Hok; [| by apply list_elem_of_In]. destruct Hok as [_ Hi]. rewrite Hb in Hi. by destruct icase. }
    eapply Forall_impl; [exact Hok |]. by intros ? [_ ?].
  - apply Forall_forall. intros mp Hin. cbn. destruct (inboxcase mp) eqn:Eb; [| done]. rewrite <- E.
    symmetry. apply existsb_exists. exists mp. split; [by apply list_elem_of_In | done].
Qed.

Lemma patterns_equal_spec p1 p2 : patterns_equal p1 p2 = true <-> p1 = p2.
Proof.
  revert p2. induction p1 as [|[p b] p1 IH]; intros [|[p' b'] p2]; cbn [patterns_equal pattern inboxcase]; [done | done | done |].
  case_bool_decide as Hp; cbn [negb]; [subst | split; [done | congruence]].
  destruct (Bool.eqb b b') eqn:Hb; cbn [negb].
  - apply eqb_prop in Hb as ->. rewrite IH. split; congruence.
  - split; [done |]. intros [= -> ->]. by rewrite eqb_reflx in Hb.
Qed.

(** Related lists have the same existential statements about related elements. *)
Lemma Forall2_exists_iff {A B} (P : A -> Prop) (Q : B -> Prop) l k :
  Forall2 (fun x y => Q y <-> P x) l k -> (exists y, y ∈ k /\ Q y) <-> (exists x, x ∈ l /\ P x).
Proof.
  induction 1 as [|x y l k Hxy _ IH].
  - split; by intros (? & ?%elem_of_nil & _).
  - split; intros (z & [-> | Hin]%elem_of_cons & Hz); try (eexists; split; [by left | by apply Hxy]).
    + destruct (proj1 IH (ex_intro _ z (conj Hin Hz))) as (x' & Hin' & Hx'). exists x'. split; [by right | done].
    + destruct (proj2 IH (ex_intro _ z (conj Hin Hz))) as (x' & Hin' & Hx'). exists x'. split; [by right | done].
Qed.

(** Compiling and matching always succeed. *)
Lemma imap_match_spec ps icase csep data :
  cstr data ->
  exists glob ret, imap_match_init_multiple ps icase csep = Some glob /\ imap_match glob data = Some ret /\
    (ret = IMAP_MATCH_YES <-> exists p, p ∈ ps /\ gmatch csep p (mark_inboxcase data icase csep)) /\
    (ret = IMAP_MATCH_YES \/ Z.even ret = true).
Proof.
  intros Hd. destruct (compress_patterns_spec ps icase csep) as (mps & Hmps & Hok & Hf).
  destruct (imap_match_loop_spec icase csep mps data IMAP_MATCH_NO) as (ret & Hret & Hdec); [done | done | done |].
  exists (Glob mps csep), ret. unfold imap_match_init_multiple, imap_match_init_multiple_real. rewrite Hmps.
  split_and!; [done | done | | by destruct Hdec as [[-> _] | [? _]]; [left | right]].
  assert (Hex : (exists mp, mp ∈ mps /\ gmatch csep (pattern mp) (mark_inboxcase data icase csep)) <->
    (exists p, p ∈ ps /\ gmatch csep p (mark_inboxcase data icase csep))).
  { apply Forall2_exists_iff. eapply Forall2_impl; [exact Hf |]. intros p mp He. apply He. }
  rewrite <- Hex. destruct Hdec as [[-> H] | [He H]]; [done |]. split; [| done].
  intros ->. by apply even_not_yes in He.
Qed.

(** ** Properties *)

(** C8: for every list of patterns a glob is compiled, and matching any name
    against it terminates and returns YES exactly when one of the patterns, as
    they were given, matches the name, with INBOX at the start compared
    without case when that was asked for; otherwise the YES bit is not set.
    So neither compression, nor the per-pattern INBOX test, nor the search
    that never goes back over a star changes the result. *)
Theorem imap_match_correct ps icase csep data :
  cstr data ->
  exists glob ret, imap_match_init_multiple ps icase csep = Some glob /\ imap_match glob data = Some ret /\
    (ret = IMAP_MATCH_YES <-> exists p, p ∈ ps /\ gmatch csep p (mark_inboxcase data icase csep)) /\
    (ret = IMAP_MATCH_YES \/ Z.even ret = true).
Proof. apply imap_match_spec. Qed.

(** "inbox/foo" matches "x" or "IN%/f*" when INBOX is compared without case. *)
Lemma imap_match_correct_witness :
  exists glob ret, imap_match_init_multiple [str "x"; str "IN%/f*"] true 47 = Some glob /\
    imap_match glob (str "inbox/foo") = Some ret /\
    (ret = IMAP_MATCH_YES <->
     exists p, p ∈ [str "x"; str "IN%/f*"] /\ gmatch 47 p (mark_inboxcase (str "inbox/foo") true 47)) /\
    (ret = IMAP_MATCH_YES \/ Z.even ret = true).
Proof. apply imap_match_correct. repeat constructor; discriminate. Defined.

(** Compressing a pattern terminates, leaves no two adjacent wildcards and
    does not change the names it matches. *)
Theorem pattern_compress_correct csep p :
  exists q, pattern_compress p = Some q /\ compressed q = true /\
    (forall data, gmatch csep q data <-> gmatch csep p data) /\ pattern_compress q = Some q.
Proof.
  destruct (pattern_compress_loop_spec csep (S (length p)) p) as (q & Hq & He & Hc & _); [lia |].
  exists q. split_and!; [done | done | done |]. apply pattern_compress_loop_id; [lia | done].
Qed.

(** Copying a compiled glob, which compiles its patterns again and joins
    their INBOX flags, gives the same glob, and [imap_match_globs_equal]
    decides equality with any other. *)
Theorem imap_match_dup_correct ps icase csep glob :
  imap_match_init_multiple ps icase csep = Some glob ->
  imap_match_dup glob = Some glob /\ forall glob2, imap_match_globs_equal glob glob2 = true <-> glob = glob2.
Proof.
  destruct (compress_patterns_spec ps icase csep) as (mps & Hmps & Hok & _).
  unfold imap_match_init_multiple, imap_match_init_multiple_real. rewrite Hmps. cbn [mbind option_bind]. intros [= <-].
  split; [by apply imap_match_dup_spec with icase |]. intros [mps2 sep2]. unfold imap_match_globs_equal. cbn [sep patterns].
  destruct (Z.eqb_spec csep sep2) as [-> | Hne]; cbn [negb]; [| split; [done | congruence]].
  rewrite patterns_equal_spec. split; congruence.
Qed.

Lemma imap_match_dup_correct_witness :
  let glob := Glob [MatchPattern (str "a*b") false; MatchPattern (str "i%") true] 47 in
  imap_match_init_multiple [str "a%*%b"; str "i%%"] true 47 = Some glob /\ imap_match_dup glob = Some glob.
Proof.
  cbv zeta. assert (H : imap_match_init_multiple [str "a%*%b"; str "i%%"] true 47 =
    Some (Glob [MatchPattern (str "a*b") false; MatchPattern (str "i%") true] 47)) by (vm_compute; reflexivity).
  split; [exact H | exact (proj1 (imap_match_dup_correct _ _ _ _ H))].
Defined.
