(* ===== verification/Strescape.v ===== *)
(** * Escaping and splitting of strings (src/src/lib/strescape.c, strfuncs.c)

    Backslash escaping, the escaping of tab-separated records that the
    services exchange, and [split_str].  Strings are lists of bytes without
    the terminating NUL; buffers that are appended to are passed along. *)

From S2P Require Import Prelude.

(** ** Backslash escaping *)

Definition IS_ESCAPED_CHAR (c : Z) : bool := (c =? 34) || (c =? 92) || (c =? 39).

(** The characters before the first one that satisfies [f], and the rest. *)
Fixpoint span_until (f : Z -> bool) (s : list Z) : list Z * list Z :=
  match s with
  | [] => ([], [])
  | c :: s' => if f c then ([], s) else let '(a, b) := span_until f s' in (c :: a, b)
  end.

Fixpoint str_escape_loop (p : list Z) : list Z :=
  match p with
  | [] => []
  | c :: p => (if IS_ESCAPED_CHAR c then [92] else []) ++ c :: str_escape_loop p
  end.

Definition str_escape (s : list Z) : list Z :=
  let '(prefix, p) := span_until IS_ESCAPED_CHAR s in
  match p with
  | [] => s
  | _ => prefix ++ str_escape_loop p
  end.

(** Each round copies up to a backslash and then the character behind it. *)
Fixpoint str_append_unescaped (dest src : list Z) : list Z :=
  match src with
  | [] => dest
  | c :: src' =>
      if c =? 92 then
        match src' with
        | [] => dest
        | c' :: src'' => str_append_unescaped (dest ++ [c']) src''
        end
      else str_append_unescaped (dest ++ [c]) src'
  end.

Fixpoint str_unescape_loop (s : list Z) : list Z :=
  match s with
  | [] => []
  | c :: s' =>
      if c =? 92 then
        match s' with
        | [] => []
        | c' :: s'' => c' :: str_unescape_loop s''
        end
      else c :: str_unescape_loop s'
  end.

Definition str_unescape (s : list Z) : list Z :=
  let '(start, rest) := span_until (fun c => c =? 92) s in
  match rest with
  | [] => s
  | _ => start ++ str_unescape_loop rest
  end.

(** The position of the closing quote and whether a backslash was found. *)
Fixpoint unescape_next_loop (p acc : list Z) (esc_found : bool) : option (list Z * list Z * bool) :=
  match p with
  | [] => None
  | c :: p' =>
      if c =? 34 then Some (acc, p', esc_found)
      else if c =? 92 then
        match p' with
        | [] => None
        | c' :: p'' => unescape_next_loop p'' (acc ++ [c; c']) true
        end
      else unescape_next_loop p' (acc ++ [c]) esc_found
  end.

(** The unescaped string and the new [*str]; [None] where the code returns -1. *)
Definition str_unescape_next (s : list Z) : option (list Z * list Z) :=
  '(escaped, s, esc_found) ← unescape_next_loop s [] false;
  Some (if negb esc_found then escaped else str_unescape escaped, s).

(** ** Escaping of tab-separated fields *)

Fixpoint str_append_tabescaped (dest src : list Z) : list Z :=
  match src with
  | [] => dest
  | c :: src =>
      str_append_tabescaped
        (dest ++ (if c =? 1 then [1; 49] else if c =? 9 then [1; 116] else if c =? 13 then [1; 114]
                  else if c =? 10 then [1; 110] else [c])) src
  end.

(** [*p <= '\r'] with a signed [char]: also true of bytes above 127. *)
Definition may_tabescape (c : Z) : bool := (c <=? 13) || (128 <=? c).

Definition str_tabescape (s : list Z) : list Z :=
  let '(prefix, p) := span_until may_tabescape s in
  match p with
  | [] => s
  | _ => str_append_tabescaped prefix p
  end.

(** The character that [\001] and [c] stand for. *)
Definition tabunescape_char (c : Z) : Z :=
  if c =? 49 then 1 else if c =? 116 then 9 else if c =? 114 then 13 else if c =? 110 then 10 else c.

Fixpoint str_append_tabunescaped (dest src : list Z) : list Z :=
  match src with
  | [] => dest
  | c :: src' =>
      if c =? 1 then
        match src' with
        | [] => dest
        | c' :: src'' => str_append_tabunescaped (dest ++ [tabunescape_char c']) src''
        end
      else str_append_tabunescaped (dest ++ [c]) src'
  end.

Fixpoint str_tabunescape_loop (s : list Z) : list Z :=
  match s with
  | [] => []
  | c :: s' =>
      if negb (c =? 1) then c :: str_tabunescape_loop s'
      else
        match s' with
        | [] => []
        | c' :: s'' => tabunescape_char c' :: str_tabunescape_loop s''
        end
  end.

Definition str_tabunescape (s : list Z) : list Z :=
  let '(start, rest) := span_until (fun c => c =? 1) s in
  match rest with
  | [] => s
  | _ => start ++ str_tabunescape_loop rest
  end.

(** ** Splitting *)

Definition is_separator (separators : list Z) (c : Z) : bool := existsb (Z.eqb c) separators.

(** The loop of [split_str]; [cur] is the field that [array[count-1]] points
    to, up to [str]. *)
Fixpoint split_str_loop (fuel : nat) (separators : list Z) (spaces : bool) (s cur : list Z) : option (list (list Z)) :=
  match fuel with
  | O => None
  | S fuel =>
      match s with
      | [] => Some [cur]
      | c :: s' =>
          if is_separator separators c then
            if spaces then
              let '(_, rest) := span_until (fun c => negb (is_separator separators c)) s' in
              match rest with
              | [] => Some [cur]
              | _ => args ← split_str_loop fuel separators spaces rest []; Some (cur :: args)
              end
            else args ← split_str_loop fuel separators spaces s' []; Some (cur :: args)
          else split_str_loop fuel separators spaces s' (cur ++ [c])
      end
  end.

Definition split_str (data separators : list Z) (spaces : bool) : option (list (list Z)) :=
  _ ← assert (negb (at0 separators 0 =? 0));
  let data := if spaces then (span_until (fun c => negb (is_separator separators c)) data).2 else data in
  match data with
  | [] => Some []
  | _ => split_str_loop (S (length data)) separators spaces data []
  end.

Definition p_strsplit (data separators : list Z) : option (list (list Z)) := split_str data separators false.

Definition p_strsplit_tabescaped (s : list Z) : option (list (list Z)) :=
  args ← p_strsplit s [9];
  Some (map str_tabunescape args).

Definition t_strsplit_tabescaped (s : list Z) : option (list (list Z)) := p_strsplit_tabescaped s.

(** ** Lemmas *)

Lemma span_until_spec f s : let '(a, b) := span_until f s in
  s = a ++ b /\ forallb (fun c => negb (f c)) a = true /\ match b with [] => True | c :: _ => f c = true end.
Proof.
  induction s as [|c s IH]; [done |]. cbn [span_until]. destruct (f c) eqn:E; [by cbn |].
  destruct (span_until f s) as [a b]. destruct IH as (-> & Ha & Hb). split_and!; [done | by cbn; rewrite E | done].
Qed.

(** Unescaping undoes escaping, also before more text. *)
Lemma str_unescape_escape_loop p rest : str_unescape_loop (str_escape_loop p ++ rest) = p ++ str_unescape_loop rest.
Proof.
  induction p as [|c p IH]; [done |]. cbn [str_escape_loop]. destruct (IS_ESCAPED_CHAR c) eqn:E; cbn [app str_unescape_loop].
  - by rewrite Z.eqb_refl, IH.
  - replace (c =? 92) with false by (unfold IS_ESCAPED_CHAR in E; lia). by rewrite IH.
Qed.

Lemma str_escape_eq s : str_escape s = str_escape_loop s.
Proof.
  assert (Hid : forall a b, forallb (fun c => negb (IS_ESCAPED_CHAR c)) a = true -> str_escape_loop (a ++ b) = a ++ str_escape_loop b).
  { induction a as [|c a IH]; intros b; [done |]. cbn. intros [Hc Ha]%andb_true_iff. apply negb_true_iff in Hc. rewrite Hc. cbn. by rewrite IH. }
  unfold str_escape. pose proof (span_until_spec IS_ESCAPED_CHAR s) as H. destruct (span_until IS_ESCAPED_CHAR s) as [a b].
  destruct H as (-> & Ha & _). rewrite Hid by done. destruct b; [cbn; by rewrite app_nil_r | done].
Qed.

Lemma str_unescape_eq s : str_unescape s = str_unescape_loop s.
Proof.
  assert (Hid : forall a b, forallb (fun c => negb (c =? 92)) a = true -> str_unescape_loop (a ++ b) = a ++ str_unescape_loop b).
  { induction a as [|c a IH]; intros b; [done |]. cbn. intros [Hc Ha]%andb_true_iff. apply negb_true_iff in Hc. rewrite Hc. by rewrite IH. }
  unfold str_unescape. pose proof (span_until_spec (fun c => c =? 92) s) as H. destruct (span_until (fun c => c =? 92) s) as [a b].
  destruct H as (-> & Ha & _). rewrite Hid by done. destruct b; [cbn; by rewrite app_nil_r | done].
Qed.

(** The in-place and the appending unescape agree. *)
Lemma str_append_unescaped_eq n dest src : (length src <= n)%nat -> str_append_unescaped dest src = dest ++ str_unescape_loop src.
Proof.
  revert dest src. induction n as [|n IH]; intros dest src Hn; [destruct src; [cbn; by rewrite app_nil_r | cbn in Hn; lia] |].
  destruct src as [|c src]; cbn [str_append_unescaped str_unescape_loop]; [by rewrite app_nil_r |]. cbn [length] in Hn.
  destruct (c =? 92).
  - destruct src as [|c' src]; [by rewrite app_nil_r |]. cbn [length] in Hn. rewrite IH by lia. by rewrite <- app_assoc.
  - rewrite IH by lia. by rewrite <- app_assoc.
Qed.

Lemma str_append_tabunescaped_eq n dest src :
  (length src <= n)%nat -> str_append_tabunescaped dest src = dest ++ str_tabunescape_loop src.
Proof.
  revert dest src. induction n as [|n IH]; intros dest src Hn; [destruct src; [cbn; by rewrite app_nil_r | cbn in Hn; lia] |].
  destruct src as [|c src]; cbn [str_append_tabunescaped str_tabunescape_loop]; [by rewrite app_nil_r |]. cbn [length] in Hn.
  destruct (c =? 1); cbn [negb].
  - destruct src as [|c' src]; [by rewrite app_nil_r |]. cbn [length] in Hn. rewrite IH by lia. by rewrite <- app_assoc.
  - rewrite IH by lia. by rewrite <- app_assoc.
Qed.

Definition tabesc_char (c : Z) : list Z :=
  if c =? 1 then [1; 49] else if c =? 9 then [1; 116] else if c =? 13 then [1; 114] else if c =? 10 then [1; 110] else [c].
Definition tabesc (s : list Z) : list Z := flat_map tabesc_char s.

Lemma str_append_tabescaped_eq dest src : str_append_tabescaped dest src = dest ++ tabesc src.
Proof. revert dest. induction src as [|c src IH]; intros dest; cbn; [by rewrite app_nil_r |]. rewrite IH. by rewrite <- app_assoc. Qed.

Lemma str_tabescape_eq s : str_tabescape s = tabesc s.
Proof.
  assert (Hid : forall a b, forallb (fun c => negb (may_tabescape c)) a = true -> tabesc (a ++ b) = a ++ tabesc b).
  { induction a as [|c a IH]; intros b; [done |]. cbn. intros [Hc Ha]%andb_true_iff. unfold may_tabescape in Hc.
    rewrite IH by done. unfold tabesc_char. zcases; done. }
  unfold str_tabescape. pose proof (span_until_spec may_tabescape s) as H. destruct (span_until may_tabescape s) as [a b].
  destruct H as (-> & Ha & _). rewrite Hid by done. destruct b; [cbn; by rewrite app_nil_r | by rewrite str_append_tabescaped_eq].
Qed.

Lemma str_tabunescape_eq s : str_tabunescape s = str_tabunescape_loop s.
Proof.
  assert (Hid : forall a b, forallb (fun c => negb (c =? 1)) a = true -> str_tabunescape_loop (a ++ b) = a ++ str_tabunescape_loop b).
  { induction a as [|c a IH]; intros b; [done |]. cbn. intros [Hc Ha]%andb_true_iff. rewrite Hc. by rewrite IH. }
  unfold str_tabunescape. pose proof (span_until_spec (fun c => c =? 1) s) as H. destruct (span_until (fun c => c =? 1) s) as [a b].
  destruct H as (-> & Ha & _). rewrite Hid by done. destruct b; [cbn; by rewrite app_nil_r | done].
Qed.

Lemma tabunescape_tabesc s : str_tabunescape_loop (tabesc s) = s.
Proof.
  induction s as [|c s IH]; [done |]. cbn [tabesc flat_map]. fold (tabesc s). unfold tabesc_char.
  destruct (Z.eqb_spec c 1) as [-> | H1]; [cbn; by rewrite IH |]. destruct (Z.eqb_spec c 9) as [-> | H9]; [cbn; by rewrite IH |].
  destruct (Z.eqb_spec c 13) as [-> | H13]; [cbn; by rewrite IH |]. destruct (Z.eqb_spec c 10) as [-> | H10]; [cbn; by rewrite IH |].
  cbn [app str_tabunescape_loop]. rewrite (proj2 (Z.eqb_neq c 1)) by done. cbn [negb]. by rewrite IH.
Qed.

(** What a tab-escaped field never contains: the separators of the protocol. *)
Definition plain (c : Z) : bool := negb ((c =? 9) || (c =? 10) || (c =? 13)).

Lemma tabesc_plain s : forallb plain (tabesc s) = true.
Proof.
  induction s as [|c s IH]; [done |]. cbn [tabesc flat_map]. rewrite forallb_app. fold (tabesc s). rewrite IH, andb_true_r.
  unfold tabesc_char. zcases; cbn; rewrite ?andb_true_r; unfold plain; lia.
Qed.

(** ** Records *)

(** Fields with a tab between them. *)
Fixpoint join_tab (args : list (list Z)) : list Z :=
  match args with
  | [] => []
  | [a] => a
  | a :: args => a ++ 9 :: join_tab args
  end.

Lemma split_str_loop_field fuel a rest cur :
  forallb plain a = true -> (length a + length rest < fuel)%nat ->
  split_str_loop fuel [9] false (a ++ rest) cur = split_str_loop (fuel - length a) [9] false rest (cur ++ a).
Proof.
  revert fuel cur. induction a as [|c a IH]; intros fuel cur Ha Hf; [by rewrite app_nil_r, Nat.sub_0_r |].
  cbn in Ha. apply andb_true_iff in Ha as [Hc Ha]. destruct fuel as [|fuel]; [cbn in Hf; lia |]. cbn [app split_str_loop length Nat.sub].
  replace (is_separator [9] c) with false by (unfold is_separator, plain in *; cbn; lia).
  cbn [length] in Hf. rewrite IH by (done || lia). by rewrite <- app_assoc.
Qed.

Lemma split_str_loop_join fuel args cur :
  args <> [] -> Forall (fun a => forallb plain a = true) args -> (length (join_tab args) < fuel)%nat ->
  split_str_loop fuel [9] false (join_tab args) cur =
  Some (match args with [] => [] | a :: args => (cur ++ a) :: args end).
Proof.
  revert fuel cur. induction args as [|a args IH]; intros fuel cur Hne Hp Hf; [done |].
  apply Forall_cons in Hp as [Ha Hp]. destruct args as [|a' args].
  - cbn [join_tab] in *. rewrite <- (app_nil_r a) at 1. rewrite split_str_loop_field by (done || (cbn; lia)).
    destruct (fuel - length a)%nat eqn:E; [lia |]. done.
  - change (join_tab (a :: a' :: args)) with (a ++ 9 :: join_tab (a' :: args)) in *. rewrite length_app in Hf. cbn [length] in Hf.
    rewrite split_str_loop_field by (done || (cbn [length]; lia)).
    destruct (fuel - length a)%nat as [|n] eqn:E; [lia |]. cbn [split_str_loop]. change (is_separator [9] 9) with true. cbn iota.
    rewrite IH by (done || lia). done.
Qed.

(** Every line can be split. *)
Lemma split_str_loop_total fuel s cur : (length s < fuel)%nat -> is_Some (split_str_loop fuel [9] false s cur).
Proof.
  revert s cur. induction fuel as [|fuel IH]; intros s cur Hf; [lia |]. cbn [split_str_loop]. destruct s as [|c s]; [done |].
  cbn [length] in Hf. destruct (is_separator [9] c); [| apply IH; lia]. by destruct (IH s [] ltac:(lia)) as [args ->].
Qed.

Lemma strsplit_tabescaped_total s : is_Some (t_strsplit_tabescaped s).
Proof.
  unfold t_strsplit_tabescaped, p_strsplit_tabescaped, p_strsplit, split_str. change (at0 [9] 0 =? 0) with false. cbn [negb assert mbind option_bind].
  destruct s as [|c s]; [done |]. by destruct (split_str_loop_total (S (length (c :: s))) (c :: s) [] ltac:(lia)) as [args ->].
Qed.

Lemma strsplit_tabescaped_spec args :
  args <> [] -> args <> [[]] -> t_strsplit_tabescaped (join_tab (map str_tabescape args)) = Some args.
Proof.
  intros Hne Hne1. unfold t_strsplit_tabescaped, p_strsplit_tabescaped, p_strsplit, split_str. cbn [at0 assert]. change (at0 [9] 0 =? 0) with false.
  cbn [negb assert mbind option_bind].
  assert (Hmap : forall l, map str_tabunescape (map str_tabescape l) = l).
  { induction l as [|a l IH]; [done |]. cbn. by rewrite str_tabescape_eq, str_tabunescape_eq, tabunescape_tabesc, IH. }
  destruct (join_tab (map str_tabescape args)) as [|c s] eqn:E.
  - exfalso. destruct args as [|a [|a' args]]; [done | | cbn in E; by destruct (str_tabescape a)].
    cbn in E. apply Hne1. rewrite str_tabescape_eq in E. pose proof (tabunescape_tabesc a) as H. rewrite E in H. cbn in H. by subst.
  - rewrite <- E. rewrite split_str_loop_join.
    + destruct args as [|a args]; [done |]. exact (f_equal Some (Hmap (a :: args))).
    + by destruct args.
    + apply Forall_forall. intros x (a & -> & _)%list_elem_of_fmap. rewrite str_tabescape_eq. apply tabesc_plain.
    + rewrite E. lia.
Qed.

(** A record is one line. *)
Definition no_line_break (c : Z) : bool := negb ((c =? 10) || (c =? 13)).

Lemma plain_no_line_break s : forallb plain s = true -> forallb no_line_break s = true.
Proof.
  intros Hs. apply forallb_forall. intros c Hc. pose proof (proj1 (forallb_forall _ _) Hs c Hc) as H.
  unfold plain in H. unfold no_line_break. lia.
Qed.

Lemma record_no_line_break args : forallb no_line_break (join_tab (map str_tabescape args)) = true.
Proof.
  assert (Hf : forall a, forallb no_line_break (str_tabescape a) = true) by (intros a; rewrite str_tabescape_eq; apply plain_no_line_break, tabesc_plain).
  induction args as [|a args IH]; [done |]. cbn [map]. destruct args as [|b args]; [apply Hf |].
  change (forallb no_line_break (str_tabescape a ++ 9 :: join_tab (map str_tabescape (b :: args))) = true).
  rewrite forallb_app, Hf. exact IH.
Qed.

(** ** Properties *)

(** Fields of any bytes, tab-escaped and joined with tabs, are split into
    exactly the same fields, whatever tabs, line breaks and \001 bytes they
    contain; the only exception is a single empty field, which becomes no
    field at all.  The two unescaping functions agree. *)
Theorem tabescaped_record_roundtrip args :
  args <> [] -> args <> [[]] ->
  t_strsplit_tabescaped (join_tab (map str_tabescape args)) = Some args /\
  Forall (fun a => str_append_tabunescaped [] (str_append_tabescaped [] a) = a) args /\
  Forall (fun a => forallb plain (str_tabescape a) = true) args.
Proof.
  intros H1 H2. split_and!; [by apply strsplit_tabescaped_spec | |].
  - apply Forall_forall. intros a _. rewrite str_append_tabescaped_eq. rewrite (str_append_tabunescaped_eq _ _ _ (le_n _)). apply tabunescape_tabesc.
  - apply Forall_forall. intros a _. rewrite str_tabescape_eq. apply tabesc_plain.
Qed.

Lemma tabescaped_record_roundtrip_witness :
  t_strsplit_tabescaped (join_tab (map str_tabescape [str "user"; [1; 9; 10; 200]; []])) = Some [str "user"; [1; 9; 10; 200]; []].
Proof. apply tabescaped_record_roundtrip; discriminate. Defined.

Lemma unescape_next_loop_spec p acc f rest :
  unescape_next_loop (str_escape_loop p ++ 34 :: rest) acc f =
  Some (acc ++ str_escape_loop p, rest, f || existsb IS_ESCAPED_CHAR p).
Proof.
  revert acc f. induction p as [|c p IH]; intros acc f; cbn [str_escape_loop app existsb].
  - cbn. by rewrite app_nil_r, orb_false_r.
  - destruct (IS_ESCAPED_CHAR c) eqn:E; cbn [app unescape_next_loop].
    + cbn [Z.eqb Pos.eqb]. rewrite IH. rewrite <- app_assoc. cbn. by rewrite orb_true_r.
    + unfold IS_ESCAPED_CHAR in E. rewrite (proj2 (Z.eqb_neq c 34)), (proj2 (Z.eqb_neq c 92)) by lia. rewrite IH.
      rewrite <- app_assoc. by destruct f.
Qed.

Lemma str_escape_loop_id p : existsb IS_ESCAPED_CHAR p = false -> str_escape_loop p = p.
Proof. induction p as [|c p IH]; [done |]. cbn. intros [Hc Hp]%orb_false_iff. rewrite Hc. cbn. by rewrite IH. Qed.

(** Unescaping undoes escaping; an escaped string between quotes is read
    back up to its closing quote, whatever quotes and backslashes it contains
    and whatever follows; and the three unescaping functions agree. *)
Theorem str_escape_roundtrip s rest :
  str_unescape (str_escape s) = s /\ str_append_unescaped [] (str_escape s) = s /\
  str_unescape_next (str_escape s ++ 34 :: rest) = Some (s, rest).
Proof.
  assert (Hun : str_unescape_loop (str_escape_loop s) = s) by (rewrite <- (app_nil_r (str_escape_loop s)), str_unescape_escape_loop; apply app_nil_r).
  rewrite str_escape_eq. split_and!.
  - by rewrite str_unescape_eq.
  - by rewrite (str_append_unescaped_eq _ _ _ (le_n _)).
  - unfold str_unescape_next. rewrite unescape_next_loop_spec. cbn [mbind option_bind app orb].
    destruct (existsb IS_ESCAPED_CHAR s) eqn:E; cbn [negb]; [by rewrite str_unescape_eq, Hun | by rewrite str_escape_loop_id].
Qed.
