(* ===== verification/WildcardMatch.v ===== *)
(** * Wildcard matching (src/src/lib/wildcard-match.c)

    The matcher walks backwards over the string and the mask and remembers one
    position to return to.  Positions are integers, -1 stands before the first
    byte; [None] is a read outside of a string.  The theorem shows that it
    always returns, reads nothing outside and finds a match exactly when there
    is one. *)

From S2P Require Import Prelude.

Notation WILDS := 42%Z.
Notation WILDQ := 63%Z.

(** The byte at a position. *)
Definition byte (s : list Z) (i : Z) : option Z := if i <? 0 then None else s !! Z.to_nat i.

(** [while ((mask >= ma) && ( *mask == WILDS)) mask--], with [mask + 1] as a
    natural number. *)
Fixpoint skip_wilds (mask : list Z) (n : nat) : Z :=
  match n with
  | O => -1
  | S n' => if match mask !! n' with Some c => c =? WILDS | None => false end then skip_wilds mask n' else Z.of_nat n'
  end.

Definition chars_equal (icase : bool) (m c : Z) : bool := if icase then toupper m =? toupper c else m =? c.

(** The state after falling back to the last asterisk: [data], [mask], [lsm],
    [lsn] ([sofar] becomes 0). *)
Definition fall_back (lsm lsn : Z) : Z * Z * option Z * Z :=
  let lsn := lsn - 1 in
  (lsn, lsm, if lsn <? 0 then None else Some lsm, lsn).

(** [na] and [ma] are the strings, [data] and [mask] the positions. *)
Fixpoint wildcard_match_loop (fuel : nat) (na ma : list Z) (icase : bool) (data mask : Z) (lsm : option Z) (lsn mtch sofar : Z)
    : option Z :=
  match fuel with
  | O => None
  | S fuel =>
      if data <? 0 then
        Some (if skip_wilds ma (Z.to_nat (mask + 1)) >=? 0 then 0 else mtch + sofar)
      else
        match (if mask <? 0 then match lsm with Some l => Some (fall_back l lsn, 0) | None => None end
               else Some (data, mask, lsm, lsn, sofar)) with
        | None => Some 0
        | Some (data, mask, lsm, lsn, sofar) =>
            m ← byte ma mask;
            if m =? WILDS then
              let mask := skip_wilds ma (Z.to_nat mask) in
              if mask <? 0 then Some (mtch + sofar)
              else wildcard_match_loop fuel na ma icase data mask (Some mask) data (mtch + sofar) 0
            else if m =? WILDQ then wildcard_match_loop fuel na ma icase (data - 1) (mask - 1) lsm lsn mtch sofar
            else
              c ← byte na data;
              if chars_equal icase m c then wildcard_match_loop fuel na ma icase (data - 1) (mask - 1) lsm lsn mtch (sofar + 1)
              else
                match lsm with
                | Some l => let '(data, mask, lsm, lsn) := fall_back l lsn in wildcard_match_loop fuel na ma icase data mask lsm lsn mtch 0
                | None => Some 0
                end
        end
  end.

Fixpoint skip_leading_wilds (ma : list Z) : list Z :=
  match ma with
  | c :: ma' => if c =? WILDS then skip_leading_wilds ma' else ma
  | [] => []
  end.

Definition wildcard_fuel (na ma : list Z) : nat := (length ma + 2) * (length ma + length na + 4).

(** The searches for the ends of the strings start behind their first bytes:
    an empty mask is read behind its end. *)
Definition wildcard_match_int (na ma : list Z) (icase : bool) : option Z :=
  match na with
  | [] => Some (match skip_leading_wilds ma with [] => 1 | _ => 0 end)
  | _ =>
      match ma with
      | [] => None
      | _ => wildcard_match_loop (wildcard_fuel na ma) na ma icase (Z.of_nat (length na) - 1) (Z.of_nat (length ma) - 1) None 0 1 0
      end
  end.

Definition wildcard_match (data mask : list Z) : option bool := r ← wildcard_match_int data mask false; Some (negb (r =? 0)).
Definition wildcard_match_icase (data mask : list Z) : option bool := r ← wildcard_match_int data mask true; Some (negb (r =? 0)).

(** ** Reference: what a mask matches *)

Section Reference.
Variable eqc : Z -> Z -> bool.

Inductive matches : list Z -> list Z -> Prop :=
| M_nil : matches [] []
| M_star m d1 d2 : matches m d2 -> matches (WILDS :: m) (d1 ++ d2)
| M_quest m x d : matches m d -> matches (WILDQ :: m) (x :: d)
| M_char m c x d : c <> WILDS -> c <> WILDQ -> eqc c x = true -> matches m d -> matches (c :: m) (x :: d).

Lemma matches_app m1 m2 d : matches (m1 ++ m2) d <-> exists d1 d2, d = d1 ++ d2 /\ matches m1 d1 /\ matches m2 d2.
Proof.
  split.
  - revert d. induction m1 as [|c m1 IH]; intros d H; [exists [], d; splits; [done | constructor | done] |].
    cbn in H. inversion H as [| m e1 e2 Hm | m x e Hm | m c' x e Hs Hq Hc Hm]; subst; destruct (IH _ Hm) as (d1 & d2 & -> & H1 & H2).
    + exists (e1 ++ d1), d2. splits; [by rewrite app_assoc | by constructor | done].
    + exists (x :: d1), d2. splits; [done | by constructor | done].
    + exists (x :: d1), d2. splits; [done | by constructor | done].
  - intros (d1 & d2 & -> & H1 & H2). induction H1; cbn; [done | rewrite <- app_assoc; by constructor | by constructor | by constructor].
Qed.

Lemma matches_nil d : matches [] d <-> d = [].
Proof. split; [by inversion 1 | intros ->; constructor]. Qed.

Lemma matches_one_star d : matches [WILDS] d.
Proof. rewrite <- (app_nil_r d). constructor. constructor. Qed.

Lemma matches_one_quest d : matches [WILDQ] d <-> exists x, d = [x].
Proof.
  split.
  - inversion 1 as [| | m x e Hm | m c x e Hs Hq]; subst; [| done]. apply matches_nil in Hm as ->. by exists x.
  - intros [x ->]. constructor. constructor.
Qed.

Lemma matches_one_char c d : c <> WILDS -> c <> WILDQ -> matches [c] d <-> exists x, d = [x] /\ eqc c x = true.
Proof.
  intros Hs Hq. split.
  - inversion 1 as [| | | m c' x e _ _ Hc Hm]; subst; try done. apply matches_nil in Hm as ->. by exists x.
  - intros (x & -> & Hx). constructor; [done | done | done |]. constructor.
Qed.

(** ** Prefixes of the mask and of the data *)

Variables na ma : list Z.

(** The first [n] bytes of the mask match the first [k] of the data. *)
Definition pm (n k : nat) : Prop := matches (take n ma) (take k na).

Lemma pm_zero k : (k <= length na)%nat -> pm 0 k <-> k = 0%nat.
Proof.
  intros Hk. unfold pm. rewrite matches_nil. split; [| by intros ->]. intros E. apply (f_equal length) in E. rewrite length_take in E. cbn in E. lia.
Qed.

Lemma take_split k d1 d2 : take k na = d1 ++ d2 -> (k <= length na)%nat -> d1 = take (length d1) na /\ (length d1 + length d2 = k)%nat.
Proof.
  intros E Hk. pose proof (f_equal length E) as Hl. rewrite length_take, length_app in Hl. split; [| lia].
  apply (f_equal (take (length d1))) in E. rewrite take_take, take_app_length in E. by replace (length d1 `min` k)%nat with (length d1) in E by lia.
Qed.

Lemma pm_star n k : ma !! n = Some WILDS -> (k <= length na)%nat -> pm (S n) k <-> exists j, (j <= k)%nat /\ pm n j.
Proof.
  intros Hc Hk. unfold pm. rewrite (take_S_r _ _ _ Hc), matches_app. split.
  - intros (d1 & d2 & E & H1 & _). destruct (take_split _ _ _ E Hk) as [Hd Hl]. exists (length d1). split; [lia | by rewrite <- Hd].
  - intros (j & Hj & H). exists (take j na), (drop j (take k na)). splits; [| done | apply matches_one_star].
    rewrite <- (take_drop j (take k na)) at 1. rewrite take_take. by replace (j `min` k)%nat with j by lia.
Qed.

Lemma pm_one n k c :
  ma !! n = Some c -> c <> WILDS -> (k <= length na)%nat ->
  pm (S n) k <-> exists j x, k = S j /\ na !! j = Some x /\ (c = WILDQ \/ eqc c x = true) /\ pm n j.
Proof.
  intros Hc Hs Hk. unfold pm. rewrite (take_S_r _ _ _ Hc), matches_app.
  assert (Hone : forall d, matches [c] d <-> exists x, d = [x] /\ (c = WILDQ \/ eqc c x = true)).
  { intros d. destruct (decide (c = WILDQ)) as [-> | Hq]; [rewrite matches_one_quest; naive_solver | rewrite matches_one_char by done; naive_solver]. }
  setoid_rewrite Hone. split.
  - intros (d1 & d2 & E & H1 & x & -> & Hx). destruct (take_split _ _ _ E Hk) as [Hd Hl]. cbn in Hl. exists (length d1), x.
    splits; [lia | | done | by rewrite <- Hd]. apply (f_equal (fun l => l !! length d1)) in E. rewrite list_lookup_middle in E by done.
    rewrite lookup_take_lt in E by lia. done.
  - intros (j & x & -> & Hx & Hq & H). exists (take j na), [x]. splits; [by apply take_S_r | done | by exists x].
Qed.
End Reference.

(** ** The loop *)

Section Loop.
Variables (na ma : list Z) (icase : bool).
Notation pm := (pm (chars_equal icase) na ma).

(** [skip_wilds] stands behind the asterisks. *)
Lemma skip_wilds_spec n :
  (n <= length ma)%nat ->
  exists k, skip_wilds ma n = Z.of_nat k - 1 /\ (k <= n)%nat /\ (forall i, (k <= i < n)%nat -> ma !! i = Some WILDS) /\
    (forall j c, k = S j -> ma !! j = Some c -> c <> WILDS).
Proof.
  induction n as [|n IH]; intros Hn; [exists 0%nat; splits; [done | lia | lia | done] |]. cbn [skip_wilds].
  destruct (lookup_lt_is_Some_2 ma n) as [c Hc]; [lia |]. rewrite Hc. destruct (Z.eqb_spec c WILDS) as [-> | Hne].
  - destruct IH as (k & -> & Hk & Hall & Hlast); [lia |]. exists k. splits; [done | lia | | done].
    intros i Hi. destruct (decide (i = n)) as [-> |]; [done | apply Hall; lia].
  - exists (S n). splits; [lia | lia | intros; lia |]. intros j c' [= <-] Hc'. congruence.
Qed.

Lemma pm_stars k n d :
  (forall i, (k <= i < n)%nat -> ma !! i = Some WILDS) -> (k < n)%nat -> (d <= length na)%nat -> pm n d <-> exists j, (j <= d)%nat /\ pm k j.
Proof.
  revert d. induction n as [|n IH]; intros d Hall Hk Hd; [lia |]. rewrite (pm_star _ _ _ n d) by (done || apply Hall; lia).
  destruct (decide (k = n)) as [-> | Hne]; [done |]. split.
  - intros (j & Hj & H). apply IH in H as (i & Hi & H); [| intros; apply Hall; lia | lia | lia]. exists i. split; [lia | done].
  - intros (j & Hj & H). exists d. split; [done |]. apply IH; [intros; apply Hall; lia | lia | lia | by exists j].
Qed.

(** A part of the mask without asterisks takes as many bytes. *)
Lemma pm_segment n k d :
  (n + k <= length ma)%nat -> (d <= length na)%nat -> (forall i c, (n <= i < n + k)%nat -> ma !! i = Some c -> c <> WILDS) ->
  pm (n + k)%nat d -> exists j, d = (j + k)%nat /\ pm n j.
Proof.
  revert d. induction k as [|k IH]; intros d Hl Hd Hns H; [exists d; rewrite Nat.add_0_r in *; done |].
  assert (exists c, ma !! (n + k)%nat = Some c) as [c Hc] by (apply lookup_lt_is_Some_2; lia). rewrite Nat.add_succ_r in H.
  assert (Hcs : c <> WILDS) by (apply (Hns (n + k)%nat c); [lia | done]).
  destruct (proj1 (pm_one _ _ _ (n + k)%nat d c Hc Hcs Hd) H) as (j & x & -> & _ & _ & Hj).
  destruct (IH j) as (i & -> & Hi); [lia | lia | intros i c' Hi Hc'; apply (Hns i c'); [lia | done] | done |]. exists i. split; [lia | done].
Qed.

(** The positions to return to: the last asterisk and where the data was then,
    both before the next byte. *)
Definition fallback_ok (nd nm : nat) (lsm : option Z) (lsn : Z) : Prop :=
  match lsm with
  | None => True
  | Some l => exists nl nn, l = Z.of_nat nl - 1 /\ lsn = Z.of_nat nn - 1 /\ (nm <= nl <= length ma)%nat /\ (0 < nl)%nat /\
      (nn <= length na)%nat /\ (nm + nn = nl + nd)%nat /\ (forall i c, (nm <= i < nl)%nat -> ma !! i = Some c -> c <> WILDS)
  end.

Definition fallback_match (lsm : option Z) (lsn : Z) : Prop :=
  match lsm with
  | None => False
  | Some l => exists k, Z.of_nat k < lsn + 1 /\ pm (Z.to_nat (l + 1)) k
  end.

Definition loop_measure (nd nm : nat) (lsm : option Z) (lsn : Z) : nat :=
  match nd with
  | O => 0
  | _ => match lsm with
         | None => length ma + length na + 2
         | Some l => Z.to_nat (l + 1) + Z.to_nat (lsn + 1)
         end * (length ma + 1) + nm
  end.

(** What the loop has to return. *)
Definition loop_result (nd nm : nat) (lsm : option Z) (lsn : Z) (r : option Z) : Prop :=
  exists n, r = Some n /\ (n <> 0 <-> pm nm nd \/ fallback_match lsm lsn).

(** The part of a round behind the test of [mask < ma]. *)
Definition loop_switch (fuel : nat) (data mask : Z) (lsm : option Z) (lsn mtch sofar : Z) : option Z :=
  m ← byte ma mask;
  if m =? WILDS then
    let mask := skip_wilds ma (Z.to_nat mask) in
    if mask <? 0 then Some (mtch + sofar)
    else wildcard_match_loop fuel na ma icase data mask (Some mask) data (mtch + sofar) 0
  else if m =? WILDQ then wildcard_match_loop fuel na ma icase (data - 1) (mask - 1) lsm lsn mtch sofar
  else
    c ← byte na data;
    if chars_equal icase m c then wildcard_match_loop fuel na ma icase (data - 1) (mask - 1) lsm lsn mtch (sofar + 1)
    else
      match lsm with
      | Some l => let '(data, mask, lsm, lsn) := fall_back l lsn in wildcard_match_loop fuel na ma icase data mask lsm lsn mtch 0
      | None => Some 0
      end.

Lemma byte_nat (s : list Z) n : byte s (Z.of_nat (S n) - 1) = s !! n.
Proof. unfold byte. rewrite (proj2 (Z.ltb_ge _ _)) by lia. f_equal. lia. Qed.

Definition loop_spec (fuel : nat) : Prop := forall nd nm lsm lsn mtch sofar,
  (nd <= length na)%nat -> (nm <= length ma)%nat -> fallback_ok nd nm lsm lsn -> 1 <= mtch -> 0 <= sofar ->
  (loop_measure nd nm lsm lsn < fuel)%nat ->
  loop_result nd nm lsm lsn (wildcard_match_loop fuel na ma icase (Z.of_nat nd - 1) (Z.of_nat nm - 1) lsm lsn mtch sofar).

(** One more byte of the segment behind the last asterisk. *)
Lemma fallback_next nd nm lsm lsn c :
  ma !! nm = Some c -> c <> WILDS -> fallback_ok (S nd) (S nm) lsm lsn -> fallback_ok nd nm lsm lsn.
Proof.
  intros Hc Hs. destruct lsm as [l|]; [| done]. intros (nl & nn & -> & -> & H1 & H2 & H3 & H4 & H5). exists nl, nn.
  splits; try done; try lia. intros i c' Hi Hc'. destruct (decide (i = nm)) as [-> |]; [congruence | by apply (H5 i c'); [lia |]].
Qed.

(** At an asterisk the earlier one is not needed any more. *)
Lemma fallback_subsumed nd nm lsm lsn :
  ma !! nm = Some WILDS -> (S nd <= length na)%nat -> fallback_ok (S nd) (S nm) lsm lsn -> fallback_match lsm lsn -> pm (S nm) (S nd).
Proof.
  intros Hc Hd. destruct lsm as [l|]; [| done]. intros (nl & nn & -> & -> & H1 & H2 & H3 & H4 & H5) (k & Hk & H).
  replace (Z.to_nat (Z.of_nat nl - 1 + 1)) with (S nm + (nl - S nm))%nat in H by lia.
  apply pm_segment in H as (j & -> & Hj); [| lia | lia | intros i c Hi; apply H5; lia].
  apply (pm_star _ _ _ nm (S nd) Hc Hd). apply (pm_star _ _ _ nm j Hc) in Hj as (i & Hi & H); [| lia]. exists i. split; [lia | done].
Qed.

(** Falling back. *)
Lemma fall_back_spec fuel nd nm l lsn mtch :
  loop_spec fuel -> fallback_ok (S nd) nm (Some l) lsn -> 1 <= mtch -> (loop_measure (S nd) nm (Some l) lsn <= fuel)%nat -> (0 < fuel)%nat ->
  exists n, (let '(data, mask, lsm, lsn) := fall_back l lsn in wildcard_match_loop fuel na ma icase data mask lsm lsn mtch 0) = Some n /\
    (n <> 0 <-> fallback_match (Some l) lsn).
Proof.
  intros IH (nl & nn & -> & -> & H1 & H2 & H3 & H4 & H5) Hm Hf Hf0. unfold fall_back.
  destruct nn as [|nn]; [lia |]. replace (Z.of_nat (S nn) - 1 - 1) with (Z.of_nat nn - 1) by lia. unfold fallback_match.
  replace (Z.to_nat (Z.of_nat nl - 1 + 1)) with nl by lia. destruct nn as [|nn].
  - change (Z.of_nat 0 - 1 <? 0) with true. cbn iota. destruct (IH 0%nat nl None (Z.of_nat 0 - 1) mtch 0) as (n & -> & Hn); [lia | lia | done | done | lia | cbn; lia |].
    exists n. split; [done |]. rewrite Hn. split; [intros [H | []]; exists 0%nat; split; [lia | done] | intros (k & Hk & H); left].
    by replace 0%nat with k by lia.
  - rewrite (proj2 (Z.ltb_ge (Z.of_nat (S nn) - 1) 0)) by lia.
    destruct (IH (S nn) nl (Some (Z.of_nat nl - 1)) (Z.of_nat (S nn) - 1) mtch 0) as (n & -> & Hn); [lia | lia | | done | lia | |].
    + exists nl, (S nn). splits; (done || lia || (intros; lia)).
    + unfold loop_measure in *. replace (Z.to_nat (Z.of_nat nl - 1 + 1)) with nl in * by lia.
      replace (Z.to_nat (Z.of_nat (S nn) - 1 + 1)) with (S nn) by lia. replace (Z.to_nat (Z.of_nat (S (S nn)) - 1 + 1)) with (S (S nn)) in Hf by lia. nia.
    + exists n. split; [done |]. rewrite Hn. unfold fallback_match. replace (Z.to_nat (Z.of_nat nl - 1 + 1)) with nl by lia. split.
      * intros [H | (k & Hk & H)]; [exists (S nn) | exists k]; (split; [lia | done]).
      * intros (k & Hk & H). destruct (decide (k = S nn)) as [-> |]; [by left | right; exists k; split; [lia | done]].
Qed.

Lemma measure_next nd nm lsm lsn fuel :
  (loop_measure (S nd) (S nm) lsm lsn <= fuel)%nat -> (loop_measure nd nm lsm lsn < fuel)%nat.
Proof. unfold loop_measure. destruct nd; [lia |]. lia. Qed.

(** The bytes are compared. *)
Lemma switch_char fuel nd nm lsm lsn mtch sofar c :
  loop_spec fuel -> ma !! nm = Some c -> c <> WILDS -> (S nd <= length na)%nat -> (S nm <= length ma)%nat ->
  fallback_ok (S nd) (S nm) lsm lsn -> 1 <= mtch -> 0 <= sofar -> (loop_measure (S nd) (S nm) lsm lsn <= fuel)%nat ->
  loop_result (S nd) (S nm) lsm lsn (loop_switch fuel (Z.of_nat (S nd) - 1) (Z.of_nat (S nm) - 1) lsm lsn mtch sofar).
Proof.
  intros IH Hc Hs Hd Hm Hok Hmt Hso Hf. unfold loop_switch. rewrite (byte_nat ma nm), Hc. cbn [mbind option_bind]. rewrite (proj2 (Z.eqb_neq c WILDS)) by done.
  pose proof (pm_one (chars_equal icase) na ma nm (S nd) c Hc Hs Hd) as Hone. pose proof (measure_next _ _ _ _ _ Hf) as Hnext.
  pose proof (fallback_next _ _ _ _ _ Hc Hs Hok) as Hok'.
  destruct (lookup_lt_is_Some_2 na nd) as [x Hx]; [lia |].
  replace (Z.of_nat (S nd) - 1 - 1) with (Z.of_nat nd - 1) by lia. replace (Z.of_nat (S nm) - 1 - 1) with (Z.of_nat nm - 1) by lia.
  assert (Hstep : (c = WILDQ \/ chars_equal icase c x = true) -> forall sofar, 0 <= sofar ->
    loop_result (S nd) (S nm) lsm lsn (wildcard_match_loop fuel na ma icase (Z.of_nat nd - 1) (Z.of_nat nm - 1) lsm lsn mtch sofar)).
  { intros Hcx so Hso'. destruct (IH nd nm lsm lsn mtch so) as (n & -> & Hn); [lia | lia | done | done | done | done |].
    exists n. split; [done |]. rewrite Hn, Hone. assert (Heq : pm nm nd <-> exists j y, S nd = S j /\ na !! j = Some y /\ (c = WILDQ \/ chars_equal icase c y = true) /\ pm nm j); [| by rewrite Heq].
    split; [intros H; by exists nd, x | intros (j & y & [= <-] & _ & _ & H); done]. }
  destruct (Z.eqb_spec c WILDQ) as [-> | Hq]; [apply Hstep; [by left | done] |].
  rewrite (byte_nat na nd), Hx. cbn [mbind option_bind]. destruct (chars_equal icase c x) eqn:Hcx; [apply Hstep; [by right | lia] |].
  assert (Hno : ~ pm (S nm) (S nd)) by (rewrite Hone; intros (j & y & [= <-] & Hy & [? | ?] & _); congruence).
  destruct lsm as [l|]; [| exists 0; split; [done |]; cbn; tauto].
  destruct (fall_back_spec fuel nd (S nm) l lsn mtch IH Hok Hmt Hf) as (n & -> & Hn); [lia |]. exists n. split; [done |]. tauto.
Qed.

Lemma switch_star fuel nd nm lsm lsn mtch sofar :
  loop_spec fuel -> ma !! nm = Some WILDS -> (S nd <= length na)%nat -> (S nm <= length ma)%nat ->
  fallback_ok (S nd) (S nm) lsm lsn -> 1 <= mtch -> 0 <= sofar -> (loop_measure (S nd) (S nm) lsm lsn <= fuel)%nat ->
  loop_result (S nd) (S nm) lsm lsn (loop_switch fuel (Z.of_nat (S nd) - 1) (Z.of_nat (S nm) - 1) lsm lsn mtch sofar).
Proof.
  intros IH Hc Hd Hm Hok Hmt Hso Hf. unfold loop_switch. rewrite (byte_nat ma nm), Hc. cbn [mbind option_bind]. change (WILDS =? WILDS) with true. cbn iota.
  replace (Z.to_nat (Z.of_nat (S nm) - 1)) with nm by lia. destruct (skip_wilds_spec nm) as (k & -> & Hk & Hall & Hlast); [lia |].
  assert (Hstars : pm (S nm) (S nd) <-> exists j, (j <= S nd)%nat /\ pm k j).
  { apply pm_stars; [| lia | done]. intros i Hi. destruct (decide (i = nm)) as [-> |]; [done | apply Hall; lia]. }
  assert (Hsub : pm (S nm) (S nd) \/ fallback_match lsm lsn <-> pm (S nm) (S nd)).
  { split; [| by left]. intros [H | H]; [done | by apply (fallback_subsumed nd nm lsm lsn)]. }
  unfold loop_result. setoid_rewrite Hsub. setoid_rewrite Hstars. destruct k as [|k].
  - change (Z.of_nat 0 - 1 <? 0) with true. cbn iota. exists (mtch + sofar). split; [done |]. split; [| lia].
    intros _. exists 0%nat. split; [lia |]. by apply pm_zero; [lia |].
  - rewrite (proj2 (Z.ltb_ge _ _)) by lia.
    destruct (IH (S nd) (S k) (Some (Z.of_nat (S k) - 1)) (Z.of_nat (S nd) - 1) (mtch + sofar) 0) as (n & -> & Hn); [lia | lia | | lia | lia | |].
    + exists (S k), (S nd). splits; (done || lia || (intros; lia)).
    + unfold loop_measure in *. replace (Z.to_nat (Z.of_nat (S k) - 1 + 1)) with (S k) by lia. replace (Z.to_nat (Z.of_nat (S nd) - 1 + 1)) with (S nd) by lia.
      destruct lsm as [l|]; [| nia]. destruct Hok as (nl & nn & -> & -> & H1 & H2 & H3 & H4 & _).
      replace (Z.to_nat (Z.of_nat nl - 1 + 1)) with nl in Hf by lia. replace (Z.to_nat (Z.of_nat nn - 1 + 1)) with nn in Hf by lia. nia.
    + exists n. split; [done |]. rewrite Hn. unfold fallback_match. replace (Z.to_nat (Z.of_nat (S k) - 1 + 1)) with (S k) by lia. split.
      * intros [H | (j & Hj & H)]; [exists (S nd) | exists j]; (split; [lia | done]).
      * intros (j & Hj & H). destruct (decide (j = S nd)) as [-> |]; [by left | right; exists j; split; [lia | done]].
Qed.

Lemma switch_spec fuel nd nm lsm lsn mtch sofar :
  loop_spec fuel -> (S nd <= length na)%nat -> (S nm <= length ma)%nat ->
  fallback_ok (S nd) (S nm) lsm lsn -> 1 <= mtch -> 0 <= sofar -> (loop_measure (S nd) (S nm) lsm lsn <= fuel)%nat ->
  loop_result (S nd) (S nm) lsm lsn (loop_switch fuel (Z.of_nat (S nd) - 1) (Z.of_nat (S nm) - 1) lsm lsn mtch sofar).
Proof.
  intros IH Hd Hm Hok Hmt Hso Hf. destruct (lookup_lt_is_Some_2 ma nm) as [c Hc]; [lia |].
  destruct (decide (c = WILDS)) as [-> | Hs]; [by apply switch_star | by apply (switch_char _ _ _ _ _ _ _ c)].
Qed.

(** The data has run out. *)
Lemma loop_exit nm lsm lsn mtch sofar :
  (nm <= length ma)%nat -> fallback_ok 0 nm lsm lsn -> 1 <= mtch -> 0 <= sofar ->
  loop_result 0 nm lsm lsn (Some (if skip_wilds ma nm >=? 0 then 0 else mtch + sofar)).
Proof.
  intros Hm Hok Hmt Hso. eexists. split; [done |].
  destruct (skip_wilds_spec nm Hm) as (k & -> & Hk & Hall & Hlast).
  assert (Hfb : ~ fallback_match lsm lsn).
  { destruct lsm as [l|]; [| by intros []]. destruct Hok as (nl & nn & -> & -> & H1 & H2 & H3 & H4 & H5). intros (j & Hj & H).
    replace (Z.to_nat (Z.of_nat nl - 1 + 1)) with (nm + (nl - nm))%nat in H by lia.
    apply pm_segment in H as (i & -> & _); [lia | lia | lia | intros i c Hi; apply H5; lia]. }
  assert (Hk0 : pm nm 0 <-> k = 0%nat).
  { assert (Hpk : pm nm 0 <-> pm k 0).
    { destruct (decide (k = nm)) as [-> |]; [done |]. rewrite (pm_stars k nm 0) by (done || lia).
      split; [intros (j & Hj & H); by replace 0%nat with j by lia | intros H; by exists 0%nat]. }
    rewrite Hpk. destruct k as [|k]; [split; [done | intros _; by apply pm_zero; [lia |]] |]. split; [| done]. intros H.
    destruct (lookup_lt_is_Some_2 ma k) as [c Hc]; [lia |].
    destruct (proj1 (pm_one _ _ _ k 0 c Hc (Hlast k c eq_refl Hc) ltac:(lia)) H) as (j & x & ? & _). lia. }
  rewrite Hk0. destruct k as [|k]; [change (Z.of_nat 0 - 1 >=? 0) with false; cbn iota; split; [by left | lia] |].
  rewrite Z.geb_leb, (proj2 (Z.leb_le _ _)) by lia. split; [done | intros [? | ?]; [lia | done]].
Qed.

Lemma loop_correct fuel : loop_spec fuel.
Proof.
  induction fuel as [|fuel IH]; intros nd nm lsm lsn mtch sofar Hd Hm Hok Hmt Hso Hf; [lia |].
  assert (Heq : wildcard_match_loop (S fuel) na ma icase (Z.of_nat nd - 1) (Z.of_nat nm - 1) lsm lsn mtch sofar =
    if Z.of_nat nd - 1 <? 0 then Some (if skip_wilds ma (Z.to_nat (Z.of_nat nm - 1 + 1)) >=? 0 then 0 else mtch + sofar)
    else if Z.of_nat nm - 1 <? 0 then
      match lsm with Some l => let '(data, mask, lsm, lsn) := fall_back l lsn in loop_switch fuel data mask lsm lsn mtch 0 | None => Some 0 end
    else loop_switch fuel (Z.of_nat nd - 1) (Z.of_nat nm - 1) lsm lsn mtch sofar).
  { cbn [wildcard_match_loop]. destruct (_ <? 0); [done |]. destruct (_ <? 0); [| done]. by destruct lsm. }
  rewrite Heq. clear Heq. destruct nd as [|nd].
  - change (Z.of_nat 0 - 1 <? 0) with true. cbn iota. replace (Z.to_nat (Z.of_nat nm - 1 + 1)) with nm by lia. by apply loop_exit.
  - rewrite (proj2 (Z.ltb_ge (Z.of_nat (S nd) - 1) 0)) by lia. destruct nm as [|nm].
    + change (Z.of_nat 0 - 1 <? 0) with true. cbn iota. assert (Hno : ~ pm 0 (S nd)) by (rewrite pm_zero by done; lia).
      destruct lsm as [l|]; [| exists 0; split; [done |]; cbn; tauto].
      pose proof Hok as (nl & nn & -> & -> & H1 & H2 & H3 & H4 & H5). unfold fall_back.
      destruct nn as [|[|nn]]; [lia | lia |]. replace (Z.of_nat (S (S nn)) - 1 - 1) with (Z.of_nat (S nn) - 1) by lia.
      rewrite (proj2 (Z.ltb_ge (Z.of_nat (S nn) - 1) 0)) by lia. destruct nl as [|nl]; [lia |].
      destruct (switch_spec fuel nn nl (Some (Z.of_nat (S nl) - 1)) (Z.of_nat (S nn) - 1) mtch 0) as (n & -> & Hn); [done | lia | lia | | done | lia | |].
      * exists (S nl), (S nn). splits; (done || lia || (intros; lia)).
      * unfold loop_measure in *. replace (Z.to_nat (Z.of_nat (S nl) - 1 + 1)) with (S nl) in * by lia.
        replace (Z.to_nat (Z.of_nat (S nn) - 1 + 1)) with (S nn) by lia. replace (Z.to_nat (Z.of_nat (S (S nn)) - 1 + 1)) with (S (S nn)) in Hf by lia. nia.
      * exists n. split; [done |]. rewrite Hn. unfold fallback_match. replace (Z.to_nat (Z.of_nat (S nl) - 1 + 1)) with (S nl) by lia. split.
        -- intros [H | (k & Hk & H)]; right; [exists (S nn) | exists k]; (split; [lia | done]).
        -- intros [H | (k & Hk & H)]; [done |]. destruct (decide (k = S nn)) as [-> |]; [by left | right; exists k; split; [lia | done]].
    + rewrite (proj2 (Z.ltb_ge (Z.of_nat (S nm) - 1) 0)) by lia. apply switch_spec; (done || lia).
Qed.
End Loop.

Lemma skip_leading_spec eqc ma : skip_leading_wilds ma = [] <-> matches eqc ma [].
Proof.
  induction ma as [|c ma IH]; [by rewrite matches_nil |]. cbn [skip_leading_wilds]. destruct (Z.eqb_spec c WILDS) as [-> | Hs].
  - rewrite IH. split; [apply (M_star eqc ma [] []) |]. intros H. inversion H as [| m d1 d2 Hm Hc Hd | |]; subst. by destruct d1, d2.
  - split; [done |]. inversion 1; by subst.
Qed.

(** ** Properties *)

Lemma wildcard_match_spec data mask (icase : bool) :
  data = [] \/ mask <> [] ->
  exists b, (if icase then wildcard_match_icase data mask else wildcard_match data mask) = Some b /\
    (b = true <-> matches (chars_equal icase) mask data).
Proof.
  intros Hne. assert (Hint : exists n, wildcard_match_int data mask icase = Some n /\ (n <> 0 <-> matches (chars_equal icase) mask data)).
  { unfold wildcard_match_int. destruct data as [|x data].
    - eexists. split; [done |]. rewrite <- skip_leading_spec. by destruct (skip_leading_wilds mask).
    - destruct mask as [|c mask]; [by destruct Hne |].
      destruct (loop_correct (x :: data) (c :: mask) icase (wildcard_fuel (x :: data) (c :: mask)) (length (x :: data)) (length (c :: mask)) None 0 1 0)
        as (n & Heq & Hn); [lia | lia | done | lia | lia | |].
      + unfold loop_measure, wildcard_fuel. cbn [length]. nia.
      + exists n. split; [exact Heq |]. rewrite Hn. cbn [fallback_match]. unfold pm. rewrite !firstn_all. tauto. }
  destruct Hint as (n & Heq & Hn). exists (negb (n =? 0)).
  split; [unfold wildcard_match, wildcard_match_icase; destruct icase; by rewrite Heq |]. rewrite <- Hn. destruct (Z.eqb_spec n 0); cbn; naive_solver.
Qed.

(** C17: the matcher returns for every string and every mask but the empty one,
    reads nothing outside of them, and answers TRUE exactly when the mask
    matches: "*" any bytes, "?" one byte, any other byte itself, with or without
    regard to case.  Falling back only to the last asterisk loses no match. *)
Theorem wildcard_match_correct data mask (icase : bool) :
  data = [] \/ mask <> [] ->
  exists b, (if icase then wildcard_match_icase data mask else wildcard_match data mask) = Some b /\
    (b = true <-> matches (chars_equal icase) mask data).
Proof. exact (wildcard_match_spec data mask icase). Qed.

Lemma wildcard_match_correct_witness :
  exists b, wildcard_match (str "abacab") (str "*a?a*b") = Some b /\ (b = true <-> matches (chars_equal false) (str "*a?a*b") (str "abacab")).
Proof. apply (wildcard_match_correct (str "abacab") (str "*a?a*b") false). by right. Defined.

(** An empty mask is read behind its end whenever the string is not empty. *)
Theorem wildcard_match_empty_mask c data : wildcard_match (c :: data) [] = None.
Proof. reflexivity. Qed.
