(* ===== verification/Priorityq.v ===== *)
(** * Priority queues (src/src/lib/priorityq.c)

    A binary heap in an array of pointers to items, each of which stores its
    own position.  An item is an address; [pq_items] is the array and [pq_idx]
    holds the [idx] field of every item.  The comparison callback is a
    parameter, with the order it has to define as a class.  Array indices are
    natural numbers: an array of pointers cannot reach the size where twice an
    index overflows an unsigned int before memory is exhausted. *)

From stdpp Require Import gmap.
From S2P Require Import Prelude.

(** ** The code *)

Section Code.
Context {P : Type} `{Countable P}.

Record priorityq := PQ { pq_items : list P; pq_idx : gmap P Z }.

Definition PARENT_IDX (idx : nat) : nat := ((idx - 1) / 2)%nat.
Definition LEFT_CHILD_IDX (idx : nat) : nat := (idx * 2 + 1)%nat.
Definition RIGHT_CHILD_IDX (idx : nat) : nat := (idx * 2 + 2)%nat.

Definition priorityq_init : priorityq := PQ [] ∅.

Definition priorityq_count (pq : priorityq) : nat := length (pq_items pq).

(** The assertion that an item stores its position. *)
Definition idx_is (pq : priorityq) (item : P) (idx : nat) : bool :=
  bool_decide (pq_idx pq !! item = Some (Z.of_nat idx)).

Definition heap_items_swap (pq : priorityq) (idx1 idx2 : nat) : option priorityq :=
  item1 ← pq_items pq !! idx1;
  item2 ← pq_items pq !! idx2;
  _ ← assert (idx_is pq item1 idx1);
  _ ← assert (idx_is pq item2 idx2);
  Some (PQ (<[idx2 := item1]> (<[idx1 := item2]> (pq_items pq)))
           (<[item2 := Z.of_nat idx1]> (<[item1 := Z.of_nat idx2]> (pq_idx pq)))).

(** [pq->cmp_callback]. *)
Variable cmp_callback : P -> P -> Z.

Fixpoint heap_item_bubble_up (fuel : nat) (pq : priorityq) (idx : nat) : option (priorityq * nat) :=
  match fuel with
  | O => None
  | S fuel =>
      if (0 <? idx)%nat then
        let parent_idx := PARENT_IDX idx in
        _ ← assert (idx <? length (pq_items pq))%nat;
        item ← pq_items pq !! idx;
        parent ← pq_items pq !! parent_idx;
        if cmp_callback item parent >=? 0 then Some (pq, idx)
        else pq ← heap_items_swap pq idx parent_idx; heap_item_bubble_up fuel pq parent_idx
      else Some (pq, idx)
  end.

Fixpoint heap_item_bubble_down (fuel : nat) (pq : priorityq) (idx : nat) : option priorityq :=
  match fuel with
  | O => None
  | S fuel =>
      let count := length (pq_items pq) in
      let left_idx := LEFT_CHILD_IDX idx in
      if (left_idx <? count)%nat then
        let right_idx := RIGHT_CHILD_IDX idx in
        left_first ← (if (count <=? right_idx)%nat then Some true
                      else l ← pq_items pq !! left_idx; r ← pq_items pq !! right_idx; Some (cmp_callback l r <? 0));
        let min_child_idx := if (left_first : bool) then left_idx else right_idx in
        m ← pq_items pq !! min_child_idx;
        item ← pq_items pq !! idx;
        if cmp_callback m item >=? 0 then Some pq
        else pq ← heap_items_swap pq idx min_child_idx; heap_item_bubble_down fuel pq min_child_idx
      else Some pq
  end.

Definition priorityq_add (pq : priorityq) (item : P) : option priorityq :=
  let idx := length (pq_items pq) in
  let pq := PQ (pq_items pq ++ [item]) (<[item := Z.of_nat idx]> (pq_idx pq)) in
  '(pq, _) ← heap_item_bubble_up (S idx) pq idx;
  Some pq.

Definition priorityq_remove_idx (pq : priorityq) (idx : nat) : option priorityq :=
  let count := length (pq_items pq) in
  _ ← assert (idx <? count)%nat;
  let count := (count - 1)%nat in
  pq ← heap_items_swap pq idx count;
  let pq := PQ (array_delete (pq_items pq) count 1) (pq_idx pq) in
  if (0 <? count)%nat && negb (idx =? count)%nat then
    '(pq, idx) ← (if (0 <? idx)%nat then heap_item_bubble_up (S idx) pq idx else Some (pq, idx));
    heap_item_bubble_down (S count) pq idx
  else Some pq.

(** [item->idx = UINT_MAX]. *)
Definition unset_idx (pq : priorityq) (item : P) : priorityq :=
  PQ (pq_items pq) (<[item := UINT32_MAX]> (pq_idx pq)).

Definition priorityq_remove (pq : priorityq) (item : P) : option priorityq :=
  idx ← pq_idx pq !! item;
  pq ← priorityq_remove_idx pq (Z.to_nat idx);
  Some (unset_idx pq item).

Definition priorityq_peek (pq : priorityq) : option P :=
  if (priorityq_count pq =? 0)%nat then None else pq_items pq !! 0%nat.

(** The item, [None] inside for NULL. *)
Definition priorityq_pop (pq : priorityq) : option (option P * priorityq) :=
  match priorityq_peek pq with
  | None => Some (None, pq)
  | Some item => pq ← priorityq_remove_idx pq 0; Some (Some item, unset_idx pq item)
  end.
End Code.

Arguments priorityq : clear implicits.
Arguments priorityq P {_ _}.

(** ** The heap invariant *)

(** What the callback has to be: a total preorder by its sign. *)
Class CmpOrder {P} (cmp : P -> P -> Z) : Prop := {
  cmp_total a b : cmp a b < 0 -> 0 <= cmp b a;
  cmp_trans a b c : 0 <= cmp a b -> 0 <= cmp b c -> 0 <= cmp a c;
}.

Definition child (i j : nat) : Prop := j = (i * 2 + 1)%nat \/ j = (i * 2 + 2)%nat.

Lemma child_parent j : (0 < j)%nat -> child (PARENT_IDX j) j.
Proof.
  intros Hj. unfold child, PARENT_IDX. pose proof (Nat.div_mod_eq (j - 1) 2) as Hd.
  pose proof (Nat.mod_upper_bound (j - 1) 2 ltac:(lia)). lia.
Qed.

Lemma child_lt i j : child i j -> (i < j)%nat.
Proof. unfold child. lia. Qed.

Lemma child_unique i i' j : child i j -> child i' j -> i = i'.
Proof. unfold child. lia. Qed.

Section Invariant.
Context {P : Type} `{Countable P}.
Variable cmp : P -> P -> Z.

(** The items at [i] and [j], where they exist, are in order. *)
Definition ordered (l : list P) (i j : nat) : Prop :=
  forall p c, l !! i = Some p -> l !! j = Some c -> 0 <= cmp c p.

Definition heap_order (l : list P) : Prop := forall i j, child i j -> ordered l i j.

(** Every item stores its position. *)
Definition idx_ok (pq : priorityq P) : Prop :=
  forall i p, pq_items pq !! i = Some p -> pq_idx pq !! p = Some (Z.of_nat i).

Definition pq_ok (pq : priorityq P) : Prop := idx_ok pq /\ heap_order (pq_items pq).

(** The positions, and the order only when [o]: a caller that writes to what
    the callback compares loses the order but not the positions. *)
Definition pq_kept (o : bool) (pq : priorityq P) : Prop := idx_ok pq /\ (o = true -> heap_order (pq_items pq)).

Lemma pq_kept_ok pq : pq_kept true pq <-> pq_ok pq.
Proof. unfold pq_kept, pq_ok. naive_solver. Qed.

(** The heap in the middle of an operation: everything but the item at [k] is
    in order. *)
Definition heap_except (l : list P) (k : nat) : Prop :=
  (forall i j, child i j -> i <> k -> j <> k -> ordered l i j) /\
  (forall i j, child i k -> child k j -> ordered l i j).

Definition up_ok (l : list P) (k : nat) : Prop := forall i, child i k -> ordered l i k.
Definition down_ok (l : list P) (k : nat) : Prop := forall j, child k j -> ordered l k j.

Lemma heap_except_ok l k : heap_except l k -> up_ok l k -> down_ok l k -> heap_order l.
Proof.
  intros [H1 _] Hu Hd i j Hc. destruct (decide (i = k)) as [-> |]; [by apply Hd |].
  destruct (decide (j = k)) as [-> |]; [by apply Hu | by apply H1].
Qed.

Lemma heap_order_except l k `{!CmpOrder cmp} : (k < length l)%nat -> heap_order l -> heap_except l k.
Proof.
  intros Hk Ho. split; [intros; by apply Ho |]. intros i j Hi Hj p c Hp Hc.
  destruct (lookup_lt_is_Some_2 l k Hk) as [m Hm].
  apply cmp_trans with m; [by apply (Ho k j) | by apply (Ho i k)].
Qed.

(** ** Swapping two items *)

Definition swap_idx (i j x : nat) : nat := if decide (x = i) then j else if decide (x = j) then i else x.

Lemma swap_idx_inv i j x y : swap_idx i j x = y -> x = swap_idx i j y.
Proof. unfold swap_idx. repeat destruct (decide _); congruence. Qed.

Lemma swap_idx_l i j : swap_idx i j i = j.
Proof. unfold swap_idx. by rewrite decide_True. Qed.

Lemma swap_idx_r i j : swap_idx i j j = i.
Proof. unfold swap_idx. repeat destruct (decide _); congruence. Qed.

Lemma swap_idx_ne i j x : x <> i -> x <> j -> swap_idx i j x = x.
Proof. unfold swap_idx. intros. by rewrite !decide_False. Qed.

(** An item is stored once. *)
Lemma idx_ok_inj pq i j p : idx_ok pq -> pq_items pq !! i = Some p -> pq_items pq !! j = Some p -> i = j.
Proof. intros Hok Hi%Hok Hj%Hok. apply Nat2Z.inj. congruence. Qed.

Lemma heap_items_swap_spec (pq : priorityq P) i j :
  idx_ok pq -> (i < length (pq_items pq))%nat -> (j < length (pq_items pq))%nat ->
  exists pq', heap_items_swap pq i j = Some pq' /\ idx_ok pq' /\ pq_items pq' ≡ₚ pq_items pq /\
    (forall x, pq_items pq' !! x = pq_items pq !! swap_idx i j x) /\
    (forall p, p ∉ pq_items pq -> pq_idx pq' !! p = pq_idx pq !! p).
Proof.
  intros Hok Hi Hj. destruct (lookup_lt_is_Some_2 _ i Hi) as [p1 H1]. destruct (lookup_lt_is_Some_2 _ j Hj) as [p2 H2].
  unfold heap_items_swap. rewrite H1, H2. cbn [mbind option_bind]. unfold idx_is.
  rewrite !bool_decide_eq_true_2 by (by apply Hok). cbn [mbind option_bind assert].
  assert (Hlook : forall x, <[j:=p1]> (<[i:=p2]> (pq_items pq)) !! x = pq_items pq !! swap_idx i j x).
  { intros x. destruct (decide (x = j)) as [-> | Hxj]; [rewrite swap_idx_r, list_lookup_insert_eq by (by rewrite length_insert); done |].
    rewrite list_lookup_insert_ne by done. destruct (decide (x = i)) as [-> |].
    - by rewrite swap_idx_l, list_lookup_insert_eq.
    - by rewrite swap_idx_ne, list_lookup_insert_ne. }
  eexists. split; [done |]. split_and!; cbn [pq_items pq_idx]; [| | done |].
  - intros x p. cbn [pq_items pq_idx]. rewrite Hlook. intros Hx.
    destruct (decide (p = p2)) as [-> | Hp2]; [| destruct (decide (p = p1)) as [-> | Hp1]].
    + pose proof (swap_idx_inv _ _ _ _ (idx_ok_inj _ _ _ _ Hok Hx H2)) as ->. by rewrite swap_idx_r, lookup_insert_eq.
    + pose proof (swap_idx_inv _ _ _ _ (idx_ok_inj _ _ _ _ Hok Hx H1)) as ->.
      by rewrite swap_idx_l, lookup_insert_ne, lookup_insert_eq by done.
    + rewrite !lookup_insert_ne by done. rewrite swap_idx_ne in Hx; [by apply Hok | |]; intros ->;
        rewrite ?swap_idx_l, ?swap_idx_r in Hx; congruence.
  - apply Permutation_inj. split; [by rewrite !length_insert |]. exists (swap_idx i j). split; [| done].
    intros x y Hxy. apply swap_idx_inv in Hxy as ->. symmetry. by apply swap_idx_inv.
  - intros p Hp. rewrite !lookup_insert_ne; [done | |]; intros ->; apply Hp; by eapply list_elem_of_lookup_2.
Qed.
End Invariant.

(** ** Restoring the heap *)

Section Restore.
Context {P : Type} `{Countable P}.
Variable cmp : P -> P -> Z.
Context `{!CmpOrder cmp}.

(** The item at [k] is smaller than its parent and changes places with it. *)
Lemma swap_up l l' k p x y :
  heap_except cmp l k -> child p k -> l !! k = Some x -> l !! p = Some y -> cmp x y < 0 ->
  (forall i, l' !! i = l !! swap_idx k p i) ->
  heap_except cmp l' p /\ (down_ok cmp l k -> down_ok cmp l' p).
Proof.
  intros [H1 H2] Hpk Hx Hy Hlt Hl. pose proof (child_lt _ _ Hpk) as Hpk'.
  split; [split |].
  - intros i j Hc Hi Hj c d. rewrite !Hl. pose proof (child_lt _ _ Hc) as Hij.
    rewrite (swap_idx_ne k p j) by (try intros ->; try done; by apply Hi, (child_unique _ _ k)).
    destruct (decide (i = k)) as [-> | Hik].
    + rewrite swap_idx_l. by apply H2.
    + rewrite swap_idx_ne by done. apply H1; [done | done |]. intros ->. by apply Hi, (child_unique _ _ k).
  - intros i j Hi Hj c d. rewrite !Hl. pose proof (child_lt _ _ Hi) as Hip. pose proof (child_lt _ _ Hj).
    rewrite (swap_idx_ne k p i) by lia. intros Hc Hd.
    assert (Hyc : 0 <= cmp y c) by (apply (H1 i p); [done | lia | lia | done | done]).
    destruct (decide (j = k)) as [-> | Hjk]; [rewrite swap_idx_l in Hd; congruence |].
    rewrite swap_idx_ne in Hd by lia. apply cmp_trans with y; [| done].
    apply (H1 p j); [done | lia | done | done | done].
  - intros Hdown j Hj c d. rewrite !Hl, swap_idx_r. rewrite Hx. intros [= <-] Hd. pose proof (child_lt _ _ Hj).
    destruct (decide (j = k)) as [-> | Hjk].
    + rewrite swap_idx_l in Hd. replace d with y by congruence. by apply cmp_total.
    + rewrite swap_idx_ne in Hd by lia. apply cmp_trans with y; [| by apply cmp_total].
      apply (H1 p j); [done | lia | done | done | done].
Qed.

(** The item at [k] changes places with its smaller child [m]. *)
Lemma swap_down l l' k m x y :
  heap_except cmp l k -> child k m -> l !! k = Some x -> l !! m = Some y -> cmp y x < 0 ->
  (forall j c, child k j -> l !! j = Some c -> 0 <= cmp c y) -> (forall i, l' !! i = l !! swap_idx k m i) ->
  heap_except cmp l' m /\ up_ok cmp l' m.
Proof.
  intros [H1 H2] Hkm Hx Hy Hlt Hmin Hl. pose proof (child_lt _ _ Hkm) as Hkm'.
  split; [split |].
  - intros i j Hc Hi Hj c d. rewrite !Hl. pose proof (child_lt _ _ Hc) as Hij.
    destruct (decide (i = k)) as [-> | Hik].
    + rewrite swap_idx_l, Hy. rewrite swap_idx_ne by lia. intros [= <-] Hd. by apply (Hmin j).
    + rewrite (swap_idx_ne k m i) by done. destruct (decide (j = k)) as [-> | Hjk].
      * rewrite swap_idx_l. by apply H2.
      * rewrite swap_idx_ne by done. by apply H1.
  - intros i j Hi Hj c d. assert (i = k) as -> by (by apply (child_unique _ _ m)). pose proof (child_lt _ _ Hj).
    rewrite !Hl, swap_idx_l, swap_idx_ne by lia. apply (H1 m j); [done | lia | lia].
  - intros i Hi c d. assert (i = k) as -> by (by apply (child_unique _ _ m)).
    rewrite !Hl, swap_idx_l, swap_idx_r, Hx, Hy. intros [= <-] [= <-]. by apply cmp_total.
Qed.

(** What every step of an operation keeps. *)
Definition same_items (pq pq' : priorityq P) : Prop :=
  idx_ok pq' /\ pq_items pq' ≡ₚ pq_items pq /\ (forall p, p ∉ pq_items pq -> pq_idx pq' !! p = pq_idx pq !! p).

Lemma same_items_trans pq1 pq2 pq3 : same_items pq1 pq2 -> same_items pq2 pq3 -> same_items pq1 pq3.
Proof.
  intros (_ & Hp1 & Hi1) (Hok & Hp2 & Hi2). split_and!; [done | by rewrite Hp2 |].
  intros p Hp. rewrite Hi2 by (by rewrite Hp1). by apply Hi1.
Qed.

Lemma same_items_refl pq : idx_ok pq -> same_items pq pq.
Proof. by intros. Qed.

Lemma bubble_up_spec o fuel (pq : priorityq P) k :
  idx_ok pq -> (k < length (pq_items pq))%nat -> (k < fuel)%nat -> (o = true -> heap_except cmp (pq_items pq) k) ->
  exists pq' k', heap_item_bubble_up cmp fuel pq k = Some (pq', k') /\ same_items pq pq' /\ (k' <= k)%nat /\
    (o = true -> heap_except cmp (pq_items pq') k' /\ up_ok cmp (pq_items pq') k' /\
      (down_ok cmp (pq_items pq) k -> down_ok cmp (pq_items pq') k')).
Proof.
  revert pq k. induction fuel as [|fuel IH]; intros pq k Hok Hk Hf Hex; [lia |]. cbn [heap_item_bubble_up].
  destruct (Nat.ltb_spec 0 k) as [Hk0 | Hk0].
  2: { exists pq, k. splits; [done | by apply same_items_refl | done |]. intros Ho. splits; [by apply Hex | | done]. intros i Hi. apply child_lt in Hi. lia. }
  pose proof (child_parent k Hk0) as Hc. pose proof (child_lt _ _ Hc) as Hlt.
  rewrite (proj2 (Nat.ltb_lt _ _)) by done. cbn [assert mbind option_bind].
  destruct (lookup_lt_is_Some_2 (pq_items pq) k Hk) as [x Hx].
  destruct (lookup_lt_is_Some_2 (pq_items pq) (PARENT_IDX k)) as [y Hy]; [lia |].
  rewrite Hx, Hy. cbn [mbind option_bind]. destruct (Z.geb_spec (cmp x y) 0) as [Hge | Hlt'].
  - exists pq, k. splits; [done | by apply same_items_refl | done |]. intros Ho. splits; [by apply Hex | | done].
    intros i Hi c d. rewrite (child_unique _ _ _ Hi Hc), Hx, Hy. intros [= <-] [= <-]. done.
  - destruct (heap_items_swap_spec pq k (PARENT_IDX k) Hok Hk ltac:(lia)) as (pq1 & -> & Hok1 & Hp1 & Hl1 & Hi1).
    cbn [mbind option_bind].
    assert (Hswap : o = true -> heap_except cmp (pq_items pq1) (PARENT_IDX k) /\ (down_ok cmp (pq_items pq) k -> down_ok cmp (pq_items pq1) (PARENT_IDX k)))
      by (intros Ho; exact (swap_up _ _ _ _ _ _ (Hex Ho) Hc Hx Hy Hlt' Hl1)).
    destruct (IH pq1 (PARENT_IDX k) Hok1) as (pq' & k' & -> & Hs & Hk' & Hord); [rewrite Hp1; lia | lia | intros Ho; by apply Hswap |].
    exists pq', k'. splits; [done | by apply (same_items_trans pq pq1) | lia |].
    intros Ho. destruct (Hord Ho) as (? & ? & ?), (Hswap Ho) as [_ ?]. splits; by auto.
Qed.

(** The smaller child, as the loop selects it. *)
Lemma min_child_spec (l : list P) k :
  (LEFT_CHILD_IDX k < length l)%nat ->
  exists b m y, (if (length l <=? RIGHT_CHILD_IDX k)%nat then Some true
    else a ← l !! LEFT_CHILD_IDX k; r ← l !! RIGHT_CHILD_IDX k; Some (cmp a r <? 0)) = Some b /\
    m = (if b : bool then LEFT_CHILD_IDX k else RIGHT_CHILD_IDX k) /\ child k m /\ l !! m = Some y /\
    (forall j c, child k j -> l !! j = Some c -> 0 <= cmp c y).
Proof.
  intros Hl. destruct (lookup_lt_is_Some_2 l _ Hl) as [a Ha].
  assert (Hrefl : 0 <= cmp a a) by (destruct (Z.neg_nonneg_cases (cmp a a)); [by apply cmp_total | done]).
  destruct (Nat.leb_spec (length l) (RIGHT_CHILD_IDX k)) as [Hr | Hr].
  - exists true, (LEFT_CHILD_IDX k), a. splits; [done | done | by left | done |].
    intros j c [-> | ->] Hc; [unfold LEFT_CHILD_IDX in Ha; congruence |].
    apply lookup_lt_Some in Hc. unfold RIGHT_CHILD_IDX in Hr. lia.
  - destruct (lookup_lt_is_Some_2 l _ Hr) as [r Hr']. rewrite Ha, Hr'. cbn [mbind option_bind].
    destruct (Z.ltb_spec (cmp a r) 0) as [Hlt | Hge].
    + exists true, (LEFT_CHILD_IDX k), a. splits; [done | done | by left | done |].
      intros j c [-> | ->] Hc; [unfold LEFT_CHILD_IDX in Ha; congruence |].
      unfold RIGHT_CHILD_IDX in Hr'. replace c with r by congruence. by apply cmp_total.
    + exists false, (RIGHT_CHILD_IDX k), r. splits; [done | done | by right | done |].
      intros j c [-> | ->] Hc; [unfold LEFT_CHILD_IDX in Ha; congruence |].
      unfold RIGHT_CHILD_IDX in Hr'. replace c with r by congruence.
      destruct (Z.neg_nonneg_cases (cmp r r)); [by apply cmp_total | done].
Qed.

Lemma bubble_down_spec o fuel (pq : priorityq P) k :
  idx_ok pq -> (k < length (pq_items pq))%nat -> (length (pq_items pq) < fuel + k)%nat ->
  (o = true -> heap_except cmp (pq_items pq) k /\ up_ok cmp (pq_items pq) k) ->
  exists pq', heap_item_bubble_down cmp fuel pq k = Some pq' /\ same_items pq pq' /\ (o = true -> heap_order cmp (pq_items pq')).
Proof.
  revert pq k. induction fuel as [|fuel IH]; intros pq k Hok Hk Hf Hord; [lia |]. cbn [heap_item_bubble_down]. cbv zeta.
  destruct (Nat.ltb_spec (LEFT_CHILD_IDX k) (length (pq_items pq))) as [Hl | Hl].
  2: { exists pq. splits; [done | by apply same_items_refl |]. intros [Hex Hup]%Hord. apply heap_except_ok with k; [done | done |].
       intros j Hj p c _ Hc. apply lookup_lt_Some in Hc. unfold LEFT_CHILD_IDX, child in *. lia. }
  destruct (min_child_spec (pq_items pq) k Hl) as (b & m & y & -> & Hm & Hkm & Hy & Hmin). cbn [mbind option_bind].
  destruct (lookup_lt_is_Some_2 (pq_items pq) k Hk) as [x Hx]. rewrite <- Hm, Hy, Hx. cbn [mbind option_bind].
  destruct (Z.geb_spec (cmp y x) 0) as [Hge | Hlt].
  - exists pq. splits; [done | by apply same_items_refl |]. intros [Hex Hup]%Hord. apply heap_except_ok with k; [done | done |].
    intros j Hj p c Hp Hc. replace p with x by congruence. apply cmp_trans with y; [by apply (Hmin j) | done].
  - pose proof (lookup_lt_Some _ _ _ Hy) as Hml. pose proof (child_lt _ _ Hkm).
    destruct (heap_items_swap_spec pq k m Hok Hk Hml) as (pq1 & -> & Hok1 & Hp1 & Hl1 & Hi1). cbn [mbind option_bind].
    destruct (IH pq1 m Hok1) as (pq' & -> & Hs & Ho); [rewrite Hp1; lia | rewrite Hp1; lia | |].
    { intros [Hex Hup]%Hord. exact (swap_down _ _ _ _ _ _ Hex Hkm Hx Hy Hlt Hmin Hl1). }
    exists pq'. splits; [done | by apply (same_items_trans pq pq1) | done].
Qed.

(** ** The operations *)

Lemma priorityq_add_spec o (pq : priorityq P) item :
  pq_kept cmp o pq -> item ∉ pq_items pq ->
  exists pq', priorityq_add cmp pq item = Some pq' /\ pq_kept cmp o pq' /\ pq_items pq' ≡ₚ item :: pq_items pq /\
    forall p, p <> item -> p ∉ pq_items pq -> pq_idx pq' !! p = pq_idx pq !! p.
Proof.
  intros [Hok Ho] Hnew. unfold priorityq_add. cbv zeta. set (n := length (pq_items pq)).
  set (pq1 := PQ (pq_items pq ++ [item]) (<[item := Z.of_nat n]> (pq_idx pq))).
  assert (Hold : forall i, (i < n)%nat -> (pq_items pq ++ [item]) !! i = pq_items pq !! i) by (intros; by apply lookup_app_l).
  assert (Hok1 : idx_ok pq1).
  { intros i p. cbn. intros Hi. destruct (decide (i = n)) as [-> | Hne].
    - unfold n in Hi. rewrite list_lookup_middle in Hi by done. injection Hi as ->. by rewrite lookup_insert_eq.
    - pose proof (lookup_lt_Some _ _ _ Hi) as Hlt. rewrite length_app in Hlt. cbn in Hlt. rewrite Hold in Hi by lia.
      rewrite lookup_insert_ne; [by apply Hok |]. intros ->. apply Hnew. by eapply list_elem_of_lookup_2. }
  assert (Hend : forall j c, (pq_items pq ++ [item]) !! j = Some c -> (j <= n)%nat).
  { intros j c Hc%lookup_lt_Some. rewrite length_app in Hc. cbn in Hc. lia. }
  destruct (bubble_up_spec o (S n) pq1 n Hok1) as (pq' & k' & -> & (Hok' & Hp & Hi) & _ & Hord);
    [cbn; rewrite length_app; cbn; lia | lia | |].
  { intros Ho'. cbn. split; intros i j.
    - intros Hc Hin Hjn p c Hp Hcc. pose proof (Hend _ _ Hcc). pose proof (child_lt _ _ Hc).
      rewrite Hold in Hp, Hcc by lia. by apply (Ho Ho' i j).
    - intros _ Hc p c _ Hcc. pose proof (Hend _ _ Hcc). pose proof (child_lt _ _ Hc). lia. }
  cbn [mbind option_bind]. exists pq'. splits; [done | | |].
  - split; [done |]. intros (Hex & Hup & Hdown)%Hord. apply heap_except_ok with k'; [done | done |]. apply Hdown.
    intros j Hj p c _ Hc. pose proof (Hend _ _ Hc). pose proof (child_lt _ _ Hj). lia.
  - rewrite Hp. cbn. by rewrite Permutation_app_comm.
  - intros p Hne Hp'. rewrite Hi; [cbn; by rewrite lookup_insert_ne |]. cbn. rewrite elem_of_app, list_elem_of_singleton. naive_solver.
Qed.
End Restore.

Section Remove.
Context {P : Type} `{Countable P}.
Variable cmp : P -> P -> Z.
Context `{!CmpOrder cmp}.

(** The order after the last item has replaced the one at [k]. *)
Lemma move_last_order (l l2 : list P) k item :
  let n := (length l - 1)%nat in
  heap_order cmp l -> l !! k = Some item -> (k <= n)%nat ->
  (forall i p, l2 !! i = Some p -> (i < n)%nat /\ l !! swap_idx k n i = Some p) ->
  heap_except cmp l2 k /\ (k = n -> heap_order cmp l2).
Proof.
  intros n Ho Hk Hkn Hold.
  assert (Hord : forall i j, child i j -> i <> k -> j <> k -> ordered cmp l2 i j).
  { intros i j Hc Hi Hj p c [Hin Hp]%Hold [Hjn Hcc]%Hold. rewrite swap_idx_ne in Hp, Hcc by lia. by apply (Ho i j). }
  split; [split; [exact Hord |] |].
  - intros i j Hi Hj p c [Hin Hp]%Hold [Hjn Hcc]%Hold. pose proof (child_lt _ _ Hi). pose proof (child_lt _ _ Hj).
    rewrite swap_idx_ne in Hp, Hcc by lia. apply cmp_trans with item; [by apply (Ho k j) | by apply (Ho i k)].
  - intros E i j Hc p c Hp Hcc. pose proof (proj1 (Hold _ _ Hp)). pose proof (proj1 (Hold _ _ Hcc)).
    apply (Hord i j); [done | lia | lia | done | done].
Qed.

(** The last item moved over the one at [k]. *)
Lemma move_last_spec o (pq : priorityq P) k item :
  pq_kept cmp o pq -> pq_items pq !! k = Some item ->
  let n := (length (pq_items pq) - 1)%nat in
  exists pq1, heap_items_swap pq k n = Some pq1 /\
    let pq2 := PQ (array_delete (pq_items pq1) n 1) (pq_idx pq1) in
    idx_ok pq2 /\ pq_items pq ≡ₚ item :: pq_items pq2 /\ length (pq_items pq2) = n /\
    (o = true -> heap_except cmp (pq_items pq2) k /\ (k = n -> heap_order cmp (pq_items pq2))) /\
    (forall p, p ∉ pq_items pq -> pq_idx pq1 !! p = pq_idx pq !! p).
Proof.
  intros [Hok Ho] Hk n. pose proof (lookup_lt_Some _ _ _ Hk) as Hkl.
  destruct (heap_items_swap_spec pq k n Hok Hkl ltac:(lia)) as (pq1 & Heq & Hok1 & Hp1 & Hl1 & Hi1).
  exists pq1. split; [done |]. cbv zeta. cbn [pq_items pq_idx].
  pose proof (Permutation_length Hp1) as Hlen.
  assert (Hsplit : pq_items pq1 = array_delete (pq_items pq1) n 1 ++ [item]).
  { unfold array_delete. rewrite (drop_ge _ (n + 1)) by lia. rewrite app_nil_r.
    rewrite <- (take_drop n (pq_items pq1)) at 1. f_equal.
    rewrite (drop_S _ item n) by (by rewrite Hl1, swap_idx_r). by rewrite drop_ge by lia. }
  set (l2 := array_delete (pq_items pq1) n 1) in *.
  assert (Hl2 : length l2 = n) by (apply (f_equal length) in Hsplit; rewrite length_app in Hsplit; cbn in Hsplit; lia).
  assert (Hold : forall i p, l2 !! i = Some p -> (i < n)%nat /\ pq_items pq !! swap_idx k n i = Some p).
  { intros i p Hp. pose proof (lookup_lt_Some _ _ _ Hp). split; [lia |]. rewrite <- Hl1, Hsplit. by apply lookup_app_l_Some. }
  splits; [| | done | | done].
  - intros i p Hp. cbn in *. apply Hok1. rewrite Hsplit. by apply lookup_app_l_Some.
  - rewrite <- Hp1, Hsplit. by rewrite Permutation_app_comm.
  - intros Ho'%Ho. by apply (move_last_order (pq_items pq) l2 k item); [| | lia |].
Qed.

Lemma priorityq_remove_idx_spec o (pq : priorityq P) k item :
  pq_kept cmp o pq -> pq_items pq !! k = Some item ->
  exists pq', priorityq_remove_idx cmp pq k = Some pq' /\ pq_kept cmp o pq' /\ pq_items pq ≡ₚ item :: pq_items pq' /\
    forall p, p ∉ pq_items pq -> pq_idx pq' !! p = pq_idx pq !! p.
Proof.
  intros Hok Hk. pose proof (lookup_lt_Some _ _ _ Hk) as Hkl. unfold priorityq_remove_idx. cbv zeta.
  rewrite (proj2 (Nat.ltb_lt k (length (pq_items pq)))) by done. cbn [assert mbind option_bind].
  destruct (move_last_spec o pq k item Hok Hk) as (pq1 & -> & Hok2 & Hp2 & Hl2 & Hex & Hi2). cbn [mbind option_bind].
  set (n := (length (pq_items pq) - 1)%nat) in *.
  set (pq2 := PQ (array_delete (pq_items pq1) n 1) (pq_idx pq1)) in *.
  assert (Hnotin : forall p, p ∉ pq_items pq -> p ∉ pq_items pq2) by (intros p; rewrite Hp2; set_solver).
  destruct (Nat.eqb_spec k n) as [Hkn | Hkn]; [rewrite andb_false_r; exists pq2; splits; [done | split; [done | intros Ho; by apply Hex] | done | done] |].
  rewrite (proj2 (Nat.ltb_lt 0 n)) by lia. cbn [andb negb].
  assert (Hup : exists pq3 k3, (if (0 <? k)%nat then heap_item_bubble_up cmp (S k) pq2 k else Some (pq2, k)) = Some (pq3, k3) /\
    same_items pq2 pq3 /\ (k3 <= k)%nat /\ (o = true -> heap_except cmp (pq_items pq3) k3 /\ up_ok cmp (pq_items pq3) k3)).
  { destruct (Nat.ltb_spec 0 k) as [Hk0 | Hk0].
    - destruct (bubble_up_spec cmp o (S k) pq2 k Hok2) as (pq3 & k3 & ? & ? & ? & Hord); [lia | lia | intros Ho; by apply Hex |].
      exists pq3, k3. splits; [done | done | done |]. intros Ho. by destruct (Hord Ho) as (? & ? & _).
    - exists pq2, k. splits; [done | by apply same_items_refl | done |]. intros Ho. split; [by apply Hex |]. intros i Hi%child_lt. lia. }
  destruct Hup as (pq3 & k3 & -> & Hs & Hk3 & Hord3). cbn [mbind option_bind].
  pose proof Hs as (Hok3 & Hp3 & Hi3). pose proof (Permutation_length Hp3) as Hl3.
  destruct (bubble_down_spec cmp o (S n) pq3 k3 Hok3) as (pq' & -> & Hs' & Ho'); [lia | lia | done |].
  pose proof (same_items_trans _ _ _ Hs Hs') as (Hok' & Hp' & Hi').
  exists pq'. splits; [done | done | by rewrite Hp2, Hp' |]. intros p Hp. rewrite Hi' by auto. by apply Hi2.
Qed.

Lemma idx_ok_nodup (pq : priorityq P) : idx_ok pq -> NoDup (pq_items pq).
Proof. intros Hok. apply NoDup_alt. intros i j p Hi Hj. by apply (idx_ok_inj pq i j p). Qed.

Lemma unset_idx_ok o (pq : priorityq P) item : pq_kept cmp o pq -> item ∉ pq_items pq -> pq_kept cmp o (unset_idx pq item).
Proof.
  intros [Hok Ho] Hni. split; [| done]. intros i p Hi. cbn. rewrite lookup_insert_ne; [by apply Hok |].
  intros ->. apply Hni. by eapply list_elem_of_lookup_2.
Qed.

(** Removing the item at [k] and resetting its position. *)
Lemma remove_unset_spec o (pq : priorityq P) k item :
  pq_kept cmp o pq -> pq_items pq !! k = Some item ->
  exists pq', priorityq_remove_idx cmp pq k = Some pq' /\ pq_kept cmp o (unset_idx pq' item) /\
    pq_items pq ≡ₚ item :: pq_items pq' /\ item ∉ pq_items pq' /\
    forall p, p ∉ pq_items pq -> pq_idx (unset_idx pq' item) !! p = pq_idx pq !! p.
Proof.
  intros Hok Hk. destruct (priorityq_remove_idx_spec o pq k item Hok Hk) as (pq' & Heq & Hok' & Hp & Hi).
  assert (Hni : item ∉ pq_items pq').
  { pose proof (idx_ok_nodup pq (proj1 Hok)) as Hnd. rewrite Hp in Hnd. by apply NoDup_cons in Hnd as [? _]. }
  exists pq'. splits; [done | by apply unset_idx_ok | done | done |]. intros p Hp'. cbn.
  rewrite lookup_insert_ne; [by apply Hi |]. intros ->. apply Hp'. rewrite Hp. by left.
Qed.

Lemma priorityq_remove_spec o (pq : priorityq P) item :
  pq_kept cmp o pq -> item ∈ pq_items pq ->
  exists pq', priorityq_remove cmp pq item = Some pq' /\ pq_kept cmp o pq' /\ pq_items pq ≡ₚ item :: pq_items pq' /\
    item ∉ pq_items pq' /\ pq_idx pq' !! item = Some UINT32_MAX /\
    forall p, p ∉ pq_items pq -> pq_idx pq' !! p = pq_idx pq !! p.
Proof.
  intros Hok [k Hk]%list_elem_of_lookup. destruct (remove_unset_spec o pq k item Hok Hk) as (pq' & Heq & Hok' & Hp & Hni & Hi).
  unfold priorityq_remove. rewrite (proj1 Hok k item Hk). cbn [mbind option_bind]. rewrite Nat2Z.id, Heq. cbn [mbind option_bind].
  exists (unset_idx pq' item). splits; [done | done | done | done | apply lookup_insert_eq | done].
Qed.

(** The first item of a heap is not greater than any other. *)
Lemma heap_root_min (l : list P) x : heap_order cmp l -> l !! 0%nat = Some x -> forall p, p ∈ l -> 0 <= cmp p x.
Proof.
  intros Ho Hx p [k Hk]%list_elem_of_lookup. revert p Hk. induction (lt_wf k) as [k _ IH]. intros p Hk.
  destruct (decide (k = 0%nat)) as [-> | Hk0].
  - replace p with x by congruence. destruct (Z.neg_nonneg_cases (cmp x x)); [by apply cmp_total | done].
  - pose proof (child_parent k ltac:(lia)) as Hc. pose proof (child_lt _ _ Hc) as Hlt. pose proof (lookup_lt_Some _ _ _ Hk).
    destruct (lookup_lt_is_Some_2 l (PARENT_IDX k)) as [y Hy]; [lia |].
    apply cmp_trans with y; [by apply (Ho _ _ Hc) | by apply (IH _ Hlt)].
Qed.

Lemma priorityq_peek_spec o (pq : priorityq P) :
  pq_kept cmp o pq ->
  match priorityq_peek pq with
  | None => pq_items pq = []
  | Some item => pq_items pq !! 0%nat = Some item /\ (o = true -> forall p, p ∈ pq_items pq -> 0 <= cmp p item)
  end.
Proof.
  intros [_ Ho]. unfold priorityq_peek, priorityq_count. destruct (pq_items pq) as [|x l]; [done |]. cbn.
  split; [done |]. intros Ho'%Ho. by apply heap_root_min.
Qed.
End Remove.

(** ** Properties *)

Section Properties.
Context {P : Type} `{Countable P}.
Variable cmp : P -> P -> Z.
Context `{!CmpOrder cmp}.

(** Popping until the queue is empty, as the users of the queue do. *)
Fixpoint pop_all (fuel : nat) (pq : priorityq P) : option (list P) :=
  match fuel with
  | O => None
  | S fuel =>
      '(item, pq) ← priorityq_pop cmp pq;
      match item with
      | None => Some []
      | Some item => rest ← pop_all fuel pq; Some (item :: rest)
      end
  end.

Lemma priorityq_pop_spec (pq : priorityq P) :
  pq_ok cmp pq ->
  exists o pq', priorityq_pop cmp pq = Some (o, pq') /\ pq_ok cmp pq' /\
    match o with
    | None => pq_items pq = [] /\ pq' = pq
    | Some item => pq_items pq ≡ₚ item :: pq_items pq' /\ pq_idx pq' !! item = Some UINT32_MAX /\
        forall p, p ∈ pq_items pq -> 0 <= cmp p item
    end.
Proof.
  intros Hok. apply pq_kept_ok in Hok as Hk. pose proof (priorityq_peek_spec cmp true pq Hk) as Hpeek. unfold priorityq_pop.
  destruct (priorityq_peek pq) as [item|]; [| by exists None, pq].
  destruct Hpeek as [H0 Hmin]. destruct (remove_unset_spec cmp true pq 0 item Hk H0) as (pq' & -> & Hok' & Hp & _ & _).
  exists (Some item), (unset_idx pq' item). splits; [done | by apply pq_kept_ok | done | apply lookup_insert_eq | by apply Hmin].
Qed.

Lemma pop_all_spec fuel (pq : priorityq P) :
  pq_ok cmp pq -> (length (pq_items pq) < fuel)%nat ->
  exists l, pop_all fuel pq = Some l /\ l ≡ₚ pq_items pq /\ StronglySorted (fun a b => 0 <= cmp b a) l.
Proof.
  revert pq. induction fuel as [|fuel IH]; intros pq Hok Hf; [lia |]. cbn [pop_all].
  destruct (priorityq_pop_spec pq Hok) as (o & pq' & -> & Hok' & Ho). cbn [mbind option_bind].
  destruct o as [item|]; [| destruct Ho as [-> _]; exists []; splits; [done | done | constructor]].
  destruct Ho as (Hp & _ & Hmin). pose proof (Permutation_length Hp) as Hl. cbn in Hl.
  destruct (IH pq' Hok') as (l & -> & Hpl & Hs); [lia |]. cbn [mbind option_bind].
  exists (item :: l). splits; [done | by rewrite Hp, Hpl |]. constructor; [done |].
  apply Forall_forall. intros p Hin. apply Hmin. rewrite Hp, <- Hpl. by right.
Qed.

(** C35: adding an item that is not in the queue, and removing one that is, pass
    every assertion, keep the heap order and the position stored in each item,
    and change the contents by exactly that item; a removed item is marked with
    UINT_MAX. *)
Theorem priorityq_update_correct (pq : priorityq P) item :
  pq_ok cmp pq ->
  (item ∉ pq_items pq -> exists pq', priorityq_add cmp pq item = Some pq' /\ pq_ok cmp pq' /\
     pq_items pq' ≡ₚ item :: pq_items pq) /\
  (item ∈ pq_items pq -> exists pq', priorityq_remove cmp pq item = Some pq' /\ pq_ok cmp pq' /\
     pq_items pq ≡ₚ item :: pq_items pq' /\ pq_idx pq' !! item = Some UINT32_MAX).
Proof.
  rewrite <- pq_kept_ok. intros Hok. setoid_rewrite <- pq_kept_ok. split; intros Hin.
  - destruct (priorityq_add_spec cmp true pq item Hok Hin) as (pq' & ? & ? & ? & _). eauto.
  - destruct (priorityq_remove_spec cmp true pq item Hok Hin) as (pq' & ? & ? & ? & _ & ? & _). eauto 10.
Qed.

(** C21: popping until the queue is empty terminates and returns every item of
    the queue once, each not greater than all that follow. *)
Theorem priorityq_pop_sorted (pq : priorityq P) :
  pq_ok cmp pq ->
  exists l, pop_all (S (priorityq_count pq)) pq = Some l /\ l ≡ₚ pq_items pq /\
    StronglySorted (fun a b => 0 <= cmp b a) l.
Proof. intros Hok. apply pop_all_spec; [done |]. unfold priorityq_count. lia. Qed.
End Properties.

(** ** Witnesses: integers compared by subtraction *)

#[export] Instance sub_order : CmpOrder Z.sub.
Proof. split; intros; lia. Qed.

Lemma empty_ok {P} `{Countable P} cmp : pq_ok cmp (priorityq_init : priorityq P).
Proof. split; [intros i p Hi | intros i j _ p c Hi]; cbn in Hi; by rewrite lookup_nil in Hi. Qed.

Lemma priorityq_update_correct_witness :
  exists pq', priorityq_add Z.sub priorityq_init 5 = Some pq' /\ pq_ok Z.sub pq' /\
    pq_items pq' ≡ₚ 5 :: pq_items (priorityq_init : priorityq Z).
Proof. apply (priorityq_update_correct Z.sub priorityq_init 5 (empty_ok Z.sub)). apply not_elem_of_nil. Defined.

Definition sample_queue : priorityq Z := PQ [2; 7; 5; 9] (<[2 := 0]> (<[7 := 1]> (<[5 := 2]> (<[9 := 3]> ∅)))).

Lemma sample_queue_ok : pq_ok Z.sub sample_queue.
Proof.
  split.
  - intros i p Hi. do 4 (destruct i as [|i]; [injection Hi as <-; reflexivity |]). discriminate.
  - intros i j Hc p c Hp Hcc. unfold child in Hc.
    do 2 (destruct i as [|i]; [destruct Hc as [-> | ->]; injection Hp as <-; (discriminate || (injection Hcc as <-; lia)) |]).
    pose proof (lookup_lt_Some _ _ _ Hcc) as Hlt. cbn in Hlt. lia.
Qed.

Lemma priorityq_pop_sorted_witness :
  exists l, pop_all Z.sub 5 sample_queue = Some l /\ l ≡ₚ [2; 7; 5; 9] /\ StronglySorted (fun a b => 0 <= b - a) l.
Proof. apply (priorityq_pop_sorted Z.sub sample_queue). apply sample_queue_ok. Defined.
