(* ===== verification/Hash.v ===== *)
(** * Hash tables (src/src/lib/hash.c, primes.c)

    Chained hash tables with deferred removal.  A node is [Some (key, value)],
    or [None] when its key is NULL; a bucket is the list of the primary node
    and the nodes of the collision list behind it.  Counters are unsigned 32-bit
    numbers.  The list of free nodes only recycles memory and is left out.
    The callbacks are parameters. *)

From Stdlib Require Import SpecFloat.
From S2P Require Import Prelude.

(** ** primes.c *)

Definition PRIME_SKIP_COUNT : Z := 3.

Definition primes : list Z :=
  [17; 37; 67; 131; 257; 521; 1031; 2053; 4099; 8209; 16411; 32771; 65537; 131101; 262147; 524309; 1048583;
   2097169; 4194319; 8388617; 16777259; 33554467; 67108879; 134217757; 268435459; 536870923; 1073741827;
   2147483659; 4294967291].

(** The loop, from [i] down to [PRIME_SKIP_COUNT]. *)
Fixpoint primes_closest_loop (n : nat) (num : Z) : option Z :=
  let i := Z.of_nat n in
  match n with
  | O => None
  | S n =>
      if i >? PRIME_SKIP_COUNT then
        if negb (Z.land num (Z.shiftl 1 i) =? 0) then primes !! Z.to_nat (i - PRIME_SKIP_COUNT)
        else primes_closest_loop n num
      else primes !! 0%nat
  end.

Definition primes_closest (num : Z) : option Z := primes_closest_loop 31 num.

(** ** The average length of a list, in single precision

    [nodes_per_list > 0.3 && nodes_per_list < 2.0]: the quotient is rounded to
    24 bits and compared in double precision. *)
Definition to_float (n : Z) : spec_float := binary_normalize 24 128 n 0 false.

Definition to_double (x : spec_float) : spec_float :=
  match x with
  | S754_finite s m e => binary_normalize 53 1024 (if s then Z.neg m else Z.pos m) e s
  | x => x
  end.

Definition double_0_3 : spec_float := S754_finite false 5404319552844595 (-54).
Definition double_2_0 : spec_float := S754_finite false 4503599627370496 (-51).

Definition well_filled (nodes_count size : Z) : bool :=
  let nodes_per_list := to_double (SFdiv 24 128 (to_float nodes_count) (to_float size)) in
  SFltb double_0_3 nodes_per_list && SFltb nodes_per_list double_2_0.

Definition HASH_TABLE_MIN_SIZE : Z := 67.

(** ** Tables *)

Section Code.
Context {K V : Type}.

Notation node := (option (K * V)).

Record hash_table := HT {
  frozen : Z;
  initial_size : Z;
  nodes_count : Z;
  removed_count : Z;
  nodes : list (list node);
}.

Definition size (t : hash_table) : Z := Z.of_nat (length (nodes t)).

Definition set_nodes (t : hash_table) (n : list (list node)) : hash_table :=
  HT (frozen t) (initial_size t) (nodes_count t) (removed_count t) n.
Definition set_frozen (t : hash_table) (f : Z) : hash_table :=
  HT f (initial_size t) (nodes_count t) (removed_count t) (nodes t).
Definition set_nodes_count (t : hash_table) (c : Z) : hash_table :=
  HT (frozen t) (initial_size t) c (removed_count t) (nodes t).
Definition set_removed_count (t : hash_table) (c : Z) : hash_table :=
  HT (frozen t) (initial_size t) (nodes_count t) c (nodes t).

(** A primary table of [n] empty lists. *)
Definition new_nodes (n : Z) : list (list node) := repeat [None] (Z.to_nat n).

Definition hash_table_create (initial_size : Z) : option hash_table :=
  p ← primes_closest initial_size;
  let initial_size := Z.max p HASH_TABLE_MIN_SIZE in
  Some (HT 0 initial_size 0 0 (new_nodes initial_size)).

Definition hash_table_clear (t : hash_table) : hash_table :=
  HT (frozen t) (initial_size t) 0 0 (new_nodes (size t)).

(** The callbacks. *)
Variable hash_cb : K -> Z.
Variable key_compare_cb : K -> K -> Z.

(** The index of the bucket of a hash value. *)
Definition bucket_idx (t : hash_table) (hash : Z) : nat := Z.to_nat (hash mod size t).

(** A node is addressed by its bucket and its position in it. *)
Fixpoint find_node (b : list node) (key : K) (j : nat) : option nat :=
  match b with
  | [] => None
  | Some (k, _) :: b => if key_compare_cb k key =? 0 then Some j else find_node b key (S j)
  | None :: b => find_node b key (S j)
  end.

Definition hash_table_lookup_node (t : hash_table) (key : K) (hash : Z) : option (option (nat * nat)) :=
  let i := bucket_idx t hash in
  b ← nodes t !! i;
  Some (j ← find_node b key 0; Some (i, j)).

Definition get_node (t : hash_table) (pos : nat * nat) : option node := b ← nodes t !! pos.1; b !! pos.2.

Definition set_node (t : hash_table) (pos : nat * nat) (n : node) : option hash_table :=
  b ← nodes t !! pos.1;
  b ← array_set b pos.2 n;
  nodes' ← array_set (nodes t) pos.1 b;
  Some (set_nodes t nodes').

(** The value, [None] inside for NULL. *)
Definition hash_table_lookup (t : hash_table) (key : K) : option (option V) :=
  pos ← hash_table_lookup_node t key (hash_cb key);
  match pos with
  | None => Some None
  | Some pos => n ← get_node t pos; kv ← n; Some (Some kv.2)
  end.

Definition hash_table_lookup_full (t : hash_table) (key : K) : option (option (K * V)) :=
  pos ← hash_table_lookup_node t key (hash_cb key);
  match pos with
  | None => Some None
  | Some pos => n ← get_node t pos; kv ← n; Some (Some kv)
  end.

(** [node->value = value] at a node in use. *)
Definition set_value (t : hash_table) (pos : nat * nat) (value : V) : option hash_table :=
  n ← get_node t pos; kv ← n; set_node t pos (Some (kv.1, value)).

(** The walk over the collision list: where it stops. *)
Inductive chain_stop := StopMatch (j : nat) | StopHole (j : nat) | StopEnd (j : nat).

Fixpoint walk_chain (chain : list node) (key : K) (check_existing : bool) (j : nat) : chain_stop :=
  match chain with
  | [] => StopEnd j
  | None :: _ => StopHole j
  | Some (k, _) :: chain =>
      if check_existing && (key_compare_cb k key =? 0) then StopMatch j
      else walk_chain chain key check_existing (S j)
  end.

(** Moving all nodes to the new primary table with [insert]. *)
Fixpoint move_nodes (insert : hash_table -> K -> V -> option (hash_table * (nat * nat)))
    (old : list node) (t : hash_table) : option hash_table :=
  match old with
  | [] => Some t
  | Some (k, v) :: old => '(t, _) ← insert t k v; move_nodes insert old t
  | None :: old => move_nodes insert old t
  end.

Definition resize_with (insert : hash_table -> K -> V -> option (hash_table * (nat * nat)))
    (t : hash_table) (grow : bool) : option (bool * hash_table) :=
  if well_filled (nodes_count t) (size t) then Some (false, t)
  else
    p ← primes_closest (u32 (nodes_count t + 1));
    let next_size := Z.max p (initial_size t) in
    if next_size =? size t then Some (false, t)
    else if grow && (size t >=? next_size) then Some (false, t)
    else
      let old_nodes := nodes t in
      let t := HT (frozen t + 1) (initial_size t) 0 0 (new_nodes (Z.max next_size HASH_TABLE_MIN_SIZE)) in
      t ← move_nodes insert (concat old_nodes) t;
      Some (true, set_frozen t (frozen t - 1)).

(** The search for a place in the bucket of the key; [at_end] is what happens
    at the end of the collision list. *)
Definition insert_in_bucket (at_end : nat -> list node -> nat -> option (hash_table * (nat * nat)))
    (t : hash_table) (key : K) (value : V) (check_existing : bool) : option (hash_table * (nat * nat)) :=
  let i := bucket_idx t (hash_cb key) in
  b ← nodes t !! i;
  root ← b !! 0%nat;
  let t1 := set_nodes_count t (u32 (nodes_count t + 1)) in
  match root with
  | None => t ← set_node t1 (i, 0%nat) (Some (key, value)); Some (t, (i, 0%nat))
  | Some (k, _) =>
      if check_existing && (key_compare_cb k key =? 0) then
        t ← set_value t (i, 0%nat) value; Some (t, (i, 0%nat))
      else
        match walk_chain (drop 1 b) key check_existing 1 with
        | StopMatch j => t ← set_value t (i, j) value; Some (t, (i, j))
        | StopHole j => t ← set_node t1 (i, j) (Some (key, value)); Some (t, (i, j))
        | StopEnd j => at_end i b j
        end
  end.

Fixpoint hash_table_insert_node (fuel : nat) (t : hash_table) (key : K) (value : V) (check_existing : bool)
    : option (hash_table * (nat * nat)) :=
  match fuel with
  | O => None
  | S fuel =>
      let holes := check_existing && (removed_count t >? 0) in
      existing ← (if holes then hash_table_lookup_node t key (hash_cb key) else Some None);
      match existing with
      | Some pos => t ← set_value t pos value; Some (t, pos)
      | None =>
          insert_in_bucket
            (fun i b j =>
               '(resized, t) ← (if frozen t =? 0 then
                                  resize_with (fun t k v => hash_table_insert_node fuel t k v false) t true
                                else Some (false, t));
               if (resized : bool) then hash_table_insert_node fuel t key value false
               else
                 nodes' ← array_set (nodes t) i (b ++ [Some (key, value)]);
                 Some (set_nodes (set_nodes_count t (u32 (nodes_count t + 1))) nodes', (i, j)))
            t key value (if holes then false else check_existing)
      end
  end.

(** Three levels: the insert, its retry after a resize, and the moves inside a
    resize. *)
Definition INSERT_FUEL : nat := 3.

Definition hash_table_resize (t : hash_table) (grow : bool) : option (bool * hash_table) :=
  resize_with (fun t k v => hash_table_insert_node INSERT_FUEL t k v false) t grow.

Definition hash_table_insert (t : hash_table) (key : K) (value : V) : option hash_table :=
  '(t, pos) ← hash_table_insert_node INSERT_FUEL t key value true;
  n ← get_node t pos;
  kv ← n;
  set_node t pos (Some (key, kv.2)).

Definition hash_table_update (t : hash_table) (key : K) (value : V) : option hash_table :=
  '(t, _) ← hash_table_insert_node INSERT_FUEL t key value true;
  Some t.

(** [hash_table_compress]: removed nodes leave the list, and the first node of
    the list takes the place of a removed primary node. *)
Fixpoint compress_chain (chain : list node) : list node :=
  match chain with
  | [] => []
  | None :: chain => compress_chain chain
  | Some kv :: chain => Some kv :: compress_chain chain
  end.

Definition compress_bucket (b : list node) : list node :=
  match b with
  | [] => []
  | root :: chain =>
      match root, compress_chain chain with
      | None, n :: rest => n :: rest
      | _, chain => root :: chain
      end
  end.

Definition hash_table_compress (t : hash_table) (i : nat) : option hash_table :=
  b ← nodes t !! i;
  nodes' ← array_set (nodes t) i (compress_bucket b);
  Some (set_nodes t nodes').

Definition hash_table_compress_removed (t : hash_table) : hash_table :=
  set_removed_count (set_nodes t (map compress_bucket (nodes t))) 0.

Definition hash_table_try_remove (t : hash_table) (key : K) : option (bool * hash_table) :=
  let hash := hash_cb key in
  pos ← hash_table_lookup_node t key hash;
  match pos with
  | None => Some (false, t)
  | Some pos =>
      t ← set_node t pos None;
      let t := set_nodes_count t (u32 (nodes_count t - 1)) in
      if negb (frozen t =? 0) then Some (true, set_removed_count t (u32 (removed_count t + 1)))
      else
        '(resized, t) ← hash_table_resize t false;
        if (resized : bool) then Some (true, t)
        else t ← hash_table_compress t (bucket_idx t hash); Some (true, t)
  end.

(** The macro: a missing key is a panic. *)
Definition hash_table_remove (t : hash_table) (key : K) : option hash_table :=
  '(found, t) ← hash_table_try_remove t key;
  _ ← assert found;
  Some t.

Definition hash_table_count (t : hash_table) : Z := nodes_count t.

Definition hash_table_freeze (t : hash_table) : hash_table := set_frozen t (frozen t + 1).

Definition hash_table_thaw (t : hash_table) : option hash_table :=
  _ ← assert (frozen t >? 0);
  let t := set_frozen t (frozen t - 1) in
  if frozen t >? 0 then Some t
  else if removed_count t >? 0 then
    '(resized, t) ← hash_table_resize t false;
    Some (if (resized : bool) then t else hash_table_compress_removed t)
  else Some t.

(** ** Iteration

    [it_next] is the address of the node [ctx->next]. *)
Record hash_iterate_context := Iter { it_next : option (nat * nat); it_pos : nat }.

Definition hash_table_iterate_init (t : hash_table) : hash_table * hash_iterate_context :=
  (hash_table_freeze t, Iter (Some (0, 0)%nat) 0).

(** The next node in use after [node] and the new [ctx->pos]. *)
Fixpoint hash_table_iterate_next (fuel : nat) (t : hash_table) (pos : nat) (node : nat * nat)
    : option (option (nat * nat) * nat) :=
  match fuel with
  | O => None
  | S fuel =>
      let next := (node.1, S node.2) in
      match get_node t next with
      | Some (Some _) => Some (Some next, pos)
      | Some None => hash_table_iterate_next fuel t pos next
      | None =>
          let pos' := S pos in
          if (pos' =? length (nodes t))%nat then Some (None, pos)
          else
            n ← get_node t (pos', 0%nat);
            match n with
            | Some _ => Some (Some (pos', 0%nat), pos')
            | None => hash_table_iterate_next fuel t pos' (pos', 0%nat)
            end
      end
  end.

(** One step for every node. *)
Definition iterate_fuel (t : hash_table) : nat := S (length (concat (nodes t))).

Definition hash_table_iterate (t : hash_table) (ctx : hash_iterate_context)
    : option (option (K * V) * hash_iterate_context) :=
  '(node, pos) ← match it_next ctx with
                 | None => Some (None, it_pos ctx)
                 | Some node =>
                     n ← get_node t node;
                     match n with
                     | Some _ => Some (Some node, it_pos ctx)
                     | None => hash_table_iterate_next (iterate_fuel t) t (it_pos ctx) node
                     end
                 end;
  match node with
  | None => Some (None, Iter (it_next ctx) pos)
  | Some node =>
      n ← get_node t node;
      kv ← n;
      '(next, pos) ← hash_table_iterate_next (iterate_fuel t) t pos node;
      Some (Some kv, Iter next pos)
  end.

Definition hash_table_iterate_deinit (t : hash_table) : option hash_table := hash_table_thaw t.

(** The loop of [hash_table_copy]; [dest] is another table than [src]. *)
Fixpoint copy_loop (fuel : nat) (src dest : hash_table) (ctx : hash_iterate_context) : option hash_table :=
  match fuel with
  | O => None
  | S fuel =>
      '(kv, ctx) ← hash_table_iterate src ctx;
      match kv with
      | None => Some dest
      | Some (k, v) => dest ← hash_table_insert dest k v; copy_loop fuel src dest ctx
      end
  end.

(** The new [dest] and [src]. *)
Definition hash_table_copy (dest src : hash_table) : option (hash_table * hash_table) :=
  let dest := hash_table_freeze dest in
  let '(src, ctx) := hash_table_iterate_init src in
  dest ← copy_loop (S (iterate_fuel src)) src dest ctx;
  src ← hash_table_iterate_deinit src;
  dest ← hash_table_thaw dest;
  Some (dest, src).
End Code.

Arguments hash_table : clear implicits.

(** ** Hash functions *)

Definition hash_step (h c : Z) : Z :=
  let h := u32 (u32 (Z.shiftl h 4) + c) in
  let g := Z.land h 0xf0000000 in
  if negb (g =? 0) then Z.lxor (Z.lxor h (Z.shiftr g 24)) g else h.

Definition str_hash (s : list Z) : Z := fold_left hash_step s 0.
Definition strcase_hash (s : list Z) : Z := fold_left (fun h c => hash_step h (toupper c)) s 0.
Definition mem_hash (s : list Z) : Z := fold_left hash_step s 0.
