(* ===== verification/HashProps.v ===== *)
(** * Correctness of hash tables

    [entries] lists what a table holds, [wf] is its invariant: every key is in
    the bucket of its hash, no key is there twice, and without pending
    removals the lists have no holes.  Insertion, removal, freezing and
    iteration are described by their effect on the entries up to order, so
    that the resizing inside them cannot be observed. *)

From S2P Require Import Prelude Hash.

(** What the callbacks have to be: equal keys form an equivalence and have the
    same hash. *)
Class HashKey {K} (hash_cb : K -> Z) (cmp : K -> K -> Z) : Prop := {
  key_refl k : cmp k k = 0;
  key_sym a b : cmp a b = 0 -> cmp b a = 0;
  key_trans a b c : cmp a b = 0 -> cmp b c = 0 -> cmp a c = 0;
  key_hash a b : cmp a b = 0 -> hash_cb a = hash_cb b;
}.

(** ** Entries *)

Section Entries.
Context {K V : Type}.
Implicit Types (b : list (option (K * V))) (t : hash_table K V).

Definition ents b : list (K * V) := omap id b.
Definition entries t : list (K * V) := ents (concat (nodes t)).

Lemma ents_app b1 b2 : ents (b1 ++ b2) = ents b1 ++ ents b2.
Proof. apply omap_app. Qed.

Lemma ents_some kv b : ents (Some kv :: b) = kv :: ents b.
Proof. done. Qed.

(** An entry in the middle of a bucket. *)
Lemma ents_middle b1 kv b2 rest : ents (b1 ++ Some kv :: b2) ++ rest ≡ₚ kv :: ents b1 ++ ents b2 ++ rest.
Proof. rewrite ents_app, ents_some, <- app_assoc. symmetry. apply Permutation_middle. Qed.

Lemma ents_hole b1 b2 : ents (b1 ++ None :: b2) = ents b1 ++ ents b2.
Proof. by rewrite ents_app. Qed.

Lemma ents_new n : ents (concat (new_nodes n)) = [].
Proof. unfold new_nodes. induction (Z.to_nat n) as [|m IH]; [done |]. cbn. exact IH. Qed.

(** The entries seen from the bucket [i]. *)
Lemma entries_bucket t i b :
  nodes t !! i = Some b ->
  exists rest, entries t ≡ₚ ents b ++ rest /\
    (forall b', ents (concat (<[i := b']> (nodes t))) ≡ₚ ents b' ++ rest) /\
    (forall kv, kv ∈ rest -> exists i' b', i' <> i /\ nodes t !! i' = Some b' /\ kv ∈ ents b').
Proof.
  intros Hb. pose proof (take_drop_middle _ _ _ Hb) as Hsplit. pose proof (lookup_lt_Some _ _ _ Hb) as Hlt.
  set (A := take i (nodes t)) in *. set (B := drop (S i) (nodes t)) in *.
  assert (HA : length A = i) by (unfold A; rewrite length_take; lia).
  exists (ents (concat A) ++ ents (concat B)). unfold entries. split; [| split].
  - rewrite <- Hsplit, concat_app. cbn. rewrite !ents_app. by rewrite Permutation_app_swap_app.
  - intros b'. rewrite <- Hsplit, <- HA, insert_app_r_alt, Nat.sub_diag by lia. cbn. rewrite concat_app. cbn.
    rewrite !ents_app. by rewrite Permutation_app_swap_app.
  - assert (Hin : forall kv l, kv ∈ ents (concat l) -> exists j b', l !! j = Some b' /\ kv ∈ ents b').
    { clear. intros kv l. induction l as [|b l IH]; cbn; [by intros ?%elem_of_nil |]. rewrite ents_app.
      intros [Hin | Hin]%elem_of_app; [by exists 0%nat, b |]. destruct (IH Hin) as (j & b' & ? & ?). by exists (S j), b'. }
    intros kv [Hkv | Hkv]%elem_of_app; destruct (Hin _ _ Hkv) as (j & b' & Hj & Hkv').
    + pose proof (lookup_lt_Some _ _ _ Hj). exists j, b'. split; [lia |]. split; [| done]. rewrite <- Hsplit. by apply lookup_app_l_Some.
    + exists (S i + j)%nat, b'. split; [lia |]. split; [| done]. unfold B in Hj. by rewrite lookup_drop in Hj.
Qed.

Lemma elem_of_entries t i b kv : nodes t !! i = Some b -> kv ∈ ents b -> kv ∈ entries t.
Proof. intros Hb Hin. destruct (entries_bucket t i b Hb) as (rest & -> & _). apply elem_of_app. by left. Qed.

Lemma entries_elem t kv : kv ∈ entries t -> exists i b, nodes t !! i = Some b /\ kv ∈ ents b.
Proof.
  unfold entries. induction (nodes t) as [|b l IH]; cbn; [by intros ?%elem_of_nil |]. rewrite ents_app.
  intros [Hin | Hin]%elem_of_app; [by exists 0%nat, b |]. destruct (IH Hin) as (i & b' & ? & ?). by exists (S i), b'.
Qed.
End Entries.

(** ** The invariant *)

Section Invariant.
Context {K V : Type} (hash_cb : K -> Z) (cmp : K -> K -> Z) `{!HashKey hash_cb cmp}.
Implicit Types (t : hash_table K V) (l : list (K * V)).

Definition keq (a b : K) : bool := cmp a b =? 0.

Lemma keq_sym a b : keq a b = keq b a.
Proof. unfold keq. destruct (Z.eqb_spec (cmp a b) 0) as [H | H], (Z.eqb_spec (cmp b a) 0) as [H' | H']; try done; by apply key_sym in H || apply key_sym in H'. Qed.

Lemma keq_refl a : keq a a = true.
Proof. unfold keq. by rewrite key_refl. Qed.

(** Equal keys cannot be told apart. *)
Lemma keq_congr a b c : keq a b = true -> keq a c = keq b c.
Proof.
  unfold keq. intros Hab%Z.eqb_eq. destruct (Z.eqb_spec (cmp a c) 0) as [H | H], (Z.eqb_spec (cmp b c) 0) as [H' | H']; try done.
  - exfalso. apply H'. apply key_trans with a; [by apply key_sym | done].
  - exfalso. apply H. by apply key_trans with b.
Qed.

Lemma keq_hash a b : keq a b = true -> hash_cb a = hash_cb b.
Proof. intros H%Z.eqb_eq. by apply key_hash. Qed.

(** No two entries with equal keys. *)
Fixpoint nodupk l : Prop :=
  match l with
  | [] => True
  | x :: l => Forall (fun y => keq x.1 y.1 = false) l /\ nodupk l
  end.

#[export] Instance nodupk_perm : Proper (Permutation ==> iff) nodupk.
Proof.
  assert (Himp : forall l1 l2, l1 ≡ₚ l2 -> nodupk l1 -> nodupk l2).
  { induction 1 as [| x l1 l2 Hp IH | x y l | l1 l2 l3 _ IH1 _ IH2]; [done | | | by auto].
    - cbn. intros [Hf Hn]. split; [by rewrite <- Hp | by apply IH].
    - cbn. intros [Hf1 [Hf2 Hn]]. apply Forall_cons in Hf1 as [Hxy Hf1]. split_and!; [constructor; [by rewrite keq_sym | done] | done | done]. }
  intros l1 l2 Hp. split; by apply Himp.
Qed.

(** The key is not in use. *)
Definition fresh (key : K) l : Prop := Forall (fun e => keq e.1 key = false) l.

(** The entries with other keys. *)
Definition without (key : K) l : list (K * V) := filter (fun e => keq e.1 key = false) l.

#[export] Instance without_perm key : Proper (Permutation ==> Permutation) (without key).
Proof. intros l1 l2 Hp. unfold without. by rewrite Hp. Qed.

#[export] Instance fresh_perm key : Proper (Permutation ==> iff) (fresh key).
Proof. intros l1 l2 Hp. unfold fresh. by rewrite Hp. Qed.

Lemma without_fresh key l : fresh key l -> without key l = l.
Proof. induction 1 as [|x l Hx _ IH]; [done |]. unfold without in *. rewrite filter_cons_True by done. by f_equal. Qed.

Lemma without_eq key kv l : keq kv.1 key = true -> without key (kv :: l) = without key l.
Proof. intros Hk. unfold without. apply filter_cons_False. by rewrite Hk. Qed.

Lemma without_ne key kv l : keq kv.1 key = false -> without key (kv :: l) = kv :: without key l.
Proof. intros Hk. unfold without. by apply filter_cons_True. Qed.

Lemma without_congr a b l : keq a b = true -> without a l = without b l.
Proof.
  intros Hab. assert (Hx : forall x : K * V, keq x.1 a = keq x.1 b) by (intros x; by rewrite !(keq_sym x.1), (keq_congr a b)).
  induction l as [|x l IH]; [done |]. destruct (keq x.1 a) eqn:E.
  - by rewrite !without_eq by congruence.
  - by rewrite !without_ne, IH by congruence.
Qed.

Lemma fresh_without key l : fresh key (without key l).
Proof. apply Forall_forall. by intros x [? _]%list_elem_of_filter. Qed.

Lemma fresh_congr a b l : keq a b = true -> fresh a l -> fresh b l.
Proof.
  intros Hab Hf. eapply Forall_impl; [exact Hf |]. cbn. intros x Hx.
  by rewrite keq_sym, <- (keq_congr a b x.1) by done; rewrite keq_sym.
Qed.

Lemma nodupk_cons_fresh k v l : nodupk ((k, v) :: l) <-> fresh k l /\ nodupk l.
Proof.
  cbn. unfold fresh. split; intros [Hf Hn]; (split; [| done]); (eapply Forall_impl; [exact Hf |]); cbn; intros x Hx; by rewrite keq_sym.
Qed.

Lemma nodupk_without key l : nodupk l -> nodupk (without key l).
Proof.
  induction l as [|x l IH]; [done |]. intros [Hf Hn]. unfold without in *. destruct (decide (keq x.1 key = false)) as [Hx | Hx].
  - rewrite filter_cons_True by done. split; [| by apply IH]. apply Forall_forall. intros y [_ Hy]%list_elem_of_filter.
    by apply (proj1 (Forall_forall _ _) Hf).
  - rewrite filter_cons_False by done. by apply IH.
Qed.

(** A bucket without holes. *)
Definition dense (b : list (option (K * V))) : Prop :=
  match b with
  | [] => False
  | root :: chain => Forall is_Some chain /\ (root = None -> chain = [])
  end.

Record wf t : Prop := {
  wf_size : (0 < length (nodes t))%nat;
  wf_bucket : Forall (fun b => b <> []) (nodes t);
  wf_hash : forall i b kv, nodes t !! i = Some b -> kv ∈ ents b -> bucket_idx t (hash_cb kv.1) = i;
  wf_nodup : nodupk (entries t);
  wf_count : nodes_count t = u32 (Z.of_nat (length (entries t)));
  wf_dense : removed_count t = 0 -> Forall dense (nodes t);
  wf_removed : 0 <= removed_count t;
  wf_frozen : 0 <= frozen t;
  wf_thawed : frozen t = 0 -> removed_count t = 0;
  wf_initial : HASH_TABLE_MIN_SIZE <= initial_size t;
}.

Lemma bucket_idx_lt t h : (0 < length (nodes t))%nat -> (bucket_idx t h < length (nodes t))%nat.
Proof. intros Hs. unfold bucket_idx, size. pose proof (Z.mod_pos_bound h (Z.of_nat (length (nodes t))) ltac:(lia)). lia. Qed.

(** Every hash has its bucket, with a primary node. *)
Lemma wf_lookup t h : wf t -> exists b root chain, nodes t !! bucket_idx t h = Some b /\ b = root :: chain.
Proof.
  intros Hwf. destruct (lookup_lt_is_Some_2 (nodes t) _ (bucket_idx_lt t h (wf_size t Hwf))) as [b Hb].
  pose proof (Forall_lookup_1 _ _ _ _ (wf_bucket t Hwf) Hb) as Hne. destruct b as [|root chain]; [done |]. eauto.
Qed.

(** A key that is not in its bucket is not in the table. *)
Lemma fresh_bucket t key b :
  wf t -> nodes t !! bucket_idx t (hash_cb key) = Some b -> fresh key (ents b) -> fresh key (entries t).
Proof.
  intros Hwf Hb Hf. apply Forall_forall. intros kv Hin. destruct (keq kv.1 key) eqn:E; [exfalso | done].
  apply entries_elem in Hin as (i & b' & Hb' & Hin). pose proof (wf_hash t Hwf i b' kv Hb' Hin) as Hi.
  rewrite (keq_hash _ _ E) in Hi. subst i. rewrite Hb in Hb'. injection Hb' as <-.
  pose proof (proj1 (Forall_forall _ _) Hf kv Hin) as Hk. cbn in Hk. congruence.
Qed.
End Invariant.

(** ** Changing one bucket *)

Section Update.
Context {K V : Type} (hash_cb : K -> Z) (cmp : K -> K -> Z) `{!HashKey hash_cb cmp}.
Implicit Types (t : hash_table K V).
Notation wf := (wf hash_cb cmp).
Notation keq := (keq cmp).
Notation fresh := (fresh cmp).
Notation without := (without cmp).

Lemma fresh_rest t i rest key :
  wf t -> i = bucket_idx t (hash_cb key) ->
  (forall kv, kv ∈ rest -> exists i' b', i' <> i /\ nodes t !! i' = Some b' /\ kv ∈ ents b') -> fresh key rest.
Proof.
  intros Hwf -> Hrest. apply Forall_forall. intros kv (i' & b' & Hne & Hb' & Hin)%Hrest. destruct (keq kv.1 key) eqn:E; [exfalso | done].
  apply Hne. rewrite <- (keq_hash hash_cb cmp _ _ E). symmetry. by apply (wf_hash _ _ t Hwf i' b').
Qed.

(** The table after bucket [i] became [b'], with counters [c] and [r]. *)
Definition with_bucket t (i : nat) (b' : list (option (K * V))) (c r : Z) : hash_table K V :=
  HT (frozen t) (initial_size t) c r (<[i := b']> (nodes t)).

Lemma with_bucket_wf t i b b' c r :
  wf t -> nodes t !! i = Some b -> b' <> [] ->
  (forall kv, kv ∈ ents b' -> bucket_idx t (hash_cb kv.1) = i) ->
  nodupk cmp (entries (with_bucket t i b' c r)) -> c = u32 (Z.of_nat (length (entries (with_bucket t i b' c r)))) ->
  0 <= r -> (frozen t = 0 -> r = 0) -> (r = 0 -> dense b') -> (r = 0 -> forall j x, j <> i -> nodes t !! j = Some x -> dense x) ->
  wf (with_bucket t i b' c r).
Proof.
  intros Hwf Hb Hne Hh Hnd Hc Hr Hfr Hdb Hd. pose proof (lookup_lt_Some _ _ _ Hb) as Hi.
  assert (Hidx : forall h, bucket_idx (with_bucket t i b' c r) h = bucket_idx t h)
    by (intros; unfold bucket_idx, size; cbn; by rewrite length_insert).
  split; try done; cbn [nodes frozen initial_size nodes_count removed_count with_bucket].
  - rewrite length_insert. lia.
  - apply Forall_insert; [apply (wf_bucket _ _ t Hwf) | done].
  - intros j x kv Hj Hin. rewrite Hidx. cbn in Hj. destruct (decide (i = j)) as [<- | Hij].
    + rewrite list_lookup_insert_eq in Hj by done. injection Hj as <-. by apply Hh.
    + rewrite list_lookup_insert_ne in Hj by done. by apply (wf_hash _ _ t Hwf j x).
  - intros Hr0. apply Forall_lookup_2. intros j x Hj. cbn in Hj. destruct (decide (i = j)) as [<- | Hij].
    + rewrite list_lookup_insert_eq in Hj by done. injection Hj as <-. by apply Hdb.
    + rewrite list_lookup_insert_ne in Hj by done. by apply (Hd Hr0 j).
  - apply (wf_frozen _ _ t Hwf).
  - apply (wf_initial _ _ t Hwf).
Qed.

Lemma set_node_spec t i l n r n' :
  nodes t !! i = Some (l ++ n :: r) ->
  set_node t (i, length l) n' = Some (with_bucket t i (l ++ n' :: r) (nodes_count t) (removed_count t)).
Proof.
  intros Hb. pose proof (lookup_lt_Some _ _ _ Hb) as Hi. unfold set_node. cbn [fst snd]. rewrite Hb. cbn [mbind option_bind].
  rewrite array_set_app. cbn [mbind option_bind]. unfold array_set. by rewrite (proj2 (Nat.ltb_lt _ _)).
Qed.

Lemma get_node_spec t i l n r : nodes t !! i = Some (l ++ n :: r) -> get_node t (i, length l) = Some n.
Proof. intros Hb. unfold get_node. cbn. rewrite Hb. cbn. by rewrite list_lookup_middle. Qed.

(** Replacing an entry by one with an equal key. *)
Lemma replace_entry t i l k0 v0 r k v :
  wf t -> nodes t !! i = Some (l ++ Some (k0, v0) :: r) -> keq k0 k = true ->
  let t' := with_bucket t i (l ++ Some (k, v) :: r) (nodes_count t) (removed_count t) in
  wf t' /\ entries t' ≡ₚ (k, v) :: without k (entries t).
Proof.
  intros Hwf Hb Hk t'. destruct (entries_bucket t i _ Hb) as (rest & He & Hb' & Hrest).
  assert (He0 : entries t ≡ₚ (k0, v0) :: ents l ++ ents r ++ rest).
  { by rewrite He, ents_middle. }
  assert (He' : entries t' ≡ₚ (k, v) :: ents l ++ ents r ++ rest).
  { unfold entries, t', with_bucket. cbn [nodes]. by rewrite Hb', ents_middle. }
  pose proof (wf_nodup _ _ t Hwf) as Hnd. rewrite He0 in Hnd. apply (nodupk_cons_fresh hash_cb cmp) in Hnd as [Hf Hnd].
  assert (Hf' : fresh k (ents l ++ ents r ++ rest)) by (by apply (fresh_congr hash_cb cmp k0)).
  split.
  - apply with_bucket_wf with (l ++ Some (k0, v0) :: r); try done.
    + by destruct l.
    + assert (Hold : forall kv, kv ∈ ents l \/ kv = (k0, v0) \/ kv ∈ ents r -> bucket_idx t (hash_cb kv.1) = i).
      { intros kv Hin. apply (wf_hash _ _ t Hwf i _ _ Hb). by rewrite ents_app, ents_some, elem_of_app, elem_of_cons. }
      intros kv. rewrite ents_app, ents_some, elem_of_app, elem_of_cons. intros [Hin | [-> | Hin]]; [by auto | | by auto].
      cbn. rewrite <- (keq_hash hash_cb cmp k0) by done. apply (Hold (k0, v0)). by auto.
    + fold t'. rewrite He'. by apply (nodupk_cons_fresh hash_cb cmp).
    + fold t'. rewrite (wf_count _ _ t Hwf), He0, He'. done.
    + apply (wf_removed _ _ t Hwf).
    + apply (wf_thawed _ _ t Hwf).
    + intros Hr0. pose proof (Forall_lookup_1 _ _ _ _ (wf_dense _ _ t Hwf Hr0) Hb) as Hd.
      destruct l as [|root l]; [by destruct Hd |]. destruct Hd as [Hd1 Hd2]. split; [| by intros Hr%Hd2; destruct l].
      rewrite Forall_app, Forall_cons in *. naive_solver.
    + intros Hr0 j x _ Hj. by apply (Forall_lookup_1 _ _ _ _ (wf_dense _ _ t Hwf Hr0) Hj).
  - by rewrite He', He0, without_eq, without_fresh.
Qed.

(** Adding an entry with a new key to its bucket. *)
Lemma add_entry t i b b' k v :
  wf t -> fresh k (entries t) -> i = bucket_idx t (hash_cb k) -> nodes t !! i = Some b ->
  b' <> [] -> ents b' ≡ₚ (k, v) :: ents b -> (dense b -> dense b') ->
  let t' := with_bucket t i b' (u32 (nodes_count t + 1)) (removed_count t) in
  wf t' /\ entries t' ≡ₚ (k, v) :: without k (entries t).
Proof.
  intros Hwf Hf Hi Hb Hne Hents Hdense t'. destruct (entries_bucket t i b Hb) as (rest & He & Hb' & Hrest).
  assert (He' : entries t' ≡ₚ (k, v) :: entries t) by (unfold entries at 1, t', with_bucket; cbn [nodes]; by rewrite Hb', Hents, He).
  split; [| by rewrite without_fresh].
  apply with_bucket_wf with b; try done.
  - intros kv Hin. rewrite Hents in Hin. apply elem_of_cons in Hin as [-> | Hin]; [done |]. by apply (wf_hash _ _ t Hwf i b).
  - fold t'. rewrite He'. apply (nodupk_cons_fresh hash_cb cmp). split; [done | apply (wf_nodup _ _ t Hwf)].
  - fold t'. rewrite He'. cbn [length]. rewrite (wf_count _ _ t Hwf), Nat2Z.inj_succ. unfold u32. by rewrite Zplus_mod_idemp_l.
  - apply (wf_removed _ _ t Hwf).
  - apply (wf_thawed _ _ t Hwf).
  - intros Hr0. apply Hdense. by apply (Forall_lookup_1 _ _ _ _ (wf_dense _ _ t Hwf Hr0) Hb).
  - intros Hr0 j x _ Hj. by apply (Forall_lookup_1 _ _ _ _ (wf_dense _ _ t Hwf Hr0) Hj).
Qed.
End Update.

(** ** Searching *)

Section Insert.
Context {K V : Type} (hash_cb : K -> Z) (cmp : K -> K -> Z) `{!HashKey hash_cb cmp}.
Implicit Types (t : hash_table K V) (b : list (option (K * V))).
Notation wf := (wf hash_cb cmp).
Notation keq := (keq cmp).
Notation fresh := (fresh cmp).
Notation without := (without cmp).

Lemma find_node_spec b key j0 :
  match find_node cmp b key j0 with
  | Some j => exists l k v r, b = l ++ Some (k, v) :: r /\ j = (j0 + length l)%nat /\ keq k key = true
  | None => fresh key (ents b)
  end.
Proof.
  revert j0. induction b as [|[[k v]|] b IH]; intros j0; cbn [find_node]; [constructor | |].
  - destruct (cmp k key =? 0) eqn:E; [by exists [], k, v, b; rewrite Nat.add_0_r |]. specialize (IH (S j0)).
    destruct (find_node cmp b key (S j0)) as [j|]; [| rewrite ents_some; by constructor].
    destruct IH as (l & k' & v' & r & -> & -> & Hk). exists (Some (k, v) :: l), k', v', r. cbn. split_and!; [done | lia | done].
  - specialize (IH (S j0)). destruct (find_node cmp b key (S j0)) as [j|]; [| done].
    destruct IH as (l & k' & v' & r & -> & -> & Hk). exists (None :: l), k', v', r. cbn. split_and!; [done | lia | done].
Qed.

(** A lookup finds the node of an equal key, if there is one. *)
Lemma lookup_node_spec t key :
  wf t ->
  let i := bucket_idx t (hash_cb key) in
  exists b, nodes t !! i = Some b /\
  ((hash_table_lookup_node cmp t key (hash_cb key) = Some None /\ fresh key (entries t)) \/
   exists l k v r, hash_table_lookup_node cmp t key (hash_cb key) = Some (Some (i, length l)) /\
     b = l ++ Some (k, v) :: r /\ keq k key = true).
Proof.
  intros Hwf i. destruct (wf_lookup _ _ t (hash_cb key) Hwf) as (b & _ & _ & Hb & _). exists b. split; [done |].
  unfold hash_table_lookup_node. cbv zeta. rewrite Hb. cbn [mbind option_bind]. pose proof (find_node_spec b key 0) as Hfind.
  destruct (find_node cmp b key 0) as [j|].
  - right. destruct Hfind as (l & k & v & r & -> & -> & Hk). by exists l, k, v, r.
  - left. split; [done |]. by apply (fresh_bucket hash_cb cmp t key b).
Qed.

Definition walk_spec b key (ce : bool) (j0 : nat) (stop : chain_stop) : Prop :=
  match stop with
  | StopMatch j => exists l k v r, b = l ++ Some (k, v) :: r /\ j = (j0 + length l)%nat /\ keq k key = true
  | StopHole j => exists l r, b = l ++ None :: r /\ j = (j0 + length l)%nat
  | StopEnd j => j = (j0 + length b)%nat /\ Forall is_Some b /\ (ce = true -> fresh key (ents b))
  end.

Lemma walk_chain_spec b key ce j0 : walk_spec b key ce j0 (walk_chain cmp b key ce j0).
Proof.
  revert j0. induction b as [|[[k v]|] b IH]; intros j0; cbn [walk_chain].
  - cbn. split_and!; [lia | constructor | constructor].
  - destruct (ce && (cmp k key =? 0)) eqn:E.
    { apply andb_true_iff in E as [_ E]. exists [], k, v, b. rewrite Nat.add_0_r. done. }
    specialize (IH (S j0)). destruct (walk_chain cmp b key ce (S j0)) as [j | j | j]; cbn in *.
    + destruct IH as (l & k' & v' & r & -> & -> & Hk). exists (Some (k, v) :: l), k', v', r. cbn. split_and!; [done | lia | done].
    + destruct IH as (l & r & -> & ->). exists (Some (k, v) :: l), r. cbn. split_and!; [done | lia].
    + destruct IH as (-> & Hs & Hf). split_and!; [lia | by constructor; [eexists |] |]. intros ->. constructor; [done | by apply Hf].
  - exists [], b. cbn. split; [done | lia].
Qed.

(** ** Insertion *)

(** What an insertion does to the table [t]: the node at [pos] holds the new
    value under a key equal to [key]. *)
Definition inserted t key value t' (pos : nat * nat) : Prop :=
  wf t' /\ frozen t' = frozen t /\ initial_size t' = initial_size t /\
  exists l k0 r, nodes t' !! pos.1 = Some (l ++ Some (k0, value) :: r) /\ pos.2 = length l /\ keq k0 key = true /\
    entries t' ≡ₚ (k0, value) :: without key (entries t) /\ (fresh key (entries t) -> k0 = key) /\
    (fresh key (entries t) \/ exists v0, (k0, v0) ∈ entries t).

(** An insertion that stays in the primary table. *)
Definition inserted_here t key value t' pos : Prop :=
  inserted t key value t' pos /\ length (nodes t') = length (nodes t) /\ removed_count t' = removed_count t.

Lemma fresh_not t i l k v r key :
  nodes t !! i = Some (l ++ Some (k, v) :: r) -> keq k key = true -> ~ fresh key (entries t).
Proof.
  intros Hb Hk Hf. apply (proj1 (Forall_forall _ _)) with (x := (k, v)) in Hf; [cbn in Hf; congruence |].
  apply (elem_of_entries t i _ _ Hb). rewrite ents_app, ents_some, elem_of_app, elem_of_cons. by auto.
Qed.

Lemma set_value_spec t i l k0 v0 r key value :
  wf t -> nodes t !! i = Some (l ++ Some (k0, v0) :: r) -> keq k0 key = true ->
  exists t', set_value t (i, length l) value = Some t' /\ inserted_here t key value t' (i, length l).
Proof.
  intros Hwf Hb Hk. unfold set_value. rewrite (get_node_spec _ _ _ _ _ Hb). cbn [mbind option_bind fst].
  rewrite (set_node_spec _ _ _ _ _ _ Hb). eexists. split; [done |].
  destruct (replace_entry hash_cb cmp t i l k0 v0 r k0 value Hwf Hb (keq_refl hash_cb cmp k0)) as [Hwf' He].
  split; [| split; [cbn; by rewrite length_insert | done]]. split_and!; [done | done | done |].
  exists l, k0, r. cbn [nodes with_bucket fst snd]. pose proof (lookup_lt_Some _ _ _ Hb). split_and!; [by rewrite list_lookup_insert_eq | done | done | | |].
  - by rewrite He, (without_congr hash_cb cmp k0 key).
  - intros Hf. by destruct (fresh_not t i l k0 v0 r key Hb Hk).
  - right. exists v0. apply (elem_of_entries t i _ _ Hb). rewrite ents_app, ents_some, elem_of_app, elem_of_cons. by auto.
Qed.

(** Storing a new key in bucket [b], which becomes [l ++ Some (key, value) :: r]. *)
Lemma add_here t key value l r b :
  wf t -> fresh key (entries t) -> nodes t !! bucket_idx t (hash_cb key) = Some b ->
  ents b = ents l ++ ents r -> (dense b -> dense (l ++ Some (key, value) :: r)) ->
  let i := bucket_idx t (hash_cb key) in
  inserted_here t key value (with_bucket t i (l ++ Some (key, value) :: r) (u32 (nodes_count t + 1)) (removed_count t)) (i, length l).
Proof.
  intros Hwf Hf Hb Hents Hd i. pose proof (lookup_lt_Some _ _ _ Hb).
  destruct (add_entry hash_cb cmp t i b (l ++ Some (key, value) :: r) key value Hwf Hf eq_refl Hb) as [Hwf' He]; [by destruct l | | done |].
  { rewrite <- (app_nil_r (ents (_ ++ _))), ents_middle, app_nil_r. by rewrite Hents. }
  split; [| split; [cbn; by rewrite length_insert | done]]. split_and!; [done | done | done |].
  exists l, key, r. cbn [nodes with_bucket fst snd]. split_and!; [by rewrite list_lookup_insert_eq | done | by apply (keq_refl hash_cb) | done | done | by left].
Qed.

Lemma dense_hole root l r kv : dense (root :: l ++ None :: r) -> dense (root :: l ++ Some kv :: r : list (option (K * V))).
Proof. intros [Hf _]. apply Forall_app in Hf as [_ [[? H] _]%Forall_cons]. done. Qed.

Lemma dense_app k v chain n : is_Some n -> dense (Some (k, v) :: chain) -> dense (Some (k, v) :: chain ++ [n] : list (option (K * V))).
Proof. intros Hn [Hf _]. split; [| done]. apply Forall_app. split; [done | by constructor]. Qed.

(** The search in the bucket finds the key or a place for it, or ends where
    the new node is to be appended. *)
Lemma insert_in_bucket_spec at_end t key value ce :
  wf t -> (ce = false -> fresh key (entries t)) -> (ce = true -> removed_count t = 0) ->
  let i := bucket_idx t (hash_cb key) in
  exists t' pos, inserted_here t key value t' pos /\
    (insert_in_bucket hash_cb cmp at_end t key value ce = Some (t', pos) \/
     fresh key (entries t) /\ exists b, nodes t !! i = Some b /\
       t' = with_bucket t i (b ++ [Some (key, value)]) (u32 (nodes_count t + 1)) (removed_count t) /\ pos = (i, length b) /\
       insert_in_bucket hash_cb cmp at_end t key value ce = at_end i b (length b)).
Proof.
  intros Hwf Hf Hr i. destruct (wf_lookup _ _ t (hash_cb key) Hwf) as (b & root & chain & Hb & ->). fold i in Hb.
  pose proof (fun H => Forall_lookup_1 _ _ _ _ (wf_dense _ _ t Hwf H) Hb) as Hdense.
  unfold insert_in_bucket. cbv zeta. fold i. rewrite Hb. cbn [mbind option_bind lookup list_lookup].
  assert (Hset : forall l r, root :: chain = l ++ None :: r -> fresh key (entries t) ->
    exists t', set_node (set_nodes_count t (u32 (nodes_count t + 1))) (i, length l) (Some (key, value)) = Some t' /\
      inserted_here t key value t' (i, length l)).
  { intros l r Heq Hfk. rewrite Heq in *. rewrite (set_node_spec _ i l None r) by done. eexists. split; [done |].
    apply (add_here t key value l r (l ++ None :: r)); [done | done | done | apply ents_hole |].
    destruct l as [|x l]; [intros [_ Hn]; cbn; by rewrite (Hn eq_refl) | apply dense_hole]. }
  destruct root as [[k v]|].
  - destruct (ce && (cmp k key =? 0)) eqn:E.
    { apply andb_true_iff in E as [_ E]. destruct (set_value_spec t i [] k v chain key value Hwf Hb E) as (t' & Hs & Hins).
      exists t', (i, 0%nat). split; [done | left]. cbn in Hs. by rewrite Hs. }
    cbn [drop]. change (drop 1 (Some (k, v) :: chain)) with (drop 0 chain). rewrite drop_0.
    pose proof (walk_chain_spec chain key ce 1) as Hw. destruct (walk_chain cmp chain key ce 1) as [j | j | j]; cbn [walk_spec] in Hw.
    + destruct Hw as (l & k' & v' & r & -> & -> & Hk).
      destruct (set_value_spec t i (Some (k, v) :: l) k' v' r key value Hwf Hb Hk) as (t' & Hs & Hins).
      exists t', (i, S (length l)). split; [done | left]. cbn in Hs. cbn. by rewrite Hs.
    + destruct Hw as (l & r & -> & ->). assert (ce = false) as ->.
      { destruct ce; [| done]. destruct (Hdense (Hr eq_refl)) as [Hd _]. by apply Forall_app in Hd as [_ [[? ?] _]%Forall_cons]. }
      destruct (Hset (Some (k, v) :: l) r eq_refl (Hf eq_refl)) as (t' & Hs & Hins).
      exists t', (i, S (length l)). split; [done | left]. cbn in Hs. cbn. by rewrite Hs.
    + destruct Hw as (-> & Hsome & Hfc). assert (Hfk : fresh key (entries t)).
      { destruct ce; [| by apply Hf]. apply (fresh_bucket hash_cb cmp t key _ Hwf Hb). rewrite ents_some. constructor; [done | by apply Hfc]. }
      eexists _, (i, length (Some (k, v) :: chain)). split; [| right; split; [done |]; eexists; split_and!; done].
      apply (add_here t key value (Some (k, v) :: chain) [] (Some (k, v) :: chain)); [done | done | done | by rewrite app_nil_r |].
      apply dense_app. by eexists.
  - assert (Hfk : fresh key (entries t)).
    { destruct ce; [| by apply Hf]. apply (fresh_bucket hash_cb cmp t key _ Hwf Hb).
      destruct (Hdense (Hr eq_refl)) as [_ Hn]. rewrite (Hn eq_refl). constructor. }
    destruct (Hset [] chain eq_refl Hfk) as (t' & Hs & Hins). exists t', (i, 0%nat). split; [done | left]. cbn in Hs. by rewrite Hs.
Qed.

(** The resize that an insertion at the end of a list tries. *)
Definition resize_step (fuel : nat) t : option (bool * hash_table K V) :=
  if frozen t =? 0 then resize_with (fun t k v => hash_table_insert_node hash_cb cmp fuel t k v false) t true
  else Some (false, t).

(** Every insertion ends in the primary table, or at the end of a list where
    the table may be resized first. *)
Lemma insert_node_cases fuel t key value ce :
  wf t -> (ce = false -> fresh key (entries t)) ->
  let result := hash_table_insert_node hash_cb cmp (S fuel) t key value ce in
  exists t' pos, inserted_here t key value t' pos /\
    (result = Some (t', pos) \/
     fresh key (entries t) /\ (resize_step fuel t = Some (false, t) -> result = Some (t', pos)) /\
     (forall t0, resize_step fuel t = Some (true, t0) -> result = hash_table_insert_node hash_cb cmp fuel t0 key value false)).
Proof.
  intros Hwf Hce result. subst result. cbn [hash_table_insert_node]. cbv zeta.
  set (holes := ce && (removed_count t >? 0)).
  assert (Hex : (exists l k v r, (if holes then hash_table_lookup_node cmp t key (hash_cb key) else Some None)
      = Some (Some (bucket_idx t (hash_cb key), length l)) /\
      nodes t !! bucket_idx t (hash_cb key) = Some (l ++ Some (k, v) :: r) /\ keq k key = true) \/
    (if holes then hash_table_lookup_node cmp t key (hash_cb key) else Some None) = Some None /\
    ((if holes then false else ce) = false -> fresh key (entries t)) /\ ((if holes then false else ce) = true -> removed_count t = 0)).
  { pose proof (wf_removed _ _ t Hwf). unfold holes. destruct (ce && (removed_count t >? 0)) eqn:E.
    - destruct (lookup_node_spec t key Hwf) as (b & Hb & [[-> Hf] | (l & k & v & r & -> & -> & Hk)]); [by right | left]. by exists l, k, v, r.
    - right. split_and!; [done | done |]. intros ->. cbn in E. lia. }
  destruct Hex as [(l & k & v & r & -> & Hb & Hk) | (-> & Hf & Hr)]; cbn [mbind option_bind].
  { destruct (set_value_spec t _ l k v r key value Hwf Hb Hk) as (t' & -> & Hins). eexists _, _. split; [exact Hins | by left]. }
  match goal with |- context [insert_in_bucket _ _ ?f _ _ _ _] => set (at_end := f) end.
  destruct (insert_in_bucket_spec at_end t key value _ Hwf Hf Hr) as (t' & pos & Hins & [-> | (Hfk & b & Hb & -> & -> & ->)]).
  { eexists _, _. split; [exact Hins | by left]. }
  eexists _, _. split; [exact Hins | right]. split_and!; [done | |].
  - unfold at_end. fold (resize_step fuel t). intros ->. cbn [mbind option_bind]. unfold array_set.
    by rewrite (proj2 (Nat.ltb_lt _ _)) by (by eapply lookup_lt_Some).
  - unfold at_end. fold (resize_step fuel t). by intros t0 ->.
Qed.

(** ** Resizing *)

(** What an insertion has to do while nodes are moved. *)
Definition moves (ins : hash_table K V -> K -> V -> option (hash_table K V * (nat * nat))) : Prop :=
  forall t k v, wf t -> frozen t <> 0 -> fresh k (entries t) ->
  exists t' pos, ins t k v = Some (t', pos) /\ inserted_here t k v t' pos.

Lemma insert_node_moves fuel : moves (fun t k v => hash_table_insert_node hash_cb cmp (S fuel) t k v false).
Proof.
  intros t k v Hwf Hfr Hf. destruct (insert_node_cases fuel t k v false Hwf (fun _ => Hf)) as (t' & pos & Hins & [Heq | (_ & Heq & _)]).
  - by exists t', pos.
  - exists t', pos. split; [| done]. apply Heq. unfold resize_step. by rewrite (proj2 (Z.eqb_neq _ _)).
Qed.

Lemma nodupk_app_cons (l1 : list (K * V)) kv l2 :
  nodupk cmp (kv :: l1 ++ l2) -> fresh kv.1 l2 /\ nodupk cmp (l1 ++ kv :: l2).
Proof.
  intros Hn. split; [| by rewrite <- (Permutation_middle l1 l2 kv)].
  destruct kv as [k v]. apply (nodupk_cons_fresh hash_cb cmp) in Hn as [Hf _]. by apply Forall_app in Hf as [_ ?].
Qed.

Lemma move_nodes_spec ins old t :
  moves ins -> wf t -> frozen t <> 0 -> nodupk cmp (ents old ++ entries t) ->
  exists t', move_nodes ins old t = Some t' /\ wf t' /\ entries t' ≡ₚ ents old ++ entries t /\
    frozen t' = frozen t /\ initial_size t' = initial_size t /\ length (nodes t') = length (nodes t) /\
    removed_count t' = removed_count t.
Proof.
  intros Hmov. revert t. induction old as [|[[k v]|] old IH]; intros t Hwf Hfr Hnd; cbn [move_nodes]; [by exists t | | by apply IH].
  rewrite ents_some in *. cbn [app] in *. destruct (nodupk_app_cons _ _ _ Hnd) as [Hf Hnd'].
  destruct (Hmov t k v Hwf Hfr Hf) as (t1 & pos & -> & (Hwf1 & Hfr1 & Hin1 & _ & k0 & _ & _ & _ & _ & He1 & Hk0 & _) & Hl1 & Hr1).
  cbn [mbind option_bind]. rewrite (Hk0 Hf), without_fresh in He1 by done.
  destruct (IH t1 Hwf1) as (t' & -> & Hwf' & He' & ? & ? & ? & ?); [congruence | by rewrite He1 |].
  exists t'. split_and!; [done | done | | congruence | congruence | congruence | congruence].
  rewrite He', He1. symmetry. apply Permutation_middle.
Qed.

Lemma primes_closest_spec num : exists p, primes_closest num = Some p.
Proof.
  unfold primes_closest. assert (Hloop : forall n, (n < 31)%nat -> exists p, primes_closest_loop (S n) num = Some p).
  { induction n as [|n IH]; intros Hn; [by exists 17 |]. cbn [primes_closest_loop].
    destruct (Z.of_nat (S (S n)) >? PRIME_SKIP_COUNT) eqn:E; [| by exists 17].
    destruct (negb _); [| apply IH; lia].
    destruct (lookup_lt_is_Some_2 primes (Z.to_nat (Z.of_nat (S (S n)) - PRIME_SKIP_COUNT))) as [p Hp]; [| by exists p].
    unfold PRIME_SKIP_COUNT. change (length primes) with 29%nat. lia. }
  apply Hloop. lia.
Qed.

Lemma new_nodes_wf fr init n :
  0 < n -> 0 <= fr -> HASH_TABLE_MIN_SIZE <= init -> wf (HT fr init 0 0 (new_nodes n) : hash_table K V).
Proof.
  intros Hn Hfr Hinit. assert (Hlook : forall i b, (new_nodes n : list (list (option (K * V)))) !! i = Some b -> b = [None]).
  { intros i b Hb%list_elem_of_lookup_2%list_elem_of_In. by apply repeat_spec in Hb. }
  split; cbn [nodes frozen initial_size nodes_count removed_count]; try done.
  - unfold new_nodes. rewrite repeat_length. lia.
  - apply Forall_lookup_2. by intros i b ->%Hlook.
  - intros i b kv ->%Hlook Hin. by apply elem_of_nil in Hin.
  - unfold entries. cbn [nodes]. by rewrite ents_new.
  - unfold entries. cbn [nodes]. by rewrite ents_new.
  - intros _. apply Forall_lookup_2. intros i b ->%Hlook. by split; [constructor |].
Qed.

(** A resize keeps the entries and leaves a table without holes. *)
Lemma resize_with_spec ins t grow :
  moves ins -> nodupk cmp (entries t) -> 0 <= frozen t -> HASH_TABLE_MIN_SIZE <= initial_size t ->
  resize_with ins t grow = Some (false, t) \/
  exists t' p, resize_with ins t grow = Some (true, t') /\ (frozen t = 0 -> wf t') /\ entries t' ≡ₚ entries t /\
    frozen t' = frozen t /\ initial_size t' = initial_size t /\ removed_count t' = 0 /\
    primes_closest (u32 (nodes_count t + 1)) = Some p /\ size t' = Z.max p (initial_size t).
Proof.
  intros Hmov Hnd Hfr Hinit. unfold resize_with. destruct (well_filled _ _); [by left |].
  destruct (primes_closest_spec (u32 (nodes_count t + 1))) as [p Hp]. rewrite Hp. cbn [mbind option_bind].
  unfold HASH_TABLE_MIN_SIZE in *. set (n := Z.max p (initial_size t)).
  destruct (n =? size t); [by left |]. destruct (grow && (size t >=? n)); [by left |]. right.
  replace (Z.max n 67) with n by lia. set (t0 := HT (frozen t + 1) (initial_size t) 0 0 (new_nodes n)).
  destruct (move_nodes_spec ins (concat (nodes t)) t0) as (t1 & -> & Hwf1 & He1 & Hfr1 & Hin1 & Hl1 & Hr1).
  { done. } { apply new_nodes_wf; unfold HASH_TABLE_MIN_SIZE; lia. } { cbn. lia. }
  { unfold entries at 1. cbn [nodes t0]. by rewrite ents_new, app_nil_r. }
  cbn [mbind option_bind]. exists (set_frozen t1 (frozen t1 - 1)), p.
  assert (He : entries t1 ≡ₚ entries t) by (rewrite He1; unfold entries at 1; cbn [nodes t0]; by rewrite ents_new, app_nil_r).
  cbn [t0 nodes frozen initial_size removed_count set_frozen] in *. split_and!; try done; [| lia |].
  - intros _. destruct Hwf1. split; try done; cbn [frozen set_frozen]; lia.
  - unfold size. cbn [nodes set_frozen]. rewrite Hl1. unfold new_nodes. rewrite repeat_length. lia.
Qed.

(** A table of the right size is not resized again. *)
Lemma resize_with_same ins t grow p :
  primes_closest (u32 (nodes_count t + 1)) = Some p -> size t = Z.max p (initial_size t) ->
  resize_with ins t grow = Some (false, t).
Proof.
  intros Hp Hs. unfold resize_with. destruct (well_filled _ _); [done |]. rewrite Hp. cbn [mbind option_bind].
  by rewrite <- Hs, Z.eqb_refl.
Qed.

Lemma insert_node_spec t key value ce :
  wf t -> (ce = false -> fresh key (entries t)) ->
  exists t' pos, hash_table_insert_node hash_cb cmp INSERT_FUEL t key value ce = Some (t', pos) /\ inserted t key value t' pos.
Proof.
  intros Hwf Hce. destruct (insert_node_cases 2 t key value ce Hwf Hce) as (t' & pos & [Hins _] & [Heq | (Hf & Heq1 & Heq2)]).
  { by exists t', pos. }
  destruct (Z.eqb_spec (frozen t) 0) as [Hfr | Hfr].
  2: { exists t', pos. split; [| done]. apply Heq1. unfold resize_step. by rewrite (proj2 (Z.eqb_neq _ _)). }
  unfold resize_step in Heq1, Heq2. rewrite (proj2 (Z.eqb_eq (frozen t) 0)) in Heq1, Heq2 by done.
  destruct (resize_with_spec (fun t k v => hash_table_insert_node hash_cb cmp 2 t k v false) t true)
    as [Hno | (t0 & p & Hyes & Hwf0 & He0 & Hfr0 & Hin0 & _ & Hp & Hs0)].
  { apply insert_node_moves. } { apply (wf_nodup _ _ t Hwf). } { apply (wf_frozen _ _ t Hwf). } { apply (wf_initial _ _ t Hwf). }
  { exists t', pos. split; [by apply Heq1 | done]. }
  unfold INSERT_FUEL. rewrite (Heq2 t0 Hyes). specialize (Hwf0 Hfr). assert (Hf0 : fresh key (entries t0)) by (by rewrite He0).
  assert (Hcount : nodes_count t0 = nodes_count t) by (rewrite (wf_count _ _ t Hwf), (wf_count _ _ t0 Hwf0), He0; done).
  destruct (insert_node_cases 1 t0 key value false Hwf0 (fun _ => Hf0)) as (t2 & pos2 & [Hins2 _] & Hres).
  assert (Hins' : inserted t key value t2 pos2).
  { destruct Hins2 as (? & ? & ? & l & k0 & r & ? & ? & ? & He2 & Hk0 & _). split_and!; [done | congruence | congruence |].
    exists l, k0, r. split_and!; [done | done | done | by rewrite He2, He0 | by auto | by left]. }
  exists t2, pos2. split; [| done]. destruct Hres as [-> | (_ & Hres & _)]; [done |]. apply Hres. unfold resize_step.
  rewrite Hfr0, Hfr. cbn [Z.eqb]. apply resize_with_same with p; congruence.
Qed.
End Insert.

(** ** The operations *)

Section Operations.
Context {K V : Type} (hash_cb : K -> Z) (cmp : K -> K -> Z) `{!HashKey hash_cb cmp}.
Implicit Types (t : hash_table K V) (b : list (option (K * V))).
Notation wf := (wf hash_cb cmp).
Notation keq := (keq cmp).
Notation fresh := (fresh cmp).
Notation without := (without cmp).

Lemma without_without key (l : list (K * V)) : without key (without key l) = without key l.
Proof. apply without_fresh, fresh_without. Qed.

Lemma hash_table_create_spec n : exists t, hash_table_create n = Some t /\ wf t /\ entries t = [] /\ frozen t = 0.
Proof.
  destruct (primes_closest_spec n) as [p Hp]. unfold hash_table_create. rewrite Hp. cbn [mbind option_bind]. eexists. split; [done |].
  split_and!; [| unfold entries; cbn [nodes]; apply ents_new | done]. apply new_nodes_wf; unfold HASH_TABLE_MIN_SIZE; lia.
Qed.

Lemma hash_table_insert_spec t key value :
  wf t -> exists t', hash_table_insert hash_cb cmp t key value = Some t' /\ wf t' /\
    entries t' ≡ₚ (key, value) :: without key (entries t) /\ frozen t' = frozen t.
Proof.
  intros Hwf. unfold hash_table_insert.
  destruct (insert_node_spec hash_cb cmp t key value true Hwf ltac:(done)) as (t1 & [i j] & -> & Hwf1 & Hfr & _ & l & k0 & r & Hb & Hj & Hk & He & _).
  cbn [mbind option_bind fst snd] in *. subst j. rewrite (get_node_spec _ _ _ _ _ Hb). cbn [mbind option_bind]. rewrite (set_node_spec _ _ _ _ _ _ Hb).
  destruct (replace_entry hash_cb cmp t1 i l k0 value r key value Hwf1 Hb Hk) as [Hwf' He'].
  eexists. split_and!; [done | exact Hwf' | | done]. by rewrite He', He, without_eq, without_without.
Qed.

Lemma hash_table_lookup_full_spec t key :
  wf t -> exists o, hash_table_lookup_full hash_cb cmp t key = Some o /\
    hash_table_lookup hash_cb cmp t key = Some (snd <$> o) /\
    match o with
    | Some kv => kv ∈ entries t /\ keq kv.1 key = true
    | None => fresh key (entries t)
    end.
Proof.
  intros Hwf. unfold hash_table_lookup_full, hash_table_lookup.
  destruct (lookup_node_spec hash_cb cmp t key Hwf) as (b & Hb & [[-> Hf] | (l & k & v & r & -> & -> & Hk)]); cbn [mbind option_bind].
  - by exists None.
  - rewrite (get_node_spec _ _ _ _ _ Hb). exists (Some (k, v)). split_and!; [done | done | | done].
    apply (elem_of_entries t _ _ _ Hb). rewrite ents_app, ents_some, elem_of_app, elem_of_cons. by auto.
Qed.

(** An update keeps the key that was stored. *)
Lemma hash_table_update_spec t key value :
  wf t -> exists o t', hash_table_lookup_full hash_cb cmp t key = Some o /\ hash_table_update hash_cb cmp t key value = Some t' /\ wf t' /\
    let k0 := from_option fst key o in keq k0 key = true /\ entries t' ≡ₚ (k0, value) :: without key (entries t).
Proof.
  intros Hwf. unfold hash_table_update. destruct (hash_table_lookup_full_spec t key Hwf) as (o & Ho & _ & Hin). exists o.
  destruct (insert_node_spec hash_cb cmp t key value true Hwf ltac:(done)) as (t1 & pos & -> & Hwf1 & _ & _ & l & k0 & r & _ & _ & Hk & He & Hf & Hold).
  cbn [mbind option_bind]. exists t1. assert (k0 = from_option fst key o) as ->; [| done].
  destruct o as [[k v]|]; [| exact (Hf Hin)]. destruct Hin as [Hin Hkk]. cbn in *.
  assert (Hnf : ~ fresh key (entries t)) by (intros Hfr; pose proof (proj1 (Forall_forall _ _) Hfr _ Hin) as H; cbn in H; congruence).
  destruct Hold as [? | [v0 Hv0]]; [done |]. assert (Hkk0 : keq k0 k = true) by (by rewrite (keq_congr hash_cb cmp k0 key), (keq_sym hash_cb)).
  pose proof (wf_nodup _ _ t Hwf) as Hnd. apply elem_of_Permutation in Hin as [rest Hl]. rewrite Hl in Hnd, Hv0.
  apply elem_of_cons in Hv0 as [[= -> _] | Hv0]; [done |]. destruct Hnd as [Hfr _]. pose proof (proj1 (Forall_forall _ _) Hfr _ Hv0) as H.
  cbn in H. rewrite (keq_sym hash_cb cmp k0 k) in Hkk0. congruence.
Qed.

(** *** Removal *)

Lemma compress_chain_ents b : ents (compress_chain b) = ents b.
Proof. induction b as [|[kv|] b IH]; cbn [compress_chain]; [done | by rewrite !ents_some, IH | by rewrite IH]. Qed.

Lemma compress_chain_some b : Forall is_Some (compress_chain b).
Proof. induction b as [|[kv|] b IH]; cbn [compress_chain]; [constructor | constructor; [by eexists | done] | done]. Qed.

Lemma compress_bucket_ents b : ents (compress_bucket b) = ents b.
Proof.
  destruct b as [|[kv|] b]; [done | |]; cbn [compress_bucket].
  - destruct (compress_chain b) eqn:E; rewrite <- E, !ents_some, compress_chain_ents; done.
  - pose proof (compress_chain_ents b) as H. destruct (compress_chain b); done.
Qed.

Lemma compress_bucket_dense b : b <> [] -> dense (compress_bucket b).
Proof.
  destruct b as [|root b]; [done | intros _]. cbn [compress_bucket]. pose proof (compress_chain_some b) as H.
  destruct root as [kv|]; [split; [done | done] |]. destruct (compress_chain b) as [|n rest]; [by split |].
  apply Forall_cons in H as [[? ->] H]. by split.
Qed.

Lemma compress_all_ents (ns : list (list (option (K * V)))) : ents (concat (map compress_bucket ns)) = ents (concat ns).
Proof. induction ns as [|b ns IH]; [done |]. cbn [map concat]. by rewrite !ents_app, compress_bucket_ents, IH. Qed.

Lemma resize_spec t grow :
  nodupk cmp (entries t) -> 0 <= frozen t -> HASH_TABLE_MIN_SIZE <= initial_size t ->
  hash_table_resize hash_cb cmp t grow = Some (false, t) \/
  exists t', hash_table_resize hash_cb cmp t grow = Some (true, t') /\ (frozen t = 0 -> wf t') /\ entries t' ≡ₚ entries t /\
    frozen t' = frozen t.
Proof.
  intros Hn Hf Hi. destruct (resize_with_spec hash_cb cmp _ t grow (insert_node_moves hash_cb cmp 2) Hn Hf Hi)
    as [H | (t' & p & H & ? & ? & ? & _)]; [by left | right]. by exists t'.
Qed.

(** Clearing the key of a node takes its entry out. *)
Lemma clear_entry t i l k v r key c rc :
  wf t -> nodes t !! i = Some (l ++ Some (k, v) :: r) -> keq k key = true ->
  let t' := with_bucket t i (l ++ None :: r) c rc in
  entries t' ≡ₚ without key (entries t) /\ nodupk cmp (entries t') /\
  u32 (nodes_count t - 1) = u32 (Z.of_nat (length (entries t'))).
Proof.
  intros Hwf Hb Hk t'. destruct (entries_bucket t i _ Hb) as (rest & He & Hb' & _).
  assert (He0 : entries t ≡ₚ (k, v) :: ents l ++ ents r ++ rest) by (by rewrite He, ents_middle).
  assert (He' : entries t' ≡ₚ ents l ++ ents r ++ rest) by (unfold entries, t', with_bucket; cbn [nodes]; by rewrite Hb', ents_hole, app_assoc).
  pose proof (wf_nodup _ _ t Hwf) as Hnd. rewrite He0 in Hnd. apply (nodupk_cons_fresh hash_cb cmp) in Hnd as [Hf Hnd].
  split_and!.
  - rewrite He', He0, without_eq, without_fresh; [done | by apply (fresh_congr hash_cb cmp k) | done].
  - by rewrite He'.
  - rewrite (wf_count _ _ t Hwf), He0, He'. cbn [length]. unfold u32. rewrite Zminus_mod_idemp_l. f_equal. lia.
Qed.

Lemma hash_table_try_remove_spec t key :
  wf t -> removed_count t < UINT32_MAX ->
  exists found t', hash_table_try_remove hash_cb cmp t key = Some (found, t') /\ wf t' /\ frozen t' = frozen t /\
    entries t' ≡ₚ without key (entries t) /\ (if found : bool then ~ fresh key (entries t) else fresh key (entries t) /\ t' = t).
Proof.
  intros Hwf Hrc. unfold hash_table_try_remove. cbv zeta.
  destruct (lookup_node_spec hash_cb cmp t key Hwf) as (b & Hb & [[-> Hf] | (l & k & v & r & -> & -> & Hk)]); cbn [mbind option_bind].
  { exists false, t. split_and!; [done | done | done | by rewrite without_fresh | done | done]. }
  set (i := bucket_idx t (hash_cb key)) in *. exists true. pose proof (fresh_not cmp t i l k v r key Hb Hk) as Hnf.
  rewrite (set_node_spec _ _ _ _ _ _ Hb). cbn [mbind option_bind with_bucket frozen set_nodes_count removed_count nodes_count].
  pose proof (wf_removed _ _ t Hwf) as Hr0. pose proof (lookup_lt_Some _ _ _ Hb) as Hi.
  assert (Hh : forall kv, kv ∈ ents (l ++ None :: r) -> bucket_idx t (hash_cb kv.1) = i).
  { intros kv Hin. apply (wf_hash _ _ t Hwf i _ _ Hb). rewrite ents_hole, elem_of_app in Hin. rewrite ents_app, ents_some, elem_of_app, elem_of_cons. naive_solver. }
  destruct (Z.eqb_spec (frozen t) 0) as [Hfr | Hfr]; cbn [negb].
  - pose proof (wf_thawed _ _ t Hwf Hfr) as Hrem.
    set (t1 := HT (frozen t) (initial_size t) (u32 (nodes_count t - 1)) (removed_count t) (<[i := l ++ None :: r]> (nodes t))).
    change (set_nodes_count _ _) with t1.
    destruct (clear_entry t i l k v r key (u32 (nodes_count t - 1)) (removed_count t) Hwf Hb Hk) as (He & Hnd & Hc).
    change (with_bucket _ _ _ _ _) with t1 in He, Hnd, Hc.
    destruct (resize_spec t1 false Hnd (wf_frozen _ _ t Hwf) (wf_initial _ _ t Hwf)) as [-> | (t' & -> & Hwf' & He' & Hfr')]; cbn [mbind option_bind].
    + assert (Hidx : bucket_idx t1 (hash_cb key) = i) by (unfold bucket_idx, size; cbn; by rewrite length_insert).
      unfold hash_table_compress. rewrite Hidx. cbn [nodes t1]. rewrite list_lookup_insert_eq by done. cbn [mbind option_bind].
      unfold array_set. rewrite (proj2 (Nat.ltb_lt _ _)) by (by rewrite length_insert). cbn [mbind option_bind].
      rewrite list_insert_insert_eq. set (t2 := set_nodes t1 _).
      change t2 with (with_bucket t i (compress_bucket (l ++ None :: r)) (u32 (nodes_count t - 1)) (removed_count t)).
      destruct (entries_bucket t i _ Hb) as (rest & _ & Hb' & _).
      assert (He2 : entries (with_bucket t i (compress_bucket (l ++ None :: r)) (u32 (nodes_count t - 1)) (removed_count t)) ≡ₚ entries t1)
        by (unfold entries; cbn [nodes with_bucket t1]; by rewrite !Hb', compress_bucket_ents).
      eexists. split_and!; [done | | done | by rewrite He2 | done].
      apply with_bucket_wf with (l ++ Some (k, v) :: r); try done.
      * destruct l as [|[x|] l]; cbn; [| | ]; try done; by destruct (compress_chain _).
      * by rewrite compress_bucket_ents.
      * by rewrite He2.
      * by rewrite He2.
      * intros _. apply compress_bucket_dense. by destruct l.
      * intros H0 j x _ Hj. by apply (Forall_lookup_1 _ _ _ _ (wf_dense _ _ t Hwf H0) Hj).
    + exists t'. split_and!; [done | by apply Hwf' | done | by rewrite He' | done].
  - assert (Hu : u32 (removed_count t + 1) = removed_count t + 1) by (apply u32_small; unfold is_u32; lia).
    destruct (clear_entry t i l k v r key (u32 (nodes_count t - 1)) (u32 (removed_count t + 1)) Hwf Hb Hk) as (He & Hnd & Hc).
    eexists. split_and!; [done | | done | exact He | done].
    change (wf (with_bucket t i (l ++ None :: r) (u32 (nodes_count t - 1)) (u32 (removed_count t + 1)))).
    apply with_bucket_wf with (l ++ Some (k, v) :: r); try done; [by destruct l | lia..].
Qed.

(** *** Freezing *)

Lemma hash_table_freeze_spec t : wf t -> wf (hash_table_freeze t) /\ entries (hash_table_freeze t) = entries t.
Proof.
  intros Hwf. split; [| done]. pose proof (wf_frozen _ _ t Hwf). destruct Hwf.
  split; try done; cbn [hash_table_freeze frozen set_frozen removed_count]; lia.
Qed.

Lemma hash_table_thaw_spec t :
  wf t -> 0 < frozen t ->
  exists t', hash_table_thaw hash_cb cmp t = Some t' /\ wf t' /\ entries t' ≡ₚ entries t /\ frozen t' = frozen t - 1.
Proof.
  intros Hwf Hfr. unfold hash_table_thaw. replace (frozen t >? 0) with true by lia. cbn [assert mbind option_bind].
  cbn [frozen set_frozen removed_count]. destruct (Z.gtb_spec (frozen t - 1) 0) as [H1 | H1].
  { eexists. split_and!; [done | | done | done]. destruct Hwf. split; try done; cbn [frozen set_frozen removed_count]; lia. }
  destruct (Z.gtb_spec (removed_count t) 0) as [H2 | H2].
  - destruct (resize_spec (set_frozen t (frozen t - 1)) false (wf_nodup _ _ t Hwf)) as [-> | (t' & -> & Hwf' & He & Hf')];
      [cbn; lia | apply (wf_initial _ _ t Hwf) | |]; cbn [mbind option_bind].
    + assert (He : entries (hash_table_compress_removed (set_frozen t (frozen t - 1))) = entries t)
        by (unfold entries; cbn [nodes hash_table_compress_removed set_removed_count set_nodes set_frozen]; apply compress_all_ents).
      eexists. split_and!; [done | | by rewrite He | done].
      pose proof (wf_bucket _ _ t Hwf) as Hb. destruct Hwf.
      split; rewrite ?He; try done; cbn [nodes frozen removed_count initial_size hash_table_compress_removed set_removed_count set_nodes set_frozen]; try lia.
      * by rewrite length_map.
      * apply Forall_fmap. eapply Forall_impl; [exact Hb |]. intros [|root b] Hne; [done |]. cbn. destruct root, (compress_chain b); done.
      * intros i b kv Hi Hin. apply list_lookup_fmap_Some in Hi as (b0 & -> & Hi). rewrite compress_bucket_ents in Hin.
        unfold bucket_idx, size. cbn [nodes hash_table_compress_removed set_removed_count set_nodes set_frozen]. rewrite length_map. by apply (wf_hash0 i b0 kv).
      * intros _. apply Forall_fmap. eapply Forall_impl; [exact Hb |]. intros b Hne. by apply compress_bucket_dense.
    + exists t'. split_and!; [done | apply Hwf'; cbn; lia | done | done].
  - eexists. split_and!; [done | | done | done]. pose proof (wf_removed _ _ t Hwf). destruct Hwf.
    split; try done; cbn [frozen set_frozen removed_count]; lia.
Qed.

(** *** Iteration *)

(** The entries behind the node [j] of bucket [q]. *)
Definition behind t (q j : nat) : list (K * V) :=
  ents (drop (S j) (default [] (nodes t !! q))) ++ ents (concat (drop (S q) (nodes t))).

Definition nodes_behind t (q j : nat) : nat :=
  length (drop (S j) (default [] (nodes t !! q)) ++ concat (drop (S q) (nodes t))).

(** The next node in use and what is behind it. *)
Definition next_spec t (l : list (K * V)) (r : option (nat * nat) * nat) : Prop :=
  match r with
  | (None, _) => l = []
  | (Some (q, j), pos) => pos = q /\ exists kv, get_node t (q, j) = Some (Some kv) /\ l = kv :: behind t q j
  end.

Lemma behind_cons t q j n :
  get_node t (q, S j) = Some n -> behind t q j = (match n with Some kv => [kv] | None => [] end) ++ behind t q (S j) /\
    nodes_behind t q j = S (nodes_behind t q (S j)).
Proof.
  unfold get_node, behind, nodes_behind. cbn [fst snd]. destruct (nodes t !! q) as [b|]; [| done]. cbn [mbind option_bind default from_option id].
  intros Hn. rewrite (drop_S b n (S j)) by done. split; [by destruct n | done].
Qed.

Lemma behind_next t q j root chain :
  get_node t (q, S j) = None -> nodes t !! S q = Some (root :: chain) ->
  behind t q j = (match root with Some kv => [kv] | None => [] end) ++ behind t (S q) 0 /\
  nodes_behind t q j = S (nodes_behind t (S q) 0).
Proof.
  intros Hn Hb. assert (Hd : drop (S j) (default [] (nodes t !! q)) = []).
  { unfold get_node in Hn. cbn [fst snd] in Hn. destruct (nodes t !! q) as [b|]; [| done].
    cbn [default from_option id mbind option_bind] in *. apply drop_ge. by apply lookup_ge_None. }
  unfold behind, nodes_behind. rewrite Hd, Hb, (drop_S (nodes t) (root :: chain)) by done. cbn [default from_option id app concat].
  cbn [skipn]. rewrite drop_0. split; [| done].
  destruct root as [kv|]; [change (ents (Some kv :: chain ++ concat (drop (S (S q)) (nodes t))) = [kv] ++ ents chain ++ ents (concat (drop (S (S q)) (nodes t))))
    | change (ents (chain ++ concat (drop (S (S q)) (nodes t))) = ents chain ++ ents (concat (drop (S (S q)) (nodes t))))];
    by rewrite ?ents_some, ents_app.
Qed.

Lemma iterate_next_spec fuel t q j :
  wf t -> (q < length (nodes t))%nat -> (nodes_behind t q j < fuel)%nat ->
  exists r, hash_table_iterate_next fuel t q (q, j) = Some r /\ next_spec t (behind t q j) r.
Proof.
  intros Hwf. revert q j. induction fuel as [|fuel IH]; intros q j Hq Hf; [lia |]. cbn [hash_table_iterate_next fst snd].
  destruct (get_node t (q, S j)) as [n|] eqn:Hn.
  - destruct (behind_cons t q j n Hn) as [-> Hl]. destruct n as [kv|]; [| apply IH; [done | lia]].
    exists (Some (q, S j), q). split; [done |]. split; [done |]. by exists kv.
  - destruct (Nat.eqb_spec (S q) (length (nodes t))) as [He | He].
    + exists (None, q). split; [done |]. cbn. unfold behind. rewrite (drop_ge (nodes t)) by lia. cbn. rewrite app_nil_r.
      unfold get_node in Hn. cbn in Hn. destruct (lookup_lt_is_Some_2 (nodes t) q Hq) as [b Hb]. rewrite Hb in *. cbn in *.
      by rewrite drop_ge by (by apply lookup_ge_None).
    + destruct (lookup_lt_is_Some_2 (nodes t) (S q)) as [b Hb]; [lia |].
      pose proof (Forall_lookup_1 _ _ _ _ (wf_bucket _ _ t Hwf) Hb) as Hne. destruct b as [|root chain]; [done |].
      destruct (behind_next t q j root chain Hn Hb) as [-> Hl].
      assert (Hg : get_node t (S q, 0%nat) = Some root) by (unfold get_node; cbn [fst snd]; by rewrite Hb).
      rewrite Hg. cbn [mbind option_bind]. destruct root as [kv|]; [| apply IH; lia].
      exists (Some (S q, 0%nat), S q). split; [done |]. split; [done |]. by exists kv.
Qed.

(** Calling [hash_table_iterate] until it returns FALSE. *)
Fixpoint iterate_all (fuel : nat) t (ctx : hash_iterate_context) : option (list (K * V)) :=
  match fuel with
  | O => None
  | S fuel =>
      '(kv, ctx) ← hash_table_iterate t ctx;
      match kv with
      | None => Some []
      | Some kv => rest ← iterate_all fuel t ctx; Some (kv :: rest)
      end
  end.

Lemma nodes_behind_lt t q j : (q < length (nodes t))%nat -> (nodes_behind t q j < iterate_fuel t)%nat.
Proof.
  intros Hq. unfold nodes_behind, iterate_fuel. destruct (lookup_lt_is_Some_2 (nodes t) q Hq) as [b Hb].
  rewrite <- (take_drop_middle _ _ _ Hb) at 3. rewrite Hb, concat_app. cbn [default from_option id concat].
  rewrite !length_app, length_drop. lia.
Qed.

(** The iteration stands before the entries [l]. *)
Definition ctx_at t (ctx : hash_iterate_context) (l : list (K * V)) : Prop :=
  match it_next ctx with
  | None => l = []
  | Some (q, j) => it_pos ctx = q /\ (q < length (nodes t))%nat /\ exists n, get_node t (q, j) = Some n /\
      l = (match n with Some kv => [kv] | None => [] end) ++ behind t q j
  end.

Lemma get_node_lt t q j n : get_node t (q, j) = Some n -> (q < length (nodes t))%nat.
Proof. unfold get_node. cbn. destruct (nodes t !! q) eqn:E; [intros _; by eapply lookup_lt_Some | done]. Qed.

Lemma iterate_spec t ctx l :
  wf t -> ctx_at t ctx l ->
  exists ctx', hash_table_iterate t ctx = Some (head l, ctx') /\ (l <> [] -> ctx_at t ctx' (tail l)).
Proof.
  intros Hwf Hctx. unfold hash_table_iterate. destruct ctx as [next pos]. unfold ctx_at in Hctx. cbn [it_next it_pos] in *.
  destruct next as [[q j]|]; [| by subst l; eexists].
  destruct Hctx as (-> & Hq & n & Hn & ->). rewrite Hn. cbn [mbind option_bind].
  assert (Hstep : forall q j kv, (q < length (nodes t))%nat -> get_node t (q, j) = Some (Some kv) ->
    exists ctx', (n ← get_node t (q, j); kv ← n; '(next, pos) ← hash_table_iterate_next (iterate_fuel t) t q (q, j);
      Some (Some kv, Iter next pos)) = Some (Some kv, ctx') /\ ctx_at t ctx' (behind t q j)).
  { intros q0 j0 kv Hq0 Hg. rewrite Hg. cbn [mbind option_bind].
    destruct (iterate_next_spec (iterate_fuel t) t q0 j0 Hwf Hq0 (nodes_behind_lt t q0 j0 Hq0)) as ([o p] & -> & Hs).
    cbn [mbind option_bind]. eexists. split; [done |]. destruct o as [[q1 j1]|]; cbn in Hs; [| done].
    destruct Hs as (-> & kv' & Hg' & ->). split; [done |]. split; [by eapply get_node_lt |]. by exists (Some kv'). }
  destruct n as [kv|]; cbn [mbind option_bind].
  - destruct (Hstep q j kv Hq Hn) as (ctx' & -> & Hat). by exists ctx'.
  - destruct (iterate_next_spec (iterate_fuel t) t q j Hwf Hq (nodes_behind_lt t q j Hq)) as ([o p] & -> & Hs).
    cbn [mbind option_bind app]. destruct o as [[q1 j1]|]; cbn in Hs; [| rewrite Hs; by eexists].
    destruct Hs as (-> & kv' & Hg' & ->). destruct (Hstep q1 j1 kv' (get_node_lt _ _ _ _ Hg') Hg') as (ctx' & -> & Hat). by exists ctx'.
Qed.

Lemma iterate_init_spec t : wf t -> ctx_at t (Iter (Some (0, 0)%nat) 0) (entries t).
Proof.
  intros Hwf. pose proof (wf_size _ _ t Hwf) as Hs. destruct (lookup_lt_is_Some_2 (nodes t) 0 Hs) as [b Hb].
  pose proof (Forall_lookup_1 _ _ _ _ (wf_bucket _ _ t Hwf) Hb) as Hne. destruct b as [|root chain]; [done |].
  split; [done |]. split; [done |]. exists root. unfold get_node, behind, entries. cbn [fst snd]. rewrite Hb.
  destruct (nodes t) as [|b ns]; [done |]. injection Hb as ->. split; [done |]. cbn [default from_option id concat skipn]. rewrite !drop_0, ents_app.
  by destruct root.
Qed.

Lemma iterate_all_spec fuel t ctx l :
  wf t -> ctx_at t ctx l -> (length l < fuel)%nat -> iterate_all fuel t ctx = Some l.
Proof.
  intros Hwf. revert ctx l. induction fuel as [|fuel IH]; intros ctx l Hat Hf; [lia |]. cbn [iterate_all].
  destruct (iterate_spec t ctx l Hwf Hat) as (ctx' & -> & Hnext). cbn [mbind option_bind].
  destruct l as [|kv l]; [done |]. cbn [head]. rewrite (IH ctx' l); [done | by apply Hnext | cbn in Hf; lia].
Qed.

(** Inserting all of [l], one after the other. *)
Definition insert_all (l acc : list (K * V)) : list (K * V) := fold_left (fun acc kv => kv :: without kv.1 acc) l acc.

Lemma insert_all_perm l a1 a2 : a1 ≡ₚ a2 -> insert_all l a1 ≡ₚ insert_all l a2.
Proof. revert a1 a2. induction l as [|kv l IH]; intros a1 a2 Hp; [done |]. apply IH. by rewrite Hp. Qed.

Lemma copy_loop_spec fuel src dest ctx l :
  wf src -> wf dest -> ctx_at src ctx l -> (length l < fuel)%nat ->
  exists dest', copy_loop hash_cb cmp fuel src dest ctx = Some dest' /\ wf dest' /\
    entries dest' ≡ₚ insert_all l (entries dest) /\ frozen dest' = frozen dest.
Proof.
  intros Hws. revert dest ctx l. induction fuel as [|fuel IH]; intros dest ctx l Hwd Hat Hf; [lia |]. cbn [copy_loop].
  destruct (iterate_spec src ctx l Hws Hat) as (ctx' & -> & Hnext). cbn [mbind option_bind].
  destruct l as [|[k v] l]; [by exists dest |]. cbn [head].
  destruct (hash_table_insert_spec dest k v Hwd) as (d1 & -> & Hw1 & He1 & Hf1). cbn [mbind option_bind].
  destruct (IH d1 ctx' l Hw1) as (d2 & -> & Hw2 & He2 & Hf2); [by apply Hnext | cbn in Hf; lia |].
  exists d2. split_and!; [done | done | | congruence]. rewrite He2.
  change (insert_all ((k, v) :: l) (entries dest)) with (insert_all l ((k, v) :: without k (entries dest))). by apply insert_all_perm.
Qed.

Lemma entries_length t : (length (entries t) < iterate_fuel t)%nat.
Proof. unfold entries, iterate_fuel, ents. apply Nat.lt_succ_r. induction (concat (nodes t)) as [|[?|] l IH]; cbn; lia. Qed.

Lemma hash_table_copy_spec dest src :
  wf dest -> wf src ->
  exists dest' src', hash_table_copy hash_cb cmp dest src = Some (dest', src') /\ wf dest' /\ wf src' /\
    entries src' ≡ₚ entries src /\ entries dest' ≡ₚ insert_all (entries src) (entries dest).
Proof.
  intros Hwd Hws. unfold hash_table_copy, hash_table_iterate_init. destruct (hash_table_freeze_spec dest Hwd) as [Hwd1 Hed1].
  destruct (hash_table_freeze_spec src Hws) as [Hws1 Hes1]. pose proof (wf_frozen _ _ dest Hwd). pose proof (wf_frozen _ _ src Hws).
  destruct (copy_loop_spec (S (iterate_fuel (hash_table_freeze src))) _ _ _ _ Hws1 Hwd1 (iterate_init_spec _ Hws1)) as (d2 & -> & Hw2 & He2 & Hf2).
  { pose proof (entries_length (hash_table_freeze src)). lia. }
  cbn [mbind option_bind]. unfold hash_table_iterate_deinit.
  destruct (hash_table_thaw_spec (hash_table_freeze src) Hws1) as (s3 & -> & Hw3 & He3 & _); [cbn; lia |]. cbn [mbind option_bind].
  destruct (hash_table_thaw_spec d2 Hw2) as (d3 & -> & Hw4 & He4 & _); [rewrite Hf2; cbn; lia |]. cbn [mbind option_bind].
  exists d3, s3. split_and!; [done | done | done | by rewrite He3 | by rewrite He4, He2].
Qed.
End Operations.
