(* ===== verification/Table.v ===== *)
(** * The interface of a lookup table

    What the services use of hash tables: [Table] has the operations,
    [TableSpec] what they promise, in terms of the value stored for each key.
    HashLaws.v shows that the hash tables of hash.c keep these promises. *)

From S2P Require Import Prelude.

Class Table (K V T : Type) := {
  (** NULL is [None] inside. *)
  table_lookup : T -> K -> option (option V);
  table_insert : T -> K -> V -> option T;
  (** Removing a missing key is a panic. *)
  table_remove : T -> K -> option T;
  (** A whole iteration: what it returns, and the table after it. *)
  table_iterate : T -> option (list (K * V) * T);
}.

Class TableSpec (K V T : Type) `{EqDecision K, !Table K V T} := {
  table_inv : T -> Prop;
  table_get : T -> K -> option V;
  table_lookup_spec t k : table_inv t -> table_lookup t k = Some (table_get t k);
  table_insert_spec t k v : table_inv t ->
    exists t', table_insert t k v = Some t' /\ table_inv t' /\
      forall k', table_get t' k' = if decide (k' = k) then Some v else table_get t k';
  table_remove_spec t k : table_inv t -> is_Some (table_get t k) ->
    exists t', table_remove t k = Some t' /\ table_inv t' /\
      forall k', table_get t' k' = if decide (k' = k) then None else table_get t k';
  table_iterate_spec t : table_inv t ->
    exists l t', table_iterate t = Some (l, t') /\ table_inv t' /\ NoDup l.*1 /\
      (forall k v, (k, v) ∈ l <-> table_get t k = Some v) /\ forall k, table_get t' k = table_get t k;
}.
