(* ===== verification/HashLaws.v ===== *)
(** * The laws of hash tables

    The properties of hash.c: insertion and removal as laws about lookups,
    iteration, copying, and the interface of Table.v for tables whose keys
    are compared exactly, such as strings with [str_hash] and [strcmp]. *)

From S2P Require Import Prelude Hash HashProps Table.

Section Laws.
Context {K V : Type} (hash_cb : K -> Z) (cmp : K -> K -> Z) `{!HashKey hash_cb cmp}.
Implicit Types (t : hash_table K V).
Notation wf := (wf hash_cb cmp).
Notation keq := (keq cmp).
Notation fresh := (fresh cmp).
Notation without := (without cmp).
Notation lookup := (hash_table_lookup hash_cb cmp).

Lemma lookup_fresh t key : wf t -> fresh key (entries t) -> lookup t key = Some None.
Proof.
  intros Hwf Hf. destruct (hash_table_lookup_full_spec hash_cb cmp t key Hwf) as (o & _ & -> & Ho). destruct o as [kv|]; [exfalso | done].
  destruct Ho as [Hin Hk]. pose proof (proj1 (Forall_forall _ _) Hf kv Hin) as H. cbn in H. congruence.
Qed.

(** The entry of a key is unique. *)
Lemma entry_unique t kv1 kv2 : wf t -> kv1 ∈ entries t -> kv2 ∈ entries t -> keq kv1.1 kv2.1 = true -> kv1 = kv2.
Proof.
  intros Hwf H1 H2 Hk. pose proof (wf_nodup _ _ t Hwf) as Hnd. apply elem_of_Permutation in H1 as [l Hl]. rewrite Hl in Hnd, H2.
  apply elem_of_cons in H2 as [-> | H2]; [done |]. exfalso. destruct Hnd as [Hf _].
  pose proof (proj1 (Forall_forall _ _) Hf kv2 H2) as H. cbn in H. congruence.
Qed.

Lemma lookup_entry t kv key : wf t -> kv ∈ entries t -> keq kv.1 key = true -> lookup t key = Some (Some kv.2).
Proof.
  intros Hwf Hin Hk. destruct (hash_table_lookup_full_spec hash_cb cmp t key Hwf) as (o & _ & -> & Ho). destruct o as [kv'|].
  - destruct Ho as [Hin' Hk']. cbn. do 2 f_equal. f_equal. apply (entry_unique t); [done | done | done |].
    by rewrite (keq_congr hash_cb cmp kv'.1 key), (keq_sym hash_cb).
  - exfalso. pose proof (proj1 (Forall_forall _ _) Ho kv Hin) as H. cbn in H. congruence.
Qed.

(** Two tables that agree on the entries of a key agree on its lookup. *)
Lemma lookup_agree t1 t2 key :
  wf t1 -> wf t2 -> (forall kv, keq kv.1 key = true -> kv ∈ entries t1 <-> kv ∈ entries t2) -> lookup t1 key = lookup t2 key.
Proof.
  intros H1 H2 Hagree. destruct (hash_table_lookup_full_spec hash_cb cmp t1 key H1) as (o & _ & -> & Ho). symmetry. destruct o as [kv|].
  - destruct Ho as [Hin Hk]. apply lookup_entry; [done | by apply Hagree | done].
  - apply lookup_fresh; [done |]. apply Forall_forall. intros kv Hin. destruct (keq kv.1 key) eqn:E; [| done].
    apply Hagree in Hin; [| done]. pose proof (proj1 (Forall_forall _ _) Ho kv Hin) as H. cbn in H. congruence.
Qed.

Lemma elem_of_without key kv (l : list (K * V)) : kv ∈ without key l <-> keq kv.1 key = false /\ kv ∈ l.
Proof. unfold HashProps.without. by rewrite list_elem_of_filter. Qed.

Lemma insert_lookup t key k0 value t' :
  wf t -> wf t' -> keq k0 key = true -> entries t' ≡ₚ (k0, value) :: without key (entries t) ->
  forall k, lookup t' k = if keq k key then Some (Some value) else lookup t k.
Proof.
  intros Hwf Hwf' Hk0 He k. destruct (keq k key) eqn:E.
  - apply (lookup_entry t' (k0, value)); [done | rewrite He; by left | cbn; by rewrite (keq_congr hash_cb cmp k0 key), (keq_sym hash_cb)].
  - apply lookup_agree; [done | done |]. intros kv Hk. rewrite He, elem_of_cons, elem_of_without.
    assert (Hne : keq kv.1 key = false) by (by rewrite (keq_congr hash_cb cmp kv.1 k)). split; [| by auto].
    intros [-> | [_ ?]]; [| done]. cbn in Hne. congruence.
Qed.

Lemma remove_lookup t key t' :
  wf t -> wf t' -> entries t' ≡ₚ without key (entries t) ->
  forall k, lookup t' k = if keq k key then Some None else lookup t k.
Proof.
  intros Hwf Hwf' He k. destruct (keq k key) eqn:E.
  - apply lookup_fresh; [done |]. rewrite He. apply (fresh_congr hash_cb cmp key k); [by rewrite (keq_sym hash_cb) | apply fresh_without].
  - apply lookup_agree; [done | done |]. intros kv Hk. rewrite He, elem_of_without.
    assert (Hne : keq kv.1 key = false) by (by rewrite (keq_congr hash_cb cmp kv.1 k)). naive_solver.
Qed.

(** ** Properties *)

(** C16: inserting a key terminates whatever resizing it causes, keeps the
    invariant, stores the new key and value once in place of an old entry, and
    changes the lookups of this key only.  [hash_table_update] does the same,
    with the same lookups afterwards, except that when the key was there the
    entry keeps the old key, the one that a lookup of key and value returned
    before. *)
Theorem hash_table_insert_correct t key value :
  wf t ->
  (exists t', hash_table_insert hash_cb cmp t key value = Some t' /\ wf t' /\
     entries t' ≡ₚ (key, value) :: without key (entries t) /\
     forall k, lookup t' k = if keq k key then Some (Some value) else lookup t k) /\
  (exists old t', hash_table_lookup_full hash_cb cmp t key = Some old /\ hash_table_update hash_cb cmp t key value = Some t' /\ wf t' /\
     entries t' ≡ₚ (match old with Some (k0, _) => k0 | None => key end, value) :: without key (entries t) /\
     forall k, lookup t' k = if keq k key then Some (Some value) else lookup t k).
Proof.
  intros Hwf. split.
  - destruct (hash_table_insert_spec hash_cb cmp t key value Hwf) as (t' & Heq & Hwf' & He & _).
    exists t'. split_and!; [done | done | done | apply (insert_lookup t key key); [done | done | by apply (keq_refl hash_cb) | done]].
  - destruct (hash_table_update_spec hash_cb cmp t key value Hwf) as (o & t' & Ho & Hu & Hwf' & Hk & He). exists o, t'.
    assert (Hm : match o with Some (k0, _) => k0 | None => key end = from_option fst key o) by (by destruct o as [[]|]). rewrite Hm.
    split_and!; [done | done | done | done | by apply (insert_lookup t key (from_option fst key o))].
Qed.

(** C33: removing a key keeps the invariant, frozen or not, reports whether the
    key was there, takes exactly its entry out and changes no other lookup;
    a later thaw, which closes the holes, changes no entry. *)
Theorem hash_table_remove_correct t key :
  wf t -> removed_count t < UINT32_MAX ->
  exists found t', hash_table_try_remove hash_cb cmp t key = Some (found, t') /\ wf t' /\
    entries t' ≡ₚ without key (entries t) /\ (found = false <-> fresh key (entries t)) /\
    (forall k, lookup t' k = if keq k key then Some None else lookup t k) /\
    (0 < frozen t' -> exists t'', hash_table_thaw hash_cb cmp t' = Some t'' /\ wf t'' /\ entries t'' ≡ₚ entries t').
Proof.
  intros Hwf Hr. destruct (hash_table_try_remove_spec hash_cb cmp t key Hwf Hr) as (found & t' & Heq & Hwf' & _ & He & Hf).
  exists found, t'. split_and!; [done | done | done | by destruct found; [split; [done |] |]; [intros ? | tauto] | by apply remove_lookup |].
  intros Hfr. destruct (hash_table_thaw_spec hash_cb cmp t' Hwf' Hfr) as (t'' & ? & ? & ? & _). by exists t''.
Qed.

(** An iteration over a table returns every entry exactly once and ends. *)
Theorem hash_table_iterate_correct t :
  wf t ->
  let '(t', ctx) := hash_table_iterate_init t in
  iterate_all (S (iterate_fuel t)) t' ctx = Some (entries t) /\ nodupk cmp (entries t) /\
  exists t'', hash_table_iterate_deinit hash_cb cmp t' = Some t'' /\ wf t'' /\ entries t'' ≡ₚ entries t.
Proof.
  intros Hwf. unfold hash_table_iterate_init. destruct (hash_table_freeze_spec hash_cb cmp t Hwf) as [Hwf' He].
  split_and!; [| apply (wf_nodup _ _ t Hwf) |].
  - rewrite <- He. apply (iterate_all_spec hash_cb cmp); [done | by apply (iterate_init_spec hash_cb cmp) |].
    pose proof (entries_length t). rewrite He. lia.
  - pose proof (wf_frozen _ _ t Hwf). destruct (hash_table_thaw_spec hash_cb cmp (hash_table_freeze t) Hwf') as (t'' & ? & ? & ? & _);
      [cbn; lia |]. exists t''. by rewrite <- He.
Qed.
End Laws.

(** ** Tables keyed by strings *)

(** [strcmp] of the C library, by its sign. *)
Fixpoint strcmp (s1 s2 : list Z) : Z :=
  match s1, s2 with
  | [], [] => 0
  | [], _ :: _ => -1
  | _ :: _, [] => 1
  | c1 :: s1, c2 :: s2 => if c1 =? c2 then strcmp s1 s2 else if c1 <? c2 then -1 else 1
  end.

Lemma strcmp_eq s1 s2 : strcmp s1 s2 = 0 <-> s1 = s2.
Proof.
  revert s2. induction s1 as [|c1 s1 IH]; intros [|c2 s2]; cbn; [done | done | done |].
  destruct (Z.eqb_spec c1 c2) as [-> | Hne].
  - rewrite IH. split; congruence.
  - destruct (c1 <? c2); (split; [done | congruence]).
Qed.

#[export] Instance string_key : HashKey str_hash strcmp.
Proof.
  split.
  - intros k. by apply strcmp_eq.
  - intros a b. by rewrite !strcmp_eq.
  - intros a b c. rewrite !strcmp_eq. congruence.
  - intros a b. rewrite strcmp_eq. congruence.
Qed.

(** ** Tables behind the interface, for keys that are compared exactly *)

Section KeyTable.
Context {K V : Type} `{EqDecision K} (hash_cb : K -> Z) (cmp : K -> K -> Z) `{!HashKey hash_cb cmp}.
Hypothesis cmp_eq : forall a b, cmp a b = 0 <-> a = b.
Notation key_table := (hash_table K V).

Definition hash_key_table : Table K V key_table := {|
  table_lookup := hash_table_lookup hash_cb cmp;
  table_insert := hash_table_insert hash_cb cmp;
  table_remove := hash_table_remove hash_cb cmp;
  table_iterate := fun t =>
    let '(t, ctx) := hash_table_iterate_init t in
    l ← iterate_all (S (iterate_fuel t)) t ctx;
    t ← hash_table_iterate_deinit hash_cb cmp t;
    Some (l, t);
|}.

(** A table that nobody iterates over. *)
Definition key_table_inv (t : key_table) : Prop := wf hash_cb cmp t /\ frozen t = 0.

Definition key_table_get (t : key_table) (k : K) : option V := v ← hash_table_lookup hash_cb cmp t k; v.

Lemma keq_decide (a b : K) : keq cmp a b = bool_decide (a = b).
Proof. unfold keq. case_bool_decide as H; [by apply Z.eqb_eq, cmp_eq | apply Z.eqb_neq; by rewrite cmp_eq]. Qed.

Lemma key_lookup_total (t : key_table) k :
  wf hash_cb cmp t -> hash_table_lookup hash_cb cmp t k = Some (key_table_get t k).
Proof.
  intros Hwf. unfold key_table_get. destruct (hash_table_lookup_full_spec hash_cb cmp t k Hwf) as (o & _ & -> & _). done.
Qed.

Lemma key_get_entry (t : key_table) k v :
  wf hash_cb cmp t -> (k, v) ∈ entries t <-> key_table_get t k = Some v.
Proof.
  intros Hwf. unfold key_table_get. destruct (hash_table_lookup_full_spec hash_cb cmp t k Hwf) as (o & _ & -> & Ho). cbn.
  destruct o as [[k' v']|]; cbn in *.
  - destruct Ho as [Hin Hk]. rewrite keq_decide in Hk. apply bool_decide_eq_true in Hk as ->. split; [| by intros [= ->]].
    intros Hin2. f_equal. assert ((k, v') = (k, v)) as [= ->]; [| done].
    apply (entry_unique hash_cb cmp t); [done | done | done | by rewrite keq_decide, bool_decide_eq_true_2].
  - split; [| done]. intros Hin. pose proof (proj1 (Forall_forall _ _) Ho _ Hin) as H. cbn in H.
    by rewrite keq_decide, bool_decide_eq_true_2 in H.
Qed.

Lemma nodupk_NoDup (l : list (K * V)) : nodupk cmp l -> NoDup l.*1.
Proof.
  induction l as [|[k v] l IH]; [constructor |]. intros [Hf Hn]. cbn. constructor; [| by apply IH].
  intros ([k' v'] & -> & Hin)%list_elem_of_fmap. pose proof (proj1 (Forall_forall _ _) Hf _ Hin) as H. cbn in H.
  by rewrite keq_decide, bool_decide_eq_true_2 in H.
Qed.

(** The equations of insertion and removal for [key_table_get]. *)
Lemma key_get_update (t t' : key_table) key (o : option V) :
  (forall k, hash_table_lookup hash_cb cmp t' k =
     if keq cmp k key then Some o else hash_table_lookup hash_cb cmp t k) ->
  forall k, key_table_get t' k = if decide (k = key) then o else key_table_get t k.
Proof.
  intros Hl k. unfold key_table_get. rewrite Hl, keq_decide. destruct (decide (k = key)); [by rewrite bool_decide_eq_true_2 | by rewrite bool_decide_eq_false_2].
Qed.

#[local] Existing Instance hash_key_table.

Definition hash_key_table_spec : TableSpec K V key_table.
Proof.
  refine {| table_inv := key_table_inv; table_get := key_table_get |}; cbn [table_lookup table_insert table_remove table_iterate hash_key_table].
  - intros t k [Hwf _]. by apply key_lookup_total.
  - intros t k v [Hwf Hfr]. destruct (hash_table_insert_spec hash_cb cmp t k v Hwf) as (t' & Heq & Hwf' & He & Hfr').
    exists t'. split_and!; [done | split; [done | congruence] |]. apply key_get_update. apply (insert_lookup hash_cb cmp t k k); [done | done | by apply (keq_refl hash_cb) | done].
  - intros t k [Hwf Hfr] [v Hv]. pose proof (wf_thawed _ _ t Hwf Hfr) as Hr.
    destruct (hash_table_try_remove_spec hash_cb cmp t k Hwf) as (found & t' & Heq & Hwf' & Hfr' & He & Hf); [lia |].
    unfold hash_table_remove. rewrite Heq. cbn [mbind option_bind]. destruct found; cbn [assert mbind option_bind].
    + exists t'. split_and!; [done | split; [done | congruence] |]. apply key_get_update. by apply (remove_lookup hash_cb cmp).
    + exfalso. unfold key_table_get in Hv. by rewrite (lookup_fresh hash_cb cmp t k Hwf (proj1 Hf)) in Hv.
  - intros t [Hwf Hfr]. unfold hash_table_iterate_init. destruct (hash_table_freeze_spec hash_cb cmp t Hwf) as [Hwf1 He1].
    rewrite (iterate_all_spec hash_cb cmp _ _ _ (entries t)); [| done | rewrite <- He1; by apply (iterate_init_spec hash_cb cmp) |
      pose proof (entries_length (hash_table_freeze t)); rewrite He1 in *; lia].
    cbn [mbind option_bind]. destruct (hash_table_thaw_spec hash_cb cmp (hash_table_freeze t) Hwf1) as (t' & Heq & Hwf' & He' & Hfr'); [cbn; lia |].
    unfold hash_table_iterate_deinit. rewrite Heq. cbn [mbind option_bind]. exists (entries t), t'.
    split_and!; [done | split; [done | rewrite Hfr'; cbn; lia] | by apply nodupk_NoDup, (wf_nodup _ _ t Hwf) | intros; by apply key_get_entry |].
    intros k. apply option_eq. intros v. rewrite <- !key_get_entry by done. by rewrite He', He1.
Defined.
End KeyTable.

#[export] Instance hash_string_table {V} : Table (list Z) V (hash_table (list Z) V) := hash_key_table str_hash strcmp.
#[export] Instance hash_string_table_spec {V} : TableSpec (list Z) V (hash_table (list Z) V) := hash_key_table_spec str_hash strcmp strcmp_eq.

(** ** Witnesses *)

Definition empty_table : hash_table (list Z) Z := HT 0 67 0 0 (new_nodes 67).

Lemma empty_table_wf : wf str_hash strcmp empty_table.
Proof. apply (new_nodes_wf str_hash strcmp); unfold HASH_TABLE_MIN_SIZE; lia. Qed.

(** Numbers of which only the last digit counts. *)
Definition digit_cmp (a b : Z) : Z := a mod 10 - b mod 10.

#[export] Instance digit_key : HashKey (fun a => a mod 10) digit_cmp.
Proof. unfold digit_cmp. split; intros; lia. Qed.

Definition digit_table : hash_table Z Z :=
  default (HT 0 67 0 0 (new_nodes 67)) (hash_table_insert (fun a => a mod 10) digit_cmp (HT 0 67 0 0 (new_nodes 67)) 13 7).

Lemma digit_table_wf : wf (fun a => a mod 10) digit_cmp digit_table.
Proof.
  assert (H0 : wf (fun a => a mod 10) digit_cmp (HT 0 67 0 0 (new_nodes 67) : hash_table Z Z)) by (apply new_nodes_wf; unfold HASH_TABLE_MIN_SIZE; lia).
  destruct (hash_table_insert_spec (fun a => a mod 10) digit_cmp _ 13 7 H0) as (t & Heq & Hwf & _). unfold digit_table. rewrite Heq. exact Hwf.
Qed.

(** An insertion of 23 replaces the key 13, an update keeps it. *)
Lemma hash_table_insert_correct_witness :
  (exists t', hash_table_insert (fun a => a mod 10) digit_cmp digit_table 23 8 = Some t' /\ entries t' ≡ₚ [(23, 8)] /\
     hash_table_lookup (fun a => a mod 10) digit_cmp t' 33 = Some (Some 8)) /\
  (exists t', hash_table_update (fun a => a mod 10) digit_cmp digit_table 23 8 = Some t' /\ entries t' ≡ₚ [(13, 8)] /\
     hash_table_lookup (fun a => a mod 10) digit_cmp t' 33 = Some (Some 8)).
Proof.
  destruct (hash_table_insert_correct (fun a => a mod 10) digit_cmp digit_table 23 8 digit_table_wf) as [(t1 & H1 & _ & He1 & Hl1) (old & t2 & Ho & H2 & _ & He2 & Hl2)].
  vm_compute in Ho. injection Ho as <-. split.
  - exists t1. split; [exact H1 | split; [exact He1 | exact (Hl1 33)]].
  - exists t2. split; [exact H2 | split; [exact He2 | exact (Hl2 33)]].
Defined.

Lemma hash_table_remove_correct_witness :
  exists t', hash_table_try_remove (fun a => a mod 10) digit_cmp digit_table 23 = Some (true, t') /\ entries t' ≡ₚ [] /\
    hash_table_lookup (fun a => a mod 10) digit_cmp t' 13 = Some None.
Proof.
  destruct (hash_table_remove_correct (fun a => a mod 10) digit_cmp digit_table 23 digit_table_wf eq_refl) as (f & t' & H1 & _ & H3 & _ & H5 & _).
  exists t'. assert (f = true) as -> by (vm_compute in H1; injection H1 as <- _; reflexivity). split; [exact H1 | split; [exact H3 | exact (H5 13)]].
Defined.

Lemma hash_table_iterate_correct_witness :
  iterate_all (S (iterate_fuel empty_table)) (hash_table_freeze empty_table) (Iter (Some (0, 0)%nat) 0) = Some (entries empty_table).
Proof. exact (proj1 (hash_table_iterate_correct str_hash strcmp empty_table empty_table_wf)). Defined.
