(* ===== verification/ReplicatorQueue.v ===== *)
(** * The queue of the replicator (src/src/replication/replicator/replicator-queue.c)

    The users known to the replicator, in a priority queue by the urgency of
    their replication and in a table by name.  A user is an address in the map
    [users]; the priority queue of Priorityq.v holds addresses and compares
    what is stored there, and the table is any implementation of Table.v.
    The address of a new user comes from the allocator and is an argument.

    [sync_lookups] is kept as the memory of the array and the number of
    elements in use, because the code reads elements that it has deleted.
    The change callback, which is the last action of the functions that call
    it, belongs to ReplicatorBrain.v. *)

From stdpp Require Import gmap.
From S2P Require Import Prelude Strnum Strescape Priorityq Table.

(** [enum replication_priority]. *)
Definition REPLICATION_PRIORITY_NONE : Z := 0.
Definition REPLICATION_PRIORITY_LOW : Z := 1.
Definition REPLICATION_PRIORITY_HIGH : Z := 2.
Definition REPLICATION_PRIORITY_SYNC : Z := 3.

Notation addr := positive.

Record replicator_user := User {
  username : list Z;
  state : option (list Z);
  last_update : Z;
  last_fast_sync : Z;
  last_full_sync : Z;
  last_successful_sync : Z;
  priority : Z;
  popped : bool;
  last_sync_failed : bool;
  force_full_sync : bool;
}.

(** [i_new] and the name. *)
Definition new_user (name : list Z) : replicator_user := User name None 0 0 0 0 0 false false false.

(** [callback] and [context] together are a number. *)
Record replicator_sync_lookup := Lookup { lk_user : addr; lk_callback : Z; wait_for_next_push : bool }.

(** An array: its memory, and how many elements are in use. *)
Record lookup_array := LookupArray { la_mem : list replicator_sync_lookup; la_used : nat }.

Definition lookups_append (a : lookup_array) (l : replicator_sync_lookup) : lookup_array :=
  LookupArray (take (la_used a) (la_mem a) ++ l :: drop (S (la_used a)) (la_mem a)) (S (la_used a)).

(** [array_delete] of one element moves the ones behind it; the memory behind
    the last one keeps its contents. *)
Definition lookups_delete (a : lookup_array) (i : nat) : lookup_array :=
  if (la_used a <=? i)%nat then a
  else LookupArray (take i (la_mem a) ++ take (la_used a - S i) (drop (S i) (la_mem a)) ++ drop (la_used a - 1) (la_mem a))
                   (la_used a - 1).

(** ** Order *)

Definition user_priority_cmp (user1 user2 : replicator_user) : Z :=
  if priority user1 >? priority user2 then -1
  else if priority user1 <? priority user2 then 1
  else if negb (priority user1 =? REPLICATION_PRIORITY_NONE) then
    if last_fast_sync user1 <? last_fast_sync user2 then -1
    else if last_fast_sync user1 >? last_fast_sync user2 then 1 else 0
  else if negb (Bool.eqb (last_sync_failed user1) (last_sync_failed user2)) then
    if last_sync_failed user1 then -1 else 1
  else if last_sync_failed user1 then
    if last_fast_sync user1 <? last_fast_sync user2 then -1
    else if last_fast_sync user1 >? last_fast_sync user2 then 1 else 0
  else
    if last_full_sync user1 <? last_full_sync user2 then -1
    else if last_full_sync user1 >? last_full_sync user2 then 1 else 0.

(** The callback as the queue calls it, on addresses of users. *)
Definition user_cmp (users : gmap addr replicator_user) (a b : addr) : Z :=
  user_priority_cmp (default (new_user []) (users !! a)) (default (new_user []) (users !! b)).

(** ** Operations *)

Section Code.
Context {T : Type} `{!Table (list Z) addr T}.

Record replicator_queue := Queue {
  user_queue : priorityq addr;
  user_hash : T;
  sync_lookups : lookup_array;
  full_sync_interval : Z;
  failure_resync_interval : Z;
  users : gmap addr replicator_user;
}.

Definition with_users (q : replicator_queue) (us : gmap addr replicator_user) : replicator_queue :=
  Queue (user_queue q) (user_hash q) (sync_lookups q) (full_sync_interval q) (failure_resync_interval q) us.
Definition with_queue (q : replicator_queue) (pq : priorityq addr) : replicator_queue :=
  Queue pq (user_hash q) (sync_lookups q) (full_sync_interval q) (failure_resync_interval q) (users q).
Definition with_hash (q : replicator_queue) (t : T) : replicator_queue :=
  Queue (user_queue q) t (sync_lookups q) (full_sync_interval q) (failure_resync_interval q) (users q).
Definition with_lookups (q : replicator_queue) (l : lookup_array) : replicator_queue :=
  Queue (user_queue q) (user_hash q) l (full_sync_interval q) (failure_resync_interval q) (users q).

(** [hash] is the new table. *)
Definition replicator_queue_init (hash : T) (full_sync_interval failure_resync_interval : Z) : replicator_queue :=
  Queue priorityq_init hash (LookupArray [] 0) full_sync_interval failure_resync_interval ∅.

Definition replicator_queue_lookup (q : replicator_queue) (name : list Z) : option (option addr) :=
  table_lookup (user_hash q) name.

Definition queue_remove (q : replicator_queue) (a : addr) : option replicator_queue :=
  pq ← priorityq_remove (user_cmp (users q)) (user_queue q) a; Some (with_queue q pq).

Definition queue_add (q : replicator_queue) (a : addr) : option replicator_queue :=
  pq ← priorityq_add (user_cmp (users q)) (user_queue q) a; Some (with_queue q pq).

(** Writing to the fields of a user. *)
Definition update_user (q : replicator_queue) (a : addr) (f : replicator_user -> replicator_user) : replicator_queue :=
  with_users q (alter f a (users q)).

Definition set_priority (p now : Z) (u : replicator_user) : replicator_user :=
  User (username u) (state u) now (last_fast_sync u) (last_full_sync u) (last_successful_sync u) p (popped u)
    (last_sync_failed u) (force_full_sync u).

Definition set_popped (b : bool) (u : replicator_user) : replicator_user :=
  User (username u) (state u) (last_update u) (last_fast_sync u) (last_full_sync u) (last_successful_sync u) (priority u) b
    (last_sync_failed u) (force_full_sync u).

(** [new] is the address that the allocator returns for a new user. *)
Definition replicator_queue_add_int (q : replicator_queue) (name : list Z) (prio now : Z) (new : addr)
    : option (replicator_queue * addr) :=
  found ← replicator_queue_lookup q name;
  '(q, a, early) ←
    match found with
    | None =>
        t ← table_insert (user_hash q) name new;
        Some (with_hash (with_users q (<[new := new_user name]> (users q))) t, new, false)
    | Some a =>
        user ← users q !! a;
        if priority user >? prio then Some (q, a, true)
        else if negb (popped user) then q ← queue_remove q a; Some (q, a, false)
        else Some (q, a, false)
    end;
  if (early : bool) then Some (q, a)
  else
    let q := update_user q a (set_priority prio now) in
    user ← users q !! a;
    if negb (popped user) then q ← queue_add q a; Some (q, a) else Some (q, a).

Definition replicator_queue_add (q : replicator_queue) (name : list Z) (prio now : Z) (new : addr)
    : option (replicator_queue * addr) := replicator_queue_add_int q name prio now new.

Definition replicator_queue_add_sync (q : replicator_queue) (name : list Z) (callback now : Z) (new : addr)
    : option replicator_queue :=
  '(q, a) ← replicator_queue_add_int q name REPLICATION_PRIORITY_SYNC now new;
  user ← users q !! a;
  Some (with_lookups q (lookups_append (sync_lookups q) (Lookup a callback (popped user)))).

Definition replicator_queue_remove (q : replicator_queue) (a : addr) : option replicator_queue :=
  user ← users q !! a;
  q ← (if negb (popped user) then queue_remove q a else Some q);
  t ← table_remove (user_hash q) (username user);
  Some (with_users (with_hash q t) (delete a (users q))).

(** The result and, when it is FALSE, [*next_secs_r]. *)
Definition replicator_queue_want_sync_now (q : replicator_queue) (user : replicator_user) (now : Z) : bool * Z :=
  if negb (priority user =? REPLICATION_PRIORITY_NONE) then (true, 0)
  else
    let next_sync := if last_sync_failed user then last_fast_sync user + failure_resync_interval q
                     else last_full_sync user + full_sync_interval q in
    if next_sync <=? now then (true, 0) else (false, u32 (next_sync - now)).

(** The user, [inr] of [*next_secs_r] for NULL. *)
Definition replicator_queue_pop (q : replicator_queue) (now : Z) : option (replicator_queue * (addr + Z)) :=
  match priorityq_peek (user_queue q) with
  | None => Some (q, inr 3600)
  | Some a =>
      user ← users q !! a;
      let '(want, next_secs) := replicator_queue_want_sync_now q user now in
      if negb want then Some (q, inr next_secs)
      else
        q ← queue_remove q a;
        Some (update_user q a (set_popped true), inl a)
  end.

(** The loop over [sync_lookups].  [count] and [lookups] were read before it;
    deleting an element does not change them. *)
Fixpoint handle_sync_lookups_loop (fuel : nat) (user_priority : Z) (a : addr) (count i : nat)
    (lookups : lookup_array) (callbacks : list Z) : option (lookup_array * list Z) :=
  match fuel with
  | O => None
  | S fuel =>
      if (i <? count)%nat then
        l ← la_mem lookups !! i;
        if negb (bool_decide (lk_user l = a)) then
          handle_sync_lookups_loop fuel user_priority a count (S i) lookups callbacks
        else if wait_for_next_push l then
          _ ← assert (user_priority =? REPLICATION_PRIORITY_SYNC);
          let mem := <[i := Lookup (lk_user l) (lk_callback l) false]> (la_mem lookups) in
          handle_sync_lookups_loop fuel user_priority a count (S i) (LookupArray mem (la_used lookups)) callbacks
        else
          handle_sync_lookups_loop fuel user_priority a count i (lookups_delete lookups i) (callbacks ++ [lk_callback l])
      else Some (lookups, callbacks)
  end.

(** The callbacks that are called, each with [success]. *)
Definition replicator_queue_handle_sync_lookups (fuel : nat) (q : replicator_queue) (a : addr)
    : option (replicator_queue * list (Z * bool)) :=
  user ← users q !! a;
  '(lookups, callbacks) ←
    handle_sync_lookups_loop fuel (priority user) a (la_used (sync_lookups q)) 0 (sync_lookups q) [];
  Some (with_lookups q lookups, map (fun c => (c, negb (last_sync_failed user))) callbacks).

Definition replicator_queue_push (fuel : nat) (q : replicator_queue) (a : addr)
    : option (replicator_queue * list (Z * bool)) :=
  user ← users q !! a;
  _ ← assert (popped user);
  q ← queue_add q a;
  replicator_queue_handle_sync_lookups fuel (update_user q a (set_popped false)) a.

(** Every user of the queue is popped and removed; [change_callback] is NULL. *)
Fixpoint deinit_loop (fuel : nat) (q : replicator_queue) : option replicator_queue :=
  match fuel with
  | O => None
  | S fuel =>
      '(item, pq) ← priorityq_pop (user_cmp (users q)) (user_queue q);
      match item with
      | None => Some q
      | Some a =>
          q ← replicator_queue_remove (update_user (with_queue q pq) a (set_popped true)) a;
          deinit_loop fuel q
      end
  end.

Definition replicator_queue_deinit (q : replicator_queue) : option replicator_queue :=
  q ← deinit_loop (S (priorityq_count (user_queue q))) q;
  _ ← assert (la_used (sync_lookups q) =? 0)%nat;
  Some q.
End Code.

Arguments replicator_queue : clear implicits.
