(* ===== verification/ReplicatorQueueProps.v ===== *)
(** * Correctness of the replicator's queue

    The invariant ties the three parts together: the table finds exactly the
    users there are, the priority queue is a heap of exactly the users that are
    not being replicated, and its order is that of their present fields.
    Reading the database at the start and NOTIFY write to fields that the
    queue is ordered by, so the invariant has a form without the order, which
    every operation keeps as well. *)

From stdpp Require Import gmap.
From S2P Require Import Prelude Strnum Strescape Priorityq Table ReplicatorQueue.

(** ** The order of users *)

Lemma user_priority_total u1 u2 : user_priority_cmp u1 u2 < 0 -> 0 <= user_priority_cmp u2 u1.
Proof.
  unfold user_priority_cmp, REPLICATION_PRIORITY_NONE. destruct (last_sync_failed u1), (last_sync_failed u2); cbn; zcases; lia.
Qed.

Lemma user_priority_trans u1 u2 u3 :
  0 <= user_priority_cmp u1 u2 -> 0 <= user_priority_cmp u2 u3 -> 0 <= user_priority_cmp u1 u3.
Proof.
  unfold user_priority_cmp, REPLICATION_PRIORITY_NONE.
  destruct (last_sync_failed u1), (last_sync_failed u2), (last_sync_failed u3); cbn; zcases; lia.
Qed.

#[export] Instance user_cmp_order us : CmpOrder (user_cmp us).
Proof. split; intros; unfold user_cmp in *; [by apply user_priority_total | by eapply user_priority_trans]. Qed.

(** A change of the compared fields of users outside the queue keeps it. *)
Lemma pq_kept_ext {P} `{Countable P} (cmp cmp' : P -> P -> Z) o pq :
  (forall x y, x ∈ pq_items pq -> y ∈ pq_items pq -> cmp x y = cmp' x y) -> pq_kept cmp o pq -> pq_kept cmp' o pq.
Proof.
  intros Hext [Hi Ho]. split; [done |]. intros Ho' i j Hc p c Hp Hcc.
  rewrite <- Hext by (by eapply list_elem_of_lookup_2). by apply (Ho Ho' i j).
Qed.

Lemma user_cmp_ne us us' a x y : (forall b, b <> a -> us' !! b = us !! b) -> x <> a -> y <> a -> user_cmp us' x y = user_cmp us x y.
Proof. intros Hb Hx Hy. unfold user_cmp. by rewrite !Hb. Qed.

(** ** The invariant *)

Section Invariant.
Context {T : Type} `{!Table (list Z) addr T, !TableSpec (list Z) addr T}.
Implicit Types q : replicator_queue T.

Definition queued q (a : addr) : Prop := exists u, users q !! a = Some u /\ popped u = false.

(** [o] says whether the order is kept. *)
Record queue_inv {o : bool} q : Prop := {
  inv_table : table_inv (user_hash q);
  inv_names : forall name a, table_get (user_hash q) name = Some a <-> exists u, users q !! a = Some u /\ username u = name;
  inv_heap : pq_kept (user_cmp (users q)) o (user_queue q);
  inv_queued : forall a, a ∈ pq_items (user_queue q) <-> queued q a;
}.

Arguments queue_inv o q : clear implicits.

(** The invariant while the user [a] is outside the priority queue. *)
Record inv_but {o : bool} q (a : addr) : Prop := {
  but_table : table_inv (user_hash q);
  but_names : forall name b, table_get (user_hash q) name = Some b <-> exists u, users q !! b = Some u /\ username u = name;
  but_heap : pq_kept (user_cmp (users q)) o (user_queue q);
  but_queued : forall b, b ∈ pq_items (user_queue q) <-> b <> a /\ queued q b;
}.

Arguments inv_but o q a : clear implicits.

Lemma inv_popped {o} q a u : queue_inv o q -> users q !! a = Some u -> popped u = true -> inv_but o q a.
Proof.
  intros [] Hu Hp. split; try done. intros b. rewrite inv_queued0. split; [| tauto]. intros Hq. split; [| done].
  intros ->. destruct Hq as (u' & Hu' & Hp'). congruence.
Qed.

Lemma inv_but_popped {o} q a u : inv_but o q a -> users q !! a = Some u -> popped u = true -> queue_inv o q.
Proof.
  intros [] Hu Hp. split; try done. intros b. rewrite but_queued0. split; [tauto |]. intros Hq. split; [| done].
  intros ->. destruct Hq as (u' & Hu' & Hp'). congruence.
Qed.

Lemma queue_remove_spec {o} q a :
  queue_inv o q -> queued q a -> exists pq, queue_remove q a = Some (with_queue q pq) /\ inv_but o (with_queue q pq) a.
Proof.
  intros [] Hq. unfold queue_remove. apply inv_queued0 in Hq as Hin.
  destruct (priorityq_remove_spec (user_cmp (users q)) o (user_queue q) a inv_heap0 Hin) as (pq & -> & Hok & Hp & Hni & _).
  exists pq. split; [done |]. split; try done. intros b. cbn [with_queue user_queue users]. unfold queued. cbn [users with_queue].
  fold (queued q b). rewrite <- inv_queued0, Hp, elem_of_cons. split; [intros Hb; split; [by intros -> | by right] |].
  intros [Hne [-> | ?]]; done.
Qed.

Lemma queue_add_spec {o} q a :
  inv_but o q a -> queued q a -> exists pq, queue_add q a = Some (with_queue q pq) /\ queue_inv o (with_queue q pq).
Proof.
  intros [] Hq. unfold queue_add.
  assert (Hni : a ∉ pq_items (user_queue q)) by (rewrite but_queued0; tauto).
  destruct (priorityq_add_spec (user_cmp (users q)) o (user_queue q) a but_heap0 Hni) as (pq & -> & Hok & Hp & _).
  exists pq. split; [done |]. split; try done. intros b. cbn [with_queue user_queue users]. unfold queued. cbn [users with_queue].
  fold (queued q b). rewrite Hp, elem_of_cons, but_queued0. destruct (decide (b = a)) as [-> | Hne]; tauto.
Qed.

(** Writing to the fields of a user outside the priority queue. *)
Lemma update_user_but {o} q a f :
  inv_but o q a -> (forall u, username (f u) = username u) -> inv_but o (update_user q a f) a.
Proof.
  intros [] Hf. assert (Hne : forall b, b <> a -> alter f a (users q) !! b = users q !! b) by (intros; by apply lookup_alter_ne).
  split; cbn [update_user with_users user_hash users user_queue]; [done | | |].
  - intros name b. rewrite but_names0. destruct (decide (b = a)) as [-> | Hb]; [| by rewrite Hne].
    rewrite lookup_alter_eq. split.
    + intros (u & Hu & Hn). exists (f u). by rewrite Hu, Hf.
    + intros (u & Hu & Hn). apply fmap_Some in Hu as (u0 & Hu0 & ->). exists u0. by rewrite Hf in Hn.
  - apply pq_kept_ext with (user_cmp (users q)); [| done]. intros x y [Hx _]%but_queued0 [Hy _]%but_queued0.
    symmetry. by apply (user_cmp_ne _ _ a).
  - intros b. rewrite but_queued0. split; intros [Hb Hq]; (split; [done |]); unfold queued in *; cbn [users update_user with_users] in *;
      by rewrite Hne in * by done.
Qed.

(** The state after the user was found or created and taken out of the queue. *)
Lemma inv_but_new {o} q name new t :
  queue_inv o q -> table_get (user_hash q) name = None -> users q !! new = None -> table_inv t ->
  (forall k, table_get t k = if decide (k = name) then Some new else table_get (user_hash q) k) ->
  inv_but o (with_hash (with_users q (<[new := new_user name]> (users q))) t) new.
Proof.
  intros [] Hnone Hnew Ht Hget.
  assert (Hne : forall b, b <> new -> <[new := new_user name]> (users q) !! b = users q !! b) by (intros; by apply lookup_insert_ne).
  assert (Hnq : new ∉ pq_items (user_queue q)) by (rewrite inv_queued0; intros (u & Hu & _); congruence).
  split; cbn [with_hash with_users user_hash users user_queue]; [done | | |].
  - intros k b. rewrite Hget. destruct (decide (b = new)) as [-> | Hb].
    + rewrite lookup_insert_eq. destruct (decide (k = name)) as [-> | Hk]; [split; [by eexists | done] |]. split.
      * intros (u & Hu & _)%inv_names0. congruence.
      * intros (u & [= <-] & Hn). by subst.
    + rewrite Hne by done. destruct (decide (k = name)) as [-> | Hk]; [| done]. split; [congruence |].
      intros Hu%inv_names0. congruence.
  - apply pq_kept_ext with (user_cmp (users q)); [| done]. intros x y Hx Hy. symmetry. apply (user_cmp_ne _ _ new); [done | |]; by intros ->.
  - intros b. rewrite inv_queued0. unfold queued. cbn [users with_hash with_users]. destruct (decide (b = new)) as [-> | Hb].
    + split; [| tauto]. intros (u & Hu & _). congruence.
    + rewrite Hne by done. tauto.
Qed.

(** Writing to the fields of a user in the priority queue. *)
Lemma update_user_kept q a f :
  queue_inv false q -> (forall u, username (f u) = username u) -> (forall u, popped (f u) = popped u) -> queue_inv false (update_user q a f).
Proof.
  intros [Ht Hn [Hi _] Hq] Hf Hp. split; cbn [update_user with_users user_hash users user_queue]; [done | | by split |].
  - intros name b. rewrite Hn. destruct (decide (b = a)) as [-> | Hne]; [| by rewrite lookup_alter_ne]. rewrite lookup_alter_eq.
    destruct (users q !! a) as [u|]; cbn; [| done]. split; intros (u' & [= <-] & E); (eexists; split; [done |]); by rewrite ?Hf in *.
  - intros b. rewrite Hq. unfold queued. cbn [users update_user with_users]. destruct (decide (b = a)) as [-> | Hne]; [| by rewrite lookup_alter_ne].
    rewrite lookup_alter_eq. destruct (users q !! a) as [u|]; cbn; [| done]. split; intros (u' & [= <-] & E); (eexists; split; [done |]); by rewrite ?Hp in *.
Qed.

Lemma queue_inv_order {o} q : queue_inv o q -> queue_inv false q.
Proof. intros [? ? [? _] ?]. by split. Qed.

Lemma init_inv {o} t full fail :
  table_inv t -> (forall k, table_get t k = None) -> queue_inv o (replicator_queue_init t full fail).
Proof.
  intros Ht Hnone. split; cbn; [done | | |].
  - intros name a. rewrite Hnone. split; [done |]. intros (u & Hu & _). by rewrite lookup_empty in Hu.
  - pose proof (empty_ok (user_cmp ∅)) as [? ?]. by split.
  - intros a. split; [by intros ?%elem_of_nil |]. intros (u & Hu & _). cbn in Hu. by rewrite lookup_empty in Hu.
Qed.
End Invariant.

Arguments queue_inv {T _ _} o q.
Arguments inv_but {T _ _} o q a.

(** ** Operations *)

Section Operations.
Context {T : Type} `{!Table (list Z) addr T, !TableSpec (list Z) addr T}.
Implicit Types q : replicator_queue T.

(** What an operation on the user [a] leaves alone. *)
Definition others_same q q' (a : addr) : Prop :=
  (forall b, b <> a -> users q' !! b = users q !! b) /\
  full_sync_interval q' = full_sync_interval q /\ failure_resync_interval q' = failure_resync_interval q.

(** The second half of [replicator_queue_add_int]. *)
Lemma add_finish {o} q a u prio now :
  inv_but o q a -> users q !! a = Some u ->
  let q1 := update_user q a (set_priority prio now) in
  exists q', (user ← users q1 !! a; if negb (popped user) then q ← queue_add q1 a; Some (q, a) else Some (q1, a)) = Some (q', a) /\
    queue_inv o q' /\ users q' = users q1 /\ others_same q q' a /\ sync_lookups q' = sync_lookups q.
Proof.
  intros Hb Hu q1. assert (Hb1 : inv_but o q1 a) by (by apply update_user_but).
  assert (Hu1 : users q1 !! a = Some (set_priority prio now u)) by (cbn; rewrite lookup_alter_eq, Hu; done).
  assert (Hsame : others_same q q1 a) by (split; [intros; by apply lookup_alter_ne | done]).
  rewrite Hu1. cbn [mbind option_bind]. destruct (popped (set_priority prio now u)) eqn:Hp; cbn [negb].
  - exists q1. splits; [done | by apply inv_but_popped with a (set_priority prio now u) | done | done | done].
  - destruct (queue_add_spec q1 a Hb1) as (pq & -> & Hinv); [by eexists |]. cbn [mbind option_bind].
    exists (with_queue q1 pq). splits; [done | done | done | exact Hsame | done].
Qed.

(** The user that a call to add leaves behind. *)
Definition added_user (u0 : option replicator_user) (name : list Z) (prio now : Z) : replicator_user :=
  match u0 with
  | None => set_priority prio now (new_user name)
  | Some u => if priority u >? prio then u else set_priority prio now u
  end.

Lemma add_int_spec {o} q name prio now new :
  queue_inv o q -> users q !! new = None ->
  exists q' a, replicator_queue_add_int q name prio now new = Some (q', a) /\ queue_inv o q' /\
    users q' !! a = Some (added_user (users q !! a) name prio now) /\ others_same q q' a /\
    sync_lookups q' = sync_lookups q /\ table_get (user_hash q') name = Some a /\
    (table_get (user_hash q) name = None -> a = new) /\ (forall b, table_get (user_hash q) name = Some b -> a = b).
Proof.
  intros Hinv Hnew. unfold replicator_queue_add_int, replicator_queue_lookup. rewrite (table_lookup_spec _ _ (inv_table q Hinv)).
  cbn [mbind option_bind].
  assert (Hname : forall q' a u, queue_inv o q' -> users q' !! a = Some u -> username u = name -> table_get (user_hash q') name = Some a).
  { intros q' a u Hi Hu Hn. apply (inv_names q' Hi). by exists u. }
  destruct (table_get (user_hash q) name) as [a|] eqn:Hget.
  - destruct (proj1 (inv_names q Hinv name a) Hget) as (u & Hu & Hn). rewrite Hu. cbn [mbind option_bind].
    destruct (priority u >? prio) eqn:Hpr.
    { exists q, a. cbn [added_user]. rewrite Hu. cbn [added_user]. rewrite Hpr. splits; [done | done | done | done | done | done | done | congruence]. }
    assert (Hout : exists q1, (if negb (popped u) then q ← queue_remove q a; Some (q, a, false) else Some (q, a, false)) = Some (q1, a, false) /\
      inv_but o q1 a /\ users q1 = users q /\ others_same q q1 a /\ sync_lookups q1 = sync_lookups q).
    { destruct (popped u) eqn:Hp; cbn [negb].
      - exists q. splits; [done | by apply (inv_popped q a u) | done | done | done].
      - destruct (queue_remove_spec q a Hinv) as (pq & -> & Hb); [by exists u |]. cbn [mbind option_bind]. by exists (with_queue q pq). }
    destruct Hout as (q1 & -> & Hb & Hus & [Ho1 Ho2] & Hl1). cbn [mbind option_bind].
    destruct (add_finish q1 a u prio now Hb) as (q' & -> & Hinv' & Hus' & [Ho1' Ho2'] & Hl'); [by rewrite Hus |].
    assert (Hu' : users q' !! a = Some (set_priority prio now u)) by (rewrite Hus'; cbn; by rewrite Hus, lookup_alter_eq, Hu).
    exists q', a. cbn [added_user]. rewrite Hu. cbn [added_user]. rewrite Hpr.
    splits; [done | done | done | | congruence | by apply (Hname q' a _ Hinv' Hu') | done | congruence].
    split; [intros; by rewrite Ho1', Ho1 | naive_solver congruence].
  - destruct (table_insert_spec (user_hash q) name new (inv_table q Hinv)) as (t & -> & Ht & Hgt). cbn [mbind option_bind].
    set (q1 := with_hash _ _). assert (Hb : inv_but o q1 new) by (by apply inv_but_new).
    assert (Hu1 : users q1 !! new = Some (new_user name)) by (cbn; by rewrite lookup_insert_eq).
    destruct (add_finish q1 new _ prio now Hb Hu1) as (q' & -> & Hinv' & Hus' & [Ho1' Ho2'] & Hl').
    assert (Hu' : users q' !! new = Some (set_priority prio now (new_user name))).
    { rewrite Hus'. change (alter (set_priority prio now) new (users q1) !! new = Some (set_priority prio now (new_user name))).
      by rewrite lookup_alter_eq, Hu1. }
    exists q', new. rewrite Hnew. cbn [added_user].
    splits; [done | done | done | | done | by apply (Hname q' new _ Hinv' Hu') | done | done].
    split; [| done]. intros b Hbne. rewrite Ho1' by done. cbn. by apply lookup_insert_ne.
Qed.

(** The order does not look at [popped]. *)
Lemma user_cmp_popped us a b x y : user_cmp (alter (set_popped b) a us) x y = user_cmp us x y.
Proof.
  assert (Hd : forall x, exists c, default (new_user []) (alter (set_popped b) a us !! x) = set_popped c (default (new_user []) (us !! x))).
  { intros z. destruct (decide (z = a)) as [-> | Hne].
    - rewrite lookup_alter_eq. destruct (us !! a) as [u|]; [by exists b | by exists false].
    - rewrite lookup_alter_ne by done. destruct (us !! z) as [[]|]; [by eexists | by exists false]. }
  unfold user_cmp. destruct (Hd x) as [c1 ->], (Hd y) as [c2 ->]. done.
Qed.

Lemma pop_spec {o} q now :
  queue_inv o q ->
  exists q' r, replicator_queue_pop q now = Some (q', r) /\ queue_inv o q' /\
    match r with
    | inl a => exists u, users q !! a = Some u /\ popped u = false /\ (replicator_queue_want_sync_now q u now).1 = true /\
        users q' = alter (set_popped true) a (users q) /\ others_same q q' a /\ sync_lookups q' = sync_lookups q /\
        (o = true -> forall b ub, users q !! b = Some ub -> popped ub = false -> 0 <= user_priority_cmp ub u)
    | inr secs => q' = q /\
        ((forall b ub, users q !! b = Some ub -> popped ub = true) /\ secs = 3600 \/
         exists a u, users q !! a = Some u /\ popped u = false /\ replicator_queue_want_sync_now q u now = (false, secs) /\
           (o = true -> forall b ub, users q !! b = Some ub -> popped ub = false -> 0 <= user_priority_cmp ub u))
    end.
Proof.
  intros Hinv. pose proof (priorityq_peek_spec (user_cmp (users q)) o (user_queue q) (inv_heap q Hinv)) as Hpeek.
  unfold replicator_queue_pop. destruct (priorityq_peek (user_queue q)) as [a|].
  2: { exists q, (inr 3600). split_and!; [done | done | done |]. left. split; [| done]. intros b ub Hb. destruct (popped ub) eqn:E; [done |].
       assert (Hin : b ∈ pq_items (user_queue q)) by (apply (inv_queued q Hinv); by exists ub). rewrite Hpeek in Hin. by apply elem_of_nil in Hin. }
  destruct Hpeek as [H0 Hmin]. apply list_elem_of_lookup_2 in H0. apply (inv_queued q Hinv) in H0 as Hq. destruct Hq as (u & Hu & Hp).
  assert (Hbest : o = true -> forall b ub, users q !! b = Some ub -> popped ub = false -> 0 <= user_priority_cmp ub u).
  { intros Ho b ub Hb Hpb. assert (Hin : b ∈ pq_items (user_queue q)) by (apply (inv_queued q Hinv); by exists ub).
    apply (Hmin Ho) in Hin. unfold user_cmp in Hin. by rewrite Hb, Hu in Hin. }
  rewrite Hu. cbn [mbind option_bind]. destruct (replicator_queue_want_sync_now q u now) as [want secs] eqn:Hw. destruct want; cbn [negb].
  - destruct (queue_remove_spec q a Hinv) as (pq & -> & Hb); [by exists u |]. cbn [mbind option_bind].
    eexists _, (inl a). split; [done |]. split.
    + apply (inv_but_popped _ a (set_popped true u)); [by apply update_user_but | | done]. cbn. by rewrite lookup_alter_eq, Hu.
    + exists u. rewrite Hw. splits; try done. split; [intros b Hne; by apply lookup_alter_ne | done].
  - exists q, (inr secs). split_and!; [done | done | done |]. right. exists a, u. by rewrite Hw.
Qed.

Lemma with_lookups_inv {o} q l : queue_inv o q -> queue_inv o (with_lookups q l).
Proof. by intros []. Qed.

Lemma push_queue_spec {o} q a u :
  queue_inv o q -> users q !! a = Some u -> popped u = true ->
  exists pq, queue_add q a = Some (with_queue q pq) /\ queue_inv o (update_user (with_queue q pq) a (set_popped false)).
Proof.
  intros Hinv Hu Hp. pose proof (inv_popped q a u Hinv Hu Hp) as [].
  assert (Hni : a ∉ pq_items (user_queue q)) by (rewrite but_queued0; tauto).
  unfold queue_add. destruct (priorityq_add_spec (user_cmp (users q)) o (user_queue q) a but_heap0 Hni) as (pq & -> & Hok & Hpq & _).
  cbn [mbind option_bind]. exists pq. split; [done |]. split; cbn [update_user with_users with_queue user_hash users user_queue]; [done | | |].
  - intros name b. rewrite but_names0. destruct (decide (b = a)) as [-> | Hne]; [| by rewrite lookup_alter_ne].
    rewrite lookup_alter_eq, Hu. cbn. split; intros (u' & [= <-] & Hn); by eexists.
  - apply pq_kept_ext with (user_cmp (users q)); [| done]. intros x y _ _. symmetry. apply user_cmp_popped.
  - intros b. rewrite Hpq, elem_of_cons, but_queued0. unfold queued. cbn [users update_user with_users with_queue].
    destruct (decide (b = a)) as [-> | Hne]; [| rewrite lookup_alter_ne by done; tauto].
    rewrite lookup_alter_eq, Hu. cbn. split; [intros _; by eexists | by left].
Qed.

Lemma remove_spec {o} q a u :
  queue_inv o q -> users q !! a = Some u ->
  exists q', replicator_queue_remove q a = Some q' /\ queue_inv o q' /\ users q' = delete a (users q) /\ sync_lookups q' = sync_lookups q.
Proof.
  intros Hinv Hu. unfold replicator_queue_remove. rewrite Hu. cbn [mbind option_bind].
  assert (Hout : exists q1, (if negb (popped u) then queue_remove q a else Some q) = Some q1 /\ inv_but o q1 a /\
    users q1 = users q /\ user_hash q1 = user_hash q /\ sync_lookups q1 = sync_lookups q).
  { destruct (popped u) eqn:Hp; cbn [negb].
    - exists q. splits; try done. by apply (inv_popped q a u).
    - destruct (queue_remove_spec q a Hinv) as (pq & -> & Hb); [by exists u |]. by exists (with_queue q pq). }
  destruct Hout as (q1 & -> & [] & Hus & Hh & Hl). cbn [mbind option_bind].
  assert (Hget : table_get (user_hash q1) (username u) = Some a) by (apply but_names0; exists u; by rewrite Hus).
  destruct (table_remove_spec (user_hash q1) (username u) but_table0) as (t & -> & Ht & Hgt); [by eexists |]. cbn [mbind option_bind].
  eexists. splits; [done | | cbn; by rewrite Hus | done].
  assert (Hne : forall b, b <> a -> delete a (users q1) !! b = users q1 !! b) by (intros; by apply lookup_delete_ne).
  split; cbn [with_users with_hash user_hash users user_queue]; [done | | |].
  - intros name b. rewrite Hgt. destruct (decide (b = a)) as [-> | Hb].
    + rewrite lookup_delete_eq. split; [| by intros (? & ? & _)]. destruct (decide (name = username u)); [done |].
      intros (u' & Hu' & Hn)%but_names0. rewrite Hus in Hu'. congruence.
    + rewrite Hne by done. destruct (decide (name = username u)) as [-> | Hn]; [| done]. split; [done |].
      intros Hb'%but_names0. congruence.
  - apply pq_kept_ext with (user_cmp (users q1)); [| done]. intros x y [Hx _]%but_queued0 [Hy _]%but_queued0.
    symmetry. by apply (user_cmp_ne _ _ a).
  - intros b. rewrite but_queued0. unfold queued. cbn [users with_users with_hash]. destruct (decide (b = a)) as [-> | Hb].
    + rewrite lookup_delete_eq. split; [tauto | by intros (? & ? & _)].
    + rewrite Hne by done. tauto.
Qed.
End Operations.

Notation inv := (queue_inv true).
