(* ===== verification/ReplicatorSync.v ===== *)
(** * Waiting for replication: the sync lookups

    [replicator_queue_push] looks for the requests that wait for its user.
    The loop keeps the number of elements it started with while it deletes
    some of them.  This file shows exactly when that is harmless and what is
    called back then, and that the loop never ends otherwise. *)

From stdpp Require Import gmap.
From S2P Require Import Prelude Strnum Strescape Priorityq Table ReplicatorQueue ReplicatorQueueProps.

Section Loop.
Variable a : addr.
Variable prio : Z.
Implicit Types l : list replicator_sync_lookup.

(** A request that is answered now, and one that waits for the next push. *)
Definition answered (x : replicator_sync_lookup) : bool := bool_decide (lk_user x = a) && negb (wait_for_next_push x).
Definition waiting (x : replicator_sync_lookup) : bool := bool_decide (lk_user x = a) && wait_for_next_push x.

(** What remains of a request that is not answered. *)
Definition next_push (x : replicator_sync_lookup) : replicator_sync_lookup :=
  if waiting x then Lookup (lk_user x) (lk_callback x) false else x.

Definition keep (x : replicator_sync_lookup) : bool := negb (answered x).

Notation loop := (handle_sync_lookups_loop).

(** One step of the loop at the element [x]. *)
Lemma loop_step fuel count i arr cbs x :
  (i < count)%nat -> la_mem arr !! i = Some x -> (waiting x = true -> prio = REPLICATION_PRIORITY_SYNC) ->
  loop (S fuel) prio a count i arr cbs =
  if answered x then loop fuel prio a count i (lookups_delete arr i) (cbs ++ [lk_callback x])
  else loop fuel prio a count (S i) (LookupArray (<[i := next_push x]> (la_mem arr)) (la_used arr)) cbs.
Proof.
  intros Hi Hx Hw. cbn [handle_sync_lookups_loop]. rewrite (proj2 (Nat.ltb_lt _ _)) by done. rewrite Hx. cbn [mbind option_bind].
  unfold answered, next_push, waiting in *. destruct (bool_decide (lk_user x = a)); cbn [negb andb] in *.
  - destruct (wait_for_next_push x); cbn [negb]; [| done]. by rewrite Hw.
  - rewrite list_insert_id by done. by destruct arr.
Qed.

(** ** Never ending *)

(** The last element of the array is answered. *)
Definition stuck (count : nat) (arr : lookup_array) : Prop :=
  (la_used arr <= count)%nat /\ exists x, la_mem arr !! (count - 1)%nat = Some x /\ answered x = true.

Lemma delete_mem_behind arr i j :
  (la_used arr - 1 <= j)%nat -> (la_used arr <= length (la_mem arr))%nat -> la_mem (lookups_delete arr i) !! j = la_mem arr !! j.
Proof.
  intros Hj Hl. unfold lookups_delete. destruct (Nat.leb_spec (la_used arr) i) as [Hi | Hi]; [done |]. cbn [la_mem].
  assert (Hlen : length (take i (la_mem arr) ++ take (la_used arr - S i) (drop (S i) (la_mem arr))) = (la_used arr - 1)%nat)
    by (rewrite length_app, !length_take, length_drop; lia).
  rewrite app_assoc, lookup_app_r by lia. rewrite Hlen, lookup_drop. f_equal. lia.
Qed.

Lemma delete_mem_length arr i : (la_used arr <= length (la_mem arr))%nat -> length (la_mem (lookups_delete arr i)) = length (la_mem arr).
Proof.
  intros Hl. unfold lookups_delete. destruct (Nat.leb_spec (la_used arr) i); [done |]. cbn [la_mem].
  rewrite !length_app, !length_take, !length_drop. lia.
Qed.

Lemma loop_stuck fuel count i arr cbs :
  stuck count arr -> (i < count)%nat -> (la_used arr <= length (la_mem arr))%nat -> loop fuel prio a count i arr cbs = None.
Proof.
  revert i arr cbs. induction fuel as [|fuel IH]; intros i arr cbs Hs Hi Hl; [done |].
  destruct Hs as (Hu & x & Hx & Ha). pose proof (lookup_lt_Some _ _ _ Hx) as Hxl.
  destruct (lookup_lt_is_Some_2 (la_mem arr) i) as [y Hy]; [lia |].
  cbn [handle_sync_lookups_loop]. rewrite (proj2 (Nat.ltb_lt _ _)) by done. rewrite Hy. cbn [mbind option_bind].
  assert (Hnext : answered y = false -> (S i < count)%nat).
  { intros Hny. destruct (decide (i = count - 1)%nat) as [-> |]; [congruence | lia]. }
  unfold answered in Hnext at 1. destruct (bool_decide (lk_user y = a)); cbn [negb andb] in *; [| apply IH; [by split; [| exists x] | by auto | done]].
  destruct (wait_for_next_push y); cbn [negb] in *.
  - destruct (prio =? REPLICATION_PRIORITY_SYNC); cbn [assert mbind option_bind]; [| done].
    apply IH; [| by auto | cbn; by rewrite length_insert]. split; [done |]. exists x. cbn [la_mem]. split; [| done].
    rewrite list_lookup_insert_ne; [done |]. specialize (Hnext eq_refl). lia.
  - apply IH; [| done |].
    + split; [unfold lookups_delete; case_match; cbn; lia |]. exists x. split; [| done]. by rewrite delete_mem_behind by lia.
    + rewrite delete_mem_length by done. unfold lookups_delete. case_match; cbn; lia.
Qed.

(** ** Ending *)

(** The elements behind the last one are copies of it. *)
Lemma loop_copies fuel x P n X used cbs :
  answered x = false -> (waiting x = true -> prio = REPLICATION_PRIORITY_SYNC) -> (n < fuel)%nat -> (used <= length P)%nat ->
  exists mem, loop fuel prio a (length P + n) (length P) (LookupArray (P ++ replicate n x ++ X) used) cbs = Some (LookupArray mem used, cbs) /\
    take used mem = take used P.
Proof.
  intros Hx Hw. revert P fuel. induction n as [|n IH]; intros P fuel Hf Hu.
  - destruct fuel as [|fuel]; [lia |]. cbn [handle_sync_lookups_loop]. rewrite (proj2 (Nat.ltb_ge _ _)) by lia.
    eexists. split; [done |]. by rewrite take_app_le.
  - destruct fuel as [|fuel]; [lia |]. rewrite (loop_step _ _ _ _ _ x); [| lia | cbn; by rewrite list_lookup_middle | done].
    rewrite Hx. cbn [la_mem la_used]. cbn [replicate app]. rewrite insert_app_r_alt, Nat.sub_diag by lia. cbn [list_insert insert].
    destruct (IH (P ++ [next_push x]) fuel) as (mem & Heq & Ht); [lia | rewrite length_app; cbn; lia |].
    exists mem. rewrite length_app in Heq. cbn [length] in Heq. rewrite <- app_assoc in Heq. cbn [app] in Heq.
    replace (length P + 1 + n)%nat with (length P + S n)%nat in Heq by lia. replace (length P + 1)%nat with (S (length P)) in Heq by lia.
    split; [exact Heq |]. by rewrite Ht, take_app_le.
Qed.

Lemma delete_middle P x R S0 X :
  R <> [] -> lookups_delete (LookupArray (P ++ x :: R ++ S0 ++ X) (length P + S (length R))) (length P) =
  LookupArray (P ++ R ++ (default x (last R) :: S0) ++ X) (length P + length R).
Proof.
  intros HR. unfold lookups_delete. cbn [la_used la_mem]. rewrite (proj2 (Nat.leb_gt _ _)) by lia.
  f_equal; [| lia]. rewrite take_app_length. f_equal.
  replace (S (length P)) with (length (P ++ [x])) by (rewrite length_app; cbn; lia).
  rewrite (cons_middle x P (R ++ S0 ++ X)), (app_assoc P [x]), drop_app_length.
  replace (length P + S (length R) - length (P ++ [x]))%nat with (length R) by (rewrite length_app; cbn; lia).
  rewrite take_app_length. f_equal. destruct (exists_last HR) as (R0 & y & ->). rewrite last_snoc. cbn [default from_option id].
  replace (length P + S (length (R0 ++ [y])) - 1)%nat with (length ((P ++ [x]) ++ R0)) by (rewrite !length_app; cbn; lia).
  rewrite <- (app_assoc R0), (app_assoc (P ++ [x]) R0). by rewrite drop_app_length.
Qed.

(** The loop at the first of the remaining elements [R], after [n] deletions. *)
Lemma loop_rest fuel z P R n X cbs :
  (R <> [] -> last R = Some z) -> answered z = false -> (waiting z = true -> prio = REPLICATION_PRIORITY_SYNC) ->
  Forall (fun x => waiting x = true -> prio = REPLICATION_PRIORITY_SYNC) R -> (length R * 2 + n < fuel)%nat ->
  exists mem, loop fuel prio a (length P + length R + n) (length P) (LookupArray (P ++ R ++ replicate n z ++ X) (length P + length R)) cbs
    = Some (LookupArray mem (length P + length (List.filter keep R)), cbs ++ map lk_callback (List.filter answered R)) /\
    take (length P + length (List.filter keep R)) mem = P ++ map next_push (List.filter keep R).
Proof.
  intros Hlast Hz Hwz. revert fuel P n cbs Hlast. induction R as [|x R IH]; intros fuel P n cbs Hlast Hws Hf.
  - destruct (loop_copies fuel z P n X (length P) cbs Hz Hwz) as (mem & Heq & Ht); [cbn in Hf; lia | done |].
    exists mem. cbn [length List.filter map]. rewrite !Nat.add_0_r, !app_nil_r. cbn [app]. split; [exact Heq |]. by rewrite Ht, firstn_all.
  - apply Forall_cons in Hws as [Hwx Hws]. cbn [length] in Hf. destruct fuel as [|fuel]; [lia |]. cbn [length app].
    rewrite (loop_step _ _ _ _ _ x); [| lia | cbn; by rewrite list_lookup_middle | done].
    cbn [List.filter]. change (keep x) with (negb (answered x)). destruct (answered x) eqn:Hx; cbn [negb].
    + assert (HR : R <> []) by (intros ->; specialize (Hlast ltac:(discriminate)); cbn in Hlast; congruence).
      rewrite delete_middle by done. assert (HlR : last R = Some z) by (destruct R as [|r R]; [by destruct HR | exact (Hlast ltac:(discriminate))]).
      rewrite HlR. cbn [default from_option id].
      destruct (IH fuel P (S n) (cbs ++ [lk_callback x])) as (mem & Heq & Ht); [done | done | lia |].
      exists mem. cbn [map]. rewrite <- app_assoc in Heq. cbn [app replicate] in Heq.
      replace (length P + S (length R) + n)%nat with (length P + length R + S n)%nat by lia. split; [exact Heq | exact Ht].
    + cbn [la_mem la_used]. rewrite insert_app_r_alt, Nat.sub_diag by lia. cbn [list_insert insert].
      destruct (IH fuel (P ++ [next_push x]) n cbs) as (mem & Heq & Ht); [intros HR; destruct R as [|r R]; [by destruct HR | exact (Hlast ltac:(discriminate))] | done | lia |].
      rewrite length_app in Heq, Ht. cbn [length] in Heq, Ht. rewrite <- !app_assoc in Heq, Ht. cbn [app] in Heq, Ht.
      exists mem. cbn [length map]. replace (S (length P)) with (length P + 1)%nat by lia.
      replace (length P + S (length R))%nat with (length P + 1 + length R)%nat by lia.
      replace (length P + S (length (List.filter keep R)))%nat with (length P + 1 + length (List.filter keep R))%nat by lia. done.
Qed.
End Loop.

(** ** Properties of the queue *)

(** The elements in use. *)
Definition active (arr : lookup_array) : list replicator_sync_lookup := take (la_used arr) (la_mem arr).
Definition arr_ok (arr : lookup_array) : Prop := (la_used arr <= length (la_mem arr))%nat.

Lemma active_append arr x : arr_ok arr -> arr_ok (lookups_append arr x) /\ active (lookups_append arr x) = active arr ++ [x].
Proof.
  intros Hok. unfold arr_ok, active, lookups_append in *. cbn [la_mem la_used]. split.
  - rewrite length_app, length_take. cbn [length]. lia.
  - replace (S (la_used arr)) with (length (take (la_used arr) (la_mem arr)) + 1)%nat by (rewrite length_take; lia).
    by rewrite take_app_add.
Qed.

Lemma loop_spec a prio arr :
  arr_ok arr -> Forall (fun x => waiting a x = true -> prio = REPLICATION_PRIORITY_SYNC) (active arr) ->
  (forall x, last (active arr) = Some x -> answered a x = false) ->
  exists arr', handle_sync_lookups_loop (S (la_used arr * 2)) prio a (la_used arr) 0 arr [] =
      Some (arr', map lk_callback (List.filter (answered a) (active arr))) /\
    arr_ok arr' /\ active arr' = map (next_push a) (List.filter (keep a) (active arr)).
Proof.
  intros Hok Hw Hlast. destruct (last (active arr)) as [z|] eqn:Hz.
  2: { apply last_None in Hz. unfold active, arr_ok in *. destruct arr as [mem used]. cbn [la_mem la_used] in *.
       assert (used = 0%nat) as -> by (destruct used; [done |]; destruct mem; [cbn in Hok; lia | done]).
       rewrite Hz. by exists (LookupArray mem 0). }
  specialize (Hlast z eq_refl). destruct arr as [mem used]. unfold active, arr_ok in *. cbn [la_mem la_used] in *.
  assert (Hl : length (take used mem) = used) by (rewrite length_take; lia).
  assert (Hwz : waiting a z = true -> prio = REPLICATION_PRIORITY_SYNC).
  { apply last_Some in Hz as [l' Hz]. rewrite Hz in Hw. by apply Forall_app in Hw as [_ [? _]%Forall_cons]. }
  destruct (loop_rest a prio (S (used * 2)) z [] (take used mem) 0 (drop used mem) []) as (mem' & Heq & Ht); [done | done | done | done | rewrite Hl; lia |].
  cbn [length app replicate] in Heq, Ht. rewrite take_drop, Hl, Nat.add_0_r in Heq. cbn [Nat.add] in *.
  eexists. split; [exact Heq |]. cbn [la_mem la_used]. split; [| exact Ht].
  apply (f_equal length) in Ht. rewrite length_take, length_map in Ht. lia.
Qed.

Section Properties.
Context {T : Type} `{!Table (list Z) addr T, !TableSpec (list Z) addr T}.
Implicit Types q : replicator_queue T.

(** Adding a user keeps the table, the heap and the users consistent with
    each other; the user is then found under its name, keeps a higher priority
    that it had, and otherwise has the new priority and the present time; no
    other user changes. *)
Theorem replicator_queue_add_correct q name prio now new :
  inv q -> users q !! new = None ->
  exists q' a u, replicator_queue_add q name prio now new = Some (q', a) /\ inv q' /\
    replicator_queue_lookup q' name = Some (Some a) /\ users q' !! a = Some u /\
    u = added_user (users q !! a) name prio now /\ prio <= priority u /\
    forall b, b <> a -> users q' !! b = users q !! b.
Proof.
  intros Hinv Hnew. destruct (add_int_spec q name prio now new Hinv Hnew) as (q' & a & Heq & Hinv' & Hu & [Ho _] & _ & Hget & _).
  exists q', a, (added_user (users q !! a) name prio now). splits; try done.
  - unfold replicator_queue_lookup. rewrite (table_lookup_spec _ _ (inv_table q' Hinv')). by rewrite Hget.
  - unfold added_user. destruct (users q !! a) as [u|]; [| cbn; lia]. destruct (priority u >? prio) eqn:E; cbn; lia.
Qed.

(** C32: popping keeps the invariant.  A user that is popped wants to be
    replicated now and no other user in the queue comes before it; it is then
    outside the queue.  When nothing is popped, no user in the queue has a
    priority, and unless one of them failed last time none of them is due. *)
Theorem replicator_queue_pop_correct q now :
  inv q -> (forall b u, users q !! b = Some u -> 0 <= priority u) ->
  exists q' r, replicator_queue_pop q now = Some (q', r) /\ inv q' /\
    match r with
    | inl a => exists u, users q !! a = Some u /\ popped u = false /\ (replicator_queue_want_sync_now q u now).1 = true /\
        users q' !! a = Some (set_popped true u) /\ forall b ub, queued q b -> users q !! b = Some ub -> 0 <= user_priority_cmp ub u
    | inr secs => q' = q /\ (forall b u, users q !! b = Some u -> queued q b -> priority u = REPLICATION_PRIORITY_NONE) /\
        ((forall b u, users q !! b = Some u -> queued q b -> last_sync_failed u = false) ->
         forall b u, users q !! b = Some u -> queued q b -> (replicator_queue_want_sync_now q u now).1 = false)
    end.
Proof.
  intros Hinv Hpr. destruct (pop_spec q now Hinv) as (q' & r & Heq & Hinv' & Hr). exists q', r. split; [done |]. split; [done |].
  assert (Hq : forall b u, users q !! b = Some u -> queued q b -> popped u = false) by (intros b u Hb (u' & Hu' & Hp); congruence).
  destruct r as [a | secs].
  - destruct Hr as (u & Hu & Hp & Hw & Hus & _ & _ & Hbest). exists u. splits; try done.
    + by rewrite Hus, lookup_alter_eq, Hu.
    + intros b ub Hqb Hb. apply (Hbest eq_refl b); [done | by apply (Hq b)].
  - destruct Hr as [-> [[Hall _] | (a & u & Hu & Hp & Hw & Hbest)]].
    + splits; [done | |]; intros; exfalso; [| clear H]; (assert (popped u = false) by (by apply (Hq b))); by rewrite (Hall b u) in *.
    + specialize (Hbest eq_refl). assert (Hnone : priority u = REPLICATION_PRIORITY_NONE).
      { unfold replicator_queue_want_sync_now in Hw. destruct (Z.eqb_spec (priority u) REPLICATION_PRIORITY_NONE); [done | by cbn in Hw]. }
      assert (Hle : forall b ub, users q !! b = Some ub -> queued q b -> priority ub = REPLICATION_PRIORITY_NONE).
      { intros b ub Hb Hqb. specialize (Hbest b ub Hb (Hq b ub Hb Hqb)). pose proof (Hpr b ub Hb). unfold user_priority_cmp, REPLICATION_PRIORITY_NONE in *.
        destruct (Z.gtb_spec (priority ub) (priority u)); [lia |]. lia. }
      splits; [done | done |]. intros Hnf b ub Hb Hqb.
      assert (Huf : last_sync_failed u = false) by (apply (Hnf a); [done | by exists u]).
      pose proof (Hnf b ub Hb Hqb) as Hubf. pose proof (Hle b ub Hb Hqb) as Hubn. specialize (Hbest b ub Hb (Hq b ub Hb Hqb)).
      unfold user_priority_cmp, replicator_queue_want_sync_now, REPLICATION_PRIORITY_NONE in *. rewrite Huf, Hubf, Hnone, Hubn in *.
      cbn [Z.eqb negb Bool.eqb Z.gtb Z.ltb Z.compare] in *. destruct (Z.leb_spec (last_full_sync u + full_sync_interval q) now); [done |].
      destruct (Z.leb_spec (last_full_sync ub + full_sync_interval q) now); [| done]. exfalso.
      destruct (Z.ltb_spec (last_full_sync ub) (last_full_sync u)); lia.
Qed.

(** While a user whose last replication failed is in the queue and not yet
    due again, and nobody has a priority, nothing is popped, even if other
    users are due for their full sync. *)
Theorem replicator_queue_pop_waits_for_failed q now f uf :
  inv q -> users q !! f = Some uf -> queued q f -> last_sync_failed uf = true ->
  (forall b u, users q !! b = Some u -> queued q b -> priority u = REPLICATION_PRIORITY_NONE) ->
  (forall b u, users q !! b = Some u -> queued q b -> last_sync_failed u = true -> now < last_fast_sync u + failure_resync_interval q) ->
  exists secs, replicator_queue_pop q now = Some (q, inr secs).
Proof.
  intros Hinv Hf Hqf Hfail Hnone Hdue. destruct (pop_spec q now Hinv) as (q' & r & Heq & _ & Hr).
  destruct r as [a | secs]; [exfalso | destruct Hr as [-> _]; by exists secs].
  destruct Hr as (u & Hu & Hp & Hw & _ & _ & _ & Hbest). assert (Hqa : queued q a) by (by exists u).
  assert (Hpf : popped uf = false) by (destruct Hqf as (u' & ? & ?); congruence). specialize (Hbest eq_refl f uf Hf Hpf).
  pose proof (Hnone a u Hu Hqa) as Hn. pose proof (Hnone f uf Hf Hqf) as Hnf.
  unfold user_priority_cmp in Hbest. rewrite Hn, Hnf, Hfail in Hbest. cbn in Hbest.
  destruct (last_sync_failed u) eqn:Hfu; [| cbn in Hbest; lia]. specialize (Hdue a u Hu Hqa Hfu).
  unfold replicator_queue_want_sync_now in Hw. rewrite Hn, Hfu in Hw. cbn in Hw.
  destruct (Z.leb_spec (last_fast_sync u + failure_resync_interval q) now); [lia | done].
Qed.

Lemma push_spec {o} q a u :
  queue_inv o q -> users q !! a = Some u -> popped u = true -> arr_ok (sync_lookups q) ->
  (forall x, x ∈ active (sync_lookups q) -> waiting a x = true -> priority u = REPLICATION_PRIORITY_SYNC) ->
  (forall x, last (active (sync_lookups q)) = Some x -> answered a x = false) ->
  exists q', replicator_queue_push (S (la_used (sync_lookups q) * 2)) q a =
      Some (q', map (fun x => (lk_callback x, negb (last_sync_failed u))) (List.filter (answered a) (active (sync_lookups q)))) /\
    queue_inv o q' /\ users q' !! a = Some (set_popped false u) /\ (forall b, b <> a -> users q' !! b = users q !! b) /\
    arr_ok (sync_lookups q') /\
    active (sync_lookups q') = map (next_push a) (List.filter (keep a) (active (sync_lookups q))).
Proof.
  intros Hinv Hu Hp Harr Hw Hlast. unfold replicator_queue_push. rewrite Hu. cbn [mbind option_bind]. rewrite Hp. cbn [assert mbind option_bind].
  destruct (push_queue_spec q a u Hinv Hu Hp) as (pq & -> & Hinv1). cbn [mbind option_bind].
  set (q1 := update_user _ _ _). assert (Hu1 : users q1 !! a = Some (set_popped false u)) by (subst q1; cbn; rewrite lookup_alter_eq, Hu; done).
  unfold replicator_queue_handle_sync_lookups. rewrite Hu1. cbn [mbind option_bind].
  destruct (loop_spec a (priority u) (sync_lookups q) Harr) as (arr' & Heq & Harr' & Hact); [by apply Forall_forall | done |].
  change (sync_lookups q1) with (sync_lookups q). change (priority (set_popped false u)) with (priority u). rewrite Heq. cbn [mbind option_bind].
  exists (with_lookups q1 arr'). splits; [by rewrite map_map | by apply with_lookups_inv | done | | done | done].
  intros b Hb. cbn. by rewrite lookup_alter_ne.
Qed.

(** C31: returning a user to the queue keeps the invariant, answers exactly the
    requests that were made before the user was popped, in their order, with
    the success of the replication, and leaves the later ones for the next
    time, provided the last element of the array is not one of the former and
    the user has the priority SYNC if there are later ones, as the code
    asserts. *)
Theorem replicator_queue_push_correct q a u :
  inv q -> users q !! a = Some u -> popped u = true -> arr_ok (sync_lookups q) ->
  (forall x, x ∈ active (sync_lookups q) -> waiting a x = true -> priority u = REPLICATION_PRIORITY_SYNC) ->
  (forall x, last (active (sync_lookups q)) = Some x -> answered a x = false) ->
  exists q', replicator_queue_push (S (la_used (sync_lookups q) * 2)) q a =
      Some (q', map (fun x => (lk_callback x, negb (last_sync_failed u))) (List.filter (answered a) (active (sync_lookups q)))) /\
    inv q' /\ users q' !! a = Some (set_popped false u) /\ (forall b, b <> a -> users q' !! b = users q !! b) /\
    arr_ok (sync_lookups q') /\
    active (sync_lookups q') = map (next_push a) (List.filter (keep a) (active (sync_lookups q))).
Proof. exact (push_spec q a u). Qed.

Lemma push_stuck q a x fuel :
  last (active (sync_lookups q)) = Some x -> answered a x = true -> arr_ok (sync_lookups q) ->
  replicator_queue_push fuel q a = None.
Proof.
  intros Hlast Ha Harr. unfold replicator_queue_push. destruct (users q !! a) as [u|]; [| done]. cbn [mbind option_bind].
  destruct (assert (popped u)); [| done]. cbn [mbind option_bind]. unfold queue_add.
  destruct (priorityq_add _ _ _) as [pq|]; [| done]. cbn [mbind option_bind]. unfold replicator_queue_handle_sync_lookups.
  destruct (users _ !! a) as [u'|]; [| done]. cbn [mbind option_bind update_user with_users with_queue sync_lookups].
  assert (Hused : (0 < la_used (sync_lookups q))%nat) by (destruct (la_used (sync_lookups q)) eqn:E; [unfold active in Hlast; rewrite E in Hlast; done | lia]).
  rewrite loop_stuck; [done | | done | done]. split; [done |]. exists x. split; [| done].
  rewrite last_lookup in Hlast. unfold active in Hlast. rewrite length_take in Hlast. unfold arr_ok in Harr.
  rewrite lookup_take_lt in Hlast by lia. by replace (Init.Nat.pred _) with (la_used (sync_lookups q) - 1)%nat in Hlast by lia.
Qed.

(** C38: when the last element of the array is a request that this push is to
    answer, in particular when there is only one request, the push never
    returns: its loop finds the deleted element again and again. *)
Theorem replicator_queue_push_never_ends q a x fuel :
  last (active (sync_lookups q)) = Some x -> answered a x = true -> arr_ok (sync_lookups q) ->
  replicator_queue_push fuel q a = None.
Proof. exact (push_stuck q a x fuel). Qed.
End Properties.

(** ** Witnesses

    Two users in a queue over a hash table of hash.c. *)
From S2P Require Import Hash HashProps HashLaws.

Notation queue_t := (replicator_queue (hash_table (list Z) addr)).

Definition demo_table : hash_table (list Z) addr := HT 0 67 0 0 (new_nodes 67).

Lemma demo_table_inv : table_inv demo_table.
Proof. change (key_table_inv str_hash strcmp demo_table). split; [apply (new_nodes_wf str_hash strcmp); unfold HASH_TABLE_MIN_SIZE; lia | done]. Qed.

Lemma demo_table_get k : table_get demo_table k = None.
Proof.
  change (key_table_get str_hash strcmp demo_table k = None). unfold key_table_get.
  destruct (hash_table_lookup_full_spec str_hash strcmp demo_table k (proj1 demo_table_inv)) as (o & _ & -> & Ho).
  destruct o as [[k' v']|]; [| done]. destruct Ho as [Hin _]. exfalso. revert Hin. unfold entries. cbn [nodes demo_table].
  rewrite ents_new. apply not_elem_of_nil.
Qed.

Definition demo_init : queue_t := replicator_queue_init demo_table 100 300.

Lemma demo_init_inv : inv demo_init.
Proof. apply init_inv; [apply demo_table_inv | apply demo_table_get]. Qed.

(** The state after an operation that succeeds. *)
Definition after {B} (q : queue_t) (r : option (queue_t * B)) : queue_t := default q (fst <$> r).

Lemma after_add_inv q name prio now new :
  inv q -> users q !! new = None -> inv (after q (replicator_queue_add q name prio now new)).
Proof. intros Hinv Hnew. unfold replicator_queue_add. by destruct (add_int_spec q name prio now new Hinv Hnew) as (q' & a & -> & ? & _). Qed.

Lemma after_pop_inv q now : inv q -> inv (after q (replicator_queue_pop q now)).
Proof. intros Hinv. by destruct (pop_spec q now Hinv) as (q' & r & -> & ? & _). Qed.

Definition demo_a : queue_t := after demo_init (replicator_queue_add demo_init (str "a") REPLICATION_PRIORITY_HIGH 10 1%positive).
Definition demo_popped : queue_t := after demo_a (replicator_queue_pop demo_a 10).

(** While "a" is replicated a synchronous request for it arrives. *)
Definition demo_waiting : queue_t :=
  with_lookups (after demo_popped (replicator_queue_add demo_popped (str "a") REPLICATION_PRIORITY_SYNC 11 2%positive))
    (LookupArray [Lookup 1 5 false; Lookup 1 6 true] 2).

Lemma demo_a_inv : inv demo_a.
Proof. apply after_add_inv; [apply demo_init_inv | reflexivity]. Qed.

Lemma demo_popped_inv : inv demo_popped.
Proof. apply after_pop_inv, demo_a_inv. Qed.

Lemma demo_waiting_inv : inv demo_waiting.
Proof. apply with_lookups_inv, after_add_inv; [apply demo_popped_inv | reflexivity]. Qed.

Lemma demo_a_users : users demo_a = {[1%positive := set_priority 2 10 (new_user (str "a"))]}.
Proof. vm_compute. reflexivity. Qed.

Lemma demo_waiting_a : users demo_waiting !! 1%positive = Some (set_popped true (set_priority 3 11 (new_user (str "a")))).
Proof. vm_compute. reflexivity. Qed.

Lemma replicator_queue_add_correct_witness :
  exists q' a, replicator_queue_add demo_init (str "user") REPLICATION_PRIORITY_LOW 100 1%positive = Some (q', a) /\ inv q'.
Proof.
  destruct (replicator_queue_add_correct demo_init (str "user") REPLICATION_PRIORITY_LOW 100 1%positive demo_init_inv eq_refl)
    as (q' & a & u & Heq & Hinv & _).
  exists q', a. split; [exact Heq | exact Hinv].
Defined.

Lemma replicator_queue_pop_correct_witness :
  exists q', replicator_queue_pop demo_a 10 = Some (q', inl 1%positive) /\ inv q'.
Proof.
  destruct (replicator_queue_pop_correct demo_a 10 demo_a_inv) as (q' & r & Heq & Hinv & _).
  { intros b u. rewrite demo_a_users. intros [_ <-]%lookup_singleton_Some. cbn. lia. }
  exists q'. split; [| done]. rewrite Heq. vm_compute in Heq. injection Heq as _ <-. done.
Defined.

Lemma replicator_queue_push_correct_witness :
  exists q', replicator_queue_push 5 demo_waiting 1%positive = Some (q', [(5, true)]) /\ inv q' /\ active (sync_lookups q') = [Lookup 1 6 false].
Proof.
  destruct (replicator_queue_push_correct demo_waiting 1%positive _ demo_waiting_inv demo_waiting_a eq_refl) as (q' & Heq & Hinv & _ & _ & _ & Hact).
  - unfold arr_ok. cbn. lia.
  - reflexivity.
  - intros x [= <-]. reflexivity.
  - exists q'. split; [exact Heq | split; [exact Hinv | exact Hact]].
Defined.

Lemma replicator_queue_push_never_ends_witness :
  replicator_queue_push 1000 (with_lookups demo_popped (LookupArray [Lookup 1 5 false] 1)) 1%positive = None.
Proof. apply replicator_queue_push_never_ends with (Lookup 1 5 false); [reflexivity | reflexivity | unfold arr_ok; cbn; lia]. Defined.

(** "a" has failed at 1000, "b" has never been replicated. *)
Definition fail_user (now : Z) (u : replicator_user) : replicator_user :=
  User (username u) (state u) (last_update u) now (last_full_sync u) (last_successful_sync u) REPLICATION_PRIORITY_NONE (popped u) true
    (force_full_sync u).

Definition demo_failing : queue_t := update_user demo_popped 1%positive (fail_user 1000).
Definition demo_pushed : queue_t := after demo_failing (replicator_queue_push 1 demo_failing 1%positive).
Definition demo_failed : queue_t := after demo_pushed (replicator_queue_add demo_pushed (str "b") REPLICATION_PRIORITY_NONE 1000 2%positive).

Definition user_a : replicator_user := set_popped true (set_priority 2 10 (new_user (str "a"))).

Lemma demo_popped_a : users demo_popped !! 1%positive = Some user_a.
Proof. vm_compute. reflexivity. Qed.

Lemma demo_failing_a : users demo_failing !! 1%positive = Some (fail_user 1000 user_a).
Proof. vm_compute. reflexivity. Qed.

Lemma demo_failing_lookups : sync_lookups demo_failing = LookupArray [] 0.
Proof. vm_compute. reflexivity. Qed.

Lemma demo_failing_inv : inv demo_failing.
Proof.
  apply (inv_but_popped demo_failing 1%positive (fail_user 1000 user_a)); [| apply demo_failing_a | reflexivity].
  apply update_user_but; [| done]. by apply (inv_popped demo_popped 1%positive user_a demo_popped_inv demo_popped_a).
Qed.

Lemma demo_pushed_inv : inv demo_pushed.
Proof.
  destruct (push_spec demo_failing 1%positive _ demo_failing_inv demo_failing_a eq_refl) as (q' & Heq & Hinv & _);
    rewrite demo_failing_lookups in *; [unfold arr_ok; cbn; lia | intros x Hx; by apply elem_of_nil in Hx | done |].
  unfold demo_pushed, after. change 1%nat with (S (la_used (LookupArray [] 0) * 2)). by rewrite Heq.
Qed.

Lemma demo_failed_inv : inv demo_failed.
Proof. apply after_add_inv; [apply demo_pushed_inv | vm_compute; reflexivity]. Qed.

Lemma demo_failed_users b u :
  users demo_failed !! b = Some u -> b = 1%positive /\ u = fail_user 1000 (set_priority 2 10 (new_user (str "a"))) \/
    b = 2%positive /\ u = set_priority 0 1000 (new_user (str "b")).
Proof.
  assert (Hd : users demo_failed = <[1%positive := fail_user 1000 (set_priority 2 10 (new_user (str "a")))]>
    (<[2%positive := set_priority 0 1000 (new_user (str "b"))]> ∅)) by (vm_compute; reflexivity).
  rewrite Hd. clear Hd. intros [[<- <-] | [Hne Hu]]%lookup_insert_Some; [left; split; reflexivity |].
  apply lookup_insert_Some in Hu as [[<- <-] | [_ Hu]]; [right; split; reflexivity | by rewrite lookup_empty in Hu].
Qed.

Lemma replicator_queue_pop_waits_for_failed_witness :
  (exists secs, replicator_queue_pop demo_failed 1100 = Some (demo_failed, inr secs)) /\
  exists u, users demo_failed !! 2%positive = Some u /\ popped u = false /\ replicator_queue_want_sync_now demo_failed u 1100 = (true, 0).
Proof.
  split; [| eexists; split; [vm_compute; reflexivity | split; vm_compute; reflexivity]].
  apply (replicator_queue_pop_waits_for_failed demo_failed 1100 1%positive (fail_user 1000 (set_priority 2 10 (new_user (str "a"))))
    demo_failed_inv); [vm_compute; reflexivity | eexists; split; vm_compute; reflexivity | reflexivity | |];
    intros b u Hu _; destruct (demo_failed_users b u Hu) as [[-> ->] | [-> ->]]; cbn; (done || lia).
Defined.
