(* ===== verification/ReplicatorDb.v ===== *)
(** * The replicator's database file (src/src/replication/replicator/replicator-queue.c)

    Reading and writing the users of the queue, one line of tab-separated
    fields for each.  The file is its contents; opening and closing it is not
    modelled.  [read_next_lines] is what a loop over [i_stream_read_next_line]
    of src/src/lib/istream.c returns for a whole file.  The theorems show that
    a user that is written and read back is the same user, and that reading
    changes the fields the priority queue is ordered by without moving the
    user. *)

From stdpp Require Import gmap.
From S2P Require Import Prelude Strnum Strescape Priorityq Table ReplicatorQueue ReplicatorQueueProps.

(** The conversions %d and %lld. *)
Definition printf_d (n : Z) : list Z :=
  if n <? 0 then 45 :: default [] (dec2str_loop 22 (- n) []) else default [] (dec2str_loop 22 n []).

(** ** Lines of a file *)

(** [i_stream_next_line_finish] on the line [cur]. *)
Definition next_line_finish (cur : list Z) : list Z :=
  match last cur with
  | Some 13 => take (length cur - 1) cur
  | _ => cur
  end.

(** The data behind the last LF is not returned: the stream does not have
    [return_nolf_line]. *)
Fixpoint read_next_lines (data cur : list Z) : list (list Z) :=
  match data with
  | [] => []
  | c :: data => if c =? 10 then next_line_finish cur :: read_next_lines data [] else read_next_lines data (cur ++ [c])
  end.

(** ** Writing *)

Definition replicator_queue_export_user (user : replicator_user) (s : list Z) : list Z :=
  let s := str_append_tabescaped s (username user) in
  let s := s ++ 9 :: printf_d (priority user) ++ 9 :: printf_d (last_update user) ++ 9 :: printf_d (last_fast_sync user) ++
    9 :: printf_d (last_full_sync user) ++ 9 :: printf_d (if last_sync_failed user then 1 else 0) ++ [9] in
  let s := match state user with Some st => str_append_tabescaped s st | None => s end in
  s ++ 9 :: printf_d (last_successful_sync user) ++ [10].

Section Code.
Context {T : Type} `{!Table (list Z) addr T}.

(** [replicator_queue_iter_init], [_next] until NULL and [_deinit]. *)
Definition replicator_queue_iter (q : replicator_queue T) : option (list addr * replicator_queue T) :=
  '(l, t) ← table_iterate (user_hash q);
  Some (map snd l, with_hash q t).

Fixpoint export_users (q : replicator_queue T) (l : list addr) : option (list Z) :=
  match l with
  | [] => Some []
  | a :: l =>
      user ← users q !! a;
      rest ← export_users q l;
      Some (replicator_queue_export_user user [] ++ rest)
  end.

(** The contents of the file. *)
Definition replicator_queue_export (q : replicator_queue T) : option (list Z * replicator_queue T) :=
  '(l, q) ← replicator_queue_iter q;
  data ← export_users q l;
  Some (data, q).

(** ** Reading *)

(** [tmp_user] and the name. *)
Definition import_fields (args : list (list Z)) : option replicator_user :=
  if (length args <? 7)%nat then None
  else
    let arg n := default [] (args !! n) in
    if bool_decide (arg 0%nat = []) then None
    else
      priority ← str_to_uint (arg 1%nat);
      last_update ← str_to_time (arg 2%nat);
      last_fast_sync ← str_to_time (arg 3%nat);
      last_full_sync ← str_to_time (arg 4%nat);
      let failed := negb (at0 (arg 5%nat) 0 =? 48) in
      last_successful_sync ← (if (8 <=? length args)%nat then str_to_time (arg 7%nat) else Some 0);
      Some (User (arg 0%nat) (Some (arg 6%nat)) last_update last_fast_sync last_full_sync last_successful_sync priority false failed false).

(** The fields that are written to the user of the queue. *)
Definition import_into (tmp user : replicator_user) : replicator_user :=
  User (username user) (state tmp) (last_update tmp) (last_fast_sync tmp) (last_full_sync tmp) (last_successful_sync tmp) (priority user)
    (popped user) (last_sync_failed tmp) (force_full_sync user).

(** The return value -1 is [false]. *)
Definition replicator_queue_import_line (q : replicator_queue T) (line : list Z) (now : Z) (new : addr)
    : option (replicator_queue T * bool) :=
  args ← t_strsplit_tabescaped line;
  match import_fields args with
  | None => Some (q, false)
  | Some tmp =>
      found ← replicator_queue_lookup q (username tmp);
      skip ← match found with
             | None => Some false
             | Some a =>
                 user ← users q !! a;
                 Some ((last_update user >? last_update tmp) ||
                       ((last_update user =? last_update tmp) && (priority user >? priority tmp)))
             end;
      if (skip : bool) then Some (q, true)
      else
        '(q, a) ← replicator_queue_add q (username tmp) (priority tmp) now new;
        Some (update_user q a (import_into tmp), true)
  end.

Section Import.
(** The addresses of the new users. *)
Variable alloc : gmap addr replicator_user -> addr.

Fixpoint import_lines (q : replicator_queue T) (lines : list (list Z)) (now : Z) : option (replicator_queue T * bool) :=
  match lines with
  | [] => Some (q, true)
  | line :: lines =>
      '(q, ok) ← replicator_queue_import_line q line now (alloc (users q));
      if (ok : bool) then import_lines q lines now else Some (q, false)
  end.

(** A file that does not exist is [None]. *)
Definition replicator_queue_import (q : replicator_queue T) (file : option (list Z)) (now : Z) : option (replicator_queue T * bool) :=
  match file with
  | None => Some (q, true)
  | Some data => import_lines q (read_next_lines data []) now
  end.
End Import.
End Code.

(** ** A user written and read back *)

Definition int_chars (s : list Z) : bool := forallb (fun c => (c =? 45) || isdigit c) s.

Lemma dec2str_loop_abs n : 0 <= n <= 2 ^ 63 ->
  exists ds, dec2str_loop 22 n [] = Some ds /\ ds <> [] /\ all_digits ds = true /\ decval 0 ds = n.
Proof.
  intros Hn. destruct (dec2str_loop_spec 22 n []) as (ds & -> & ?); [| lia | exists ds; by rewrite app_nil_r].
  change (10 ^ Z.of_nat 22) with 10000000000000000000000. lia.
Qed.

Lemma digits_int_chars ds : all_digits ds = true -> int_chars ds = true.
Proof.
  unfold all_digits, int_chars. induction ds as [|c ds IH]; [done |]. cbn [forallb]. intros [-> ?]%andb_true_iff. by rewrite orb_true_r, IH.
Qed.

Lemma printf_d_spec n : INTMAX_MIN <= n <= INTMAX_MAX ->
  int_chars (printf_d n) = true /\ printf_d n <> [] /\ str_to_time (printf_d n) = Some n /\
  (0 <= n <= INT_MAX -> str_to_uint (printf_d n) = Some n).
Proof.
  intros Hn. unfold printf_d, str_to_time, str_to_uint. destruct (Z.ltb_spec n 0) as [Hneg | Hpos].
  - destruct (dec2str_loop_abs (- n)) as (ds & -> & Hne & Hd & Hv); [lia |]. cbn [default from_option id].
    splits; [exact (digits_int_chars ds Hd) | done | | lia].
    apply str_to_intmax_spec. split; [lia |]. right. exists ds. splits; [done | done | done | lia].
  - destruct (dec2str_loop_abs n) as (ds & -> & Hne & Hd & Hv); [lia |]. cbn [default from_option id].
    splits; [by apply digits_int_chars | done | apply str_to_intmax_spec; split; [lia | left; splits; done] |].
    intros Hi. apply str_to_unsigned_spec; [lia |]. splits; [done | done | done | lia].
Qed.

Lemma tabesc_int s : int_chars s = true -> str_tabescape s = s.
Proof.
  rewrite str_tabescape_eq. induction s as [|c s IH]; [done |]. cbn [int_chars forallb]. intros [Hc Hs]%andb_true_iff. unfold tabesc in *. cbn [flat_map].
  rewrite IH by done. unfold tabesc_char, isdigit in *. zcases; done.
Qed.

Definition restored (u : replicator_user) : replicator_user :=
  User (username u) (Some (default [] (state u))) (last_update u) (last_fast_sync u) (last_full_sync u) (last_successful_sync u)
    (priority u) false (last_sync_failed u) false.

Definition user_fields (u : replicator_user) : list (list Z) :=
  [username u; printf_d (priority u); printf_d (last_update u); printf_d (last_fast_sync u); printf_d (last_full_sync u);
   printf_d (if last_sync_failed u then 1 else 0); default [] (state u); printf_d (last_successful_sync u)].

(** A name, a priority that is an [int], times of 64 bits. *)
Definition exportable (u : replicator_user) : Prop :=
  username u <> [] /\ 0 <= priority u <= INT_MAX /\
  Forall (fun t => INTMAX_MIN <= t <= INTMAX_MAX) [last_update u; last_fast_sync u; last_full_sync u; last_successful_sync u].

Lemma export_user_line u s :
  exportable u -> replicator_queue_export_user u s = s ++ join_tab (map str_tabescape (user_fields u)) ++ [10].
Proof.
  intros (Hname & Hp & Ht). repeat (apply Forall_cons in Ht as [? Ht]). unfold user_fields. cbn [map join_tab].
  rewrite !(tabesc_int (printf_d _)) by (apply printf_d_spec; try (destruct (last_sync_failed u)); lia).
  unfold replicator_queue_export_user. rewrite !str_append_tabescaped_eq, !str_tabescape_eq.
  destruct (state u) as [st|]; cbn [default from_option id tabesc flat_map]; rewrite ?str_append_tabescaped_eq; repeat (rewrite <- ?app_assoc; cbn [app]); done.
Qed.

Lemma import_user_fields u : exportable u -> import_fields (user_fields u) = Some (restored u).
Proof.
  intros (Hname & Hp & Ht). repeat (apply Forall_cons in Ht as [? Ht]).
  unfold import_fields, user_fields. cbn [length Nat.ltb Nat.leb lookup list_lookup default from_option id].
  rewrite bool_decide_eq_false_2 by done.
  rewrite (proj2 (proj2 (proj2 (printf_d_spec (priority u) ltac:(lia))))) by done. cbn [mbind option_bind].
  assert (Htime : forall t, INTMAX_MIN <= t <= INTMAX_MAX -> str_to_time (printf_d t) = Some t) by (intros t ?; by apply printf_d_spec).
  do 4 (rewrite Htime by done; cbn [mbind option_bind]).
  unfold restored. by destruct (last_sync_failed u).
Qed.

(** ** Lines *)

Lemma next_line_finish_id s : forallb no_line_break s = true -> next_line_finish s = s.
Proof.
  intros Hs. unfold next_line_finish. destruct (last s) as [c|] eqn:Hl; [| done]. apply last_Some in Hl as [s' ->].
  rewrite forallb_app in Hs. apply andb_true_iff in Hs as [_ Hc]. cbn in Hc. unfold no_line_break in Hc.
  destruct (Z.eq_dec c 13) as [-> | Hne]; [done |]. by destruct c as [|[[[[]|[]|]|[[]|[]|]|]|[[[]|[]|]|[[]|[]|]|]|]|].
Qed.

Lemma read_line line rest cur :
  forallb no_line_break (cur ++ line) = true -> read_next_lines (line ++ 10 :: rest) cur = (cur ++ line) :: read_next_lines rest [].
Proof.
  revert cur. induction line as [|c line IH]; intros cur Hl; cbn [app read_next_lines].
  - cbn. rewrite app_nil_r in *. by rewrite next_line_finish_id.
  - rewrite (cons_middle c cur line), app_assoc in Hl |- *. rewrite <- IH by done.
    rewrite !forallb_app in Hl. cbn in Hl. unfold no_line_break at 2 in Hl. by replace (c =? 10) with false by lia.
Qed.

Section Properties.
Context {T : Type} `{!Table (list Z) addr T, !TableSpec (list Z) addr T}.
Implicit Types q : replicator_queue T.

(** What is read from a line written for [u]. *)
Definition line_of (u : replicator_user) (line : list Z) : Prop := (args ← t_strsplit_tabescaped line; import_fields args) = Some (restored u).

Lemma export_user_record u rest :
  exportable u -> exists line, replicator_queue_export_user u [] = line ++ [10] /\
    read_next_lines (line ++ 10 :: rest) [] = line :: read_next_lines rest [] /\
    t_strsplit_tabescaped line = Some (user_fields u).
Proof.
  intros Hu. exists (join_tab (map str_tabescape (user_fields u))). splits; [by rewrite export_user_line | |].
  - by rewrite read_line by apply record_no_line_break.
  - by apply strsplit_tabescaped_spec.
Qed.

Lemma export_users_spec q l :
  Forall (fun a => exists u, users q !! a = Some u /\ exportable u) l ->
  exists data, export_users q l = Some data /\
    Forall2 (fun a line => exists u, users q !! a = Some u /\ line_of u line) l (read_next_lines data []).
Proof.
  induction l as [|a l IH]; intros Hl; [by exists []; split; [| constructor] |]. apply Forall_cons in Hl as [(u & Hu & He) Hl].
  destruct (IH Hl) as (data & Hd & Hlines). cbn [export_users]. rewrite Hu, Hd. cbn [mbind option_bind]. eexists. split; [done |].
  destruct (export_user_record u data He) as (line & -> & Hr & Hs). rewrite <- app_assoc. cbn [app]. rewrite Hr. constructor; [| done].
  exists u. split; [done |]. unfold line_of. rewrite Hs. cbn [mbind option_bind]. by apply import_user_fields.
Qed.

Lemma iter_spec {o} q : queue_inv o q ->
  exists l q', replicator_queue_iter q = Some (l, q') /\ queue_inv o q' /\ users q' = users q /\ NoDup l /\ forall a, a ∈ l <-> is_Some (users q !! a).
Proof.
  intros Hinv. destruct (table_iterate_spec (user_hash q) (inv_table q Hinv)) as (l & t & Heq & Ht & Hnd & Hin & Hget).
  unfold replicator_queue_iter. rewrite Heq. cbn [mbind option_bind]. exists (map snd l), (with_hash q t).
  assert (Hback : forall k a, (k, a) ∈ l -> exists u, users q !! a = Some u /\ username u = k) by (intros k a H; by apply (inv_names q Hinv), Hin).
  splits; [done | destruct Hinv; split; try done; intros; cbn; by rewrite Hget | done | |].
  - apply (NoDup_fmap_2_strong snd); [| by apply (NoDup_fmap_1 fst)]. intros [k1 a1] [k2 a2] H1 H2 Ha. cbn in Ha. subst a2.
    destruct (Hback _ _ H1) as (u1 & ? & <-), (Hback _ _ H2) as (u2 & ? & <-). congruence.
  - intros a. split.
    + intros ([k a'] & Ha & H)%list_elem_of_fmap. cbn in Ha. subst a'. destruct (Hback _ _ H) as (u & Hu & _). by exists u.
    + intros [u Hu]. apply list_elem_of_fmap. exists (username u, a). split; [done |]. apply Hin, (inv_names q Hinv). by exists u.
Qed.

(** What reading the record [tmp] means for a user that is known already: it
    is dropped when the known one is newer, or as new and more urgent. *)
Definition import_skips q (tmp : replicator_user) (a : addr) : Prop :=
  exists u, users q !! a = Some u /\ username u = username tmp /\
    (last_update tmp < last_update u \/ last_update tmp = last_update u /\ priority tmp < priority u).

Lemma import_line_spec {o} q line tmp now new :
  queue_inv o q -> users q !! new = None -> (args ← t_strsplit_tabescaped line; import_fields args) = Some tmp ->
  (exists a, import_skips q tmp a /\ replicator_queue_import_line q line now new = Some (q, true)) \/
  ((forall a, ~ import_skips q tmp a) /\
   exists q' a, replicator_queue_import_line q line now new = Some (q', true) /\
     replicator_queue_lookup q' (username tmp) = Some (Some a) /\
     users q' !! a = Some (import_into tmp (added_user (users q !! a) (username tmp) (priority tmp) now)) /\
     (forall b, b <> a -> users q' !! b = users q !! b) /\
     (forall u, users q !! a = Some u -> username u = username tmp)).
Proof.
  intros Hinv Hnew Hargs. unfold replicator_queue_import_line.
  destruct (t_strsplit_tabescaped line) as [args|]; [| done]. cbn [mbind option_bind] in *. rewrite Hargs.
  unfold replicator_queue_lookup. rewrite (table_lookup_spec _ _ (inv_table q Hinv)). cbn [mbind option_bind].
  destruct (add_int_spec q (username tmp) (priority tmp) now new Hinv Hnew) as (q' & a & Heq & Hinv' & Hu & [Ho _] & _ & Hget & Hn1 & Hn2).
  set (skip := match table_get _ _ with Some _ => _ | None => _ end).
  assert (Hskip : exists b, skip = Some b /\ (b = true <-> exists a, import_skips q tmp a)).
  { subst skip. destruct (table_get (user_hash q) (username tmp)) as [a'|] eqn:Hg.
    - destruct (proj1 (inv_names q Hinv _ _) Hg) as (u & Hu' & Hname). rewrite Hu'. eexists. split; [done |]. rewrite orb_true_iff, andb_true_iff. split.
      + intros Hb. exists a', u. splits; [done | done | lia].
      + intros (b & u' & Hb & Hnb & Hc). assert (Hgb : table_get (user_hash q) (username tmp) = Some b) by (apply (inv_names q Hinv); by exists u').
        assert (b = a') as -> by congruence. assert (u' = u) as -> by congruence. lia.
    - exists false. split; [done |]. split; [done |]. intros (b & u & Hb & Hnb & _).
      assert (table_get (user_hash q) (username tmp) = Some b) by (apply (inv_names q Hinv); by exists u). congruence. }
  destruct Hskip as (b & -> & Hb). cbn [mbind option_bind]. destruct b.
  - left. destruct (proj1 Hb eq_refl) as [c Hc]. by exists c.
  - right. split; [intros c Hc; by discriminate (proj2 Hb (ex_intro _ c Hc)) |]. unfold replicator_queue_add. rewrite Heq. cbn [mbind option_bind].
    eexists _, a. splits; [done | | cbn; by rewrite lookup_alter_eq, Hu | intros c Hc; cbn; rewrite lookup_alter_ne by done; by apply Ho |].
    + cbn. by rewrite (table_lookup_spec _ _ (inv_table q' Hinv')), Hget.
    + intros u Hu0. destruct (table_get (user_hash q) (username tmp)) as [c|] eqn:Hg; [| rewrite (Hn1 eq_refl) in Hu0; congruence].
      rewrite (Hn2 c eq_refl) in Hu0. destruct (proj1 (inv_names q Hinv _ _) Hg) as (u' & ? & ?). congruence.
Qed.

(** ** The queue at the start *)

(** A queue that nothing was taken from and nobody waits for. *)
Definition unused q : Prop := (forall a u, users q !! a = Some u -> popped u = false) /\ sync_lookups q = LookupArray [] 0.

Lemma add_unused {o} q name prio now new :
  queue_inv o q -> unused q -> users q !! new = None ->
  exists q' a, replicator_queue_add q name prio now new = Some (q', a) /\ queue_inv o q' /\ unused q' /\ is_Some (users q' !! a).
Proof.
  intros Hinv [Hp Hl] Hnew. destruct (add_int_spec q name prio now new Hinv Hnew) as (q' & a & Heq & Hinv' & Hu & [Ho _] & Hl' & _).
  exists q', a. splits; [done | done | | by rewrite Hu]. split; [| congruence]. intros b u. destruct (decide (b = a)) as [-> | Hne].
  - rewrite Hu. intros [= <-]. unfold added_user. destruct (users q !! a) as [u0|] eqn:E; [| done]. specialize (Hp a u0 E). by destruct (priority u0 >? prio).
  - rewrite Ho by done. apply Hp.
Qed.

Lemma update_unused q a f : unused q -> (forall u, popped (f u) = popped u) -> unused (update_user q a f).
Proof.
  intros [Hp Hl] Hf. split; [| done]. intros b u. cbn. destruct (decide (b = a)) as [-> | Hne]; [| rewrite lookup_alter_ne by done; apply Hp].
  rewrite lookup_alter_eq. destruct (users q !! a) as [u0|] eqn:E; [| done]. intros [= <-]. rewrite Hf. by apply (Hp a).
Qed.

Lemma import_line_kept q line now new :
  queue_inv false q -> unused q -> users q !! new = None ->
  exists q' ok, replicator_queue_import_line q line now new = Some (q', ok) /\ queue_inv false q' /\ unused q'.
Proof.
  intros Hinv Hun Hnew. unfold replicator_queue_import_line. destruct (strsplit_tabescaped_total line) as [args ->]. cbn [mbind option_bind].
  destruct (import_fields args) as [tmp|]; [| by exists q, false].
  unfold replicator_queue_lookup. rewrite (table_lookup_spec _ _ (inv_table q Hinv)). cbn [mbind option_bind].
  assert (Hskip : exists b, match table_get (user_hash q) (username tmp) with
    | Some a => user ← users q !! a; Some ((last_update user >? last_update tmp) || ((last_update user =? last_update tmp) && (priority user >? priority tmp)))
    | None => Some false end = Some b).
  { destruct (table_get (user_hash q) (username tmp)) as [a|] eqn:Hg; [| by eexists].
    destruct (proj1 (inv_names q Hinv _ _) Hg) as (u & -> & _). by eexists. }
  destruct Hskip as [b ->]. cbn [mbind option_bind]. destruct b; [by exists q, true |].
  destruct (add_unused q (username tmp) (priority tmp) now new Hinv Hun Hnew) as (q' & a & -> & Hinv' & Hun' & _). cbn [mbind option_bind].
  eexists _, true. splits; [done | by apply update_user_kept | by apply update_unused].
Qed.

Lemma import_kept alloc q file now :
  (forall us, us !! alloc us = None) -> queue_inv false q -> unused q ->
  exists q' ok, replicator_queue_import alloc q file now = Some (q', ok) /\ queue_inv false q' /\ unused q'.
Proof.
  intros Hal Hinv Hun. destruct file as [data|]; [| by exists q, true]. cbn [replicator_queue_import]. revert q Hinv Hun.
  induction (read_next_lines data []) as [|line lines IH]; intros q Hinv Hun; cbn [import_lines]; [by exists q, true |].
  destruct (import_line_kept q line now _ Hinv Hun (Hal _)) as (q' & ok & -> & Hinv' & Hun'). cbn [mbind option_bind].
  destruct ok; [by apply IH | by exists q', false].
Qed.

(** C34: the file written for a queue has one line for every user, and each line
    reads back as that user, with its name and state byte for byte whatever
    they contain, its priority, its times and its failure flag.  The users have
    a name that is not empty, a priority that is an int and not negative, and
    times of 64 bits. *)
Theorem replicator_db_roundtrip q :
  inv q -> (forall a u, users q !! a = Some u -> exportable u) ->
  exists data q' l, replicator_queue_export q = Some (data, q') /\ inv q' /\ users q' = users q /\
    NoDup l /\ (forall a, a ∈ l <-> is_Some (users q !! a)) /\
    Forall2 (fun a line => exists u, users q !! a = Some u /\ line_of u line) l (read_next_lines data []).
Proof.
  intros Hinv Hexp. destruct (iter_spec q Hinv) as (l & q' & Hit & Hinv' & Hus & Hnd & Hl).
  unfold replicator_queue_export. rewrite Hit. cbn [mbind option_bind].
  destruct (export_users_spec q' l) as (data & -> & Hlines).
  { apply Forall_forall. intros a Ha. apply Hl in Ha as [u Hu]. exists u. rewrite Hus. split; [done | by apply (Hexp a)]. }
  exists data, q', l. rewrite Hus in Hlines. by splits.
Qed.

(** Reading a record either leaves the queue alone, exactly when the queue
    knows the user with a newer update, or the same update and a higher
    priority; or the user is then found under its name with the times, the
    state and the failure flag of the record and at least its priority.  No
    other user changes. *)
Theorem replicator_queue_import_line_correct q line tmp now new :
  inv q -> users q !! new = None -> (args ← t_strsplit_tabescaped line; import_fields args) = Some tmp ->
  (exists a, import_skips q tmp a /\ replicator_queue_import_line q line now new = Some (q, true)) \/
  ((forall a, ~ import_skips q tmp a) /\
   exists q' a u, replicator_queue_import_line q line now new = Some (q', true) /\
     replicator_queue_lookup q' (username tmp) = Some (Some a) /\ users q' !! a = Some u /\
     username u = username tmp /\ priority tmp <= priority u /\ import_into tmp u = u /\
     forall b, b <> a -> users q' !! b = users q !! b).
Proof.
  intros Hinv Hnew Hargs. destruct (import_line_spec q line tmp now new Hinv Hnew Hargs) as [Hs | (Hns & q' & a & Heq & Hl & Hu & Ho & Hname)]; [by left | right].
  split; [done |]. exists q', a, (import_into tmp (added_user (users q !! a) (username tmp) (priority tmp) now)).
  splits; [done | done | done | | | done | done]; unfold added_user; destruct (users q !! a) as [u|]; cbn; try done; try lia.
  - rewrite <- (Hname u eq_refl). by destruct (priority u >? priority tmp).
  - destruct (priority u >? priority tmp) eqn:E; cbn; lia.
Qed.
End Properties.

(** ** Witnesses *)
From S2P Require Import Hash HashProps HashLaws ReplicatorSync.

Lemma replicator_db_roundtrip_witness :
  exists data q' l, replicator_queue_export demo_a = Some (data, q') /\ inv q' /\
    Forall2 (fun a line => exists u, users demo_a !! a = Some u /\ line_of u line) l (read_next_lines data []).
Proof.
  destruct (replicator_db_roundtrip demo_a demo_a_inv) as (data & q' & l & Heq & Hinv & _ & _ & _ & Hl).
  - intros a u. rewrite demo_a_users. intros [_ <-]%lookup_singleton_Some. split; [done |]. split; [cbn; lia |]. repeat constructor; cbn; lia.
  - exists data, q', l. split; [exact Heq | split; [exact Hinv | exact Hl]].
Defined.

(** A record with the fields that matter, separated by tabs. *)
Definition demo_record (name full : list Z) : list Z := name ++ [9; 48; 9; 48; 9; 48; 9] ++ full ++ [9; 48; 9; 9; 48; 10].

Lemma replicator_queue_import_line_correct_witness :
  exists q' a, replicator_queue_import_line demo_a [98; 9; 49; 9; 48; 9; 48; 9; 48; 9; 48; 9] 20 2%positive = Some (q', true) /\
    replicator_queue_lookup q' (str "b") = Some (Some a).
Proof.
  destruct (replicator_queue_import_line_correct demo_a [98; 9; 49; 9; 48; 9; 48; 9; 48; 9; 48; 9]
    (User (str "b") (Some []) 0 0 0 0 1 false false false) 20 2%positive demo_a_inv) as [(a & (u & Hu & Hn & _) & _) | (_ & q' & a & u & Heq & Hl & _)].
  - vm_compute. reflexivity.
  - vm_compute. reflexivity.
  - exfalso. rewrite demo_a_users in Hu. apply lookup_singleton_Some in Hu as [_ <-]. discriminate Hn.
  - exists q', a. split; [exact Heq | exact Hl].
Defined.

Definition demo_file : list Z := demo_record (str "a") (str "50") ++ demo_record (str "b") (str "100").
Definition demo_alloc (us : gmap addr replicator_user) : addr := if us !! 1%positive then 2%positive else 1%positive.

(** Reading two records leaves the priority queue out of order: the second
    user is put before the first one by the value that its full sync time has
    before the record's value is written to it.  The first user, which is due,
    is then not popped, although no user has failed. *)
Theorem replicator_queue_import_breaks_order :
  exists q' ua, replicator_queue_import demo_alloc demo_init (Some demo_file) 10 = Some (q', true) /\ ~ inv q' /\
    users q' !! 1%positive = Some ua /\ popped ua = false /\ replicator_queue_want_sync_now q' ua 160 = (true, 0) /\
    replicator_queue_pop q' 160 = Some (q', inr 40).
Proof.
  eexists _, _. split; [vm_compute; reflexivity |]. split; [| split; [reflexivity | split; [reflexivity | split; reflexivity]]].
  intros Hinv. destruct (pop_spec _ 160 Hinv) as (q' & r & Heq & _ & Hr). vm_compute in Heq. injection Heq as <- <-.
  destruct Hr as [_ [[Hall _] | (a & u & Hu & Hp & Hw & Hbest)]]; [by discriminate (Hall 1%positive _ eq_refl) |].
  specialize (Hbest eq_refl 1%positive _ eq_refl eq_refl). cbn in Hu. destruct a as [a|a|]; [destruct a; discriminate | | injection Hu as <-; discriminate Hw].
  destruct a as [a|a|]; [destruct a; discriminate | destruct a; discriminate |]. injection Hu as <-. vm_compute in Hbest. by apply Hbest.
Qed.
