(* ===== verification/DsyncClient.v ===== *)
(** * The replicator's connections to doveadm (src/src/replication/replicator/dsync-client.c)

    A client runs one synchronisation at a time: it connects, sends a command,
    reads the handshake, a line with the new state and a line with the result,
    closes the connection and calls back.  A client is a record without its
    path and its streams; whether a connection succeeds is an argument, and
    what is sent is returned.

    The functions that call back change more than the client, because the
    callback starts the next synchronisations: they work on a world [W] that
    contains the client, with the callback as an argument. *)

From S2P Require Import Prelude Strescape.

Inductive dsync_reply := DSYNC_REPLY_OK | DSYNC_REPLY_FAIL | DSYNC_REPLY_NOUSER.
Inductive dsync_type := DSYNC_TYPE_FULL | DSYNC_TYPE_NORMAL | DSYNC_TYPE_INCREMENTAL.

(** [fd] says whether the descriptor is open; [callback] is the callback with
    its context, [to] whether the failure timeout is set. *)
Record dsync_client (C : Type) := Client {
  fd : bool;
  dsync_params : list Z;
  client_username : option (list Z);
  client_state : option (list Z);
  sync_type : dsync_type;
  callback : option C;
  to : bool;
  last_connect_failure : Z;
  handshaked : bool;
  cmd_sent : bool;
}.
Arguments Client {C} _ _ _ _ _ _ _ _ _ _.
Arguments fd {C} _.
Arguments dsync_params {C} _.
Arguments client_username {C} _.
Arguments client_state {C} _.
Arguments sync_type {C} _.
Arguments callback {C} _.
Arguments to {C} _.
Arguments last_connect_failure {C} _.
Arguments handshaked {C} _.
Arguments cmd_sent {C} _.

Section Client.
Context {C : Type}.
Implicit Types c : dsync_client C.

Definition dsync_client_init (params : list Z) : dsync_client C :=
  Client false params None None DSYNC_TYPE_FULL None false 0 false false.

Definition dsync_client_is_busy c : bool := cmd_sent c.
Definition dsync_client_get_username c : option (list Z) := client_username c.
Definition dsync_client_get_type c : dsync_type := sync_type c.

(** [path] is the path of the socket. *)
Definition dsync_client_get_state c (path : list Z) (now : Z) (print : Z -> list Z) : list Z :=
  if negb (fd c) then
    if last_connect_failure c =? 0 then str "Not connected"
    else str "Failed to connect to '" ++ path ++ str "' - last attempt " ++ print (now - last_connect_failure c) ++ str " secs ago"
  else if negb (dsync_client_is_busy c) then str "Idle"
  else if negb (handshaked c) then str "Waiting for handshake"
  else match client_state c with
       | None => str "Waiting for dsync to finish"
       | Some _ => str "Waiting for dsync to finish (second line)"
       end.

Definition dsync_close c : dsync_client C :=
  Client false (dsync_params c) None None (sync_type c) (callback c) (to c) (last_connect_failure c) false false.

Definition DOVEADM_HANDSHAKE : list Z := str "VERSION" ++ 9 :: str "doveadm-server" ++ [9; 49; 9; 48; 10].

(** [connects] is the result of [net_connect_unix].  Also returns whether the
    client is connected, and what is sent. *)
Definition dsync_connect c (now : Z) (connects : bool) : dsync_client C * bool * list Z :=
  if fd c then (c, true, [])
  else if last_connect_failure c =? now then (c, false, [])
  else if negb connects then
    (Client false (dsync_params c) (client_username c) (client_state c) (sync_type c) (callback c) (to c) now (handshaked c) (cmd_sent c), false, [])
  else
    (Client true (dsync_params c) (client_username c) (client_state c) (sync_type c) (callback c) (to c) 0 (handshaked c) (cmd_sent c), true,
     DOVEADM_HANDSHAKE).

(** The command line. *)
Definition dsync_command (params username : list Z) (state : option (list Z)) (full : bool) : list Z :=
  let cmd := str_append_tabescaped [9] username ++ 9 :: str "sync" ++ [9] in
  let cmd := cmd ++ map (fun p => if p =? 32 then 9 else p) params in
  let cmd := if full then cmd ++ 9 :: str "-f" else cmd in
  let cmd := cmd ++ 9 :: str "-s" ++ [9] in
  let cmd := match state with Some state => cmd ++ state | None => cmd end in
  cmd ++ [10].

Definition dsync_client_sync c (username : list Z) (state : option (list Z)) (full : bool) (cb : C) (now : Z) (connects : bool)
    : option (dsync_client C * list Z) :=
  _ ← assert (negb (dsync_client_is_busy c));
  let type := if full then DSYNC_TYPE_FULL
              else match state with
                   | Some (_ :: _) => DSYNC_TYPE_INCREMENTAL
                   | _ => DSYNC_TYPE_NORMAL
                   end in
  let c := Client (fd c) (dsync_params c) (Some username) (client_state c) type (Some cb) (to c) (last_connect_failure c) (handshaked c) true in
  let '(c, connected, sent) := dsync_connect c now connects in
  if negb connected then
    _ ← assert (negb (to c));
    Some (Client (fd c) (dsync_params c) (client_username c) (client_state c) (sync_type c) (callback c) true (last_connect_failure c)
            (handshaked c) (cmd_sent c), sent)
  else Some (c, sent ++ dsync_command (dsync_params c) username state full).

Definition set_cmd_sent (b : bool) c : dsync_client C :=
  Client (fd c) (dsync_params c) (client_username c) (client_state c) (sync_type c) (callback c) (to c) (last_connect_failure c) (handshaked c) b.
Definition set_handshaked c : dsync_client C :=
  Client (fd c) (dsync_params c) (client_username c) (client_state c) (sync_type c) (callback c) (to c) (last_connect_failure c) true (cmd_sent c).
Definition set_state (s : list Z) c : dsync_client C :=
  Client (fd c) (dsync_params c) (client_username c) (Some s) (sync_type c) (callback c) (to c) (last_connect_failure c) (handshaked c) (cmd_sent c).

(** The start of [dsync_callback]: no timeout, no callback, and busy. *)
Definition called_back c : dsync_client C :=
  Client (fd c) (dsync_params c) (client_username c) (client_state c) (sync_type c) None false (last_connect_failure c) (handshaked c) true.

(** [t_strcut]. *)
Definition t_strcut (s : list Z) (cutchar : Z) : list Z := (span_until (fun p => p =? cutchar) s).1.

Section World.
Context {W : Type}.
Variable get : W -> option (dsync_client C).
Variable set : dsync_client C -> W -> W.
(** The callback that was given to [dsync_client_sync]. *)
Variable call : W -> dsync_reply -> list Z -> C -> option W.

Definition update (w : W) (f : dsync_client C -> dsync_client C) : option W := c ← get w; Some (set (f c) w).

Definition dsync_callback (w : W) (state : list Z) (reply : dsync_reply) : option W :=
  c ← get w;
  cb ← callback c;
  _ ← assert (negb (cmd_sent c));
  w ← call (set (called_back c) w) reply state cb;
  update w (set_cmd_sent false).

Definition dsync_disconnect (w : W) : option W :=
  w ← update w dsync_close;
  c ← get w;
  if callback c then dsync_callback w [] DSYNC_REPLY_FAIL else Some w.

(** The return value -1 is [false]. *)
Definition dsync_input_line (w : W) (line : list Z) : option (W * bool) :=
  c ← get w;
  if negb (handshaked c) then
    if negb (bool_decide (line = str "+")) then Some (w, false)
    else Some (set (set_handshaked c) w, true)
  else
    match callback c with
    | None => Some (w, false)
    | Some _ =>
        match client_state c with
        | None => Some (set (set_state (t_strcut line 9) c) w, true)
        | Some state =>
            w ← update w dsync_close;
            if at0 line 0 =? 43 then w ← dsync_callback w state DSYNC_REPLY_OK; Some (w, false)
            else if at0 line 0 =? 45 then
              if bool_decide (tail line = str "NOUSER") then w ← dsync_callback w [] DSYNC_REPLY_NOUSER; Some (w, false)
              else w ← dsync_callback w [] DSYNC_REPLY_FAIL; Some (w, false)
            else Some (w, false)
        end
    end.

(** The lines that can be read, and whether the stream has ended behind them. *)
Fixpoint dsync_input (w : W) (lines : list (list Z)) (eof : bool) : option W :=
  match lines with
  | line :: lines =>
      '(w, ok) ← dsync_input_line w line;
      if (ok : bool) then dsync_input w lines eof else dsync_disconnect w
  | [] => if eof then dsync_disconnect w else Some w
  end.

Definition dsync_fail_timeout (w : W) : option W := dsync_disconnect w.
End World.
End Client.

(** ** Protocol *)

(** What the server's lines mean for a client that has just sent its command:
    nothing yet, or the reply and the state to call back with. *)
Definition dsync_outcome (lines : list (list Z)) (eof : bool) : option (dsync_reply * list Z) :=
  let pending := if eof then Some (DSYNC_REPLY_FAIL, []) else None in
  match lines with
  | [] => pending
  | hello :: lines =>
      if negb (bool_decide (hello = str "+")) then Some (DSYNC_REPLY_FAIL, [])
      else
        match lines with
        | [] | [_] => pending
        | state :: result :: _ =>
            Some (if at0 result 0 =? 43 then (DSYNC_REPLY_OK, t_strcut state 9)
                  else if bool_decide (result = str "-NOUSER") then (DSYNC_REPLY_NOUSER, [])
                  else (DSYNC_REPLY_FAIL, []))
        end
  end.

(** What the client has read when it still waits. *)
Definition dsync_waiting {C} (c : dsync_client C) (lines : list (list Z)) : dsync_client C :=
  match lines with
  | [] => c
  | [_] => set_handshaked c
  | _ :: state :: _ => set_state (t_strcut state 9) (set_handshaked c)
  end.

(** A client in a world. *)
Class ClientStore {C W : Type} (get : W -> option (dsync_client C)) (set : dsync_client C -> W -> W) : Prop := {
  get_set w c c' : get w = Some c' -> get (set c w) = Some c;
  set_set w c c' : set c (set c' w) = set c w;
  set_get w c : get w = Some c -> set c w = w;
}.

Section Protocol.
Context {C W : Type} (get : W -> option (dsync_client C)) (set : dsync_client C -> W -> W) `{!ClientStore get set}.
Variable call : W -> dsync_reply -> list Z -> C -> option W.

(** The callback does not touch a busy client. *)
Hypothesis call_keeps : forall w reply state cb w' c,
  call w reply state cb = Some w' -> get w = Some c -> dsync_client_is_busy c = true -> get w' = Some c.

(** The client after its task. *)
Definition idle (c : dsync_client C) : dsync_client C :=
  Client false (dsync_params c) None None (sync_type c) None false (last_connect_failure c) false false.

(** The world after the client [c] has called back once. *)
Definition called (w : W) (c : dsync_client C) (cb : C) (r : dsync_reply * list Z) : option W :=
  w ← call (set (called_back (dsync_close c)) w) r.1 r.2 cb;
  Some (set (idle c) w).

(** Calling back after the connection was closed. *)
Lemma closed_callback w c cb r :
  get w = Some c -> callback c = Some cb -> dsync_callback get set call (set (dsync_close c) w) r.2 r.1 = called w c cb r.
Proof.
  intros Hc Hcb. unfold dsync_callback. rewrite (get_set w _ c) by done. cbn [mbind option_bind dsync_close callback cmd_sent negb assert].
  rewrite Hcb. cbn [mbind option_bind]. rewrite set_set. unfold called. fold (dsync_close c).
  destruct (call _ r.1 r.2 cb) as [w'|] eqn:Hcall; [| done]. cbn [mbind option_bind]. unfold update.
  by rewrite (call_keeps _ _ _ _ _ (called_back (dsync_close c)) Hcall) by (by try apply (get_set w _ c)).
Qed.

Lemma disconnect_running w c cb :
  get w = Some c -> callback c = Some cb -> dsync_disconnect get set call w = called w c cb (DSYNC_REPLY_FAIL, []).
Proof.
  intros Hc Hcb. unfold dsync_disconnect, update. rewrite Hc. cbn [mbind option_bind].
  rewrite (get_set w _ c) by done. cbn [mbind option_bind callback dsync_close]. rewrite Hcb. by apply (closed_callback w c cb (DSYNC_REPLY_FAIL, [])).
Qed.

(** Disconnecting after calling back changes nothing. *)
Lemma called_disconnect w c cb r :
  get w = Some c -> (w ← called w c cb r; dsync_disconnect get set call w) = called w c cb r.
Proof.
  intros Hc. unfold called. destruct (call _ r.1 r.2 cb) as [w'|] eqn:Hcall; [| done]. cbn [mbind option_bind].
  assert (Hw' : get (set (idle c) w') = Some (idle c)).
  { apply (get_set _ _ (called_back (dsync_close c))). by apply (call_keeps _ _ _ _ _ _ Hcall); [apply (get_set w _ c) |]. }
  unfold dsync_disconnect, update. rewrite Hw'. cbn [mbind option_bind]. change (dsync_close (idle c)) with (idle c).
  rewrite (set_get _ _ Hw'), Hw'. done.
Qed.

(** The line with the result. *)
Lemma input_result w c cb line lines eof :
  get w = Some c -> callback c = Some cb -> handshaked c = true -> forall state, client_state c = Some state ->
  dsync_input get set call w (line :: lines) eof =
  called w c cb (if at0 line 0 =? 43 then (DSYNC_REPLY_OK, state)
                 else if bool_decide (line = str "-NOUSER") then (DSYNC_REPLY_NOUSER, []) else (DSYNC_REPLY_FAIL, [])).
Proof.
  intros Hc Hcb Hh state Hs. cbn [dsync_input]. unfold dsync_input_line, update. rewrite Hc. cbn [mbind option_bind]. rewrite Hh, Hcb, Hs. cbn [negb mbind option_bind].
  assert (Hgo : forall r, ('(w, ok) ← (w ← dsync_callback get set call (set (dsync_close c) w) r.2 r.1; Some (w, false));
      if (ok : bool) then dsync_input get set call w lines eof else dsync_disconnect get set call w) = called w c cb r).
  { intros r. rewrite (closed_callback w c cb) by done. rewrite <- (called_disconnect w c cb r) at 2 by done. by destruct (called w c cb r). }
  destruct (Z.eqb_spec (at0 line 0) 43) as [H43 | H43]; [apply (Hgo (DSYNC_REPLY_OK, state)) |].
  destruct (Z.eqb_spec (at0 line 0) 45) as [H45 | H45].
  - destruct line as [|l line]; [done |]. cbn in H45. subst l. cbn [tail].
    rewrite (bool_decide_ext (45 :: line = str "-NOUSER") (line = str "NOUSER")) by (change (str "-NOUSER") with (45 :: str "NOUSER"); split; congruence).
    destruct (bool_decide (line = str "NOUSER")); [apply (Hgo (DSYNC_REPLY_NOUSER, [])) | apply (Hgo (DSYNC_REPLY_FAIL, []))].
  - rewrite bool_decide_eq_false_2 by (intros ->; done). cbn [mbind option_bind].
    rewrite (disconnect_running _ (dsync_close c) cb) by (done || by apply (get_set w _ c)).
    unfold called. by rewrite set_set.
Qed.

Lemma dsync_input_spec w c cb lines eof :
  get w = Some c -> callback c = Some cb -> handshaked c = false -> client_state c = None ->
  dsync_input get set call w lines eof =
  match dsync_outcome lines eof with
  | Some r => called w c cb r
  | None => Some (set (dsync_waiting c lines) w)
  end.
Proof.
  intros Hc Hcb Hh Hs.
  assert (Hend : forall w' c', get w' = Some c' -> callback c' = Some cb -> (forall x, set x w' = set x w) -> idle c' = idle c ->
      called_back (dsync_close c') = called_back (dsync_close c) ->
      dsync_input get set call w' [] eof = if eof then called w c cb (DSYNC_REPLY_FAIL, []) else Some w').
  { intros w' c' Hc' Hcb' Hset Hi Hk. cbn [dsync_input]. destruct eof; [| done]. rewrite (disconnect_running w' c' cb) by done.
    unfold called. by rewrite Hi, Hk, Hset. }
  destruct lines as [|hello lines]; [rewrite (Hend w c) by done; cbn; destruct eof; [done | by rewrite (set_get w c)] |].
  unfold dsync_outcome. cbn [dsync_input]. unfold dsync_input_line at 1. rewrite Hc. cbn [mbind option_bind]. rewrite Hh. cbn [negb].
  destruct (bool_decide (hello = str "+")); cbn [negb mbind option_bind]; [| by apply disconnect_running].
  set (w1 := set (set_handshaked c) w). assert (H1 : get w1 = Some (set_handshaked c)) by (by apply (get_set w _ c)).
  destruct lines as [|st lines]; [rewrite (Hend w1 (set_handshaked c)) by (done || (intros; apply set_set)); by destruct eof |].
  cbn [dsync_input]. unfold dsync_input_line at 1. rewrite H1. cbn [mbind option_bind set_handshaked handshaked negb callback client_state]. rewrite Hcb, Hs.
  cbn [mbind option_bind]. set (c2 := set_state (t_strcut st 9) _). set (w2 := set c2 w1).
  assert (H2 : get w2 = Some c2) by (by apply (get_set w1 _ (set_handshaked c))).
  assert (Hset2 : forall x, set x w2 = set x w) by (intros; unfold w2, w1; by rewrite !set_set).
  destruct lines as [|result lines]; [rewrite (Hend w2 c2) by done; destruct eof; [done | unfold w2, w1; by rewrite set_set] |].
  rewrite (input_result w2 c2 cb) with (state := t_strcut st 9) by done. unfold called. rewrite Hset2. done.
Qed.
(** Reading changes nothing but what was read. *)
Definition same_task (c c' : dsync_client C) : Prop :=
  callback c' = callback c /\ cmd_sent c' = cmd_sent c /\ fd c' = fd c /\ to c' = to c /\
  dsync_params c' = dsync_params c /\ sync_type c' = sync_type c /\ last_connect_failure c' = last_connect_failure c.

Lemma called_same w c c' cb r : same_task c c' -> called (set c' w) c' cb r = called w c cb r.
Proof. intros (_ & _ & _ & _ & Hp & Ht & Hl). unfold called, called_back, dsync_close, idle. cbn. by rewrite set_set, Hp, Ht, Hl. Qed.

(** In whatever state the client is, it goes on waiting or calls back once. *)
Lemma dsync_input_cases w c cb lines eof :
  get w = Some c -> callback c = Some cb ->
  (exists c', dsync_input get set call w lines eof = Some (set c' w) /\ same_task c c') \/
  (exists r, dsync_input get set call w lines eof = called w c cb r /\ (r.1 = DSYNC_REPLY_NOUSER -> str "-NOUSER" ∈ lines)).
Proof.
  revert w c. induction lines as [|line lines IH]; intros w c Hc Hcb.
  { cbn [dsync_input]. destruct eof; [right; eexists; split; [by apply disconnect_running | done] | left; exists c; by rewrite (set_get w c)]. }
  assert (Hnext : forall c', same_task c c' -> dsync_input get set call w (line :: lines) eof = dsync_input get set call (set c' w) lines eof ->
    (exists c2, dsync_input get set call w (line :: lines) eof = Some (set c2 w) /\ same_task c c2) \/
    (exists r, dsync_input get set call w (line :: lines) eof = called w c cb r /\ (r.1 = DSYNC_REPLY_NOUSER -> str "-NOUSER" ∈ line :: lines))).
  { intros c' Hsame ->. destruct (IH (set c' w) c') as [(c2 & -> & H2) | (r & -> & Hr)]; [by apply (get_set w _ c) | by rewrite (proj1 Hsame) | left | right].
    - exists c2. rewrite set_set. split; [done |]. unfold same_task in *. naive_solver congruence.
    - exists r. split; [by apply called_same | intros; right; by apply Hr]. }
  destruct (handshaked c) eqn:Hh; [destruct (client_state c) as [st|] eqn:Hs |].
  - right. eexists. split; [by apply input_result |]. destruct (at0 line 0 =? 43); [done |].
    case_bool_decide as Hl; [| done]. intros _. rewrite Hl. left.
  - apply (Hnext (set_state (t_strcut line 9) c)); [done |]. cbn [dsync_input]. unfold dsync_input_line at 1. rewrite Hc. cbn [mbind option_bind].
    by rewrite Hh, Hcb, Hs.
  - destruct (bool_decide (line = str "+")) eqn:Hl.
    + apply (Hnext (set_handshaked c)); [done |]. cbn [dsync_input]. unfold dsync_input_line at 1. rewrite Hc. cbn [mbind option_bind].
      rewrite Hh. cbn [negb]. by rewrite Hl.
    + right. exists (DSYNC_REPLY_FAIL, []). split; [| done]. cbn [dsync_input]. unfold dsync_input_line at 1. rewrite Hc. cbn [mbind option_bind].
      rewrite Hh. cbn [negb]. rewrite Hl. cbn [negb mbind option_bind]. by apply disconnect_running.
Qed.
End Protocol.

(** ** The command line *)

(** A word that needs no escaping. *)
Definition clean (s : list Z) : Prop := tabesc s = s /\ forallb (fun p => negb (p =? 32)) s = true.

(** The parameters as they are configured, with spaces between them. *)
Fixpoint join_space (args : list (list Z)) : list Z :=
  match args with
  | [] => []
  | [a] => a
  | a :: args => a ++ 32 :: join_space args
  end.

Lemma clean_params ps :
  Forall clean ps -> map (fun p => if p =? 32 then 9 else p) (join_space ps) = join_tab (map str_tabescape ps).
Proof.
  assert (Hid : forall s, clean s -> map (fun p => if p =? 32 then 9 else p) s = s /\ str_tabescape s = s).
  { intros s [He Hs]. rewrite str_tabescape_eq. split; [| done]. clear He. induction s as [|c s IH]; [done |]. cbn in *.
    apply andb_true_iff in Hs as [Hc Hs]. rewrite IH by done. by destruct (c =? 32). }
  induction 1 as [|p ps Hp Hps IH]; [done |]. destruct (Hid p Hp) as [Hm He]. cbn [map]. rewrite He. destruct ps as [|p' ps]; [done |].
  change (join_space (p :: p' :: ps)) with (p ++ 32 :: join_space (p' :: ps)). rewrite map_app, Hm. cbn [map].
  change (32 =? 32) with true. cbn iota. by rewrite IH.
Qed.

Lemma join_tab_app a b : a <> [] -> b <> [] -> join_tab (a ++ b) = join_tab a ++ 9 :: join_tab b.
Proof.
  intros Ha Hb. induction a as [|x a IH]; [done |]. destruct a as [|y a]; [by destruct b |].
  change (x ++ 9 :: join_tab ((y :: a) ++ b) = (x ++ 9 :: join_tab (y :: a)) ++ 9 :: join_tab b). rewrite IH by done. by rewrite <- app_assoc.
Qed.

Lemma dsync_command_record ps username st full :
  ps <> [] -> Forall clean ps -> tabesc st = st ->
  dsync_command (join_space ps) username (Some st) full =
  join_tab (map str_tabescape ([[]; username; str "sync"] ++ ps ++ (if full then [str "-f"] else []) ++ [str "-s"; st])) ++ [10].
Proof.
  intros Hne Hps Hst. unfold dsync_command. rewrite clean_params by done. rewrite str_append_tabescaped_eq, <- str_tabescape_eq.
  rewrite !map_app. rewrite (join_tab_app (map str_tabescape [[]; username; str "sync"])) by (done || by destruct ps).
  rewrite (join_tab_app (map str_tabescape ps)) by (by destruct ps, full). cbn [map]. rewrite (str_tabescape_eq st), Hst.
  destruct full; cbn [map join_tab app]; repeat (rewrite <- ?app_assoc; cbn [app]); done.
Qed.

(** ** Properties *)

(** Whatever bytes the user's name has, the command is one line of the
    protocol and splits into an empty flags field, the name, "sync", the
    configured parameters, "-f" exactly for a full sync, "-s" and the state. *)
Theorem dsync_command_fields ps username st full :
  ps <> [] -> Forall clean ps -> tabesc st = st ->
  exists line, dsync_command (join_space ps) username (Some st) full = line ++ [10] /\
    Forall (fun c => c <> 10 /\ c <> 13) line /\
    t_strsplit_tabescaped line = Some ([[]; username; str "sync"] ++ ps ++ (if full then [str "-f"] else []) ++ [str "-s"; st]).
Proof.
  intros Hne Hps Hst. eexists. split; [by apply dsync_command_record |]. split; [| by apply strsplit_tabescaped_spec].
  apply Forall_forall. intros c Hc. pose proof (record_no_line_break ([[]; username; str "sync"] ++ ps ++ (if full then [str "-f"] else []) ++ [str "-s"; st])) as H.
  pose proof (proj1 (forallb_forall _ _) H c (proj1 (list_elem_of_In _ _) Hc)) as Hl. unfold no_line_break in Hl. lia.
Qed.

Lemma dsync_command_fields_witness :
  exists line, dsync_command (join_space [str "-d"; str "-N"]) [117; 9; 10] (Some (str "AQ==")) true = line ++ [10] /\
    Forall (fun c => c <> 10 /\ c <> 13) line /\
    t_strsplit_tabescaped line = Some [[]; [117; 9; 10]; str "sync"; str "-d"; str "-N"; str "-f"; str "-s"; str "AQ=="].
Proof. apply (dsync_command_fields [str "-d"; str "-N"] [117; 9; 10] (str "AQ==") true); [done | repeat constructor | reflexivity]. Defined.

(** C30: a client that has sent its command calls back exactly once, with the
    reply that the server's lines mean and the state of its second line up to
    a tab, whatever else is sent after it and whether or not the connection
    ends; it is idle and disconnected afterwards.  Until then it waits with
    the same callback. *)
Theorem dsync_input_correct {C W : Type} (get : W -> option (dsync_client C)) (set : dsync_client C -> W -> W) `{!ClientStore get set}
    (call : W -> dsync_reply -> list Z -> C -> option W)
    (call_keeps : forall w reply state cb w' c, call w reply state cb = Some w' -> get w = Some c -> dsync_client_is_busy c = true -> get w' = Some c)
    w c cb lines eof :
  get w = Some c -> callback c = Some cb -> handshaked c = false -> client_state c = None ->
  dsync_input get set call w lines eof =
  match dsync_outcome lines eof with
  | Some (reply, state) => w' ← call (set (called_back (dsync_close c)) w) reply state cb; Some (set (idle c) w')
  | None => Some (set (dsync_waiting c lines) w)
  end.
Proof.
  intros Hc Hcb Hh Hs. rewrite (dsync_input_spec get set call call_keeps w c cb) by done. by destruct (dsync_outcome lines eof) as [[reply state]|].
Qed.

(** A world of one client and the replies it has called back with. *)
Definition one_world : Type := dsync_client nat * list (dsync_reply * list Z).

#[export] Instance one_store : ClientStore (fun w : one_world => Some w.1) (fun c w => (c, w.2)).
Proof. split; [done | done |]. intros [c l] c' [= ->]. done. Qed.

Lemma dsync_input_correct_witness :
  dsync_input (fun w : one_world => Some w.1) (fun c w => (c, w.2)) (fun w reply state _ => Some (w.1, w.2 ++ [(reply, state)]))
    (set_cmd_sent true (Client true [] None None DSYNC_TYPE_FULL (Some 5%nat) false 0 false false), [])
    [str "+"; str "state"; str "+"; str "more"] true =
  Some (dsync_client_init [], [(DSYNC_REPLY_OK, str "state")]).
Proof.
  rewrite (dsync_input_correct (fun w : one_world => Some w.1) (fun c w => (c, w.2)) (fun w reply state _ => Some (w.1, w.2 ++ [(reply, state)])))
    with (c := set_cmd_sent true (Client true [] None None DSYNC_TYPE_FULL (Some 5%nat) false 0 false false)) (cb := 5%nat);
    [reflexivity | | reflexivity | reflexivity | reflexivity | reflexivity].
  intros w reply state cb w' c [= <-] Hc _. exact Hc.
Defined.
