(* ===== verification/ReplicatorBrain.v ===== *)
(** * The replicator's brain (src/src/replication/replicator/replicator-brain.c)

    The brain takes users from the queue and has them replicated by a limited
    number of dsync clients.  Its state contains the queue of ReplicatorQueue.v
    and the clients of DsyncClient.v, together with what was sent to doveadm
    and which synchronous requests were answered.  An event (a change of the
    queue, input from doveadm, a timeout) happens at a time [now]; [connects]
    says which clients can connect then.

    [None] is a failed assertion, the use of a freed user, or a function that
    does not return (ReplicatorSync.v). *)

From stdpp Require Import gmap.
From S2P Require Import Prelude Strnum Strescape Priorityq Table ReplicatorQueue ReplicatorQueueProps ReplicatorSync DsyncClient.

Record replicator_settings := Settings {
  replication_max_conns : nat;
  replication_full_sync_interval : Z;
  replication_dsync_parameters : list Z;
}.

Record replicator_brain (T : Type) := Brain {
  queue : replicator_queue T;
  settings : replicator_settings;
  timeout : option Z;
  dsync_clients : list (dsync_client addr);
  deinitializing : bool;
  (** Output to doveadm, by client, and answers to synchronous requests. *)
  sent : list (nat * list Z);
  answers : list (Z * bool);
}.
Arguments Brain {T} _ _ _ _ _ _ _.
Arguments queue {T} _.
Arguments settings {T} _.
Arguments timeout {T} _.
Arguments dsync_clients {T} _.
Arguments deinitializing {T} _.
Arguments sent {T} _.
Arguments answers {T} _.

(** [i_strdup_empty]. *)
Definition i_strdup_empty (s : list Z) : option (list Z) := match s with [] => None | _ => Some s end.

Section Code.
Context {T : Type} `{!Table (list Z) addr T}.
Notation brain := (replicator_brain T).
Implicit Types w : brain.

Definition set_queue (q : replicator_queue T) w : brain :=
  Brain q (settings w) (timeout w) (dsync_clients w) (deinitializing w) (sent w) (answers w).
Definition set_timeout (t : option Z) w : brain :=
  Brain (queue w) (settings w) t (dsync_clients w) (deinitializing w) (sent w) (answers w).
Definition set_clients (l : list (dsync_client addr)) w : brain :=
  Brain (queue w) (settings w) (timeout w) l (deinitializing w) (sent w) (answers w).
Definition set_deinitializing w : brain :=
  Brain (queue w) (settings w) (timeout w) (dsync_clients w) true (sent w) (answers w).
Definition add_sent (i : nat) (out : list Z) w : brain :=
  Brain (queue w) (settings w) (timeout w) (dsync_clients w) (deinitializing w) (sent w ++ [(i, out)]) (answers w).
Definition add_answers (l : list (Z * bool)) w : brain :=
  Brain (queue w) (settings w) (timeout w) (dsync_clients w) (deinitializing w) (sent w) (answers w ++ l).

(** The client at the position [i] of the array. *)
Definition get_client (i : nat) w : option (dsync_client addr) := dsync_clients w !! i.
Definition set_client (i : nat) (c : dsync_client addr) w : brain := set_clients (<[i := c]> (dsync_clients w)) w.

Fixpoint find_idle (l : list (dsync_client addr)) (i : nat) : option nat :=
  match l with
  | [] => None
  | c :: l => if negb (dsync_client_is_busy c) then Some i else find_idle l (S i)
  end.

(** The position of the client. *)
Definition get_dsync_client w : brain * option nat :=
  match find_idle (dsync_clients w) 0 with
  | Some i => (w, Some i)
  | None =>
      if (length (dsync_clients w) =? replication_max_conns (settings w))%nat then (w, None)
      else (set_clients (dsync_clients w ++ [dsync_client_init (replication_dsync_parameters (settings w))]) w,
            Some (length (dsync_clients w)))
  end.

Section Event.
Variable now : Z.
Variable connects : nat -> bool.

(** The user when its replication starts. *)
Definition set_started (full : bool) (u : replicator_user) : replicator_user :=
  let full := full || force_full_sync u in
  User (username u) (state u) (last_update u) now (if full then now else last_full_sync u) (last_successful_sync u)
    REPLICATION_PRIORITY_NONE (popped u) (last_sync_failed u) (if full then false else force_full_sync u).

Definition dsync_replicate w (a : addr) : option (brain * bool) :=
  let '(w, conn) := get_dsync_client w in
  match conn with
  | None => Some (w, false)
  | Some i =>
      user ← users (queue w) !! a;
      let next_full_sync := last_full_sync user + replication_full_sync_interval (settings w) in
      let full := next_full_sync <=? now in
      let w := set_queue (update_user (queue w) a (set_started full)) w in
      c ← get_client i w;
      '(c, out) ← dsync_client_sync c (username user) (state user) full a now (connects i);
      Some (add_sent i out (set_client i c w), true)
  end.

(** The push runs until its loop ends; see ReplicatorSync.v. *)
Definition push_user w (a : addr) : option brain :=
  '(q, cbs) ← replicator_queue_push (S (la_used (sync_lookups (queue w)) * 2)) (queue w) a;
  Some (add_answers cbs (set_queue q w)).

Definition replicator_brain_fill_next w : option (brain * bool) :=
  '(q, r) ← replicator_queue_pop (queue w) now;
  let w := set_queue q w in
  match r with
  | inr next_secs => Some (set_timeout (Some (u32 (next_secs * 1000))) w, false)
  | inl a =>
      '(w, started) ← dsync_replicate w a;
      if negb started then w ← push_user w a; Some (w, false) else Some (w, true)
  end.

Fixpoint fill_loop (fuel : nat) w : option brain :=
  match fuel with
  | O => None
  | S fuel =>
      '(w, again) ← replicator_brain_fill_next w;
      if (again : bool) then fill_loop fuel w else Some w
  end.

(** Every round but the last makes a client busy. *)
Definition replicator_brain_fill w : option brain := fill_loop (S (replication_max_conns (settings w))) w.

Definition replicator_brain_queue_changed w : option brain := replicator_brain_fill w.

Definition replicator_brain_timeout w : option brain := replicator_brain_fill (set_timeout None w).

(** The user when its replication has ended. *)
Definition set_replied (reply : dsync_reply) (st : list Z) (u : replicator_user) : replicator_user :=
  let ok := match reply with DSYNC_REPLY_OK => true | _ => false end in
  User (username u) (i_strdup_empty st) (last_update u) (last_fast_sync u) (last_full_sync u)
    (if ok then now else last_successful_sync u) (priority u) (popped u) (negb ok) (force_full_sync u).

(** [dsync_callback] of replicator-brain.c; [a] is [ctx->user].  Removing the
    user ends with the queue's change callback. *)
Definition brain_callback w (reply : dsync_reply) (st : list Z) (a : addr) : option brain :=
  _ ← users (queue w) !! a;
  w ← match reply with
      | DSYNC_REPLY_NOUSER => q ← replicator_queue_remove (queue w) a; replicator_brain_queue_changed (set_queue q w)
      | _ => push_user (set_queue (update_user (queue w) a (set_replied reply st)) w) a
      end;
  if negb (deinitializing w) then replicator_brain_fill w else Some w.

(** Input and timeouts of the client [i]. *)
Definition client_input (i : nat) w (lines : list (list Z)) (eof : bool) : option brain :=
  dsync_input (get_client i) (set_client i) brain_callback w lines eof.
Definition client_fail_timeout (i : nat) w : option brain :=
  dsync_fail_timeout (get_client i) (set_client i) brain_callback w.

(** ** Changes of the queue, with the change callback *)

Definition brain_add w (name : list Z) (prio : Z) (new : addr) : option (brain * addr) :=
  '(q, a) ← replicator_queue_add (queue w) name prio now new;
  w ← replicator_brain_queue_changed (set_queue q w);
  Some (w, a).

Definition brain_add_sync w (name : list Z) (callback : Z) (new : addr) : option brain :=
  q ← replicator_queue_add_sync (queue w) name callback now new;
  replicator_brain_queue_changed (set_queue q w).

Definition brain_remove w (a : addr) : option brain :=
  q ← replicator_queue_remove (queue w) a;
  replicator_brain_queue_changed (set_queue q w).

(** ** Start and end *)

Definition replicator_brain_init (q : replicator_queue T) (set : replicator_settings) : option brain :=
  replicator_brain_fill (Brain q set None [] false [] []).

Fixpoint deinit_clients (n i : nat) w : option brain :=
  match n with
  | O => Some w
  | S n => w ← dsync_disconnect (get_client i) (set_client i) brain_callback w; deinit_clients n (S i) w
  end.

Definition replicator_brain_deinit w : option brain :=
  let w := set_deinitializing w in
  w ← deinit_clients (length (dsync_clients w)) 0 w;
  Some (set_timeout None w).
End Event.
End Code.
