(* ===== verification/ReplicatorBrainProps.v ===== *)
(** * Correctness of the replicator's brain

    The invariant ties the users that are being replicated to the clients that
    replicate them.  It is kept by every event; a user keeps its
    priority until its replication starts; and filling the connections ends
    with every client busy or with no user that is to be popped. *)

From stdpp Require Import gmap.
From S2P Require Import Prelude Strnum Strescape Priorityq Table ReplicatorQueue ReplicatorQueueProps ReplicatorSync DsyncClient ReplicatorBrain.

Section Invariant.
Context {T : Type} `{!Table (list Z) addr T, !TableSpec (list Z) addr T}.
Notation brain := (replicator_brain T).
Implicit Types w : brain.

(** The client [i] replicates the user at [a]. *)
Definition owner w (i : nat) (a : addr) : Prop := exists c, get_client i w = Some c /\ callback c = Some a.

Definition is_popped w (a : addr) : Prop := exists u, users (queue w) !! a = Some u /\ popped u = true.

Notation lookups w := (active (sync_lookups (queue w))).

(** [eb] is a client that is calling back, [eu] a user that was popped and has
    no client (yet, or any more). *)
Record binv {o : bool} (eb : option nat) (eu : option addr) w : Prop := {
  b_queue : queue_inv o (queue w);
  b_arr : arr_ok (sync_lookups (queue w));
  b_count : (length (dsync_clients w) <= replication_max_conns (settings w))%nat;
  b_popped : forall a, is_popped w a <-> (exists i, owner w i a) \/ eu = Some a;
  b_loose : forall a i, eu = Some a -> ~ owner w i a;
  b_unique : forall i j a, owner w i a -> owner w j a -> i = j;
  b_busy : forall i c, get_client i w = Some c -> cmd_sent c = true <-> is_Some (callback c) \/ eb = Some i;
  b_client : forall i c, get_client i w = Some c -> (fd c = true \/ to c = true -> is_Some (callback c)) /\ (fd c = true -> to c = false);
  b_calling : forall i, eb = Some i -> exists c, get_client i w = Some c /\ callback c = None;
  b_priority : forall a u, users (queue w) !! a = Some u -> popped u = true -> eu <> Some a -> priority u <= REPLICATION_PRIORITY_SYNC;
  b_waiting : forall x, x ∈ lookups w -> wait_for_next_push x = true ->
    exists u, users (queue w) !! lk_user x = Some u /\ popped u = true /\ priority u = REPLICATION_PRIORITY_SYNC;
}.
End Invariant.

Arguments binv {T _ _} o eb eu w.

(** ** The clients *)

Section Clients.
Context {T : Type} `{!Table (list Z) addr T, !TableSpec (list Z) addr T}.
Notation brain := (replicator_brain T).
Implicit Types w : brain.
Context {o : bool}.

Lemma get_set_client w i c c' : get_client i w = Some c' -> get_client i (set_client i c w) = Some c.
Proof. intros H. unfold get_client, set_client, set_clients. cbn. apply list_lookup_insert_eq. by eapply lookup_lt_Some. Qed.

Lemma get_set_client_ne w i j c : i <> j -> get_client j (set_client i c w) = get_client j w.
Proof. intros H. unfold get_client, set_client, set_clients. cbn. by apply list_lookup_insert_ne. Qed.

#[export] Instance client_store i : ClientStore (get_client (T := T) i) (set_client i).
Proof.
  split.
  - intros w c c'. apply get_set_client.
  - intros w c c'. unfold set_client, set_clients. cbn. by rewrite list_insert_insert_eq.
  - intros w c H. unfold set_client, set_clients. destruct w. cbn in *. by rewrite list_insert_id.
Qed.

Lemma find_idle_spec l i :
  match find_idle l i with
  | Some j => exists k c, j = (i + k)%nat /\ l !! k = Some c /\ cmd_sent c = false
  | None => forall c, c ∈ l -> cmd_sent c = true
  end.
Proof.
  revert i. induction l as [|c l IH]; intros i; cbn [find_idle]; [by intros c ?%elem_of_nil |].
  unfold dsync_client_is_busy. destruct (cmd_sent c) eqn:Hc; cbn [negb].
  - specialize (IH (S i)). destruct (find_idle l (S i)) as [j|].
    + destruct IH as (k & c' & -> & Hk & Hc'). exists (S k), c'. splits; [lia | done | done].
    + intros c' [-> | Hin]%elem_of_cons; [done | by apply IH].
  - exists 0%nat, c. splits; [lia | done | done].
Qed.

(** An idle client takes the task. *)
Lemma dsync_client_sync_spec (c : dsync_client addr) name st full a now connects :
  cmd_sent c = false -> to c = false ->
  exists c' out, dsync_client_sync c name st full a now connects = Some (c', out) /\
    callback c' = Some a /\ cmd_sent c' = true /\ (fd c' = true -> to c' = false) /\
    sync_type c' = (if full then DSYNC_TYPE_FULL else match st with Some (_ :: _) => DSYNC_TYPE_INCREMENTAL | _ => DSYNC_TYPE_NORMAL end).
Proof.
  intros Hs Ht. unfold dsync_client_sync, dsync_client_is_busy. rewrite Hs. cbn [negb assert mbind option_bind].
  unfold dsync_connect. cbn [fd last_connect_failure]. destruct (fd c) eqn:Hfd; cbn [negb]; [eexists _, _; splits; try done; by rewrite ?Ht |].
  destruct (last_connect_failure c =? now); cbn [negb to]; [rewrite Ht; eexists _, _; splits; try done; by rewrite Hfd |].
  destruct connects; cbn [negb to]; [by eexists _, _; splits | rewrite Ht; by eexists _, _; splits].
Qed.
End Clients.

(** ** Popping and pushing *)

Section Queue.
Context {T : Type} `{!Table (list Z) addr T, !TableSpec (list Z) addr T}.
Notation brain := (replicator_brain T).
Notation lookups w := (active (sync_lookups (queue w))).
Implicit Types w : brain.
Context {o : bool}.

(** What an operation on one user leaves alone. *)
Definition same_but w w' (a : addr) : Prop := forall b, b <> a -> users (queue w') !! b = users (queue w) !! b.

Lemma is_popped_but w w' a b : same_but w w' a -> b <> a -> is_popped w' b <-> is_popped w b.
Proof. intros Hs Hb. unfold is_popped. by rewrite Hs. Qed.

Lemma pop_binv eb w now :
  binv o eb None w ->
  exists q' r, replicator_queue_pop (queue w) now = Some (q', r) /\
    match r with
    | inr _ => q' = queue w
    | inl a => binv o eb (Some a) (set_queue q' w) /\ sync_lookups q' = sync_lookups (queue w) /\
        (forall x, x ∈ lookups w -> wait_for_next_push x = true -> lk_user x <> a) /\
        exists u, users (queue w) !! a = Some u /\ popped u = false /\ users q' = alter (set_popped true) a (users (queue w))
    end.
Proof.
  intros [Hq Harr Hcnt Hpop _ Huniq Hbusy Hcl Hcall Hprio Hwait]. destruct (pop_spec (queue w) now Hq) as (q' & r & Heq & Hinv' & Hr).
  exists q', r. split; [done |]. destruct r as [a | secs]; [| by destruct Hr]. destruct Hr as (u & Hu & Hp & _ & Hus & [Hsame _] & Hl & _).
  assert (Ha : users q' !! a = Some (set_popped true u)) by (by rewrite Hus, lookup_alter_eq, Hu).
  assert (Hno : ~ is_popped w a) by (intros (u' & Hu' & Hp'); congruence).
  assert (Hnw : forall x, x ∈ lookups w -> wait_for_next_push x = true -> lk_user x <> a).
  { intros x Hx Hw E. destruct (Hwait x Hx Hw) as (ux & Hux & Hpx & _). rewrite E in Hux. apply Hno. by exists ux. }
  split; [| by splits; [| | exists u]]. split; cbn [set_queue queue]; try done.
  - by rewrite Hl.
  - intros b. destruct (decide (b = a)) as [-> | Hne].
    + split; [by right |]. intros _. by exists (set_popped true u).
    + rewrite (is_popped_but w _ a b) by done. rewrite Hpop. split; [intros [? | ?]; [by left | done] | intros [? | [= ->]]; [by left | done]].
  - intros b i [= <-] Ho. apply Hno, Hpop. left. by exists i.
  - intros b ub Hb Hpb Hne. rewrite Hsame in Hb by (intros ->; done). by apply (Hprio b ub).
  - rewrite Hl. intros x Hx Hw. destruct (Hwait x Hx Hw) as (ux & Hux & Hpx & Hprx).
    exists ux. by rewrite Hsame by auto.
Qed.

(** A request that still waits after a push is for another user. *)
Lemma remaining_waiting a l x :
  x ∈ map (next_push a) (List.filter (keep a) l) -> wait_for_next_push x = true -> x ∈ l /\ lk_user x <> a.
Proof.
  intros (y & -> & Hy)%list_elem_of_fmap Hw. apply list_elem_of_In, filter_In in Hy as [Hy%list_elem_of_In Hk].
  unfold next_push, waiting, keep, answered in *. case_bool_decide as E; cbn in *; [| done].
  destruct (wait_for_next_push y); cbn in *; congruence.
Qed.

(** A push can run on: the last request of the array is one to be answered. *)
Definition hangs w : Prop := exists z, last (lookups w) = Some z /\ wait_for_next_push z = false.

Lemma hangs_lookups w : hangs w -> lookups w <> [].
Proof. intros (z & Hz & _) E. by rewrite E in Hz. Qed.

(** The effect of a push that returns. *)
Definition pushed eb w w' (a : addr) : Prop :=
  binv o eb None w' /\ dsync_clients w' = dsync_clients w /\ settings w' = settings w /\ timeout w' = timeout w /\ deinitializing w' = deinitializing w /\
  users (queue w') = alter (set_popped false) a (users (queue w)) /\
  (lookups w = [] -> lookups w' = []).

Lemma push_binv eb w a :
  binv o eb (Some a) w ->
  match push_user w a with
  | Some w' => pushed eb w w' a
  | None => hangs w
  end.
Proof.
  intros [Hq Harr Hcnt Hpop Hloose Huniq Hbusy Hcl Hcall Hprio Hwait].
  destruct (proj2 (Hpop a) (or_intror eq_refl)) as (u & Hu & Hp).
  assert (Hcase : (exists z, last (lookups w) = Some z /\ answered a z = true) \/ forall x, last (lookups w) = Some x -> answered a x = false).
  { destruct (last (lookups w)) as [z|]; [| by right]. destruct (answered a z) eqn:Hz; [left; by exists z | right; by intros x [= <-]]. }
  unfold push_user. destruct Hcase as [(z & Hz & Hans) | Hlast].
  { rewrite (push_stuck (queue w) a z) by done. cbn. exists z. split; [done |]. apply andb_true_iff in Hans as [_ Hans]. by apply negb_true_iff. }
  destruct (push_spec (queue w) a u Hq Hu Hp Harr) as (q' & -> & Hinv' & Ha & Hsame & Harr' & Hact); [| done |].
  { intros x Hx [Hxa Hw]%andb_true_iff. apply bool_decide_eq_true in Hxa as <-. destruct (Hwait x Hx Hw) as (u' & ? & _ & ?). congruence. }
  cbn [mbind option_bind]. assert (Hus : users q' = alter (set_popped false) a (users (queue w))).
  { apply map_eq. intros b. destruct (decide (b = a)) as [-> | Hne]; [by rewrite lookup_alter_eq, Ha, Hu | by rewrite lookup_alter_ne, Hsame by done]. }
  split; [| splits; try done; cbn; intros E; by rewrite Hact, E]. split; cbn [add_answers set_queue queue]; try done.
  - intros b. destruct (decide (b = a)) as [-> | Hne].
    + split; [intros (u' & Hu' & Hp'); cbn in Hu'; rewrite Ha in Hu'; by injection Hu' as <- | intros [[i Hi] | ?]; [by destruct (Hloose a i) | done]].
    + rewrite (is_popped_but w _ a b) by done. rewrite Hpop. split; [intros [? | [= ->]]; [by left | done] | intros [? | ?]; [by left | done]].
  - intros b ub Hb Hpb _. destruct (decide (b = a)) as [-> | Hne]; [rewrite Ha in Hb; by injection Hb as <- |].
    rewrite Hsame in Hb by done. apply (Hprio b ub); [done | done | congruence].
  - rewrite Hact. intros x Hx Hw. destruct (remaining_waiting a _ x Hx Hw) as [Hx0 Hne]. rewrite Hsame by done. by apply Hwait.
Qed.
End Queue.

(** ** Starting a replication *)

Section Start.
Context {T : Type} `{!Table (list Z) addr T, !TableSpec (list Z) addr T}.
Notation brain := (replicator_brain T).
Notation lookups w := (active (sync_lookups (queue w))).
Implicit Types w : brain.
Context {o : bool}.

(** Writing to the fields of a user that has no client. *)
Lemma update_loose eb w a f u :
  binv o eb (Some a) w -> users (queue w) !! a = Some u -> (forall u, username (f u) = username u) -> popped (f u) = popped u ->
  (forall x, x ∈ lookups w -> wait_for_next_push x = true -> lk_user x = a -> priority (f u) = REPLICATION_PRIORITY_SYNC) ->
  binv o eb (Some a) (set_queue (update_user (queue w) a f) w).
Proof.
  intros [Hq Harr Hcnt Hpop Hloose Huniq Hbusy Hcl Hcall Hprio Hwait] Hu Hname Hpf Hf.
  destruct (proj2 (Hpop a) (or_intror eq_refl)) as (u' & Hu' & Hp). assert (u' = u) as -> by congruence.
  assert (Ha : users (update_user (queue w) a f) !! a = Some (f u)) by (cbn; by rewrite lookup_alter_eq, Hu).
  assert (Hs : same_but w (set_queue (update_user (queue w) a f) w) a) by (intros b Hb; by apply lookup_alter_ne).
  split; try done.
  - eapply inv_but_popped; [| exact Ha | by rewrite Hpf]. apply update_user_but; [| done]. by eapply inv_popped.
  - intros b. destruct (decide (b = a)) as [-> | Hne]; [| by rewrite (is_popped_but w _ a b)].
    split; [by right |]. intros _. exists (f u). split; [done | by rewrite Hpf].
  - intros b ub Hb Hpb Hne. rewrite Hs in Hb by congruence. by apply (Hprio b ub).
  - intros x Hx Hw. destruct (Hwait x Hx Hw) as (ux & Hux & Hpx & Hprx). destruct (decide (lk_user x = a)) as [E | Hne].
    + rewrite E. exists (f u). splits; [done | by rewrite Hpf | by apply (Hf x)].
    + exists ux. rewrite Hs by done. done.
Qed.

(** The number of busy clients. *)
Definition busy w : nat := length (filter (fun c => cmd_sent c = true) (dsync_clients w)).
Definition all_busy w : Prop := length (dsync_clients w) = replication_max_conns (settings w) /\ forall c, c ∈ dsync_clients w -> cmd_sent c = true.

Lemma get_dsync_client_spec eb eu w :
  binv o eb eu w -> let '(w', conn) := get_dsync_client w in
  match conn with
  | None => w' = w /\ all_busy w
  | Some i => exists l c, w' = set_clients l w /\ l !! i = Some c /\ cmd_sent c = false /\ binv o eb eu w' /\ busy w' = busy w /\
      forall j cj, get_client j w = Some cj -> get_client j w' = Some cj
  end.
Proof.
  intros Hb. unfold get_dsync_client. pose proof (find_idle_spec (dsync_clients w) 0) as Hf. destruct (find_idle (dsync_clients w) 0) as [i|].
  { destruct Hf as (k & c & -> & Hk & Hc). exists (dsync_clients w), c. by destruct w. }
  destruct (Nat.eqb_spec (length (dsync_clients w)) (replication_max_conns (settings w))) as [Hl | Hl]; [done |].
  set (c := dsync_client_init _). exists (dsync_clients w ++ [c]), c.
  assert (Hget : forall j cj, get_client j (set_clients (dsync_clients w ++ [c]) w) = Some cj <-> get_client j w = Some cj \/ (j = length (dsync_clients w) /\ cj = c)).
  { intros j cj. unfold get_client. cbn [set_clients dsync_clients]. rewrite lookup_app_Some. split; (intros [? | [Hj Hcj]]; [by left | right]).
    - destruct (j - length (dsync_clients w))%nat eqn:E; [injection Hcj as <-; split; [lia | done] | done].
    - subst. split; [lia | by rewrite Nat.sub_diag]. }
  assert (Howner : forall j b, owner (set_clients (dsync_clients w ++ [c]) w) j b <-> owner w j b).
  { intros j b. unfold owner. split; intros (cj & Hj & Hb'); exists cj; (split; [| done]); [apply Hget in Hj as [? | [_ ->]]; [done | done] | apply Hget; by left]. }
  splits; [done | by rewrite lookup_app_r, Nat.sub_diag | done | | unfold busy; cbn; by rewrite filter_app, length_app, Nat.add_0_r | intros; apply Hget; by left].
  destruct Hb as [Hq Harr Hcnt Hpop Hloose Huniq Hbusy Hcl Hcall Hprio Hwait]. split; try done.
  - cbn. rewrite length_app. cbn. lia.
  - intros b. setoid_rewrite Howner. apply Hpop.
  - intros b j. rewrite Howner. apply Hloose.
  - intros j k b. rewrite !Howner. apply Huniq.
  - intros j cj [Hj | [-> ->]]%Hget; [by apply (Hbusy j) |]. cbn. split; [done |]. intros [[? ?] | ->]; [done |].
    destruct (Hcall _ eq_refl) as (cj & Hj & _). apply lookup_lt_Some in Hj. lia.
  - intros j cj [Hj | [-> ->]]%Hget; [by apply (Hcl j) |]. split; [by intros [? | ?] | done].
  - intros j Hj. destruct (Hcall j Hj) as (cj & Hcj & Hn). exists cj. split; [apply Hget; by left | done].
Qed.

Lemma busy_insert (l : list (dsync_client addr)) i c c' :
  l !! i = Some c -> cmd_sent c = false -> cmd_sent c' = true ->
  length (filter (fun c => cmd_sent c = true) (<[i := c']> l)) = S (length (filter (fun c => cmd_sent c = true) l)).
Proof.
  intros Hi Hc Hc'. rewrite insert_take_drop by (by eapply lookup_lt_Some). rewrite <- (take_drop_middle l i c Hi) at 3.
  rewrite !filter_app, !length_app, !filter_cons. rewrite decide_True by done. rewrite decide_False by congruence. cbn. lia.
Qed.

Lemma busy_bound eb eu w : binv o eb eu w -> (busy w <= replication_max_conns (settings w))%nat.
Proof. intros Hb. pose proof (b_count _ _ w Hb). unfold busy. pose proof (length_filter (fun c => cmd_sent c = true) (dsync_clients w)). lia. Qed.

(** A client takes the user. *)
Lemma assign_binv eb w a i c c' :
  binv o eb (Some a) w -> get_client i w = Some c -> cmd_sent c = false -> callback c' = Some a -> cmd_sent c' = true ->
  (fd c' = true -> to c' = false) -> (forall u, users (queue w) !! a = Some u -> priority u <= REPLICATION_PRIORITY_SYNC) ->
  binv o eb None (set_client i c' w) /\ owner (set_client i c' w) i a /\ forall j b, owner w j b -> j <> i /\ owner (set_client i c' w) j b.
Proof.
  intros [Hq Harr Hcnt Hpop Hloose Huniq Hbusy Hcl Hcall Hprio Hwait] Hc Hs Hcb Hs' Hft Hpr. set (w' := set_client i c' w).
  assert (Hi : get_client i w' = Some c') by (by eapply get_set_client). assert (Hne : forall j, j <> i -> get_client j w' = get_client j w) by (intros; by apply get_set_client_ne).
  assert (Hnone : callback c = None) by (destruct (callback c) eqn:E; [| done]; exfalso; assert (cmd_sent c = true) by (apply (Hbusy i c Hc); left; by rewrite E); congruence).
  assert (Heb : eb <> Some i) by (intros ->; assert (cmd_sent c = true) by (apply (Hbusy i c Hc); by right); congruence).
  assert (Howner : forall j b, owner w' j b <-> owner w j b \/ (j = i /\ b = a)).
  { intros j b. unfold owner. destruct (decide (j = i)) as [-> | Hj].
    - rewrite Hi, Hc. split; [intros (? & [= <-] & ?); right; split; [done | congruence] | intros [(? & [= <-] & ?) | [_ ->]]; [congruence | by exists c']].
    - rewrite Hne by done. split; [by left | intros [? | [? _]]; done]. }
  splits; [| by exists c' | intros j b Hj; split; [intros ->; destruct Hj as (? & ? & ?); congruence | apply Howner; by left]].
  split; try done.
  - cbn. by rewrite length_insert.
  - intros b. setoid_rewrite Howner. change (is_popped w' b) with (is_popped w b). rewrite Hpop. split.
    + intros [[j Hj] | [= ->]]; left; [exists j; by left | exists i; by right].
    + intros [[j [Hj | [-> ->]]] | ?]; [left; by exists j | by right | done].
  - intros j k b. rewrite !Howner. intros [Hj | [-> ->]] [Hk | [-> Hk]]; [by apply (Huniq j k b) | subst; by destruct (Hloose a j) | by destruct (Hloose a k) | done].
  - intros j cj Hj. destruct (decide (j = i)) as [-> | Hji]; [| rewrite Hne in Hj by done; by apply Hbusy].
    rewrite Hi in Hj. injection Hj as <-. rewrite Hcb. split; [by left | done].
  - intros j cj Hj. destruct (decide (j = i)) as [-> | Hji]; [| rewrite Hne in Hj by done; by apply (Hcl j)].
    rewrite Hi in Hj. injection Hj as <-. rewrite Hcb. done.
  - intros j Hj. rewrite Hne by congruence. by apply Hcall.
  - intros b u Hu Hp _. destruct (decide (b = a)) as [-> | Hb]; [by apply Hpr |]. apply (Hprio b u); [done | done | congruence].
Qed.

Lemma idle_client eb eu w i c : binv o eb eu w -> get_client i w = Some c -> cmd_sent c = false -> to c = false.
Proof.
  intros Hb Hc Hs. destruct (to c) eqn:Ht; [| done]. exfalso. assert (cmd_sent c = true); [| congruence].
  apply (b_busy _ _ w Hb i c Hc). left. apply (b_client _ _ w Hb i c Hc). by right.
Qed.

(** What stays the same while replications are started. *)
Definition frame w w' : Prop :=
  settings w' = settings w /\ deinitializing w' = deinitializing w /\
  (forall j b, owner w j b -> owner w' j b) /\ (forall j c, get_client j w = Some c -> cmd_sent c = true -> get_client j w' = Some c).

Definition wants_full w now (u : replicator_user) : bool := last_full_sync u + replication_full_sync_interval (settings w) <=? now.

Lemma dsync_replicate_spec eb w now connects a u :
  binv o eb (Some a) w -> users (queue w) !! a = Some u ->
  (forall x, x ∈ lookups w -> wait_for_next_push x = true -> lk_user x <> a) ->
  exists w' started, dsync_replicate now connects w a = Some (w', started) /\
    if started then
      binv o eb None w' /\ frame w w' /\ busy w' = S (busy w) /\ (exists i, owner w' i a) /\ sync_lookups (queue w') = sync_lookups (queue w) /\
      users (queue w') = alter (set_started now (wants_full w now u)) a (users (queue w))
    else w' = w /\ all_busy w.
Proof.
  intros Hb Hu Hnw. unfold dsync_replicate. pose proof (get_dsync_client_spec eb (Some a) w Hb) as Hg.
  destruct (get_dsync_client w) as [w1 [i|]]; [| destruct Hg as [-> ?]; by exists w, false].
  destruct Hg as (l & c & -> & Hc & Hs & Hb1 & Hbusy1 & Hkeep). set (w1 := set_clients l w) in *.
  change (users (queue w1)) with (users (queue w)). rewrite Hu. cbn [mbind option_bind]. change (settings w1) with (settings w). fold (wants_full w now u).
  set (w2 := set_queue (update_user (queue w1) a (set_started now (wants_full w now u))) w1).
  assert (Hb2 : binv o eb (Some a) w2).
  { apply (update_loose eb w1 a _ u); [done | done | done | done |]. intros x Hx Hw E. by destruct (Hnw x Hx Hw). }
  change (get_client i w2) with (l !! i). rewrite Hc. cbn [mbind option_bind].
  destruct (dsync_client_sync_spec c (username u) (state u) (wants_full w now u) a now (connects i) Hs) as (c' & out & -> & Hcb & Hs' & Hft & _).
  { by apply (idle_client eb (Some a) w2 i). }
  cbn [mbind option_bind]. eexists _, true. split; [done |].
  destruct (assign_binv eb w2 a i c c' Hb2 Hc Hs Hcb Hs' Hft) as (Hb3 & Ho & Hothers).
  { intros u' Hu'. cbn in Hu'. rewrite lookup_alter_eq, Hu in Hu'. injection Hu' as <-. cbn. unfold REPLICATION_PRIORITY_NONE, REPLICATION_PRIORITY_SYNC. lia. }
  splits; [by destruct Hb3; split | | | by exists i | done | done].
  - unfold frame. splits; [done | done | |].
    + intros j b (cj & Hj & Hcj). apply Hothers. exists cj. split; [by apply Hkeep | done].
    + intros j cj Hj Hsj. apply Hkeep in Hj as Hj1. change (get_client j (set_client i c' w2) = Some cj).
      rewrite get_set_client_ne; [done |]. intros ->. change (l !! j = Some cj) in Hj1. congruence.
  - rewrite <- Hbusy1. unfold busy. cbn. by apply (busy_insert l i c).
Qed.
End Start.

(** ** Filling the clients *)

Section Fill.
Context {T : Type} `{!Table (list Z) addr T, !TableSpec (list Z) addr T}.
Notation brain := (replicator_brain T).
Notation lookups w := (active (sync_lookups (queue w))).
Implicit Types w : brain.
Context {o : bool}.
Variable now : Z.
Variable connects : nat -> bool.

(** A user keeps its priority, unless its replication is started now. *)
Definition progress (us : gmap addr replicator_user) w' : Prop := forall a,
  match us !! a, users (queue w') !! a with
  | Some u, Some u' => username u' = username u /\ (last_fast_sync u' = last_fast_sync u \/ last_fast_sync u' = now) /\
      (priority u <= priority u' \/ (exists i, owner w' i a) /\ last_fast_sync u' = now)
  | None, None => True
  | _, _ => False
  end.

(** Nothing more can be started. *)
Definition settled w : Prop :=
  (exists secs, replicator_queue_pop (queue w) now = Some (queue w, inr secs) /\ timeout w = Some (u32 (secs * 1000))) \/ all_busy w.

(** The relation between the states before and after some rounds. *)
Definition filled eb w w' : Prop :=
  binv o eb None w' /\ frame w w' /\ progress (users (queue w)) w' /\ (lookups w = [] -> lookups w' = []).

Lemma frame_refl w w' : dsync_clients w' = dsync_clients w -> settings w' = settings w -> deinitializing w' = deinitializing w -> frame w w'.
Proof. intros Hc Hs Hd. unfold frame, owner, get_client. by rewrite Hc. Qed.

Lemma frame_trans w1 w2 w3 : frame w1 w2 -> frame w2 w3 -> frame w1 w3.
Proof.
  intros (Hs1 & Hd1 & Ho1 & Hg1) (Hs2 & Hd2 & Ho2 & Hg2). unfold frame. splits; [congruence | congruence | by auto |].
  intros j c Hj Hc. apply Hg2; [by apply Hg1 | done].
Qed.

Lemma progress_refl us w : users (queue w) = us -> progress us w.
Proof. intros <- a. destruct (users (queue w) !! a); [| done]. splits; [done | by left | left; lia]. Qed.

Lemma progress_trans us w2 w3 : frame w2 w3 -> progress us w2 -> progress (users (queue w2)) w3 -> progress us w3.
Proof.
  intros (_ & _ & Ho & _) H1 H2 a. specialize (H1 a). specialize (H2 a).
  destruct (us !! a) as [u1|], (users (queue w2) !! a) as [u2|], (users (queue w3) !! a) as [u3|]; try done.
  destruct H1 as (Hn1 & Hf1 & Hp1), H2 as (Hn2 & Hf2 & Hp2). splits; [congruence | | ].
  - destruct Hf2 as [-> | ->]; [done | by right].
  - destruct Hp2 as [Hp2 | Hp2]; [| by right]. destruct Hp1 as [Hp1 | [[i Hi] Hf]]; [left; lia | right].
    split; [exists i; by apply Ho |]. destruct Hf2; congruence.
Qed.

Lemma progress_alter us w' a u f :
  us !! a = Some u -> users (queue w') = alter f a us -> username (f u) = username u ->
  (last_fast_sync (f u) = last_fast_sync u \/ last_fast_sync (f u) = now) ->
  (priority u <= priority (f u) \/ (exists i, owner w' i a) /\ last_fast_sync (f u) = now) -> progress us w'.
Proof.
  intros Hu Hus Hn Hf Hp b. rewrite Hus. destruct (decide (b = a)) as [-> | Hb].
  - by rewrite lookup_alter_eq, Hu.
  - rewrite lookup_alter_ne by done. destruct (us !! b); [| done]. splits; [done | by left | left; lia].
Qed.

Lemma filled_trans eb w1 w2 w3 : filled eb w1 w2 -> filled eb w2 w3 -> filled eb w1 w3.
Proof.
  intros (_ & Hf1 & Hp1 & Hl1) (Hb & Hf2 & Hp2 & Hl2). unfold filled.
  splits; [done | by eapply frame_trans | by eapply progress_trans | by auto].
Qed.

Lemma alter_popped (us : gmap addr replicator_user) a u :
  us !! a = Some u -> popped u = false -> alter (set_popped false) a (alter (set_popped true) a us) = us.
Proof.
  intros Hu Hp. apply map_eq. intros b. destruct (decide (b = a)) as [-> | Hb]; [| by rewrite !lookup_alter_ne].
  rewrite !lookup_alter_eq, Hu. cbn. destruct u. cbn in Hp. by subst.
Qed.

Lemma fill_next_spec eb w :
  binv o eb None w ->
  match replicator_brain_fill_next now connects w with
  | None => hangs w
  | Some (w', again) => filled eb w w' /\ if again then busy w' = S (busy w) /\ sync_lookups (queue w') = sync_lookups (queue w) else settled w'
  end.
Proof.
  intros Hb. unfold replicator_brain_fill_next. destruct (pop_binv eb w now Hb) as (q' & r & Heq & Hr). rewrite Heq. cbn [mbind option_bind].
  destruct r as [a | secs].
  2: { subst q'. split; [| left; exists secs; by destruct w]. unfold filled. splits; [by destruct Hb; split | by apply frame_refl | by apply progress_refl | done]. }
  destruct Hr as (Hb1 & Hl1 & Hnw & u & Hu & Hp & Hus). set (w1 := set_queue q' w) in *.
  assert (Hu1 : users (queue w1) !! a = Some (set_popped true u)) by (cbn; by rewrite Hus, lookup_alter_eq, Hu).
  assert (Hp1 : progress (users (queue w)) w1) by (apply (progress_alter _ w1 a u (set_popped true)); [done | done | done | by left | left; cbn; lia]).
  destruct (dsync_replicate_spec eb w1 now connects a _ Hb1 Hu1) as (w2 & started & -> & H2); [cbn; by rewrite Hl1 |].
  cbn [mbind option_bind]. destruct started; cbn [negb].
  - destruct H2 as (Hb2 & Hf2 & Hbusy & Ho & Hl2 & Hus2). split; [| split; [exact Hbusy | by rewrite Hl2]]. unfold filled.
    splits; [done | exact Hf2 | | by rewrite Hl2; cbn; rewrite Hl1].
    apply (progress_trans _ w1 w2); [done | done |].
    apply (progress_alter _ w2 a _ _ Hu1 Hus2); [done | by right | by right].
  - destruct H2 as [-> Hall]. pose proof (push_binv eb w1 a Hb1) as Hpush. unfold hangs in Hpush. change (lookups w1) with (active (sync_lookups q')) in Hpush. rewrite Hl1 in Hpush.
    destruct (push_user w1 a) as [w3|]; [| exact Hpush]. cbn [mbind option_bind].
    destruct Hpush as (Hb3 & Hcl & Hset & _ & Hde & Hus3 & Hl3). split; [| right; unfold all_busy; rewrite Hcl, Hset; exact Hall].
    unfold filled. splits; [done | by apply frame_refl | | intros E; apply Hl3; cbn; by rewrite Hl1].
    apply progress_refl. rewrite Hus3. cbn. rewrite Hus. by apply (alter_popped _ a u).
Qed.

(** Filling ends, unless a push does not. *)
Lemma fill_loop_spec fuel eb w :
  binv o eb None w -> (replication_max_conns (settings w) - busy w < fuel)%nat ->
  match fill_loop now connects fuel w with
  | None => hangs w
  | Some w' => filled eb w w' /\ settled w'
  end.
Proof.
  revert w. induction fuel as [|fuel IH]; intros w Hb Hf; [lia |]. cbn [fill_loop].
  pose proof (fill_next_spec eb w Hb) as Hn. destruct (replicator_brain_fill_next now connects w) as [[w1 again]|]; [| done]. cbn [mbind option_bind].
  destruct Hn as [Hfill H]. destruct again; [| done]. destruct H as [H Hsame]. pose proof Hfill as (Hb1 & (Hs & _) & _ & Hl).
  specialize (IH w1 Hb1). pose proof (busy_bound eb None w1 Hb1). rewrite Hs, H in *.
  specialize (IH ltac:(lia)). destruct (fill_loop now connects fuel w1) as [w2|]; [| unfold hangs in *; by rewrite Hsame in IH].
  destruct IH as [Hfill2 Hset]. split; [| done]. by apply (filled_trans eb w w1).
Qed.

Lemma fill_spec eb w :
  binv o eb None w ->
  match replicator_brain_fill now connects w with
  | None => hangs w
  | Some w' => filled eb w w' /\ settled w'
  end.
Proof. intros Hb. apply fill_loop_spec; [done | lia]. Qed.
End Fill.

(** ** Events of the clients *)

Section ClientEvents.
Context {T : Type} `{!Table (list Z) addr T, !TableSpec (list Z) addr T}.
Notation brain := (replicator_brain T).
Notation lookups w := (active (sync_lookups (queue w))).
Implicit Types w : brain.
Context {o : bool}.
Variable now : Z.
Variable connects : nat -> bool.

(** Busy clients are not touched, in any state. *)
Definition keeps w w' : Prop := forall j c, get_client j w = Some c -> cmd_sent c = true -> get_client j w' = Some c.

Lemma get_dsync_client_keeps w : keeps w (get_dsync_client w).1.
Proof.
  unfold get_dsync_client. destruct (find_idle (dsync_clients w) 0); [by intros j c |]. case_match; [by intros j c |].
  intros j c Hj _. unfold get_client. cbn. by apply lookup_app_l_Some.
Qed.

Lemma push_user_keeps w a w' : push_user w a = Some w' -> keeps w w' /\ settings w' = settings w.
Proof. unfold push_user. destruct (replicator_queue_push _ _ _) as [[q cbs]|]; [| done]. intros [= <-]. split; [by intros j c | done]. Qed.

Lemma dsync_replicate_keeps w a w' b : dsync_replicate now connects w a = Some (w', b) -> keeps w w'.
Proof.
  unfold dsync_replicate. pose proof (get_dsync_client_keeps w) as Hk. destruct (get_dsync_client w) as [w1 [i|]]; cbn [fst] in Hk; [| by intros [= <- <-]].
  destruct (users (queue w1) !! a) as [u|]; [| done]. cbn [mbind option_bind]. set (w2 := set_queue _ w1).
  destruct (get_client i w2) as [c|] eqn:Hc; [| done]. cbn [mbind option_bind]. unfold dsync_client_sync, dsync_client_is_busy.
  destruct (cmd_sent c) eqn:Hs; cbn [negb assert]; [done |]. cbn [mbind option_bind].
  destruct (dsync_connect _ now (connects i)) as [[c1 connected] out1].
  assert (Hset : forall c2 out2, keeps w (add_sent i out2 (set_client i c2 w2))).
  { intros c2 out2 j cj Hj Hsj. specialize (Hk j cj Hj Hsj). change (get_client j (set_client i c2 w2) = Some cj).
    rewrite get_set_client_ne; [done |]. intros ->. change (get_client j w1 = Some c) in Hc. congruence. }
  destruct connected; cbn [negb mbind option_bind]; [intros [= <- <-]; apply Hset |].
  destruct (to c1); cbn [negb assert mbind option_bind]; [done | intros [= <- <-]; apply Hset].
Qed.

Lemma fill_loop_keeps fuel w w' : fill_loop now connects fuel w = Some w' -> keeps w w'.
Proof.
  revert w. induction fuel as [|fuel IH]; intros w; [done |]. cbn [fill_loop]. unfold replicator_brain_fill_next.
  destruct (replicator_queue_pop (queue w) now) as [[q r]|]; [| done]. cbn [mbind option_bind]. destruct r as [a | secs]; [| intros [= <-]; by intros j c].
  destruct (dsync_replicate now connects (set_queue q w) a) as [[w1 started]|] eqn:Hr; [| done]. apply dsync_replicate_keeps in Hr.
  cbn [mbind option_bind]. destruct started; cbn [negb mbind option_bind].
  - intros H j c Hj Hc. apply (IH w1 H j c); [by apply Hr | done].
  - destruct (push_user w1 a) as [w2|] eqn:Hp; [| done]. intros [= <-] j c Hj Hc. apply push_user_keeps in Hp as [Hp _]. apply Hp; [by apply Hr | done].
Qed.

Lemma brain_callback_keeps w reply st a w' : brain_callback now connects w reply st a = Some w' -> keeps w w'.
Proof.
  unfold brain_callback. destruct (users (queue w) !! a); [| done]. cbn [mbind option_bind].
  assert (Hend : forall w1, keeps w w1 -> (if negb (deinitializing w1) then replicator_brain_fill now connects w1 else Some w1) = Some w' -> keeps w w').
  { intros w1 H1. destruct (negb (deinitializing w1)); [| intros [= <-]; exact H1]. intros Hf%fill_loop_keeps j c Hj Hc. apply Hf; [by apply H1 | done]. }
  destruct reply.
  1, 2: destruct (push_user _ a) as [w1|] eqn:Hp; [| done]; apply push_user_keeps in Hp as [Hp _]; by apply Hend.
  destruct (replicator_queue_remove (queue w) a) as [q|]; [| done]. cbn [mbind option_bind].
  destruct (replicator_brain_queue_changed now connects (set_queue q w)) as [w1|] eqn:Hc; [| done]. by apply Hend, (fill_loop_keeps _ _ _ Hc).
Qed.

End ClientEvents.

Section Tasks.
Context {T : Type} `{!Table (list Z) addr T, !TableSpec (list Z) addr T}.
Notation brain := (replicator_brain T).
Implicit Types w : brain.
Context {o : bool}.

(** The client [i] stops its task to call back. *)
Lemma take_task w i c a :
  binv o None None w -> get_client i w = Some c -> callback c = Some a ->
  binv o (Some i) (Some a) (set_client i (called_back (dsync_close c)) w) /\
  forall j b, owner w j b -> (j = i /\ b = a) \/ owner (set_client i (called_back (dsync_close c)) w) j b.
Proof.
  intros [Hq Harr Hcnt Hpop _ Huniq Hbusy Hcl Hcall Hprio Hwait] Hc Hcb. set (w' := set_client i _ w).
  assert (Hi : get_client i w' = Some (called_back (dsync_close c))) by (by eapply get_set_client).
  assert (Hne : forall j, j <> i -> get_client j w' = get_client j w) by (intros; by apply get_set_client_ne).
  assert (Howner : forall j b, owner w' j b <-> owner w j b /\ j <> i).
  { intros j b. unfold owner. destruct (decide (j = i)) as [-> | Hj]; [| rewrite Hne by done; tauto].
    rewrite Hi. split; [by intros (? & [= <-] & ?) | tauto]. }
  assert (Ha : forall j b, owner w j b -> j = i -> b = a) by (intros j b (cj & Hj & Hb) ->; congruence).
  split; [| intros j b Ho; destruct (decide (j = i)) as [Hj | Hj]; [left; by eauto | right; by apply Howner]].
  split; try done.
  - cbn. by rewrite length_insert.
  - intros b. change (is_popped w' b) with (is_popped w b). rewrite Hpop. setoid_rewrite Howner. split.
    + intros [[j Hj] | ?]; [| done]. destruct (decide (j = i)) as [E | Hji]; [right; by rewrite (Ha j b) | left; by exists j].
    + intros [[j [Hj _]] | [= <-]]; left; [by exists j | exists i; by exists c].
  - intros b j [= <-]. rewrite Howner. intros [Ho Hj]. apply Hj, (Huniq j i a Ho). by exists c.
  - intros j k b. rewrite !Howner. intros [? _] [? _]. by apply (Huniq j k b).
  - intros j cj Hj. destruct (decide (j = i)) as [-> | Hji].
    + rewrite Hi in Hj. injection Hj as <-. cbn. split; [by right | done].
    + rewrite Hne in Hj by done. rewrite (Hbusy j cj Hj). split; (intros [? | ?]; [by left | congruence]).
  - intros j cj Hj. destruct (decide (j = i)) as [-> | Hji]; [| rewrite Hne in Hj by done; by apply (Hcl j)].
    rewrite Hi in Hj. injection Hj as <-. cbn. split; [by intros [? | ?] | done].
  - intros j [= <-]. by exists (called_back (dsync_close c)).
  - intros b u Hu Hp Hb. by apply (Hprio b u).
Qed.

(** The client [i] is idle again. *)
Lemma finish_task w i c :
  binv o (Some i) None w -> get_client i w = Some (called_back (dsync_close c)) -> binv o None None (set_client i (idle c) w) /\
  forall j b, owner w j b -> owner (set_client i (idle c) w) j b.
Proof.
  intros [Hq Harr Hcnt Hpop _ Huniq Hbusy Hcl Hcall Hprio Hwait] Hc. set (w' := set_client i _ w).
  assert (Hi : get_client i w' = Some (idle c)) by (by eapply get_set_client).
  assert (Hne : forall j, j <> i -> get_client j w' = get_client j w) by (intros; by apply get_set_client_ne).
  assert (Howner : forall j b, owner w' j b <-> owner w j b).
  { intros j b. unfold owner. destruct (decide (j = i)) as [-> | Hj]; [| by rewrite Hne]. rewrite Hi, Hc. split; by intros (? & [= <-] & ?). }
  split; [| intros; by apply Howner]. split; try done.
  - cbn. by rewrite length_insert.
  - intros b. change (is_popped w' b) with (is_popped w b). setoid_rewrite Howner. by rewrite Hpop.
  - intros j k b. rewrite !Howner. apply Huniq.
  - intros j cj Hj. destruct (decide (j = i)) as [-> | Hji].
    + rewrite Hi in Hj. injection Hj as <-. cbn. split; [done |]. by intros [[? ?] | ?].
    + rewrite Hne in Hj by done. rewrite (Hbusy j cj Hj). split; (intros [? | ?]; [by left | congruence]).
  - intros j cj Hj. destruct (decide (j = i)) as [-> | Hji]; [| rewrite Hne in Hj by done; by apply (Hcl j)].
    rewrite Hi in Hj. injection Hj as <-. cbn. split; [by intros [? | ?] | done].
Qed.
End Tasks.

(** ** Replies *)

Section Reply.
Context {T : Type} `{!Table (list Z) addr T, !TableSpec (list Z) addr T}.
Notation brain := (replicator_brain T).
Notation lookups w := (active (sync_lookups (queue w))).
Implicit Types w : brain.
Context {o : bool}.
Variable now : Z.
Variable connects : nat -> bool.

(** What a reply does to the users. *)
Definition reply_users (reply : dsync_reply) (st : list Z) (a : addr) (us : gmap addr replicator_user) : gmap addr replicator_user :=
  match reply with
  | DSYNC_REPLY_NOUSER => delete a us
  | _ => alter (fun u => set_popped false (set_replied now reply st u)) a us
  end.

(** Nobody waits for another replication of the user. *)
Definition no_waiting w (a : addr) : Prop := forall x, x ∈ lookups w -> wait_for_next_push x = true -> lk_user x <> a.

Lemma alter_alter (f g : replicator_user -> replicator_user) a (us : gmap addr replicator_user) :
  alter f a (alter g a us) = alter (fun u => f (g u)) a us.
Proof.
  apply map_eq. intros b. destruct (decide (b = a)) as [-> | Hb]; [| by rewrite !lookup_alter_ne].
  rewrite !lookup_alter_eq. by destruct (us !! a).
Qed.

(** The first part of the callback. *)
Lemma reply_push eb w reply st a :
  binv o eb (Some a) w -> reply <> DSYNC_REPLY_NOUSER ->
  match push_user (set_queue (update_user (queue w) a (set_replied now reply st)) w) a with
  | None => lookups w <> []
  | Some w1 => filled (o := o) now eb (set_queue (with_users (queue w) (reply_users reply st a (users (queue w)))) w) w1 /\ users (queue w1) = reply_users reply st a (users (queue w))
  end.
Proof.
  intros Hb Hr. destruct (proj2 (b_popped _ _ w Hb a) (or_intror eq_refl)) as (u & Hu & Hp).
  assert (Hb1 : binv o eb (Some a) (set_queue (update_user (queue w) a (set_replied now reply st)) w)).
  { apply (update_loose eb w a _ u); [done | done | done | done |]. intros x Hx Hw E. cbn.
    destruct (b_waiting _ _ w Hb x Hx Hw) as (u' & Hu' & _ & Hpr). congruence. }
  pose proof (push_binv eb _ a Hb1) as Hpush. destruct (push_user _ a) as [w1|]; [| exact (hangs_lookups _ Hpush)].
  destruct Hpush as (Hb2 & Hcl & Hset & _ & Hde & Hus & Hl). cbn in Hus. rewrite alter_alter in Hus.
  assert (Hus1 : users (queue w1) = reply_users reply st a (users (queue w))) by (by destruct reply).
  split; [| done]. unfold filled. splits; [done | by apply frame_refl | by apply progress_refl | exact Hl].
Qed.

Lemma reply_remove eb w a :
  binv o eb (Some a) w -> no_waiting w a ->
  exists q, replicator_queue_remove (queue w) a = Some q /\ binv o eb None (set_queue q w) /\ users q = delete a (users (queue w)) /\
    sync_lookups q = sync_lookups (queue w).
Proof.
  intros [Hq Harr Hcnt Hpop Hloose Huniq Hbusy Hcl Hcall Hprio Hwait] Hnw. destruct (proj2 (Hpop a) (or_intror eq_refl)) as (u & Hu & Hp).
  destruct (remove_spec (queue w) a u Hq Hu) as (q & Heq & Hinv & Hus & Hl). exists q. splits; [done | | done | done].
  assert (Hs : same_but w (set_queue q w) a) by (intros b Hb; cbn; rewrite Hus; by apply lookup_delete_ne).
  split; cbn [set_queue queue]; try done.
  - by rewrite Hl.
  - intros b. destruct (decide (b = a)) as [-> | Hne].
    + split; [intros (u' & Hu' & _); cbn in Hu'; by rewrite Hus, lookup_delete_eq in Hu' | intros [[i Hi] | ?]; [by destruct (Hloose a i) | done]].
    + rewrite (is_popped_but w _ a b) by done. rewrite Hpop. split; [intros [? | [= ->]]; [by left | done] | intros [? | ?]; [by left | done]].
  - intros b ub Hb Hpb _. destruct (decide (b = a)) as [-> | Hne]; [by rewrite Hus, lookup_delete_eq in Hb |].
    apply (Hprio b ub); [by rewrite <- (Hs b Hne) | done | congruence].
  - rewrite Hl. intros x Hx Hw. destruct (Hwait x Hx Hw) as (ux & Hux & ?). exists ux.
    rewrite Hus, lookup_delete_ne; [done |]. intros E. by apply (Hnw x Hx Hw).
Qed.

(** The whole callback. *)
Lemma brain_callback_spec eb w reply st a :
  binv o eb (Some a) w -> (reply = DSYNC_REPLY_NOUSER -> no_waiting w a) ->
  match brain_callback now connects w reply st a with
  | None => lookups w <> []
  | Some w' => binv o eb None w' /\ frame w w' /\ progress now (reply_users reply st a (users (queue w))) w' /\
      (lookups w = [] -> lookups w' = []) /\ (deinitializing w = false -> settled now w')
  end.
Proof.
  intros Hb Hnw. destruct (proj2 (b_popped _ _ w Hb a) (or_intror eq_refl)) as (u & Hu & Hp).
  unfold brain_callback. rewrite Hu. cbn [mbind option_bind]. set (us := reply_users reply st a (users (queue w))).
  assert (Hend : forall w1, binv o eb None w1 -> frame w w1 -> progress now us w1 -> (lookups w = [] -> lookups w1 = []) ->
    match (if negb (deinitializing w1) then replicator_brain_fill now connects w1 else Some w1) with
    | None => lookups w <> []
    | Some w' => binv o eb None w' /\ frame w w' /\ progress now us w' /\ (lookups w = [] -> lookups w' = []) /\ (deinitializing w = false -> settled now w')
    end).
  { intros w1 Hb1 Hf1 Hp1 Hl1. assert (Hd : deinitializing w1 = deinitializing w) by apply Hf1.
    destruct (deinitializing w1) eqn:Hdw; cbn [negb]; [splits; try done; congruence |].
    pose proof (fill_spec now connects eb w1 Hb1) as Hfill. destruct (replicator_brain_fill now connects w1) as [w2|]; [| intros E; apply (hangs_lookups _ Hfill); by auto].
    destruct Hfill as ((Hb2 & Hf2 & Hp2 & Hl2) & Hset). splits; [done | by eapply frame_trans | by eapply progress_trans | by auto | done]. }
  assert (Hpush : reply <> DSYNC_REPLY_NOUSER ->
    match (w1 ← push_user (set_queue (update_user (queue w) a (set_replied now reply st)) w) a;
           if negb (deinitializing w1) then replicator_brain_fill now connects w1 else Some w1) with
    | None => lookups w <> []
    | Some w' => binv o eb None w' /\ frame w w' /\ progress now us w' /\ (lookups w = [] -> lookups w' = []) /\ (deinitializing w = false -> settled now w')
    end).
  { intros Hr. pose proof (reply_push eb w reply st a Hb Hr) as H. destruct (push_user _ a) as [w1|]; [| exact H]. cbn [mbind option_bind].
    destruct H as ((Hb1 & Hf1 & _ & Hl1) & Hus). apply Hend; [done | exact Hf1 | by apply progress_refl | exact Hl1]. }
  destruct reply; [by apply Hpush | by apply Hpush |]. clear Hpush.
  destruct (reply_remove eb w a Hb (Hnw eq_refl)) as (q & -> & Hbq & Husq & Hlq). cbn [mbind option_bind]. unfold replicator_brain_queue_changed.
  pose proof (fill_spec now connects eb _ Hbq) as Hfill.
  destruct (replicator_brain_fill now connects (set_queue q w)) as [w1|]; [| apply hangs_lookups in Hfill; cbn in Hfill; by rewrite Hlq in Hfill]. cbn [mbind option_bind].
  destruct Hfill as [(Hb1 & Hf1 & Hp1 & Hl1) _]. apply Hend; [done | exact Hf1 | | ].
  - cbn in Hp1. by rewrite Husq in Hp1.
  - cbn in Hl1. by rewrite Hlq in Hl1.
Qed.
End Reply.
