(* ===== verification/ReplicatorService.v ===== *)
(** * The replicator's clients (src/src/replication/replicator/notify-connection.c,
      doveadm-connection.c, replicator-queue-auth.c, replicator.c, src/src/replication/replication-common.h)

    The commands that change or show the state of the replicator, and its start.  A handler
    gets the line or the arguments it has read and returns the new state, what
    it sends and whether the connection is kept; [None] is a failed assertion,
    a read or write outside of an array, or the use of a null pointer.
    [version_string_verify] of src/src/lib-master/master-service.c guards the
    notify connections. *)

From stdpp Require Import gmap.
From S2P Require Import Prelude Strnum Strescape WildcardMatch Table ReplicatorQueue ReplicatorSync ReplicatorDb DsyncClient ReplicatorBrain.

(** ** Priorities *)

Definition replicator_priority_to_str (priority : Z) : option (list Z) :=
  if priority =? REPLICATION_PRIORITY_NONE then Some (str "none")
  else if priority =? REPLICATION_PRIORITY_LOW then Some (str "low")
  else if priority =? REPLICATION_PRIORITY_HIGH then Some (str "high")
  else if priority =? REPLICATION_PRIORITY_SYNC then Some (str "sync")
  else None.

Definition replication_priority_parse (s : list Z) : option Z :=
  if bool_decide (s = str "none") then Some REPLICATION_PRIORITY_NONE
  else if bool_decide (s = str "low") then Some REPLICATION_PRIORITY_LOW
  else if bool_decide (s = str "high") then Some REPLICATION_PRIORITY_HIGH
  else if bool_decide (s = str "sync") then Some REPLICATION_PRIORITY_SYNC
  else None.

(** ** Versions *)

(** The minor version, [None] for FALSE. *)
Definition version_string_verify_full (line service_name : list Z) (major_version : Z) : option Z :=
  if negb (bool_decide (take 8 line = str "VERSION" ++ [9])) then None
  else
    let line := drop 8 line in
    let len := length service_name in
    if negb (bool_decide (take len line = service_name)) || negb (at0 line len =? 9) then None
    else
      let line := drop (S len) line in
      match span_until (fun p => p =? 9) line with
      | (major, _ :: minor) =>
          minor_version ← str_to_uint minor;
          if str_uint_equals major major_version then Some minor_version else None
      | (_, []) => None
      end.

Definition version_string_verify (line service_name : list Z) (major_version : Z) : bool :=
  if version_string_verify_full line service_name major_version then true else false.

Section Code.
Context {T : Type} `{!Table (list Z) addr T}.
Notation brain := (replicator_brain T).
Implicit Types w : brain.

Variable now : Z.
Variable connects : nat -> bool.
(** The address of the next new user. *)
Variable alloc : gmap addr replicator_user -> addr.

(** ** Notify connections *)

Section Notify.
(** [request id] is the request that is allocated for the sync [id]. *)
Variable request : Z -> Z.

Definition notify_connection_input_line w (line : list Z) : option (brain * bool) :=
  args ← t_strsplit_tabescaped line;
  if (length args <? 2)%nat then Some (w, false)
  else if negb (bool_decide (args !! 0%nat = Some (str "U"))) then Some (w, false)
  else
    (** A missing [args[2]] is NULL, which strcmp does not accept. *)
    prio ← args !! 2%nat;
    name ← args !! 1%nat;
    match replication_priority_parse prio with
    | None => Some (w, false)
    | Some priority =>
        if negb (priority =? REPLICATION_PRIORITY_SYNC) then
          '(w, _) ← brain_add now connects w name priority (alloc (users (queue w)));
          Some (w, true)
        else
          match (id ← args !! 3%nat; str_to_uint id) with
          | None => Some (w, false)
          | Some id =>
              w ← brain_add_sync now connects w name (request id) (alloc (users (queue w)));
              Some (w, true)
          end
    end.

Fixpoint notify_lines w (lines : list (list Z)) : option (brain * bool) :=
  match lines with
  | [] => Some (w, true)
  | line :: lines =>
      '(w, ok) ← notify_connection_input_line w line;
      if (ok : bool) then notify_lines w lines else Some (w, false)
  end.

(** The lines that can be read; also returns [version_received] and whether
    the connection is kept. *)
Definition notify_connection_input w (version_received : bool) (lines : list (list Z)) : option (brain * bool * bool) :=
  if version_received then
    '(w, ok) ← notify_lines w lines;
    Some (w, true, ok)
  else
    match lines with
    | [] => Some (w, false, true)
    | line :: lines =>
        if negb (version_string_verify line (str "replicator-notify") 1) then Some (w, false, false)
        else
          '(w, ok) ← notify_lines w lines;
          Some (w, true, ok)
    end.
End Notify.

(** What [notify_sync_callback] sends for the request with this id. *)
Definition notify_sync_callback (success : bool) (id : Z) : list Z :=
  (if success then 43 else 45) :: 9 :: printf_d id ++ [10].

(** ** Doveadm connections *)

(** Changes of a user's fields behind the queue's back. *)
Definition write_user w (a : addr) (f : replicator_user -> replicator_user) : option brain :=
  _ ← users (queue w) !! a;
  Some (set_queue (update_user (queue w) a f) w).

Definition set_force_full_sync (u : replicator_user) : replicator_user :=
  User (username u) (state u) (last_update u) (last_fast_sync u) (last_full_sync u) (last_successful_sync u) (priority u) (popped u)
    (last_sync_failed u) true.

Definition set_last_update (t : Z) (u : replicator_user) : replicator_user :=
  User (username u) (state u) t (last_fast_sync u) (last_full_sync u) (last_successful_sync u) (priority u) (popped u)
    (last_sync_failed u) (force_full_sync u).

(** [pending_counts] of every priority, the counts of failed, full resync and
    waiting users, and the number of users. *)
Record overview := Overview { pending_counts : list Z; pending_failed : Z; pending_full : Z; waiting_failed : Z; user_count : Z }.

Definition count_user w (o : overview) (u : replicator_user) : option overview :=
  let o := Overview (pending_counts o) (pending_failed o) (pending_full o) (waiting_failed o) (user_count o + 1) in
  if negb (priority u =? REPLICATION_PRIORITY_NONE) then
    n ← pending_counts o !! Z.to_nat (priority u);
    Some (Overview (<[Z.to_nat (priority u) := n + 1]> (pending_counts o)) (pending_failed o) (pending_full o) (waiting_failed o) (user_count o))
  else if (replicator_queue_want_sync_now (queue w) u now).1 then
    if last_sync_failed u then Some (Overview (pending_counts o) (pending_failed o + 1) (pending_full o) (waiting_failed o) (user_count o))
    else Some (Overview (pending_counts o) (pending_failed o) (pending_full o + 1) (waiting_failed o) (user_count o))
  else if last_sync_failed u then Some (Overview (pending_counts o) (pending_failed o) (pending_full o) (waiting_failed o + 1) (user_count o))
  else Some o.

Fixpoint count_users w (o : overview) (l : list addr) : option overview :=
  match l with
  | [] => Some o
  | a :: l => u ← users (queue w) !! a; o ← count_user w o u; count_users w o l
  end.

Definition client_input_status_overview w : option (overview * brain) :=
  '(l, q) ← replicator_queue_iter (queue w);
  let w := set_queue q w in
  o ← count_users w (Overview [0; 0; 0; 0] 0 0 0 0) l;
  Some (o, w).

(** The line of a user in the status. *)
Definition status_line (u : replicator_user) : option (list Z) :=
  p ← replicator_priority_to_str (priority u);
  Some (str_append_tabescaped [] (username u) ++ 9 :: p ++ 9 :: printf_d (last_fast_sync u) ++ 9 :: printf_d (last_full_sync u) ++
    9 :: printf_d (if last_sync_failed u then 1 else 0) ++ 9 :: printf_d (last_successful_sync u) ++ [10]).

Fixpoint status_lines w (mask : list Z) (l : list addr) : option (list Z) :=
  match l with
  | [] => Some []
  | a :: l =>
      u ← users (queue w) !! a;
      m ← wildcard_match (username u) mask;
      if negb m then status_lines w mask l
      else line ← status_line u; rest ← status_lines w mask l; Some (line ++ rest)
  end.

Definition client_input_status w (mask : list Z) : option (list Z * brain) :=
  '(l, q) ← replicator_queue_iter (queue w);
  out ← status_lines (set_queue q w) mask l;
  Some (out ++ [10], set_queue q w).

Definition has_wildcard (s : list Z) : bool := existsb (fun c => (c =? 42) || (c =? 63)) s.

(** The users that match are added again, one after the other. *)
Fixpoint replicate_users w (mask : list Z) (prio : Z) (full : bool) (l : list addr) (match_count : Z) : option (brain * Z) :=
  match l with
  | [] => Some (w, match_count)
  | a :: l =>
      u ← users (queue w) !! a;
      m ← wildcard_match (username u) mask;
      if negb m then replicate_users w mask prio full l match_count
      else
        '(w, a) ← brain_add now connects w (username u) prio (alloc (users (queue w)));
        w ← (if full then write_user w a set_force_full_sync else Some w);
        replicate_users w mask prio full l (match_count + 1)
  end.

Definition client_input_replicate w (args : list (list Z)) : option (brain * list Z * bool) :=
  match args with
  | [p; flags; usermask] =>
      match replication_priority_parse p with
      | None => Some (w, str "-Invalid priority" ++ [10], true)
      | Some prio =>
          let full := existsb (fun c => c =? 102) flags in
          if negb (has_wildcard usermask) then
            '(w, a) ← brain_add now connects w usermask prio (alloc (users (queue w)));
            w ← (if full then write_user w a set_force_full_sync else Some w);
            Some (w, str "+1" ++ [10], true)
          else
            '(l, q) ← replicator_queue_iter (queue w);
            '(w, n) ← replicate_users (set_queue q w) usermask prio full l 0;
            Some (w, 43 :: printf_d n ++ [10], true)
      end
  | _ => Some (w, [], false)
  end.

(** [auth_users] are the users that the auth server lists for the mask. *)
Fixpoint replicator_queue_add_auth_users w (auth_users : list (list Z)) (last_update : Z) : option brain :=
  match auth_users with
  | [] => Some w
  | username :: auth_users =>
      '(w, a) ← brain_add now connects w username REPLICATION_PRIORITY_NONE (alloc (users (queue w)));
      w ← write_user w a (set_last_update last_update);
      replicator_queue_add_auth_users w auth_users last_update
  end.

Definition client_input_add w (auth_users : list Z -> list (list Z)) (args : list (list Z)) : option (brain * list Z * bool) :=
  match args with
  | [usermask] =>
      w ← (if negb (has_wildcard usermask) then
             '(w, _) ← brain_add now connects w usermask REPLICATION_PRIORITY_NONE (alloc (users (queue w))); Some w
           else replicator_queue_add_auth_users w (auth_users usermask) now);
      Some (w, str "+" ++ [10], true)
  | _ => Some (w, [], false)
  end.

Definition client_input_remove w (args : list (list Z)) : option (brain * list Z * bool) :=
  match args with
  | [username] =>
      user ← replicator_queue_lookup (queue w) username;
      match user with
      | None => Some (w, str "-User not found" ++ [10], true)
      | Some a => w ← brain_remove now connects w a; Some (w, str "+" ++ [10], true)
      end
  | _ => Some (w, [], false)
  end.

Definition set_notified (flags st : list Z) (u : replicator_user) : replicator_user :=
  User (username u) (match st with [] => state u | _ => Some st end) now now (if at0 flags 0 =? 102 then now else last_full_sync u)
    (last_successful_sync u) (priority u) (popped u) (last_sync_failed u) (force_full_sync u).

Definition client_input_notify w (args : list (list Z)) : option (brain * list Z * bool) :=
  match args with
  | username :: flags :: st :: _ =>
      '(w, a) ← brain_add now connects w username REPLICATION_PRIORITY_NONE (alloc (users (queue w)));
      w ← write_user w a (set_notified flags st);
      Some (w, str "+" ++ [10], true)
  | _ => Some (w, [], false)
  end.

(** The line of a dsync client in the status. *)
Definition status_dsync_line (path : list Z) (c : dsync_client addr) : list Z :=
  match dsync_client_get_username c with
  | Some username =>
      str_append_tabescaped [] username ++ 9 ::
      match dsync_client_get_type c with
      | DSYNC_TYPE_FULL => str "full"
      | DSYNC_TYPE_NORMAL => str "normal"
      | DSYNC_TYPE_INCREMENTAL => str "incremental"
      end
  | None => 9 :: str "-"
  end ++ 9 :: str_append_tabescaped [] (dsync_client_get_state c path now printf_d) ++ [10].

Definition client_input_status_dsyncs w (path : list Z) : list Z :=
  concat (map (status_dsync_line path) (dsync_clients w)) ++ [10].

(** The overview as it is sent. *)
Definition print_overview (o : overview) : list Z :=
  let pending name p := str "Queued '" ++ name ++ str "' requests" ++ 9 :: printf_d (nth p (pending_counts o) 0) ++ [10] in
  pending (str "sync") 3%nat ++ pending (str "high") 2%nat ++ pending (str "low") 1%nat ++
  str "Queued 'failed' requests" ++ 9 :: printf_d (pending_failed o) ++ 10 ::
  str "Queued 'full resync' requests" ++ 9 :: printf_d (pending_full o) ++ 10 ::
  str "Waiting 'failed' requests" ++ 9 :: printf_d (waiting_failed o) ++ 10 ::
  str "Total number of known users" ++ 9 :: printf_d (user_count o) ++ [10; 10].

Definition client_input_args w (path : list Z) (auth_users : list Z -> list (list Z)) (args : list (list Z)) : option (brain * list Z * bool) :=
  match args with
  | [] => Some (w, [], true)
  | cmd :: args =>
      if bool_decide (cmd = str "STATUS") then
        match args with
        | [] => '(o, w) ← client_input_status_overview w; Some (w, print_overview o, true)
        | mask :: _ => '(out, w) ← client_input_status w mask; Some (w, out, true)
        end
      else if bool_decide (cmd = str "STATUS-DSYNC") then Some (w, client_input_status_dsyncs w path, true)
      else if bool_decide (cmd = str "REPLICATE") then client_input_replicate w args
      else if bool_decide (cmd = str "ADD") then client_input_add w auth_users args
      else if bool_decide (cmd = str "REMOVE") then client_input_remove w args
      else if bool_decide (cmd = str "NOTIFY") then client_input_notify w args
      else Some (w, [], false)
  end.

(** ** The service (replicator.c) *)

Definition REPLICATOR_FAILURE_RESYNC_INTERVAL_SECS : Z := 60 * 5.

(** [replicator_queue_add_auth_users] before the brain has set its change
    callback. *)
Fixpoint start_auth_users (q : replicator_queue T) (auth_users : list (list Z)) (last_update : Z) : option (replicator_queue T) :=
  match auth_users with
  | [] => Some q
  | username :: auth_users =>
      '(q, a) ← replicator_queue_add q username REPLICATION_PRIORITY_NONE now (alloc (users q));
      _ ← users q !! a;
      start_auth_users (update_user q a (set_last_update last_update)) auth_users last_update
  end.

(** [file] is the contents of the database, [None] when there is none. *)
Definition replication_add_users (q : replicator_queue T) (auth_users : list (list Z)) (file : option (list Z)) : option (replicator_queue T) :=
  q ← start_auth_users q auth_users 0;
  '(q, _) ← replicator_queue_import alloc q file now;
  Some q.

(** [hash] is the new table of the queue. *)
Definition main_init (hash : T) (set : replicator_settings) (auth_users : list (list Z)) (file : option (list Z)) : option brain :=
  let q := replicator_queue_init hash (replication_full_sync_interval set) REPLICATOR_FAILURE_RESYNC_INTERVAL_SECS in
  q ← replication_add_users q auth_users file;
  replicator_brain_init now connects q set.

(** The contents of the database that is written. *)
Definition replicator_dump_timeout w : option (list Z * brain) :=
  '(data, q) ← replicator_queue_export (queue w);
  Some (data, set_queue q w).
End Code.
