(* ===== verification/ReplicatorEvents.v ===== *)
(** * The replicator's events

    The invariant of ReplicatorBrainProps.v for the handlers of
    ReplicatorService.v, for the input and the timeouts of the dsync clients,
    for the brain's timeout and the dump of the database, and for every state
    that the replicator reaches from its start by them.  The order of the queue
    is a part of the invariant that reading a database and NOTIFY give up; the
    rest is kept by every event but the removal of a user that is being
    replicated. *)

From stdpp Require Import gmap.
From S2P Require Import Prelude Strnum Strescape WildcardMatch Priorityq Table ReplicatorQueue ReplicatorQueueProps.
From S2P Require Import ReplicatorSync ReplicatorDb DsyncClient ReplicatorBrain ReplicatorBrainProps ReplicatorService.

Section Changes.
Context {T : Type} `{!Table (list Z) addr T, !TableSpec (list Z) addr T}.
Notation brain := (replicator_brain T).
Notation lookups w := (active (sync_lookups (queue w))).
Implicit Types w : brain.
Variable now : Z.
Variable connects : nat -> bool.
Context {o : bool}.

(** ** Changes of the queue *)

(** The state after the queue was changed and the clients were filled. *)
Definition changed w (us : gmap addr replicator_user) (r : option brain) : Prop :=
  match r with
  | None => hangs w
  | Some w' => binv o None None w' /\ frame w w' /\ progress now us w' /\ (lookups w = [] -> lookups w' = []) /\ settled now w'
  end.

Lemma changed_fill w q :
  binv o None None (set_queue q w) -> sync_lookups q = sync_lookups (queue w) ->
  changed w (users q) (replicator_brain_queue_changed now connects (set_queue q w)).
Proof.
  intros Hb Hl. unfold replicator_brain_queue_changed, changed. pose proof (fill_spec now connects None _ Hb) as Hf.
  unfold hangs in *. cbn [set_queue queue] in Hf. rewrite Hl in Hf. destruct (replicator_brain_fill now connects (set_queue q w)) as [w'|]; [| exact Hf].
  destruct Hf as ((Hb' & Hf & Hp & Hl') & Hs). cbn in Hl'. rewrite Hl in Hl'. splits; [done | exact Hf | exact Hp | by auto | done].
Qed.

(** Adding a user. *)
Lemma add_binv w name prio new :
  binv o None None w -> prio <= REPLICATION_PRIORITY_SYNC -> users (queue w) !! new = None ->
  exists q a, replicator_queue_add_int (queue w) name prio now new = Some (q, a) /\ binv o None None (set_queue q w) /\
    sync_lookups q = sync_lookups (queue w) /\ users q = <[a := added_user (users (queue w) !! a) name prio now]> (users (queue w)) /\
    table_get (user_hash q) name = Some a.
Proof.
  intros [Hq Harr Hcnt Hpop Hloose Huniq Hbusy Hcl Hcall Hprio Hwait] Hpr Hnew.
  destruct (add_int_spec (queue w) name prio now new Hq Hnew) as (q & a & Heq & Hinv & Hu & [Ho _] & Hl & Hget & _).
  set (u' := added_user (users (queue w) !! a) name prio now) in *.
  assert (Hus : users q = <[a := u']> (users (queue w))).
  { apply map_eq. intros b. destruct (decide (b = a)) as [-> | Hne]; [by rewrite lookup_insert_eq | by rewrite lookup_insert_ne, Ho by done]. }
  exists q, a. splits; [done | | done | done | done].
  assert (Hpu : popped u' = true -> exists u, users (queue w) !! a = Some u /\ popped u = true /\ (u' = u \/ u' = set_priority prio now u)).
  { unfold u', added_user. destruct (users (queue w) !! a) as [u|]; [| done]. destruct (priority u >? prio); intros; exists u; splits; try done; [by left | by right]. }
  assert (Hup : forall u, users (queue w) !! a = Some u -> popped u' = popped u).
  { intros u E. unfold u', added_user. rewrite E. by destruct (priority u >? prio). }
  split; cbn [set_queue queue]; try done.
  - by rewrite Hl.
  - intros b. etransitivity; [| exact (Hpop b)]. unfold is_popped. cbn [set_queue queue]. rewrite Hus. destruct (decide (b = a)) as [-> | Hne]; [| by rewrite lookup_insert_ne].
    rewrite lookup_insert_eq. split.
    + intros (u & [= <-] & Hp). destruct (Hpu Hp) as (u & ? & ? & _). by exists u.
    + intros (u & E & Hp). exists u'. split; [done | by rewrite (Hup u E)].
  - intros b u. rewrite Hus. destruct (decide (b = a)) as [-> | Hne]; [| rewrite lookup_insert_ne by done; by apply Hprio].
    rewrite lookup_insert_eq. intros [= <-] Hp _. destruct (Hpu Hp) as (u & E & Hpu' & [-> | ->]); [by apply (Hprio a u) | done].
  - rewrite Hl, Hus. intros x Hx Hw. destruct (Hwait x Hx Hw) as (u & Hxu & Hp & Hpx). destruct (decide (lk_user x = a)) as [E | Hne].
    + rewrite E in *. rewrite lookup_insert_eq. exists u'. splits; [done | by rewrite (Hup u) | ].
      unfold u', added_user. rewrite Hxu. destruct (Z.gtb_spec (priority u) prio); [done |]. cbn. unfold REPLICATION_PRIORITY_SYNC in *. lia.
    + rewrite lookup_insert_ne by done. by exists u.
Qed.

Lemma brain_add_spec w name prio new :
  binv o None None w -> prio <= REPLICATION_PRIORITY_SYNC -> users (queue w) !! new = None ->
  exists a, changed w (<[a := added_user (users (queue w) !! a) name prio now]> (users (queue w))) (fst <$> brain_add now connects w name prio new) /\
    forall w' b, brain_add now connects w name prio new = Some (w', b) -> b = a.
Proof.
  intros Hb Hpr Hnew. destruct (add_binv w name prio new Hb Hpr Hnew) as (q & a & Heq & Hbq & Hl & Hus & _).
  exists a. unfold brain_add, replicator_queue_add. rewrite Heq. cbn [mbind option_bind]. rewrite <- Hus.
  pose proof (changed_fill w q Hbq Hl) as Hc. destruct (replicator_brain_queue_changed now connects (set_queue q w)) as [w'|]; [| done].
  cbn. split; [exact Hc | by intros w2 b [= <- <-]].
Qed.

(** A synchronous request. *)
Lemma brain_add_sync_spec w name cb new :
  binv o None None w -> users (queue w) !! new = None ->
  match brain_add_sync now connects w name cb new with
  | None => True
  | Some w' => binv o None None w' /\ frame w w' /\ settled now w'
  end.
Proof.
  intros Hb Hnew. destruct (add_binv w name REPLICATION_PRIORITY_SYNC new Hb ltac:(lia) Hnew) as (q & a & Heq & Hbq & Hl & Hus & _).
  unfold brain_add_sync, replicator_queue_add_sync. rewrite Heq. cbn [mbind option_bind].
  assert (Ha : exists u, users q !! a = Some u) by (rewrite Hus, lookup_insert_eq; by eexists). destruct Ha as [u Hu]. rewrite Hu. cbn [mbind option_bind].
  set (x := Lookup a cb (popped u)). destruct (active_append (sync_lookups q) x) as [Harr Hact]; [apply Hbq |].
  assert (Hb' : binv o None None (set_queue (with_lookups q (lookups_append (sync_lookups q) x)) w)).
  { destruct Hbq as [Hq' Harr' Hcnt Hpop Hloose Huniq Hbusy Hcl Hcall Hprio Hwait]. split; try done; [by apply with_lookups_inv |].
    cbn [set_queue queue with_lookups sync_lookups]. rewrite Hact. intros y [Hy | ->%list_elem_of_singleton]%elem_of_app; [by apply Hwait |]. cbn. intros Hp. exists u. splits; [done | done |].
    assert (Hle : priority u <= REPLICATION_PRIORITY_SYNC) by (by apply (Hprio a u)).
    rewrite Hus, lookup_insert_eq in Hu. injection Hu as <-. unfold added_user in *. unfold REPLICATION_PRIORITY_SYNC in *.
    destruct (users (queue w) !! a) as [u0|]; [| done]. destruct (Z.gtb_spec (priority u0) 3); [lia | done]. }
  pose proof (fill_spec now connects None _ Hb') as Hf. unfold replicator_brain_queue_changed.
  destruct (replicator_brain_fill now connects _) as [w'|]; [| done]. destruct Hf as ((? & Hf & _) & ?). splits; [done | exact Hf | done].
Qed.

(** Removing a user that is not being replicated. *)
Lemma brain_remove_spec w a u :
  binv o None None w -> users (queue w) !! a = Some u -> popped u = false ->
  changed w (delete a (users (queue w))) (brain_remove now connects w a).
Proof.
  intros [Hq Harr Hcnt Hpop Hloose Huniq Hbusy Hcl Hcall Hprio Hwait] Hu Hp.
  destruct (remove_spec (queue w) a u Hq Hu) as (q & Heq & Hinv & Hus & Hl). unfold brain_remove. rewrite Heq. cbn [mbind option_bind]. rewrite <- Hus.
  apply changed_fill; [| done]. assert (Hno : ~ is_popped w a) by (intros (u' & ? & ?); congruence).
  assert (Hs : same_but w (set_queue q w) a) by (intros b Hb; cbn; rewrite Hus; by apply lookup_delete_ne).
  split; cbn [set_queue queue]; try done.
  - by rewrite Hl.
  - intros b. etransitivity; [| exact (Hpop b)]. destruct (decide (b = a)) as [-> | Hne]; [| by apply (is_popped_but _ _ a)].
    split; [intros (u' & Hu' & _); cbn in Hu'; by rewrite Hus, lookup_delete_eq in Hu' | done].
  - intros b ub Hb Hpb _. destruct (decide (b = a)) as [-> | Hne]; [by rewrite Hus, lookup_delete_eq in Hb |].
    apply (Hprio b ub); [by rewrite <- (Hs b Hne) | done | done].
  - rewrite Hl. intros x Hx Hw. destruct (Hwait x Hx Hw) as (ux & Hux & Hpx & ?). exists ux.
    rewrite Hus, lookup_delete_ne; [done |]. intros E. apply Hno. rewrite E. by exists ux.
Qed.

(** ** Writing to fields that nothing is ordered by *)

Definition neutral (f : replicator_user -> replicator_user) : Prop := forall u,
  username (f u) = username u /\ popped (f u) = popped u /\ priority (f u) = priority u /\ last_fast_sync (f u) = last_fast_sync u /\
  last_full_sync (f u) = last_full_sync u /\ last_sync_failed (f u) = last_sync_failed u.

Lemma neutral_cmp f us a x y : neutral f -> user_cmp (alter f a us) x y = user_cmp us x y.
Proof.
  intros Hf. assert (Hd : forall z, default (new_user []) (alter f a us !! z) = default (new_user []) (us !! z) \/
    default (new_user []) (alter f a us !! z) = f (default (new_user []) (us !! z))).
  { intros z. destruct (decide (z = a)) as [-> | Hne]; [| left; by rewrite lookup_alter_ne].
    rewrite lookup_alter_eq. destruct (us !! a); [by right | by left]. }
  unfold user_cmp. set (u1 := default _ (us !! x)). set (u2 := default _ (us !! y)).
  destruct (Hf u1) as (_ & _ & Hp1 & Hq1 & Hf1 & Hs1), (Hf u2) as (_ & _ & Hp2 & Hq2 & Hf2 & Hs2).
  destruct (Hd x) as [-> | ->], (Hd y) as [-> | ->]; fold u1 u2; unfold user_priority_cmp; by rewrite ?Hp1, ?Hq1, ?Hf1, ?Hs1, ?Hp2, ?Hq2, ?Hf2, ?Hs2.
Qed.

Lemma neutral_inv (q : replicator_queue T) a f : neutral f -> queue_inv o q -> queue_inv o (update_user q a f).
Proof.
  intros Hf [Ht Hn Hh Hq]. split; cbn [update_user with_users user_hash users user_queue]; [done | | |].
  - intros name b. rewrite Hn. destruct (decide (b = a)) as [-> | Hne]; [| by rewrite lookup_alter_ne]. rewrite lookup_alter_eq.
    destruct (users q !! a) as [u|]; cbn; [| done]. destruct (Hf u) as [Hnm _]. split; intros (u' & [= <-] & ?); eexists; (split; [done |]); congruence.
  - apply pq_kept_ext with (user_cmp (users q)); [| done]. intros. symmetry. by apply neutral_cmp.
  - intros b. rewrite Hq. unfold queued. cbn [users update_user with_users]. destruct (decide (b = a)) as [-> | Hne]; [| by rewrite lookup_alter_ne].
    rewrite lookup_alter_eq. destruct (users q !! a) as [u|]; cbn; [| done]. destruct (Hf u) as (_ & Hpp & _).
    split; intros (u' & [= <-] & ?); eexists; (split; [done |]); congruence.
Qed.

(** The fields that matter to a client that replicates the user. *)
Definition keeps_task (f : replicator_user -> replicator_user) : Prop := forall u,
  username (f u) = username u /\ popped (f u) = popped u /\ priority (f u) = priority u.

Lemma neutral_task f : neutral f -> keeps_task f.
Proof. intros Hf u. destruct (Hf u) as (? & ? & ? & _). done. Qed.

Lemma written_popped w a f b u' :
  keeps_task f -> users (update_user (queue w) a f) !! b = Some u' ->
  exists u, users (queue w) !! b = Some u /\ popped u' = popped u /\ priority u' = priority u.
Proof.
  intros Hf. cbn. destruct (decide (b = a)) as [-> | Hne]; [| rewrite lookup_alter_ne by done; by eauto]. rewrite lookup_alter_eq.
  destruct (users (queue w) !! a) as [u|]; [| done]. intros [= <-]. exists u. destruct (Hf u) as (_ & ? & ?). done.
Qed.

Lemma write_user_spec o' w a f :
  binv o None None w -> keeps_task f -> queue_inv o' (update_user (queue w) a f) -> is_Some (users (queue w) !! a) ->
  exists w', write_user w a f = Some w' /\ binv o' None None w' /\ sync_lookups (queue w') = sync_lookups (queue w) /\
    (forall b, is_Some (users (queue w') !! b) <-> is_Some (users (queue w) !! b)) /\ deinitializing w' = deinitializing w.
Proof.
  intros [_ Harr Hcnt Hpop Hloose Huniq Hbusy Hcl Hcall Hprio Hwait] Hf Hq [u Hu]. unfold write_user. rewrite Hu. cbn [mbind option_bind].
  eexists. splits; [done | | done | intros b; cbn; by rewrite lookup_alter_is_Some | done].
  assert (Hback : forall b v, users (queue w) !! b = Some v -> exists v', users (update_user (queue w) a f) !! b = Some v' /\ popped v' = popped v /\ priority v' = priority v).
  { intros b v Hv. cbn. destruct (decide (b = a)) as [-> | Hne]; [| rewrite lookup_alter_ne by done; by exists v].
    rewrite lookup_alter_eq, Hv. exists (f v). destruct (Hf v) as (_ & ? & ?). done. }
  split; cbn [set_queue queue]; try done.
  - intros b. etransitivity; [| exact (Hpop b)]. split.
    + intros (u' & Hu' & Hp). destruct (written_popped w a f b u' Hf Hu') as (v & ? & ? & _). exists v. split; [done | congruence].
    + intros (v & Hv & Hp). destruct (Hback b v Hv) as (v' & ? & ? & _). exists v'. split; [done | congruence].
  - intros b u' Hu' Hp Hne. destruct (written_popped w a f b u' Hf Hu') as (v & ? & ? & ->). apply (Hprio b v); congruence.
  - intros x Hx Hw. destruct (Hwait x Hx Hw) as (v & Hv & Hp & Hpr). destruct (Hback _ v Hv) as (v' & ? & ? & ?). exists v'. splits; congruence.
Qed.

(** What the iterator leaves behind. *)
Lemma iter_binv w : binv o None None w ->
  exists l q, replicator_queue_iter (queue w) = Some (l, q) /\ binv o None None (set_queue q w) /\
    users q = users (queue w) /\ sync_lookups q = sync_lookups (queue w) /\ forall a, a ∈ l <-> is_Some (users (queue w) !! a).
Proof.
  intros Hb. destruct (iter_spec (queue w) (b_queue _ _ w Hb)) as (l & q & Heq & Hinv & Hus & _ & Hin).
  assert (Hl : sync_lookups q = sync_lookups (queue w)).
  { unfold replicator_queue_iter in Heq. destruct (table_iterate _) as [[l0 t]|]; [| done]. by injection Heq as _ <-. }
  exists l, q. splits; [done | | done | done | done]. destruct Hb as [Hq Harr Hcnt Hpop Hloose Huniq Hbusy Hcl Hcall Hprio Hwait]. split; cbn [set_queue queue]; try done.
  - by rewrite Hl.
  - intros b. etransitivity; [| exact (Hpop b)]. unfold is_popped. cbn. by rewrite Hus.
  - by rewrite Hus.
  - by rewrite Hl, Hus.
Qed.
End Changes.

(** ** Input and timeouts of the dsync clients *)

Section ClientInput.
Context {T : Type} `{!Table (list Z) addr T, !TableSpec (list Z) addr T}.
Notation brain := (replicator_brain T).
Notation lookups w := (active (sync_lookups (queue w))).
Implicit Types w : brain.
Variable now : Z.
Variable connects : nat -> bool.
Context {o : bool}.

(** Nothing more can be started but on the client [i], which is not asked while
    it calls back. *)
Definition settled_but w (i : nat) : Prop :=
  (exists secs, replicator_queue_pop (queue w) now = Some (queue w, inr secs) /\ timeout w = Some (u32 (secs * 1000))) \/
  (length (dsync_clients w) = replication_max_conns (settings w) /\ forall j c, get_client j w = Some c -> j <> i -> cmd_sent c = true).

(** The state after the client [i] has called back for the user at [a]. *)
Definition replied w i a (r : dsync_reply * list Z) (res : option brain) : Prop :=
  match res with
  | None => lookups w <> []
  | Some w' => binv o None None w' /\ progress now (reply_users now r.1 r.2 a (users (queue w))) w' /\
      (forall j b, owner w j b -> j <> i -> owner w' j b) /\ (lookups w = [] -> lookups w' = []) /\ deinitializing w' = deinitializing w /\
      (deinitializing w = false -> settled_but w' i)
  end.

Lemma called_spec w i c a r :
  binv o None None w -> get_client i w = Some c -> callback c = Some a -> (r.1 = DSYNC_REPLY_NOUSER -> no_waiting w a) ->
  replied w i a r (called (set_client i) (brain_callback now connects) w c a r).
Proof.
  intros Hb Hc Hcb Hnw. destruct (take_task w i c a Hb Hc Hcb) as [Hb1 Ho1]. set (w1 := set_client i (called_back (dsync_close c)) w) in *.
  assert (Hc1 : get_client i w1 = Some (called_back (dsync_close c))) by (by eapply get_set_client).
  unfold called. fold w1. pose proof (brain_callback_spec now connects (Some i) w1 r.1 r.2 a Hb1 Hnw) as Hcall.
  destruct (brain_callback now connects w1 r.1 r.2 a) as [w2|]; [| exact Hcall]. cbn [mbind option_bind].
  destruct Hcall as (Hb2 & (Hs2 & Hd2 & Ho2 & Hg2) & Hp2 & Hl2 & Hset2).
  assert (Hc2 : get_client i w2 = Some (called_back (dsync_close c))) by (by apply Hg2).
  destruct (finish_task w2 i c Hb2 Hc2) as [Hb3 Ho3]. unfold replied. splits; [done | | | exact Hl2 | exact Hd2 |].
  - intros b. specialize (Hp2 b). change (users (queue w1)) with (users (queue w)) in Hp2. cbn [set_client set_clients queue]. destruct (reply_users now r.1 r.2 a (users (queue w)) !! b), (users (queue w2) !! b); try done.
    destruct Hp2 as (? & ? & [? | [[j Hj] ?]]); splits; try done; [by left | right; split; [exists j; by apply Ho3 | done]].
  - intros j b Hj Hne. apply Ho3, Ho2. by destruct (Ho1 j b Hj) as [[? _] | ?].
  - intros Hd. destruct (Hset2 Hd) as [H | [Hlen Hall]]; [by left | right]. split; [cbn; by rewrite length_insert |].
    intros j cj Hj Hne. rewrite get_set_client_ne in Hj by done. apply Hall. by eapply list_elem_of_lookup_2.
Qed.

(** A client that only reads. *)
Lemma same_task_binv w i c c' :
  binv o None None w -> get_client i w = Some c -> same_task c c' -> binv o None None (set_client i c' w).
Proof.
  intros [Hq Harr Hcnt Hpop Hloose Huniq Hbusy Hcl Hcall Hprio Hwait] Hc (Hcb & Hcs & Hfd & Hto & _). set (w' := set_client i c' w).
  assert (Hi : get_client i w' = Some c') by (by eapply get_set_client).
  assert (Hne : forall j, j <> i -> get_client j w' = get_client j w) by (intros; by apply get_set_client_ne).
  assert (Howner : forall j b, owner w' j b <-> owner w j b).
  { intros j b. unfold owner. destruct (decide (j = i)) as [-> | Hj]; [| by rewrite Hne]. rewrite Hi, Hc.
    split; intros (? & [= <-] & ?); eexists; (split; [done | congruence]). }
  split; try done.
  - cbn. by rewrite length_insert.
  - intros b. change (is_popped w' b) with (is_popped w b). setoid_rewrite Howner. apply Hpop.
  - intros j k b. rewrite !Howner. apply Huniq.
  - intros j cj Hj. destruct (decide (j = i)) as [-> | Hji]; [| rewrite Hne in Hj by done; by apply (Hbusy j)].
    rewrite Hi in Hj. injection Hj as <-. rewrite Hcs, Hcb. by apply (Hbusy i).
  - intros j cj Hj. destruct (decide (j = i)) as [-> | Hji]; [| rewrite Hne in Hj by done; by apply (Hcl j)].
    rewrite Hi in Hj. injection Hj as <-. rewrite Hfd, Hto, Hcb. by apply (Hcl i).
Qed.

(** Input of a connected client. *)
Lemma client_input_spec w i c lines eof :
  binv o None None w -> get_client i w = Some c -> fd c = true -> (str "-NOUSER" ∈ lines -> forall a, callback c = Some a -> no_waiting w a) ->
  exists a, owner w i a /\
    ((exists c', client_input now connects i w lines eof = Some (set_client i c' w) /\ same_task c c') \/
     exists r, replied w i a r (client_input now connects i w lines eof)).
Proof.
  intros Hb Hc Hfd Hnw. destruct (b_client _ _ w Hb i c Hc) as [Hcb _]. destruct (Hcb (or_introl Hfd)) as [a Ha]. exists a. split; [by exists c |].
  destruct (dsync_input_cases (get_client i) (set_client i) (brain_callback now connects) (fun w reply st cb w' c H Hg Hs => brain_callback_keeps now connects w reply st cb w' H i c Hg Hs)
    w c a lines eof Hc Ha) as [(c' & Heq & Hsame) | (r & Heq & Hr)].
  - left. by exists c'.
  - right. exists r. unfold client_input. rewrite Heq. apply called_spec; [done | done | done |]. intros E. by apply (Hnw (Hr E)).
Qed.

(** The timeout after a failed connection. *)
Lemma client_fail_timeout_spec w i c :
  binv o None None w -> get_client i w = Some c -> to c = true ->
  exists a, owner w i a /\ replied w i a (DSYNC_REPLY_FAIL, []) (client_fail_timeout now connects i w).
Proof.
  intros Hb Hc Hto. destruct (b_client _ _ w Hb i c Hc) as [Hcb _]. destruct (Hcb (or_intror Hto)) as [a Ha]. exists a. split; [by exists c |].
  unfold client_fail_timeout, dsync_fail_timeout.
  rewrite (disconnect_running (get_client i) (set_client i) (brain_callback now connects) (fun w reply st cb w' c H Hg Hs => brain_callback_keeps now connects w reply st cb w' H i c Hg Hs) w c a) by done.
  by apply called_spec.
Qed.
End ClientInput.

(** ** Handlers *)

Section Handlers.
Context {T : Type} `{!Table (list Z) addr T, !TableSpec (list Z) addr T}.
Notation brain := (replicator_brain T).
Notation lookups w := (active (sync_lookups (queue w))).
Implicit Types w : brain.
Variable alloc : gmap addr replicator_user -> addr.
(** The allocator returns an address that is not in use. *)
Hypothesis alloc_fresh : forall us, us !! alloc us = None.
Variable now : Z.
Variable connects : nat -> bool.

(** The invariant between two events. *)
Definition ok (o : bool) w : Prop := binv o None None w /\ deinitializing w = false.

Lemma ok_order {o} w : ok o w -> ok false w.
Proof. intros [[Hq%queue_inv_order ? ? ? ? ? ? ? ? ? ?] ?]. split; [by split | done]. Qed.

(** A handler: it keeps the invariant, and it returns unless somebody waits for
    a replication. *)
Definition safe (o : bool) w (r : option brain) : Prop :=
  match r with
  | None => lookups w <> []
  | Some w' => ok o w' /\ (lookups w = [] -> lookups w' = [])
  end.

(** No user was removed. *)
Definition live w w' : Prop := forall b, is_Some (users (queue w) !! b) -> is_Some (users (queue w') !! b).

Definition good (o : bool) w (r : option brain) : Prop := safe o w r /\ forall w', r = Some w' -> live w w'.

Lemma good_refl {o} w : ok o w -> good o w (Some w).
Proof. intros Hok. split; [by split |]. intros w' [= <-]. by intros b. Qed.

Lemma good_trans {o} w w1 r : (lookups w = [] -> lookups w1 = []) -> live w w1 -> good o w1 r -> good o w r.
Proof.
  intros Hl Hv [Hs Hr]. split; [destruct r; cbn in *; [naive_solver | by auto] |].
  intros w' Hw b Hb. by apply (Hr w' Hw), Hv.
Qed.

Lemma brain_add_good {o} w name prio :
  ok o w -> prio <= REPLICATION_PRIORITY_SYNC ->
  match brain_add now connects w name prio (alloc (users (queue w))) with
  | None => lookups w <> []
  | Some (w', a) => ok o w' /\ (lookups w = [] -> lookups w' = []) /\ live w w' /\ is_Some (users (queue w') !! a)
  end.
Proof.
  intros [Hb Hd] Hp. destruct (brain_add_spec now connects w name prio _ Hb Hp (alloc_fresh _)) as (a & Hc & Ha).
  destruct (brain_add now connects w name prio _) as [[w' b]|]; [| exact (hangs_lookups _ Hc)].
  pose proof (Ha w' b eq_refl) as ->. clear Ha. cbn in Hc. destruct Hc as (Hb' & (_ & Hd' & _) & Hprog & Hl & _).
  assert (Hall : forall c, is_Some (<[a:=added_user (users (queue w) !! a) name prio now]> (users (queue w)) !! c) -> is_Some (users (queue w') !! c)).
  { intros c [u Hu]. specialize (Hprog c). rewrite Hu in Hprog. by destruct (users (queue w') !! c). }
  splits; [split; [done | congruence] | done | | apply Hall; by rewrite lookup_insert_eq].
  intros c Hc. apply Hall. destruct (decide (c = a)) as [-> | Hne]; [by rewrite lookup_insert_eq | by rewrite lookup_insert_ne].
Qed.

Lemma brain_add_sync_ok {o} w name cb w' : ok o w -> brain_add_sync now connects w name cb (alloc (users (queue w))) = Some w' -> ok o w'.
Proof.
  intros [Hb Hd] Heq. pose proof (brain_add_sync_spec now connects w name cb _ Hb (alloc_fresh _)) as Hc.
  rewrite Heq in Hc. destruct Hc as (Hb' & (_ & Hd' & _) & _). split; [exact Hb' | exact (eq_trans Hd' Hd)].
Qed.

Lemma write_user_good {o} o' w a f :
  ok o w -> keeps_task f -> queue_inv o' (update_user (queue w) a f) -> is_Some (users (queue w) !! a) -> good o' w (write_user w a f).
Proof.
  intros [Hb Hd] Hf Hq Ha. destruct (write_user_spec o' w a f Hb Hf Hq Ha) as (w' & -> & Hb' & Hl & Hus & Hd').
  split; [split; [split; [done | congruence] | by rewrite Hl] |]. intros w2 [= <-] b. by apply Hus.
Qed.

Lemma write_neutral {o} w a f : ok o w -> neutral f -> is_Some (users (queue w) !! a) -> good o w (write_user w a f).
Proof. intros Hok Hf. apply (write_user_good (o := o)); [done | by apply neutral_task | apply neutral_inv; [done | apply Hok]]. Qed.

Lemma force_good {o} (full : bool) w a :
  ok o w -> is_Some (users (queue w) !! a) -> good o w (if full then write_user w a set_force_full_sync else Some w).
Proof. intros Hok Ha. destruct full; [by apply write_neutral | by apply good_refl]. Qed.

Lemma iter_good {o} w : ok o w ->
  exists l q, replicator_queue_iter (queue w) = Some (l, q) /\ ok o (set_queue q w) /\ lookups (set_queue q w) = lookups w /\ live w (set_queue q w) /\
    forall a, a ∈ l -> is_Some (users q !! a).
Proof.
  intros [Hb Hd]. destruct (iter_binv w Hb) as (l & q & Heq & Hb' & Hus & Hl & Hin). exists l, q.
  splits; [done | by split | cbn; by rewrite Hl | intros b; cbn; by rewrite Hus | intros a; rewrite Hus; apply Hin].
Qed.

Lemma priority_parse_range s p : replication_priority_parse s = Some p -> 0 <= p <= REPLICATION_PRIORITY_SYNC.
Proof.
  unfold replication_priority_parse, REPLICATION_PRIORITY_NONE, REPLICATION_PRIORITY_LOW, REPLICATION_PRIORITY_HIGH, REPLICATION_PRIORITY_SYNC.
  repeat case_bool_decide; intros [= <-]; lia.
Qed.

Lemma replicate_users_good {o} mask prio full l w n :
  ok o w -> prio <= REPLICATION_PRIORITY_SYNC -> mask <> [] -> (forall a, a ∈ l -> is_Some (users (queue w) !! a)) ->
  good o w (fst <$> replicate_users now connects alloc w mask prio full l n).
Proof.
  intros Hok Hp Hm. revert w n Hok. induction l as [|a l IH]; intros w n Hok Hl; cbn [replicate_users]; [by apply good_refl |].
  destruct (Hl a ltac:(by left)) as [u ->]. cbn [mbind option_bind].
  destruct (wildcard_match_spec (username u) mask false (or_intror Hm)) as (m & Hmm & _). cbn in Hmm. rewrite Hmm. cbn [mbind option_bind].
  destruct (negb m); [apply IH; [done |]; intros b Hb; apply Hl; by right |].
  pose proof (brain_add_good w (username u) prio Hok Hp) as Ha. destruct (brain_add now connects w (username u) prio _) as [[w1 b]|]; [| by split].
  destruct Ha as (Hok1 & Hl1 & Hv1 & Hb1). cbn [mbind option_bind]. apply (good_trans w w1); [done | done |].
  destruct (force_good full w1 b Hok1 Hb1) as [Hs2 Hv2]. destruct (if full then _ else _) as [w2|]; [| by split].
  destruct Hs2 as [Hok2 Hl2]. specialize (Hv2 w2 eq_refl). cbn [mbind option_bind]. apply (good_trans w1 w2); [done | done |].
  apply IH; [done |]. intros c Hc. apply Hv2, Hv1, Hl. by right.
Qed.

(** The state that a doveadm command leaves. *)
Definition state_of (r : brain * list Z * bool) : brain := r.1.1.

Lemma client_input_replicate_good {o} w args : ok o w -> good o w (state_of <$> client_input_replicate now connects alloc w args).
Proof.
  intros Hok. unfold client_input_replicate. destruct args as [|p [|flags [|mask [|]]]]; try by apply good_refl.
  destruct (replication_priority_parse p) as [prio|] eqn:Hp; [| by apply good_refl]. apply priority_parse_range in Hp as [_ Hp].
  set (full := existsb _ flags). destruct (has_wildcard mask) eqn:Hw; cbn [negb].
  - destruct (iter_good w Hok) as (l & q & -> & Hok1 & Hl1 & Hv1 & Hin). cbn [mbind option_bind].
    apply (good_trans w (set_queue q w)); [by rewrite Hl1 | done |].
    assert (Hm : mask <> []) by (by intros ->). pose proof (replicate_users_good mask prio full l (set_queue q w) 0 Hok1 Hp Hm Hin) as Hg.
    by destruct (replicate_users _ _ _ _ _ _ _ _ _) as [[w1 n]|].
  - pose proof (brain_add_good w mask prio Hok Hp) as Ha. destruct (brain_add now connects w mask prio _) as [[w1 a]|]; [| by split].
    destruct Ha as (Hok1 & Hl1 & Hv1 & Ha1). cbn [mbind option_bind]. apply (good_trans w w1); [done | done |].
    pose proof (force_good full w1 a Hok1 Ha1) as Hg. by destruct (if full then _ else _) as [w2|].
Qed.

Lemma add_auth_users_good {o} l t w : ok o w -> good o w (replicator_queue_add_auth_users now connects alloc w l t).
Proof.
  revert w. induction l as [|name l IH]; intros w Hok; cbn [replicator_queue_add_auth_users]; [by apply good_refl |].
  pose proof (brain_add_good w name REPLICATION_PRIORITY_NONE Hok) as Ha. destruct (brain_add now connects w name _ _) as [[w1 a]|]; [| by split; [apply Ha |]].
  destruct Ha as (Hok1 & Hl1 & Hv1 & Ha1); [done |]. cbn [mbind option_bind]. apply (good_trans w w1); [done | done |].
  destruct (write_neutral w1 a (set_last_update t) Hok1) as [Hs2 Hv2]; [by intros u | done |].
  destruct (write_user w1 a _) as [w2|]; [| by split]. destruct Hs2 as [Hok2 Hl2]. cbn [mbind option_bind].
  apply (good_trans w1 w2); [done | by apply Hv2 | by apply IH].
Qed.

Lemma client_input_add_good {o} w auth args : ok o w -> good o w (state_of <$> client_input_add now connects alloc w auth args).
Proof.
  intros Hok. unfold client_input_add. destruct args as [|mask [|]]; try by apply good_refl. destruct (negb (has_wildcard mask)).
  - pose proof (brain_add_good w mask REPLICATION_PRIORITY_NONE Hok ltac:(done)) as Ha. destruct (brain_add now connects w mask _ _) as [[w1 a]|]; [| by split].
    destruct Ha as (Hok1 & Hl1 & Hv1 & _). split; [by split |]. by intros w' [= <-].
  - pose proof (add_auth_users_good (auth mask) now w Hok) as Hg. by destruct (replicator_queue_add_auth_users _ _ _ _ _ _).
Qed.

(** NOTIFY writes to fields that the queue is ordered by. *)
Lemma client_input_notify_good {o} w args : ok o w -> good false w (state_of <$> client_input_notify now connects alloc w args).
Proof.
  intros Hok. unfold client_input_notify. destruct args as [|name [|flags [|st args]]]; try by apply good_refl, (ok_order (o := o)).
  pose proof (brain_add_good w name REPLICATION_PRIORITY_NONE Hok ltac:(done)) as Ha. destruct (brain_add now connects w name _ _) as [[w1 a]|]; [| by split].
  destruct Ha as (Hok1 & Hl1 & Hv1 & Ha1). cbn [mbind option_bind]. apply (good_trans w w1); [done | done |].
  assert (Hg : good false w1 (write_user w1 a (set_notified now flags st))).
  { apply (write_user_good (o := o)); [done | done | | done]. apply update_user_kept; [apply (queue_inv_order (o := o)), Hok1 | done | done]. }
  by destruct (write_user w1 a _) as [w2|].
Qed.

(** REMOVE of a user that is not being replicated. *)
Lemma client_input_remove_safe {o} w args :
  ok o w -> (forall name a u, args = [name] -> replicator_queue_lookup (queue w) name = Some (Some a) -> users (queue w) !! a = Some u -> popped u = false) ->
  safe o w (state_of <$> client_input_remove now connects w args).
Proof.
  intros Hok Hp. unfold client_input_remove. destruct args as [|name [|]]; try by apply good_refl. destruct Hok as [Hb Hd].
  unfold replicator_queue_lookup in *. rewrite (table_lookup_spec _ _ (inv_table _ (b_queue _ _ w Hb))) in *. cbn [mbind option_bind].
  destruct (table_get (user_hash (queue w)) name) as [a|] eqn:Hg; [| by split].
  destruct (proj1 (inv_names _ (b_queue _ _ w Hb) _ _) Hg) as (u & Hu & _).
  pose proof (brain_remove_spec now connects w a u Hb Hu) as Hc. destruct (brain_remove now connects w a) as [w'|]; cbn.
  - destruct Hc as (Hb' & (_ & Hd' & _) & _ & Hl & _); [| split; [split; [done | congruence] | done]].
    apply (Hp name a u eq_refl); [| done]. by rewrite (table_lookup_spec _ _ (inv_table _ (b_queue _ _ w Hb))), Hg.
  - apply hangs_lookups, Hc. apply (Hp name a u eq_refl); [| done]. by rewrite (table_lookup_spec _ _ (inv_table _ (b_queue _ _ w Hb))), Hg.
Qed.

(** ** Notify connections *)

Lemma notify_line_ok {o} request w line w' b : ok o w -> notify_connection_input_line now connects alloc request w line = Some (w', b) -> ok o w'.
Proof.
  intros Hok. unfold notify_connection_input_line. destruct (t_strsplit_tabescaped line) as [args|]; [| done]. cbn [mbind option_bind].
  destruct (length args <? 2)%nat; [by intros [= <- <-] |]. destruct (negb _); [by intros [= <- <-] |].
  destruct (args !! 2%nat) as [p|]; [| done]. cbn [mbind option_bind]. destruct (args !! 1%nat) as [name|]; [| done]. cbn [mbind option_bind].
  destruct (replication_priority_parse p) as [prio|] eqn:Hp; [| by intros [= <- <-]]. apply priority_parse_range in Hp.
  destruct (negb (prio =? REPLICATION_PRIORITY_SYNC)).
  - pose proof (brain_add_good w name prio Hok ltac:(lia)) as Ha. destruct (brain_add now connects w name prio _) as [[w1 a]|]; [| done]. intros [= <- <-]. apply Ha.
  - match goal with |- context [match ?x with Some _ => _ | None => _ end] => destruct x as [id|] end; [| by intros [= <- <-]].
    destruct (brain_add_sync now connects w name (request id) _) as [w1|] eqn:Ha; [| done]. intros [= <- <-]. by apply (brain_add_sync_ok w name (request id)).
Qed.

(** A line that does not ask for a synchronous replication, and has the field of
    the priority. *)
Definition plain_line (line : list Z) : Prop :=
  forall args, t_strsplit_tabescaped line = Some args -> length args <> 2%nat /\ args !! 2%nat <> Some (str "sync").

Lemma notify_line_safe {o} request w line :
  ok o w -> plain_line line -> safe o w (fst <$> notify_connection_input_line now connects alloc request w line).
Proof.
  intros Hok Hl. unfold notify_connection_input_line. destruct (strsplit_tabescaped_total line) as [args Hargs]. rewrite Hargs. cbn [mbind option_bind].
  destruct (Hl args Hargs) as [Hlen Hsync]. destruct (Nat.ltb_spec (length args) 2); [by split |]. destruct (negb _); [by split |].
  destruct (lookup_lt_is_Some_2 args 2) as [p Hp]; [lia |]. destruct (lookup_lt_is_Some_2 args 1) as [name ->]; [lia |]. rewrite Hp. cbn [mbind option_bind].
  destruct (replication_priority_parse p) as [prio|] eqn:Hpr; [| by split]. apply priority_parse_range in Hpr as Hrange.
  assert (Hne : prio <> REPLICATION_PRIORITY_SYNC).
  { intros ->. unfold replication_priority_parse in Hpr. repeat case_bool_decide; try discriminate. congruence. }
  destruct (Z.eqb_spec prio REPLICATION_PRIORITY_SYNC); [done |]. cbn [negb].
  pose proof (brain_add_good w name prio Hok ltac:(lia)) as Ha. destruct (brain_add now connects w name prio _) as [[w1 a]|]; [| done].
  split; apply Ha.
Qed.

(** ** Events *)

(** The command removes a user that is being replicated. *)
Definition removes_popped w (args : list (list Z)) : Prop :=
  exists name a, args = [str "REMOVE"; name] /\ replicator_queue_lookup (queue w) name = Some (Some a) /\ is_popped w a.

Definition notifies (args : list (list Z)) : bool := bool_decide (head args = Some (str "NOTIFY")).

Lemma client_input_args_ok {o} w path auth args w' out b :
  ok o w -> ~ removes_popped w args -> client_input_args now connects alloc w path auth args = Some (w', out, b) -> ok (o && negb (notifies args)) w'.
Proof.
  intros Hok Hrem Heq.
  assert (Hgood : forall o1 r, good o1 w (state_of <$> r) -> r = Some (w', out, b) -> ok o1 w') by (intros o1 r [Hs _] ->; apply Hs).
  destruct (iter_good w Hok) as (l & q & Hit & Hok1 & _). destruct args as [|cmd args]; [injection Heq as <- _ _; by rewrite andb_true_r |].
  unfold notifies. cbn [client_input_args head] in *. destruct (decide (cmd = str "NOTIFY")) as [-> | Hno].
  - rewrite bool_decide_eq_true_2 by done. rewrite andb_false_r. by apply (Hgood false (client_input_notify now connects alloc w args)); [apply (client_input_notify_good (o := o)) |].
  - rewrite (bool_decide_eq_false_2 (Some cmd = _)) by congruence. rewrite andb_true_r.
    case_bool_decide; [destruct args as [|mask args]; unfold client_input_status_overview, client_input_status in Heq; rewrite Hit in Heq; cbn [mbind option_bind] in Heq |].
    + destruct (count_users _ _ _ l); [| done]. by injection Heq as <- _ _.
    + destruct (status_lines _ _ l); [| done]. by injection Heq as <- _ _.
    + case_bool_decide; [by injection Heq as <- _ _ |].
      case_bool_decide; [by apply (Hgood o (client_input_replicate now connects alloc w args)); [apply client_input_replicate_good |] |].
      case_bool_decide; [by apply (Hgood o (client_input_add now connects alloc w auth args)); [apply client_input_add_good |] |].
      case_bool_decide as Hr; [| rewrite bool_decide_eq_false_2 in Heq by done; by injection Heq as <- _ _].
      pose proof (client_input_remove_safe w args Hok) as Hs. rewrite Heq in Hs. apply Hs. intros name a u -> Hl Hu.
      destruct (popped u) eqn:Hp; [| done]. destruct Hrem. exists name, a. subst cmd. splits; [done | done | by exists u].
Qed.

Lemma replied_safe {o} w i a r res : deinitializing w = false -> replied (o := o) now w i a r res -> safe o w res.
Proof. intros Hd. destruct res as [w'|]; [| done]. intros (Hb & _ & _ & Hl & Hd' & _). split; [split; [exact Hb | congruence] | exact Hl]. Qed.

Lemma client_input_safe {o} w i c lines eof :
  ok o w -> get_client i w = Some c -> fd c = true -> (str "-NOUSER" ∈ lines -> forall a, callback c = Some a -> no_waiting w a) ->
  safe o w (client_input now connects i w lines eof).
Proof.
  intros [Hb Hd] Hc Hf Hn. destruct (client_input_spec now connects w i c lines eof Hb Hc Hf Hn) as (a & _ & [(c' & -> & Hs) | [r Hr]]).
  - split; [split; [by apply (same_task_binv w i c c') | done] | done].
  - by apply (replied_safe w i a r).
Qed.

Lemma client_fail_timeout_safe {o} w i c : ok o w -> get_client i w = Some c -> to c = true -> safe o w (client_fail_timeout now connects i w).
Proof. intros [Hb Hd] Hc Ht. destruct (client_fail_timeout_spec now connects w i c Hb Hc Ht) as (a & _ & Hr). by apply (replied_safe w i a _ _ Hd Hr). Qed.

Lemma brain_timeout_safe {o} w : ok o w -> safe o w (replicator_brain_timeout now connects w).
Proof.
  intros [Hb Hd]. assert (Hb1 : binv o None None (set_timeout None w)) by (by destruct Hb; split).
  pose proof (fill_spec now connects None _ Hb1) as Hf. unfold replicator_brain_timeout.
  destruct (replicator_brain_fill now connects (set_timeout None w)) as [w'|]; [| exact (hangs_lookups _ Hf)].
  destruct Hf as ((Hb' & (_ & Hd' & _) & _ & Hl) & _). split; [split; [done | by rewrite Hd'] | exact Hl].
Qed.

Lemma export_users_total (q : replicator_queue T) l : (forall a, a ∈ l -> is_Some (users q !! a)) -> is_Some (export_users q l).
Proof.
  induction l as [|a l IH]; intros Hl; cbn [export_users]; [done |]. destruct (Hl a ltac:(by left)) as [u ->]. cbn [mbind option_bind].
  destruct IH as [rest ->]; [intros b Hb; apply Hl; by right | done].
Qed.

Lemma dump_safe {o} w : ok o w -> exists data w', replicator_dump_timeout w = Some (data, w') /\ ok o w' /\ lookups w' = lookups w.
Proof.
  intros Hok. destruct (iter_good w Hok) as (l & q & Hit & Hok1 & Hl1 & _ & Hin). unfold replicator_dump_timeout, replicator_queue_export.
  rewrite Hit. cbn [mbind option_bind]. destruct (export_users_total q l Hin) as [data ->]. by exists data, (set_queue q w).
Qed.

(** One event, with whether the order of the queue is kept before and after
    it.  Left out is the removal of a user that is being replicated, by REMOVE
    or, while somebody waits for its next replication, by the answer NOUSER:
    the user is freed although a client or a request still refers to it. *)
Inductive step (o : bool) w : bool -> brain -> Prop :=
| step_notify request line w' b : notify_connection_input_line now connects alloc request w line = Some (w', b) -> step o w o w'
| step_doveadm path auth args w' out b : ~ removes_popped w args ->
    client_input_args now connects alloc w path auth args = Some (w', out, b) -> step o w (o && negb (notifies args)) w'
| step_input i c lines eof w' : get_client i w = Some c -> fd c = true ->
    (str "-NOUSER" ∈ lines -> forall a, callback c = Some a -> no_waiting w a) ->
    client_input now connects i w lines eof = Some w' -> step o w o w'
| step_fail i c w' : get_client i w = Some c -> to c = true -> client_fail_timeout now connects i w = Some w' -> step o w o w'
| step_timeout w' : replicator_brain_timeout now connects w = Some w' -> step o w o w'
| step_dump data w' : replicator_dump_timeout w = Some (data, w') -> step o w o w'.

Lemma step_ok o w o' w' : ok o w -> step o w o' w' -> ok o' w'.
Proof.
  intros Hok. destruct 1 as [request line w' b H | path auth args w' out b Hn H | i c lines eof w' Hc Hf Hn H | i c w' Hc Ht H | w' H | data w' H].
  - by apply (notify_line_ok request w line w' b).
  - by apply (client_input_args_ok w path auth args w' out b).
  - pose proof (client_input_safe w i c lines eof Hok Hc Hf Hn) as Hs. rewrite H in Hs. apply Hs.
  - pose proof (client_fail_timeout_safe w i c Hok Hc Ht) as Hs. rewrite H in Hs. apply Hs.
  - pose proof (brain_timeout_safe w Hok) as Hs. rewrite H in Hs. apply Hs.
  - destruct (dump_safe w Hok) as (d & w2 & Heq & Hok2 & _). congruence.
Qed.

(** ** The start *)

Lemma start_auth_users_spec (q : replicator_queue T) l t :
  queue_inv true q -> unused q -> exists q', start_auth_users now alloc q l t = Some q' /\ queue_inv true q' /\ unused q'.
Proof.
  revert q. induction l as [|name l IH]; intros q Hinv Hun; cbn [start_auth_users]; [by exists q |].
  destruct (add_unused q name REPLICATION_PRIORITY_NONE now _ Hinv Hun (alloc_fresh _)) as (q1 & a & -> & Hinv1 & Hun1 & [u Hu]).
  cbn [mbind option_bind]. rewrite Hu. cbn [mbind option_bind]. apply IH; [by apply neutral_inv | by apply update_unused].
Qed.

Lemma start_binv {o} (q : replicator_queue T) set : queue_inv o q -> unused q -> binv o None None (Brain q set None [] false [] []).
Proof.
  intros Hq [Hp Hl]. set (w := Brain q set None [] false [] []).
  assert (Hnil : forall i c, get_client i w = Some c -> False) by (intros i c Hc; unfold get_client in Hc; cbn in Hc; by rewrite lookup_nil in Hc).
  assert (Hno : forall i a, ~ owner w i a) by (intros i a (c & Hc & _); by apply (Hnil i c)).
  split; cbn [w queue dsync_clients settings]; try done; rewrite ?Hl.
  - unfold arr_ok. cbn. lia.
  - cbn. lia.
  - intros a. split; [intros (u & Hu & Hpu); cbn in Hu; by rewrite (Hp a u Hu) in Hpu | intros [[i Hi] | ?]; [by destruct (Hno i a) | done]].
  - intros i j a Hi. by destruct (Hno i a).
  - intros a u Hu Hpu. by rewrite (Hp a u Hu) in Hpu.
  - by intros x ?%elem_of_nil.
Qed.

(** A database disturbs the order. *)
Definition no_file (file : option (list Z)) : bool := match file with None => true | Some _ => false end.

Lemma main_init_spec (hash : T) set auth file :
  table_inv hash -> (forall k, table_get hash k = None) ->
  exists w, main_init now connects alloc hash set auth file = Some w /\ ok (no_file file) w /\ lookups w = [].
Proof.
  intros Ht Hg. unfold main_init. set (q0 := replicator_queue_init _ _ _).
  assert (Hun0 : unused q0) by (split; [intros a u Hu; cbn in Hu; by rewrite lookup_empty in Hu | done]).
  destruct (start_auth_users_spec q0 auth 0) as (q1 & Heq1 & Hinv1 & Hun1); [by apply init_inv | done |].
  assert (Hq : exists q2, replication_add_users now alloc q0 auth file = Some q2 /\ queue_inv (no_file file) q2 /\ unused q2).
  { unfold replication_add_users. rewrite Heq1. cbn [mbind option_bind]. destruct file as [data|]; [| by exists q1].
    destruct (import_kept alloc q1 (Some data) now alloc_fresh (queue_inv_order _ Hinv1) Hun1) as (q2 & b & -> & ? & ?). by exists q2. }
  destruct Hq as (q2 & -> & Hinv2 & Hun2). cbn [mbind option_bind]. unfold replicator_brain_init.
  pose proof (start_binv q2 set Hinv2 Hun2) as Hb. pose proof (fill_spec now connects None _ Hb) as Hf.
  assert (Hnil : lookups (Brain q2 set None [] false [] []) = []) by (cbn; by rewrite (proj2 Hun2)).
  destruct (replicator_brain_fill now connects _) as [w|]; [| by destruct (hangs_lookups _ Hf)].
  destruct Hf as ((Hb' & (_ & Hd & _) & _ & Hl) & _). exists w. splits; [done | by split | by apply Hl].
Qed.
End Handlers.

(** ** Reachable states *)

Section Reachable.
Context {T : Type} `{!Table (list Z) addr T, !TableSpec (list Z) addr T}.
Notation brain := (replicator_brain T).
Notation lookups w := (active (sync_lookups (queue w))).
Implicit Types w : brain.
Variable alloc : gmap addr replicator_user -> addr.
Hypothesis alloc_fresh : forall us, us !! alloc us = None.

(** The replicator starts with the users that the auth server lists and with
    the database, if there is one, and then handles events at any times.  The
    flag says that the order of the queue has been kept: no database was read
    and no NOTIFY received. *)
Inductive reachable : bool -> brain -> Prop :=
| reach_init now connects hash set auth file w :
    table_inv hash -> (forall k, table_get hash k = None) -> main_init now connects alloc hash set auth file = Some w -> reachable (no_file file) w
| reach_step now connects o w o' w' : reachable o w -> step alloc now connects o w o' w' -> reachable o' w'.

Lemma reachable_ok o w : reachable o w -> ok o w.
Proof.
  induction 1 as [now connects hash set auth file w Ht Hg Heq | now connects o w o' w' Hr IH Hs].
  - destruct (main_init_spec alloc alloc_fresh now connects hash set auth file Ht Hg) as (w' & Heq' & Hok & _). congruence.
  - by apply (step_ok alloc alloc_fresh now connects o w).
Qed.

(** C10: in every state that the replicator reaches from its start, with or
    without a database, by any events but the removal of a user that is being
    replicated (REMOVE of it, or the answer NOUSER while somebody waits for its
    next replication, both of which free a user that is still referred to):
    the table finds exactly the users there are; the priority queue holds
    exactly the users that are not being replicated, each at the position it
    stores; there are at most the configured number of clients; a user is
    outside the queue exactly while one client replicates it; and no two
    clients replicate the same user.  As long as no database has been read and
    no NOTIFY received, the priority queue also is in heap order. *)
Theorem replicator_reachable_inv o w :
  reachable o w ->
  (forall name a, table_get (user_hash (queue w)) name = Some a <-> exists u, users (queue w) !! a = Some u /\ username u = name) /\
  (forall a, a ∈ pq_items (user_queue (queue w)) <-> queued (queue w) a) /\ idx_ok (user_queue (queue w)) /\
  (o = true -> inv (queue w)) /\
  (length (dsync_clients w) <= replication_max_conns (settings w))%nat /\
  (forall a, is_popped w a <-> exists i, owner w i a) /\ (forall i j a, owner w i a -> owner w j a -> i = j) /\
  (forall i c, get_client i w = Some c -> dsync_client_is_busy c = true <-> is_Some (callback c)).
Proof.
  intros [[Hq _ Hcnt Hpop _ Huniq Hbusy _ _ _ _] _]%reachable_ok. splits; [apply Hq | apply Hq | apply Hq | by intros -> | done | | done |].
  - intros a. rewrite Hpop. split; [intros [? | ?]; done | by left].
  - intros i c Hc. unfold dsync_client_is_busy. rewrite (Hbusy i c Hc). split; [by intros [? | ?] | by left].
Qed.

(** The event was handled to its end, and nobody waits for a replication. *)
Definition handled {A} (st : A -> brain) (r : option A) : Prop := exists x, r = Some x /\ lookups (st x) = [].

Lemma safe_handled {A} o w (st : A -> brain) r : lookups w = [] -> safe o w (st <$> r) -> handled st r.
Proof. intros Hl. destruct r as [x|]; [| done]. intros [_ H]. exists x. by split; [| apply H]. Qed.

(** C20: the replicator starts, whatever users there are and whatever is in its
    database.  From then on, as long as nobody has asked for a synchronous
    replication, it handles every other event to its end, and nobody waits for
    a replication afterwards: a line of a notify connection that has a field
    for the priority (without it strcmp gets a null pointer) other than sync;
    the commands REPLICATE, ADD, NOTIFY, and REMOVE of a user that is not being
    replicated; whatever the servers of the dsync clients send; the clients'
    timeouts after failed connections; the brain's timeout; and the dump of the
    database.  No loop runs on, no assertion fails and no freed user is used.
    The states are those reached without removing a user that is being
    replicated. *)
Theorem replicator_events_return now connects :
  (forall hash set auth file, table_inv hash -> (forall k, table_get hash k = None) -> handled id (main_init now connects alloc hash set auth file)) /\
  (forall o w, reachable o w -> lookups w = [] ->
    (forall request line, plain_line line -> handled fst (notify_connection_input_line now connects alloc request w line)) /\
    (forall args, handled state_of (client_input_replicate now connects alloc w args)) /\
    (forall auth args, handled state_of (client_input_add now connects alloc w auth args)) /\
    (forall args, handled state_of (client_input_notify now connects alloc w args)) /\
    (forall args, ~ removes_popped w (str "REMOVE" :: args) -> handled state_of (client_input_remove now connects w args)) /\
    (forall i c lines eof, get_client i w = Some c -> fd c = true -> handled id (client_input now connects i w lines eof)) /\
    (forall i c, get_client i w = Some c -> to c = true -> handled id (client_fail_timeout now connects i w)) /\
    handled id (replicator_brain_timeout now connects w) /\
    handled snd (replicator_dump_timeout w)).
Proof.
  split.
  { intros hash set auth file Ht Hg. destruct (main_init_spec alloc alloc_fresh now connects hash set auth file Ht Hg) as (w & ? & _ & ?). by exists w. }
  intros o w Hok%reachable_ok Hl.
  assert (Hid : forall r, safe o w r -> handled id r) by (intros r Hs; apply (safe_handled o w id r Hl); by destruct r).
  splits.
  - intros request line Hp. by apply (safe_handled o w), notify_line_safe.
  - intros args. by apply (safe_handled o w), client_input_replicate_good.
  - intros auth args. by apply (safe_handled o w), client_input_add_good.
  - intros args. apply (safe_handled false w); [done |]. exact (proj1 (client_input_notify_good alloc alloc_fresh now connects w args Hok)).
  - intros args Hn. apply (safe_handled o w), client_input_remove_safe; [done | done |].
    intros name a u -> Hlk Hu. destruct (popped u) eqn:Hp; [| done]. destruct Hn. exists name, a. splits; [done | done | by exists u].
  - intros i c lines eof Hc Hf. apply Hid, (client_input_safe now connects w i c lines eof Hok Hc Hf). intros _ a _ x Hx. rewrite Hl in Hx. by apply elem_of_nil in Hx.
  - intros i c Hc Ht. by apply Hid, (client_fail_timeout_safe now connects w i c).
  - by apply Hid, brain_timeout_safe.
  - destruct (dump_safe w Hok) as (data & w' & -> & _ & E). exists (data, w'). split; [done | by rewrite <- Hl].
Qed.

(** C13: an update is not lost.  In every state that the replicator reaches
    from its start, with or without a database, by any events but the removal
    of a user that is being replicated: adding an update with one of the four
    priorities returns, unless the last synchronous request is one that the
    next push of its user answers, where that push may run on
    (replicator_queue_push_never_ends); in particular it returns when there is
    no synchronous request.  When it returns, the user has at least the
    priority of the update or its replication has just been started; the same
    holds for every other user and the priority it had.  Afterwards either
    every client is busy, or popping returns no user and the timer is set to
    the time that it returns. *)
Theorem replicator_update_not_lost o w now connects name prio new :
  reachable o w -> prio <= REPLICATION_PRIORITY_SYNC -> users (queue w) !! new = None ->
  match brain_add now connects w name prio new with
  | None => exists x, last (lookups w) = Some x /\ wait_for_next_push x = false
  | Some (w', a) =>
      (forall b u, users (queue w) !! b = Some u ->
         exists u', users (queue w') !! b = Some u' /\ username u' = username u /\
           (priority u <= priority u' \/ (exists i, owner w' i b) /\ last_fast_sync u' = now)) /\
      (exists u', users (queue w') !! a = Some u' /\ username u' = name /\
         (prio <= priority u' \/ (exists i, owner w' i a) /\ last_fast_sync u' = now)) /\
      ((exists secs, replicator_queue_pop (queue w') now = Some (queue w', inr secs) /\ timeout w' = Some (u32 (secs * 1000))) \/ all_busy w')
  end.
Proof.
  intros [Hb _]%reachable_ok Hp Hn. destruct (add_binv now w name prio new Hb Hp Hn) as (q & a & Hq & Hbq & Hl & Hus & Hget).
  unfold brain_add, replicator_queue_add. rewrite Hq. cbn [mbind option_bind].
  pose proof (changed_fill now connects w q Hbq Hl) as Hc. destruct (replicator_brain_queue_changed now connects (set_queue q w)) as [w2|]; [| exact Hc].
  cbn [mbind option_bind]. destruct Hc as (_ & _ & Hprog & _ & Hset). rewrite Hus in Hprog.
  destruct (proj1 (inv_names q (b_queue _ _ _ Hbq) name a) Hget) as (ua & Hua & Hname). rewrite Hus, lookup_insert_eq in Hua. injection Hua as <-.
  set (ua := added_user (users (queue w) !! a) name prio now) in *.
  assert (Hge : prio <= priority ua /\ forall u, users (queue w) !! a = Some u -> priority u <= priority ua /\ username ua = username u).
  { unfold ua, added_user. destruct (users (queue w) !! a) as [u|]; [| cbn; split; [lia | done]].
    destruct (Z.gtb_spec (priority u) prio); cbn; (split; [lia |]); intros u' [= <-]; (split; [lia | done]). }
  splits; [| | exact Hset].
  - intros b u Hu. specialize (Hprog b). destruct (decide (b = a)) as [-> | Hne].
    + rewrite lookup_insert_eq in Hprog. destruct (users (queue w2) !! a) as [u'|]; [| done]. destruct Hprog as (Hn' & _ & Hpr).
      destruct (proj2 Hge u Hu) as [Hle Hnu]. exists u'. splits; [done | congruence | destruct Hpr; [left; lia | by right]].
    + rewrite lookup_insert_ne, Hu in Hprog by done. destruct (users (queue w2) !! b) as [u'|]; [| done]. destruct Hprog as (? & _ & ?). by exists u'.
  - specialize (Hprog a). rewrite lookup_insert_eq in Hprog. destruct (users (queue w2) !! a) as [u'|]; [| done]. destruct Hprog as (Hn' & _ & Hpr).
    exists u'. splits; [done | congruence | destruct Hpr; [left; lia | by right]].
Qed.

(** The answer of the server is handled as it is meant.  A user that exists
    goes back to the queue with the new state, with the time of its last
    success and whether it failed, and keeps the priority that it got
    meanwhile, unless its replication has been started again; one that the
    server does not know is removed.  No other user's priority is lost. *)
Theorem replicator_reply_correct o w now connects i c a lines eof reply st w' :
  reachable o w -> get_client i w = Some c -> callback c = Some a -> handshaked c = false -> client_state c = None ->
  dsync_outcome lines eof = Some (reply, st) -> (reply = DSYNC_REPLY_NOUSER -> no_waiting w a) ->
  client_input now connects i w lines eof = Some w' ->
  (forall b u, users (queue w) !! b = Some u -> b <> a \/ reply <> DSYNC_REPLY_NOUSER ->
     exists u', users (queue w') !! b = Some u' /\ (priority u <= priority u' \/ (exists j, owner w' j b) /\ last_fast_sync u' = now)) /\
  (reply = DSYNC_REPLY_NOUSER -> users (queue w') !! a = None) /\
  (exists ci, get_client i w' = Some ci /\ dsync_client_is_busy ci = false).
Proof.
  intros [Hb _]%reachable_ok Hc Ha Hh Hs Hout Hnw Heq. unfold client_input in Heq.
  assert (Hkeep : forall w reply st cb w' c, brain_callback now connects w reply st cb = Some w' -> get_client i w = Some c -> dsync_client_is_busy c = true -> get_client i w' = Some c)
    by (intros ?????? H Hg Hbz; by apply (brain_callback_keeps now connects _ _ _ _ _ H i)).
  rewrite (dsync_input_spec (get_client i) (set_client i) (brain_callback now connects) Hkeep w c a) in Heq by done. rewrite Hout in Heq.
  pose proof (called_spec now connects w i c a (reply, st) Hb Hc Ha Hnw) as Hr. rewrite Heq in Hr. destruct Hr as (_ & Hprog & _). splits.
  - intros b u Hu Hor. specialize (Hprog b). cbn [fst snd] in Hprog.
    assert (Hru : exists u1, reply_users now reply st a (users (queue w)) !! b = Some u1 /\ priority u1 = priority u).
    { unfold reply_users. destruct (decide (b = a)) as [-> | Hne].
      - destruct Hor as [? | Hor]; [done |]. destruct reply; [| | done]; rewrite lookup_alter_eq, Hu; by eexists.
      - destruct reply; [rewrite lookup_alter_ne by done | rewrite lookup_alter_ne by done | rewrite lookup_delete_ne by done]; by exists u. }
    destruct Hru as (u1 & Hu1 & Hpu). rewrite Hu1 in Hprog. destruct (users (queue w') !! b) as [u'|]; [| done]. destruct Hprog as (_ & _ & Hp).
    exists u'. split; [done |]. by rewrite <- Hpu.
  - intros ->. specialize (Hprog a). cbn [fst reply_users] in Hprog. rewrite lookup_delete_eq in Hprog. by destruct (users (queue w') !! a).
  - unfold called in Heq. destruct (brain_callback now connects _ _ _ _) as [w2|] eqn:Hcall; [| done]. injection Heq as <-.
    exists (idle c). split; [| done]. eapply get_set_client. apply (Hkeep _ _ _ _ _ (called_back (dsync_close c)) Hcall); [by eapply get_set_client | done].
Qed.
End Reachable.

(** ** A full sync that was asked for *)

(** C39: when a full sync was asked for and none is due, the request is cleared
    and recorded as done, but the client is not asked for a full sync. *)
Theorem replicator_forced_full_sync_lost {T : Type} `{!Table (list Z) addr T, !TableSpec (list Z) addr T} o (w : replicator_brain T) now connects a u w' :
  binv o None (Some a) w -> users (queue w) !! a = Some u -> force_full_sync u = true ->
  now < last_full_sync u + replication_full_sync_interval (settings w) ->
  dsync_replicate now connects w a = Some (w', true) ->
  exists i c u', get_client i w' = Some c /\ callback c = Some a /\ dsync_client_get_type c <> DSYNC_TYPE_FULL /\
    users (queue w') !! a = Some u' /\ force_full_sync u' = false /\ last_full_sync u' = now.
Proof.
  intros Hb Hu Hforce Hnot. unfold dsync_replicate. pose proof (get_dsync_client_spec None (Some a) w Hb) as Hg.
  destruct (get_dsync_client w) as [w1 [i|]]; [| done]. destruct Hg as (l & c & -> & Hc & Hs & Hb1 & _ & _). cbn [set_clients queue settings]. rewrite Hu. cbn [mbind option_bind].
  rewrite (proj2 (Z.leb_gt _ _)) by lia. unfold get_client. cbn [set_queue set_clients dsync_clients]. rewrite Hc. cbn [mbind option_bind].
  destruct (dsync_client_sync_spec c (username u) (state u) false a now (connects i) Hs) as (c' & out & -> & Hcb & _ & _ & Hty).
  { by apply (idle_client (o := o) None (Some a) (set_clients l w) i). }
  cbn [mbind option_bind]. intros [= <-]. exists i, c', (set_started now false u). splits.
  - unfold get_client. cbn. apply list_lookup_insert_eq. by eapply lookup_lt_Some.
  - done.
  - unfold dsync_client_get_type. rewrite Hty. by destruct (state u) as [[]|].
  - cbn. by rewrite lookup_alter_eq, Hu.
  - cbn. by rewrite Hforce.
  - cbn. by rewrite Hforce.
Qed.

(** ** Witnesses: two users and one connection *)

From S2P Require Import Hash HashProps HashLaws.

(** One more than every address in use. *)
Definition next_alloc (us : gmap addr replicator_user) : addr := map_fold (fun a _ m => Pos.max (Pos.succ a) m) 1%positive us.

Lemma next_alloc_fresh us : us !! next_alloc us = None.
Proof.
  assert (Hlt : forall a u, us !! a = Some u -> (a < next_alloc us)%positive).
  { unfold next_alloc. revert us. apply (map_fold_weak_ind (fun m us => forall a u, us !! a = Some u -> (a < m)%positive)).
    - intros a u Ha. by rewrite lookup_empty in Ha.
    - intros a u us m Hnone IH b v [[<- _] | [_ Hb]]%lookup_insert_Some; [lia |]. specialize (IH b v Hb). lia. }
  destruct (us !! next_alloc us) as [u|] eqn:E; [| done]. specialize (Hlt _ u E). lia.
Qed.

Definition demo_settings : replicator_settings := Settings 1 1000 (str "-d").
Definition yes (i : nat) : bool := true.

(** The users "a" and "b" are listed; "a" is replicated at once.  Then an
    update of "b" is reported. *)
Definition demo_blank : replicator_brain (hash_table (list Z) addr) := Brain demo_init demo_settings None [] false [] [].
Definition demo_start : replicator_brain (hash_table (list Z) addr) :=
  default demo_blank (main_init 2000 yes next_alloc demo_table demo_settings [str "a"; str "b"] None).
Definition demo_update : list Z := [85; 9; 98; 9] ++ str "high".
Definition demo_brain : replicator_brain (hash_table (list Z) addr) :=
  default demo_blank (fst <$> notify_connection_input_line 2001 yes next_alloc id demo_start demo_update).

Lemma demo_start_reachable : reachable next_alloc true demo_start.
Proof.
  apply (reach_init next_alloc 2000 yes demo_table demo_settings [str "a"; str "b"] None); [apply demo_table_inv | apply demo_table_get |].
  unfold demo_start. destruct (main_init_spec next_alloc next_alloc_fresh 2000 yes demo_table demo_settings [str "a"; str "b"] None demo_table_inv demo_table_get) as (w & -> & _).
  reflexivity.
Qed.

Lemma demo_reachable : reachable next_alloc true demo_brain.
Proof.
  apply (reach_step next_alloc 2001 yes true demo_start); [apply demo_start_reachable |]. apply (step_notify next_alloc 2001 yes true demo_start id demo_update demo_brain true).
  unfold demo_brain. assert (H : exists w, notify_connection_input_line 2001 yes next_alloc id demo_start demo_update = Some (w, true)) by (eexists; vm_compute; reflexivity).
  destruct H as [w ->]. reflexivity.
Qed.

Definition demo_lines : list (list Z) := [str "+"; str "state"; str "+"].

(** After a reply the client that has become free is not used: with one
    connection, the next user stays in the queue although it has a priority,
    no client works and no timer is set. *)
Theorem replicator_reply_leaves_idle_client :
  exists w w' c u, reachable next_alloc true w /\ client_input 2002 yes 0 w demo_lines false = Some w' /\
    dsync_clients w' = [c] /\ dsync_client_is_busy c = false /\ timeout w' = None /\
    users (queue w') !! 2%positive = Some u /\ popped u = false /\ priority u = REPLICATION_PRIORITY_HIGH.
Proof.
  exists demo_brain. eexists _, _, _. split; [apply demo_reachable |]. split; [vm_compute; reflexivity |].
  repeat (split; [vm_compute; reflexivity |]). vm_compute. reflexivity.
Qed.

(** What the relation leaves out: REMOVE of a user that is being replicated
    succeeds, and the answer for it then uses the freed user. *)
Theorem replicator_remove_frees_user :
  exists w w' out, reachable next_alloc true w /\ is_popped w 1%positive /\
    client_input_args 2002 yes next_alloc w [] (fun _ => []) [str "REMOVE"; str "a"] = Some (w', out, true) /\
    client_input 2003 yes 0 w' demo_lines false = None.
Proof.
  exists demo_brain. eexists _, _. split; [apply demo_reachable |]. split; [eexists; split; vm_compute; reflexivity |].
  split; [vm_compute; reflexivity |]. vm_compute. reflexivity.
Qed.

Lemma replicator_reachable_inv_witness :
  reachable next_alloc true demo_brain /\ inv (queue demo_brain) /\ (is_popped demo_brain 1%positive <-> exists i, owner demo_brain i 1%positive).
Proof.
  split; [apply demo_reachable |].
  destruct (replicator_reachable_inv next_alloc next_alloc_fresh true demo_brain demo_reachable) as (_ & _ & _ & Hinv & _ & Hpop & _).
  split; [by apply Hinv | apply Hpop].
Defined.

Lemma replicator_events_return_witness :
  handled state_of (client_input_notify 2002 yes next_alloc demo_brain [str "b"; str "f"; str "state"]) /\
  handled id (client_input 2002 yes 0 demo_brain [str "+"; str "state"; str "+"] false).
Proof.
  destruct (replicator_events_return next_alloc next_alloc_fresh 2002 yes) as [_ H].
  destruct (H true demo_brain demo_reachable) as (_ & _ & _ & Hn & _ & Hi & _); [vm_compute; reflexivity |]. split; [apply Hn |].
  assert (Hc : exists c, get_client 0 demo_brain = Some c /\ fd c = true) by (eexists; vm_compute; split; reflexivity).
  destruct Hc as (c & Hc & Hf). exact (Hi 0%nat c _ _ Hc Hf).
Defined.

Lemma replicator_update_not_lost_witness :
  exists w' a u', brain_add 2002 yes demo_brain (str "a") REPLICATION_PRIORITY_LOW 3%positive = Some (w', a) /\
    users (queue w') !! a = Some u' /\ username u' = str "a".
Proof.
  pose proof (replicator_update_not_lost next_alloc next_alloc_fresh true demo_brain 2002 yes (str "a") REPLICATION_PRIORITY_LOW 3%positive demo_reachable) as H.
  destruct (brain_add 2002 yes demo_brain (str "a") REPLICATION_PRIORITY_LOW 3%positive) as [[w' a]|] eqn:Heq; [| vm_compute in Heq; discriminate].
  destruct H as (_ & (u' & Hu & Hn & _) & _); [vm_compute; discriminate | vm_compute; reflexivity |].
  exists w', a, u'. split; [reflexivity | split; [exact Hu | exact Hn]].
Defined.

Lemma replicator_reply_correct_witness :
  exists w' ci, client_input 2002 yes 0 demo_brain demo_lines false = Some w' /\ get_client 0 w' = Some ci /\ dsync_client_is_busy ci = false.
Proof.
  destruct (client_input 2002 yes 0 demo_brain demo_lines false) as [w'|] eqn:Heq; [| vm_compute in Heq; discriminate].
  assert (Hc : exists c, get_client 0 demo_brain = Some c /\ callback c = Some 1%positive /\ handshaked c = false /\ client_state c = None)
    by (eexists; vm_compute; repeat split).
  destruct Hc as (c & Hc & Hcb & Hh & Hs).
  destruct (replicator_reply_correct next_alloc next_alloc_fresh true demo_brain 2002 yes 0 c 1%positive demo_lines false DSYNC_REPLY_OK (str "state") w' demo_reachable Hc Hcb Hh Hs)
    as (_ & _ & ci & H1 & H2); [vm_compute; reflexivity | discriminate | exact Heq |].
  exists w', ci. split; [reflexivity | split; [exact H1 | exact H2]].
Defined.

(** "a" after it was popped for a full sync that was asked for. *)
Definition demo_forced : queue_t := update_user demo_a 1%positive set_force_full_sync.
Definition demo_forced_brain : replicator_brain (hash_table (list Z) addr) := Brain demo_forced demo_settings None [] false [] [].
Definition demo_forced_popped : queue_t := after demo_forced (replicator_queue_pop demo_forced 20).

Lemma demo_forced_pop : replicator_queue_pop demo_forced 20 = Some (demo_forced_popped, inl 1%positive).
Proof. vm_compute. reflexivity. Qed.

Lemma demo_forced_users : users demo_forced = {[1%positive := set_force_full_sync (set_priority 2 10 (new_user (str "a")))]}.
Proof. vm_compute. reflexivity. Qed.

Lemma demo_forced_binv : binv true None (Some 1%positive) (set_queue demo_forced_popped demo_forced_brain).
Proof.
  assert (Hb : binv true None None demo_forced_brain).
  { apply start_binv.
    - apply neutral_inv; [by intros u | apply demo_a_inv].
    - split; [| reflexivity]. intros a u. rewrite demo_forced_users. intros [_ <-]%lookup_singleton_Some. reflexivity. }
  destruct (pop_binv None demo_forced_brain 20 Hb) as (q & r & Heq & Hr). change (queue demo_forced_brain) with demo_forced in Heq.
  rewrite demo_forced_pop in Heq. injection Heq as <- <-. apply Hr.
Qed.

Lemma replicator_forced_full_sync_lost_witness :
  exists w' i c, dsync_replicate 20 yes (set_queue demo_forced_popped demo_forced_brain) 1%positive = Some (w', true) /\
    get_client i w' = Some c /\ dsync_client_get_type c <> DSYNC_TYPE_FULL.
Proof.
  destruct (dsync_replicate 20 yes (set_queue demo_forced_popped demo_forced_brain) 1%positive) as [[w' b]|] eqn:Heq; [| vm_compute in Heq; discriminate].
  assert (b = true) as -> by (vm_compute in Heq; injection Heq as _ <-; reflexivity).
  destruct (replicator_forced_full_sync_lost true (set_queue demo_forced_popped demo_forced_brain) 20 yes 1%positive
    (set_popped true (set_force_full_sync (set_priority 2 10 (new_user (str "a"))))) w' demo_forced_binv)
    as (i & c & u' & Hc & _ & Ht & _); [vm_compute; reflexivity | reflexivity | vm_compute; reflexivity | exact Heq |].
  exists w', i, c. split; [reflexivity | split; [exact Hc | exact Ht]].
Defined.
