(* ===== verification/ImapArg.v ===== *)
(** * Arguments of IMAP commands (src/src/lib-imap/imap-arg.h, imap-arg.c)

    What the parser of ImapParser.v produces: a tree of atoms, strings and
    lists.  A constructor holds the members of [struct imap_arg] that are used
    with its type; a string is the [str_len] bytes of [_data.str], and
    functions that take it as a C string stop at its first NUL.  The pointer
    to the parent is part of the parser's state. *)

From S2P Require Import Prelude Strescape.

(** ** Character classes *)

Definition IS_LIST_WILDCARD (c : Z) : bool := (c =? 37) || (c =? 42).
Definition IS_QUOTED_SPECIAL (c : Z) : bool := (c =? 34) || (c =? 92).
Definition IS_RESP_SPECIAL (c : Z) : bool := c =? 93.
Definition IS_ATOM_SPECIAL (c : Z) : bool :=
  (c <=? 32) || (c >=? 127) || (c =? 40) || (c =? 41) || (c =? 123) || IS_LIST_WILDCARD c || IS_QUOTED_SPECIAL c || IS_RESP_SPECIAL c.
Definition IS_ATOM_CHAR (c : Z) : bool := negb (IS_ATOM_SPECIAL c).
Definition IS_ASTRING_CHAR (c : Z) : bool := IS_ATOM_CHAR c || IS_RESP_SPECIAL c.

(** ** Arguments *)

Inductive imap_arg_type :=
  | TYPE_NIL | TYPE_ATOM | TYPE_STRING | TYPE_LIST | TYPE_LITERAL
  | TYPE_LITERAL_SIZE | TYPE_LITERAL_SIZE_NONSYNC | TYPE_EOL.

#[export] Instance imap_arg_type_eq_dec : EqDecision imap_arg_type.
Proof. solve_decision. Defined.

#[local] Unset Elimination Schemes.

Inductive imap_arg :=
  | IMAP_ARG_NIL (s : list Z)
  | IMAP_ARG_ATOM (s : list Z)
  | IMAP_ARG_STRING (s : list Z) (literal8 : bool)
  | IMAP_ARG_LIST (l : list imap_arg)
  | IMAP_ARG_LITERAL (s : list Z) (literal8 : bool)
  | IMAP_ARG_LITERAL_SIZE (size : Z) (literal8 : bool)
  | IMAP_ARG_LITERAL_SIZE_NONSYNC (size : Z) (literal8 : bool)
  | IMAP_ARG_EOL.

#[local] Set Elimination Schemes.

(** Induction over arguments and the lists in them. *)
Section Induction.
Variable P : imap_arg -> Prop.
Hypothesis P_list : forall l, Forall P l -> P (IMAP_ARG_LIST l).
Hypothesis P_leaf : forall a, (forall l, a <> IMAP_ARG_LIST l) -> P a.

Fixpoint imap_arg_ind (a : imap_arg) : P a :=
  match a with
  | IMAP_ARG_LIST l =>
      P_list l ((fix go l : Forall P l :=
                   match l with [] => List.Forall_nil _ | a :: l => List.Forall_cons _ _ _ (imap_arg_ind a) (go l) end) l)
  | IMAP_ARG_NIL s => P_leaf (IMAP_ARG_NIL s) ltac:(done)
  | IMAP_ARG_ATOM s => P_leaf (IMAP_ARG_ATOM s) ltac:(done)
  | IMAP_ARG_STRING s b => P_leaf (IMAP_ARG_STRING s b) ltac:(done)
  | IMAP_ARG_LITERAL s b => P_leaf (IMAP_ARG_LITERAL s b) ltac:(done)
  | IMAP_ARG_LITERAL_SIZE n b => P_leaf (IMAP_ARG_LITERAL_SIZE n b) ltac:(done)
  | IMAP_ARG_LITERAL_SIZE_NONSYNC n b => P_leaf (IMAP_ARG_LITERAL_SIZE_NONSYNC n b) ltac:(done)
  | IMAP_ARG_EOL => P_leaf IMAP_ARG_EOL ltac:(done)
  end.
End Induction.

Definition arg_type (a : imap_arg) : imap_arg_type :=
  match a with
  | IMAP_ARG_NIL _ => TYPE_NIL
  | IMAP_ARG_ATOM _ => TYPE_ATOM
  | IMAP_ARG_STRING _ _ => TYPE_STRING
  | IMAP_ARG_LIST _ => TYPE_LIST
  | IMAP_ARG_LITERAL _ _ => TYPE_LITERAL
  | IMAP_ARG_LITERAL_SIZE _ _ => TYPE_LITERAL_SIZE
  | IMAP_ARG_LITERAL_SIZE_NONSYNC _ _ => TYPE_LITERAL_SIZE_NONSYNC
  | IMAP_ARG_EOL => TYPE_EOL
  end.

Definition IMAP_ARG_IS_EOL (a : imap_arg) : bool := bool_decide (arg_type a = TYPE_EOL).

(** The bytes of a buffer as a C string. *)
Definition c_str (s : list Z) : list Z := (span_until (fun c => c =? 0) s).1.

(** Whether [strcasecmp] of two C strings is 0. *)
Definition strcaseeq (s1 s2 : list Z) : bool := bool_decide (map toupper s1 = map toupper s2).

(** The accessors return [None] where the code returns FALSE. *)
Definition imap_arg_get_atom (a : imap_arg) : option (list Z) :=
  match a with
  | IMAP_ARG_ATOM s | IMAP_ARG_NIL s => Some (c_str s)
  | _ => None
  end.

Definition imap_arg_get_quoted (a : imap_arg) : option (list Z) :=
  match a with
  | IMAP_ARG_STRING s _ => Some (c_str s)
  | _ => None
  end.

Definition imap_arg_get_string (a : imap_arg) : option (list Z) :=
  match a with
  | IMAP_ARG_STRING s _ | IMAP_ARG_LITERAL s _ => Some (c_str s)
  | _ => None
  end.

Definition imap_arg_get_astring (a : imap_arg) : option (list Z) :=
  match a with
  | IMAP_ARG_ATOM s | IMAP_ARG_STRING s _ | IMAP_ARG_LITERAL s _ | IMAP_ARG_NIL s => Some (c_str s)
  | _ => None
  end.

(** NULL is [Some None]. *)
Definition imap_arg_get_nstring (a : imap_arg) : option (option (list Z)) :=
  match a with
  | IMAP_ARG_NIL _ => Some None
  | _ => s ← imap_arg_get_astring a; Some (Some s)
  end.

Definition imap_arg_get_literal_size (a : imap_arg) : option Z :=
  match a with
  | IMAP_ARG_LITERAL_SIZE n _ | IMAP_ARG_LITERAL_SIZE_NONSYNC n _ => Some n
  | _ => None
  end.

(** The list with its end marker, and its length without it; the outer
    [None] is the failed assertion of an empty array. *)
Definition imap_arg_get_list_full (a : imap_arg) : option (option (list imap_arg * nat)) :=
  match a with
  | IMAP_ARG_LIST l => _ ← assert (0 <? length l)%nat; Some (Some (l, length l - 1)%nat)
  | _ => Some None
  end.

Definition imap_arg_get_list (a : imap_arg) : option (option (list imap_arg)) :=
  r ← imap_arg_get_list_full a; Some (option_map fst r).

(** The variants for arguments of the right type fail where the code panics. *)
Definition imap_arg_as_astring (a : imap_arg) : option (list Z) := imap_arg_get_astring a.
Definition imap_arg_as_nstring (a : imap_arg) : option (option (list Z)) := imap_arg_get_nstring a.
Definition imap_arg_as_literal_size (a : imap_arg) : option Z := imap_arg_get_literal_size a.
Definition imap_arg_as_list (a : imap_arg) : option (list imap_arg) := l ← imap_arg_get_list a; l.

Definition imap_arg_atom_equals (a : imap_arg) (s : list Z) : bool :=
  match imap_arg_get_atom a with
  | Some value => strcaseeq value s
  | None => false
  end.

(** ** Lemmas *)

Lemma c_str_id s : Forall (fun c => c <> 0) s -> c_str s = s.
Proof.
  unfold c_str. induction 1 as [|c s Hc _ IH]; [done |]. cbn. rewrite (proj2 (Z.eqb_neq _ _)) by done.
  destruct (span_until _ s). cbn in *. by rewrite IH.
Qed.

Lemma c_str_app a b : Forall (fun c => c <> 0) a -> c_str (a ++ 0 :: b) = a.
Proof.
  unfold c_str. induction 1 as [|c s Hc _ IH]; [done |]. cbn. rewrite (proj2 (Z.eqb_neq _ _)) by done.
  destruct (span_until _ (s ++ 0 :: b)). cbn in *. by rewrite IH.
Qed.
