(* ===== verification/ImapQuote.v ===== *)
(** * Writing IMAP strings and arguments (src/src/lib-imap/imap-quote.c, imap-util.c)

    What the server sends and what it logs: strings as atoms, in quotes or as
    literals, flags, sequence ranges and whole arguments.  A function that appends to
    [dest] is modelled by what it appends; NULL is [None], and strings are
    shorter than 2^32 bytes.  The theorems about these functions are in
    ImapWriteProps.v, with the parser that reads what they write. *)

From S2P Require Import Prelude SeqRange Strnum Strescape ImapArg.

(** The conversions %u and %llu. *)
Definition printf_u (n : Z) : list Z := default [] (dec2str_loop 22 n []).

(** ** Strings *)

Definition QUOTED_MAX_ESCAPE_CHARS : nat := 4.

Definition imap_append_literal (src : list Z) : list Z :=
  [123] ++ printf_u (Z.of_nat (length src)) ++ [125; 13; 10] ++ src.

Fixpoint imap_append_quoted_loop (src : list Z) : list Z :=
  match src with
  | [] => []
  | c :: src =>
      (if (c =? 13) || (c =? 10) then []
       else if (c =? 34) || (c =? 92) then [92; c]
       else if c >=? 0x80 then []
       else [c]) ++ imap_append_quoted_loop src
  end.

Definition imap_append_quoted (src : list Z) : list Z := [34] ++ imap_append_quoted_loop src ++ [34].

(** Whether the loop ends without writing a literal. *)
Fixpoint nstring_is_quoted (escape_count : nat) (src : list Z) : bool :=
  match src with
  | [] => true
  | c :: src =>
      if (c =? 34) || (c =? 92) then
        if (escape_count <? QUOTED_MAX_ESCAPE_CHARS)%nat then nstring_is_quoted (S escape_count) src else false
      else if (c =? 13) || (c =? 10) then false
      else if c >=? 0x80 then false
      else nstring_is_quoted escape_count src
  end.

Definition imap_append_nstring (src : option (list Z)) : list Z :=
  match src with
  | None => str "NIL"
  | Some src => if nstring_is_quoted 0 src then imap_append_quoted src else imap_append_literal src
  end.

Definition imap_append_string (src : list Z) : list Z := imap_append_nstring (Some src).

Definition imap_append_astring (src : list Z) : list Z :=
  if negb (forallb IS_ASTRING_CHAR src) then imap_append_string src
  else if (length src =? 0)%nat || strcaseeq src (str "NIL") then imap_append_string src
  else src.

(** ** Strings for humans *)

(** The first loop.  The booleans are [whitespace_prefix], [last_lwsp] and
    [modify]; the number is [remove_count]. *)
Definition humans_check1 (st : bool * bool * bool * nat) (c : Z) : bool * bool * bool * nat :=
  let '(whitespace_prefix, last_lwsp, modify, remove_count) := st in
  let '(last_lwsp, modify, remove_count) :=
    if c =? 0 then (false, true, remove_count)
    else if (c =? 9) || (c =? 32) then
      let modify := if c =? 9 then true else modify in
      if last_lwsp then (true, true, S remove_count) else (true, modify, remove_count)
    else if (c =? 13) || (c =? 10) then (last_lwsp, true, S remove_count)
    else if (c =? 34) || (c =? 92) then (false, true, remove_count)
    else (false, if negb (Z.land c 0x80 =? 0) then true else modify, remove_count) in
  (if negb last_lwsp then false else whitespace_prefix, last_lwsp, modify, remove_count).

Definition humans_check (src : list Z) : bool * nat :=
  let '(whitespace_prefix, last_lwsp, modify, remove_count) := fold_left humans_check1 src (true, true, false, O) in
  if last_lwsp && (0 <? length src)%nat && negb whitespace_prefix then (true, S remove_count) else (modify, remove_count).

(** The second loop, with what it has written. *)
Definition humans_write1 (st : bool * bool * list Z) (c : Z) : bool * bool * list Z :=
  let '(whitespace_prefix, last_lwsp, dest) := st in
  let '(last_lwsp, dest) :=
    if c =? 0 then (false, dest ++ [128])
    else if (c =? 9) || (c =? 32) then (true, if negb last_lwsp then dest ++ [32] else dest)
    else if (c =? 13) || (c =? 10) then (last_lwsp, dest)
    else (false, dest ++ [c]) in
  (if negb last_lwsp then false else whitespace_prefix, last_lwsp, dest).

Definition humans_write (src : list Z) : list Z :=
  let '(whitespace_prefix, last_lwsp, dest) := fold_left humans_write1 src (true, true, []) in
  if last_lwsp && (0 <? length src)%nat && negb whitespace_prefix then take (length dest - 1) dest else dest.

Definition imap_append_string_for_humans (src : list Z) : option (list Z) :=
  let '(modify, remove_count) := humans_check src in
  if negb modify then Some ([34] ++ src ++ [34])
  else if (length src =? remove_count)%nat then Some [34; 34]
  else
    let dest := humans_write src in
    _ ← assert (length dest =? length src - remove_count)%nat;
    Some ([123] ++ printf_u (Z.of_nat (length src - remove_count)) ++ [125; 13; 10] ++ dest).

(** ** Flags *)

Definition MAIL_ANSWERED : Z := 0x01.
Definition MAIL_FLAGGED : Z := 0x02.
Definition MAIL_DELETED : Z := 0x04.
Definition MAIL_SEEN : Z := 0x08.
Definition MAIL_DRAFT : Z := 0x10.
Definition MAIL_RECENT : Z := 0x20.

(** NULL keywords are the empty list. *)
Definition imap_write_flags (flags : Z) (keywords : list (list Z)) : list Z :=
  let flag f name := if negb (Z.land flags f =? 0) then str name else [] in
  let dest := flag MAIL_ANSWERED "\Answered "%string ++ flag MAIL_FLAGGED "\Flagged "%string ++ flag MAIL_DELETED "\Deleted "%string ++
    flag MAIL_SEEN "\Seen "%string ++ flag MAIL_DRAFT "\Draft "%string ++ flag MAIL_RECENT "\Recent "%string ++
    flat_map (fun keyword => keyword ++ [32]) keywords in
  if negb (length dest =? 0)%nat then take (length dest - 1) dest else dest.

Definition imap_parse_system_flag (s : list Z) : Z :=
  if strcaseeq s (str "\Answered") then MAIL_ANSWERED
  else if strcaseeq s (str "\Flagged") then MAIL_FLAGGED
  else if strcaseeq s (str "\Deleted") then MAIL_DELETED
  else if strcaseeq s (str "\Seen") then MAIL_SEEN
  else if strcaseeq s (str "\Draft") then MAIL_DRAFT
  else if strcaseeq s (str "\Recent") then MAIL_RECENT
  else 0.

(** ** Sequence ranges *)

Fixpoint write_seq_range_loop (first : bool) (range : list seq_range) : list Z :=
  match range with
  | [] => []
  | r :: range =>
      (if first then [] else [44]) ++ printf_u (seq1 r) ++
      (if negb (seq1 r =? seq2 r) then [58] ++ printf_u (seq2 r) else []) ++ write_seq_range_loop false range
  end.

Definition imap_write_seq_range (array : list seq_range) : list Z := write_seq_range_loop true array.

(** ** Arguments *)

(** The loop over arguments up to the end marker; without one it would read
    behind the array. *)
Section WriteArgs.
Variable write_arg : imap_arg -> option (list Z).

Fixpoint write_args_loop (first : bool) (args : list imap_arg) : option (list Z) :=
  match args with
  | [] => None
  | a :: args =>
      if IMAP_ARG_IS_EOL a then Some []
      else
        s ← write_arg a;
        rest ← write_args_loop false args;
        Some ((if first then [] else [32]) ++ s ++ rest)
  end.
End WriteArgs.

(** One round of the loop; the recursive call is over [imap_arg_as_list]. *)
Fixpoint write_arg (a : imap_arg) : option (list Z) :=
  match a with
  | IMAP_ARG_NIL _ => Some (str "NIL")
  | IMAP_ARG_ATOM _ => imap_arg_as_astring a
  | IMAP_ARG_STRING _ _ => s ← imap_arg_as_astring a; Some ([34] ++ str_escape s ++ [34])
  | IMAP_ARG_LITERAL _ _ => s ← imap_arg_as_astring a; Some ([123] ++ printf_u (Z.of_nat (length s)) ++ [125; 13; 10] ++ s)
  | IMAP_ARG_LIST l =>
      _ ← imap_arg_as_list a;
      s ← write_args_loop write_arg true l;
      Some ([40] ++ s ++ [41])
  | IMAP_ARG_LITERAL_SIZE _ _ | IMAP_ARG_LITERAL_SIZE_NONSYNC _ _ =>
      n ← imap_arg_as_literal_size a;
      Some ([123] ++ printf_u n ++ [125; 13; 10] ++ str "<too large>")
  | IMAP_ARG_EOL => None
  end.

Definition imap_write_args (args : list imap_arg) : option (list Z) := write_args_loop write_arg true args.

Definition imap_args_to_str (args : list imap_arg) : option (list Z) := imap_write_args args.
