(* ===== verification/ImapParser.v ===== *)
(** * The parser of IMAP commands (src/src/lib-imap/imap-parser.c)

    The parser reads arguments from the data that its input stream has
    buffered, keeps its position when the data ends inside an argument, and
    continues when it is called again with more data.

    [input] is the data that is buffered and not yet skipped; the local
    variables [data] and [data_size] of the code always describe it.
    [skip_left] is the number of bytes that the stream still has to skip when
    it reads.  [output] is what was sent to the client, [None] when there is no stream.
    The list that is being filled is [cur_list]; [parents] has, for each list
    around it, the elements before the list that is still open, innermost
    first, and [root_after] the elements behind it in the root list, where
    end markers are appended while lists are open.  So [list_arg] is NULL when
    [parents] is empty.  Sizes of lines and of the buffer are not wrapped: they
    count bytes that were received.

    [None] is a failed assertion or an access outside of a buffer. *)

From S2P Require Import Prelude Strescape ImapArg.

Definition IMAP_PARSE_FLAG_LITERAL_SIZE : Z := 0x01.
Definition IMAP_PARSE_FLAG_NO_UNESCAPE : Z := 0x02.
Definition IMAP_PARSE_FLAG_LITERAL_TYPE : Z := 0x04.
Definition IMAP_PARSE_FLAG_ATOM_ALLCHARS : Z := 0x08.
Definition IMAP_PARSE_FLAG_MULTILINE_STR : Z := 0x10.
Definition IMAP_PARSE_FLAG_INSIDE_LIST : Z := 0x20.
Definition IMAP_PARSE_FLAG_LITERAL8 : Z := 0x40.
Definition IMAP_PARSE_FLAG_SERVER_TEXT : Z := 0x80.
Definition IMAP_PARSE_FLAG_STOP_AT_LIST : Z := 0x100.

Definition IS_ATOM_PARSER_INPUT (c : Z) : bool :=
  (c =? 40) || (c =? 41) || (c =? 123) || (c =? 34) || (c <=? 32) || (c =? 127).
Definition is_linebreak (c : Z) : bool := (c =? 13) || (c =? 10).

Inductive arg_parse_type :=
  | ARG_PARSE_NONE | ARG_PARSE_ATOM | ARG_PARSE_STRING | ARG_PARSE_LITERAL | ARG_PARSE_LITERAL8
  | ARG_PARSE_LITERAL_DATA | ARG_PARSE_LITERAL_DATA_FORCED | ARG_PARSE_TEXT.

#[export] Instance arg_parse_type_eq_dec : EqDecision arg_parse_type.
Proof. solve_decision. Defined.

(** ** The state *)

Record imap_parser := Parser {
  input : list Z;
  skip_left : nat;
  output : option (list Z);
  max_line_size : Z;
  flags : Z;
  line_size : Z;
  parents : list (list imap_arg);
  cur_list : list imap_arg;
  root_after : list imap_arg;
  cur_type : arg_parse_type;
  cur_pos : nat;
  cur_resp_text : bool;
  str_first_escape : Z;
  literal_size : Z;
  error : option (list Z);
  literal_skip_crlf : bool;
  literal_nonsync : bool;
  literal8 : bool;
  literal_size_return : bool;
  eol : bool;
  args_added_extra_eol : bool;
  fatal_error : bool;
}.

Definition parser_fields (p : imap_parser) : imap_parser :=
  Parser (input p) (skip_left p) (output p) (max_line_size p) (flags p) (line_size p) (parents p) (cur_list p) (root_after p) (cur_type p)
    (cur_pos p) (cur_resp_text p) (str_first_escape p) (literal_size p) (error p) (literal_skip_crlf p) (literal_nonsync p) (literal8 p)
    (literal_size_return p) (eol p) (args_added_extra_eol p) (fatal_error p).

(** The record [p] with the value [v] in the field [f]. *)
Ltac with_field f v p :=
  let e := eval cbv beta delta [parser_fields] in (parser_fields p) in
  match e with context C [f p] => let e' := context C [v] in exact e' end.

Definition set_input (v : list Z) (p : imap_parser) : imap_parser := ltac:(with_field input v p).
Definition set_skip_left (v : nat) (p : imap_parser) : imap_parser := ltac:(with_field skip_left v p).
Definition set_output (v : option (list Z)) (p : imap_parser) : imap_parser := ltac:(with_field output v p).
Definition set_flags (v : Z) (p : imap_parser) : imap_parser := ltac:(with_field flags v p).
Definition set_line_size (v : Z) (p : imap_parser) : imap_parser := ltac:(with_field line_size v p).
Definition set_parents (v : list (list imap_arg)) (p : imap_parser) : imap_parser := ltac:(with_field parents v p).
Definition set_cur_list (v : list imap_arg) (p : imap_parser) : imap_parser := ltac:(with_field cur_list v p).
Definition set_root_after (v : list imap_arg) (p : imap_parser) : imap_parser := ltac:(with_field root_after v p).
Definition set_cur_type (v : arg_parse_type) (p : imap_parser) : imap_parser := ltac:(with_field cur_type v p).
Definition set_cur_pos (v : nat) (p : imap_parser) : imap_parser := ltac:(with_field cur_pos v p).
Definition set_cur_resp_text (v : bool) (p : imap_parser) : imap_parser := ltac:(with_field cur_resp_text v p).
Definition set_str_first_escape (v : Z) (p : imap_parser) : imap_parser := ltac:(with_field str_first_escape v p).
Definition set_literal_size (v : Z) (p : imap_parser) : imap_parser := ltac:(with_field literal_size v p).
Definition set_error (v : option (list Z)) (p : imap_parser) : imap_parser := ltac:(with_field error v p).
Definition set_literal_skip_crlf (v : bool) (p : imap_parser) : imap_parser := ltac:(with_field literal_skip_crlf v p).
Definition set_literal_nonsync (v : bool) (p : imap_parser) : imap_parser := ltac:(with_field literal_nonsync v p).
Definition set_literal8 (v : bool) (p : imap_parser) : imap_parser := ltac:(with_field literal8 v p).
Definition set_literal_size_return (v : bool) (p : imap_parser) : imap_parser := ltac:(with_field literal_size_return v p).
Definition set_eol (v : bool) (p : imap_parser) : imap_parser := ltac:(with_field eol v p).
Definition set_args_added_extra_eol (v : bool) (p : imap_parser) : imap_parser := ltac:(with_field args_added_extra_eol v p).
Definition set_fatal_error (v : bool) (p : imap_parser) : imap_parser := ltac:(with_field fatal_error v p).

Definition has_flag (p : imap_parser) (flag : Z) : bool := negb (Z.land (flags p) flag =? 0).
Definition fail (e : list Z) (p : imap_parser) : imap_parser := set_error (Some e) p.
Definition missing_quote : list Z := str "Missing '" ++ [34; 39].

(** The root list with the open lists in it. *)
Definition root_list (p : imap_parser) : list imap_arg :=
  fold_left (fun inner before => before ++ [IMAP_ARG_LIST inner]) (parents p) (cur_list p) ++ root_after p.

Definition imap_parser_create (input : list Z) (output : option (list Z)) (max_line_size : Z) : imap_parser :=
  Parser input 0 output max_line_size 0 0 [] [] [] ARG_PARSE_NONE 0 false 0 0 None false false false false false false false.

(** The members that are not reset are those above [line_size], and
    [literal_nonsync], [literal8] and [fatal_error]. *)
Definition imap_parser_reset (p : imap_parser) : imap_parser :=
  Parser (input p) (skip_left p) (output p) (max_line_size p) (flags p) 0 [] [] [] ARG_PARSE_NONE 0 false 0 0 None
    false (literal_nonsync p) (literal8 p) false false false (fatal_error p).

Definition imap_parser_set_streams (p : imap_parser) (input : list Z) (output : option (list Z)) : imap_parser :=
  set_output output (set_skip_left 0 (set_input input p)).

Definition imap_parser_get_error (p : imap_parser) : option (list Z) * bool := (error p, fatal_error p).

(** [i_stream_skip] of src/src/lib/istream.c: what is not buffered is skipped
    when it is read. *)
Definition i_stream_skip (n : nat) (p : imap_parser) : imap_parser :=
  if (n <=? length (input p))%nat then set_input (drop n (input p)) p
  else set_skip_left (skip_left p + (n - length (input p))) (set_input [] p).

(** A skip that counts for the size of the line. *)
Definition skip_counted (n : nat) (p : imap_parser) : imap_parser :=
  i_stream_skip n (set_line_size (line_size p + Z.of_nat n) p).

(** ** Arguments *)

Fixpoint count_spaces (data : list Z) : nat :=
  match data with
  | c :: data => if c =? 32 then S (count_spaces data) else O
  | [] => O
  end.

Definition imap_parser_skip_to_next (p : imap_parser) : imap_parser * bool :=
  let i := (cur_pos p + count_spaces (drop (cur_pos p) (input p)))%nat in
  let p := set_cur_pos 0 (skip_counted i p) in
  (p, (0 <? length (input p))%nat).

(** [imap_arg_create] and the assignment of its members. *)
Definition add_arg (a : imap_arg) (p : imap_parser) : imap_parser := set_cur_list (cur_list p ++ [a]) p.

Definition imap_parser_open_list (p : imap_parser) : imap_parser :=
  set_cur_type ARG_PARSE_NONE (set_cur_list [] (set_parents (cur_list p :: parents p) p)).

Definition imap_parser_close_list (p : imap_parser) : imap_parser * bool :=
  match parents p with
  | [] =>
      if has_flag p IMAP_PARSE_FLAG_INSIDE_LIST then (set_cur_type ARG_PARSE_NONE (set_eol true p), true)
      else (fail (str "Unexpected ')'") p, false)
  | before :: outer =>
      let l := before ++ [IMAP_ARG_LIST (cur_list p ++ [IMAP_ARG_EOL])] in
      let p := match outer with
               | [] => set_root_after [] (set_cur_list (l ++ root_after p) p)
               | _ => set_cur_list l p
               end in
      (set_cur_type ARG_PARSE_NONE (set_parents outer p), true)
  end.

(** [str_unescape] from a position of the string; reading and writing start
    outside of it when the position is behind its end. *)
Definition unescape_from (s : list Z) (pos : Z) : option (list Z) :=
  if pos <=? Z.of_nat (length s) then Some (take (Z.to_nat pos) s ++ str_unescape (drop (Z.to_nat pos) s)) else None.

(** The argument whose [size] bytes are [data]. *)
Definition arg_of_data (p : imap_parser) (data : list Z) : option imap_arg :=
  match cur_type p with
  | ARG_PARSE_ATOM | ARG_PARSE_TEXT =>
      Some (if (length data =? 3)%nat && strcaseeq data (str "NIL") then IMAP_ARG_NIL data else IMAP_ARG_ATOM data)
  | ARG_PARSE_STRING =>
      _ ← assert (0 <? length data)%nat;
      let s := c_str (drop 1 data) in
      s ← (if (0 <=? str_first_escape p) && negb (has_flag p IMAP_PARSE_FLAG_NO_UNESCAPE)
           then unescape_from s (str_first_escape p - 1) else Some s);
      Some (IMAP_ARG_STRING s false)
  | ARG_PARSE_LITERAL_DATA | ARG_PARSE_LITERAL_DATA_FORCED =>
      Some (if bool_decide (cur_type p = ARG_PARSE_LITERAL_DATA) && has_flag p IMAP_PARSE_FLAG_LITERAL_SIZE
            then (if literal_nonsync p then IMAP_ARG_LITERAL_SIZE_NONSYNC else IMAP_ARG_LITERAL_SIZE) (literal_size p) (literal8 p)
            else (if has_flag p IMAP_PARSE_FLAG_LITERAL_TYPE then IMAP_ARG_LITERAL else IMAP_ARG_STRING) data (literal8 p))
  | _ => None
  end.

Definition imap_parser_save_arg (p : imap_parser) (data : list Z) : option imap_parser :=
  arg ← arg_of_data p data;
  Some (set_cur_type ARG_PARSE_NONE (add_arg arg p)).

Definition is_valid_atom_char (p : imap_parser) (chr : Z) : imap_parser * bool :=
  if IS_ATOM_PARSER_INPUT chr then
    if has_flag p IMAP_PARSE_FLAG_ATOM_ALLCHARS then (p, true) else (fail (str "Invalid characters in atom") p, false)
  else if negb (Z.land chr 0x80 =? 0) then
    if has_flag p IMAP_PARSE_FLAG_ATOM_ALLCHARS then (p, true) else (fail (str "8bit data in atom") p, false)
  else (p, true).

(** ** The readers

    Each loop is over the data behind the position [i].  A reader ends with
    the position it has reached and tells whether the argument was saved. *)

Definition type_is_none (p : imap_parser) : bool := bool_decide (cur_type p = ARG_PARSE_NONE).
Definition list_is_open (p : imap_parser) : bool := negb (length (parents p) =? 0)%nat.

Definition stop_at (i : nat) (p : imap_parser) : imap_parser * bool :=
  let p := set_cur_pos i p in (p, type_is_none p).

(** Saving the [i] bytes before the position and stopping at [j]. *)
Definition save_stop (i j : nat) (p : imap_parser) : option (imap_parser * bool) :=
  p ← imap_parser_save_arg p (take i (input p));
  Some (stop_at j p).

Fixpoint read_atom_loop (p : imap_parser) (rest : list Z) (i : nat) : option (imap_parser * bool) :=
  match rest with
  | [] => Some (stop_at i p)
  | c :: rest =>
      if (c =? 32) || is_linebreak c then save_stop i i p
      else if c =? 41 then
        if list_is_open p || has_flag p IMAP_PARSE_FLAG_INSIDE_LIST then save_stop i i p
        else if negb (has_flag p IMAP_PARSE_FLAG_ATOM_ALLCHARS) then Some (fail (str "Unexpected ')'") p, false)
        else read_atom_loop p rest (S i)
      else
        let '(p, valid) := is_valid_atom_char p c in
        if negb valid then Some (p, false) else read_atom_loop p rest (S i)
  end.

Definition imap_parser_read_atom (p : imap_parser) : option (imap_parser * bool) :=
  read_atom_loop p (drop (cur_pos p) (input p)) (cur_pos p).

(** A backslash is read with the character behind it, or left for the next
    time when the data ends with it. *)
Fixpoint read_string_loop (p : imap_parser) (rest : list Z) (i : nat) : option (imap_parser * bool) :=
  match rest with
  | [] => Some (stop_at i p)
  | c :: rest =>
      if c =? 34 then save_stop i (S i) p
      else if c =? 92 then
        match rest with
        | [] => Some (stop_at i p)
        | c :: rest =>
            let p := if str_first_escape p <? 0 then set_str_first_escape (Z.of_nat i) p else p in
            if is_linebreak c && negb (has_flag p IMAP_PARSE_FLAG_MULTILINE_STR) then Some (fail missing_quote p, false)
            else read_string_loop p rest (S (S i))
        end
      else if is_linebreak c && negb (has_flag p IMAP_PARSE_FLAG_MULTILINE_STR) then Some (fail missing_quote p, false)
      else read_string_loop p rest (S i)
  end.

Definition imap_parser_read_string (p : imap_parser) : option (imap_parser * bool) :=
  read_string_loop p (drop (cur_pos p) (input p)) (cur_pos p).

Definition imap_parser_literal_end (p : imap_parser) : imap_parser * bool :=
  let size_only := has_flag p IMAP_PARSE_FLAG_LITERAL_SIZE in
  if negb size_only && ((line_size p >=? max_line_size p) || (literal_size p >? max_line_size p - line_size p)) then
    (set_fatal_error true (fail (str "Literal size too large") p), false)
  else
    let p := match output p with
             | Some out => if negb size_only && negb (literal_nonsync p) then set_output (Some (out ++ str "+ OK" ++ [13; 10])) p else p
             | None => p
             end in
    (set_cur_pos 0 (set_literal_skip_crlf true (set_cur_type ARG_PARSE_LITERAL_DATA p)), true).

(** [literal_size] is a 64-bit number. *)
Fixpoint read_literal_loop (p : imap_parser) (rest : list Z) (i : nat) : option (imap_parser * bool) :=
  match rest with
  | [] => Some (set_cur_pos i p, false)
  | c :: rest =>
      if c =? 125 then Some (imap_parser_literal_end (skip_counted (S i) p))
      else if literal_nonsync p then Some (fail (str "Expecting '}' after '+'") p, false)
      else if c =? 43 then read_literal_loop (set_literal_nonsync true p) rest (S i)
      else if (c <? 48) || (c >? 57) then Some (fail (str "Invalid literal size") p, false)
      else
        let prev_size := literal_size p in
        let p := set_literal_size ((literal_size p * 10 + (c - 48)) mod 2 ^ 64) p in
        if literal_size p <? prev_size then Some (fail (str "Literal size too large") p, false)
        else read_literal_loop p rest (S i)
  end.

Definition imap_parser_read_literal (p : imap_parser) : option (imap_parser * bool) :=
  read_literal_loop p (drop (cur_pos p) (input p)) (cur_pos p).

(** The line break behind the size; the result tells whether to go on. *)
Definition skip_crlf (p : imap_parser) : option (imap_parser * bool) :=
  match input p with
  | [] => Some (p, false)
  | c :: _ =>
      let p := if c =? 13 then skip_counted 1 p else p in
      match input p with
      | [] => Some (p, false)
      | c :: _ =>
          if negb (c =? 10) then Some (fail (str "Missing LF after literal size") p, false)
          else
            let p := set_literal_skip_crlf false (skip_counted 1 p) in
            _ ← assert (cur_pos p =? 0)%nat;
            Some (p, true)
      end
  end.

Definition imap_parser_read_literal_data (p : imap_parser) : option (imap_parser * bool) :=
  '(p, go_on) ← (if literal_skip_crlf p then skip_crlf p else Some (p, true));
  if negb go_on then Some (p, false)
  else if negb (has_flag p IMAP_PARSE_FLAG_LITERAL_SIZE) || bool_decide (cur_type p = ARG_PARSE_LITERAL_DATA_FORCED) then
    if Z.of_nat (length (input p)) <? literal_size p then Some (p, false)
    else
      let size := Z.to_nat (literal_size p) in
      p ← imap_parser_save_arg p (take size (input p));
      Some (set_cur_pos size p, true)
  else
    p ← imap_parser_save_arg (set_literal_size_return true p) [];
    Some (p, false).

(** ** Text in replies of servers *)

Definition imap_parser_is_next_resp_text (p : imap_parser) : bool :=
  if list_is_open p || negb (length (cur_list p) =? 1)%nat then false
  else
    match cur_list p with
    | IMAP_ARG_ATOM s :: _ => existsb (strcaseeq (c_str s)) [str "OK"; str "NO"; str "BAD"; str "BYE"]
    | _ => false
    end.

(** [None] is the element before the first one. *)
Definition imap_parser_is_next_text (p : imap_parser) : option bool :=
  if list_is_open p then Some false
  else
    arg ← last (cur_list p);
    match arg with
    | IMAP_ARG_ATOM s => Some (match last (c_str s) with Some c => c =? 93 | None => false end)
    | _ => Some false
    end.

Fixpoint read_text_loop (p : imap_parser) (rest : list Z) (i : nat) : option (imap_parser * bool) :=
  match rest with
  | [] => Some (stop_at i p)
  | c :: rest => if is_linebreak c then save_stop i i p else read_text_loop p rest (S i)
  end.

Definition imap_parser_read_text (p : imap_parser) : option (imap_parser * bool) :=
  read_text_loop p (drop (cur_pos p) (input p)) (cur_pos p).

(** ** Reading arguments *)

(** The start of an argument: whether to return, and with which result. *)
Definition start_arg (p : imap_parser) : option (imap_parser * option bool) :=
  match input p with
  | [] => None
  | c :: data =>
      let end_of_line :=
        if has_flag p IMAP_PARSE_FLAG_INSIDE_LIST then (fail (str "Missing ')'") p, Some false)
        else (set_eol true p, Some false) in
      if c =? 13 then
        match data with
        | [] => Some (p, Some false)
        | c :: _ => if negb (c =? 10) then Some (fail (str "CR sent without LF") p, Some false) else Some end_of_line
        end
      else if c =? 10 then Some end_of_line
      else if c =? 34 then Some (set_str_first_escape (-1) (set_cur_type ARG_PARSE_STRING p), None)
      else if c =? 126 then
        match data with
        | [] => Some (p, Some false)
        | c :: _ =>
            if negb (c =? 123) then Some (set_cur_type ARG_PARSE_ATOM p, None)
            else if negb (has_flag p IMAP_PARSE_FLAG_LITERAL8) then Some (fail (str "literal8 not allowed here") p, Some false)
            else Some (set_literal8 true (set_literal_nonsync false (set_literal_size 0 (set_cur_type ARG_PARSE_LITERAL8 p))), None)
        end
      else if c =? 123 then
        Some (set_literal8 false (set_literal_nonsync false (set_literal_size 0 (set_cur_type ARG_PARSE_LITERAL p))), None)
      else if c =? 40 then
        let p := imap_parser_open_list p in
        if has_flag p IMAP_PARSE_FLAG_STOP_AT_LIST then Some (i_stream_skip 1 p, Some false) else Some (p, None)
      else if c =? 41 then
        let '(p, closed) := imap_parser_close_list p in
        if negb closed then Some (p, Some false)
        else if negb (list_is_open p) then Some (set_cur_pos (S (cur_pos p)) p, Some true)
        else Some (p, None)
      else
        let '(p, valid) := is_valid_atom_char p c in
        if negb valid then Some (p, Some false) else Some (set_cur_type ARG_PARSE_ATOM p, None)
  end.

(** The loop while no argument was begun.  Each round skips what the one
    before has read. *)
Fixpoint begin_loop (fuel : nat) (p : imap_parser) : option (imap_parser * option bool) :=
  match fuel with
  | O => None
  | S fuel =>
      if negb (type_is_none p) then Some (p, None)
      else
        let '(p, more) := imap_parser_skip_to_next p in
        if negb more then Some (p, Some false)
        else
          _ ← assert (cur_pos p =? 0)%nat;
          text ← (if cur_resp_text p then imap_parser_is_next_text p else Some false);
          if (text : bool) then Some (set_cur_type ARG_PARSE_TEXT p, None)
          else
            '(p, ret) ← start_arg p;
            match ret with
            | Some b => Some (p, Some b)
            | None => begin_loop fuel (set_cur_pos (S (cur_pos p)) p)
            end
  end.

(** The reader for the argument that was begun. *)
Definition continue_arg (p : imap_parser) : option (imap_parser * bool) :=
  _ ← assert (0 <? length (input p))%nat;
  let read_literal p :=
    '(p, ok) ← imap_parser_read_literal p;
    if negb ok then Some (p, false) else imap_parser_read_literal_data p in
  match cur_type p with
  | ARG_PARSE_ATOM =>
      '(p, ok) ← imap_parser_read_atom p;
      if negb ok then Some (p, false)
      else if has_flag p IMAP_PARSE_FLAG_SERVER_TEXT && imap_parser_is_next_resp_text p then Some (set_cur_resp_text true p, true)
      else Some (p, true)
  | ARG_PARSE_STRING => imap_parser_read_string p
  | ARG_PARSE_LITERAL8 =>
      if (cur_pos p =? length (input p))%nat then Some (p, false)
      else
        c ← input p !! cur_pos p;
        if negb (c =? 123) then Some (fail (str "Expected '{'") p, false)
        else read_literal (set_cur_pos (S (cur_pos p)) (set_cur_type ARG_PARSE_LITERAL p))
  | ARG_PARSE_LITERAL => read_literal p
  | ARG_PARSE_LITERAL_DATA | ARG_PARSE_LITERAL_DATA_FORCED => imap_parser_read_literal_data p
  | ARG_PARSE_TEXT => imap_parser_read_text p
  | ARG_PARSE_NONE => None
  end.

Definition imap_parser_read_arg (p : imap_parser) : option (imap_parser * bool) :=
  if (length (input p) =? 0)%nat then Some (p, false)
  else
    '(p, ret) ← begin_loop (S (S (length (input p)))) p;
    match ret with
    | Some b => Some (p, b)
    | None =>
        '(p, ok) ← continue_arg p;
        if negb ok then Some (p, false)
        else _ ← assert (type_is_none p); Some (p, true)
    end.

Definition IS_UNFINISHED (p : imap_parser) : bool :=
  negb (type_is_none p) || (list_is_open p && negb (has_flag p IMAP_PARSE_FLAG_STOP_AT_LIST)).

(** Appending to and deleting from the end of the root list. *)
Definition root_append (a : imap_arg) (p : imap_parser) : imap_parser :=
  if list_is_open p then set_root_after (root_after p ++ [a]) p else set_cur_list (cur_list p ++ [a]) p.

Definition root_delete_last (p : imap_parser) : option imap_parser :=
  if list_is_open p then
    _ ← last (root_after p); Some (set_root_after (removelast (root_after p)) p)
  else
    _ ← last (cur_list p); Some (set_cur_list (removelast (cur_list p)) p).

(** The result is the return value and the arguments, which are NULL on
    errors. *)
Definition finish_line (p : imap_parser) : imap_parser * Z * option (list imap_arg) :=
  let ret := Z.of_nat (length (root_list p)) in
  let p := set_cur_resp_text false (set_cur_pos 0 (skip_counted (cur_pos p) p)) in
  if list_is_open p && negb (literal_size_return p) && negb (has_flag p IMAP_PARSE_FLAG_STOP_AT_LIST) then
    (fail (str "Missing ')'") p, -1, None)
  else
    let p := set_args_added_extra_eol true (root_append IMAP_ARG_EOL p) in
    (p, ret, Some (root_list p)).

Fixpoint read_args_loop (fuel : nat) (count : nat) (p : imap_parser) : option imap_parser :=
  match fuel with
  | O => None
  | S fuel =>
      if negb (eol p) && ((count =? 0)%nat || IS_UNFINISHED p || (length (root_list p) <? count)%nat) then
        '(p, ok) ← imap_parser_read_arg p;
        if negb ok then Some p
        else if line_size p >? max_line_size p then Some (fail (str "IMAP command line too large") p)
        else read_args_loop fuel count p
      else Some p
  end.

(** Every argument takes a byte of the input, with these exceptions: one whose
    bytes were read before, and an empty text at the end of a line. *)
Definition read_args_fuel (p : imap_parser) : nat := 3 * length (input p) + 4.

Definition imap_parser_read_args (p : imap_parser) (count : nat) (fl : Z) : option (imap_parser * Z * option (list imap_arg)) :=
  let p := set_flags fl p in
  p ← (if args_added_extra_eol p then
         p ← root_delete_last p;
         Some (set_literal_size_return false (set_args_added_extra_eol false p))
       else Some p);
  p ← read_args_loop (read_args_fuel p) count p;
  match error p with
  | Some _ => Some (set_cur_pos 0 (skip_counted (cur_pos p) p), -1, None)
  | None =>
      if (negb (IS_UNFINISHED p) && (0 <? count)%nat && (count <=? length (root_list p))%nat) || eol p || literal_size_return p then
        Some (finish_line p)
      else Some (p, -2, None)
  end.

(** The depth at which the last element of an argument, of its last element
    and so on is the size of a literal, with this size. *)
Fixpoint last_literal_size (a : imap_arg) : option (nat * Z) :=
  match a with
  | IMAP_ARG_LITERAL_SIZE n _ | IMAP_ARG_LITERAL_SIZE_NONSYNC n _ => Some (O, n)
  | IMAP_ARG_LIST l =>
      (fix go l := match l with
                   | [] => None
                   | [a] => '(d, n) ← last_literal_size a; Some (S d, n)
                   | _ :: l => go l
                   end) l
  | _ => None
  end.

(** The outer [None] is a failed assertion. *)
Definition imap_parser_get_last_literal_size (p : imap_parser) : option (option (nat * Z)) :=
  let args := root_list p in
  _ ← assert (1 <? length args)%nat;
  eol_arg ← last args;
  _ ← assert (IMAP_ARG_IS_EOL eol_arg);
  arg ← last (removelast args);
  Some (last_literal_size arg).

Definition imap_parser_get_literal_size (p : imap_parser) : option (option Z) :=
  r ← imap_parser_get_last_literal_size p;
  Some (option_map snd r).

(** The list that ends with the size is the one being filled: closed lists end
    with a marker, and the lists around it with an open list. *)
Definition imap_parser_read_last_literal (p : imap_parser) : option imap_parser :=
  _ ← assert (literal_size_return p);
  r ← imap_parser_get_last_literal_size p;
  '(depth, size) ← r;
  let p := set_cur_type ARG_PARSE_LITERAL_DATA_FORCED p in
  _ ← assert (literal_size p =? size);
  p ← root_delete_last p;
  let p := set_args_added_extra_eol false p in
  _ ← assert (depth =? length (parents p))%nat;
  Some (set_literal_size_return false (set_cur_list (removelast (cur_list p)) p)).

Definition imap_parser_finish_line (p : imap_parser) (count : nat) (fl : Z) : option (imap_parser * Z * option (list imap_arg)) :=
  '(p, ret, args) ← imap_parser_read_args p count fl;
  if ret =? -1 then Some (p, -1, args)
  else
    p ← (if (ret =? -2) && bool_decide (cur_type p = ARG_PARSE_ATOM) then imap_parser_save_arg p (input p) else Some p);
    Some (finish_line p).

Fixpoint word_end (data : list Z) : option nat :=
  match data with
  | [] => None
  | c :: data => if (c =? 32) || (c =? 13) || (c =? 10) then Some O else n ← word_end data; Some (S n)
  end.

(** [None] is a request for more data. *)
Definition imap_parser_read_word (p : imap_parser) : imap_parser * option (list Z) :=
  match word_end (input p) with
  | Some i =>
      let n := if at0 (input p) i =? 32 then S i else i in
      let word := c_str (take i (input p)) in
      (skip_counted n p, Some word)
  | None => (p, None)
  end.
