(* ===== verification/ImapParserProps.v ===== *)
(** * The parser of IMAP commands: invariant and partial input

    The parser may be called with any part of a command and continues when
    more data arrives.  [inv] is what holds between the calls; under it no
    call fails, reads outside of its data or runs forever.  [feed] appends
    data to the input; the lemmas compare a call with little data that is
    followed by a call with the rest to a single call with all of it. *)

From S2P Require Import Prelude Strescape ImapArg ImapParser.

Definition no_nul (s : list Z) : Prop := Forall (fun c => c <> 0) s.

Definition feed (more : list Z) (p : imap_parser) : imap_parser := set_input (input p ++ more) p.

(** Where an error leaves the position in the input depends on how the data
    arrived; everything else does not. *)
Definition forget (p : imap_parser) : imap_parser := set_cur_pos 0 (set_line_size 0 (set_skip_left 0 (set_input [] p))).

Definition same_error (p1 p2 : imap_parser) : Prop := error p1 <> None /\ forget p1 = forget p2.

Definition sim (r1 r2 : option (imap_parser * bool)) : Prop :=
  match r1, r2 with
  | Some (p1, b1), Some (p2, b2) => b1 = b2 /\ (p1 = p2 \/ b1 = false /\ same_error p1 p2)
  | None, None => True
  | _, _ => False
  end.

Lemma sim_refl r : sim r r.
Proof. destruct r as [[p b]|]; cbn; auto. Qed.

Lemma sim_eq r1 r2 : r1 = r2 -> sim r1 r2.
Proof. intros ->. apply sim_refl. Qed.

Lemma sim_bind r1 r2 (k : imap_parser -> option (imap_parser * bool)) :
  sim r1 r2 ->
  sim ('(p, ok) ← r1; if negb ok then Some (p, false) else k p) ('(p, ok) ← r2; if negb ok then Some (p, false) else k p).
Proof.
  destruct r1 as [[p1 b1]|], r2 as [[p2 b2]|]; cbn; try done. intros [-> [->|[-> H]]]; cbn; [apply sim_refl | auto].
Qed.

(** ** The loops of the readers

    A loop saves the argument, fails, or wants more data.  In the first two
    cases more data changes nothing, in the third the loop goes on where it
    was. *)

Section Loops.
Variable more : list Z.
Implicit Types p : imap_parser.

Lemma take_feed p i : (i <= length (input p))%nat -> take i (input (feed more p)) = take i (input p).
Proof. intros. cbn. by rewrite take_app_le by done. Qed.

(** The argument that a reader has saved. *)
Definition saved (a : imap_arg) (j : nat) p : imap_parser := set_cur_pos j (set_cur_type ARG_PARSE_NONE (add_arg a p)).

(** [Q j] holds of the states that the loop has at the position [j], [A j] of
    the argument that is saved there. *)
Definition scanned (Q : nat -> imap_parser -> Prop) (A : nat -> imap_arg -> Prop) (r r_more : option (imap_parser * bool))
    (resume : imap_parser -> nat -> option (imap_parser * bool)) : Prop :=
  (exists q a j, Q j q /\ A j a /\ r = Some (saved a j q, true) /\ r_more = Some (feed more (saved a j q), true)) \/
  (exists q e j, Q j q /\ r = Some (fail e q, false) /\ r_more = Some (feed more (fail e q), false)) \/
  (exists q j, Q j q /\ r = Some (set_cur_pos j q, false) /\ r_more = resume (feed more q) j).

Lemma drop_end {A} (l : list A) i : [] = drop i l -> (i <= length l)%nat -> i = length l.
Proof. intros H Hi. apply (f_equal length) in H. rewrite length_drop in H. cbn in H. lia. Qed.

Lemma drop_cons {A} (l : list A) i c rest : c :: rest = drop i l -> (i < length l)%nat /\ rest = drop (S i) l.
Proof.
  intros H. split; [apply (f_equal length) in H; rewrite length_drop in H; cbn in H; lia |].
  by rewrite <- Nat.add_1_r, <- drop_drop, <- H.
Qed.

Definition save_atom data : imap_arg :=
  if (length data =? 3)%nat && strcaseeq data (str "NIL") then IMAP_ARG_NIL data else IMAP_ARG_ATOM data.

(** Atoms and texts leave the state alone. *)
Definition at_pos p (j : nat) q : Prop := q = p /\ (cur_pos p <= j <= length (input p))%nat.

Definition atom_at p (j : nat) (a : imap_arg) : Prop := a = save_atom (take j (input p)).

Lemma save_stop_atom i p resume :
  (cur_type p = ARG_PARSE_ATOM \/ cur_type p = ARG_PARSE_TEXT) -> (cur_pos p <= i <= length (input p))%nat ->
  scanned (at_pos p) (atom_at p) (save_stop i i p) (save_stop i i (feed more p)) resume.
Proof.
  intros Ht Hi. left. exists p, (save_atom (take i (input p))), i. split; [done |]. split; [done |].
  unfold save_stop. rewrite take_feed by lia. unfold imap_parser_save_arg, arg_of_data. change (cur_type (feed more p)) with (cur_type p).
  by destruct Ht as [-> | ->].
Qed.

Lemma feed_rest p : drop (length (input p)) (input (feed more p)) = [] ++ more.
Proof. cbn. by rewrite drop_app_length. Qed.

Lemma scan_end p resume :
  cur_type p <> ARG_PARSE_NONE -> (cur_pos p <= length (input p))%nat ->
  scanned (at_pos p) (atom_at p) (Some (stop_at (length (input p)) p)) (resume (feed more p) (length (input p))) resume.
Proof.
  intros Ht Hi. right. right. exists p, (length (input p)). split; [unfold at_pos; split; [done | lia] |].
  split; [| done]. unfold stop_at, type_is_none. cbn. by rewrite bool_decide_eq_false_2.
Qed.

Lemma atom_loop_spec p rest i :
  cur_type p = ARG_PARSE_ATOM -> rest = drop i (input p) -> (cur_pos p <= i <= length (input p))%nat ->
  scanned (at_pos p) (atom_at p) (read_atom_loop p rest i) (read_atom_loop (feed more p) (rest ++ more) i) (fun q j => read_atom_loop q (drop j (input q)) j).
Proof.
  intros Ht. revert i. induction rest as [|c rest IH]; intros i Hrest Hi.
  { rewrite (drop_end _ _ Hrest) in * by lia. rewrite <- (feed_rest p). apply (scan_end p (fun q j => read_atom_loop q (drop j (input q)) j)); [congruence | lia]. }
  destruct (drop_cons _ _ _ _ Hrest) as [Hlt Hrest']. specialize (IH (S i) Hrest' ltac:(lia)).
  assert (Hsave := save_stop_atom i p (fun q j => read_atom_loop q (drop j (input q)) j) (or_introl Ht) Hi).
  assert (Hfail : forall e, scanned (at_pos p) (atom_at p) (Some (fail e p, false)) (Some (feed more (fail e p), false)) (fun q j => read_atom_loop q (drop j (input q)) j))
    by (intros e; right; left; exists p, e, i; done).
  cbn [read_atom_loop app]. change (list_is_open (feed more p)) with (list_is_open p).
  change (has_flag (feed more p)) with (has_flag p).
  destruct ((c =? 32) || is_linebreak c); [done |]. destruct (c =? 41).
  - destruct (list_is_open p || _); [done |]. destruct (negb _); [apply Hfail | done].
  - unfold is_valid_atom_char. change (has_flag (feed more p)) with (has_flag p).
    destruct (IS_ATOM_PARSER_INPUT c); [| destruct (negb (Z.land c 128 =? 0))];
      try destruct (has_flag p IMAP_PARSE_FLAG_ATOM_ALLCHARS); cbn [negb]; first [done | apply Hfail].
Qed.

Lemma text_loop_spec p rest i :
  cur_type p = ARG_PARSE_TEXT -> rest = drop i (input p) -> (cur_pos p <= i <= length (input p))%nat ->
  scanned (at_pos p) (atom_at p) (read_text_loop p rest i) (read_text_loop (feed more p) (rest ++ more) i) (fun q j => read_text_loop q (drop j (input q)) j).
Proof.
  intros Ht. revert i. induction rest as [|c rest IH]; intros i Hrest Hi.
  { rewrite (drop_end _ _ Hrest) in * by lia. rewrite <- (feed_rest p). apply (scan_end p (fun q j => read_text_loop q (drop j (input q)) j)); [congruence | lia]. }
  destruct (drop_cons _ _ _ _ Hrest) as [Hlt Hrest']. specialize (IH (S i) Hrest' ltac:(lia)).
  cbn [read_text_loop app]. destruct (is_linebreak c); [| done]. apply save_stop_atom; auto.
Qed.

(** Strings remember the first escape. *)
Definition escape_ok (fe : Z) (j : nat) : Prop := fe = -1 \/ 1 <= fe < Z.of_nat j.

Definition any_arg (_ : nat) (_ : imap_arg) : Prop := True.

Definition in_string p (j : nat) q : Prop :=
  (exists fe, q = set_str_first_escape fe p /\ escape_ok fe j) /\ (cur_pos p <= j <= length (input p))%nat.

Lemma c_str_take s i : no_nul s -> c_str (drop 1 (take i s)) = drop 1 (take i s).
Proof. intros. apply c_str_id. by apply Forall_drop, Forall_take. Qed.

Lemma save_string p i :
  cur_type p = ARG_PARSE_STRING -> no_nul (input p) -> (1 <= i <= length (input p))%nat -> escape_ok (str_first_escape p) i ->
  exists a, save_stop i (S i) p = Some (saved a (S i) p, true) /\ save_stop i (S i) (feed more p) = Some (feed more (saved a (S i) p), true).
Proof.
  intros Ht Hn Hi Hfe. unfold save_stop. rewrite take_feed by lia. unfold imap_parser_save_arg, arg_of_data.
  change (cur_type (feed more p)) with (cur_type p). change (has_flag (feed more p)) with (has_flag p).
  change (str_first_escape (feed more p)) with (str_first_escape p). rewrite Ht, c_str_take by done.
  assert (Hlen : length (take i (input p)) = i) by (rewrite length_take; lia).
  rewrite assert_true by (rewrite Hlen; apply Nat.ltb_lt; lia). cbn [mbind option_bind].
  destruct ((0 <=? str_first_escape p) && _) eqn:He; [| cbn; eauto].
  unfold unescape_from. rewrite (proj2 (Z.leb_le _ _)); [cbn; eauto |]. rewrite length_drop, Hlen.
  apply andb_true_iff in He. destruct He as [He%Z.leb_le _]. destruct Hfe; lia.
Qed.

Lemma scanned_mono (Q Q' : nat -> imap_parser -> Prop) A r r' resume :
  (forall j q, Q j q -> Q' j q) -> scanned Q A r r' resume -> scanned Q' A r r' resume.
Proof.
  intros HQ [(q & a & j & H & ?) | [(q & e & j & H & ?) | (q & j & H & ?)]]; apply HQ in H; unfold scanned; eauto 10.
Qed.

Lemma set_escape_id p : set_str_first_escape (str_first_escape p) p = p.
Proof. by destruct p. Qed.

Lemma in_string_here p i : (cur_pos p <= i <= length (input p))%nat -> escape_ok (str_first_escape p) i -> in_string p i p.
Proof. intros Hi He. split; [| done]. exists (str_first_escape p). by rewrite set_escape_id. Qed.

Lemma string_stop p i :
  cur_type p = ARG_PARSE_STRING -> (cur_pos p <= i <= length (input p))%nat -> escape_ok (str_first_escape p) i ->
  scanned (in_string p) any_arg (Some (stop_at i p)) (read_string_loop (feed more p) (drop i (input (feed more p))) i)
    (fun q j => read_string_loop q (drop j (input q)) j).
Proof.
  intros Ht Hi He. right. right. exists p, i. split; [by apply in_string_here |]. split; [| done].
  unfold stop_at, type_is_none. cbn. by rewrite Ht.
Qed.

Lemma escape_ok_S fe i : escape_ok fe i -> escape_ok fe (S i).
Proof. intros []; [by left | right; lia]. Qed.

Lemma string_fail p q e i resume : in_string p i q -> scanned (in_string p) any_arg (Some (fail e q, false)) (Some (feed more (fail e q), false)) resume.
Proof. right. left. by exists q, e, i. Qed.

(** A character that is not escaped. *)
Lemma string_char p q c rest i :
  in_string p i q -> scanned (in_string p) any_arg (read_string_loop q rest (S i)) (read_string_loop (feed more q) (rest ++ more) (S i))
    (fun q j => read_string_loop q (drop j (input q)) j) ->
  scanned (in_string p) any_arg
    (if is_linebreak c && negb (has_flag q IMAP_PARSE_FLAG_MULTILINE_STR) then Some (fail missing_quote q, false)
     else read_string_loop q rest (S i))
    (if is_linebreak c && negb (has_flag (feed more q) IMAP_PARSE_FLAG_MULTILINE_STR) then Some (fail missing_quote (feed more q), false)
     else read_string_loop (feed more q) (rest ++ more) (S i))
    (fun q j => read_string_loop q (drop j (input q)) j).
Proof.
  intros Hq H. change (has_flag (feed more q)) with (has_flag q). destruct (is_linebreak c && _); [by apply (string_fail p q _ i) | done].
Qed.

Lemma string_loop_spec n p rest i :
  (length rest <= n)%nat -> cur_type p = ARG_PARSE_STRING -> no_nul (input p) -> rest = drop i (input p) ->
  (cur_pos p <= i <= length (input p))%nat -> (1 <= i)%nat -> escape_ok (str_first_escape p) i ->
  scanned (in_string p) any_arg (read_string_loop p rest i) (read_string_loop (feed more p) (rest ++ more) i)
    (fun q j => read_string_loop q (drop j (input q)) j).
Proof.
  revert p rest i. induction n as [|n IH]; intros p rest i Hn Ht Hnul Hrest Hi Hi1 He.
  all: assert (Hmore : rest ++ more = drop i (input (feed more p))) by (cbn; rewrite Hrest, drop_app_le by lia; done).
  all: destruct rest as [|c rest]; [rewrite Hmore; by apply string_stop | cbn in Hn; try lia].
  destruct (drop_cons _ _ _ _ Hrest) as [Hlt Hrest']. pose proof (in_string_here p i Hi He) as Hhere.
  destruct (Z.eqb_spec c 34) as [->|Hq].
  { cbn [read_string_loop app Z.eqb Pos.eqb]. destruct (save_string p i Ht Hnul ltac:(lia) He) as (a & -> & ->). left. exists p, a, (S i). split; [| done].
    apply in_string_here; [lia | by apply escape_ok_S]. }
  destruct (Z.eqb_spec c 92) as [->|Hb].
  - destruct rest as [|c rest]; [rewrite Hmore; by apply string_stop |]. cbn in Hn.
    destruct (drop_cons _ _ _ _ Hrest') as [Hlt' Hrest'']. cbn [read_string_loop app Z.eqb Pos.eqb].
    set (q := if str_first_escape p <? 0 then set_str_first_escape (Z.of_nat i) p else p).
    assert (Hqs : in_string p (S i) q).
    { split; [| lia]. unfold q. destruct (Z.ltb_spec (str_first_escape p) 0).
      - exists (Z.of_nat i). split; [done | right; lia].
      - exists (str_first_escape p). split; [by rewrite set_escape_id | by apply escape_ok_S]. }
    replace (if str_first_escape (feed more p) <? 0 then set_str_first_escape (Z.of_nat i) (feed more p) else feed more p) with (feed more q)
      by (unfold q; cbn; by destruct (_ <? 0)).
    apply (string_char p q c rest (S i) Hqs). destruct Hqs as [(fe & -> & Hfe) _]. eapply (scanned_mono (in_string (set_str_first_escape fe p)) _ any_arg).
    { intros j r [(fe' & -> & ?) ?]. split; [by exists fe' | done]. }
    apply IH; try done; [lia | cbn; lia | lia | by apply escape_ok_S].
  - cbn [read_string_loop app]. rewrite !(proj2 (Z.eqb_neq c _)) by done. apply (string_char p p c rest i Hhere).
    apply IH; try done; [lia | lia | lia | by apply escape_ok_S].
Qed.

(** ** Literals *)

Definition counted (n : nat) p : imap_parser := set_input (drop n (input p)) (set_line_size (line_size p + Z.of_nat n) p).

Lemma skip_counted_ok n p : (n <= length (input p))%nat -> skip_counted n p = counted n p.
Proof. intros. unfold skip_counted, i_stream_skip. cbn [set_line_size input]. by rewrite (proj2 (Nat.leb_le _ _)) by done. Qed.

Lemma counted_feed n p : (n <= length (input p))%nat -> counted n (feed more p) = feed more (counted n p).
Proof. intros. unfold counted, feed. cbn. by rewrite drop_app_le by done. Qed.

Lemma skip_counted_feed n p : (n <= length (input p))%nat -> skip_counted n (feed more p) = feed more (counted n p).
Proof. intros. rewrite skip_counted_ok, counted_feed; [done | done |]. cbn. rewrite length_app. lia. Qed.

Definition in_literal p (j : nat) q : Prop :=
  (exists n b, q = set_literal_size n (set_literal_nonsync b p) /\ 0 <= n) /\ (cur_pos p <= j <= length (input p))%nat.

Definition literal_scanned p (r r_more : option (imap_parser * bool)) : Prop :=
  (exists q i, in_literal p i q /\ (i < length (input p))%nat /\
     r = Some (imap_parser_literal_end (counted (S i) q)) /\ r_more = Some (imap_parser_literal_end (feed more (counted (S i) q)))) \/
  (exists q e j, in_literal p j q /\ r = Some (fail e q, false) /\ r_more = Some (feed more (fail e q), false)) \/
  (exists q, in_literal p (length (input p)) q /\ r = Some (set_cur_pos (length (input p)) q, false) /\
     r_more = read_literal_loop (feed more q) more (length (input p))).

Lemma in_literal_here p i : 0 <= literal_size p -> (cur_pos p <= i <= length (input p))%nat -> in_literal p i p.
Proof. intros Hs Hi. split; [| done]. exists (literal_size p), (literal_nonsync p). split; [by destruct p | done]. Qed.

Lemma in_literal_trans p q i j r : in_literal p i q -> in_literal q j r -> in_literal p j r.
Proof. intros [(n & b & -> & ?) ?] [(n' & b' & -> & ?) Hj]. split; [by exists n', b' | done]. Qed.

Lemma literal_scanned_trans p q i r r' : in_literal p i q -> literal_scanned q r r' -> literal_scanned p r r'.
Proof.
  intros Hpq. assert (Hin : input q = input p) by (by destruct Hpq as [(n & b & -> & _) _]). unfold literal_scanned. rewrite Hin.
  intros [(x & j & H & ?) | [(x & e & j & H & ?) | (x & H & ?)]]; apply (in_literal_trans p q i) in H; eauto 10.
Qed.

Lemma literal_loop_spec p rest i :
  0 <= literal_size p -> rest = drop i (input p) -> (cur_pos p <= i <= length (input p))%nat ->
  literal_scanned p (read_literal_loop p rest i) (read_literal_loop (feed more p) (rest ++ more) i).
Proof.
  revert p i. induction rest as [|c rest IH]; intros p i Hs Hrest Hi.
  { rewrite (drop_end _ _ Hrest) in * by lia. right. right. exists p. split; [by apply in_literal_here |]. done. }
  destruct (drop_cons _ _ _ _ Hrest) as [Hlt Hrest']. pose proof (in_literal_here p i Hs Hi) as Hhere.
  assert (Hfail : forall q e, in_literal p i q -> literal_scanned p (Some (fail e q, false)) (Some (feed more (fail e q), false)))
    by (intros q e Hq; right; left; exists q, e, i; done).
  cbn [read_literal_loop app]. change (literal_nonsync (feed more p)) with (literal_nonsync p).
  change (literal_size (feed more p)) with (literal_size p).
  destruct (c =? 125).
  { left. exists p, i. rewrite skip_counted_ok, skip_counted_feed by lia. done. }
  destruct (literal_nonsync p); [by apply Hfail |]. destruct (c =? 43).
  - apply (literal_scanned_trans p (set_literal_nonsync true p) i).
    + split; [| done]. exists (literal_size p), true. split; [by destruct p | done].
    + apply (IH (set_literal_nonsync true p) (S i)); [done | done | cbn; lia].
  - destruct ((c <? 48) || (c >? 57)); [by apply Hfail |]. set (n := (literal_size p * 10 + (c - 48)) mod 2 ^ 64).
    assert (Hn : 0 <= n) by (apply Z.mod_pos_bound; lia).
    assert (Hq : in_literal p i (set_literal_size n p)).
    { split; [| done]. exists n, (literal_nonsync p). split; [by destruct p | done]. }
    cbn [literal_size set_literal_size]. destruct (n <? literal_size p); [by apply (Hfail (set_literal_size n p)) |].
    apply (literal_scanned_trans p (set_literal_size n p) i _ _ Hq). apply (IH (set_literal_size n p) (S i)); [done | done | cbn; lia].
Qed.

(** The state behind the size of a literal. *)
Definition expects_data (o : option (list Z)) p : imap_parser :=
  set_cur_pos 0 (set_literal_skip_crlf true (set_cur_type ARG_PARSE_LITERAL_DATA (set_output o p))).

Lemma literal_end_spec p :
  (exists e, imap_parser_literal_end p = (set_fatal_error true (fail e p), false) /\
     imap_parser_literal_end (feed more p) = (feed more (set_fatal_error true (fail e p)), false)) \/
  (exists o, imap_parser_literal_end p = (expects_data o p, true) /\ imap_parser_literal_end (feed more p) = (feed more (expects_data o p), true)).
Proof.
  unfold imap_parser_literal_end. change (has_flag (feed more p)) with (has_flag p). cbn [feed set_input line_size max_line_size literal_size output literal_nonsync].
  destruct (negb _ && _); [left; eauto | right].
  destruct (output p) as [out|] eqn:Ho; [| exists None; rewrite <- Ho; by destruct p].
  destruct (negb _ && _); [by exists (Some (out ++ str "+ OK" ++ [13; 10])) | exists (Some out); rewrite <- Ho; by destruct p].
Qed.

Definition cr_split p : Prop := last (input p) = Some 13 -> head more <> Some 13.

(** The data of a literal: saved, failed or only the size returned, or
    waiting for more. *)
Definition data_read p (r r_more : option (imap_parser * bool)) : Prop :=
  (exists q a j k, q = set_literal_skip_crlf false (counted k p) /\ (k + j <= length (input p))%nat /\
     r = Some (saved a j q, true) /\ r_more = Some (feed more (saved a j q), true)) \/
  (exists e k, (k <= length (input p))%nat /\
     r = Some (fail e (counted k p), false) /\ r_more = Some (feed more (fail e (counted k p)), false)) \/
  (exists a k, (k <= length (input p))%nat /\ imap_arg_get_literal_size a = Some (literal_size p) /\
     let q := set_cur_type ARG_PARSE_NONE (add_arg a (set_literal_size_return true (set_literal_skip_crlf false (counted k p)))) in
     r = Some (q, false) /\ r_more = Some (feed more q, false)) \/
  (exists b k, (k <= length (input p))%nat /\
     let q := set_literal_skip_crlf b (counted k p) in
     (input q = [] -> imap_parser_read_literal_data q = Some (q, false)) /\
     r = Some (q, false) /\ (cr_split p -> r_more = imap_parser_read_literal_data (feed more q))).

Definition literal_type p : Prop := cur_type p = ARG_PARSE_LITERAL_DATA \/ cur_type p = ARG_PARSE_LITERAL_DATA_FORCED.

(** What follows the line break. *)
Definition read_bytes p : option (imap_parser * bool) :=
  if negb (has_flag p IMAP_PARSE_FLAG_LITERAL_SIZE) || bool_decide (cur_type p = ARG_PARSE_LITERAL_DATA_FORCED) then
    if Z.of_nat (length (input p)) <? literal_size p then Some (p, false)
    else
      let size := Z.to_nat (literal_size p) in
      p ← imap_parser_save_arg p (take size (input p));
      Some (set_cur_pos size p, true)
  else
    p ← imap_parser_save_arg (set_literal_size_return true p) [];
    Some (p, false).

Lemma save_literal p data :
  literal_type p -> exists a, imap_parser_save_arg p data = Some (set_cur_type ARG_PARSE_NONE (add_arg a p)) /\
    imap_parser_save_arg (feed more p) data = Some (set_cur_type ARG_PARSE_NONE (add_arg a (feed more p))).
Proof.
  intros Ht. unfold imap_parser_save_arg, arg_of_data. change (cur_type (feed more p)) with (cur_type p).
  change (has_flag (feed more p)) with (has_flag p). destruct Ht as [-> | ->]; cbn; eauto.
Qed.

Lemma read_bytes_spec p :
  literal_type p -> 0 <= literal_size p ->
  (exists a j, (j <= length (input p))%nat /\ read_bytes p = Some (saved a j p, true) /\ read_bytes (feed more p) = Some (feed more (saved a j p), true)) \/
  (exists a, imap_arg_get_literal_size a = Some (literal_size p) /\
     let q := set_cur_type ARG_PARSE_NONE (add_arg a (set_literal_size_return true p)) in
     read_bytes p = Some (q, false) /\ read_bytes (feed more p) = Some (feed more q, false)) \/
  (Z.of_nat (length (input p)) < literal_size p /\ read_bytes p = Some (p, false)).
Proof.
  intros Ht Hs. unfold read_bytes. change (cur_type (feed more p)) with (cur_type p).
  change (has_flag (feed more p)) with (has_flag p). change (literal_size (feed more p)) with (literal_size p).
  destruct (negb _ || _) eqn:Hsize.
  - destruct (Z.ltb_spec (Z.of_nat (length (input p))) (literal_size p)); [by right; right |]. left.
    rewrite (proj2 (Z.ltb_ge _ _)) by (cbn; rewrite length_app; lia). rewrite take_feed by lia.
    destruct (save_literal p (take (Z.to_nat (literal_size p)) (input p)) Ht) as (a & -> & ->).
    exists a, (Z.to_nat (literal_size p)). split; [lia | done].
  - right. left. apply orb_false_iff in Hsize. destruct Hsize as [Hfl%negb_false_iff Hforced%bool_decide_eq_false].
    destruct Ht as [Ht|]; [| done]. unfold imap_parser_save_arg, arg_of_data. cbn [feed set_input set_literal_size_return cur_type]. rewrite Ht. cbn.
    change (has_flag _ IMAP_PARSE_FLAG_LITERAL_SIZE) with (has_flag p IMAP_PARSE_FLAG_LITERAL_SIZE). rewrite Hfl.
    eexists. split; [| split; [done |]].
    + by destruct (literal_nonsync p).
    + done.
Qed.

Lemma counted_0 p : counted 0 p = p.
Proof. unfold counted. rewrite Z.add_0_r. by destruct p. Qed.

Lemma counted_counted i j p : counted j (counted i p) = counted (i + j) p.
Proof. unfold counted. cbn. rewrite drop_drop. by replace (line_size p + Z.of_nat i + Z.of_nat j) with (line_size p + Z.of_nat (i + j)) by lia. Qed.

Lemma read_data_skipped p : literal_skip_crlf p = false -> imap_parser_read_literal_data p = read_bytes p.
Proof. intros H. unfold imap_parser_read_literal_data. by rewrite H. Qed.

Lemma set_skip_id p b : literal_skip_crlf p = b -> set_literal_skip_crlf b p = p.
Proof. intros <-. by destruct p. Qed.

(** The bytes of a literal behind the first [k] bytes of the input. *)
Lemma data_read_bytes p k :
  literal_type p -> 0 <= literal_size p -> (k <= length (input p))%nat ->
  let q := set_literal_skip_crlf false (counted k p) in
  data_read p (read_bytes q) (read_bytes (feed more q)).
Proof.
  intros Ht Hs Hk q. destruct (read_bytes_spec q Ht Hs) as [(a & j & Hj & -> & ->) | [(a & Ha & -> & ->) | [Hlen Hwait]]].
  - left. exists q, a, j, k. split; [done |]. split; [cbn in Hj; rewrite length_drop in Hj; lia | done].
  - right. right. left. by exists a, k.
  - right. right. right. exists false, k. split; [done |]. fold q.
    split; [intros _; by rewrite read_data_skipped by done |]. split; [done |]. intros _. by rewrite read_data_skipped by done.
Qed.

(** [skip_crlf] at a line feed and at another character. *)
Definition skip_lf p (rest : list Z) : option (imap_parser * bool) :=
  match rest with
  | [] => Some (p, false)
  | c :: _ =>
      if negb (c =? 10) then Some (fail (str "Missing LF after literal size") p, false)
      else Some (set_literal_skip_crlf false (counted 1 p), true)
  end.

Lemma skip_crlf_eq p :
  cur_pos p = 0%nat ->
  skip_crlf p = match input p with
                | c :: data => if c =? 13 then skip_lf (counted 1 p) data else skip_lf p (c :: data)
                | [] => Some (p, false)
                end.
Proof.
  intros Hpos.
  assert (Hlf : forall q c rest, input q = c :: rest -> cur_pos q = 0%nat ->
    (if negb (c =? 10) then Some (fail (str "Missing LF after literal size") q, false)
     else let q := set_literal_skip_crlf false (skip_counted 1 q) in _ ← assert (cur_pos q =? 0)%nat; Some (q, true))
    = skip_lf q (c :: rest)).
  { intros q c rest Hq Hq0. cbn [skip_lf]. destruct (negb _); [done |]. rewrite skip_counted_ok by (rewrite Hq; cbn; lia). cbn. by rewrite Hq0. }
  unfold skip_crlf. destruct (input p) as [|c data] eqn:Hin; [done |]. destruct (Z.eqb_spec c 13) as [->|Hc].
  - rewrite skip_counted_ok by (rewrite Hin; cbn; lia).
    assert (Hi1 : input (counted 1 p) = data) by (cbn; by rewrite Hin). cbn zeta. rewrite Hi1. destruct data as [|c data]; [done |]. by apply Hlf.
  - cbn zeta. rewrite Hin. exact (Hlf p c data Hin Hpos).
Qed.

Lemma data_read_lf p k rest :
  literal_type p -> 0 <= literal_size p -> literal_skip_crlf p = true -> drop k (input p) = rest -> rest <> [] -> (k <= length (input p))%nat ->
  let q := counted k p in
  data_read p ('(p, go_on) ← skip_lf q rest; if negb go_on then Some (p, false) else read_bytes p)
    ('(p, go_on) ← skip_lf (feed more q) (rest ++ more); if negb go_on then Some (p, false) else read_bytes p).
Proof.
  intros Ht Hs Hskip Hrest Hne Hk q. destruct rest as [|c rest]; [done |]. cbn [skip_lf app]. destruct (negb (c =? 10)).
  - right. left. by exists (str "Missing LF after literal size"), k.
  - assert (Hk1 : (k + 1 <= length (input p))%nat) by (apply (f_equal length) in Hrest; rewrite length_drop in Hrest; cbn in Hrest; lia).
    rewrite counted_feed by (cbn; rewrite length_drop; lia). unfold q. rewrite counted_counted. cbn [mbind option_bind negb].
    by apply (data_read_bytes p (k + 1)).
Qed.

Lemma read_data_unskipped p :
  literal_skip_crlf p = true ->
  imap_parser_read_literal_data p = '(p, go_on) ← skip_crlf p; if negb go_on then Some (p, false) else read_bytes p.
Proof. intros H. unfold imap_parser_read_literal_data. by rewrite H. Qed.

Lemma read_data_spec p :
  literal_type p -> 0 <= literal_size p -> cur_pos p = 0%nat ->
  data_read p (imap_parser_read_literal_data p) (imap_parser_read_literal_data (feed more p)).
Proof.
  intros Ht Hs Hpos. destruct (literal_skip_crlf p) eqn:Hskip.
  2: { rewrite !read_data_skipped by done. pose proof (data_read_bytes p 0 Ht Hs ltac:(lia)) as H. cbn zeta in H.
       rewrite counted_0, set_skip_id in H by done. exact H. }
  destruct (input p) as [|c data] eqn:Hin.
  { right. right. right. exists true, 0%nat. split; [lia |]. rewrite counted_0, set_skip_id by done.
    assert (Hwait : imap_parser_read_literal_data p = Some (p, false)) by (rewrite read_data_unskipped, skip_crlf_eq, Hin by done; done). done. }
  assert (Hlen : (1 <= length (input p))%nat) by (rewrite Hin; cbn; lia).
  rewrite !read_data_unskipped, !skip_crlf_eq by done. change (input (feed more p)) with (input p ++ more). rewrite Hin. cbn [app].
  destruct (Z.eqb_spec c 13) as [->|Hc].
  2: { pose proof (data_read_lf p 0 (c :: data) Ht Hs Hskip) as H. cbn zeta in H. rewrite counted_0 in H. apply H; [by rewrite Hin | done | lia]. }
  rewrite counted_feed by done. destruct data as [|c2 data].
  2: { apply (data_read_lf p 1 (c2 :: data)); [done | done | done | by rewrite Hin | done | lia]. }
  right. right. right. exists true, 1%nat. split; [done |]. rewrite (set_skip_id (counted 1 p)) by done. split; [| split; [done |]].
  { intros Hnil. rewrite read_data_unskipped, skip_crlf_eq by done. by rewrite Hnil. }
  intros Hcr. rewrite read_data_unskipped, skip_crlf_eq by done. replace (input (feed more (counted 1 p))) with more by (cbn; by rewrite Hin).
  unfold cr_split in Hcr. rewrite Hin in Hcr.
  destruct more as [|c more']; [done |]. rewrite (proj2 (Z.eqb_neq c 13)); [done |]. intros ->. by apply Hcr.
Qed.
End Loops.

(** ** The invariant *)

Definition type_ok (p : imap_parser) : Prop :=
  match cur_type p with
  | ARG_PARSE_NONE | ARG_PARSE_TEXT => True
  | ARG_PARSE_ATOM | ARG_PARSE_LITERAL => (1 <= cur_pos p)%nat
  | ARG_PARSE_STRING => (1 <= cur_pos p)%nat /\ escape_ok (str_first_escape p) (cur_pos p)
  | ARG_PARSE_LITERAL8 => cur_pos p = 1%nat /\ input p !! 1%nat = Some 123
  | ARG_PARSE_LITERAL_DATA | ARG_PARSE_LITERAL_DATA_FORCED => cur_pos p = 0%nat
  end.

Record inv (p : imap_parser) : Prop := {
  inv_nul : no_nul (input p);
  inv_pos : (cur_pos p <= length (input p))%nat;
  inv_type : type_ok p;
  inv_size : 0 <= literal_size p;
  inv_text : cur_resp_text p = true -> parents p = [] -> cur_list p <> [];
  inv_after : root_after p = [];
  inv_return : literal_size_return p = true ->
    cur_type p = ARG_PARSE_NONE /\ eol p = false /\ exists l a, cur_list p = l ++ [a] /\ imap_arg_get_literal_size a = Some (literal_size p);
  inv_eol : eol p = true -> cur_type p = ARG_PARSE_NONE;
}.

(** What a call does not change, and the data it leaves. *)
Record advanced (p p' : imap_parser) : Prop := {
  adv_flags : flags p' = flags p;
  adv_max : max_line_size p' = max_line_size p;
  adv_added : args_added_extra_eol p' = args_added_extra_eol p;
  adv_left : skip_left p' = skip_left p;
  adv_input : exists k, (k <= length (input p))%nat /\ input p' = drop k (input p);
}.

Lemma advanced_refl p p' :
  flags p' = flags p -> max_line_size p' = max_line_size p -> args_added_extra_eol p' = args_added_extra_eol p ->
  skip_left p' = skip_left p -> input p' = input p -> advanced p p'.
Proof. intros. split; try done. exists 0%nat. split; [lia | done]. Qed.

Lemma advanced_trans p1 p2 p3 : advanced p1 p2 -> advanced p2 p3 -> advanced p1 p3.
Proof.
  intros [] []. split; try congruence. destruct adv_input0 as (k & Hk & Hin), adv_input1 as (k' & Hk' & Hin').
  exists (k + k')%nat. rewrite Hin', Hin, drop_drop. split; [| done]. rewrite Hin, length_drop in Hk'. lia.
Qed.

Lemma last_drop {A} (l : list A) k x : last (drop k l) = Some x -> last l = Some x.
Proof.
  intros H. rewrite <- (take_drop k l), last_app, H. done.
Qed.

Lemma cr_split_advanced more p p' : advanced p p' -> cr_split more p -> cr_split more p'.
Proof. intros [_ _ _ _ (k & _ & Hin)] H Hl. apply H. rewrite Hin in Hl. by apply last_drop in Hl. Qed.

(** The call has ended, other than by an error or for lack of data. *)
Definition ended (p : imap_parser) : Prop :=
  eol p = true \/ literal_size_return p = true \/ has_flag p IMAP_PARSE_FLAG_STOP_AT_LIST = true.

Definition remaining (p : imap_parser) : nat := length (input p) - cur_pos p.

(** A reader that was called with [p]: [r] is its result, [r_more] the result
    with [more] behind the data, [again] the reader that is called next. *)
Definition outcome (more : list Z) (again : imap_parser -> option (imap_parser * bool)) (p : imap_parser)
    (r r_more : option (imap_parser * bool)) : Prop :=
  exists p' b, r = Some (p', b) /\ advanced p p' /\ (b = true -> remaining p' <= remaining p)%nat /\
  if (b : bool) then
    inv p' /\ cur_type p' = ARG_PARSE_NONE /\ error p' = None /\ literal_size_return p' = false /\ r_more = Some (feed more p', true)
  else
    ((error p' = None -> inv p' /\ cur_type p' = ARG_PARSE_NONE /\ ended p') /\
       r_more = Some (feed more p', false)) \/
    (error p' = None /\ inv p' /\ (cur_type p <> ARG_PARSE_NONE -> cur_type p' <> ARG_PARSE_NONE) /\
     literal_size_return p' = false /\ eol p' = false /\ (cr_split more p -> sim (again (feed more p')) r_more)).

(** An error leaves the position that the call began with. *)
Lemma save_stop_pos i j k p : save_stop i j (set_cur_pos k p) = save_stop i j p.
Proof.
  unfold save_stop, imap_parser_save_arg. change (input (set_cur_pos k p)) with (input p).
  change (arg_of_data (set_cur_pos k p) (take i (input p))) with (arg_of_data p (take i (input p))). by destruct (arg_of_data _ _).
Qed.

Lemma fail_pos k e p : sim (Some (fail e (set_cur_pos k p), false)) (Some (fail e p, false)).
Proof. cbn. split; [done |]. right. done. Qed.

Lemma atom_loop_pos p k rest i : sim (read_atom_loop (set_cur_pos k p) rest i) (read_atom_loop p rest i).
Proof.
  revert i. induction rest as [|c rest IH]; intros i; [by apply sim_eq |]. cbn [read_atom_loop]. rewrite save_stop_pos.
  change (list_is_open (set_cur_pos k p)) with (list_is_open p). change (has_flag (set_cur_pos k p)) with (has_flag p).
  destruct ((c =? 32) || _); [apply sim_refl |]. destruct (c =? 41).
  - destruct (list_is_open p || _); [apply sim_refl |]. destruct (negb _); [apply fail_pos | apply IH].
  - unfold is_valid_atom_char. change (has_flag (set_cur_pos k p)) with (has_flag p).
    destruct (IS_ATOM_PARSER_INPUT c); [| destruct (negb (Z.land c 128 =? 0))];
      try destruct (has_flag p IMAP_PARSE_FLAG_ATOM_ALLCHARS); cbn [negb]; first [apply IH | apply fail_pos].
Qed.

Lemma text_loop_pos p k rest i : sim (read_text_loop (set_cur_pos k p) rest i) (read_text_loop p rest i).
Proof.
  revert i. induction rest as [|c rest IH]; intros i; [by apply sim_eq |]. cbn [read_text_loop]. rewrite save_stop_pos.
  destruct (is_linebreak c); [apply sim_refl | apply IH].
Qed.

Lemma string_char_pos k q c rest j :
  sim (read_string_loop (set_cur_pos k q) rest j) (read_string_loop q rest j) ->
  sim (if is_linebreak c && negb (has_flag (set_cur_pos k q) IMAP_PARSE_FLAG_MULTILINE_STR) then Some (fail missing_quote (set_cur_pos k q), false)
       else read_string_loop (set_cur_pos k q) rest j)
    (if is_linebreak c && negb (has_flag q IMAP_PARSE_FLAG_MULTILINE_STR) then Some (fail missing_quote q, false) else read_string_loop q rest j).
Proof. intros H. change (has_flag (set_cur_pos k q)) with (has_flag q). destruct (is_linebreak c && _); [apply fail_pos | done]. Qed.

Lemma string_loop_pos n p k rest i : (length rest <= n)%nat -> sim (read_string_loop (set_cur_pos k p) rest i) (read_string_loop p rest i).
Proof.
  revert p rest i. induction n as [|n IH]; intros p rest i Hn; (destruct rest as [|c rest]; [by apply sim_eq |]); cbn in Hn; [lia |].
  cbn [read_string_loop]. rewrite save_stop_pos. destruct (c =? 34); [apply sim_refl |]. destruct (c =? 92).
  - destruct rest as [|c2 rest]; [by apply sim_eq |]. change (str_first_escape (set_cur_pos k p)) with (str_first_escape p). cbn in Hn.
    destruct (_ <? 0); [apply (string_char_pos k (set_str_first_escape _ p)) | apply string_char_pos]; apply IH; lia.
  - apply string_char_pos, IH. lia.
Qed.

Lemma literal_end_pos p k : sim (Some (imap_parser_literal_end (set_cur_pos k p))) (Some (imap_parser_literal_end p)).
Proof.
  unfold imap_parser_literal_end. change (has_flag (set_cur_pos k p)) with (has_flag p).
  cbn [set_cur_pos line_size max_line_size literal_size output literal_nonsync].
  destruct (negb _ && _); [cbn; split; [done |]; right; done |].
  destruct (output p); [destruct (negb _ && _) |]; apply sim_refl.
Qed.

Lemma skip_counted_pos n k p : skip_counted n (set_cur_pos k p) = set_cur_pos k (skip_counted n p).
Proof. unfold skip_counted, i_stream_skip. cbn [set_cur_pos set_line_size input line_size]. by destruct (_ <=? _)%nat. Qed.

Lemma literal_loop_pos p k rest i : sim (read_literal_loop (set_cur_pos k p) rest i) (read_literal_loop p rest i).
Proof.
  revert p i. induction rest as [|c rest IH]; intros p i; [by apply sim_eq |]. cbn [read_literal_loop].
  change (literal_nonsync (set_cur_pos k p)) with (literal_nonsync p). change (literal_size (set_cur_pos k p)) with (literal_size p).
  destruct (c =? 125).
  - rewrite skip_counted_pos. apply literal_end_pos.
  - destruct (literal_nonsync p); [apply fail_pos |]. destruct (c =? 43); [apply (IH (set_literal_nonsync true p)) |].
    destruct ((c <? 48) || _); [apply fail_pos |]. set (n := (literal_size p * 10 + (c - 48)) mod 2 ^ 64).
    change (literal_size (set_literal_size n (set_cur_pos k p))) with n. change (literal_size (set_literal_size n p)) with n.
    destruct (n <? literal_size p); [apply (fail_pos k _ (set_literal_size n p)) | apply (IH (set_literal_size n p))].
Qed.

(** ** Continuing an argument *)

Lemma feed_nil p : feed [] p = p.
Proof. unfold feed. rewrite app_nil_r. by destruct p. Qed.

Lemma no_return p : inv p -> cur_type p <> ARG_PARSE_NONE -> literal_size_return p = false.
Proof. intros Hp Ht. destruct (literal_size_return p) eqn:H; [| done]. by destruct (inv_return p Hp H). Qed.

Lemma no_eol p : inv p -> cur_type p <> ARG_PARSE_NONE -> eol p = false.
Proof. intros Hp Ht. destruct (eol p) eqn:H; [| done]. by apply (inv_eol p Hp) in H. Qed.

(** A state of a reader's loop at the position [j]. *)
Record held (p : imap_parser) (j : nat) (q : imap_parser) : Prop := {
  held_inv : inv (set_cur_pos j q);
  held_adv : advanced p q;
  held_input : input q = input p;
  held_pos : cur_pos q = cur_pos p /\ (cur_pos p <= j)%nat;
  held_error : error q = None;
  held_type : cur_type q <> ARG_PARSE_NONE;
}.

Lemma inv_saved a j q : inv (set_cur_pos j q) -> cur_type q <> ARG_PARSE_NONE -> inv (saved a j q).
Proof.
  intros Hq Ht. pose proof (no_return _ Hq Ht) as Hr. destruct Hq. split; cbn in *; try done; [| congruence].
  intros _ _ H. by destruct (cur_list q).
Qed.

Lemma advanced_drop p q k :
  flags q = flags p -> max_line_size q = max_line_size p -> args_added_extra_eol q = args_added_extra_eol p ->
  skip_left q = skip_left p -> (k <= length (input p))%nat -> input q = drop k (input p) -> advanced p q.
Proof. intros. split; try done. by exists k. Qed.

(** What is called for an argument that was begun before. *)
Definition resume_arg (p : imap_parser) : option (imap_parser * bool) :=
  if (length (input p) =? 0)%nat then Some (p, false) else continue_arg p.

Lemma resume_nonempty p : (1 <= length (input p))%nat -> resume_arg p = continue_arg p.
Proof. intros. unfold resume_arg. by rewrite (proj2 (Nat.eqb_neq _ _)) by lia. Qed.

Section Continue.
Variable more : list Z.
Implicit Types p : imap_parser.

Lemma scanned_outcome p (Q : nat -> imap_parser -> Prop) A r r_more resume again :
  inv p -> (forall j q, Q j q -> held p j q) ->
  (forall j q, Q j q -> sim (again (feed more (set_cur_pos j q))) (resume (feed more q) j)) ->
  scanned more Q A r r_more resume -> outcome more again p r r_more.
Proof.
  intros Hp HQ Hresume [(q & a & j & Hq & Ha & -> & ->) | [(q & e & j & Hq & -> & ->) | (q & j & Hq & -> & ->)]];
    destruct (HQ j q Hq) as [Hinv Hadv Hin [Hpq Hpos] Herr Htype]; pose proof (inv_pos _ Hinv) as Hj; cbn in Hj.
  - exists (saved a j q), true. split; [done |]. split; [by destruct Hadv |].
    split; [unfold remaining; cbn; rewrite Hin; lia |]. split; [by apply inv_saved |]. split; [done |]. split; [done |].
    split; [exact (no_return _ Hinv Htype) | done].
  - exists (fail e q), false. split; [done |]. split; [by destruct Hadv |]. split; [done |].
    by left.
  - exists (set_cur_pos j q), false. split; [done |]. split; [by destruct Hadv |]. split; [unfold remaining; cbn; rewrite Hin; lia |].
    right. split; [done |]. split; [done |]. split; [done |]. split; [exact (no_return _ Hinv Htype) |].
    split; [exact (no_eol _ Hinv Htype) | auto].
Qed.

Lemma continue_eq p : (1 <= length (input p))%nat ->
  continue_arg p = match cur_type p with
                   | ARG_PARSE_TEXT => imap_parser_read_text p
                   | ARG_PARSE_STRING => imap_parser_read_string p
                   | ARG_PARSE_LITERAL_DATA | ARG_PARSE_LITERAL_DATA_FORCED => imap_parser_read_literal_data p
                   | _ => continue_arg p
                   end.
Proof. intros. unfold continue_arg. rewrite assert_true by (apply Nat.ltb_lt; lia). cbn [mbind option_bind]. by destruct (cur_type p). Qed.

Lemma feed_length p : (length (input p) <= length (input (feed more p)))%nat.
Proof. cbn. rewrite length_app. lia. Qed.

Lemma drop_feed j p : (j <= length (input p))%nat -> drop j (input (feed more p)) = drop j (input p) ++ more.
Proof. intros. cbn. by rewrite drop_app_le by done. Qed.

Lemma held_at p j q :
  inv p -> error p = None -> (cur_type p = ARG_PARSE_ATOM \/ cur_type p = ARG_PARSE_TEXT) -> at_pos p j q -> held p j q.
Proof.
  intros Hp He Ht [-> Hj]. split; [| by apply advanced_refl | done | lia | done | by destruct Ht as [-> | ->]].
  destruct Hp. split; cbn in *; try done; [lia |]. unfold type_ok in *. cbn. destruct Ht as [Ht|Ht]; rewrite Ht in *; [lia | done].
Qed.

Lemma read_text_outcome p :
  inv p -> cur_type p = ARG_PARSE_TEXT -> error p = None -> (1 <= length (input p))%nat ->
  outcome more resume_arg p (continue_arg p) (continue_arg (feed more p)).
Proof.
  intros Hp Ht He Hlen. pose proof (inv_pos p Hp) as Hpos. pose proof (feed_length p) as Hfl.
  rewrite (continue_eq p), (continue_eq (feed more p)) by lia. change (cur_type (feed more p)) with (cur_type p). rewrite Ht.
  unfold imap_parser_read_text. change (cur_pos (feed more p)) with (cur_pos p). rewrite drop_feed by lia.
  apply (scanned_outcome p (at_pos p) (atom_at p) _ _ (fun q j => read_text_loop q (drop j (input q)) j)); [done | intros; apply held_at; auto | | by apply text_loop_spec].
  intros j q [-> Hj]. rewrite resume_nonempty, continue_eq by (cbn; rewrite length_app; lia).
  change (cur_type (feed more (set_cur_pos j p))) with (cur_type p). rewrite Ht. apply (text_loop_pos (feed more p) j).
Qed.

Lemma held_string p j q :
  inv p -> error p = None -> cur_type p = ARG_PARSE_STRING -> in_string p j q -> held p j q.
Proof.
  intros Hp He Ht [(fe & -> & Hfe) Hj]. split; [| by apply advanced_refl | done | cbn; lia | done | cbn; congruence].
  destruct Hp. split; cbn in *; try done; [lia |]. unfold type_ok in *. cbn. rewrite Ht in *. split; [lia | done].
Qed.

Lemma read_string_outcome p :
  inv p -> cur_type p = ARG_PARSE_STRING -> error p = None -> (1 <= length (input p))%nat ->
  outcome more resume_arg p (continue_arg p) (continue_arg (feed more p)).
Proof.
  intros Hp Ht He Hlen. pose proof (inv_pos p Hp) as Hpos. pose proof (feed_length p) as Hfl.
  pose proof (inv_type p Hp) as Hty. unfold type_ok in Hty. rewrite Ht in Hty. destruct Hty as [Hpos1 Hfe].
  rewrite (continue_eq p), (continue_eq (feed more p)) by lia. change (cur_type (feed more p)) with (cur_type p). rewrite Ht.
  unfold imap_parser_read_string. change (cur_pos (feed more p)) with (cur_pos p). rewrite drop_feed by lia.
  apply (scanned_outcome p (in_string p) any_arg _ _ (fun q j => read_string_loop q (drop j (input q)) j)); [done | intros; by apply held_string | |].
  2: { by apply (string_loop_spec more (length (drop (cur_pos p) (input p)))); try apply inv_nul. }
  intros j q Hq. destruct (held_string p j q Hp He Ht Hq) as [Hinv _ Hin _ _ _]. destruct Hq as [(fe & -> & _) Hj].
  rewrite resume_nonempty, continue_eq by (cbn; rewrite length_app; lia).
  change (cur_type (feed more (set_cur_pos j _))) with (cur_type p). rewrite Ht.
  by apply (string_loop_pos (length (drop j (input (feed more p)))) (feed more (set_str_first_escape fe p)) j).
Qed.

(** An atom may announce that text follows. *)
Definition mark_text p : imap_parser :=
  if has_flag p IMAP_PARSE_FLAG_SERVER_TEXT && imap_parser_is_next_resp_text p then set_cur_resp_text true p else p.

Definition then_mark (r : option (imap_parser * bool)) : option (imap_parser * bool) :=
  '(p, ok) ← r; if negb ok then Some (p, false) else Some (mark_text p, true).

Lemma continue_atom p : (1 <= length (input p))%nat -> cur_type p = ARG_PARSE_ATOM -> continue_arg p = then_mark (imap_parser_read_atom p).
Proof.
  intros Hl Ht. unfold continue_arg. rewrite assert_true by (apply Nat.ltb_lt; lia). cbn [mbind option_bind]. rewrite Ht.
  unfold then_mark, mark_text. destruct (imap_parser_read_atom p) as [[q [|]]|]; cbn; try done. by destruct (_ && _).
Qed.

Lemma inv_mark p : inv p -> inv (mark_text p).
Proof.
  intros Hp. unfold mark_text, imap_parser_is_next_resp_text. destruct (has_flag _ _ && _) eqn:H; [| done].
  apply andb_true_iff in H. destruct H as [_ H]. destruct (list_is_open p || _) eqn:Hl; [done |]. apply orb_false_iff in Hl.
  destruct Hp. split; cbn; try done. intros _ _ Hnil. destruct Hl as [_ Hl]. by rewrite Hnil in Hl.
Qed.

Lemma mark_feed p : mark_text (feed more p) = feed more (mark_text p).
Proof.
  unfold mark_text. change (has_flag (feed more p)) with (has_flag p).
  change (imap_parser_is_next_resp_text (feed more p)) with (imap_parser_is_next_resp_text p). by destruct (_ && _).
Qed.

Lemma mark_frame p : advanced p (mark_text p) /\ cur_pos (mark_text p) = cur_pos p /\ input (mark_text p) = input p /\
  cur_type (mark_text p) = cur_type p /\ error (mark_text p) = error p /\ literal_size_return (mark_text p) = literal_size_return p.
Proof. unfold mark_text. destruct (_ && _); splits; try done; by apply advanced_refl. Qed.

(** Marking the state behind a reader that ends or waits. *)
Lemma outcome_mark again p r r_more :
  outcome more again p r r_more -> outcome more (fun q => then_mark (again q)) p (then_mark r) (then_mark r_more).
Proof.
  intros (p' & b & -> & Hadv & Hrem & H). destruct b.
  - destruct H as (Hinv & Ht & He & Hret & ->). destruct (mark_frame p') as (Hma & Hmp & Hmi & Hmt & Hme & Hmr).
    exists (mark_text p'), true. cbn [then_mark mbind option_bind negb]. rewrite mark_feed. unfold remaining in *. rewrite Hmp, Hmi, Hmt, Hme, Hmr.
    split; [done |]. split; [by apply (advanced_trans _ p') |]. split; [done |]. split; [by apply inv_mark | done].
  - exists p', false. split; [done |]. split; [done |]. split; [done |].
    destruct H as [[H ->] | (He & Hinv & Hty & Hret & Heol & H)]; [by left | right]. split; [done |]. split; [done |]. split; [done |].
    split; [done |]. split; [done |]. intros Hcr. by apply sim_bind, H.
Qed.

Lemma outcome_again again again' p r r_more :
  outcome more again p r r_more ->
  (forall p', r = Some (p', false) -> error p' = None -> inv p' -> again' (feed more p') = again (feed more p')) ->
  outcome more again' p r r_more.
Proof.
  intros (p' & b & -> & Hadv & Hrem & H) Heq. exists p', b. split; [done |]. split; [done |]. split; [done |].
  destruct b; [done |]. destruct H as [H | (He & Hinv & Hty & Hret & Heol & H)]; [by left | right]. rewrite Heq by done. done.
Qed.

Lemma read_atom_false p p' :
  inv p -> cur_type p = ARG_PARSE_ATOM -> imap_parser_read_atom p = Some (p', false) -> cur_type p' = ARG_PARSE_ATOM.
Proof.
  intros Hp Ht Hr. pose proof (inv_pos p Hp) as Hpos. unfold imap_parser_read_atom in Hr.
  destruct (atom_loop_spec [] p _ (cur_pos p) Ht eq_refl ltac:(lia)) as [(q & a & j & _ & _ & H & _) | [(q & e & j & [-> _] & H & _) | (q & j & [-> _] & H & _)]];
    rewrite H in Hr; by simplify_eq.
Qed.

Lemma read_atom_outcome p :
  inv p -> cur_type p = ARG_PARSE_ATOM -> error p = None -> (1 <= length (input p))%nat ->
  outcome more resume_arg p (continue_arg p) (continue_arg (feed more p)).
Proof.
  intros Hp Ht He Hlen. pose proof (inv_pos p Hp) as Hpos. pose proof (feed_length p) as Hfl.
  rewrite (continue_atom p), (continue_atom (feed more p)) by done || lia.
  apply (outcome_again (fun q => then_mark (imap_parser_read_atom q))).
  - apply outcome_mark. unfold imap_parser_read_atom at 2 3. change (cur_pos (feed more p)) with (cur_pos p). rewrite drop_feed by lia.
    apply (scanned_outcome p (at_pos p) (atom_at p) _ _ (fun q j => read_atom_loop q (drop j (input q)) j));
      [done | intros; apply held_at; auto | | by apply atom_loop_spec].
    intros j q [-> Hj]. apply (atom_loop_pos (feed more p) j).
  - intros p' Hr He' Hinv. assert (Ht' : cur_type p' = ARG_PARSE_ATOM).
    { unfold then_mark in Hr. destruct (imap_parser_read_atom p) as [[q [|]]|] eqn:Hq; try done. cbn in Hr. simplify_eq. by apply (read_atom_false p). }
    pose proof (inv_pos p' Hinv). pose proof (inv_type p' Hinv) as Hty. unfold type_ok in Hty. rewrite Ht' in Hty.
    rewrite resume_nonempty, continue_atom; [done | | done |]; cbn; rewrite length_app; lia.
Qed.

(** The state in which the data of a literal is expected. *)
Lemma data_outcome p0 p :
  inv p0 -> advanced p0 p -> literal_type p -> 0 <= literal_size p -> cur_pos p = 0%nat -> error p = None -> (remaining p <= remaining p0)%nat ->
  root_after p = [] -> literal_size_return p = false -> eol p = false ->
  (cur_resp_text p = true -> parents p = [] -> cur_list p <> []) ->
  outcome more resume_arg p0 (imap_parser_read_literal_data p) (imap_parser_read_literal_data (feed more p)).
Proof.
  intros Hp0 Hadv Ht Hs Hpos He Hrem Hafter Hret Heol Htext.
  assert (Hnul : no_nul (input p)) by (destruct (adv_input _ _ Hadv) as (k & _ & ->); apply Forall_drop, inv_nul, Hp0).
  assert (Hadv' : forall k q, (k <= length (input p))%nat -> input q = drop k (input p) -> flags q = flags p ->
    max_line_size q = max_line_size p -> args_added_extra_eol q = args_added_extra_eol p -> skip_left q = skip_left p -> advanced p0 q).
  { intros k q Hk Hin Hf Hm Ha Hl. apply (advanced_trans p0 p); [done |]. by apply (advanced_drop _ _ k). }
  unfold outcome, remaining in *. rewrite Hpos in Hrem.
  destruct (read_data_spec more p Ht Hs Hpos) as [(q & a & j & k & -> & Hk & -> & ->) | [(e & k & Hk & -> & ->) |
    [(a & k & Hk & Ha & -> & ->) | (b & k & Hk & Hwait & -> & Hmore)]]];
    (eexists _, _; split; [done |]; split; [apply (Hadv' k); [lia | done..] |]);
    cbn [cur_pos input error saved set_cur_pos set_cur_type add_arg set_cur_list fail set_error set_literal_skip_crlf counted set_input set_line_size
      set_literal_size_return]; rewrite length_drop, ?Hpos; (split; [lia |]).
  - split; [| done]. split; cbn; try done; [by apply Forall_drop | rewrite length_drop; lia | | congruence].
    intros _ _ H. by destruct (cur_list p).
  - by left.
  - left. split; [| done]. intros _. split; [| split; [done | by right; left]]. split; cbn; try done; [by apply Forall_drop | lia | |].
    + intros _ _ H. by destruct (cur_list p).
    + intros _. split; [done |]. split; [done |]. by exists (cur_list p), a.
  - right. split; [done |]. split.
    + split; cbn; try done; [by apply Forall_drop | lia | | congruence | congruence]. unfold type_ok. cbn. by destruct Ht as [-> | ->].
    + split; [by intros _; cbn; destruct Ht as [-> | ->] |]. split; [done |]. split; [done |]. intros Hcr. rewrite Hmore by (by apply (cr_split_advanced _ p0)). apply sim_eq. unfold resume_arg.
      set (q := set_literal_skip_crlf b (counted k p)) in *. destruct (Nat.eqb_spec (length (input (feed more q))) 0) as [Hl|Hl].
      * cbn in Hl. rewrite length_app in Hl. assert (more = []) as -> by (by apply nil_length_inv; lia). rewrite feed_nil.
        symmetry. apply Hwait, nil_length_inv. cbn. lia.
      * rewrite continue_eq by lia. change (cur_type (feed more q)) with (cur_type p). by destruct Ht as [-> | ->].
Qed.

Definition then_data (r : option (imap_parser * bool)) : option (imap_parser * bool) :=
  '(p, ok) ← r; if negb ok then Some (p, false) else imap_parser_read_literal_data p.

Lemma continue_literal p :
  (1 <= length (input p))%nat -> cur_type p = ARG_PARSE_LITERAL -> continue_arg p = then_data (imap_parser_read_literal p).
Proof. intros Hl Ht. unfold continue_arg. rewrite assert_true by (apply Nat.ltb_lt; lia). cbn [mbind option_bind]. by rewrite Ht. Qed.

Lemma read_literal_outcome p :
  inv p -> cur_type p = ARG_PARSE_LITERAL -> error p = None -> (1 <= length (input p))%nat ->
  outcome more resume_arg p (continue_arg p) (continue_arg (feed more p)).
Proof.
  intros Hp Ht He Hlen. pose proof (inv_pos p Hp) as Hpos. pose proof (feed_length p) as Hfl.
  pose proof (no_return p Hp ltac:(congruence)) as Hret. pose proof (inv_type p Hp) as Hty. unfold type_ok in Hty. rewrite Ht in Hty.
  rewrite (continue_literal p), (continue_literal (feed more p)) by done || lia.
  unfold imap_parser_read_literal. change (cur_pos (feed more p)) with (cur_pos p). rewrite drop_feed by lia.
  destruct (literal_loop_spec more p _ (cur_pos p) (inv_size p Hp) eq_refl ltac:(lia))
    as [(q & i & [(n & b & -> & Hn) Hi] & Hlt & -> & ->) | [(q & e & j & [(n & b & -> & Hn) Hi] & -> & ->) | (q & [(n & b & -> & Hn) Hi] & -> & ->)]].
  - set (q := counted (S i) (set_literal_size n (set_literal_nonsync b p))).
    assert (Hadv : advanced p q) by (apply (advanced_drop _ _ (S i)); [done.. | lia | done]).
    assert (Hql : (length (input q) = length (input p) - S i)%nat) by (cbn; by rewrite length_drop).
    destruct (literal_end_spec more q) as [(e & -> & ->) | (o & -> & ->)]; cbn [then_data mbind option_bind negb].
    + eexists _, false. split; [done |]. split; [by destruct Hadv |]. split; [done |]. by left.
    + apply data_outcome; [done | by destruct Hadv | by left | done | done | done | | exact (inv_after p Hp) | done | exact (no_eol p Hp ltac:(congruence)) | exact (inv_text p Hp)].
      unfold remaining. cbn [input cur_pos expects_data set_cur_pos set_literal_skip_crlf set_cur_type set_output]. lia.
  - exists (fail e (set_literal_size n (set_literal_nonsync b p))), false. split; [done |]. split; [by apply advanced_refl |].
    split; [done |]. by left.
  - eexists _, false. split; [done |]. split; [by apply advanced_refl |]. split; [unfold remaining; cbn; lia |].
    right. split; [done |]. split.
    + destruct Hp. split; cbn; try done; [unfold type_ok; cbn; rewrite Ht; lia | congruence].
    + split; [done |]. split; [done |]. split; [exact (no_eol p Hp ltac:(congruence)) |]. intros _. rewrite resume_nonempty, continue_literal; [| cbn; rewrite length_app; lia | done | cbn; rewrite length_app; lia].
      apply sim_bind. unfold imap_parser_read_literal. cbn [feed set_input set_cur_pos set_literal_size set_literal_nonsync cur_pos input].
      rewrite drop_app_length. apply (literal_loop_pos (feed more (set_literal_size n (set_literal_nonsync b p))) (length (input p))).
Qed.

Lemma outcome_from p p0 r r_more :
  advanced p0 p -> (remaining p <= remaining p0)%nat -> cur_type p <> ARG_PARSE_NONE ->
  outcome more resume_arg p r r_more -> outcome more resume_arg p0 r r_more.
Proof.
  intros Hadv Hrem Ht (p' & b & -> & Hadv' & Hrem' & H). exists p', b. split; [done |]. split; [by apply (advanced_trans _ p) |].
  split; [intros He; specialize (Hrem' He); lia |]. destruct b; [done |]. destruct H as [H | (He & Hinv & Hty & Hret & Heol & H)]; [by left | right].
  split; [done |]. split; [done |]. split; [auto |]. split; [done |]. split; [done |]. intros Hcr. by apply H, (cr_split_advanced _ p0).
Qed.

Lemma continue_outcome p :
  inv p -> cur_type p <> ARG_PARSE_NONE -> error p = None -> (1 <= length (input p))%nat ->
  outcome more resume_arg p (continue_arg p) (continue_arg (feed more p)).
Proof.
  intros Hp Ht He Hlen. pose proof (inv_pos p Hp) as Hpos. pose proof (feed_length p) as Hfl. pose proof (inv_type p Hp) as Hty. unfold type_ok in Hty.
  destruct (cur_type p) eqn:Htype; [done | by apply read_atom_outcome | by apply read_string_outcome | by apply read_literal_outcome | | | |
    by apply read_text_outcome].
  - destruct Hty as [Hp1 Hbrace]. set (q := set_cur_pos 2 (set_cur_type ARG_PARSE_LITERAL p)).
    assert (Hl2 : (2 <= length (input p))%nat) by (apply lookup_lt_Some in Hbrace; lia).
    assert (Heq : forall p, (1 <= length (input p))%nat -> cur_type p = ARG_PARSE_LITERAL8 -> cur_pos p = 1%nat -> input p !! 1%nat = Some 123 ->
      continue_arg p = continue_arg (set_cur_pos 2 (set_cur_type ARG_PARSE_LITERAL p))).
    { intros x Hx Hxt Hxp Hxb. unfold continue_arg. rewrite !assert_true by (apply Nat.ltb_lt; cbn; lia). cbn [mbind option_bind set_cur_pos set_cur_type cur_type].
      rewrite Hxt, Hxp, Hxb. rewrite (proj2 (Nat.eqb_neq _ _)); [done |]. apply lookup_lt_Some in Hxb. lia. }
    rewrite (Heq p), (Heq (feed more p)); try done; [| lia | cbn; by apply lookup_app_l_Some].
    apply (outcome_from q); [by apply advanced_refl | unfold remaining; cbn; lia | done |]. apply read_literal_outcome; try done.
    pose proof (no_return p Hp ltac:(congruence)) as Hret. pose proof (no_eol p Hp ltac:(congruence)) as Heol.
    destruct Hp. split; cbn; try done; [unfold type_ok; cbn; lia | congruence | congruence].
  - rewrite (continue_eq p), (continue_eq (feed more p)) by lia. change (cur_type (feed more p)) with (cur_type p). rewrite Htype.
    apply data_outcome; try done; [by apply advanced_refl | by left | by apply inv_size | by apply inv_after | by apply no_return; [| congruence] | by apply no_eol; [| congruence] | by apply inv_text].
  - rewrite (continue_eq p), (continue_eq (feed more p)) by lia. change (cur_type (feed more p)) with (cur_type p). rewrite Htype.
    apply data_outcome; try done; [by apply advanced_refl | by right | by apply inv_size | by apply inv_after | by apply no_return; [| congruence] | by apply no_eol; [| congruence] | by apply inv_text].
Qed.
End Continue.

(** ** Beginning an argument *)

Lemma count_spaces_le l : (count_spaces l <= length l)%nat.
Proof. induction l as [|c l IH]; cbn; [lia |]. destruct (c =? 32); lia. Qed.

Lemma count_spaces_app l m :
  count_spaces (l ++ m) = if (count_spaces l =? length l)%nat then (length l + count_spaces m)%nat else count_spaces l.
Proof.
  induction l as [|c l IH]; cbn; [done |]. destruct (c =? 32); [| done]. rewrite IH. cbn. by destruct (_ =? _)%nat.
Qed.

(** The state behind the spaces. *)
Definition skipped (p : imap_parser) : imap_parser := set_cur_pos 0 (counted (cur_pos p + count_spaces (drop (cur_pos p) (input p))) p).

Lemma skip_to_next_ok p :
  (cur_pos p <= length (input p))%nat -> imap_parser_skip_to_next p = (skipped p, (0 <? length (input (skipped p)))%nat).
Proof.
  intros Hpos. unfold imap_parser_skip_to_next. rewrite skip_counted_ok; [done |].
  pose proof (count_spaces_le (drop (cur_pos p) (input p))). rewrite length_drop in *. lia.
Qed.

Lemma skipped_feed more p :
  (cur_pos p <= length (input p))%nat ->
  if (0 <? length (input (skipped p)))%nat then skipped (feed more p) = feed more (skipped p)
  else skipped (feed more p) = skipped (feed more (skipped p)).
Proof.
  intros Hpos. pose proof (count_spaces_le (drop (cur_pos p) (input p))) as Hle. unfold skipped at 1. cbn [set_cur_pos counted set_input input].
  rewrite !length_drop in *. unfold skipped. cbn [feed set_input set_cur_pos cur_pos counted input].
  rewrite drop_app_le, count_spaces_app, length_drop by lia.
  destruct (Nat.ltb_spec 0 (length (input p) - (cur_pos p + count_spaces (drop (cur_pos p) (input p))))).
  - rewrite (proj2 (Nat.eqb_neq _ _)) by lia. unfold counted. cbn. rewrite drop_app_le by lia. done.
  - rewrite (proj2 (Nat.eqb_eq _ _)) by lia. assert (Hall : count_spaces (drop (cur_pos p) (input p)) = (length (input p) - cur_pos p)%nat) by lia.
    rewrite Hall. replace (cur_pos p + (length (input p) - cur_pos p))%nat with (length (input p)) by lia.
    replace (cur_pos p + (length (input p) - cur_pos p + count_spaces more))%nat with (length (input p) + count_spaces more)%nat by lia.
    unfold counted. cbn. rewrite drop_all. cbn. rewrite drop_app_add' by done. by rewrite Nat2Z.inj_add, Z.add_assoc.
Qed.

Lemma count_spaces_drop l : count_spaces (drop (count_spaces l) l) = 0%nat.
Proof. induction l as [|c l IH]; cbn; [done |]. destruct (c =? 32) eqn:H; cbn; [done | by rewrite H]. Qed.

Lemma skipped_idem p : skipped (skipped p) = skipped p.
Proof.
  unfold skipped at 1. change (cur_pos (skipped p)) with 0%nat.
  change (input (skipped p)) with (drop (cur_pos p + count_spaces (drop (cur_pos p) (input p))) (input p)).
  rewrite drop_0, <- drop_drop, count_spaces_drop, counted_0. done.
Qed.

Lemma skipped_feed_again more p : (cur_pos p <= length (input p))%nat -> skipped (feed more p) = skipped (feed more (skipped p)).
Proof.
  intros Hpos. pose proof (skipped_feed more p Hpos) as H1. pose proof (skipped_feed more (skipped p) ltac:(cbn; lia)) as H2.
  rewrite skipped_idem in H2. destruct (0 <? _)%nat; congruence.
Qed.

Lemma skipped_advanced p : (cur_pos p <= length (input p))%nat -> advanced p (skipped p).
Proof.
  intros Hpos. pose proof (count_spaces_le (drop (cur_pos p) (input p))) as Hle. rewrite length_drop in Hle.
  by apply (advanced_drop _ _ (cur_pos p + count_spaces (drop (cur_pos p) (input p)))); [done.. | lia |].
Qed.

Lemma skipped_remaining p : (cur_pos p <= length (input p))%nat -> (remaining (skipped p) <= remaining p)%nat.
Proof. intros Hpos. unfold remaining, skipped. cbn. rewrite length_drop. lia. Qed.

Lemma inv_skipped p : inv p -> cur_type p = ARG_PARSE_NONE -> inv (skipped p).
Proof.
  intros Hp Ht. destruct Hp. split; cbn; try done; [by apply Forall_drop | lia |]. unfold type_ok. cbn. by rewrite Ht.
Qed.

Definition started (more : list Z) (q : imap_parser) (r r_more : option (imap_parser * option bool)) : Prop :=
  exists q' ret, r = Some (q', ret) /\ advanced q q' /\ (ret <> Some false -> input q' = input q) /\
  match ret with
  | None =>
      inv (set_cur_pos 1 q') /\ cur_pos q' = 0%nat /\ error q' = None /\ literal_size_return q' = false /\ eol q' = false /\
      (cur_type q' = ARG_PARSE_NONE -> list_is_open q' = true) /\ r_more = Some (feed more q', None)
  | Some true =>
      inv q' /\ cur_pos q' = 1%nat /\ cur_type q' = ARG_PARSE_NONE /\ error q' = None /\ literal_size_return q' = false /\
      r_more = Some (feed more q', Some true)
  | Some false =>
      ((error q' = None -> inv q' /\ cur_type q' = ARG_PARSE_NONE /\ ended q') /\ r_more = Some (feed more q', Some false)) \/ q' = q
  end.

Section Begin.
Variable more : list Z.
Implicit Types p q : imap_parser.

Lemma start_fail q e : started more q (Some (fail e q, Some false)) (Some (feed more (fail e q), Some false)).
Proof. eexists _, _. split; [done |]. split; [by apply advanced_refl |]. split; [done |]. by left. Qed.

Lemma start_wait q r_more : started more q (Some (q, Some false)) r_more.
Proof. eexists _, _. split; [done |]. split; [by apply advanced_refl |]. split; [done |]. by right. Qed.

Lemma start_begin q q' :
  inv q -> input q <> [] -> advanced q q' -> input q' = input q -> cur_pos q' = 0%nat -> error q' = None ->
  type_ok (set_cur_pos 1 q') -> 0 <= literal_size q' -> root_after q' = [] -> literal_size_return q' = false -> eol q' = false ->
  (cur_type q' = ARG_PARSE_NONE -> list_is_open q' = true) -> (cur_resp_text q' = true -> parents q' = [] -> cur_list q' <> []) ->
  started more q (Some (q', None)) (Some (feed more q', None)).
Proof.
  intros Hq Hne Hadv Hin Hpos He Hty Hs Ha Hret Heol Hopen Htext. eexists _, _. split; [done |]. split; [done |]. split; [done |]. split; [| done].
  destruct Hq. split; cbn; try done; [by rewrite Hin | rewrite Hin; destruct (input q); [done | cbn; lia] | congruence | congruence].
Qed.

Lemma start_eol q :
  inv q -> cur_type q = ARG_PARSE_NONE -> literal_size_return q = false -> started more q
    (Some (if has_flag q IMAP_PARSE_FLAG_INSIDE_LIST then (fail (str "Missing ')'") q, Some false) else (set_eol true q, Some false)))
    (Some (if has_flag q IMAP_PARSE_FLAG_INSIDE_LIST then (fail (str "Missing ')'") (feed more q), Some false)
           else (set_eol true (feed more q), Some false))).
Proof.
  intros Hq Ht Hret. destruct (has_flag q IMAP_PARSE_FLAG_INSIDE_LIST); [apply start_fail |]. eexists _, _. split; [done |].
  split; [by apply advanced_refl |]. split; [done |]. left. split; [| done]. intros _. split; [| split; [done | by left]].
  destruct Hq; split; try done. cbn. congruence.
Qed.

Lemma start_close q :
  inv q -> cur_type q = ARG_PARSE_NONE -> error q = None -> cur_pos q = 0%nat -> literal_size_return q = false -> eol q = false -> input q <> [] ->
  started more q
    (let '(p, closed) := imap_parser_close_list q in
     if negb closed then Some (p, Some false)
     else if negb (list_is_open p) then Some (set_cur_pos (S (cur_pos p)) p, Some true) else Some (p, None))
    (let '(p, closed) := imap_parser_close_list (feed more q) in
     if negb closed then Some (p, Some false)
     else if negb (list_is_open p) then Some (set_cur_pos (S (cur_pos p)) p, Some true) else Some (p, None)).
Proof.
  intros Hq Ht He Hpos Hret Heol Hne. assert (Hlen : (1 <= length (input q))%nat) by (destruct (input q); [done | cbn; lia]).
  unfold imap_parser_close_list. change (has_flag (feed more q)) with (has_flag q). cbn [feed set_input parents cur_list root_after].
  rewrite (inv_after q Hq). destruct (parents q) as [|before outer] eqn:Hpar.
  - destruct (has_flag q IMAP_PARSE_FLAG_INSIDE_LIST); cbn [negb]; [| apply start_fail].
    unfold list_is_open. cbn [set_cur_type set_eol parents cur_pos]. change (parents (feed more q)) with (parents q).
    change (cur_pos (feed more q)) with (cur_pos q). rewrite Hpar, Hpos. cbn [length Nat.eqb negb]. eexists _, _. split; [done |].
    split; [by apply advanced_refl |]. split; [done |].
    split; [| done]. destruct Hq. split; cbn; try done. congruence.
  - destruct outer as [|before' outer]; unfold list_is_open; cbn [set_cur_type set_parents parents length Nat.eqb negb].
    + rewrite app_nil_r. eexists _, _. split; [done |]. split; [by apply advanced_refl |]. split; [done |]. split; [| by cbn; rewrite Hpos]. destruct Hq. split; cbn; try done; [lia | | congruence]. intros _ _ H. by destruct before.
    + eexists _, _. split; [done |]. split; [by apply advanced_refl |]. split; [done |]. split; [| done].
      destruct Hq. split; cbn; try done. congruence.
Qed.

Lemma start_stop q :
  inv q -> cur_pos q = 0%nat -> literal_size_return q = false -> has_flag q IMAP_PARSE_FLAG_STOP_AT_LIST = true -> input q <> [] ->
  started more q (Some (i_stream_skip 1 (imap_parser_open_list q), Some false)) (Some (i_stream_skip 1 (imap_parser_open_list (feed more q)), Some false)).
Proof.
  intros Hq Hpos Hret Hstop Hne. assert (Hskip : forall p, input p <> [] -> i_stream_skip 1 p = set_input (drop 1 (input p)) p).
  { intros p Hp. unfold i_stream_skip. by rewrite (proj2 (Nat.leb_le _ _)) by (destruct (input p); cbn; [done | lia]). }
  rewrite !Hskip by (cbn; by destruct (input q)). eexists _, _. split; [done |].
  split; [apply (advanced_drop _ _ 1); [done.. | destruct (input q); cbn; [done | lia] | done] |]. split; [done |]. left. split.
  - intros _. split; [| split; [done | by right; right]]. destruct Hq. split; cbn; try done; [by apply Forall_drop | lia | congruence].
  - cbn. do 2 f_equal. unfold feed. cbn. destruct (input q); done.
Qed.

Lemma start_spec q :
  inv q -> cur_type q = ARG_PARSE_NONE -> error q = None -> cur_pos q = 0%nat ->
  literal_size_return q = false -> eol q = false -> input q <> [] -> started more q (start_arg q) (start_arg (feed more q)).
Proof.
  intros Hq Ht He Hpos Hret Heol Hne. pose proof Hne as Hne'. destruct (input q) as [|c data] eqn:Hd; [done | clear Hne'].
  assert (Hbegin : forall q', advanced q q' -> cur_pos q' = cur_pos q -> input q' = input q -> error q' = error q -> literal_size_return q' = literal_size_return q ->
    type_ok (set_cur_pos 1 q') -> 0 <= literal_size q' -> root_after q' = root_after q -> parents q' = parents q -> cur_list q' = cur_list q ->
    cur_resp_text q' = cur_resp_text q -> eol q' = eol q -> cur_type q' <> ARG_PARSE_NONE -> started more q (Some (q', None)) (Some (feed more q', None))).
  { intros q' Hadv Hp Hi Herr Hr Hty Hs Ha Hpa Hcl Hct Hel Htn. apply start_begin; try congruence; [by rewrite Ha; apply inv_after |].
    rewrite Hpa, Hcl, Hct. by apply inv_text. }
  assert (Hatom : started more q (Some (set_cur_type ARG_PARSE_ATOM q, None)) (Some (feed more (set_cur_type ARG_PARSE_ATOM q), None))).
  { apply Hbegin; try done; [by apply advanced_refl | apply Nat.le_refl | by apply (inv_size q)]. }
  unfold start_arg. change (input (feed more q)) with (input q ++ more). change (has_flag (feed more q)) with (has_flag q). rewrite Hd. cbn [app].
  destruct (Z.eqb_spec c 13) as [->|]; [| destruct (Z.eqb_spec c 10) as [->|]; [by apply start_eol |]; destruct (Z.eqb_spec c 34) as [->|];
    [| destruct (Z.eqb_spec c 126) as [->|]; [| destruct (Z.eqb_spec c 123) as [->|]; [| destruct (Z.eqb_spec c 40) as [->|];
    [| destruct (Z.eqb_spec c 41) as [->|]]]]]].
  - destruct data as [|c data]; [apply start_wait |]. cbn [app]. destruct (negb _); [apply start_fail | by apply start_eol].
  - apply (Hbegin (set_str_first_escape (-1) (set_cur_type ARG_PARSE_STRING q))); try done; [by apply advanced_refl | | by apply (inv_size q)].
    split; [cbn; lia | by left].
  - destruct data as [|c data]; [apply start_wait |]. cbn [app]. destruct (Z.eqb_spec c 123) as [->|]; cbn [negb]; [| done].
    destruct (negb _); [apply start_fail |].
    apply (Hbegin (set_literal8 true (set_literal_nonsync false (set_literal_size 0 (set_cur_type ARG_PARSE_LITERAL8 q))))); try done;
      [by apply advanced_refl |]. split; [done |]. cbn. by rewrite Hd.
  - apply (Hbegin (set_literal8 false (set_literal_nonsync false (set_literal_size 0 (set_cur_type ARG_PARSE_LITERAL q))))); try done;
      [by apply advanced_refl | apply Nat.le_refl].
  - change (has_flag (imap_parser_open_list (feed more q))) with (has_flag q). change (has_flag (imap_parser_open_list q)) with (has_flag q).
    destruct (has_flag q IMAP_PARSE_FLAG_STOP_AT_LIST) eqn:Hstop; [by apply start_stop; [.. | congruence] |].
    apply (start_begin q (imap_parser_open_list q)); try done; [congruence | by apply advanced_refl | by apply (inv_size q) | by apply (inv_after q)].
  - apply start_close; try done. congruence.
  - unfold is_valid_atom_char. change (has_flag (feed more q)) with (has_flag q).
    destruct (IS_ATOM_PARSER_INPUT c); [| destruct (negb (Z.land c 128 =? 0))];
      try destruct (has_flag q IMAP_PARSE_FLAG_ATOM_ALLCHARS); cbn [negb]; first [done | apply start_fail].
Qed.

(** The result of the loop with enough fuel. *)
Definition begins p (r : imap_parser * option bool) : Prop := exists n, forall m, (n <= m)%nat -> begin_loop m p = Some r.

Lemma begins_det p r1 r2 : begins p r1 -> begins p r2 -> r1 = r2.
Proof. intros [n1 H1] [n2 H2]. specialize (H1 (n1 + n2)%nat ltac:(lia)). specialize (H2 (n1 + n2)%nat ltac:(lia)). congruence. Qed.

Definition next_text p : bool := cur_resp_text p && bool_decide (imap_parser_is_next_text p = Some true).

Lemma next_text_ok p :
  inv p -> (if cur_resp_text p then imap_parser_is_next_text p else Some false) = Some (next_text p).
Proof.
  intros Hp. unfold next_text. destruct (cur_resp_text p) eqn:Ht; [cbn | done]. pose proof (inv_text p Hp Ht) as Hl.
  unfold imap_parser_is_next_text, list_is_open. destruct (parents p) as [|b o]; cbn; [| done].
  specialize (Hl eq_refl). destruct (last (cur_list p)) as [a|] eqn:Ha; [| by apply last_None in Ha]. cbn.
  destruct a; cbn; try done. by destruct (last (c_str s)) as [c|]; [destruct (c =? 93) |].
Qed.

(** One round of the loop. *)
Definition round p (rec : imap_parser -> option (imap_parser * option bool)) : option (imap_parser * option bool) :=
  if negb (0 <? length (input (skipped p)))%nat then Some (skipped p, Some false)
  else if next_text p then Some (set_cur_type ARG_PARSE_TEXT (skipped p), None)
  else
    '(p, ret) ← start_arg (skipped p);
    match ret with
    | Some b => Some (p, Some b)
    | None => rec (set_cur_pos (S (cur_pos p)) p)
    end.

Lemma begin_round m p :
  inv p -> cur_type p = ARG_PARSE_NONE -> begin_loop (S m) p = round p (begin_loop m).
Proof.
  intros Hp Ht. cbn [begin_loop]. unfold type_is_none. rewrite bool_decide_eq_true_2 by done. cbn [negb].
  rewrite skip_to_next_ok by by apply inv_pos. unfold round. destruct (negb _); [done |]. cbn [assert mbind option_bind cur_pos skipped set_cur_pos Nat.eqb].
  change (cur_resp_text (skipped p)) with (cur_resp_text p). change (imap_parser_is_next_text (skipped p)) with (imap_parser_is_next_text p).
  by rewrite next_text_ok.
Qed.

Lemma begins_intro p r :
  inv p -> cur_type p = ARG_PARSE_NONE -> (exists n, forall m, (n <= m)%nat -> round p (begin_loop m) = Some r) -> begins p r.
Proof.
  intros Hp Ht [n Hn]. exists (S n). intros [|m] Hm; [lia |]. rewrite begin_round by done. apply Hn. lia.
Qed.

Lemma begins_typed p : cur_type p <> ARG_PARSE_NONE -> begins p (p, None).
Proof.
  intros Ht. exists 1%nat. intros [|m] Hm; [lia |]. cbn. unfold type_is_none. by rewrite bool_decide_eq_false_2.
Qed.

Hypothesis more_nul : no_nul more.

Lemma inv_feed p : inv p -> inv (feed more p).
Proof.
  intros []. split; cbn; try done; [by apply Forall_app | rewrite length_app; lia |].
  unfold type_ok in *. cbn. destruct (cur_type p); try done. destruct inv_type0 as [? ?]. split; [done | by apply lookup_app_l_Some].
Qed.

(** The loop ended with [ret]: an argument was begun, a list was closed, the
    line has ended or is wrong, or more data is needed. *)
Definition begun p p' (ret : option bool) : Prop :=
  match ret with
  | None =>
      inv p' /\ cur_type p' <> ARG_PARSE_NONE /\ error p' = None /\ (1 <= length (input p'))%nat /\
      ((remaining p' < remaining p)%nat \/
       next_text p = true /\ cur_type p' = ARG_PARSE_TEXT /\ cur_pos p' = 0%nat /\ (remaining p' <= remaining p)%nat) /\
      begins (feed more p) (feed more p', None)
  | Some true =>
      inv p' /\ cur_type p' = ARG_PARSE_NONE /\ error p' = None /\ literal_size_return p' = false /\ (remaining p' < remaining p)%nat /\ begins (feed more p) (feed more p', Some true)
  | Some false =>
      ((error p' = None -> inv p' /\ cur_type p' = ARG_PARSE_NONE /\ ended p') /\ begins (feed more p) (feed more p', Some false)) \/
      (error p' = None /\ inv p' /\ cur_type p' = ARG_PARSE_NONE /\ literal_size_return p' = false /\ eol p' = false /\
       (list_is_open p' = true \/ p' = skipped p) /\ forall r, begins (feed more p') r -> begins (feed more p) r)
  end.

(** The first round with more data, when the first one did not stop. *)
Lemma round_feed p rec :
  (cur_pos p <= length (input p))%nat -> (0 <? length (input (skipped p)))%nat = true ->
  round (feed more p) rec =
  if next_text p then Some (feed more (set_cur_type ARG_PARSE_TEXT (skipped p)), None)
  else
    '(p, ret) ← start_arg (feed more (skipped p));
    match ret with
    | Some b => Some (p, Some b)
    | None => rec (set_cur_pos (S (cur_pos p)) p)
    end.
Proof.
  intros Hpos Hne. pose proof (skipped_feed more p Hpos) as Hs. rewrite Hne in Hs. unfold round. rewrite Hs.
  replace (0 <? length (input (feed more (skipped p))))%nat with true; [done |].
  symmetry. apply Nat.ltb_lt. apply Nat.ltb_lt in Hne. pose proof (feed_length more (skipped p)). lia.
Qed.

Lemma next_text_skipped p : next_text (feed more (skipped p)) = next_text (feed more p).
Proof. unfold next_text, imap_parser_is_next_text, list_is_open. reflexivity. Qed.

Lemma begins_skipped p r :
  inv p -> cur_type p = ARG_PARSE_NONE -> begins (feed more (skipped p)) r -> begins (feed more p) r.
Proof.
  intros Hp Ht [n Hn]. apply begins_intro; [by apply inv_feed | done |]. exists n. intros m Hm.
  specialize (Hn (S m) ltac:(lia)). rewrite begin_round in Hn; [| by apply inv_feed, inv_skipped | done].
  unfold round in *. rewrite next_text_skipped in Hn. rewrite (skipped_feed_again more p) by by apply inv_pos. exact Hn.
Qed.

Lemma begun_text p :
  inv p -> cur_type p = ARG_PARSE_NONE -> error p = None -> literal_size_return p = false -> eol p = false -> next_text p = true -> (0 < length (input (skipped p)))%nat ->
  begun p (set_cur_type ARG_PARSE_TEXT (skipped p)) None.
Proof.
  intros Hp Ht He Hret Heol Htext Hne. pose proof (inv_pos p Hp) as Hpos. pose proof (inv_skipped p Hp Ht) as Hsk. cbn [begun].
  split; [destruct Hsk; split; try done; cbn; congruence |]. split; [done |]. split; [done |]. split; [done |].
  split; [right; split; [done |]; split; [done |]; split; [done |]; by apply skipped_remaining |].
  apply begins_intro; [by apply inv_feed | done |]. exists 0%nat. intros m _. rewrite round_feed by (done || by apply Nat.ltb_lt). by rewrite Htext.
Qed.

(** More data changes nothing when the first round has returned. *)
Lemma begins_returned p q b :
  inv p -> cur_type p = ARG_PARSE_NONE -> (0 < length (input (skipped p)))%nat -> next_text p = false ->
  start_arg (feed more (skipped p)) = Some (feed more q, Some b) -> begins (feed more p) (feed more q, Some b).
Proof.
  intros Hp Ht Hne Htext Hst. apply begins_intro; [by apply inv_feed | done |]. exists 0%nat. intros m _.
  rewrite round_feed by (by apply inv_pos || by apply Nat.ltb_lt). by rewrite Htext, Hst.
Qed.

Lemma begins_next p q r :
  inv p -> cur_type p = ARG_PARSE_NONE -> (0 < length (input (skipped p)))%nat -> next_text p = false ->
  start_arg (feed more (skipped p)) = Some (feed more q, None) -> cur_pos q = 0%nat ->
  begins (feed more (set_cur_pos 1 q)) r -> begins (feed more p) r.
Proof.
  intros Hp Ht Hne Htext Hst Hpos [n Hn]. apply begins_intro; [by apply inv_feed | done |]. exists n. intros m Hm.
  rewrite round_feed by (by apply inv_pos || by apply Nat.ltb_lt). rewrite Htext, Hst. cbn [mbind option_bind].
  change (cur_pos (feed more q)) with (cur_pos q). rewrite Hpos. by apply Hn.
Qed.

Lemma begun_trans p q p' ret :
  (remaining q < remaining p)%nat -> list_is_open q = true -> (forall r, begins (feed more q) r -> begins (feed more p) r) -> begun q p' ret -> begun p p' ret.
Proof.
  intros Hrem Hopen Hb. destruct ret as [[|]|]; cbn [begun].
  - intros (? & ? & ? & ? & ? & ?). split; [done |]. split; [done |]. split; [done |]. split; [done |]. split; [lia | auto].
  - intros [[? ?] | (? & ? & ? & ? & ? & Hw & ?)]; [left; auto | right]. split; [done |]. split; [done |]. split; [done |]. split; [done |]. split; [done |].
    split; [left; destruct Hw as [| ->]; done | auto].
  - intros (? & ? & ? & ? & Hr & ?). split; [done |]. split; [done |]. split; [done |]. split; [done |]. split; [left; lia | auto].
Qed.

Lemma begin_fuel n p :
  (remaining p < n)%nat -> inv p -> cur_type p = ARG_PARSE_NONE -> error p = None ->
  literal_size_return p = false -> eol p = false ->
  exists p' ret, begin_loop (S n) p = Some (p', ret) /\ advanced p p' /\ begun p p' ret.
Proof.
  revert p. induction n as [|n IH]; intros p Hn Hp Ht He Hret Heol; [lia |].
  pose proof (inv_pos p Hp) as Hpos. pose proof (inv_skipped p Hp Ht) as Hsk. pose proof (skipped_advanced p Hpos) as Hadv.
  pose proof (skipped_remaining p Hpos) as Hrem.
  rewrite begin_round by done. unfold round. destruct (Nat.ltb_spec 0 (length (input (skipped p)))) as [Hne|Hne]; cbn [negb].
  2: { eexists _, _. split; [done |]. split; [done |]. right. split; [done |]. split; [done |]. split; [done |].
       split; [done |]. split; [done |]. split; [by right |]. intros r. by apply begins_skipped. }
  destruct (next_text p) eqn:Htext; [eexists _, _; split; [done |]; split; [by destruct Hadv | by apply begun_text] |].
  assert (Hnil : input (skipped p) <> []) by (intros Hnil; rewrite Hnil in Hne; cbn in Hne; lia).
  destruct (start_spec (skipped p) Hsk Ht He eq_refl Hret Heol Hnil) as (q & ret & -> & Hadv' & Hin & Hq). cbn [mbind option_bind].
  pose proof (advanced_trans _ _ _ Hadv Hadv') as Hadvq.
  assert (Hone : ret <> Some false -> (length (input q) <= remaining p)%nat) by (intros Hr; rewrite (Hin Hr); unfold remaining in *; change (cur_pos (skipped p)) with 0%nat in Hrem; lia).
  destruct ret as [[|]|]; [specialize (Hin ltac:(done)); specialize (Hone ltac:(done)) | | specialize (Hin ltac:(done)); specialize (Hone ltac:(done))].
  - destruct Hq as (Hinv & Hp1 & Hty & Herr & Hret' & Hst). eexists _, _. split; [done |]. split; [done |]. cbn.
    split; [done |]. split; [done |]. split; [done |]. split; [done |]. split; [unfold remaining at 1; rewrite Hin in *; lia | by apply begins_returned].
  - eexists _, _. split; [done |]. split; [done |]. destruct Hq as [[Hfin Hst] | ->]; [left; split; [done |]; by apply begins_returned | right].
    split; [done |]. split; [done |]. split; [done |]. split; [done |]. split; [done |]. split; [by right |]. intros r. by apply begins_skipped.
  - destruct Hq as (Hinv & Hp0 & Herr & Hret' & Heol' & Hopen & Hst). rewrite Hp0.
    assert (Hnext : forall r, begins (feed more (set_cur_pos 1 q)) r -> begins (feed more p) r) by (intros r; by apply (begins_next p q r)).
    assert (Hlen : (1 <= length (input q))%nat) by (rewrite Hin; lia).
    assert (Hdec : (remaining (set_cur_pos 1 q) < remaining p)%nat) by (unfold remaining at 1; cbn; lia).
    assert (Hadv1 : advanced p (set_cur_pos 1 q)) by by destruct Hadvq.
    destruct (decide (cur_type q = ARG_PARSE_NONE)) as [Htq|Htq].
    + destruct (IH (set_cur_pos 1 q)) as (p' & ret & Hl & Hadv2 & Hb); [lia | done | done | done | done | done |].
      exists p', ret. split; [done |]. split; [by apply (advanced_trans _ (set_cur_pos 1 q)) |]. by apply (begun_trans p (set_cur_pos 1 q)); auto.
    + exists (set_cur_pos 1 q), None. split; [| split; [done |]].
      * cbn [begin_loop]. unfold type_is_none. by rewrite bool_decide_eq_false_2.
      * cbn. split; [done |]. split; [done |]. split; [done |]. split; [done |]. split; [by left |]. by apply Hnext, begins_typed.
Qed.
End Begin.
