(* ===== verification/ImapParserStream.v ===== *)
(** * The parser of IMAP commands: commands that arrive in pieces

    A call that runs out of data is continued by the next one.  The theorems
    show that every call returns, that the invariant of ImapParserProps.v is
    kept, and that it makes no difference how the data is divided. *)

From S2P Require Import Prelude Strescape ImapArg ImapParser ImapParserProps.

(** ** One argument *)

Record reading (p : imap_parser) : Prop := {
  reading_inv : inv p;
  reading_error : error p = None;
  reading_return : literal_size_return p = false;
}.

Definition finish_arg (r : option (imap_parser * bool)) : option (imap_parser * bool) :=
  '(p, ok) ← r; if negb ok then Some (p, false) else _ ← assert (type_is_none p); Some (p, true).

Definition after_begin (r : imap_parser * option bool) : option (imap_parser * bool) :=
  match r.2 with
  | Some b => Some (r.1, b)
  | None => finish_arg (continue_arg r.1)
  end.

Lemma begin_mono n p r : begin_loop n p = Some r -> begin_loop (S n) p = Some r.
Proof.
  revert p. induction n as [|n IH]; intros p; [done |]. intros H. cbn [begin_loop] in H |- *.
  destruct (negb (type_is_none p)); [done |]. destruct (imap_parser_skip_to_next p) as [q m]. destruct (negb m); [done |].
  destruct (assert _); [| done]. cbn [mbind option_bind] in *. destruct (if cur_resp_text q then _ else _) as [t|]; [| done]. cbn [mbind option_bind] in *.
  destruct t; [done |]. destruct (start_arg q) as [[q' [b|]]|]; cbn [mbind option_bind] in *; try done. by apply IH.
Qed.

Lemma begin_mono_le n m p r : (n <= m)%nat -> begin_loop n p = Some r -> begin_loop m p = Some r.
Proof. induction 1; [done |]. intros. by apply begin_mono, IHle. Qed.

Section Arg.
Variable more : list Z.
Hypothesis more_nul : no_nul more.
Implicit Types p : imap_parser.

Lemma reading_feed p : reading p -> reading (feed more p).
Proof. intros []. split; try done. by apply inv_feed. Qed.

Lemma begin_result p :
  reading p -> eol p = false -> cur_type p = ARG_PARSE_NONE ->
  exists p' ret, begin_loop (S (S (length (input p)))) p = Some (p', ret) /\ begins p (p', ret) /\ advanced p p' /\ begun more p p' ret.
Proof.
  intros [] Heol Ht. destruct (begin_fuel more more_nul (S (length (input p))) p) as (p' & ret & Hl & Hadv & Hb); try done; [unfold remaining; lia |].
  exists p', ret. split; [done |]. split; [| done]. eexists. intros m Hm. by apply (begin_mono_le _ _ _ _ Hm).
Qed.

Lemma read_arg_begins p r :
  reading p -> eol p = false -> cur_type p = ARG_PARSE_NONE -> (1 <= length (input p))%nat -> begins p r -> imap_parser_read_arg p = after_begin r.
Proof.
  intros Hp Heol Ht Hl Hr. unfold imap_parser_read_arg. rewrite (proj2 (Nat.eqb_neq _ _)) by lia.
  destruct (begin_result p Hp Heol Ht) as (p' & ret & -> & Hb & _). rewrite <- (begins_det _ _ _ Hb Hr). by destruct ret.
Qed.

Lemma read_arg_typed p : cur_type p <> ARG_PARSE_NONE -> imap_parser_read_arg p = finish_arg (resume_arg p).
Proof.
  intros Ht. unfold imap_parser_read_arg, resume_arg. destruct (_ =? 0)%nat; [done |]. cbn [begin_loop].
  assert (Hn : type_is_none p = false) by (by apply bool_decide_eq_false_2). by rewrite Hn.
Qed.

Lemma sim_finish r1 r2 : sim r1 r2 -> sim (finish_arg r1) (finish_arg r2).
Proof. apply sim_bind. Qed.

Lemma finish_outcome p r r_more :
  cur_type p <> ARG_PARSE_NONE -> outcome more resume_arg p r r_more -> outcome more imap_parser_read_arg p (finish_arg r) (finish_arg r_more).
Proof.
  intros Ht (p' & b & -> & Hadv & Hrem & H). exists p', b. destruct b.
  - destruct H as (Hinv & Hty & He & Hret & ->). cbn [finish_arg mbind option_bind negb].
    rewrite !assert_true by (unfold type_is_none; by apply bool_decide_eq_true_2). done.
  - split; [done |]. split; [done |]. split; [done |]. destruct H as [[H ->] | (He & Hinv & Hty & Hret & Heol & H)]; [by left | right].
    split; [done |]. split; [done |]. split; [done |]. split; [done |]. split; [done |]. intros Hcr. rewrite read_arg_typed by by apply Hty. by apply sim_finish, H.
Qed.

Lemma outcome_shift p1 p r r_more :
  advanced p p1 -> (remaining p1 <= remaining p)%nat -> cur_type p = ARG_PARSE_NONE ->
  outcome more imap_parser_read_arg p1 r r_more -> outcome more imap_parser_read_arg p r r_more.
Proof.
  intros Hadv Hrem Ht (p' & b & -> & Hadv' & Hrem' & H). exists p', b. split; [done |]. split; [by apply (advanced_trans _ p1) |].
  split; [intros He; specialize (Hrem' He); lia |]. destruct b; [done |]. destruct H as [H | (He & Hinv & _ & Hret & Heol & H)]; [by left | right].
  split; [done |]. split; [done |]. split; [done |]. split; [done |]. split; [done |]. intros Hcr. by apply H, (cr_split_advanced _ p).
Qed.

Lemma read_arg_outcome p : reading p -> eol p = false -> outcome more imap_parser_read_arg p (imap_parser_read_arg p) (imap_parser_read_arg (feed more p)).
Proof.
  intros Hp Heol. destruct Hp as [Hinv He Hret] eqn:HeqHp; clear HeqHp.
  destruct (Nat.eq_dec (length (input p)) 0) as [Hnil|Hne].
  { exists p, false. split; [unfold imap_parser_read_arg; by rewrite (proj2 (Nat.eqb_eq _ _)) |]. split; [by apply advanced_refl |]. split; [done |].
    right. split; [done |]. split; [done |]. split; [done |]. split; [done |]. split; [done |]. intros _. apply sim_refl. }
  pose proof (feed_length more p) as Hfl. destruct (decide (cur_type p = ARG_PARSE_NONE)) as [Ht|Ht].
  2: { rewrite (read_arg_typed p), (read_arg_typed (feed more p)), !resume_nonempty by (done || lia).
       apply finish_outcome; [done |]. apply continue_outcome; done || lia. }
  destruct (begin_result p Hp Heol Ht) as (p1 & ret & _ & Hb & Hadv & Hbegun). pose proof (read_arg_begins p _ Hp Heol Ht ltac:(lia) Hb) as Hr.
  rewrite Hr. assert (Hmore : forall r, begins (feed more p) r -> imap_parser_read_arg (feed more p) = after_begin r)
    by (intros r; apply read_arg_begins; [by apply reading_feed | done | done | lia]).
  destruct ret as [[|]|]; cbn [begun] in Hbegun.
  - destruct Hbegun as (Hi & Hty & Herr & Hret' & Hlt & Hfed). rewrite (Hmore _ Hfed). exists p1, true. split; [done |]. split; [done |].
    split; [lia | done].
  - exists p1, false. split; [done |]. split; [done |]. split; [done |]. destruct Hbegun as [[Hfin Hfed] | (Herr & Hi & Hty & Hret' & Heol' & _ & Hfed)].
    { left. by rewrite (Hmore _ Hfed). }
    right. split; [done |]. split; [done |]. split; [done |]. split; [done |]. split; [done |]. intros _. apply sim_eq.
    assert (Hp1 : reading p1) by (by split).
    destruct (Nat.eq_dec (length (input (feed more p1))) 0) as [Hl|Hl].
    + assert (Hm : more = []) by (cbn in Hl; rewrite length_app in Hl; apply nil_length_inv; lia). rewrite Hm, !feed_nil in *.
      rewrite Hr. unfold imap_parser_read_arg. by rewrite (proj2 (Nat.eqb_eq _ _)).
    + destruct (begin_result (feed more p1)) as (p2 & ret & _ & Hb2 & _); [by apply reading_feed | done | done |].
      rewrite (Hmore _ (Hfed _ Hb2)). apply read_arg_begins; [by apply reading_feed | done | done | lia | done].
  - destruct Hbegun as (Hi & Hty & Herr & Hlen & Hrem & Hfed). rewrite (Hmore _ Hfed). cbn [after_begin fst snd].
    apply (outcome_shift p1); [done | lia | done |]. apply finish_outcome; [done |]. by apply continue_outcome.
Qed.
End Arg.

(** ** Progress *)

Definition weight (p : imap_parser) : nat := 3 * remaining p + (if type_is_none p then 0 else 2) + (if next_text p then 1 else 0).

Lemma next_text_empty q : next_text (saved (IMAP_ARG_ATOM []) 0 q) = false.
Proof.
  unfold next_text, imap_parser_is_next_text. change (list_is_open (saved (IMAP_ARG_ATOM []) 0 q)) with (list_is_open q).
  apply andb_false_iff. right. apply bool_decide_eq_false. destruct (list_is_open q); [done |]. cbn. by rewrite last_snoc.
Qed.

(** A text that is empty is not followed by another one. *)
Lemma text_progress q p' :
  inv q -> cur_type q = ARG_PARSE_TEXT -> cur_pos q = 0%nat -> (1 <= length (input q))%nat -> continue_arg q = Some (p', true) ->
  next_text p' = false \/ (remaining p' < remaining q)%nat.
Proof.
  intros Hq Ht Hpos Hl Hr. rewrite continue_eq, Ht in Hr by done. unfold imap_parser_read_text in Hr.
  destruct (text_loop_spec [] q _ (cur_pos q) Ht eq_refl ltac:(lia)) as [(x & a & j & [-> Hj] & Ha & H & _) | [(x & e & j & _ & H & _) | (x & j & _ & H & _)]];
    rewrite H in Hr; simplify_eq. unfold atom_at in Ha.
  destruct j as [|j]; [left; rewrite Ha; apply next_text_empty | right; unfold remaining; cbn; lia].
Qed.

Lemma read_arg_weight p p' : reading p -> eol p = false -> imap_parser_read_arg p = Some (p', true) -> (weight p' < weight p)%nat.
Proof.
  intros Hp Heol Hr. assert (Hnil : no_nul []) by constructor.
  destruct (read_arg_outcome [] Hnil p Hp Heol) as (p0 & b & Hr0 & _ & Hrem & Hb). rewrite Hr in Hr0. injection Hr0 as <- <-. specialize (Hrem eq_refl).
  destruct Hb as (_ & Hty & _). unfold weight. unfold type_is_none at 1. rewrite bool_decide_eq_true_2 by done.
  destruct (decide (cur_type p = ARG_PARSE_NONE)) as [Ht|Ht].
  2: { unfold type_is_none. rewrite bool_decide_eq_false_2 by done. destruct (next_text p'), (next_text p); lia. }
  unfold type_is_none. rewrite bool_decide_eq_true_2 by done.
  assert (Hl : (1 <= length (input p))%nat).
  { destruct (input p) eqn:Hin; [| cbn; lia]. unfold imap_parser_read_arg in Hr. by rewrite Hin in Hr. }
  destruct (begin_result [] Hnil p Hp Heol Ht) as (p1 & ret & _ & Hb & _ & Hbegun). rewrite (read_arg_begins [] Hnil p _ Hp Heol Ht Hl Hb) in Hr.
  destruct ret as [[|]|]; cbn in Hr; [injection Hr as -> | done |].
  - destruct Hbegun as (_ & _ & _ & _ & Hlt & _). destruct (next_text p'), (next_text p); lia.
  - destruct Hbegun as (Hi & Hty1 & He1 & Hl1 & Hcase & _).
    destruct (continue_outcome [] p1 Hi Hty1 He1 Hl1) as (p2 & b & Hc & _ & Hrem1 & _). rewrite Hc in Hr.
    destruct b; cbn in Hr; [| done]. destruct (assert _); [| done]. cbn in Hr. injection Hr as ->. specialize (Hrem1 eq_refl).
    destruct Hcase as [Hlt | (Htext & Htt & Hp0 & Hle)]; [destruct (next_text p'), (next_text p); lia |]. rewrite Htext.
    destruct (text_progress p1 p' Hi Htt Hp0 Hl1 Hc) as [-> | ?]; [lia | destruct (next_text p'); lia].
Qed.

(** ** The loop *)

(** A call that ends for lack of data is inside an argument, or has skipped
    spaces. *)
Lemma read_arg_undecided p p' :
  reading p -> eol p = false -> has_flag p IMAP_PARSE_FLAG_STOP_AT_LIST = false -> imap_parser_read_arg p = Some (p', false) ->
  error p' = None -> eol p' = false -> literal_size_return p' = false ->
  IS_UNFINISHED p' = true \/ (root_list p' = root_list p /\ IS_UNFINISHED p' = IS_UNFINISHED p).
Proof.
  intros Hp Heol Hstop Hr He' Heol' Hret'. assert (Hnil : no_nul []) by constructor.
  destruct (read_arg_outcome [] Hnil p Hp Heol) as (p0 & b & Hr0 & Hadv & _ & Hb). rewrite Hr in Hr0. injection Hr0 as <- <-.
  assert (Hend : ~ ended p') by (unfold ended, has_flag in *; rewrite (adv_flags _ _ Hadv), Heol', Hret', Hstop; naive_solver).
  assert (Htyped : cur_type p' <> ARG_PARSE_NONE -> IS_UNFINISHED p' = true).
  { intros Ht. unfold IS_UNFINISHED, type_is_none. by rewrite bool_decide_eq_false_2. }
  destruct (decide (cur_type p = ARG_PARSE_NONE)) as [Ht|Ht].
  2: { left. apply Htyped. destruct Hb as [[Hfin _] | (_ & _ & Hty & _)]; [| auto]. destruct (Hfin He') as (_ & _ & ?). done. }
  destruct (Nat.eq_dec (length (input p)) 0) as [Hl|Hl].
  { right. unfold imap_parser_read_arg in Hr. rewrite (proj2 (Nat.eqb_eq _ _)) in Hr by done. by injection Hr as <-. }
  destruct (begin_result [] Hnil p Hp Heol Ht) as (p1 & ret & _ & Hbeg & Hadv1 & Hbegun). rewrite (read_arg_begins [] Hnil p _ Hp Heol Ht ltac:(lia) Hbeg) in Hr.
  destruct ret as [[|]|]; cbn in Hr; [done | injection Hr as -> |].
  - destruct Hbegun as [[Hfin _] | (_ & _ & Hty & _ & _ & Hw & _)]; [by destruct (Hfin He') as (_ & _ & ?) |].
    destruct Hw as [Hopen | ->]; [left | by right]. unfold IS_UNFINISHED, has_flag in *. rewrite Hopen, (adv_flags _ _ Hadv), Hstop. apply orb_true_r.
  - left. apply Htyped. destruct Hbegun as (Hi & Hty1 & He1 & Hl1 & _).
    destruct (continue_outcome [] p1 Hi Hty1 He1 Hl1) as (p2 & b & Hc & _ & _ & Hb2). rewrite Hc in Hr. destruct b; cbn in Hr.
    + destruct (assert _); done.
    + injection Hr as ->. destruct Hb2 as [[Hfin _] | (_ & _ & Hty & _)]; [| auto]. by destruct (Hfin He') as (_ & _ & ?).
Qed.

Section Loop.
Variable more : list Z.
Variable count : nat.
Hypothesis more_nul : no_nul more.
Implicit Types p : imap_parser.

Definition wants_more p : bool := negb (eol p) && ((count =? 0)%nat || IS_UNFINISHED p || (length (root_list p) <? count)%nat).

Lemma read_arg_true p p' : reading p -> eol p = false -> imap_parser_read_arg p = Some (p', true) -> reading p' /\ advanced p p'.
Proof.
  intros Hp Heol Hr. destruct (read_arg_outcome more more_nul p Hp Heol) as (p0 & b & Hr0 & Hadv & _ & Hb). rewrite Hr in Hr0. injection Hr0 as <- <-.
  destruct Hb as (Hi & _ & He & Hret & _). by split; [split |].
Qed.

Lemma wants_eol p : wants_more p = true -> eol p = false.
Proof. unfold wants_more. by destruct (eol p). Qed.

(** The loop returns; behind it the invariant holds unless there was an error. *)
Lemma loop_total n p :
  (weight p < n)%nat -> reading p ->
  exists p', read_args_loop n count p = Some p' /\ advanced p p' /\ (error p' = None -> inv p').
Proof.
  revert p. induction n as [|n IH]; intros p Hn Hp; [lia |]. cbn [read_args_loop]. fold (wants_more p). destruct (wants_more p) eqn:Hw.
  2: { exists p. split; [done |]. split; [by apply advanced_refl |]. intros _. by apply reading_inv. }
  apply wants_eol in Hw.
  destruct (read_arg_outcome more more_nul p Hp Hw) as (p1 & b & Hr & Hadv & _ & Hb). rewrite Hr. cbn [mbind option_bind]. destruct b; cbn [negb].
  - destruct (read_arg_true p p1 Hp Hw Hr) as [Hp1 _]. pose proof (read_arg_weight p p1 Hp Hw Hr) as Hlt.
    destruct (_ >? _); [eexists; split; [done |]; split; [by destruct Hadv | done] |].
    destruct (IH p1 ltac:(lia) Hp1) as (p' & Hl & Hadv' & Hend). exists p'. split; [done |]. split; [by apply (advanced_trans _ p1) | done].
  - exists p1. split; [done |]. split; [done |]. intros He. destruct Hb as [[Hfin _] | (_ & Hi & _)]; [| done]. by destruct (Hfin He).
Qed.

Lemma loop_mono n p p' : read_args_loop n count p = Some p' -> read_args_loop (S n) count p = Some p'.
Proof.
  revert p. induction n as [|n IH]; intros p; [done |]. intros H. cbn [read_args_loop] in H |- *. destruct (negb (eol p) && _); [| done].
  destruct (imap_parser_read_arg p) as [[q [|]]|]; cbn [mbind option_bind negb] in *; try done. destruct (_ >? _); [done |]. by apply IH.
Qed.

Lemma loop_mono_le n m p p' : (n <= m)%nat -> read_args_loop n count p = Some p' -> read_args_loop m count p = Some p'.
Proof. induction 1; [done |]. intros. by apply loop_mono, IHle. Qed.


Definition runs p q : Prop := exists n, read_args_loop n count p = Some q.

Lemma runs_det p q1 q2 : runs p q1 -> runs p q2 -> q1 = q2.
Proof.
  intros [n1 H1] [n2 H2]. apply (loop_mono_le n1 (n1 + n2)) in H1; [| lia]. apply (loop_mono_le n2 (n1 + n2)) in H2; [| lia]. congruence.
Qed.

Lemma runs_stop p : wants_more p = false -> runs p p.
Proof. intros H. exists 1%nat. cbn [read_args_loop]. fold (wants_more p). by rewrite H. Qed.

Lemma runs_arg p p' q :
  wants_more p = true -> imap_parser_read_arg p = Some (p', true) -> (line_size p' >? max_line_size p') = false -> runs p' q -> runs p q.
Proof. intros Hw Hr Hl [n Hn]. exists (S n). cbn [read_args_loop]. fold (wants_more p). by rewrite Hw, Hr; cbn [mbind option_bind negb]; rewrite Hl. Qed.

Lemma runs_long p p' :
  wants_more p = true -> imap_parser_read_arg p = Some (p', true) -> (line_size p' >? max_line_size p') = true ->
  runs p (fail (str "IMAP command line too large") p').
Proof. intros Hw Hr Hl. exists 1%nat. cbn [read_args_loop]. fold (wants_more p). by rewrite Hw, Hr; cbn [mbind option_bind negb]; rewrite Hl. Qed.

Lemma runs_end p p' : wants_more p = true -> imap_parser_read_arg p = Some (p', false) -> runs p p'.
Proof. intros Hw Hr. exists 1%nat. cbn [read_args_loop]. fold (wants_more p). by rewrite Hw, Hr. Qed.

Definition same_state q1 q2 : Prop := q1 = q2 \/ same_error q1 q2.

(** Two states whose next arguments are alike. *)
Lemma runs_sim p1 p2 q1 :
  wants_more p1 = true -> wants_more p2 = true -> sim (imap_parser_read_arg p1) (imap_parser_read_arg p2) -> runs p1 q1 ->
  exists q2, runs p2 q2 /\ same_state q1 q2.
Proof.
  intros Hw1 Hw2 Hsim [[|n] Hn]; [done |]. cbn [read_args_loop] in Hn. fold (wants_more p1) in Hn. rewrite Hw1 in Hn.
  destruct (imap_parser_read_arg p1) as [[x1 b]|] eqn:Hr1, (imap_parser_read_arg p2) as [[x2 b2]|] eqn:Hr2; try done.
  destruct Hsim as [<- Hx]. cbn [mbind option_bind] in Hn. destruct b; cbn [negb] in Hn.
  - destruct Hx as [<- | [? _]]; [| done]. exists q1. split; [| by left]. destruct (line_size x1 >? max_line_size x1) eqn:Hl.
    + injection Hn as <-. by apply runs_long.
    + apply (runs_arg p2 x1); [done | done | done | by exists n].
  - injection Hn as <-. exists x2. split; [by apply runs_end |]. destruct Hx as [<- | [_ ?]]; [by left | by right].
Qed.

(** More data changes nothing, or the call goes on where it was. *)
Definition resumed p p1 : Prop :=
  (runs (feed more p) (feed more p1) /\ (error p1 <> None \/ ended p1 \/ wants_more p1 = false)) \/
  (error p1 = None /\ literal_size_return p1 = false /\ forall q1, runs (feed more p1) q1 -> exists q2, runs (feed more p) q2 /\ same_state q1 q2).

Lemma loop_resume n p p1 : reading p -> cr_split more p -> has_flag p IMAP_PARSE_FLAG_STOP_AT_LIST = false -> read_args_loop n count p = Some p1 -> resumed p p1.
Proof.
  revert p. induction n as [|n IH]; intros p Hp Hcr Hstop Hl; [done |]. cbn [read_args_loop] in Hl. fold (wants_more p) in Hl.
  destruct (wants_more p) eqn:Hw; [| injection Hl as <-; left; split; [by apply runs_stop | auto]]. pose proof (wants_eol p Hw) as Heol.
  destruct (read_arg_outcome more more_nul p Hp Heol) as (p' & b & Hr & Hadv & _ & Hb). rewrite Hr in Hl. cbn [mbind option_bind] in Hl.
  destruct b; cbn [negb] in Hl.
  - destruct Hb as (_ & _ & _ & _ & Hmore). destruct (read_arg_true p p' Hp Heol Hr) as [Hp' _].
    destruct (line_size p' >? max_line_size p') eqn:Hlong.
    + injection Hl as <-. left. split; [by apply (runs_long (feed more p) (feed more p')) | by left].
    + assert (Hnext : forall q, runs (feed more p') q -> runs (feed more p) q) by (intros q; by apply (runs_arg (feed more p) (feed more p'))).
      destruct (IH p' Hp' (cr_split_advanced _ _ _ Hadv Hcr) ltac:(unfold has_flag in *; by rewrite (adv_flags _ _ Hadv)) Hl) as [[Hrun Hend] | (He & Hret & Hrun)]; [left; auto | right].
      split; [done |]. split; [done |]. intros q1 Hq1. destruct (Hrun q1 Hq1) as (q2 & Hq2 & Hsame). eauto.
  - injection Hl as <-. destruct Hb as [[Hfin Hmore] | (He & Hi & _ & Hret & Heol' & Hsim)].
    + left. split; [by apply runs_end |]. destruct (error p'); [by left | right; left]. by destruct (Hfin eq_refl) as (_ & _ & ?).
    + right. split; [done |]. split; [done |]. intros q1 Hq1. apply (runs_sim (feed more p') (feed more p)); [| done | auto | done].
      change (wants_more p' = true). unfold wants_more in *. rewrite Heol', Heol in *. cbn [negb andb] in *.
      destruct (read_arg_undecided p p' Hp Heol Hstop Hr He Heol' Hret) as [-> | [-> ->]]; [by rewrite orb_true_r | done].
Qed.
End Loop.

(** ** Calls *)

(** What holds between the calls, as long as there was no error. *)
Definition parser_ok (p : imap_parser) : Prop :=
  error p = None /\
  if args_added_extra_eol p then exists q, p = root_append IMAP_ARG_EOL q /\ inv q /\ cur_type q = ARG_PARSE_NONE /\ cur_pos q = 0%nat /\ cur_resp_text q = false
  else inv p /\ literal_size_return p = false.

(** The end marker of the last call is removed. *)
Definition prepare (fl : Z) (p : imap_parser) : option imap_parser :=
  let p := set_flags fl p in
  if args_added_extra_eol p then
    p ← root_delete_last p;
    Some (set_literal_size_return false (set_args_added_extra_eol false p))
  else Some p.

Definition conclude (count : nat) (p : imap_parser) : imap_parser * Z * option (list imap_arg) :=
  match error p with
  | Some _ => (set_cur_pos 0 (skip_counted (cur_pos p) p), -1, None)
  | None =>
      if (negb (IS_UNFINISHED p) && (0 <? count)%nat && (count <=? length (root_list p))%nat) || eol p || literal_size_return p then finish_line p
      else (p, -2, None)
  end.

Lemma read_args_eq p count fl :
  imap_parser_read_args p count fl =
  p ← prepare fl p; p ← read_args_loop (read_args_fuel p) count p; Some (conclude count p).
Proof.
  unfold imap_parser_read_args, prepare, conclude. destruct (if args_added_extra_eol _ then _ else _) as [q|]; [| done]. cbn [mbind option_bind].
  destruct (read_args_loop _ count q) as [q'|]; [| done]. cbn [mbind option_bind]. destruct (error q'); [done |]. by destruct (_ || _ || _).
Qed.

Lemma removelast_snoc {A} (l : list A) x : removelast (l ++ [x]) = l.
Proof. by apply removelast_last. Qed.

Lemma root_delete_append a q : root_delete_last (root_append a q) = Some q.
Proof.
  unfold root_delete_last, root_append. destruct (list_is_open q) eqn:Ho.
  - change (list_is_open (set_root_after _ q)) with (list_is_open q). rewrite Ho. cbn. rewrite last_snoc, removelast_snoc. cbn. by destruct q.
  - change (list_is_open (set_cur_list _ q)) with (list_is_open q). rewrite Ho. cbn. rewrite last_snoc, removelast_snoc. cbn. by destruct q.
Qed.

Lemma root_append_frame a q :
  error (root_append a q) = error q /\ skip_left (root_append a q) = skip_left q /\ input (root_append a q) = input q /\
  max_line_size (root_append a q) = max_line_size q /\ args_added_extra_eol (root_append a q) = args_added_extra_eol q /\
  literal_size_return (root_append a q) = literal_size_return q.
Proof. unfold root_append. by destruct (list_is_open q). Qed.

Lemma root_append_feed a more fl q : set_flags fl (feed more (root_append a q)) = root_append a (set_flags fl (feed more q)).
Proof.
  unfold root_append. change (list_is_open (set_flags fl (feed more q))) with (list_is_open q). by destruct (list_is_open q).
Qed.

Lemma prepare_spec p fl :
  parser_ok p -> exists p0, prepare fl p = Some p0 /\ reading p0 /\ args_added_extra_eol p0 = false /\ flags p0 = fl /\
    input p0 = input p /\ max_line_size p0 = max_line_size p /\ forall more, prepare fl (feed more p) = Some (feed more p0).
Proof.
  intros (He & Hp). destruct (args_added_extra_eol p) eqn:Hadd.
  - destruct Hp as (q & -> & Hq & Ht & _ & _). destruct (root_append_frame IMAP_ARG_EOL q) as (Fe & _ & Fi & Fm & Fa & _). rewrite Fe in He. rewrite Fa in Hadd.
    assert (Hprep : forall more, prepare fl (feed more (root_append IMAP_ARG_EOL q)) =
      Some (feed more (set_literal_size_return false (set_args_added_extra_eol false (set_flags fl q))))).
    { intros more. unfold prepare. rewrite root_append_feed. destruct (root_append_frame IMAP_ARG_EOL (set_flags fl (feed more q))) as (_ & _ & _ & _ & -> & _).
      cbn [set_flags feed set_input args_added_extra_eol]. rewrite Hadd. change (set_input (input q ++ more) q) with (feed more q). by rewrite root_delete_append. }
    pose proof (Hprep []) as Hprep0. rewrite !feed_nil in Hprep0. eexists. split; [done |]. rewrite Fi, Fm.
    split; [split; [destruct Hq; split; done | done | done] |]. done.
  - destruct Hp as [Hq Hret]. exists (set_flags fl p). unfold prepare. cbn [set_flags feed set_input args_added_extra_eol]. rewrite Hadd.
    split; [done |]. split; [split; [destruct Hq; split; done | done | done] |]. done.
Qed.

Lemma weight_fuel p : (weight p < read_args_fuel p)%nat.
Proof. unfold weight, read_args_fuel, remaining. destruct (type_is_none p), (next_text p); lia. Qed.

(** The part of a call up to its conclusion. *)
Lemma read_args_runs p count fl :
  parser_ok p -> exists p0 p1, prepare fl p = Some p0 /\ reading p0 /\ runs count p0 p1 /\ advanced p0 p1 /\ (error p1 = None -> inv p1) /\
    args_added_extra_eol p1 = false /\ flags p0 = fl /\ input p0 = input p /\
    (forall more, prepare fl (feed more p) = Some (feed more p0)) /\ imap_parser_read_args p count fl = Some (conclude count p1).
Proof.
  intros Hp. destruct (prepare_spec p fl Hp) as (p0 & H0 & Hr & Ha & Hf & Hi & Hm & Hfeed).
  destruct (loop_total [] count ltac:(constructor) (read_args_fuel p0) p0 (weight_fuel p0) Hr) as (p1 & Hrun & Hadv & Hinv).
  exists p0, p1. splits; try done; [by eexists | by rewrite (adv_added _ _ Hadv) |].
  rewrite read_args_eq, H0. cbn [mbind option_bind]. by rewrite Hrun.
Qed.

Lemma root_append_list a q : root_list (root_append a q) = root_list q ++ [a] \/ root_after q <> [] /\ list_is_open q = false.
Proof.
  unfold root_list, root_append, list_is_open. destruct (parents q) as [|b o] eqn:Hp; cbn; rewrite ?Hp; cbn.
  - destruct (root_after q); [left; by rewrite !app_nil_r | by right].
  - left. by rewrite app_assoc.
Qed.

(** The state in which a line is finished. *)
Definition line_end (p : imap_parser) : imap_parser := set_cur_resp_text false (set_cur_pos 0 (counted (cur_pos p) p)).

Lemma finish_line_spec p :
  inv p -> cur_type p = ARG_PARSE_NONE ->
  if list_is_open p && negb (literal_size_return p) && negb (has_flag p IMAP_PARSE_FLAG_STOP_AT_LIST)
  then finish_line p = (fail (str "Missing ')'") (line_end p), -1, None)
  else finish_line p = (set_args_added_extra_eol true (root_append IMAP_ARG_EOL (line_end p)), Z.of_nat (length (root_list p)),
         Some (root_list p ++ [IMAP_ARG_EOL])).
Proof.
  intros Hp Ht. unfold finish_line. rewrite skip_counted_ok by by apply inv_pos. fold (line_end p).
  change (list_is_open (line_end p)) with (list_is_open p). change (has_flag (line_end p)) with (has_flag p).
  change (literal_size_return (line_end p)) with (literal_size_return p).
  destruct (_ && _ && _); [done |]. f_equal. f_equal.
  change (root_list (set_args_added_extra_eol true (root_append IMAP_ARG_EOL (line_end p)))) with (root_list (root_append IMAP_ARG_EOL (line_end p))).
  destruct (root_append_list IMAP_ARG_EOL (line_end p)) as [Hr | [H _]]; [by rewrite Hr |]. by destruct H; apply (inv_after p).
Qed.

Lemma inv_line_end p : inv p -> cur_type p = ARG_PARSE_NONE -> inv (line_end p).
Proof.
  intros Hp Ht. destruct Hp. split; cbn; try done; [by apply Forall_drop | lia |]. unfold type_ok. cbn. by rewrite Ht.
Qed.

(** The three ways in which a call ends. *)
Definition concluded (count : nat) (p : imap_parser) (r : imap_parser * Z * option (list imap_arg)) : Prop :=
  let '(p', ret, args) := r in
  (ret = -1 /\ error p' <> None /\ args = None) \/
  (ret = -2 /\ p' = p /\ error p = None /\ literal_size_return p = false /\ wants_more count p = true /\ args = None) \/
  (ret = Z.of_nat (length (root_list p)) /\ args = Some (root_list p ++ [IMAP_ARG_EOL]) /\ error p = None /\ cur_type p = ARG_PARSE_NONE /\
   p' = set_args_added_extra_eol true (root_append IMAP_ARG_EOL (line_end p)) /\
   (eol p = true \/ literal_size_return p = true \/ (0 < count <= length (root_list p))%nat)).

Definition finishes (count : nat) (p : imap_parser) : bool :=
  (negb (IS_UNFINISHED p) && (0 <? count)%nat && (count <=? length (root_list p))%nat) || eol p || literal_size_return p.

Lemma finishes_type count p :
  inv p -> finishes count p = true ->
  cur_type p = ARG_PARSE_NONE /\ (eol p = true \/ literal_size_return p = true \/ (0 < count <= length (root_list p))%nat).
Proof.
  intros Hp Hc. unfold finishes in Hc. apply orb_true_iff in Hc. destruct Hc as [Hc|Hc]; [apply orb_true_iff in Hc; destruct Hc as [Hc|Hc] |].
  - rewrite !andb_true_iff in Hc. destruct Hc as [[Hu Hc1%Nat.ltb_lt] Hc2%Nat.leb_le]. split; [| auto].
    unfold IS_UNFINISHED, type_is_none in Hu. case_bool_decide; done.
  - split; [by apply inv_eol | auto].
  - split; [| auto]. by apply inv_return.
Qed.

Lemma conclude_spec count p : (error p = None -> inv p) -> concluded count p (conclude count p).
Proof.
  intros Hinv. unfold conclude. destruct (error p) eqn:He.
  { left. split; [done |]. split; [| done]. unfold skip_counted, i_stream_skip. cbn [set_line_size input]. destruct (_ <=? _)%nat; cbn; congruence. }
  specialize (Hinv eq_refl). fold (finishes count p). destruct (finishes count p) eqn:Hc.
  - destruct (finishes_type count p Hinv Hc) as [Ht Hwhy]. pose proof (finish_line_spec p Hinv Ht) as Hf.
    destruct (list_is_open p && _ && _); rewrite Hf; [by left |]. right. right. done.
  - right. left. unfold finishes in Hc. apply orb_false_iff in Hc. destruct Hc as [Hc Hret]. apply orb_false_iff in Hc. destruct Hc as [Hc Heol].
    splits; try done. unfold wants_more. rewrite Heol. cbn [negb andb]. destruct (count =? 0)%nat eqn:H0; [done |]. apply Nat.eqb_neq in H0.
    rewrite (proj2 (Nat.ltb_lt 0 count)), andb_true_r in Hc by lia. apply andb_false_iff in Hc.
    destruct Hc as [Hu%negb_false_iff | Hc%Nat.leb_gt]; [by rewrite Hu |]. by rewrite (proj2 (Nat.ltb_lt _ _)), orb_true_r by done.
Qed.

Lemma concluded_ok count p p' ret args :
  (error p = None -> inv p) -> args_added_extra_eol p = false -> concluded count p (p', ret, args) ->
  error p' = None -> parser_ok p'.
Proof.
  intros Hinv Ha [(-> & He & _) | [(-> & -> & He & Hret & _) | (-> & _ & He & Ht & -> & _)]] He'; [done | |].
  - split; [done |]. rewrite Ha. auto.
  - specialize (Hinv He). set (q := set_args_added_extra_eol true (line_end p)).
    replace (set_args_added_extra_eol true (root_append IMAP_ARG_EOL (line_end p))) with (root_append IMAP_ARG_EOL q)
      by (unfold root_append; change (list_is_open q) with (list_is_open (line_end p)); by destruct (list_is_open (line_end p))).
    destruct (root_append_frame IMAP_ARG_EOL q) as (Fe & _ & _ & _ & Fa & _). unfold parser_ok. rewrite Fe, Fa. split; [done |].
    exists q. split; [done |]. split; [| done]. pose proof (inv_line_end p Hinv Ht) as Hle. destruct Hle; split; done.
Qed.

(** ** More data *)

Definition call_result : Type := imap_parser * Z * option (list imap_arg).

Definition same_result (r1 r2 : call_result) : Prop :=
  r1.1.2 = r2.1.2 /\ r1.2 = r2.2 /\ (r1.1.1 = r2.1.1 \/ r1.1.2 = -1 /\ same_error r1.1.1 r2.1.1).

Definition feed_result (more : list Z) (r : call_result) : call_result := (feed more r.1.1, r.1.2, r.2).

Lemma same_error_trans p1 p2 p3 : same_error p1 p2 -> same_error p2 p3 -> same_error p1 p3.
Proof. intros [H1 H2] [_ H3]. split; [done | congruence]. Qed.

Lemma same_result_refl r : same_result r r.
Proof. split; [done |]. split; [done | by left]. Qed.

Lemma same_result_trans r1 r2 r3 : same_result r1 r2 -> same_result r2 r3 -> same_result r1 r3.
Proof.
  destruct r1 as [[p1 n1] a1], r2 as [[p2 n2] a2], r3 as [[p3 n3] a3]. intros (H1 & H2 & H3) (H4 & H5 & H6). cbn in *. subst.
  split; [done |]. split; [done |]. cbn. destruct H3 as [-> | [? H3]], H6 as [-> | [? H6]]; auto. right. split; [done |]. by apply (same_error_trans _ p2).
Qed.

Lemma forget_error p n : forget (set_cur_pos 0 (skip_counted n p)) = forget p.
Proof. unfold skip_counted, i_stream_skip. cbn [set_line_size input]. by destruct (_ <=? _)%nat. Qed.

Lemma forget_feed more p : forget (feed more p) = forget p.
Proof. done. Qed.

Lemma skip_error p n : error (set_cur_pos 0 (skip_counted n p)) = error p.
Proof. unfold skip_counted, i_stream_skip. cbn [set_line_size input]. by destruct (_ <=? _)%nat. Qed.

Lemma conclude_error count p : error p <> None -> conclude count p = (set_cur_pos 0 (skip_counted (cur_pos p) p), -1, None).
Proof. intros H. unfold conclude. by destruct (error p). Qed.

Lemma conclude_same count q1 q2 : same_state q1 q2 -> same_result (conclude count q1) (conclude count q2).
Proof.
  intros [-> | [He Hf]]; [apply same_result_refl |].
  assert (He2 : error q2 <> None) by (change (error (forget q2) <> None); by rewrite <- Hf).
  rewrite !conclude_error by done. split; [done |]. split; [done |]. right. split; [done |]. cbn [fst]. split; [by rewrite skip_error | by rewrite !forget_error].
Qed.

Lemma conclude_wants count p :
  error p = None -> literal_size_return p = false -> wants_more count p = true -> conclude count p = (p, -2, None).
Proof.
  intros He Hret Hw. unfold conclude. rewrite He, Hret, orb_false_r. unfold wants_more in Hw. destruct (eol p); [done |]. rewrite orb_false_r.
  cbn [negb andb] in Hw. destruct (IS_UNFINISHED p); [done |]. rewrite orb_false_r in Hw. cbn [negb andb].
  apply orb_true_iff in Hw. destruct Hw as [->%Nat.eqb_eq | Hw%Nat.ltb_lt]; [done |]. by rewrite (proj2 (Nat.leb_gt _ _)), andb_false_r.
Qed.

Lemma line_end_feed more p : inv p -> line_end (feed more p) = feed more (line_end p).
Proof.
  intros Hp. unfold line_end. change (cur_pos (feed more p)) with (cur_pos p). rewrite counted_feed by by apply inv_pos. done.
Qed.

Lemma finish_feed more p :
  no_nul more -> inv p -> cur_type p = ARG_PARSE_NONE -> finish_line (feed more p) = feed_result more (finish_line p).
Proof.
  intros Hm Hp Ht. pose proof (finish_line_spec p Hp Ht) as H1. pose proof (finish_line_spec (feed more p) (inv_feed more Hm p Hp) Ht) as H2.
  change (list_is_open (feed more p)) with (list_is_open p) in H2. change (has_flag (feed more p)) with (has_flag p) in H2.
  change (literal_size_return (feed more p)) with (literal_size_return p) in H2. change (root_list (feed more p)) with (root_list p) in H2.
  destruct (list_is_open p && _ && _); rewrite H1, H2, line_end_feed by done; [done |]. unfold feed_result. cbn [fst snd]. do 2 f_equal.
  unfold root_append. change (list_is_open (feed more (line_end p))) with (list_is_open (line_end p)). by destruct (list_is_open (line_end p)).
Qed.

Lemma conclude_feed count more p :
  no_nul more -> (error p = None -> inv p) -> (conclude count p).1.2 <> -2 -> same_result (feed_result more (conclude count p)) (conclude count (feed more p)).
Proof.
  intros Hm Hinv Hret. destruct (error p) eqn:He.
  - rewrite !conclude_error by (cbn; congruence). split; [done |]. split; [done |]. right. split; [done |]. cbn [feed_result fst snd].
    split; [cbn [feed set_input error]; rewrite skip_error; congruence | by rewrite forget_feed, !forget_error].
  - specialize (Hinv eq_refl). pose proof (conclude_spec count p ltac:(done)) as Hc. unfold conclude in *. cbn [feed set_input error]. rewrite He in *.
    change (set_input (input p ++ more) p) with (feed more p).
    change (IS_UNFINISHED (feed more p)) with (IS_UNFINISHED p). change (root_list (feed more p)) with (root_list p).
    change (eol (feed more p)) with (eol p). change (literal_size_return (feed more p)) with (literal_size_return p).
    fold (finishes count p) in *. destruct (finishes count p) eqn:Hf; [| done]. rewrite finish_feed; [apply same_result_refl | done | done |].
    by destruct (finishes_type count p Hinv Hf).
Qed.

Lemma parser_ok_feed more p : no_nul more -> parser_ok p -> parser_ok (feed more p).
Proof.
  intros Hm (He & Hp). split; [done |]. cbn [feed set_input args_added_extra_eol]. destruct (args_added_extra_eol p).
  - destruct Hp as (q & -> & Hq & Ht & Hpos & Htext). exists (feed more q). split; [| split; [by apply inv_feed | done]].
    unfold root_append. change (list_is_open (feed more q)) with (list_is_open q). by destruct (list_is_open q).
  - destruct Hp as [Hp Hret]. split; [by apply inv_feed | done].
Qed.

Lemma set_flags_id p fl : flags p = fl -> set_flags fl p = p.
Proof. intros <-. by destruct p. Qed.

(** A call, and the same call with more data. *)
Lemma read_args_more p count fl more p' ret args :
  parser_ok p -> Z.land fl IMAP_PARSE_FLAG_STOP_AT_LIST = 0 -> no_nul more -> cr_split more p ->
  imap_parser_read_args p count fl = Some (p', ret, args) ->
  exists r1 r2, imap_parser_read_args (feed more p) count fl = Some r2 /\ same_result r1 r2 /\
    if ret =? -2 then parser_ok p' /\ (exists k, input p' = drop k (input p)) /\ imap_parser_read_args (feed more p') count fl = Some r1 else r1 = (feed more p', ret, args).
Proof.
  intros Hp Hstop Hm Hcr Hr. destruct (read_args_runs p count fl Hp) as (p0 & p1 & H0 & Hread & [n Hrun] & Hadv & Hinv & Hadd & Hfl & Hin & Hfeed & Hr').
  rewrite Hr in Hr'. injection Hr' as Hc.
  destruct (read_args_runs (feed more p) count fl (parser_ok_feed more p Hm Hp)) as (p0' & q2 & H0' & _ & Hrun2 & _ & _ & _ & _ & _ & _ & Hr2).
  rewrite Hfeed in H0'. injection H0' as <-.
  assert (Hres : resumed more count p0 p1).
  { apply (loop_resume more count Hm n); [done | unfold cr_split in *; by rewrite Hin | unfold has_flag; by rewrite Hfl, Hstop | done]. }
  pose proof (conclude_spec count p1 Hinv) as Hspec. rewrite <- Hc in Hspec.
  destruct (Z.eqb_spec ret (-2)) as [->|Hne].
  - destruct Hspec as [(? & _) | [(_ & -> & He & Hret & Hw & _) | (? & _)]]; [done | | lia].
    assert (Hok : parser_ok p1) by (split; [done |]; rewrite Hadd; auto).
    destruct (read_args_runs (feed more p1) count fl (parser_ok_feed more p1 Hm Hok)) as (p0' & q1 & H0' & _ & Hrun1 & _ & _ & _ & _ & _ & _ & Hr1).
    unfold prepare in H0'. cbn [feed set_flags set_input args_added_extra_eol] in H0'. rewrite Hadd in H0'. injection H0' as H0'.
    change (set_flags fl (feed more p1) = p0') in H0'. rewrite set_flags_id in H0' by (cbn; by rewrite (adv_flags _ _ Hadv)). subst p0'.
    exists (conclude count q1), (conclude count q2). split; [done |].
    split; [| split; [done |]; split; [destruct (adv_input _ _ Hadv) as (k & _ & Hk); exists k; by rewrite Hk, Hin | done]]. apply conclude_same.
    destruct Hres as [[_ Hend] | (_ & _ & Hnext)].
    + exfalso. unfold ended, has_flag in Hend. rewrite (adv_flags _ _ Hadv), Hfl, Hstop, Hret, (wants_eol _ _ Hw), Hw in Hend. naive_solver.
    + destruct (Hnext q1 Hrun1) as (q2' & Hq2 & Hsame). by rewrite (runs_det count _ _ _ Hrun2 Hq2).
  - exists (feed more p', ret, args), (conclude count q2). split; [done |]. split; [| done].
    change (feed more p', ret, args) with (feed_result more (p', ret, args)). rewrite Hc.
    apply (same_result_trans _ (conclude count (feed more p1))); [apply conclude_feed; [done | done | by rewrite <- Hc] |]. apply conclude_same.
    destruct Hres as [[Hq _] | (He & Hret & Hnext)]; [left; by apply (runs_det count (feed more p0)) |].
    assert (Hw : wants_more count p1 = false) by (destruct (wants_more count p1) eqn:Hw; [| done]; rewrite conclude_wants in Hc by done; by injection Hc as _ ? _).
    destruct (Hnext (feed more p1)) as (q2' & Hq2 & Hsame); [by apply runs_stop |]. by rewrite (runs_det count _ _ _ Hrun2 Hq2).
Qed.
