(* ===== verification/ImapParserCalls.v ===== *)
(** * The parser of IMAP commands: sequences of calls

    What a client of imap-parser.c can rely on: a command that arrives in
    pieces is parsed as one that arrives at once, and no order of calls that
    the interface allows fails an assertion or leaves a buffer. *)

From S2P Require Import Prelude Strescape ImapArg ImapParser ImapParserProps ImapParserStream.

(** ** Data in pieces *)

(** The caller's loop: as long as the parser wants more data, the next piece is
    read and the call repeated.  What arrives behind the command stays in the
    stream. *)
Fixpoint read_pieces (count : nat) (fl : Z) (p : imap_parser) (pieces : list (list Z)) : option call_result :=
  match pieces with
  | [] => imap_parser_read_args p count fl
  | more :: rest =>
      '(p, ret, args) ← imap_parser_read_args p count fl;
      if ret =? -2 then read_pieces count fl (feed more p) rest
      else Some (feed (concat pieces) p, ret, args)
  end.

Definition no_crcr (s : list Z) : Prop := forall i, s !! i = Some 13 -> s !! S i <> Some 13.

Lemma no_crcr_drop s k : no_crcr s -> no_crcr (drop k s).
Proof. intros H i. rewrite !lookup_drop, Nat.add_succ_r. apply H. Qed.

Lemma no_crcr_split p more : no_crcr (input p ++ more) -> cr_split more p.
Proof.
  intros H Hl Hh. rewrite last_lookup in Hl. destruct more as [|c more]; [done |]. injection Hh as ->.
  destruct (input p) as [|x s] eqn:Hs; [done |]. cbn [length pred] in Hl. apply (H (length s)).
  - by rewrite lookup_app_l by (cbn; lia).
  - rewrite lookup_app_r by (cbn; lia). by rewrite Nat.sub_diag.
Qed.

Lemma no_crcr_app_drop s more k : no_crcr (s ++ more) -> no_crcr (drop k s ++ more).
Proof.
  intros H. destruct (decide (k <= length s)%nat) as [Hk|Hk].
  - rewrite <- drop_app_le by done. by apply no_crcr_drop.
  - rewrite (drop_ge s) by lia. cbn. rewrite <- (drop_app_length s more). by apply no_crcr_drop.
Qed.

Lemma feed_feed m1 m2 p : feed m2 (feed m1 p) = feed (m1 ++ m2) p.
Proof. unfold feed. cbn. by rewrite app_assoc. Qed.

(** C1: a command that arrives in pieces is parsed as if it had arrived at
    once, whatever the division: every call returns, and the return value, the
    arguments and the parser that is left, with its output, are the same; only
    after an error the place where reading stopped may differ.  This holds for
    a parser in any state without an error that calls leave behind, for every
    number of arguments and all flags but IMAP_PARSE_FLAG_STOP_AT_LIST, and for
    data without NUL and without two CRs in a row.  With that flag a call stops
    at a list that is opened, and how often it stops depends on the pieces
    (imap_parser_pieces_stop_at_list); for CRs see imap_parser_pieces_crcr. *)
Theorem imap_parser_pieces p count fl pieces :
  parser_ok p -> Z.land fl IMAP_PARSE_FLAG_STOP_AT_LIST = 0 -> no_nul (concat pieces) -> no_crcr (input p ++ concat pieces) ->
  exists r1 r2, read_pieces count fl p pieces = Some r1 /\ imap_parser_read_args (feed (concat pieces) p) count fl = Some r2 /\ same_result r1 r2.
Proof.
  revert p. induction pieces as [|more rest IH]; intros p Hp Hfl Hn Hcr.
  - cbn [concat]. rewrite feed_nil. destruct (read_args_runs p count fl Hp) as (? & p1 & _ & _ & _ & _ & _ & _ & _ & _ & _ & Hr).
    cbn [read_pieces]. rewrite Hr. eexists _, _. split; [done |]. split; [done |]. apply same_result_refl.
  - destruct (read_args_runs p count fl Hp) as (? & p1 & _ & _ & _ & _ & _ & _ & _ & _ & _ & Hr).
    destruct (conclude count p1) as [[p' ret] args]. cbn [read_pieces]. rewrite Hr. cbn [mbind option_bind].
    destruct (read_args_more p count fl (concat (more :: rest)) p' ret args Hp Hfl Hn (no_crcr_split _ _ Hcr) Hr) as (r1 & r2 & H2 & Hsame & Hcase).
    destruct (ret =? -2); [| by subst r1; eauto]. destruct Hcase as (Hp' & [k Hk] & H1).
    cbn [concat] in *. apply Forall_app in Hn. destruct Hn as [Hm Hn]. rewrite <- feed_feed in H1.
    destruct (IH (feed more p')) as (r3 & r4 & H3 & H4 & Hs); [by apply parser_ok_feed | done | done | |].
    + cbn [feed set_input input]. rewrite Hk, <- app_assoc. by apply no_crcr_app_drop.
    + rewrite H1 in H4. injection H4 as <-. exists r3, r2. split; [done |]. split; [done |]. by apply (same_result_trans _ r1).
Qed.

Lemma imap_parser_pieces_witness :
  let p := imap_parser_create (str "(a " ++ [34; 98]) (Some []) 100 in
  let pieces := [[92]; [34; 99; 34; 41; 32] ++ str "{3"; str "}" ++ [13]; [10] ++ str "x"; str "yz" ++ [13]; [10]] in
  exists r1 r2, read_pieces 0 0 p pieces = Some r1 /\ imap_parser_read_args (feed (concat pieces) p) 0 0 = Some r2 /\ same_result r1 r2.
Proof.
  apply (imap_parser_pieces (imap_parser_create (str "(a " ++ [34; 98]) (Some []) 100) 0 0
    [[92]; [34; 99; 34; 41; 32] ++ str "{3"; str "}" ++ [13]; [10] ++ str "x"; str "yz" ++ [13]; [10]]).
  - split; [done |]. split; [split; try done; repeat constructor; done | done].
  - done.
  - repeat constructor; done.
  - intros i Hi. do 30 (destruct i as [|i]; [done |]). done.
Defined.

(** Two CRs in a row behind the size of a literal are an error when they arrive
    together, and are accepted when the second one arrives later. *)
Lemma imap_parser_pieces_crcr :
  let p := imap_parser_create (str "{1}" ++ [13]) None 100 in
  let pieces := [[13; 10] ++ str "x" ++ [13; 10]] in
  (exists p', read_pieces 0 0 p pieces = Some (p', 1, Some [IMAP_ARG_STRING (str "x") false; IMAP_ARG_EOL])) /\
  (exists p', imap_parser_read_args (feed (concat pieces) p) 0 0 = Some (p', -1, None) /\ error p' = Some (str "Missing LF after literal size")).
Proof. split; eexists; [| split]; vm_compute; reflexivity. Qed.

(** With IMAP_PARSE_FLAG_STOP_AT_LIST, two arguments that arrive in two pieces
    are returned; when they arrive at once, the call stops at the list and asks
    for more data. *)
Lemma imap_parser_pieces_stop_at_list :
  let p := imap_parser_create (str "(a") None 100 in
  let pieces := [str " b) c" ++ [13; 10]] in
  (exists p' args, read_pieces 2 IMAP_PARSE_FLAG_STOP_AT_LIST p pieces = Some (p', 2, Some args)) /\
  (exists p', imap_parser_read_args (feed (concat pieces) p) 2 IMAP_PARSE_FLAG_STOP_AT_LIST = Some (p', -2, None)).
Proof. split; eexists; [eexists |]; vm_compute; reflexivity. Qed.

(** ** Orders of calls *)

(** The stream reads more data, after what it still had to skip. *)
Definition receive (more : list Z) (p : imap_parser) : imap_parser :=
  set_skip_left (skip_left p - length more) (set_input (input p ++ drop (skip_left p) more) p).

(** The parsers that a client can get from the operations in any order, with
    any flags, as long as it keeps these rules: a parser that had an error, or
    whose line was finished with [imap_parser_finish_line], is reset before it is
    used again; a literal is only read when its size was returned; words are
    read, and streams exchanged, between arguments. *)
Inductive reachable : imap_parser -> Prop :=
  | reachable_create data out max : no_nul data -> reachable (imap_parser_create data out max)
  | reachable_receive p more : reachable p -> no_nul more -> reachable (receive more p)
  | reachable_reset p : reachable p -> reachable (imap_parser_reset p)
  | reachable_streams p data out : reachable p -> error p = None -> cur_type p = ARG_PARSE_NONE -> cur_pos p = 0%nat -> no_nul data ->
      reachable (imap_parser_set_streams p data out)
  | reachable_read_args p count fl p' ret args : reachable p -> error p = None ->
      imap_parser_read_args p count fl = Some (p', ret, args) -> reachable p'
  | reachable_read_last_literal p p' : reachable p -> error p = None -> literal_size_return p = true ->
      imap_parser_read_last_literal p = Some p' -> reachable p'
  | reachable_finish_line p count fl p' ret args : reachable p -> error p = None ->
      imap_parser_finish_line p count fl = Some (p', ret, args) -> reachable (imap_parser_reset p')
  | reachable_read_word p p' word : reachable p -> error p = None -> cur_type p = ARG_PARSE_NONE -> cur_pos p = 0%nat ->
      imap_parser_read_word p = (p', word) -> reachable p'.

Definition state_ok (p : imap_parser) : Prop := no_nul (input p) /\ (error p = None -> parser_ok p).

Lemma parser_ok_nul p : parser_ok p -> no_nul (input p).
Proof.
  intros [_ Hp]. destruct (args_added_extra_eol p).
  - destruct Hp as (q & -> & Hq & _). destruct (root_append_frame IMAP_ARG_EOL q) as (_ & _ & -> & _). by apply inv_nul.
  - destruct Hp. by apply inv_nul.
Qed.

Lemma no_nul_drop n s : no_nul s -> no_nul (drop n s).
Proof. apply Forall_drop. Qed.

Lemma skip_counted_input n p : input (skip_counted n p) = drop n (input p).
Proof.
  unfold skip_counted, i_stream_skip. cbn [set_line_size input]. destruct (n <=? _)%nat eqn:Hn; [done |].
  apply Nat.leb_gt in Hn. cbn. by rewrite drop_ge by lia.
Qed.

Lemma finish_line_input p : input (finish_line p).1.1 = drop (cur_pos p) (input p).
Proof.
  unfold finish_line. destruct (_ && _ && _); cbn [fst fail set_error set_args_added_extra_eol input].
  - apply skip_counted_input.
  - unfold root_append. destruct (list_is_open _); apply skip_counted_input.
Qed.

Lemma conclude_input count p : exists k, input (conclude count p).1.1 = drop k (input p).
Proof.
  unfold conclude. destruct (error p); [| destruct (_ || _ || _)].
  - eexists. apply skip_counted_input.
  - eexists. apply finish_line_input.
  - by exists 0%nat.
Qed.

Lemma read_args_ok p count fl :
  parser_ok p -> exists p' ret args, imap_parser_read_args p count fl = Some (p', ret, args) /\ state_ok p'.
Proof.
  intros Hp. destruct (read_args_runs p count fl Hp) as (p0 & p1 & _ & _ & _ & Hadv & Hinv & Hadd & _ & Hin & _ & Hr).
  pose proof (conclude_spec count p1 Hinv) as Hc. destruct (conclude_input count p1) as [k Hk].
  destruct (conclude count p1) as [[p' ret] args]. exists p', ret, args. split; [done |]. cbn [fst] in Hk.
  destruct (adv_input _ _ Hadv) as (k' & _ & Hk'). split; [| by apply (concluded_ok count p1 p' ret args)].
  rewrite Hk, Hk', Hin. by apply no_nul_drop, no_nul_drop, parser_ok_nul.
Qed.

Lemma finish_line_ok p count fl :
  parser_ok p -> exists p' ret args, imap_parser_finish_line p count fl = Some (p', ret, args) /\ no_nul (input p').
Proof.
  intros Hp. destruct (read_args_ok p count fl Hp) as (p1 & ret & args & Hr & Hn & _). unfold imap_parser_finish_line. rewrite Hr. cbn [mbind option_bind].
  destruct (ret =? -1); [eauto |].
  assert (Hsave : exists p2, (if (ret =? -2) && bool_decide (cur_type p1 = ARG_PARSE_ATOM) then imap_parser_save_arg p1 (input p1) else Some p1) = Some p2 /\ input p2 = input p1).
  { destruct (_ && _) eqn:Hb; [| eauto]. apply andb_true_iff in Hb. destruct Hb as [_ Ht%bool_decide_eq_true].
    unfold imap_parser_save_arg, arg_of_data. rewrite Ht. cbn [mbind option_bind]. eauto. }
  destruct Hsave as (p2 & -> & Hin). cbn [mbind option_bind]. pose proof (finish_line_input p2) as Hf.
  destruct (finish_line p2) as [[p3 ret3] args3]. exists p3, ret3, args3. split; [done |]. cbn [fst] in Hf. rewrite Hf, Hin. by apply no_nul_drop.
Qed.

(** The size of a literal at the end of the innermost open list. *)
Lemma last_literal_size_list l a : last_literal_size (IMAP_ARG_LIST (l ++ [a])) = ('(d, n) ← last_literal_size a; Some (S d, n)).
Proof. induction l as [|b l IH]; [done |]. destruct l; done. Qed.

Lemma last_literal_size_open ps l a d n :
  last_literal_size a = Some (d, n) ->
  exists l' a', fold_left (fun inner before => before ++ [IMAP_ARG_LIST inner]) ps (l ++ [a]) = l' ++ [a'] /\
    last_literal_size a' = Some ((length ps + d)%nat, n).
Proof.
  revert l a d. induction ps as [|before ps IH]; intros l a d Ha; [by exists l, a |]. cbn [fold_left length].
  destruct (IH before (IMAP_ARG_LIST (l ++ [a])) (S d)) as (l' & a' & H & Ha'); [by rewrite last_literal_size_list, Ha |].
  exists l', a'. split; [done |]. by rewrite Ha', Nat.add_succ_r.
Qed.

Lemma last_literal_size_here a n : imap_arg_get_literal_size a = Some n -> last_literal_size a = Some (0%nat, n).
Proof. destruct a; cbn; congruence. Qed.

Lemma read_last_literal_ok p :
  parser_ok p -> literal_size_return p = true ->
  imap_parser_get_last_literal_size p = Some (Some (length (parents p), literal_size p)) /\
  exists p', imap_parser_read_last_literal p = Some p' /\ parser_ok p'.
Proof.
  intros [He Hp] Hret. destruct (args_added_extra_eol p) eqn:Hadd; [| by destruct Hp; congruence].
  destruct Hp as (q & -> & Hq & Ht & Hpos & Htext). destruct (root_append_frame IMAP_ARG_EOL q) as (Fe & _ & _ & _ & _ & Fr). rewrite Fr in Hret.
  destruct (inv_return q Hq Hret) as (_ & Heol & l & a & Hl & Ha).
  assert (Hroot : root_list (root_append IMAP_ARG_EOL q) = root_list q ++ [IMAP_ARG_EOL]).
  { destruct (root_append_list IMAP_ARG_EOL q) as [? | [Hafter _]]; [done |]. by destruct Hafter; apply inv_after. }
  assert (Hsame : literal_size (root_append IMAP_ARG_EOL q) = literal_size q /\ parents (root_append IMAP_ARG_EOL q) = parents q /\
                  cur_resp_text (root_append IMAP_ARG_EOL q) = cur_resp_text q)
    by (unfold root_append; by destruct (list_is_open q)).
  destruct Hsame as (Hs & Hps & _).
  destruct (last_literal_size_open (parents q) l a 0 (literal_size q) (last_literal_size_here a _ Ha)) as (l' & a' & Hfold & Ha').
  rewrite Nat.add_0_r in Ha'.
  assert (Hq' : root_list q = l' ++ [a']) by (unfold root_list; by rewrite Hl, Hfold, (inv_after q Hq), app_nil_r).
  assert (Hget : imap_parser_get_last_literal_size (root_append IMAP_ARG_EOL q) = Some (Some (length (parents q), literal_size q))).
  { unfold imap_parser_get_last_literal_size. rewrite Hroot, last_snoc, removelast_snoc, Hq', last_snoc, !length_app. cbn [length].
    rewrite (proj2 (Nat.ltb_lt _ _)) by lia. cbn. by rewrite Ha'. }
  rewrite Hs, Hps. split; [done |]. unfold imap_parser_read_last_literal. rewrite Hget, Fr, Hret. cbn [assert mbind option_bind].
  cbn [set_cur_type literal_size]. rewrite Hs, Z.eqb_refl. cbn [assert mbind option_bind].
  replace (root_delete_last (set_cur_type ARG_PARSE_LITERAL_DATA_FORCED (root_append IMAP_ARG_EOL q))) with (Some (set_cur_type ARG_PARSE_LITERAL_DATA_FORCED q)).
  2: { rewrite <- (root_delete_append IMAP_ARG_EOL (set_cur_type ARG_PARSE_LITERAL_DATA_FORCED q)). f_equal. unfold root_append.
       change (list_is_open (set_cur_type ARG_PARSE_LITERAL_DATA_FORCED q)) with (list_is_open q). by destruct (list_is_open q). }
  cbn [mbind option_bind set_args_added_extra_eol set_cur_type parents]. rewrite Nat.eqb_refl. cbn [assert mbind option_bind].
  eexists. split; [done |]. split; [by rewrite Fe in He |]. cbn. split; [| done]. destruct Hq. split; cbn; try done.
  - by rewrite Htext.
  - by rewrite Heol.
Qed.

(** A parser that differs in the data it has, when no argument was begun. *)
Lemma parser_ok_input p p' s :
  parser_ok p -> cur_type p = ARG_PARSE_NONE -> cur_pos p = 0%nat -> no_nul s ->
  p' = set_input s (set_line_size (line_size p') (set_output (output p') (set_skip_left (skip_left p') p))) -> parser_ok p'.
Proof.
  intros [He Hp] Ht Hpos Hs ->. unfold parser_ok. cbn [set_input set_line_size set_output set_skip_left args_added_extra_eol error].
  split; [done |]. destruct (args_added_extra_eol p).
  - destruct Hp as (q & -> & Hq & Htq & Hposq & Htext).
    exists (set_input s (set_line_size (line_size p') (set_output (output p') (set_skip_left (skip_left p') q)))).
    split; [unfold root_append; by destruct (parents q) eqn:Hps; unfold list_is_open; cbn; rewrite Hps |]. split; [| done].
    destruct Hq. split; cbn; try done; [by rewrite Hposq; lia | unfold type_ok; cbn; by rewrite Htq].
  - destruct Hp as [Hq Hret]. split; [| done]. destruct Hq. split; cbn; try done; [by rewrite Hpos; lia | unfold type_ok; cbn; by rewrite Ht].
Qed.

Lemma reset_ok p : no_nul (input p) -> state_ok (imap_parser_reset p).
Proof. intros Hn. split; [done |]. intros _. split; [done |]. split; [| done]. split; cbn; try done; lia. Qed.

Lemma receive_ok more p : no_nul more -> state_ok p -> state_ok (receive more p).
Proof.
  intros Hm [Hn Hp]. split; [by apply Forall_app; split; [| apply no_nul_drop] |]. intros He. specialize (Hp He).
  pose proof (parser_ok_feed (drop (skip_left p) more) p (no_nul_drop _ _ Hm) Hp) as H. clear Hp.
  set (n := (skip_left p - length more)%nat). change (receive more p) with (set_skip_left n (feed (drop (skip_left p) more) p)).
  set (q := feed _ p) in *. clearbody n q. destruct H as [He' H]. split; [done |]. cbn [set_skip_left args_added_extra_eol].
  destruct (args_added_extra_eol q).
  - destruct H as (q' & -> & Hq' & H'). exists (set_skip_left n q'). split; [| split; [by destruct Hq' | done]].
    unfold root_append. change (list_is_open (set_skip_left n q')) with (list_is_open q'). by destruct (list_is_open q').
  - destruct H as [Hq Hret]. split; [by destruct Hq | done].
Qed.

Lemma parser_reachable_ok p : reachable p -> state_ok p.
Proof.
  induction 1 as [data out max Hn | p more _ IH Hm | p _ IH | p data out _ IH He Ht Hpos Hn | p count fl p' ret args _ IH He Hr | p p' _ IH He Hret Hr
    | p count fl p' ret args _ IH He Hr | p p' word _ IH He Ht Hpos Hr].
  - split; [done |]. intros _. split; [done |]. split; [| done]. split; cbn; try done; lia.
  - by apply receive_ok.
  - apply reset_ok, IH.
  - destruct IH as [_ Hp]. split; [done |]. intros _. by apply (parser_ok_input p _ data (Hp He)).
  - destruct IH as [_ Hp]. destruct (read_args_ok p count fl (Hp He)) as (q & r & a & Hr' & Hq). rewrite Hr in Hr'. by injection Hr' as <- _ _.
  - destruct IH as [_ Hp]. destruct (read_last_literal_ok p (Hp He) Hret) as (_ & q & Hr' & Hq). rewrite Hr in Hr'. injection Hr' as <-.
    split; [by apply parser_ok_nul | done].
  - destruct IH as [_ Hp]. destruct (finish_line_ok p count fl (Hp He)) as (q & r & a & Hr' & Hq). rewrite Hr in Hr'. injection Hr' as <- _ _. by apply reset_ok.
  - destruct IH as [Hn Hp]. unfold imap_parser_read_word in Hr. destruct (word_end (input p)) as [i|]; injection Hr as <- _; [| done].
    split; [rewrite skip_counted_input; by apply no_nul_drop |]. intros _.
    apply (parser_ok_input p _ (drop (if at0 (input p) i =? 32 then S i else i) (input p)) (Hp He)); [done | done | by apply no_nul_drop |].
    unfold skip_counted, i_stream_skip. cbn [set_line_size input].
    destruct (_ <=? _)%nat eqn:Hle; [by destruct p |]. apply Nat.leb_gt in Hle. rewrite (drop_ge (input p)) by lia. by destruct p.
Qed.

(** C4: No client that keeps the rules of [reachable] brings the parser to a
    failed assertion, an access outside of a buffer or an endless loop: as long
    as there was no error, reading arguments returns for every count and every
    set of flags, so does finishing the line, and when the size of a literal was
    returned, it is found in the arguments and the literal can be read. *)
Theorem imap_parser_safe p :
  reachable p -> error p = None ->
  (forall count fl, is_Some (imap_parser_read_args p count fl) /\ is_Some (imap_parser_finish_line p count fl)) /\
  (literal_size_return p = true -> imap_parser_get_literal_size p = Some (Some (literal_size p)) /\ is_Some (imap_parser_read_last_literal p)).
Proof.
  intros Hr He. destruct (parser_reachable_ok p Hr) as [_ Hp]. specialize (Hp He). split.
  - intros count fl. destruct (read_args_ok p count fl Hp) as (? & ? & ? & -> & _). destruct (finish_line_ok p count fl Hp) as (? & ? & ? & -> & _). eauto.
  - intros Hret. destruct (read_last_literal_ok p Hp Hret) as (Hget & ? & -> & _). unfold imap_parser_get_literal_size. rewrite Hget. eauto.
Qed.

Lemma imap_parser_safe_witness :
  let p := imap_parser_create (str "a ((b {5}" ++ [13]) None 100 in
  exists p1 p2, imap_parser_read_args p 0 IMAP_PARSE_FLAG_LITERAL_SIZE = Some (p1, -2, None) /\
    imap_parser_read_args (receive [10; 120] p1) 0 IMAP_PARSE_FLAG_LITERAL_SIZE =
      Some (p2, 2, Some [IMAP_ARG_ATOM (str "a"); IMAP_ARG_LIST [IMAP_ARG_LIST [IMAP_ARG_ATOM (str "b"); IMAP_ARG_LITERAL_SIZE 5 false]]; IMAP_ARG_EOL]) /\
    (forall count fl, is_Some (imap_parser_read_args p2 count fl) /\ is_Some (imap_parser_finish_line p2 count fl)) /\
    (literal_size_return p2 = true -> imap_parser_get_literal_size p2 = Some (Some (literal_size p2)) /\ is_Some (imap_parser_read_last_literal p2)).
Proof.
  eexists _, _. split; [vm_compute; reflexivity |]. split; [vm_compute; reflexivity |]. apply imap_parser_safe; [| reflexivity].
  eapply (reachable_read_args (receive [10; 120] _) 0 IMAP_PARSE_FLAG_LITERAL_SIZE).
  - apply reachable_receive; [| repeat constructor; done].
    eapply (reachable_read_args (imap_parser_create (str "a ((b {5}" ++ [13]) None 100) 0 IMAP_PARSE_FLAG_LITERAL_SIZE); [| reflexivity | vm_compute; reflexivity].
    apply reachable_create. repeat constructor; done.
  - reflexivity.
  - vm_compute. reflexivity.
Defined.

(** C24: What a call returns.  Either there is an error and no arguments; or more data
    is needed, and the command is neither at its end nor at a literal whose size
    was asked for; or the arguments are returned with an end marker behind them, the return
    value is their number without the marker, and the line has ended, the
    size of a literal is returned, or there are at least as many arguments as were
    asked for.  The parser is one that was created and called before, without an
    error. *)
Theorem imap_parser_read_args_result p count fl :
  reachable p -> error p = None ->
  exists p' ret args, imap_parser_read_args p count fl = Some (p', ret, args) /\
    ((ret = -1 /\ args = None /\ error p' <> None) \/
     (ret = -2 /\ args = None /\ error p' = None /\ eol p' = false /\ literal_size_return p' = false) \/
     (exists l, args = Some (l ++ [IMAP_ARG_EOL]) /\ ret = Z.of_nat (length l) /\ error p' = None /\
        (eol p' = true \/ literal_size_return p' = true \/ (0 < count <= length l)%nat))).
Proof.
  intros Hreach He. destruct (parser_reachable_ok p Hreach) as [_ Hp].
  destruct (read_args_runs p count fl (Hp He)) as (p0 & p1 & _ & _ & _ & _ & Hinv & _ & _ & _ & _ & Hr). rewrite Hr.
  pose proof (conclude_spec count p1 Hinv) as Hc. destruct (conclude count p1) as [[p' ret] args]. exists p', ret, args. split; [done |].
  destruct Hc as [(-> & ? & ->) | [(-> & -> & ? & ? & Hw & ->) | (-> & -> & Herr & _ & -> & Hwhy)]]; [by left | right; left | right; right].
  - splits; try done. by apply (wants_eol count).
  - exists (root_list p1). split; [done |]. split; [done |].
    destruct (root_append_frame IMAP_ARG_EOL (line_end p1)) as (Fe & _ & _ & _ & _ & Fr). cbn [set_args_added_extra_eol error literal_size_return eol]. rewrite Fe, Fr.
    replace (eol (root_append IMAP_ARG_EOL (line_end p1))) with (eol p1) by (unfold root_append; by destruct (list_is_open (line_end p1))). done.
Qed.

Lemma imap_parser_read_args_result_witness :
  let p := imap_parser_create (str "a b" ++ [13; 10]) None 100 in
  exists p' ret args, imap_parser_read_args p 1 0 = Some (p', ret, args) /\
    ((ret = -1 /\ args = None /\ error p' <> None) \/
     (ret = -2 /\ args = None /\ error p' = None /\ eol p' = false /\ literal_size_return p' = false) \/
     (exists l, args = Some (l ++ [IMAP_ARG_EOL]) /\ ret = Z.of_nat (length l) /\ error p' = None /\
        (eol p' = true \/ literal_size_return p' = true \/ (0 < 1 <= length l)%nat))).
Proof.
  apply (imap_parser_read_args_result (imap_parser_create (str "a b" ++ [13; 10]) None 100) 1 0); [| reflexivity].
  apply reachable_create. repeat constructor; done.
Defined.
