(* ===== verification/ImapParserText.v ===== *)
(** * The parser of IMAP commands: what it reads

    The arguments that the parser of ImapParser.v makes of a text, token by
    token: atoms, quoted strings, literals and lists.  [reads t a] says
    that the text [t], wherever an argument may begin and whatever
    follows it, is read as the argument [a]. *)

From S2P Require Import Prelude Strnum Strescape ImapArg ImapQuote ImapParser ImapParserProps ImapParserStream.

(** The flags with which arguments are read as they are written. *)
Definition plain_flags (fl : Z) : Prop :=
  Z.land fl (Z.lor IMAP_PARSE_FLAG_LITERAL_SIZE (Z.lor IMAP_PARSE_FLAG_NO_UNESCAPE
    (Z.lor IMAP_PARSE_FLAG_INSIDE_LIST (Z.lor IMAP_PARSE_FLAG_SERVER_TEXT IMAP_PARSE_FLAG_STOP_AT_LIST)))) = 0.

Lemma land_sub fl m f : Z.land fl m = 0 -> Z.land m f = f -> Z.land fl f = 0.
Proof. intros H Hf. by rewrite <- Hf, Z.land_assoc, H. Qed.

Section Text.
Variable fl : Z.
Hypothesis fl_plain : plain_flags fl.
Implicit Types p q : imap_parser.

(** Between two arguments, with [rest] still to be read. *)
Record at_text (ps : list (list imap_arg)) (cur : list imap_arg) (rest : list Z) (p : imap_parser) : Prop := {
  at_reading : reading p;
  at_eol : eol p = false;
  at_type : cur_type p = ARG_PARSE_NONE;
  at_resp : cur_resp_text p = false;
  at_flags : flags p = fl;
  at_parents : parents p = ps;
  at_list : cur_list p = cur;
  at_rest : drop (cur_pos p) (input p) = rest;
  at_line : 0 <= line_size p;
  at_size : line_size p + Z.of_nat (length (input p)) <= max_line_size p;
  at_max : max_line_size p < 2 ^ 64;
}.

(** What is left to do with [p'] is what is left to do with [p]. *)
Definition leads p p' : Prop := forall q, runs 0 p' q -> runs 0 p q.

Lemma leads_trans p1 p2 p3 : leads p1 p2 -> leads p2 p3 -> leads p1 p3.
Proof. unfold leads. auto. Qed.

Lemma flag_off p f :
  flags p = fl -> Z.land (Z.lor IMAP_PARSE_FLAG_LITERAL_SIZE (Z.lor IMAP_PARSE_FLAG_NO_UNESCAPE
    (Z.lor IMAP_PARSE_FLAG_INSIDE_LIST (Z.lor IMAP_PARSE_FLAG_SERVER_TEXT IMAP_PARSE_FLAG_STOP_AT_LIST)))) f = f -> has_flag p f = false.
Proof. intros Hf Hs. unfold has_flag. by rewrite Hf, (land_sub fl _ f fl_plain Hs). Qed.

Lemma read_arg_begun p r : reading p -> eol p = false -> cur_type p = ARG_PARSE_NONE -> input p <> [] -> begins p r -> imap_parser_read_arg p = after_begin r.
Proof. intros Hp He Ht Hne Hb. apply (read_arg_begins [] ltac:(constructor)); try done. by destruct (input p); [| cbn; lia]. Qed.

Lemma wants_0 p : eol p = false -> wants_more 0 p = true.
Proof. intros H. unfold wants_more. by rewrite H. Qed.

Lemma leads_begin p p' :
  reading p -> eol p = false -> cur_type p = ARG_PARSE_NONE -> input p <> [] ->
  reading p' -> eol p' = false -> cur_type p' = ARG_PARSE_NONE -> input p' <> [] ->
  (forall r, begins p' r -> begins p r) -> leads p p'.
Proof.
  intros Hp He Ht Hne Hp' He' Ht' Hne' Hb q [[|n] Hn]; [done |]. exists (S n). cbn [read_args_loop] in *.
  fold (wants_more 0 p') in Hn. fold (wants_more 0 p). rewrite wants_0 in * by done.
  destruct (begin_result [] ltac:(constructor) p' Hp' He' Ht') as (x & ret & _ & Hx & _ & _).
  rewrite (read_arg_begun p' _ Hp' He' Ht' Hne' Hx) in Hn. by rewrite (read_arg_begun p _ Hp He Ht Hne (Hb _ Hx)).
Qed.

Lemma leads_arg p p' :
  eol p = false -> imap_parser_read_arg p = Some (p', true) -> line_size p' <= max_line_size p' -> leads p p'.
Proof. intros He Hr Hl q. apply runs_arg; [by apply wants_0 | done |]. rewrite Z.gtb_ltb. by apply Z.ltb_ge. Qed.

Lemma at_nonempty ps cur c rest p : at_text ps cur (c :: rest) p -> input p <> [].
Proof. intros H Hn. pose proof (at_rest _ _ _ _ H) as Hr. by rewrite Hn, drop_nil in Hr. Qed.

(** ** Spaces *)

Lemma at_space ps cur rest p : at_text ps cur (32 :: rest) p -> exists p', at_text ps cur rest p' /\ leads p p'.
Proof.
  intros H. pose proof (at_nonempty _ _ _ _ _ H) as Hne. destruct H as [Hr He Ht Htext Hf Hps Hc Hrest Hl Hs Hm].
  destruct (drop_cons (input p) (cur_pos p) 32 rest (eq_sym Hrest)) as [Hpos Hrest']. exists (set_cur_pos (S (cur_pos p)) p).
  assert (Hr' : reading (set_cur_pos (S (cur_pos p)) p)).
  { destruct Hr as [Hi ? ?]. split; [| done | done]. destruct Hi. split; cbn; try done. unfold type_ok. cbn. by rewrite Ht. }
  split; [by split |]. apply leads_begin; try done. intros r [n Hn].
  apply begins_intro; [apply Hr | done |]. exists n. intros m Hm'. specialize (Hn (S m) ltac:(lia)).
  rewrite begin_round in Hn; [| apply Hr' | done].
  unfold round in *. replace (skipped p) with (skipped (set_cur_pos (S (cur_pos p)) p)); [exact Hn |]. unfold skipped. cbn [set_cur_pos cur_pos input].
  rewrite Hrest, <- Hrest'. cbn [count_spaces Z.eqb Pos.eqb]. by rewrite Nat.add_succ_r.
Qed.

(** ** Tokens *)

(** What is read before a token is skipped. *)
Lemma at_token ps cur c rest p :
  c <> 32 -> at_text ps cur (c :: rest) p ->
  at_text ps cur (c :: rest) (skipped p) /\ cur_pos (skipped p) = 0%nat /\ input (skipped p) = c :: rest /\
  line_size p <= line_size (skipped p) /\
  (forall rec, round p rec = '(q, ret) ← start_arg (skipped p); match ret with Some b => Some (q, Some b) | None => rec (set_cur_pos (S (cur_pos q)) q) end).
Proof.
  intros Hc H. destruct H as [Hr He Ht Htext Hf Hps Hcur Hrest Hl Hs Hm].
  assert (Hin : input (skipped p) = c :: rest).
  { unfold skipped. cbn [set_cur_pos counted set_input input]. rewrite Hrest. cbn [count_spaces]. rewrite (proj2 (Z.eqb_neq _ _)) by done. by rewrite Nat.add_0_r. }
  pose proof (inv_pos p (reading_inv p Hr)) as Hpos.
  assert (Hls : line_size (skipped p) = line_size p + Z.of_nat (cur_pos p)).
  { unfold skipped. cbn [set_cur_pos counted set_line_size line_size set_input]. rewrite Hrest. cbn [count_spaces]. rewrite (proj2 (Z.eqb_neq _ _)) by done. by rewrite Nat.add_0_r. }
  assert (Hlen : (length (input (skipped p)) = length (input p) - cur_pos p)%nat) by (rewrite Hin, <- Hrest, length_drop; done).
  split; [split; try done; [split; [apply inv_skipped; [apply Hr | done] | apply Hr | apply Hr] | rewrite Hls; lia | rewrite Hls, Hlen; cbn; lia] |].
  split; [done |]. split; [done |]. split; [lia |]. intros rec. unfold round. rewrite Hin. cbn [length Nat.ltb Nat.leb negb].
  unfold next_text. by rewrite Htext.
Qed.

(** The state when a token has made an argument of the bytes up to [j]. *)
Record kept (q s : imap_parser) : Prop := {
  kept_flags : flags s = flags q;
  kept_parents : parents s = parents q;
  kept_list : cur_list s = cur_list q;
  kept_eol : eol s = eol q;
  kept_resp : cur_resp_text s = cur_resp_text q;
  kept_max : max_line_size s = max_line_size q;
  kept_size : line_size s + Z.of_nat (length (input s)) = line_size q + Z.of_nat (length (input q));
  kept_line : line_size q <= line_size s;
}.

Lemma at_leaf ps cur c rest p s s' a j :
  c <> 32 -> at_text ps cur (c :: rest) p -> start_arg (skipped p) = Some (s, None) -> cur_type s <> ARG_PARSE_NONE ->
  continue_arg (set_cur_pos (S (cur_pos s)) s) = Some (saved a j s', true) -> kept (skipped p) s' ->
  exists p', at_text ps (cur ++ [a]) (drop j (input s')) p' /\ leads p p'.
Proof.
  intros Hc H Hs Ht Hr Hk. pose proof (at_nonempty _ _ _ _ _ H) as Hne.
  destruct (at_token ps cur c rest p Hc H) as (Hq & Hpos & Hin & Hline & Hround). exists (saved a j s').
  assert (Hb : begins p (set_cur_pos (S (cur_pos s)) s, None)).
  { apply begins_intro; [apply (at_reading _ _ _ _ H) | exact (at_type _ _ _ _ H) |]. exists 1%nat. intros [|m] Hm; [lia |]. rewrite Hround, Hs. cbn [mbind option_bind begin_loop].
    unfold type_is_none. by rewrite bool_decide_eq_false_2. }
  assert (Hread : imap_parser_read_arg p = Some (saved a j s', true)).
  { rewrite (read_arg_begun p _ (at_reading _ _ _ _ H) (at_eol _ _ _ _ H) (at_type _ _ _ _ H) Hne Hb). unfold after_begin. cbn [fst snd]. by rewrite Hr. }
  destruct Hk. destruct (read_arg_true [] ltac:(constructor) p _ (at_reading _ _ _ _ H) (at_eol _ _ _ _ H) Hread) as [Hrd _].
  destruct H, Hq. split; [split; cbn; try congruence; lia |]. apply leads_arg; [done | done |]. cbn. lia.
Qed.

Lemma at_started ps cur c rest p : c <> 32 -> at_text ps cur (c :: rest) p -> started [] (skipped p) (start_arg (skipped p)) (start_arg (feed [] (skipped p))).
Proof.
  intros Hc H. destruct (at_token ps cur c rest p Hc H) as (Hq & Hpos & Hin & _). destruct Hq as [[] ]. by apply start_spec; try done; rewrite Hin.
Qed.

(** A token that opens or closes a list inside of a list. *)
Lemma at_begin ps cur c rest p s :
  c <> 32 -> at_text ps cur (c :: rest) p -> start_arg (skipped p) = Some (s, None) -> cur_type s = ARG_PARSE_NONE ->
  reading (set_cur_pos 1 s) /\ leads p (set_cur_pos 1 s).
Proof.
  intros Hc H Hs Ht. pose proof (at_nonempty _ _ _ _ _ H) as Hne. pose proof (at_started ps cur c rest p Hc H) as Hst.
  destruct (at_token ps cur c rest p Hc H) as (_ & _ & Hin & _ & Hround). rewrite Hs in Hst.
  destruct Hst as (s' & ret & [= <- <-] & _ & Hsame & Hi & Hpos & He & Hret & Heol & _). specialize (Hsame ltac:(done)).
  assert (Hr : reading (set_cur_pos 1 s)) by (by split). split; [done |]. 
  apply leads_begin; try done; [exact (at_reading _ _ _ _ H) | exact (at_eol _ _ _ _ H) | exact (at_type _ _ _ _ H) | | ].
  { change (input s <> []). by rewrite Hsame, Hin. }
  intros r [n Hn]. apply begins_intro; [apply (at_reading _ _ _ _ H) | exact (at_type _ _ _ _ H) |]. exists n. intros m Hm.
  rewrite Hround, Hs. cbn [mbind option_bind]. rewrite Hpos. by apply Hn.
Qed.

Ltac list_fields :=
  cbn [set_cur_pos imap_parser_open_list set_cur_type set_cur_list set_parents input cur_pos parents cur_list line_size max_line_size flags eol drop].

Lemma at_open ps cur rest p : at_text ps cur (40 :: rest) p -> exists p', at_text (cur :: ps) [] rest p' /\ leads p p'.
Proof.
  intros H. destruct (at_token ps cur 40 rest p ltac:(done) H) as (Hq & Hpos & Hin & Hline & _).
  set (s := imap_parser_open_list (skipped p)).
  assert (Hs : start_arg (skipped p) = Some (s, None)).
  { unfold start_arg. rewrite Hin. cbn [Z.eqb Pos.eqb]. fold s. by rewrite (flag_off s) by (done || apply Hq). }
  destruct (at_begin ps cur 40 rest p s ltac:(done) H Hs ltac:(done)) as [Hr Hl]. exists (set_cur_pos 1 s). split; [| done].
  subst s. destruct Hq. split; try done; list_fields; rewrite ?Hin; done || congruence.
Qed.

Lemma at_close ps before cur rest p :
  at_text (before :: ps) cur (41 :: rest) p -> exists p', at_text ps (before ++ [IMAP_ARG_LIST (cur ++ [IMAP_ARG_EOL])]) rest p' /\ leads p p'.
Proof.
  intros H. destruct (at_token _ cur 41 rest p ltac:(done) H) as (Hq & Hpos & Hin & Hline & Hround).
  pose proof (at_nonempty _ _ _ _ _ H) as Hne. pose proof (at_started _ cur 41 rest p ltac:(done) H) as Hst.
  pose proof (at_parents _ _ _ _ Hq) as Hps. pose proof (at_list _ _ _ _ Hq) as Hcur.
  pose proof (inv_after _ (reading_inv _ (at_reading _ _ _ _ Hq))) as Hafter.
  set (l := before ++ [IMAP_ARG_LIST (cur ++ [IMAP_ARG_EOL])]).
  set (s := set_cur_type ARG_PARSE_NONE (set_parents ps (set_cur_list l (skipped p)))).
  assert (Hcl : imap_parser_close_list (skipped p) = (s, true)).
  { unfold imap_parser_close_list. rewrite Hps, Hcur. fold l. subst s. destruct ps; [| done]. f_equal. rewrite Hafter, app_nil_r.
    rewrite <- Hafter. by destruct (skipped p). }
  assert (Hs : start_arg (skipped p) = Some (if list_is_open s then (s, None) else (set_cur_pos (S (cur_pos s)) s, Some true))).
  { unfold start_arg. rewrite Hin. cbn [Z.eqb Pos.eqb]. rewrite Hcl. cbn [negb]. by destruct (list_is_open s). }
  exists (set_cur_pos 1 s). destruct (list_is_open s).
  - destruct (at_begin _ cur 41 rest p s ltac:(done) H Hs ltac:(done)) as [Hr Hl]. split; [| done]. subst s. destruct Hq. split; try done; list_fields; rewrite ?Hin; done || congruence.
  - replace (set_cur_pos (S (cur_pos s)) s) with (set_cur_pos 1 s) in Hs by (change (cur_pos s) with (cur_pos (skipped p)); by rewrite Hpos).
    rewrite Hs in Hst. destruct Hst as (s' & ret & [= <- <-] & _ & _ & Hi & _ & _ & He & Hret & _).
    split; [subst s; destruct Hq; split; try done; list_fields; rewrite ?Hin; done || congruence |]. apply leads_arg; [exact (at_eol _ _ _ _ H) | | subst s; destruct Hq; list_fields; lia].
    rewrite (read_arg_begun p (set_cur_pos 1 s, Some true) (at_reading _ _ _ _ H) (at_eol _ _ _ _ H) (at_type _ _ _ _ H) Hne); [done |]. apply begins_intro; [apply (at_reading _ _ _ _ H) | exact (at_type _ _ _ _ H) |].
    exists 0%nat. intros m _. by rewrite Hround, Hs.
Qed.

(** ** The end of the line *)

Lemma at_end cur rest p :
  at_text [] cur (13 :: 10 :: rest) p ->
  exists p1 p', runs 0 p p1 /\ conclude 0 p1 = (p', Z.of_nat (length cur), Some (cur ++ [IMAP_ARG_EOL])) /\ input p' = 13 :: 10 :: rest.
Proof.
  intros H. destruct (at_token [] cur 13 (10 :: rest) p ltac:(done) H) as (Hq & Hpos & Hin & _ & Hround). set (q := set_eol true (skipped p)).
  assert (Hs : start_arg (skipped p) = Some (q, Some false)).
  { unfold start_arg. rewrite Hin. cbn [Z.eqb Pos.eqb negb]. by rewrite (flag_off (skipped p)) by (done || apply Hq). }
  assert (Hr : imap_parser_read_arg p = Some (q, false)).
  { rewrite (read_arg_begun p (q, Some false) (at_reading _ _ _ _ H) (at_eol _ _ _ _ H) (at_type _ _ _ _ H) (at_nonempty _ _ _ _ _ H)); [done |].
    apply begins_intro; [apply (at_reading _ _ _ _ H) | exact (at_type _ _ _ _ H) |]. exists 0%nat. intros m _. by rewrite Hround, Hs. }
  pose proof (at_parents _ _ _ _ Hq) as Hps. pose proof (at_list _ _ _ _ Hq) as Hcur.
  pose proof (inv_after _ (reading_inv _ (at_reading _ _ _ _ Hq))) as Hafter.
  assert (Hroot : root_list q = cur).
  { unfold root_list. change (parents q) with (parents (skipped p)). change (cur_list q) with (cur_list (skipped p)).
    change (root_after q) with (root_after (skipped p)). by rewrite Hps, Hcur, Hafter, app_nil_r. }
  exists q, (set_args_added_extra_eol true (set_cur_list (cur_list (skipped p) ++ [IMAP_ARG_EOL]) (set_cur_resp_text false (set_cur_pos 0 q)))).
  split; [by apply runs_end; [apply wants_0, (at_eol _ _ _ _ H) |] |]. unfold conclude.
  change (error q) with (error (skipped p)). rewrite (reading_error _ (at_reading _ _ _ _ Hq)). change (eol q) with true. rewrite orb_true_r. cbn [orb].
  unfold finish_line. rewrite Hroot. change (cur_pos q) with (cur_pos (skipped p)). rewrite Hpos, skip_counted_ok, counted_0 by lia.
  set (q' := set_cur_resp_text false (set_cur_pos 0 q)).
  assert (Hopen : list_is_open q' = false) by (unfold list_is_open; change (parents q') with (parents (skipped p)); by rewrite Hps).
  rewrite Hopen. cbn [andb]. unfold root_append. rewrite Hopen. split; [| exact Hin]. f_equal. f_equal.
  set (q2 := set_args_added_extra_eol true (set_cur_list (cur_list q' ++ [IMAP_ARG_EOL]) q')).
  unfold root_list. change (parents q2) with (parents (skipped p)). change (cur_list q2) with (cur_list (skipped p) ++ [IMAP_ARG_EOL]).
  change (root_after q2) with (root_after (skipped p)). by rewrite Hps, Hcur, Hafter, app_nil_r.
Qed.

(** A text that leads to the end of the line is what a new parser reads. *)
Lemma read_args_text data out max cur rest :
  no_nul data -> Z.of_nat (length data) <= max < 2 ^ 64 ->
  (forall p, at_text [] [] data p -> exists p', at_text [] cur (13 :: 10 :: rest) p' /\ leads p p') ->
  exists p', imap_parser_read_args (imap_parser_create data out max) 0 fl = Some (p', Z.of_nat (length cur), Some (cur ++ [IMAP_ARG_EOL])) /\
    input p' = 13 :: 10 :: rest.
Proof.
  intros Hn Hmax H. set (p := imap_parser_create data out max).
  assert (Hi : inv p) by (split; cbn; try done; lia). assert (Hp : parser_ok p) by (split; [done | by split]).
  destruct (read_args_runs p 0 fl Hp) as (p0 & p1 & H0 & Hread & Hruns & _ & _ & _ & _ & _ & _ & Hr). injection H0 as <-.
  destruct (H (set_flags fl p)) as (p2 & H2 & Hl); [split; try done; cbn; lia |].
  destruct (at_end cur rest p2 H2) as (p3 & p' & H3 & Hc & Hin). exists p'. split; [| done].
  by rewrite Hr, (runs_det 0 _ _ _ Hruns (Hl _ H3)), Hc.
Qed.

(** ** Atoms *)

(** What may follow an argument. *)
Definition delim (ps : list (list imap_arg)) (rest : list Z) : Prop :=
  exists c rest', rest = c :: rest' /\ (c = 32 \/ c = 13 \/ c = 41 /\ ps <> []).

Definition reads (t : list Z) (a : imap_arg) : Prop :=
  forall ps cur rest p, delim ps rest -> at_text ps cur (t ++ rest) p -> exists p', at_text ps (cur ++ [a]) rest p' /\ leads p p'.

Definition atom_char (c : Z) : bool := negb (IS_ATOM_PARSER_INPUT c) && (Z.land c 0x80 =? 0).

Lemma atom_char_spec c :
  atom_char c = true -> c <> 32 /\ is_linebreak c = false /\ c <> 34 /\ c <> 40 /\ c <> 41 /\ c <> 123 /\ (forall p, is_valid_atom_char p c = (p, true)).
Proof.
  unfold atom_char, is_linebreak, is_valid_atom_char, IS_ATOM_PARSER_INPUT. intros [H1 H2]%andb_true_iff. rewrite H2. apply negb_true_iff in H1.
  assert (Hv : forall p : imap_parser, (if (c =? 40) || (c =? 41) || (c =? 123) || (c =? 34) || (c <=? 32) || (c =? 127) then
    if has_flag p IMAP_PARSE_FLAG_ATOM_ALLCHARS then (p, true) else (fail (str "Invalid characters in atom") p, false) else (p, true)) = (p, true)) by (intros; by rewrite H1).
  splits; try lia. cbn [negb]. exact Hv.
Qed.

Lemma atom_loop_run q s ps rest i :
  forallb atom_char s = true -> parents q = ps -> delim ps rest -> read_atom_loop q (s ++ rest) i = save_stop (i + length s) (i + length s) q.
Proof.
  intros Hs Hps (c & rest' & -> & Hc). revert i. induction s as [|x s IH]; intros i; cbn [app read_atom_loop length].
  - rewrite Nat.add_0_r. destruct Hc as [-> | [-> | [-> Hne]]]; [done | done |]. cbn [Z.eqb Pos.eqb orb is_linebreak].
    unfold list_is_open. rewrite Hps. by destruct ps.
  - cbn [forallb] in Hs. apply andb_true_iff in Hs. destruct Hs as [Hx Hs]. destruct (atom_char_spec x Hx) as (H1 & H2 & _ & _ & H3 & _ & Hv).
    rewrite (proj2 (Z.eqb_neq x 32)), (proj2 (Z.eqb_neq x 41)), H2, Hv by done. cbn [orb negb]. rewrite (IH Hs). f_equal; lia.
Qed.

Lemma save_stop_saved i j p a : arg_of_data p (take i (input p)) = Some a -> save_stop i j p = Some (saved a j p, true).
Proof. intros H. unfold save_stop, imap_parser_save_arg. by rewrite H. Qed.

Lemma reads_atom t : t <> [] -> forallb atom_char t = true -> reads t (save_atom t).
Proof.
  intros Hne Ht ps cur rest p Hd H. destruct t as [|c t]; [done |]. cbn [app] in H. pose proof Ht as Hall. cbn [forallb] in Ht.
  apply andb_true_iff in Ht. destruct Ht as [Hc Ht]. destruct (atom_char_spec c Hc) as (H1 & H2 & H3 & H4 & H5 & H6 & Hv).
  destruct (at_token ps cur c (t ++ rest) p H1 H) as (Hq & Hpos & Hin & _ & _). set (s := set_cur_type ARG_PARSE_ATOM (skipped p)).
  assert (Hs : start_arg (skipped p) = Some (s, None)).
  { unfold start_arg. rewrite Hin. unfold is_linebreak in H2. apply orb_false_iff in H2. destruct H2 as [H21 H22]. rewrite H21, H22.
    rewrite (proj2 (Z.eqb_neq c 34)), (proj2 (Z.eqb_neq c 123)), (proj2 (Z.eqb_neq c 40)), (proj2 (Z.eqb_neq c 41)), Hv by done. cbn [negb].
    destruct (Z.eqb_spec c 126) as [->|]; [| done]. destruct (t ++ rest) as [|c2 r] eqn:Hr.
    { destruct Hd as (? & ? & -> & _). by destruct t. }
    replace (c2 =? 123) with false; [done |]. symmetry. apply Z.eqb_neq. destruct t as [|c3 t].
    - destruct Hd as (d & ? & -> & Hd). injection Hr as <- _. lia.
    - injection Hr as <- _. cbn [forallb] in Ht. apply andb_true_iff in Ht. destruct Ht as [Ht _]. destruct (atom_char_spec c3 Ht) as (_ & _ & _ & _ & _ & ? & _). done. }
  assert (Hcont : continue_arg (set_cur_pos (S (cur_pos s)) s) = Some (saved (save_atom (c :: t)) (length (c :: t)) (set_cur_pos 1 s), true)).
  { change (cur_pos s) with (cur_pos (skipped p)). rewrite Hpos, continue_atom by (done || (change (input (set_cur_pos 1 s)) with (input (skipped p)); rewrite Hin; cbn; lia)).
    unfold imap_parser_read_atom. change (input (set_cur_pos 1 s)) with (input (skipped p)). change (cur_pos (set_cur_pos 1 s)) with 1%nat. rewrite Hin. cbn [drop]. rewrite ?drop_0.
    rewrite (atom_loop_run _ t ps rest 1) by (done || exact (at_parents _ _ _ _ Hq)).
    rewrite (save_stop_saved _ _ _ (save_atom (c :: t))).
    - cbn [then_mark mbind option_bind negb]. unfold mark_text. by rewrite flag_off by (done || exact (at_flags _ _ _ _ Hq)).
    - change (input (set_cur_pos 1 s)) with (input (skipped p)). rewrite Hin. change (1 + length t)%nat with (length (c :: t)).
      change (c :: t ++ rest) with ((c :: t) ++ rest). by rewrite take_app_length. }
  destruct (at_leaf ps cur c (t ++ rest) p s (set_cur_pos 1 s) (save_atom (c :: t)) (length (c :: t)) H1 H Hs ltac:(done) Hcont ltac:(by split)) as (p' & Hp' & Hl).
  exists p'. split; [| done]. replace (drop _ _) with rest in Hp'; [done |]. change (input (set_cur_pos 1 s)) with (input (skipped p)). rewrite Hin.
  symmetry. apply (drop_app_length (c :: t) rest).
Qed.

(** ** Quoted strings *)

Inductive quoted_body : list Z -> Prop :=
  | quoted_nil : quoted_body []
  | quoted_char c e : c <> 34 -> c <> 92 -> is_linebreak c = false -> quoted_body e -> quoted_body (c :: e)
  | quoted_escape c e : is_linebreak c = false -> quoted_body e -> quoted_body (92 :: c :: e).

Definition no_escape (e : list Z) : Prop := Forall (fun c => c <> 92) e.

(** The position of the first backslash, for a loop that begins at [i]. *)
Definition first_escape (i : nat) (e : list Z) (fe fe' : Z) : Prop :=
  (0 <= fe -> fe' = fe) /\
  (fe < 0 -> (fe' = fe /\ no_escape e) \/ exists a b, e = a ++ 92 :: b /\ no_escape a /\ fe' = Z.of_nat (i + length a)).

Lemma string_loop_run q e rest i :
  quoted_body e -> exists fe, read_string_loop q (e ++ 34 :: rest) i = save_stop (i + length e) (S (i + length e)) (set_str_first_escape fe q) /\
    first_escape i e (str_first_escape q) fe.
Proof.
  intros He. revert q i. induction He as [|c e H1 H2 H3 He IH | c e H3 He IH]; intros q i; cbn [app read_string_loop length].
  - exists (str_first_escape q). rewrite Nat.add_0_r, set_escape_id. split; [done |]. split; [done |]. left. split; [done | constructor].
  - rewrite (proj2 (Z.eqb_neq c 34)), (proj2 (Z.eqb_neq c 92)), H3 by done. cbn [andb]. destruct (IH q (S i)) as (fe & -> & Hk & Hn). exists fe.
    split; [f_equal; lia |]. split; [done |]. intros Hneg. destruct (Hn Hneg) as [[-> Hno] | (a & b & -> & Ha & ->)]; [left; by repeat constructor | right].
    exists (c :: a), b. split; [done |]. split; [by constructor | cbn [length]; lia].
  - cbn [Z.eqb Pos.eqb]. rewrite H3. cbn [andb]. set (q' := if str_first_escape q <? 0 then _ else _).
    destruct (IH q' (S (S i))) as (fe & Hl & Hk & Hn). exists fe. subst q'. destruct (Z.ltb_spec (str_first_escape q) 0) as [Hneg|Hpos].
    + split; [rewrite Hl; f_equal; lia |]. split; [lia |]. intros _. right. exists [], (c :: e). split; [done |]. split; [constructor |].
      cbn [set_str_first_escape str_first_escape] in Hk. rewrite Hk by lia. f_equal. cbn. lia.
    + split; [rewrite Hl; f_equal; lia |]. split; [done | lia].
Qed.

Lemma unescape_plain a b : no_escape a -> str_unescape_loop (a ++ b) = a ++ str_unescape_loop b.
Proof. induction 1 as [|c a Hc _ IH]; [done |]. cbn [app str_unescape_loop]. by rewrite (proj2 (Z.eqb_neq c 92)), IH. Qed.

Lemma string_arg q e fe n :
  cur_type q = ARG_PARSE_STRING -> has_flag q IMAP_PARSE_FLAG_NO_UNESCAPE = false -> no_nul e -> first_escape 1 e (-1) fe ->
  arg_of_data (set_str_first_escape fe q) (n :: e) = Some (IMAP_ARG_STRING (str_unescape_loop e) false).
Proof.
  intros Ht Hf Hn [_ Hfe]. specialize (Hfe ltac:(lia)). unfold arg_of_data. cbn [set_str_first_escape cur_type str_first_escape]. rewrite Ht.
  change (has_flag (set_str_first_escape fe q)) with (has_flag q). rewrite Hf. cbn [length Nat.ltb Nat.leb assert mbind option_bind drop negb]. rewrite ?drop_0.
  rewrite c_str_id by done. destruct Hfe as [[-> Hno] | (a & b & -> & Ha & ->)].
  - cbn. do 3 f_equal. rewrite <- (app_nil_r e) at 2. rewrite unescape_plain by done. by rewrite app_nil_r.
  - rewrite andb_true_r, (proj2 (Z.leb_le _ _)) by lia. unfold unescape_from. replace (Z.of_nat (1 + length a) - 1) with (Z.of_nat (length a)) by lia.
    rewrite length_app, (proj2 (Z.leb_le _ _)) by lia. rewrite Nat2Z.id, take_app_length, drop_app_length, str_unescape_eq. cbn [mbind option_bind].
    by rewrite unescape_plain.
Qed.

Lemma reads_quoted e : quoted_body e -> reads ([34] ++ e ++ [34]) (IMAP_ARG_STRING (str_unescape_loop e) false).
Proof.
  intros He ps cur rest p _ H. cbn [app] in H. rewrite <- app_assoc in H. cbn [app] in H.
  destruct (at_token ps cur 34 _ p ltac:(done) H) as (Hq & Hpos & Hin & _ & _). set (s := set_str_first_escape (-1) (set_cur_type ARG_PARSE_STRING (skipped p))).
  assert (Hs : start_arg (skipped p) = Some (s, None)) by (unfold start_arg; by rewrite Hin).
  destruct (string_loop_run (set_cur_pos 1 s) e rest 1 He) as (fe & Hloop & Hfe). set (s' := set_str_first_escape fe (set_cur_pos 1 s)).
  assert (Hcont : continue_arg (set_cur_pos (S (cur_pos s)) s) = Some (saved (IMAP_ARG_STRING (str_unescape_loop e) false) (S (1 + length e)) s', true)).
  { change (cur_pos s) with (cur_pos (skipped p)). rewrite Hpos, continue_eq by (change (input (set_cur_pos 1 s)) with (input (skipped p)); rewrite Hin; cbn; lia).
    cbn [set_cur_pos cur_type s set_str_first_escape set_cur_type]. change (imap_parser_read_string (set_cur_pos 1 s) = Some (saved (IMAP_ARG_STRING (str_unescape_loop e) false) (S (1 + length e)) s', true)).
    unfold imap_parser_read_string. change (input (set_cur_pos 1 s)) with (input (skipped p)). change (cur_pos (set_cur_pos 1 s)) with 1%nat. rewrite Hin. cbn [drop]. rewrite ?drop_0.
    rewrite Hloop. apply save_stop_saved. change (input s') with (input (skipped p)). rewrite Hin. cbn [take Nat.add].
    rewrite take_app_length. apply string_arg; [done | by apply flag_off; [exact (at_flags _ _ _ _ Hq) |] | | done].
    pose proof (inv_nul _ (reading_inv _ (at_reading _ _ _ _ Hq))) as Hn. rewrite Hin in Hn. inversion Hn as [|? ? _ Hn']. apply Forall_app in Hn'. apply Hn'. }
  destruct (at_leaf ps cur 34 _ p s s' _ _ ltac:(done) H Hs ltac:(done) Hcont ltac:(by split)) as (p' & Hp' & Hl).
  exists p'. split; [| done]. replace (drop _ _) with rest in Hp'; [done |]. change (input s') with (input (skipped p)). rewrite Hin. cbn [drop Nat.add]. rewrite ?drop_0.
  replace (e ++ 34 :: rest) with ((e ++ [34]) ++ rest) by (by rewrite <- app_assoc). rewrite drop_app_length'; [done |]. rewrite length_app. cbn. lia.
Qed.

(** ** Literals *)

Lemma literal_digits q ds rest i :
  all_digits ds = true -> literal_nonsync q = false -> 0 <= literal_size q -> decval (literal_size q) ds < 2 ^ 64 ->
  read_literal_loop q (ds ++ rest) i = read_literal_loop (set_literal_size (decval (literal_size q) ds) q) rest (i + length ds).
Proof.
  intros Hd. revert q i. induction ds as [|c ds IH]; intros q i Hns Hpos Hlt; cbn [app read_literal_loop length].
  - rewrite Nat.add_0_r, decval_nil. by destruct q.
  - cbn [all_digits forallb] in Hd. apply andb_true_iff in Hd. destruct Hd as [Hc Hd]. rewrite decval_cons in *. unfold isdigit in Hc.
    rewrite (proj2 (Z.eqb_neq c 125)), Hns, (proj2 (Z.eqb_neq c 43)) by lia. replace ((c <? 48) || (c >? 57)) with false by lia.
    pose proof (decval_ge (literal_size q * 10 + (c - 48)) ds ltac:(lia) Hd) as Hge.
    rewrite Z.mod_small by lia. cbn [set_literal_size literal_size]. rewrite (proj2 (Z.ltb_ge _ _)) by lia.
    rewrite IH; [| done | done | cbn; lia | done]. cbn [set_literal_size literal_size]. f_equal; lia.
Qed.

Definition literal_arg (s : list Z) : imap_arg :=
  if negb (Z.land fl IMAP_PARSE_FLAG_LITERAL_TYPE =? 0) then IMAP_ARG_LITERAL s false else IMAP_ARG_STRING s false.

Lemma literal_end_small p :
  flags p = fl -> literal_size p <= max_line_size p - line_size p -> line_size p < max_line_size p ->
  exists o, imap_parser_literal_end p = (expects_data o p, true).
Proof.
  intros Hf Hs Hl. destruct (literal_end_spec [] p) as [(e & He & _) | (o & Ho & _)]; [| by exists o].
  unfold imap_parser_literal_end in He. rewrite (flag_off p) in He by done. cbn [negb andb] in He.
  replace ((line_size p >=? max_line_size p) || (literal_size p >? max_line_size p - line_size p)) with false in He by lia.
  cbn [negb andb] in He. by destruct (output p).
Qed.

(** The line break and the data of a literal. *)
Lemma literal_data x s rest :
  flags x = fl -> cur_type x = ARG_PARSE_LITERAL_DATA -> literal_skip_crlf x = true -> cur_pos x = 0%nat -> literal8 x = false ->
  literal_size x = Z.of_nat (length s) -> input x = 13 :: 10 :: s ++ rest ->
  imap_parser_read_literal_data x = Some (saved (literal_arg s) (length s) (set_literal_skip_crlf false (counted 1 (counted 1 x))), true).
Proof.
  intros Hf Ht Hskip Hpos H8 Hs Hin. rewrite read_data_unskipped, skip_crlf_eq, Hin by done. cbn [Z.eqb Pos.eqb skip_lf negb mbind option_bind].
  set (y := set_literal_skip_crlf false (counted 1 (counted 1 x))).
  assert (Hy : input y = s ++ rest) by (change (input y) with (drop 1 (drop 1 (input x))); by rewrite Hin).
  unfold read_bytes. rewrite (flag_off y) by done. cbn [negb orb]. rewrite Hy. change (literal_size y) with (literal_size x). rewrite Hs, length_app.
  rewrite (proj2 (Z.ltb_ge _ _)) by lia. rewrite Nat2Z.id, take_app_length. unfold imap_parser_save_arg, arg_of_data.
  change (cur_type y) with (cur_type x). rewrite Ht. rewrite (flag_off y) by done. rewrite andb_false_r.
  change (literal8 y) with (literal8 x). rewrite H8. cbn [mbind option_bind]. unfold saved, literal_arg, has_flag. change (flags y) with (flags x). rewrite Hf.
  by destruct (negb (Z.land fl IMAP_PARSE_FLAG_LITERAL_TYPE =? 0)).
Qed.

Lemma printf_u_spec n : 0 <= n < 2 ^ 64 -> exists ds, printf_u n = ds /\ ds <> [] /\ all_digits ds = true /\ decval 0 ds = n.
Proof.
  intros Hn. unfold printf_u. destruct (dec2str_loop_spec 22 n []) as (ds & -> & ?); [| lia | exists ds; cbn; by rewrite app_nil_r].
  change (10 ^ Z.of_nat 22) with 10000000000000000000000. lia.
Qed.

(** The size, the line break and the data. *)
Lemma literal_read x ds s rest :
  flags x = fl -> cur_type x = ARG_PARSE_LITERAL -> cur_pos x = 1%nat -> literal_size x = 0 -> literal_nonsync x = false -> literal8 x = false ->
  all_digits ds = true -> decval 0 ds = Z.of_nat (length s) -> input x = 123 :: ds ++ 125 :: 13 :: 10 :: s ++ rest ->
  0 <= line_size x -> line_size x + Z.of_nat (length (input x)) <= max_line_size x < 2 ^ 64 ->
  exists y, continue_arg x = Some (saved (literal_arg s) (length s) y, true) /\ kept x y /\ input y = s ++ rest.
Proof.
  intros Hf Ht Hpos Hs Hns H8 Hd Hv Hin Hl Hsize.
  assert (Hlen : (length (input x) = 4 + length ds + length (s ++ rest))%nat) by (rewrite Hin; cbn [length]; rewrite length_app; cbn [length]; lia).
  rewrite length_app in Hlen. set (x1 := set_literal_size (Z.of_nat (length s)) x). set (x2 := counted (S (1 + length ds)) x1).
  assert (Hskip : skip_counted (S (1 + length ds)) x1 = x2) by (apply skip_counted_ok; change (input x1) with (input x); lia).
  assert (Hin2 : input x2 = 13 :: 10 :: s ++ rest).
  { change (input x2) with (drop (S (1 + length ds)) (input x)). rewrite Hin. cbn [drop Nat.add]. rewrite ?drop_0.
    replace (ds ++ 125 :: 13 :: 10 :: s ++ rest) with ((ds ++ [125]) ++ 13 :: 10 :: s ++ rest) by (by rewrite <- app_assoc).
    apply drop_app_length'. rewrite length_app. cbn. lia. }
  assert (Hx2 : line_size x2 = line_size x + Z.of_nat (S (1 + length ds)) /\ literal_size x2 = Z.of_nat (length s) /\ max_line_size x2 = max_line_size x /\
                literal8 x2 = false /\ kept x x2).
  { splits; try done. split; try done; [| cbn; lia]. rewrite Hin2. change (line_size x2) with (line_size x + Z.of_nat (S (1 + length ds))). cbn [length]. rewrite length_app. lia. }
  destruct Hx2 as (Hl2 & Hs2 & Hm2 & H82 & Hk2).
  assert (Hf2 : flags x2 = fl) by done.
  assert (Hcont : continue_arg x = '(q, ok) ← Some (imap_parser_literal_end x2); if negb ok then Some (q, false) else imap_parser_read_literal_data q).
  { unfold continue_arg. rewrite assert_true by (by rewrite Hin). cbn [mbind option_bind]. rewrite Ht.
    unfold imap_parser_read_literal. rewrite Hpos, Hin. cbn [drop]. rewrite ?drop_0. rewrite literal_digits by (done || rewrite Hs; lia).
    rewrite Hs, Hv. fold x1. cbn [read_literal_loop Z.eqb Pos.eqb]. by rewrite Hskip. }
  clearbody x2. destruct (literal_end_small x2) as (o & Ho); [done | lia | lia |]. rewrite Ho in Hcont. cbn [mbind option_bind negb] in Hcont.
  rewrite (literal_data _ s rest) in Hcont by done. eexists. split; [exact Hcont |]. destruct Hk2.
  split; [split; try done; cbn; [rewrite Hin2; cbn [drop length]; rewrite Hin2 in kept_size0; cbn [length] in kept_size0; rewrite ?drop_0; lia | lia] |].
  cbn. by rewrite Hin2.
Qed.

Lemma reads_literal s : reads (imap_append_literal s) (literal_arg s).
Proof.
  intros ps cur rest p _ H. unfold imap_append_literal in H. rewrite <- !app_assoc in H. cbn [app] in H.
  destruct (at_token ps cur 123 _ p ltac:(done) H) as (Hq & Hpos & Hin & _ & _).
  pose proof (at_size _ _ _ _ Hq) as Hsize. pose proof (at_max _ _ _ _ Hq) as Hmax. pose proof (at_line _ _ _ _ Hq) as Hline.
  destruct (printf_u_spec (Z.of_nat (length s))) as (ds & Hds & _ & Hdig & Hval).
  { rewrite Hin in Hsize. cbn [length] in Hsize. rewrite length_app in Hsize. cbn [length] in Hsize. rewrite length_app in Hsize. lia. }
  rewrite Hds in *. set (q := skipped p) in *.
  set (s0 := set_literal8 false (set_literal_nonsync false (set_literal_size 0 (set_cur_type ARG_PARSE_LITERAL q)))).
  assert (Hs : start_arg q = Some (s0, None)) by (unfold start_arg; by rewrite Hin).
  destruct (literal_read (set_cur_pos 1 s0) ds s rest) as (y & Hcont & Hk & Hy); try done; [exact (at_flags _ _ _ _ Hq) |].
  destruct (at_leaf ps cur 123 _ p s0 y (literal_arg s) (length s) ltac:(done) H Hs ltac:(done)) as (p' & Hp' & Hl).
  { change (cur_pos s0) with (cur_pos q). by rewrite Hpos. } { destruct Hk. by split. }
  exists p'. split; [| done]. by rewrite Hy, drop_app_length in Hp'.
Qed.
End Text.
