(* ===== verification/ImapWriteProps.v ===== *)
(** * Writing IMAP strings and arguments: the parser reads what was written

    The functions of ImapQuote.v against the parser of ImapParser.v: arguments
    that are written come back as the same tree, strings come back as the
    same bytes, whichever of the forms was chosen, and sequence sets and flags as the
    same sets. *)

From S2P Require Import Prelude SeqRange SeqRangeProps SeqRangeSets Strnum Strescape ImapSeqset ImapArg ImapQuote.
From S2P Require Import ImapParser ImapParserProps ImapParserStream ImapParserText.

(** ** Arguments *)

(** Arguments that have a written form of their own: atoms of atom characters,
    strings without line breaks, literals, and lists of such arguments with the
    end marker behind them. *)
Section Ended.
Variable P : imap_arg -> bool.

Fixpoint ended_list (l : list imap_arg) : bool :=
  match l with
  | [] => false
  | [a] => IMAP_ARG_IS_EOL a
  | a :: l => P a && ended_list l
  end.
End Ended.

Definition string_char (c : Z) : bool := negb (c =? 0) && negb (is_linebreak c).

Fixpoint writable (a : imap_arg) : bool :=
  match a with
  | IMAP_ARG_NIL s => bool_decide (s = str "NIL")
  | IMAP_ARG_ATOM s => negb (length s =? 0)%nat && forallb atom_char s && negb (strcaseeq s (str "NIL"))
  | IMAP_ARG_STRING s literal8 => negb literal8 && forallb string_char s
  | IMAP_ARG_LITERAL s literal8 => negb literal8 && forallb (fun c => negb (c =? 0)) s
  | IMAP_ARG_LIST l => ended_list writable l
  | _ => false
  end.

Lemma ended_list_spec P l : ended_list P l = true -> exists l', l = l' ++ [IMAP_ARG_EOL] /\ Forall (fun a => P a = true) l'.
Proof.
  induction l as [|a l IH]; [done |]. cbn [ended_list]. destruct l as [|b l].
  - intros Ha. exists []. split; [| constructor]. by destruct a.
  - intros [Ha Hl]%andb_true_iff. destruct (IH Hl) as (l' & -> & Hl'). exists (a :: l'). split; [done | by constructor].
Qed.

Lemma writable_eol a : writable a = true -> IMAP_ARG_IS_EOL a = false.
Proof. by destruct a. Qed.

Lemma forallb_no_nul (P : Z -> bool) s : P 0 = false -> forallb P s = true -> no_nul s.
Proof. intros H0 H. rewrite forallb_forall in H. apply Forall_forall. intros c Hc ->. apply list_elem_of_In in Hc. specialize (H 0 Hc). congruence. Qed.

Lemma digits_no_nul ds : all_digits ds = true -> no_nul ds.
Proof. by apply forallb_no_nul. Qed.

Lemma literal_no_nul s : no_nul s -> Z.of_nat (length s) < 2 ^ 64 -> no_nul (imap_append_literal s).
Proof.
  intros Hs Hl. unfold imap_append_literal. destruct (printf_u_spec (Z.of_nat (length s)) ltac:(lia)) as (ds & -> & _ & Hd & _).
  constructor; [done |]. apply Forall_app. split; [by apply digits_no_nul |]. by repeat constructor.
Qed.

Lemma escape_body s : forallb string_char s = true -> quoted_body (str_escape_loop s) /\ no_nul (str_escape_loop s).
Proof.
  induction s as [|c s IH]; [split; constructor |]. cbn [forallb str_escape_loop]. intros [Hc Hs]%andb_true_iff.
  unfold string_char in Hc. apply andb_true_iff in Hc. destruct Hc as [H0 Hl]. apply negb_true_iff in H0, Hl. apply Z.eqb_neq in H0. destruct (IH Hs) as [Hq Hn].
  destruct (IS_ESCAPED_CHAR c) eqn:He; cbn [app]; (split; [| repeat constructor; done]); constructor; try done; unfold IS_ESCAPED_CHAR in He; lia.
Qed.

Lemma unescape_escape s : str_unescape_loop (str_escape_loop s) = s.
Proof. rewrite <- (app_nil_r (str_escape_loop s)), str_unescape_escape_loop. apply app_nil_r. Qed.

Section Write.
Variable fl : Z.
Hypothesis fl_plain : plain_flags fl.
Hypothesis fl_literal : Z.land fl IMAP_PARSE_FLAG_LITERAL_TYPE <> 0.

(** The text [t], read inside of lists, adds the arguments [l]. *)
Definition reads_list (t : list Z) (l : list imap_arg) : Prop :=
  forall ps cur rest p, delim ps rest -> at_text fl ps cur (t ++ rest) p -> exists p', at_text fl ps (cur ++ l) rest p' /\ leads p p'.

(** The size of a literal is less than 2^64 when it is in memory. *)
Definition small (t : list Z) : Prop := Z.of_nat (length t) < 2 ^ 64.

Definition written (a : imap_arg) : Prop :=
  writable a = true -> exists t, write_arg a = Some t /\ reads fl t a /\ (small t -> no_nul t).

Lemma written_list l first :
  Forall written l -> Forall (fun a => writable a = true) l ->
  exists t, write_args_loop write_arg first (l ++ [IMAP_ARG_EOL]) = Some t /\ (small t -> no_nul t) /\
    (if first then reads_list t l else l = [] /\ t = [] \/ exists t', t = 32 :: t' /\ reads_list t' l).
Proof.
  intros Hw Hl. revert first. induction Hl as [|a l Ha Hl IH]; intros first; cbn [app write_args_loop].
  - exists []. split; [done |]. split; [constructor |]. destruct first; [| by left]. intros ps cur rest p _ H. exists p. rewrite app_nil_r. split; [done | by intros q].
  - inversion Hw as [|? ? Hwa Hwl]; subst. rewrite (writable_eol a Ha). destruct (Hwa Ha) as (t & -> & Hr & Hn).
    destruct (IH Hwl false) as (t' & -> & Hn' & Ht'). cbn [mbind option_bind]. eexists. split; [done |].
    assert (Hreads : reads_list (t ++ t') (a :: l)).
    { intros ps cur rest p Hd H. rewrite <- app_assoc in H. destruct Ht' as [[-> ->] | (t2 & -> & Ht2)]; cbn [app] in *; [by apply Hr |].
      destruct (Hr ps cur (32 :: t2 ++ rest) p) as (p1 & H1 & L1); [by eexists _, _; split; [| left] | done |].
      destruct (at_space fl ps _ _ p1 H1) as (p2 & H2 & L2). destruct (Ht2 ps _ rest p2 Hd H2) as (p3 & H3 & L3). exists p3.
      rewrite <- app_assoc in H3. split; [done |]. eapply leads_trans; [exact L1 |]. by eapply leads_trans. }
    split; [| destruct first; [done | right; by eexists]]. unfold small in *. destruct first; cbn [app length]; rewrite length_app; intros Hs;
      [apply Forall_app; split; [apply Hn | apply Hn']; lia | constructor; [done |]; apply Forall_app; split; [apply Hn | apply Hn']; lia].
Qed.

Lemma written_atom s : written (IMAP_ARG_ATOM s).
Proof.
  intros Hw. cbn [writable] in Hw. rewrite !andb_true_iff, !negb_true_iff in Hw. destruct Hw as [[Hne Hs] Hnil]. apply Nat.eqb_neq in Hne.
  assert (Hn : no_nul s) by (by eapply forallb_no_nul, Hs).
  exists s. cbn [write_arg imap_arg_as_astring imap_arg_get_astring]. rewrite c_str_id by done. split; [done |]. split; [| done].
  pose proof (reads_atom fl fl_plain s ltac:(by destruct s) Hs) as Hr. unfold save_atom in Hr. by rewrite Hnil, andb_false_r in Hr.
Qed.

Lemma written_leaf a : (forall l, a <> IMAP_ARG_LIST l) -> written a.
Proof.
  intros Hleaf Hw. destruct a as [s | s | s l8 | l | s l8 | | |]; cbn [writable] in Hw; try done.
  - apply bool_decide_eq_true in Hw. subst s. exists (str "NIL"). split; [done |].
    split; [by apply (reads_atom fl fl_plain (str "NIL")) | intros _; repeat constructor; done].
  - by apply written_atom.
  - apply andb_true_iff in Hw. destruct Hw as [H8 Hs]. destruct l8; [done |]. destruct (escape_body s Hs) as [Hq Hn].
    assert (Hns : no_nul s) by (by eapply forallb_no_nul, Hs).
    exists ([34] ++ str_escape_loop s ++ [34]). cbn [write_arg imap_arg_as_astring imap_arg_get_astring mbind option_bind]. rewrite c_str_id, str_escape_eq by done.
    split; [done |]. split; [by rewrite <- (unescape_escape s) at 2; apply reads_quoted |].
    intros _. constructor; [done |]. apply Forall_app. split; [done | by repeat constructor].
  - by destruct (Hleaf l).
  - apply andb_true_iff in Hw. destruct Hw as [H8 Hs]. destruct l8; [done |].
    assert (Hns : no_nul s) by (by eapply forallb_no_nul, Hs).
    exists (imap_append_literal s). cbn [write_arg imap_arg_as_astring imap_arg_get_astring mbind option_bind]. rewrite c_str_id by done. split; [done |].
    split; [| intros Hsm; apply literal_no_nul; [done |]; unfold small, imap_append_literal in Hsm; rewrite !length_app in Hsm; lia].
    pose proof (reads_literal fl fl_plain s) as Hr. unfold literal_arg in Hr. by rewrite (proj2 (Z.eqb_neq _ _)) in Hr.
Qed.

Lemma reads_parens t l : reads_list t l -> reads fl ([40] ++ t ++ [41]) (IMAP_ARG_LIST (l ++ [IMAP_ARG_EOL])).
Proof.
  intros Hr ps cur rest p _ H. cbn [app] in H. rewrite <- app_assoc in H. destruct (at_open fl fl_plain ps cur _ p H) as (p1 & H1 & L1).
  destruct (Hr (cur :: ps) [] ([41] ++ rest) p1) as (p2 & H2 & L2); [eexists _, _; split; [done | by right; right] | done |].
  destruct (at_close fl ps cur l rest p2 H2) as (p3 & H3 & L3). exists p3. split; [done |]. eapply leads_trans; [exact L1 |]. by eapply leads_trans.
Qed.

Lemma write_arg_written a : written a.
Proof.
  induction a as [l IH | a Hleaf]; [| by apply written_leaf]. intros Hw. cbn [writable] in Hw.
  destruct (ended_list_spec _ _ Hw) as (l' & -> & Hl). apply Forall_app in IH. destruct IH as [IH _].
  destruct (written_list l' true IH Hl) as (t & Ht & Hn & Hr). exists ([40] ++ t ++ [41]). cbn [write_arg]. rewrite Ht.
  unfold imap_arg_as_list, imap_arg_get_list, imap_arg_get_list_full. rewrite assert_true by (rewrite length_app; apply Nat.ltb_lt; cbn; lia).
  split; [done |]. split; [by apply reads_parens |].
  unfold small in *. cbn [app length]. rewrite length_app. intros Hs. constructor; [done |]. apply Forall_app. split; [apply Hn; lia | by repeat constructor].
Qed.
End Write.

(** C11: Arguments that are written and sent as a line are read back as they were:
    for every tree of atoms, NILs, strings without line breaks, literals and nested
    lists, [imap_write_args] succeeds, and a new parser that is asked to tell literals apart
    makes the same tree of the text, up to the end of the line, if it fits the
    maximal size of a line.  The parser is called without the flags that ask for
    the sizes of literals, for strings as they were sent, for a list that is
    open, for a server's text or to stop at a list. *)
Theorem imap_write_args_roundtrip fl args out max :
  plain_flags fl -> Z.land fl IMAP_PARSE_FLAG_LITERAL_TYPE <> 0 -> Forall (fun a => writable a = true) args ->
  exists t, imap_write_args (args ++ [IMAP_ARG_EOL]) = Some t /\
    (Z.of_nat (length t) + 2 <= max < 2 ^ 64 ->
     exists p', imap_parser_read_args (imap_parser_create (t ++ [13; 10]) out max) 0 fl =
       Some (p', Z.of_nat (length args), Some (args ++ [IMAP_ARG_EOL])) /\ input p' = [13; 10]).
Proof.
  intros Hfl Hlit Hw. destruct (written_list fl args true) as (t & Ht & Hn & Hr); [by apply Forall_true; intros; apply write_arg_written | done |].
  exists t. split; [done |]. intros Hmax.
  apply (read_args_text fl Hfl); [apply Forall_app; split; [apply Hn; unfold small; lia | by repeat constructor] | rewrite length_app; cbn; lia |].
  intros p Hp. apply (Hr [] [] [13; 10] p); [| done]. eexists _, _. split; [done | by right; left].
Qed.

Lemma imap_write_args_roundtrip_witness :
  let args := [IMAP_ARG_ATOM (str "FETCH"); IMAP_ARG_LIST [IMAP_ARG_STRING [97; 34; 92; 39] false; IMAP_ARG_LIST [IMAP_ARG_EOL]; IMAP_ARG_NIL (str "NIL"); IMAP_ARG_EOL];
    IMAP_ARG_LITERAL [13; 10; 200] false] in
  exists t, imap_write_args (args ++ [IMAP_ARG_EOL]) = Some t /\
    (Z.of_nat (length t) + 2 <= 100 < 2 ^ 64 ->
     exists p', imap_parser_read_args (imap_parser_create (t ++ [13; 10]) None 100) 0 IMAP_PARSE_FLAG_LITERAL_TYPE =
       Some (p', Z.of_nat (length args), Some (args ++ [IMAP_ARG_EOL])) /\ input p' = [13; 10]).
Proof.
  apply (imap_write_args_roundtrip IMAP_PARSE_FLAG_LITERAL_TYPE
    [IMAP_ARG_ATOM (str "FETCH"); IMAP_ARG_LIST [IMAP_ARG_STRING [97; 34; 92; 39] false; IMAP_ARG_LIST [IMAP_ARG_EOL]; IMAP_ARG_NIL (str "NIL"); IMAP_ARG_EOL];
     IMAP_ARG_LITERAL [13; 10; 200] false] None 100); [reflexivity | discriminate | repeat constructor].
Defined.

(** ** Strings *)

Lemma quoted_loop_spec n s :
  nstring_is_quoted n s = true -> no_nul s ->
  quoted_body (imap_append_quoted_loop s) /\ no_nul (imap_append_quoted_loop s) /\ str_unescape_loop (imap_append_quoted_loop s) = s.
Proof.
  revert n. induction s as [|c s IH]; intros n Hq Hn; [split; [constructor | split; [constructor | done]] |].
  cbn [nstring_is_quoted imap_append_quoted_loop] in *. inversion Hn as [|? ? Hc Hs]; subst.
  destruct ((c =? 34) || (c =? 92)) eqn:Hspecial.
  - destruct (_ <? _)%nat; [| done]. destruct (IH _ Hq Hs) as (H1 & H2 & H3). replace ((c =? 13) || (c =? 10)) with false by lia. cbn [app].
    split; [constructor; [unfold is_linebreak; lia | done] |]. split; [by repeat constructor |]. cbn [str_unescape_loop Z.eqb Pos.eqb]. by rewrite H3.
  - destruct ((c =? 13) || (c =? 10)) eqn:Hl; [done |]. destruct (c >=? 128); [done |]. destruct (IH _ Hq Hs) as (H1 & H2 & H3). cbn [app].
    split; [constructor; [lia | lia | done | done] |]. split; [by constructor |]. cbn [str_unescape_loop]. by rewrite (proj2 (Z.eqb_neq c 92)), H3 by lia.
Qed.

Section Append.
Variable fl : Z.
Hypothesis fl_plain : plain_flags fl.

(** A text that is read as one argument, on a line of its own. *)
Lemma reads_line t a out max :
  reads fl t a -> no_nul t -> Z.of_nat (length t) + 2 <= max < 2 ^ 64 ->
  exists p', imap_parser_read_args (imap_parser_create (t ++ [13; 10]) out max) 0 fl = Some (p', 1, Some [a; IMAP_ARG_EOL]) /\ input p' = [13; 10].
Proof.
  intros Hr Hn Hmax. apply (read_args_text fl fl_plain (t ++ [13; 10]) out max [a] []); [apply Forall_app; split; [done | by repeat constructor] | rewrite length_app; cbn; lia |].
  intros p Hp. apply (Hr [] [] [13; 10] p); [| done]. eexists _, _. split; [done | by right; left].
Qed.

Lemma string_is_astring a s : imap_arg_get_string a = Some s -> imap_arg_get_astring a = Some s /\ imap_arg_get_nstring a = Some (Some s).
Proof. destruct a; cbn; intros [= <-]; done. Qed.

Lemma literal_arg_string s : no_nul s -> imap_arg_get_string (literal_arg fl s) = Some s.
Proof. intros Hs. unfold literal_arg. destruct (negb _); cbn; by rewrite c_str_id. Qed.

Lemma append_string_reads s :
  no_nul s -> Z.of_nat (length s) < 2 ^ 64 ->
  exists a, reads fl (imap_append_string s) a /\ imap_arg_get_string a = Some s /\ no_nul (imap_append_string s).
Proof.
  intros Hs Hl. unfold imap_append_string, imap_append_nstring. destruct (nstring_is_quoted 0 s) eqn:Hq.
  - destruct (quoted_loop_spec 0 s Hq Hs) as (H1 & H2 & H3). eexists. split; [by apply reads_quoted |]. rewrite H3. split; [cbn; by rewrite c_str_id |].
    constructor; [done |]. apply Forall_app. split; [done | by repeat constructor].
  - exists (literal_arg fl s). split; [by apply reads_literal |]. split; [by apply literal_arg_string | by apply literal_no_nul].
Qed.

Lemma astring_char c : IS_ASTRING_CHAR c = true -> c < 256 -> atom_char c = true.
Proof.
  intros H Hc. assert (Hb : is_byte c) by (unfold IS_ASTRING_CHAR, IS_ATOM_CHAR, IS_ATOM_SPECIAL, IS_RESP_SPECIAL in H; unfold is_byte; lia). revert H.
  apply implb_true_iff. revert c Hc Hb. intros c _. apply (byte_forall (fun c => implb (IS_ASTRING_CHAR c) (atom_char c))). by vm_compute.
Qed.
End Append.

(** Strings come back as they were sent, whichever form [imap_append_nstring]
    chooses: a string in quotes or as a literal is read as a string of the same bytes, and
    NULL as NIL. *)
Theorem imap_append_nstring_roundtrip fl src out max :
  plain_flags fl -> (forall s, src = Some s -> is_cstr s /\ Z.of_nat (length s) < 2 ^ 64) ->
  Z.of_nat (length (imap_append_nstring src)) + 2 <= max < 2 ^ 64 ->
  exists p' a, imap_parser_read_args (imap_parser_create (imap_append_nstring src ++ [13; 10]) out max) 0 fl = Some (p', 1, Some [a; IMAP_ARG_EOL]) /\
    imap_arg_get_nstring a = Some src.
Proof.
  intros Hfl Hsrc Hmax. destruct src as [s|].
  - destruct (Hsrc s eq_refl) as [Hs Hl]. assert (Hn : no_nul s) by (eapply Forall_impl; [exact Hs |]; cbn; lia).
    destruct (append_string_reads fl Hfl s Hn Hl) as (a & Hr & Ha & Hnn). destruct (reads_line fl Hfl _ a out max Hr Hnn Hmax) as (p' & Hp' & _).
    exists p', a. split; [exact Hp' | by apply string_is_astring].
  - destruct (reads_line fl Hfl (str "NIL") (IMAP_ARG_NIL (str "NIL")) out max) as (p' & Hp' & _); [| repeat constructor; done | done | by exists p', (IMAP_ARG_NIL (str "NIL"))].
    by apply (reads_atom fl Hfl (str "NIL")).
Qed.

Lemma imap_append_nstring_roundtrip_witness :
  exists p' a, imap_parser_read_args (imap_parser_create (imap_append_nstring (Some [34; 92; 97]) ++ [13; 10]) None 100) 0 0 = Some (p', 1, Some [a; IMAP_ARG_EOL]) /\
    imap_arg_get_nstring a = Some (Some [34; 92; 97]).
Proof.
  apply (imap_append_nstring_roundtrip 0 (Some [34; 92; 97]) None 100); [reflexivity | | vm_compute; done].
  intros s [= <-]. split; [repeat constructor; done | done].
Defined.

(** A string sent with [imap_append_astring] is read as an argument with the same
    bytes, and never as NIL, also when the string is NIL. *)
Theorem imap_append_astring_roundtrip fl src out max :
  plain_flags fl -> is_cstr src -> Z.of_nat (length src) < 2 ^ 64 -> Z.of_nat (length (imap_append_astring src)) + 2 <= max < 2 ^ 64 ->
  exists p' a, imap_parser_read_args (imap_parser_create (imap_append_astring src ++ [13; 10]) out max) 0 fl = Some (p', 1, Some [a; IMAP_ARG_EOL]) /\
    imap_arg_get_astring a = Some src /\ imap_arg_get_nstring a = Some (Some src).
Proof.
  intros Hfl Hs Hl Hmax. assert (Hn : no_nul src) by (eapply Forall_impl; [exact Hs |]; cbn; lia).
  assert (Hr : exists a, reads fl (imap_append_astring src) a /\ no_nul (imap_append_astring src) /\ imap_arg_get_astring a = Some src /\ imap_arg_get_nstring a = Some (Some src)).
  { destruct (append_string_reads fl Hfl src Hn Hl) as (a & Hr & Ha & Hnn). unfold imap_append_astring.
    destruct (forallb IS_ASTRING_CHAR src) eqn:Hc; cbn [negb]; [| by exists a; destruct (string_is_astring a src Ha)].
    destruct (Nat.eqb_spec (length src) 0) as [|Hne]; cbn [orb]; [by exists a; destruct (string_is_astring a src Ha) |].
    destruct (strcaseeq src (str "NIL")) eqn:Hnil; [by exists a; destruct (string_is_astring a src Ha) |].
    exists (IMAP_ARG_ATOM src). pose proof (reads_atom fl Hfl src) as Ht. unfold save_atom in Ht. rewrite Hnil, andb_false_r in Ht.
    split; [apply Ht; [by destruct src |] | split; [done | cbn; by rewrite c_str_id]]. rewrite forallb_forall in *. intros c Hin.
    apply astring_char; [by apply Hc |]. eapply Forall_forall in Hs; [| by apply list_elem_of_In]. cbn in Hs. lia. }
  destruct Hr as (a & Hr & Hnn & Ha). destruct (reads_line fl Hfl _ a out max Hr Hnn Hmax) as (p' & Hp' & _). by exists p', a.
Qed.

Lemma imap_append_astring_roundtrip_witness :
  exists p' a, imap_parser_read_args (imap_parser_create (imap_append_astring (str "nil") ++ [13; 10]) None 100) 0 0 = Some (p', 1, Some [a; IMAP_ARG_EOL]) /\
    imap_arg_get_astring a = Some (str "nil") /\ imap_arg_get_nstring a = Some (Some (str "nil")).
Proof. apply (imap_append_astring_roundtrip 0 (str "nil") None 100); [reflexivity | repeat constructor; done | done | vm_compute; done]. Defined.

(** ** Sequence sets *)

Definition range_pair (r : seq_range) : Z * Z := (seq1 r, seq2 r).

Lemma printf_seqnum n : 0 < n < UINT32_MAX -> seqnum (printf_u n) n.
Proof.
  intros Hn. destruct (printf_u_spec n ltac:(lia)) as (ds & -> & _ & Hd & Hv).
  assert (Ht : token_value ds = n) by (unfold token_value; rewrite Hv, u32_small by (unfold is_u32; lia); by rewrite (proj2 (Z.eqb_neq _ _)) by lia).
  rewrite <- Ht. apply seqnum_digits; [done |]. rewrite Ht. lia.
Qed.

Lemma range_item r : 0 < seq1 r <= seq2 r -> seq2 r < UINT32_MAX ->
  item (printf_u (seq1 r) ++ (if negb (seq1 r =? seq2 r) then [58] ++ printf_u (seq2 r) else [])) (range_pair r).
Proof.
  intros H1 H2. unfold range_pair. destruct (Z.eqb_spec (seq1 r) (seq2 r)) as [He|Hne]; cbn [negb].
  - rewrite app_nil_r, <- He. apply item_single, printf_seqnum. lia.
  - replace (seq1 r, seq2 r) with (Z.min (seq1 r) (seq2 r), Z.max (seq1 r) (seq2 r)) by (f_equal; lia). apply item_range; apply printf_seqnum; lia.
Qed.

Lemma write_seq_range_seqset l :
  Forall (fun r => 0 < seq1 r <= seq2 r /\ seq2 r < UINT32_MAX) l -> seqset (imap_write_seq_range l) (map range_pair l).
Proof.
  unfold imap_write_seq_range. induction 1 as [|r l [H1 H2] Hl IH]; [constructor |]. pose proof (range_item r H1 H2) as Hi. cbn [write_seq_range_loop app map].
  destruct l as [|r2 l]; cbn [write_seq_range_loop].
  - rewrite app_nil_r. by apply seqset_last.
  - rewrite app_assoc. by apply (seqset_cons _ _ (write_seq_range_loop true (r2 :: l))).
Qed.

Lemma in_ranges_pair l x : in_ranges x (map range_pair l) = mem x l.
Proof. induction l as [|r l IH]; [done |]. cbn. unfold in_ranges in IH. by rewrite IH. Qed.

Lemma wf_from_bounds lo l :
  0 <= lo -> wf_from lo l -> mem 0 l = false -> mem UINT32_MAX l = false -> Forall (fun r => 0 < seq1 r <= seq2 r /\ seq2 r < UINT32_MAX) l.
Proof.
  revert lo. induction l as [|r l IH]; intros lo Hlo Hw H0 Hm; [constructor |]. cbn in Hw, H0, Hm.
  constructor; [lia |]. apply (IH (seq2 r + 2)); [lia | apply Hw | |]; by destruct (mem _ l); lia.
Qed.

(** A set of messages that is written as a sequence set is parsed to the same array,
    with or without support for [*], if it has neither the number 0 nor the largest 32-bit number. *)
Theorem imap_write_seq_range_roundtrip l :
  wf l -> mem 0 l = false -> mem UINT32_MAX l = false -> Z.of_nat (length l) + 1 < INT_MAX ->
  imap_seq_set_parse (imap_write_seq_range l) [] = Some (0, l) /\ imap_seq_set_nostar_parse (imap_write_seq_range l) [] = Some (0, l).
Proof.
  intros Hwf H0 Hm Hlen. pose proof (wf_from_bounds 0 l ltac:(lia) Hwf H0 Hm) as Hb.
  destruct (add_ranges_spec (map range_pair l) []) as (d & Ha & Hwf' & Hd & Hl).
  - apply Forall_map. eapply Forall_impl; [exact Hb |]. cbn. lia.
  - done.
  - rewrite length_map. cbn. lia.
  - unfold last_count. cbn. rewrite Nat.add_0_r. replace (filter _ _) with (@nil (Z * Z)); [cbn; lia |]. symmetry. clear -Hb.
    induction Hb as [|r l [_ Hr] _ IH]; [done |]. cbn [map]. rewrite filter_cons_False; [done |]. cbn. lia.
  - assert (d = l) as -> by (apply (wf_canonical 0 0); try done; intros x; rewrite Hd, in_ranges_pair; cbn; by rewrite orb_false_r).
    assert (Hp : imap_seq_set_parse (imap_write_seq_range l) [] = Some (0, l)).
    { eapply seqset_complete; [by apply write_seq_range_seqset | done | lia]. }
    split; [done |]. unfold imap_seq_set_nostar_parse. rewrite Hp. cbn [mbind option_bind Z.ltb Z.compare].
    rewrite seq_range_exists_spec by (done || unfold len_ok; lia). by rewrite Hm.
Qed.

Lemma imap_write_seq_range_roundtrip_witness :
  imap_seq_set_parse (imap_write_seq_range [SR 1 1; SR 5 9; SR 12 4294967294]) [] = Some (0, [SR 1 1; SR 5 9; SR 12 4294967294]) /\
  imap_seq_set_nostar_parse (imap_write_seq_range [SR 1 1; SR 5 9; SR 12 4294967294]) [] = Some (0, [SR 1 1; SR 5 9; SR 12 4294967294]).
Proof. apply (imap_write_seq_range_roundtrip [SR 1 1; SR 5 9; SR 12 4294967294]); [cbn; lia | reflexivity | reflexivity | reflexivity]. Defined.

(** ** Flags *)

(** The words of the system flags that are set. *)
Definition system_flags : list (Z * list Z) :=
  [(MAIL_ANSWERED, str "\Answered"); (MAIL_FLAGGED, str "\Flagged"); (MAIL_DELETED, str "\Deleted"); (MAIL_SEEN, str "\Seen");
   (MAIL_DRAFT, str "\Draft"); (MAIL_RECENT, str "\Recent")].

Definition flag_words (flags : Z) : list (list Z) :=
  flat_map (fun '(f, name) => if negb (Z.land flags f =? 0) then [name] else []) system_flags.

Lemma write_flags_words flags keywords :
  imap_write_flags flags keywords =
  (let dest := flat_map (fun w => w ++ [32]) (flag_words flags ++ keywords) in
   if negb (length dest =? 0)%nat then take (length dest - 1) dest else dest).
Proof.
  unfold imap_write_flags. cbv zeta.
  assert (Hcut : forall d1 d2 : list Z, d1 = d2 ->
    (if negb (length d1 =? 0)%nat then take (length d1 - 1) d1 else d1) = (if negb (length d2 =? 0)%nat then take (length d2 - 1) d2 else d2)) by (by intros ? ? ->).
  apply Hcut.
  rewrite flat_map_app. unfold flag_words, system_flags. cbn [flat_map]. rewrite !flat_map_app, <- !app_assoc.
  repeat (match goal with |- context [negb (Z.land flags ?f =? 0)] => destruct (negb (Z.land flags f =? 0)) end); reflexivity.
Qed.

Lemma spaced_words w ws : flat_map (fun w => w ++ [32]) (w :: ws) = (w ++ flat_map (fun w => 32 :: w) ws) ++ [32].
Proof.
  revert w. induction ws as [|w2 ws IH]; intros w; cbn [flat_map app]; [by rewrite !app_nil_r |].
  change (w2 ++ [32]) with (w2 ++ [32]). rewrite <- (app_assoc w). cbn [app]. rewrite <- (app_assoc w). f_equal. cbn [app]. f_equal. apply (IH w2).
Qed.

Lemma write_words ws first :
  Forall no_nul ws ->
  write_args_loop write_arg first (map IMAP_ARG_ATOM ws ++ [IMAP_ARG_EOL]) =
  Some (match ws with [] => [] | w :: ws => (if first then [] else [32]) ++ w ++ flat_map (fun w => 32 :: w) ws end).
Proof.
  intros H. revert first. induction H as [|w ws Hw _ IH]; intros first; [done |]. cbn [map app write_args_loop write_arg]. change (IMAP_ARG_IS_EOL (IMAP_ARG_ATOM w)) with false.
  cbv iota. rewrite IH. unfold imap_arg_as_astring. cbn [imap_arg_get_astring]. rewrite c_str_id by done. cbn [mbind option_bind]. by destruct ws.
Qed.

Definition keyword_ok (w : list Z) : bool := writable (IMAP_ARG_ATOM w) && (imap_parse_system_flag w =? 0).

Lemma flag_words_ok flags :
  Forall (fun w => writable (IMAP_ARG_ATOM w) = true) (flag_words flags) /\
  fold_right Z.lor 0 (map imap_parse_system_flag (flag_words flags)) = Z.land flags 0x3f /\
  filter (fun w => imap_parse_system_flag w = 0) (flag_words flags) = [].
Proof.
  assert (Hf : flag_words flags = flag_words (Z.land flags 0x3f)).
  { unfold flag_words, system_flags. cbn [flat_map]. unfold MAIL_ANSWERED, MAIL_FLAGGED, MAIL_DELETED, MAIL_SEEN, MAIL_DRAFT, MAIL_RECENT. by rewrite <- !Z.land_assoc. }
  rewrite Hf. set (b := Z.land flags 0x3f). assert (Hb : is_byte b).
  { subst b. unfold is_byte. change 0x3f with (Z.ones 6). rewrite Z.land_ones by lia. pose proof (Z.mod_pos_bound flags (2 ^ 6)). lia. }
  assert (Hsmall : b < 64).
  { subst b. change 0x3f with (Z.ones 6). rewrite Z.land_ones by lia. apply (Z.mod_pos_bound flags (2 ^ 6)). lia. }
  clearbody b. clear Hf.
  pose (ok := fun b => implb (b <? 64) (forallb (fun w => writable (IMAP_ARG_ATOM w)) (flag_words b) &&
    (fold_right Z.lor 0 (map imap_parse_system_flag (flag_words b)) =? b) && bool_decide (filter (fun w => imap_parse_system_flag w = 0) (flag_words b) = []))).
  assert (Hok : ok b = true) by (apply (byte_forall ok); [vm_compute; reflexivity | done]).
  unfold ok in Hok. rewrite (proj2 (Z.ltb_lt _ _) Hsmall) in Hok. cbn [implb] in Hok. rewrite !andb_true_iff in Hok. destruct Hok as [[H1 H2] H3].
  split; [| split; [by apply Z.eqb_eq | by apply bool_decide_eq_true in H3]]. rewrite forallb_forall in H1. apply Forall_forall. intros w Hw. by apply H1, list_elem_of_In.
Qed.

(** The flags of a message that are sent in parentheses are read as a list
    of atoms, in which [imap_parse_system_flag] finds exactly the system flags
    of the message, and the other atoms are its keywords, in order. *)
Theorem imap_write_flags_roundtrip fl flags keywords out max :
  plain_flags fl -> Forall (fun w => keyword_ok w = true) keywords ->
  Z.of_nat (length (imap_write_flags flags keywords)) + 4 <= max < 2 ^ 64 ->
  exists p' ws, imap_parser_read_args (imap_parser_create ([40] ++ imap_write_flags flags keywords ++ [41; 13; 10]) out max) 0 fl =
      Some (p', 1, Some [IMAP_ARG_LIST (map IMAP_ARG_ATOM ws ++ [IMAP_ARG_EOL]); IMAP_ARG_EOL]) /\
    fold_right Z.lor 0 (map imap_parse_system_flag ws) = Z.land flags 0x3f /\
    filter (fun w => imap_parse_system_flag w = 0) ws = keywords.
Proof.
  intros Hfl Hk Hmax. destruct (flag_words_ok flags) as (Hsys & Hparse & Hfilter). set (ws := flag_words flags ++ keywords).
  assert (Hw : Forall (fun w => writable (IMAP_ARG_ATOM w) = true) ws).
  { apply Forall_app. split; [done |]. eapply Forall_impl; [exact Hk |]. intros w [? _]%andb_true_iff. done. }
  assert (Hn : Forall no_nul ws).
  { eapply Forall_impl; [exact Hw |]. cbn. intros w H. rewrite !andb_true_iff in H. destruct H as [[_ H] _]. by eapply forallb_no_nul, H. }
  destruct (written_list fl (map IMAP_ARG_ATOM ws) true) as (t & Ht & Hnul & Hr).
  { apply Forall_map, Forall_true. intros w. by apply written_atom. } { by apply Forall_map. }
  assert (Htext : imap_write_flags flags keywords = t).
  { rewrite write_words in Ht by done. injection Ht as <-. rewrite write_flags_words. cbv zeta. fold ws. destruct ws as [|w ws]; [done |].
    rewrite spaced_words, length_app. cbn [length app]. rewrite (proj2 (Nat.eqb_neq _ _)) by lia. cbn [negb]. by rewrite Nat.add_sub, take_app_length. }
  rewrite Htext in *. unfold small in Hnul. rewrite app_assoc.
  destruct (reads_line fl Hfl ([40] ++ t ++ [41]) (IMAP_ARG_LIST (map IMAP_ARG_ATOM ws ++ [IMAP_ARG_EOL])) out max) as (p' & Hp' & _).
  - by apply reads_parens.
  - constructor; [done |]. apply Forall_app. split; [apply Hnul; lia | by repeat constructor].
  - cbn [app length]. rewrite length_app. cbn. lia.
  - exists p', ws. split; [| split].
    + rewrite <- Hp'. do 2 f_equal. by rewrite <- !app_assoc.
    + unfold ws. rewrite map_app, fold_right_app. rewrite <- Hparse. f_equal. clear -Hk. induction Hk as [|w l Hw _ IH]; [done |]. cbn [map fold_right].
      rewrite IH. unfold keyword_ok in Hw. apply andb_true_iff in Hw. destruct Hw as [_ Hw]. apply Z.eqb_eq in Hw. by rewrite Hw.
    + unfold ws. rewrite filter_app, Hfilter. cbn [app]. clear -Hk. induction Hk as [|w l Hw _ IH]; [done |].
      unfold keyword_ok in Hw. apply andb_true_iff in Hw. destruct Hw as [_ Hw]. apply Z.eqb_eq in Hw. by rewrite filter_cons_True, IH.
Qed.

Lemma imap_write_flags_roundtrip_witness :
  exists p' ws, imap_parser_read_args (imap_parser_create ([40] ++ imap_write_flags 9 [str "Junk"; str "$MDNSent"] ++ [41; 13; 10]) None 100) 0 0 =
      Some (p', 1, Some [IMAP_ARG_LIST (map IMAP_ARG_ATOM ws ++ [IMAP_ARG_EOL]); IMAP_ARG_EOL]) /\
    fold_right Z.lor 0 (map imap_parse_system_flag ws) = Z.land 9 0x3f /\
    filter (fun w => imap_parse_system_flag w = 0) ws = [str "Junk"; str "$MDNSent"].
Proof. apply (imap_write_flags_roundtrip 0 9 [str "Junk"; str "$MDNSent"] None 100); [reflexivity | repeat constructor | vm_compute; done]. Defined.

(** ** Strings for humans *)

Definition lwsp (c : Z) : bool := (c =? 9) || (c =? 32).

(** Without line breaks, and NUL replaced. *)
Definition clean (s : list Z) : list Z := flat_map (fun c => if (c =? 13) || (c =? 10) then [] else if c =? 0 then [128] else [c]) s.

(** The words between spaces and tabs; [w] is the word that was begun. *)
Fixpoint words (w : list Z) (s : list Z) : list (list Z) :=
  match s with
  | [] => match w with [] => [] | _ => [w] end
  | c :: s => if lwsp c then match w with [] => words [] s | _ => w :: words [] s end else words (w ++ [c]) s
  end.

Definition join (ws : list (list Z)) : list Z := match ws with [] => [] | w :: ws => w ++ flat_map (fun w => 32 :: w) ws end.

(** The words of a string with single spaces between them. *)
Definition humanize (s : list Z) : list Z := join (words [] (clean s)).

(** What the loop writes for the clean string, and [last_lwsp] at its end. *)
Fixpoint emit (lw : bool) (s : list Z) : list Z :=
  match s with
  | [] => []
  | c :: s => if lwsp c then (if lw then emit true s else 32 :: emit true s) else c :: emit false s
  end.

Fixpoint last_lw (lw : bool) (s : list Z) : bool := match s with [] => lw | c :: s => last_lw (lwsp c) s end.

Definition cut (lw : bool) (s : list Z) : list Z :=
  if last_lw lw s && negb (lw && forallb lwsp s) then removelast (emit lw s) else emit lw s.

Lemma lwsp_only s : forallb lwsp s = true -> words [] s = [] /\ emit true s = [] /\ last_lw true s = true.
Proof. induction s as [|c s IH]; [done |]. cbn. by intros [-> H]%andb_true_iff; auto. Qed.

Lemma words_begun w s : w <> [] -> words w s <> [].
Proof. revert w. induction s as [|c s IH]; intros w Hw; cbn; [by destruct w |]. destruct (lwsp c); [by destruct w |]. apply IH. by destruct w. Qed.

Lemma lwsp_not s : forallb lwsp s = false -> words [] s <> [] /\ emit true s <> [].
Proof. induction s as [|c s IH]; [done |]. cbn. destruct (lwsp c); cbn; [auto |]. intros _. split; [by apply words_begun | done]. Qed.

Lemma removelast_cons (c : Z) l : l <> [] -> removelast (c :: l) = c :: removelast l.
Proof. by destruct l. Qed.

Lemma last_lw_emit s : last_lw false s = true -> emit false s <> [].
Proof. destruct s as [|c s]; [done |]. cbn. by destruct (lwsp c). Qed.

Lemma cut_char lw c s : lwsp c = false -> cut lw (c :: s) = c :: cut false s.
Proof.
  intros Hc. unfold cut. cbn [last_lw forallb emit]. rewrite Hc, andb_false_r. cbn [negb andb]. rewrite !andb_true_r.
  destruct (last_lw false s) eqn:Hl; [| done]. apply removelast_cons. by apply last_lw_emit.
Qed.

Lemma join_cut s : (forall w, w <> [] -> join (words w s) = w ++ cut false s) /\ join (words [] s) = cut true s.
Proof.
  induction s as [|c s [IHw IH]].
  - split; [| done]. intros w Hw. cbn. destruct w; [done |]. cbn. by rewrite !app_nil_r.
  - destruct (lwsp c) eqn:Hc.
    + split; [| cbn [words]; rewrite Hc, IH; unfold cut; cbn [last_lw forallb emit]; by rewrite Hc].
      intros w Hw. cbn [words]. rewrite Hc. replace (match w with [] => words [] s | _ => w :: words [] s end) with (w :: words [] s) by (by destruct w).
      unfold cut. cbn [last_lw forallb emit andb negb]. rewrite Hc, andb_true_r. destruct (forallb lwsp s) eqn:Hall.
      * destruct (lwsp_only s Hall) as (-> & -> & ->). cbn. by rewrite app_nil_r.
      * destruct (lwsp_not s Hall) as [Hne He]. cbn [join]. f_equal. unfold cut in IH. rewrite Hall in IH. cbn [andb negb] in IH. rewrite andb_true_r in IH.
        rewrite removelast_cons by done. destruct (words [] s) as [|w2 ws]; [done |]. cbn [join flat_map] in *. cbn [app]. rewrite IH. by destruct (last_lw true s).
    + split; [| cbn [words]; rewrite Hc, cut_char by done; by apply (IHw [c])]. intros w Hw. cbn [words].
      rewrite Hc, cut_char, IHw by (done || by destruct w). by rewrite <- app_assoc.
Qed.

Lemma clean_cons c s : clean (c :: s) = (if (c =? 13) || (c =? 10) then [] else if c =? 0 then [128] else [c]) ++ clean s.
Proof. done. Qed.

Lemma write_fold s wp lw dest :
  (wp = true -> lw = true) ->
  fold_left humans_write1 s (wp, lw, dest) = (wp && forallb lwsp (clean s), last_lw lw (clean s), dest ++ emit lw (clean s)).
Proof.
  revert wp lw dest. induction s as [|c s IH]; intros wp lw dest Hwp; cbn [fold_left]; [cbn; by rewrite andb_true_r, app_nil_r |].
  rewrite clean_cons. unfold humans_write1 at 2. destruct (Z.eqb_spec c 0) as [->|H0].
  - cbn [negb Z.eqb Pos.eqb orb app last_lw forallb emit lwsp]. rewrite IH by done. cbn [andb]. by rewrite andb_false_r, <- app_assoc.
  - fold (lwsp c). destruct (lwsp c) eqn:Hc.
    + assert ((c =? 13) || (c =? 10) = false) as -> by (unfold lwsp in Hc; lia). cbn [negb app last_lw forallb emit]. rewrite Hc, IH by done. cbn [andb].
      destruct lw; cbn [negb]; [done | by rewrite <- app_assoc].
    + destruct ((c =? 13) || (c =? 10)); cbn [app].
      * rewrite IH; [| by destruct lw]. destruct lw; [done |]. cbn [negb andb]. destruct wp; [by specialize (Hwp eq_refl) | done].
      * cbn [negb last_lw forallb emit]. rewrite Hc, IH by done. cbn [andb]. by rewrite andb_false_r, <- app_assoc.
Qed.

Lemma humans_write_spec s : humans_write s = humanize s.
Proof.
  unfold humans_write, humanize. rewrite write_fold by done. cbn [app andb]. rewrite (proj2 (join_cut (clean s))). unfold cut. cbn [andb].
  destruct (last_lw true (clean s) && negb (forallb lwsp (clean s))) eqn:Hc.
  - destruct s as [|c s]; [done |]. apply andb_true_iff in Hc. destruct Hc as [-> ->]. cbn [length Nat.ltb Nat.leb andb].
    set (d := emit true _). by rewrite removelast_firstn_len, Nat.sub_1_r.
  - apply andb_false_iff in Hc. destruct Hc as [-> | ->]; [done | by rewrite andb_false_r].
Qed.

(** The characters that need no quoting. *)
Definition plain_char (c : Z) : bool := string_char c && negb (c =? 34) && negb (c =? 92).

Lemma check_fold s wp lw m rc :
  (wp = true -> lw = true) -> exists m',
  fold_left humans_check1 s (wp, lw, m, rc) = (wp && forallb lwsp (clean s), last_lw lw (clean s), m', (rc + (length s - length (emit lw (clean s))))%nat) /\
  (length (emit lw (clean s)) <= length s)%nat /\ (m' = false -> m = false /\ emit lw (clean s) = s /\ forallb plain_char s = true).
Proof.
  revert wp lw m rc. induction s as [|c s IH]; intros wp lw m rc Hwp; cbn [fold_left].
  { exists m. cbn. rewrite andb_true_r, Nat.add_0_r. auto. }
  rewrite clean_cons. unfold humans_check1 at 2. destruct (Z.eqb_spec c 0) as [->|H0].
  { cbn [negb Z.eqb Pos.eqb orb app last_lw forallb emit lwsp]. destruct (IH false false true rc ltac:(done)) as (m' & -> & Hl & Hm).
    exists m'. cbn [andb length]. rewrite andb_false_r. split; [done |]. split; [lia |]. intros H. by destruct (Hm H). }
  fold (lwsp c). destruct (lwsp c) eqn:Hc.
  { assert ((c =? 13) || (c =? 10) = false) as -> by (unfold lwsp in Hc; lia). cbn [negb app last_lw forallb emit]. rewrite Hc. cbn [andb].
    destruct lw; cbv zeta; cbn [negb].
    - destruct (IH wp true true (S rc) ltac:(done)) as (m' & -> & Hl & Hm). exists m'. cbn [length]. split; [f_equal; lia |]. split; [lia |]. intros H. by destruct (Hm H).
    - destruct (IH wp true (if c =? 9 then true else m) rc ltac:(done)) as (m' & -> & Hl & Hm). exists m'. cbn [length]. split; [done |]. split; [lia |].
      intros H. destruct (Hm H) as (H1 & H2 & H3). destruct (Z.eqb_spec c 9); [done |]. assert (c = 32) as -> by (unfold lwsp in Hc; lia).
      split; [done |]. split; [by rewrite H2 | by cbn]. }
  destruct ((c =? 13) || (c =? 10)) eqn:Hl; cbn [app].
  { destruct (IH (if negb lw then false else wp) lw true (S rc)) as (m' & -> & Hlen & Hm); [by destruct lw |]. exists m'. cbn [length].
    split; [destruct lw; [f_equal; lia |]; destruct wp; [by specialize (Hwp eq_refl) |]; cbn [negb andb]; f_equal; lia |]. split; [lia |].
    intros H. by destruct (Hm H). }
  cbn [app last_lw forallb emit]. rewrite Hc. cbn [andb].
  set (m1 := if (c =? 34) || (c =? 92) then true else if negb (Z.land c 128 =? 0) then true else m).
  destruct (IH false false m1 rc ltac:(done)) as (m' & Hf & Hlen & Hm). exists m'. rewrite andb_false_r. cbn [length].
  split; [transitivity (fold_left humans_check1 s (false, false, m1, rc)); [subst m1; by destruct ((c =? 34) || (c =? 92)) | exact Hf] |]. split; [lia |]. intros H. destruct (Hm H) as (H1 & H2 & H3). subst m1.
  destruct ((c =? 34) || (c =? 92)) eqn:Hq; [done |]. split; [by destruct (negb (Z.land c 128 =? 0)) |]. split; [by rewrite H2 |]. rewrite H3, andb_true_r.
  unfold plain_char, string_char, is_linebreak. lia.
Qed.

Lemma cut_length lw s : (length (cut lw s) = length (emit lw s) - (if last_lw lw s && negb (lw && forallb lwsp s) then 1 else 0))%nat.
Proof. unfold cut. destruct (_ && _); [| lia]. rewrite removelast_firstn_len, length_take. lia. Qed.

(** What the first loop finds out. *)
Lemma humans_check_spec s : exists m,
  humans_check s = (m, (length s - length (humanize s))%nat) /\ (length (humanize s) <= length s)%nat /\
  (m = false -> humanize s = s /\ forallb plain_char s = true).
Proof.
  unfold humans_check, humanize. destruct (check_fold s true true false 0 ltac:(done)) as (m & -> & Hl & Hm). cbn [andb Nat.add].
  rewrite (proj2 (join_cut (clean s))). pose proof (cut_length true (clean s)) as Hcut. cbn [andb] in Hcut.
  assert (Hne : last_lw true (clean s) && negb (forallb lwsp (clean s)) = true -> s <> [] /\ emit true (clean s) <> []).
  { intros [_ H%negb_true_iff]%andb_true_iff. split; [by intros -> | by apply lwsp_not]. }
  destruct (last_lw true (clean s)) eqn:Hlast, (forallb lwsp (clean s)) eqn:Hall; cbn [andb negb] in *.
  2: { destruct (Hne eq_refl) as [Hs He]. destruct s as [|c s]; [done |]. cbn [length Nat.ltb Nat.leb andb]. exists true. rewrite Hcut.
       destruct (emit true (clean (c :: s))) as [|e l]; [done |]. cbn [length] in *. split; [f_equal; lia |]. split; [lia | done]. }
  all: exists m; rewrite ?andb_false_r, Hcut, Nat.sub_0_r; split; [done |]; split; [done |]; intros H; destruct (Hm H) as (_ & He & Hp); split; [| done];
    unfold cut; rewrite Hlast, Hall; exact He.
Qed.

Lemma plain_body s : forallb plain_char s = true -> quoted_body s /\ str_unescape_loop s = s.
Proof.
  induction s as [|c s IH]; [split; [constructor | done] |]. cbn [forallb]. intros [Hc Hs]%andb_true_iff. destruct (IH Hs) as [Hq Hu].
  unfold plain_char, string_char in Hc. cbn [str_unescape_loop]. rewrite (proj2 (Z.eqb_neq c 92)), Hu by lia. split; [| done].
  constructor; [lia | lia | | done]. destruct (is_linebreak c); [lia | done].
Qed.

Lemma emit_no_nul lw s : no_nul s -> no_nul (emit lw s).
Proof. intros H. revert lw. induction H as [|c s Hc _ IH]; intros lw; cbn; [constructor |]. destruct (lwsp c), lw; try apply IH; constructor; try done; apply IH. Qed.

Lemma humanize_no_nul s : no_nul (humanize s).
Proof.
  unfold humanize. rewrite (proj2 (join_cut (clean s))).
  assert (He : no_nul (emit true (clean s))).
  { apply emit_no_nul. induction s as [|c s IH]; [constructor |]. rewrite clean_cons. apply Forall_app. split; [| done].
    destruct (_ || _); [constructor |]. destruct (Z.eqb_spec c 0); by repeat constructor. }
  unfold cut. destruct (_ && _); [| done]. rewrite removelast_firstn_len. by apply Forall_take.
Qed.

(** C27: What [imap_append_string_for_humans] writes has the size it announces, so
    that its assertion holds for every input, NUL bytes included, and is read as the words
    of the input with single spaces between them, without line breaks and with NULs replaced. *)
Theorem imap_append_string_for_humans_correct fl src out max :
  plain_flags fl -> Z.of_nat (length src) < 2 ^ 64 ->
  exists t, imap_append_string_for_humans src = Some t /\
    (Z.of_nat (length t) + 2 <= max < 2 ^ 64 -> exists p' a,
       imap_parser_read_args (imap_parser_create (t ++ [13; 10]) out max) 0 fl = Some (p', 1, Some [a; IMAP_ARG_EOL]) /\ imap_arg_get_string a = Some (humanize src)).
Proof.
  intros Hfl Hlen. pose proof (humanize_no_nul src) as Hn.
  assert (Hr : exists t a, imap_append_string_for_humans src = Some t /\ reads fl t a /\ no_nul t /\ imap_arg_get_string a = Some (humanize src)).
  { unfold imap_append_string_for_humans. destruct (humans_check_spec src) as (m & -> & Hle & Hm). destruct m; cbn [negb].
    - destruct (Nat.eqb_spec (length src) (length src - length (humanize src))) as [He|He].
      + assert (humanize src = []) as -> by (apply nil_length_inv; lia). eexists _, _. split; [done |]. split; [apply (reads_quoted fl Hfl []); constructor |]. split; [by repeat constructor | done].
      + rewrite humans_write_spec, assert_true by (apply Nat.eqb_eq; lia). cbn [mbind option_bind].
        replace (length src - (length src - length (humanize src)))%nat with (length (humanize src)) by lia.
        eexists _, _. split; [done |]. split; [apply (reads_literal fl Hfl) |]. split; [apply literal_no_nul; [done | lia] | by apply literal_arg_string].
    - destruct (Hm eq_refl) as [He Hp]. destruct (plain_body src Hp) as [Hq Hu]. rewrite He in *. eexists _, _. split; [done |].
      split; [by apply reads_quoted |]. rewrite Hu. split; [| cbn; by rewrite c_str_id]. constructor; [done |]. apply Forall_app. split; [done | by repeat constructor]. }
  destruct Hr as (t & a & Ht & Hr & Hnt & Ha). exists t. split; [done |]. intros Hmax. destruct (reads_line fl Hfl t a out max Hr Hnt Hmax) as (p' & Hp' & _). by exists p', a.
Qed.

Lemma imap_append_string_for_humans_correct_witness :
  exists t, imap_append_string_for_humans [32; 97; 9; 32; 0; 13; 10; 98; 32] = Some t /\
    (Z.of_nat (length t) + 2 <= 100 < 2 ^ 64 -> exists p' a,
       imap_parser_read_args (imap_parser_create (t ++ [13; 10]) None 100) 0 0 = Some (p', 1, Some [a; IMAP_ARG_EOL]) /\
       imap_arg_get_string a = Some (humanize [32; 97; 9; 32; 0; 13; 10; 98; 32])).
Proof. apply (imap_append_string_for_humans_correct 0 [32; 97; 9; 32; 0; 13; 10; 98; 32] None 100); reflexivity. Defined.
