(* ===== verification/ImapParserLimits.v ===== *)
(** * The parser of IMAP commands: limits

    Input at the edge of what the parser can handle: sizes of literals that
    do not fit 64 bits, NUL bytes in quoted strings, and lines that are finished
    by the caller. *)

From S2P Require Import Prelude Strnum Strescape ImapArg ImapParser ImapParserProps ImapParserStream ImapParserCalls ImapParserText.

(** ** Sizes of literals *)

(** The smallest number to which a digit can be appended so that it no longer fits. *)
Notation WRAP_MIN := 1844674407370955161%Z.











(** A size that wraps is returned to a caller that only asks for the size. *)
Lemma literal_size_wrapped :
  exists p', imap_parser_read_args (imap_parser_create (str "{30000000000000000000}" ++ [13; 10]) None 100) 0 IMAP_PARSE_FLAG_LITERAL_SIZE =
    Some (p', 1, Some [IMAP_ARG_LITERAL_SIZE 11553255926290448384 false; IMAP_ARG_EOL]).
Proof. eexists. vm_compute. reflexivity. Qed.

(** ** NUL bytes in quoted strings *)

Lemma read_arg_quote p e :
  input p = 34 :: e -> cur_type p = ARG_PARSE_NONE -> cur_pos p = 0%nat -> cur_resp_text p = false ->
  exists q, imap_parser_read_arg p = finish_arg (read_string_loop q e 1) /\
    input q = 34 :: e /\ cur_type q = ARG_PARSE_STRING /\ str_first_escape q = -1 /\ flags q = flags p.
Proof.
  intros Hin Ht Hpos Htext. exists (set_cur_pos 1 (set_str_first_escape (-1) (set_cur_type ARG_PARSE_STRING (skipped p)))).
  assert (Hskip : input (skipped p) = 34 :: e) by (unfold skipped; cbn [set_cur_pos counted set_input input]; by rewrite Hpos, Hin).
  split; [| done]. unfold imap_parser_read_arg. rewrite Hin. cbn [length Nat.eqb].
  assert (Hs : start_arg (skipped p) = Some (set_str_first_escape (-1) (set_cur_type ARG_PARSE_STRING (skipped p)), None)) by (unfold start_arg; by rewrite Hskip).
  set (x := set_str_first_escape (-1) (set_cur_type ARG_PARSE_STRING (skipped p))) in *.
  assert (Hb : begin_loop (S (S (S (length e)))) p = Some (set_cur_pos 1 x, None)).
  { cbn [begin_loop]. unfold type_is_none at 1. rewrite bool_decide_eq_true_2 by done. cbn [negb]. rewrite skip_to_next_ok by (rewrite Hpos; lia).
    rewrite Hskip. cbn [length Nat.ltb Nat.leb negb]. change (cur_pos (skipped p)) with 0%nat. cbn [assert Nat.eqb mbind option_bind].
    change (cur_resp_text (skipped p)) with (cur_resp_text p). rewrite Htext. cbn [mbind option_bind]. rewrite Hs. done. }
  rewrite Hb. cbn [mbind option_bind]. change (finish_arg (continue_arg (set_cur_pos 1 x)) = finish_arg (read_string_loop (set_cur_pos 1 x) e 1)). f_equal.
  rewrite continue_eq by (change (input (set_cur_pos 1 x)) with (input (skipped p)); rewrite Hskip; cbn; lia). change (cur_type (set_cur_pos 1 x)) with ARG_PARSE_STRING.
  cbv iota. unfold imap_parser_read_string. change (input (set_cur_pos 1 x)) with (input (skipped p)). rewrite Hskip. cbn [drop cur_pos set_cur_pos]. by rewrite drop_0.
Qed.

Lemma no_escape_in a d : no_escape (a ++ 92 :: d) -> False.
Proof. intros [_ H]%Forall_app. by inversion H. Qed.

Lemma escape_split a d a' d' : a ++ 92 :: d = a' ++ 92 :: d' -> no_escape a -> no_escape a' -> a = a'.
Proof.
  revert a'. induction a as [|c a IH]; intros [|c' a'] He Ha Ha'; [done | | |]; cbn in He; injection He as Hc He; subst.
  - by inversion Ha'.
  - by inversion Ha.
  - inversion Ha; inversion Ha'; subst. f_equal. by apply IH.
Qed.

(** C26: A NUL in a quoted string makes the parser remove the backslashes behind
    it at a place outside of the copy of the string, which ends at the NUL: for every
    quoted string with a NUL before the first backslash, reading arguments accesses
    memory outside of a buffer, whatever the count and the other flags, unless
    backslashes are to be kept. *)
Theorem imap_parser_quoted_nul a b d rest count fl out max :
  quoted_body (a ++ 0 :: b ++ 92 :: d) -> no_nul a -> no_escape a -> no_escape b -> Z.land fl IMAP_PARSE_FLAG_NO_UNESCAPE = 0 ->
  imap_parser_read_args (imap_parser_create ([34] ++ (a ++ 0 :: b ++ 92 :: d) ++ 34 :: rest) out max) count fl = None.
Proof.
  intros Hq Hn Ha Hb Hfl. set (e := a ++ 0 :: b ++ 92 :: d) in *. set (p := imap_parser_create _ out max). rewrite read_args_eq.
  change (prepare fl p) with (Some (set_flags fl p)). cbn [mbind option_bind].
  assert (Hr : imap_parser_read_arg (set_flags fl p) = None).
  { destruct (read_arg_quote (set_flags fl p) (e ++ 34 :: rest)) as (q & -> & Hin & Ht & Hfe & Hf); try done.
    destruct (string_loop_run q e rest 1 Hq) as (fe & -> & _ & Hesc). rewrite Hfe in Hesc.
    assert (He : e = (a ++ 0 :: b) ++ 92 :: d) by (subst e; by rewrite <- app_assoc).
    destruct (Hesc ltac:(lia)) as [[_ Hno] | (a' & b' & He' & Ha' & ->)]; [rewrite He in Hno; by apply no_escape_in in Hno |].
    assert (a ++ 0 :: b = a') as <- by (apply (escape_split _ d _ b'); [congruence | apply Forall_app; split; [done | by constructor] | done]).
    unfold save_stop, imap_parser_save_arg. change (input (set_str_first_escape _ q)) with (input q). rewrite Hin. cbn [take Nat.add]. rewrite take_app_length.
    unfold arg_of_data. cbn [set_str_first_escape cur_type str_first_escape]. rewrite Ht. cbn [length Nat.ltb Nat.leb assert mbind option_bind drop]. rewrite drop_0.
    change (has_flag (set_str_first_escape _ q)) with (has_flag q). unfold has_flag. rewrite Hf. change (flags (set_flags fl p)) with fl. rewrite Hfl.
    cbn [Z.eqb negb]. rewrite andb_true_r, (proj2 (Z.leb_le _ _)) by lia. unfold e. rewrite c_str_app by done. unfold unescape_from.
    rewrite (proj2 (Z.leb_gt _ _)); [done |]. rewrite length_app. cbn [length]. lia. }
  destruct (read_args_fuel (set_flags fl p)) as [|n] eqn:Hfuel; [done |]. cbn [read_args_loop]. rewrite Hr.
  replace (negb (eol (set_flags fl p)) && _) with true; [done |]. cbn. destruct count; done.
Qed.

Lemma imap_parser_quoted_nul_witness :
  imap_parser_read_args (imap_parser_create ([34] ++ ([120] ++ 0 :: [121] ++ 92 :: [34]) ++ 34 :: [13; 10]) None 100) 0 0 = None.
Proof.
  apply (imap_parser_quoted_nul [120] [121] [34] [13; 10] 0 0 None 100); [repeat constructor; lia | repeat constructor; lia | repeat constructor; lia | repeat constructor; lia | reflexivity].
Defined.

(** ** Lines that the caller finishes *)

Lemma root_append_length a q : (root_after q = [] \/ list_is_open q = true) -> root_list (root_append a q) = root_list q ++ [a].
Proof. intros H. destruct (root_append_list a q) as [? | [H1 H2]]; [done |]. destruct H; congruence. Qed.

(** Finishing a line again appends a second end marker. *)
Lemma finish_line_again x p1 ret args :
  root_after x = [] -> finish_line x = (p1, ret, Some args) -> exists p2, finish_line p1 = (p2, ret + 1, Some (args ++ [IMAP_ARG_EOL])).
Proof.
  intros Ha H. unfold finish_line in H. set (y := set_cur_resp_text false (set_cur_pos 0 (skip_counted (cur_pos x) x))) in *.
  assert (Hy : root_list y = root_list x /\ root_after y = []).
  { subst y. unfold root_list, skip_counted, i_stream_skip. destruct (_ <=? _)%nat; done. }
  destruct (list_is_open y && negb (literal_size_return y) && negb (has_flag y IMAP_PARSE_FLAG_STOP_AT_LIST)) eqn:Hc; [done |]. injection H as <- <- <-.
  clearbody y. destruct Hy as [Hl Hay]. set (z := root_append IMAP_ARG_EOL y).
  assert (Hz : list_is_open z = list_is_open y /\ literal_size_return z = literal_size_return y /\ has_flag z = has_flag y /\ (root_after z = [] \/ list_is_open z = true)).
  { subst z. unfold root_append. destruct (list_is_open y) eqn:Ho; cbn; (split; [exact Ho |]); (split; [done |]); (split; [done |]); [right; exact Ho | by left]. }
  destruct Hz as (Ho & Hr & Hf & Haz). unfold finish_line. change (root_list (set_args_added_extra_eol true z)) with (root_list z).
  assert (Hz : root_list z = root_list y ++ [IMAP_ARG_EOL]) by (apply root_append_length; by left).
  set (w := set_cur_resp_text false (set_cur_pos 0 (skip_counted (cur_pos (set_args_added_extra_eol true z)) (set_args_added_extra_eol true z)))).
  assert (Hw : list_is_open w = list_is_open z /\ literal_size_return w = literal_size_return z /\ has_flag w = has_flag z /\ root_list w = root_list z /\ root_after w = root_after z).
  { subst w. unfold root_list, skip_counted, i_stream_skip, list_is_open. destruct (_ <=? _)%nat; done. }
  clearbody w z. destruct Hw as (Ho' & Hr' & Hf' & Hl' & Ha'). rewrite Ho', Hr', Hf', Ho, Hr, Hf, Hc. eexists. f_equal; [f_equal |].
  - rewrite Hz, Hl, length_app. cbn. lia.
  - f_equal. change (root_list (set_args_added_extra_eol true (root_append IMAP_ARG_EOL w))) with (root_list (root_append IMAP_ARG_EOL w)).
    rewrite root_append_length by (rewrite Ha', Ho'; done). by rewrite Hl'.
Qed.

(** When the line has ended before the data, [imap_parser_finish_line] does not return
    what [imap_parser_read_args] returns: it counts the end marker as an argument and appends another one. *)
Theorem imap_parser_finish_line_count p count fl p1 ret args :
  reachable p -> error p = None -> imap_parser_read_args p count fl = Some (p1, ret, Some args) ->
  exists p2, imap_parser_finish_line p count fl = Some (p2, ret + 1, Some (args ++ [IMAP_ARG_EOL])).
Proof.
  intros Hreach He Hr. destruct (parser_reachable_ok p Hreach) as [_ Hp].
  destruct (read_args_runs p count fl (Hp He)) as (p0 & x & _ & _ & _ & _ & Hinv & _ & _ & _ & _ & Hc). rewrite Hr in Hc. injection Hc as Hc.
  assert (Hf : finish_line x = (p1, ret, Some args) /\ error x = None).
  { unfold conclude in Hc. destruct (error x); [done |]. destruct (_ || _ || _); [by rewrite Hc | done]. }
  destruct Hf as [Hf Hx]. destruct (finish_line_again x p1 ret args) as (p2 & H2); [by apply inv_after, Hinv | done |].
  exists p2. unfold imap_parser_finish_line. rewrite Hr. cbn [mbind option_bind].
  assert (Hret : 0 <= ret) by (unfold finish_line in Hf; destruct (_ && _ && _); [done |]; injection Hf as _ <- _; lia).
  rewrite (proj2 (Z.eqb_neq ret (-1))), (proj2 (Z.eqb_neq ret (-2))) by lia. cbn [andb mbind option_bind]. by rewrite H2.
Qed.

Lemma imap_parser_finish_line_count_witness :
  exists p2, imap_parser_finish_line (imap_parser_create (str "a b" ++ [10]) None 100) 0 0 = Some (p2, 2 + 1, Some ([IMAP_ARG_ATOM (str "a"); IMAP_ARG_ATOM (str "b"); IMAP_ARG_EOL] ++ [IMAP_ARG_EOL])).
Proof.
  eapply (imap_parser_finish_line_count (imap_parser_create (str "a b" ++ [10]) None 100) 0 0); [| reflexivity | vm_compute; reflexivity].
  apply reachable_create. repeat constructor; done.
Defined.

(** A quoted string that has not ended is dropped; with a line break behind
    the data it is an error. *)
Lemma imap_parser_finish_line_quote :
  (exists p, imap_parser_finish_line (imap_parser_create (str "a " ++ [34; 98]) None 100) 0 0 = Some (p, 1, Some [IMAP_ARG_ATOM (str "a"); IMAP_ARG_EOL])) /\
  (exists p, imap_parser_finish_line (imap_parser_create (str "a " ++ [34; 98; 10]) None 100) 0 0 = Some (p, -1, None)).
Proof. split; eexists; vm_compute; reflexivity. Qed.
