(* ===== verification/MailSearch.v ===== *)
(** * Mail search arguments (src/src/lib-storage/mail-search.c, mail-search.h)

    The tree of conditions of a search, its evaluation in passes, and the
    operations on it.  An argument is its [arg_value], the members of [struct
    mail_search_arg] besides the pointers, with the list of its [subargs]; the
    [next] pointers make lists of arguments.  NULL is [None], and an empty list
    where a list is meant.  [a_keywords] is the index array of the keywords;
    [a_thread_args] tells whether [search_args] is set, which then holds the [subargs].

    The callback that gives a leaf its result is an argument of the
    evaluation; it may fail, as everything that follows pointers. *)

From S2P Require Import Prelude SeqRange ImapArg ImapMatch.

Inductive mail_search_arg_type :=
  | SEARCH_OR | SEARCH_SUB
  | SEARCH_ALL | SEARCH_SEQSET | SEARCH_UIDSET
  | SEARCH_FLAGS | SEARCH_KEYWORDS
  | SEARCH_BEFORE | SEARCH_ON | SEARCH_SINCE
  | SEARCH_SMALLER | SEARCH_LARGER
  | SEARCH_HEADER | SEARCH_HEADER_ADDRESS | SEARCH_HEADER_COMPRESS_LWSP
  | SEARCH_BODY | SEARCH_TEXT
  | SEARCH_MODSEQ | SEARCH_INTHREAD | SEARCH_GUID | SEARCH_MAILBOX | SEARCH_MAILBOX_GUID | SEARCH_MAILBOX_GLOB | SEARCH_REAL_UID.

#[export] Instance mail_search_arg_type_eq_dec : EqDecision mail_search_arg_type.
Proof. solve_decision. Defined.

Definition MAIL_SEARCH_DATE_TYPE_SENT : Z := 1.
Definition MAIL_SEARCH_DATE_TYPE_RECEIVED : Z := 2.
Definition MAIL_SEARCH_DATE_TYPE_SAVED : Z := 3.
Definition MAIL_SEARCH_ARG_FLAG_USE_TZ : Z := 1.

Record mail_search_modseq := Modseq { modseq_value : Z; modseq_type : Z }.

Record arg_value := Value {
  a_type : mail_search_arg_type;
  a_seqset : list seq_range;
  a_str : option (list Z);
  a_time : Z;
  a_size : Z;
  a_flags : Z;
  a_search_flags : Z;
  a_date_type : Z;
  a_thread_type : Z;
  a_keywords : option (list Z);
  a_modseq : option mail_search_modseq;
  a_thread_args : bool;
  a_hdr_field_name : option (list Z);
  a_match_not : bool;
  a_match_always : bool;
  a_nonmatch_always : bool;
  a_fuzzy : bool;
  a_result : Z;
}.

#[local] Unset Elimination Schemes.

Inductive mail_search_arg := Arg (value : arg_value) (subargs : list mail_search_arg).

#[local] Set Elimination Schemes.

Section Induction.
Variable P : mail_search_arg -> Prop.
Hypothesis P_arg : forall v subs, Forall P subs -> P (Arg v subs).

Fixpoint mail_search_arg_ind (a : mail_search_arg) : P a :=
  match a with
  | Arg v subs =>
      P_arg v subs ((fix go l : Forall P l :=
                       match l with [] => List.Forall_nil _ | a :: l => List.Forall_cons _ _ _ (mail_search_arg_ind a) (go l) end) subs)
  end.
End Induction.

Definition value (a : mail_search_arg) : arg_value := let '(Arg v _) := a in v.
Definition subargs (a : mail_search_arg) : list mail_search_arg := let '(Arg _ subs) := a in subs.
Definition map_value (f : arg_value -> arg_value) (a : mail_search_arg) : mail_search_arg := let '(Arg v subs) := a in Arg (f v) subs.

Definition put_type (t : mail_search_arg_type) (v : arg_value) : arg_value :=
  Value t (a_seqset v) (a_str v) (a_time v) (a_size v) (a_flags v) (a_search_flags v) (a_date_type v) (a_thread_type v) (a_keywords v) (a_modseq v)
    (a_thread_args v) (a_hdr_field_name v) (a_match_not v) (a_match_always v) (a_nonmatch_always v) (a_fuzzy v) (a_result v).
Definition put_seqset (s : list seq_range) (v : arg_value) : arg_value :=
  Value (a_type v) s (a_str v) (a_time v) (a_size v) (a_flags v) (a_search_flags v) (a_date_type v) (a_thread_type v) (a_keywords v) (a_modseq v)
    (a_thread_args v) (a_hdr_field_name v) (a_match_not v) (a_match_always v) (a_nonmatch_always v) (a_fuzzy v) (a_result v).
Definition put_time (t : Z) (v : arg_value) : arg_value :=
  Value (a_type v) (a_seqset v) (a_str v) t (a_size v) (a_flags v) (a_search_flags v) (a_date_type v) (a_thread_type v) (a_keywords v) (a_modseq v)
    (a_thread_args v) (a_hdr_field_name v) (a_match_not v) (a_match_always v) (a_nonmatch_always v) (a_fuzzy v) (a_result v).
Definition put_size (s : Z) (v : arg_value) : arg_value :=
  Value (a_type v) (a_seqset v) (a_str v) (a_time v) s (a_flags v) (a_search_flags v) (a_date_type v) (a_thread_type v) (a_keywords v) (a_modseq v)
    (a_thread_args v) (a_hdr_field_name v) (a_match_not v) (a_match_always v) (a_nonmatch_always v) (a_fuzzy v) (a_result v).
Definition put_flags (f : Z) (v : arg_value) : arg_value :=
  Value (a_type v) (a_seqset v) (a_str v) (a_time v) (a_size v) f (a_search_flags v) (a_date_type v) (a_thread_type v) (a_keywords v) (a_modseq v)
    (a_thread_args v) (a_hdr_field_name v) (a_match_not v) (a_match_always v) (a_nonmatch_always v) (a_fuzzy v) (a_result v).
Definition put_not (b : bool) (v : arg_value) : arg_value :=
  Value (a_type v) (a_seqset v) (a_str v) (a_time v) (a_size v) (a_flags v) (a_search_flags v) (a_date_type v) (a_thread_type v) (a_keywords v) (a_modseq v)
    (a_thread_args v) (a_hdr_field_name v) b (a_match_always v) (a_nonmatch_always v) (a_fuzzy v) (a_result v).
Definition put_always (always nonmatch : bool) (v : arg_value) : arg_value :=
  Value (a_type v) (a_seqset v) (a_str v) (a_time v) (a_size v) (a_flags v) (a_search_flags v) (a_date_type v) (a_thread_type v) (a_keywords v) (a_modseq v)
    (a_thread_args v) (a_hdr_field_name v) (a_match_not v) always nonmatch (a_fuzzy v) (a_result v).
Definition put_result (r : Z) (v : arg_value) : arg_value :=
  Value (a_type v) (a_seqset v) (a_str v) (a_time v) (a_size v) (a_flags v) (a_search_flags v) (a_date_type v) (a_thread_type v) (a_keywords v) (a_modseq v)
    (a_thread_args v) (a_hdr_field_name v) (a_match_not v) (a_match_always v) (a_nonmatch_always v) (a_fuzzy v) r.

Definition is_type (t : mail_search_arg_type) (v : arg_value) : bool := bool_decide (a_type v = t).
Definition result (a : mail_search_arg) : Z := a_result (value a).

Definition ARG_SET_RESULT (res : Z) (v : arg_value) : arg_value :=
  put_result (if negb (a_match_not v) then res else if res =? -1 then -1 else if res =? 0 then 1 else 0) v.

(** ** Evaluation *)

Definition reset_value (full_reset : bool) (v : arg_value) : arg_value :=
  if a_match_always v then
    if negb full_reset then put_result 1 v else put_result (-1) (put_always false (a_nonmatch_always v) v)
  else if a_nonmatch_always v then
    if negb full_reset then put_result 0 v else put_result (-1) (put_always (a_match_always v) false v)
  else put_result (-1) v.

Fixpoint reset_arg (full_reset : bool) (a : mail_search_arg) : mail_search_arg :=
  let '(Arg v subs) := a in
  Arg (reset_value full_reset v) (if is_type SEARCH_OR v || is_type SEARCH_SUB v then map (reset_arg full_reset) subs else subs).

Definition mail_search_args_reset (args : list mail_search_arg) (full_reset : bool) : list mail_search_arg := map (reset_arg full_reset) args.

(** The loops over [subargs]: [stop] is the result of a condition that ends
    the loop. *)
Section Foreach.
Variable foreach : mail_search_arg -> option mail_search_arg.

Fixpoint foreach_subs (stop : Z -> bool) (res stop_res : Z) (subs : list mail_search_arg) : option (Z * list mail_search_arg) :=
  match subs with
  | [] => Some (res, [])
  | sub :: rest =>
      sub ← (if result sub =? -1 then foreach sub else Some sub);
      if result sub =? -1 then
        '(res, rest) ← foreach_subs stop (-1) stop_res rest; Some (res, sub :: rest)
      else if stop (result sub) then Some (stop_res, sub :: rest)
      else '(res, rest) ← foreach_subs stop res stop_res rest; Some (res, sub :: rest)
  end.
End Foreach.

Definition negate_result (v : arg_value) : arg_value :=
  if a_match_not v && negb (a_result v =? -1) then put_result (if a_result v =? 0 then 1 else 0) v else v.

Fixpoint search_arg_foreach (callback : arg_value -> option arg_value) (a : mail_search_arg) : option mail_search_arg :=
  let '(Arg v subs) := a in
  if negb (a_result v =? -1) then Some a
  else if is_type SEARCH_SUB v then
    _ ← assert (negb (length subs =? 0)%nat);
    '(res, subs) ← foreach_subs (search_arg_foreach callback) (fun r => r =? 0) 1 0 subs;
    Some (Arg (negate_result (put_result res v)) subs)
  else if is_type SEARCH_OR v then
    _ ← assert (negb (length subs =? 0)%nat);
    '(res, subs) ← foreach_subs (search_arg_foreach callback) (fun r => r >? 0) 0 1 subs;
    Some (Arg (negate_result (put_result res v)) subs)
  else v ← callback v; Some (Arg v subs).

Fixpoint foreach_loop (callback : arg_value -> option arg_value) (res : Z) (args : list mail_search_arg) : option (Z * list mail_search_arg) :=
  match args with
  | [] => Some (res, [])
  | a :: rest =>
      a ← search_arg_foreach callback a;
      if result a =? 0 then Some (0, a :: rest)
      else '(res, rest) ← foreach_loop callback (if result a =? -1 then -1 else res) rest; Some (res, a :: rest)
  end.

(** The return value and the arguments with their results. *)
Definition mail_search_args_foreach (callback : arg_value -> option arg_value) (args : list mail_search_arg) : option (Z * list mail_search_arg) :=
  foreach_loop callback 1 args.

(** ** Results as bytes *)

Definition has_subargs (v : arg_value) : bool := is_type SEARCH_OR v || is_type SEARCH_SUB v || is_type SEARCH_INTHREAD v.

Fixpoint mail_search_args_result_serialize_arg (a : mail_search_arg) : list Z :=
  let '(Arg v subs) := a in
  (if a_result v <? 0 then 0xff else a_result v mod 256) ::
  (if has_subargs v then flat_map mail_search_args_result_serialize_arg subs else []).

Definition mail_search_args_result_serialize (args : list mail_search_arg) : list Z := flat_map mail_search_args_result_serialize_arg args.

(** A list of arguments and the data that is left. *)
Section Deserialize.
Variable deserialize : mail_search_arg -> list Z -> option (mail_search_arg * list Z).

Fixpoint deserialize_list (args : list mail_search_arg) (data : list Z) : option (list mail_search_arg * list Z) :=
  match args with
  | [] => Some ([], data)
  | a :: args =>
      '(a, data) ← deserialize a data;
      '(args, data) ← deserialize_list args data;
      Some (a :: args, data)
  end.
End Deserialize.

Fixpoint mail_search_args_result_deserialize_arg (a : mail_search_arg) (data : list Z) : option (mail_search_arg * list Z) :=
  let '(Arg v subs) := a in
  match data with
  | [] => None
  | c :: data =>
      let v := put_result (if c =? 0xff then -1 else c) v in
      if has_subargs v then
        '(subs, data) ← deserialize_list mail_search_args_result_deserialize_arg subs data; Some (Arg v subs, data)
      else Some (Arg v subs, data)
  end.

Definition mail_search_args_result_deserialize (args : list mail_search_arg) (data : list Z) : option (list mail_search_arg) :=
  '(args, _) ← deserialize_list mail_search_args_result_deserialize_arg args data; Some args.

(** ** Copies *)

Definition zero_value (t : mail_search_arg_type) : arg_value := Value t [] None 0 0 0 0 0 0 None None false None false false false false 0.

(** The members that each type copies; the others are those of a new argument. *)
Definition dup_value (v : arg_value) : option arg_value :=
  let new seqset str time size flags date_type thread_type modseq hdr :=
    Some (Value (a_type v) seqset str time size flags (a_search_flags v) date_type thread_type None modseq false hdr
            (a_match_not v) (a_match_always v) (a_nonmatch_always v) false 0) in
  match a_type v with
  | SEARCH_INTHREAD => new [] None 0 0 0 0 (a_thread_type v) None None
  | SEARCH_OR | SEARCH_SUB | SEARCH_ALL => new [] None 0 0 0 0 0 None None
  | SEARCH_SEQSET | SEARCH_UIDSET | SEARCH_REAL_UID => new (a_seqset v) None 0 0 0 0 0 None None
  | SEARCH_FLAGS => new [] None 0 0 (a_flags v) 0 0 None None
  | SEARCH_BEFORE | SEARCH_ON | SEARCH_SINCE => new [] None (a_time v) 0 0 (a_date_type v) 0 None None
  | SEARCH_SMALLER | SEARCH_LARGER => new [] None 0 (a_size v) 0 0 0 None None
  | SEARCH_HEADER | SEARCH_HEADER_ADDRESS | SEARCH_HEADER_COMPRESS_LWSP => new [] (a_str v) 0 0 0 0 0 None (a_hdr_field_name v)
  | SEARCH_KEYWORDS | SEARCH_BODY | SEARCH_TEXT | SEARCH_GUID | SEARCH_MAILBOX | SEARCH_MAILBOX_GUID | SEARCH_MAILBOX_GLOB =>
      new [] (a_str v) 0 0 0 0 0 None None
  | SEARCH_MODSEQ => m ← a_modseq v; new [] None 0 0 0 0 0 (Some m) None
  end.

Fixpoint mail_search_arg_dup_one (a : mail_search_arg) : option mail_search_arg :=
  let '(Arg v subs) := a in
  v' ← dup_value v;
  subs' ← (if has_subargs v then mapM mail_search_arg_dup_one subs else Some []);
  Some (Arg v' subs').

Definition mail_search_arg_dup (args : list mail_search_arg) : option (list mail_search_arg) := mapM mail_search_arg_dup_one args.

(** ** What a search needs of the messages *)

(** The headers, [have_body] and [have_text]. *)
Fixpoint search_arg_analyze (a : mail_search_arg) (acc : list (option (list Z)) * bool * bool) : list (option (list Z)) * bool * bool :=
  let '(Arg v subs) := a in
  let '(headers, have_body, have_text) := acc in
  if negb (a_result v =? -1) then acc
  else match a_type v with
       | SEARCH_OR | SEARCH_SUB => fold_left (fun acc sub => if result sub =? -1 then search_arg_analyze sub acc else acc) subs acc
       | SEARCH_BEFORE | SEARCH_ON | SEARCH_SINCE =>
           if a_date_type v =? MAIL_SEARCH_DATE_TYPE_SENT then (headers ++ [Some (str "Date")], have_body, have_text) else acc
       | SEARCH_HEADER | SEARCH_HEADER_ADDRESS | SEARCH_HEADER_COMPRESS_LWSP => (headers ++ [a_hdr_field_name v], have_body, have_text)
       | SEARCH_BODY => (headers, true, have_text)
       | SEARCH_TEXT => (headers, true, true)
       | _ => acc
       end.

(** The headers, [have_headers] and [have_body]; no headers are NULL. *)
Definition mail_search_args_analyze (args : list mail_search_arg) : list (option (list Z)) * bool * bool :=
  let '(headers, have_body, have_text) := fold_left (fun acc a => search_arg_analyze a acc) args ([], false, false) in
  (headers, have_text || negb (length headers =? 0)%nat, have_body).

(** ** Mailbox names *)

Fixpoint mail_search_args_match_mailbox_arg (vname : list Z) (sep : Z) (a : mail_search_arg) : option bool :=
  let '(Arg v subs) := a in
  let all := fix all l := match l with
                          | [] => Some true
                          | sub :: l => b ← mail_search_args_match_mailbox_arg vname sep sub; if negb b then Some false else all l
                          end in
  let any := fix any l := match l with
                          | [] => Some false
                          | sub :: l => b ← mail_search_args_match_mailbox_arg vname sep sub; if (b : bool) then Some true else any l
                          end in
  match a_type v with
  | SEARCH_OR => any subs
  | SEARCH_SUB | SEARCH_INTHREAD => all subs
  | SEARCH_MAILBOX => s ← a_str v; Some (negb (Bool.eqb (bool_decide (s = vname)) (a_match_not v)))
  | SEARCH_MAILBOX_GLOB =>
      s ← a_str v;
      glob ← imap_match_init s true sep;
      ret ← imap_match glob vname;
      Some (negb (Bool.eqb (ret =? IMAP_MATCH_YES) (a_match_not v)))
  | _ => Some true
  end.

(** The loop of [mail_search_args_match_mailbox], over simplified arguments. *)
Fixpoint match_mailbox_loop (vname : list Z) (sep : Z) (args : list mail_search_arg) : option bool :=
  match args with
  | [] => Some true
  | a :: args => b ← mail_search_args_match_mailbox_arg vname sep a; if negb b then Some false else match_mailbox_loop vname sep args
  end.

(** ** Equality

    The value of [strcasecmp] is returned for KEYWORDS, which is true when the
    names differ.  The arguments of two threads have the same mailbox, and
    are both simplified or both not. *)
Fixpoint mail_search_arg_one_equals (arg1 arg2 : mail_search_arg) : option bool :=
  let '(Arg v1 subs1) := arg1 in
  let '(Arg v2 subs2) := arg2 in
  let equals := fix equals l1 l2 :=
    match l1, l2 with
    | [], [] => Some true
    | a1 :: l1, a2 :: l2 => b ← mail_search_arg_one_equals a1 a2; if negb b then Some false else equals l1 l2
    | _, _ => Some false
    end in
  let str_equals := s1 ← a_str v1; s2 ← a_str v2; Some (bool_decide (s1 = s2)) in
  if negb (bool_decide (a_type v1 = a_type v2)) || negb (Bool.eqb (a_match_not v1) (a_match_not v2)) then Some false
  else match a_type v1 with
       | SEARCH_OR | SEARCH_SUB => equals subs1 subs2
       | SEARCH_ALL => Some true
       | SEARCH_SEQSET => Some false
       | SEARCH_UIDSET | SEARCH_REAL_UID => Some (bool_decide (a_seqset v1 = a_seqset v2))
       | SEARCH_FLAGS => Some (a_flags v1 =? a_flags v2)
       | SEARCH_KEYWORDS => s1 ← a_str v1; s2 ← a_str v2; Some (negb (strcaseeq s1 s2))
       | SEARCH_BEFORE | SEARCH_ON | SEARCH_SINCE => Some ((a_time v1 =? a_time v2) && (a_date_type v1 =? a_date_type v2))
       | SEARCH_SMALLER | SEARCH_LARGER => Some (a_size v1 =? a_size v2)
       | SEARCH_HEADER | SEARCH_HEADER_ADDRESS | SEARCH_HEADER_COMPRESS_LWSP =>
           h1 ← a_hdr_field_name v1; h2 ← a_hdr_field_name v2;
           if negb (strcaseeq h1 h2) then Some false else str_equals
       | SEARCH_BODY | SEARCH_TEXT | SEARCH_GUID | SEARCH_MAILBOX | SEARCH_MAILBOX_GUID | SEARCH_MAILBOX_GLOB => str_equals
       | SEARCH_MODSEQ =>
           m1 ← a_modseq v1; m2 ← a_modseq v2; Some ((modseq_value m1 =? modseq_value m2) && (modseq_type m1 =? modseq_type m2))
       | SEARCH_INTHREAD => _ ← assert (a_thread_args v1 && a_thread_args v2); equals subs1 subs2
       end.

Fixpoint mail_search_arg_equals (l1 l2 : list mail_search_arg) : option bool :=
  match l1, l2 with
  | [], [] => Some true
  | a1 :: l1, a2 :: l2 => b ← mail_search_arg_one_equals a1 a2; if negb b then Some false else mail_search_arg_equals l1 l2
  | _, _ => Some false
  end.
