(* ===== verification/MailSearchResults.v ===== *)
(** * The results of search arguments as bytes

    While a message is prefetched, the results that are already known are kept
    as bytes and restored later (mail-search.c). *)

From S2P Require Import Prelude SeqRange ImapArg MailSearch.

(** ** Round trip *)

(** The arguments without their results. *)
Fixpoint forget (a : mail_search_arg) : mail_search_arg :=
  let '(Arg v subs) := a in Arg (put_result 0 v) (if has_subargs v then map forget subs else subs).

Fixpoint results_ok (a : mail_search_arg) : bool :=
  let '(Arg v subs) := a in (-1 <=? a_result v) && (a_result v <? 255) && (if has_subargs v then forallb results_ok subs else true).

Lemma forget_inv v' subs' v subs :
  forget (Arg v' subs') = forget (Arg v subs) ->
  has_subargs v' = has_subargs v /\ (forall r, put_result r v' = put_result r v) /\
  (if has_subargs v then map forget subs' = map forget subs else subs' = subs).
Proof.
  cbn [forget]. intros H. pose proof (f_equal value H : put_result 0 v' = put_result 0 v) as Hv. apply (f_equal subargs) in H. cbn [subargs] in H.
  assert (Ht : has_subargs v' = has_subargs v) by exact (f_equal has_subargs Hv). rewrite Ht in H. split_and!; [done | | by destruct (has_subargs v)].
  intros r. exact (f_equal (put_result r) Hv).
Qed.

Lemma deserialize_list_spec l l' data :
  Forall (fun a => forall a' data, results_ok a = true -> forget a' = forget a ->
    mail_search_args_result_deserialize_arg a' (mail_search_args_result_serialize_arg a ++ data) = Some (a, data)) l ->
  forallb results_ok l = true -> map forget l' = map forget l ->
  deserialize_list mail_search_args_result_deserialize_arg l' (flat_map mail_search_args_result_serialize_arg l ++ data) = Some (l, data).
Proof.
  intros Hl. revert l' data. induction Hl as [|a l Ha _ IH]; intros [|a' l'] data Hok Hf; cbn in *; try done.
  apply andb_true_iff in Hok as [Hok1 Hok2]. injection Hf as Hf1 Hf2. rewrite <- app_assoc, Ha by done. cbn [mbind option_bind]. by rewrite IH.
Qed.

Lemma deserialize_arg_spec a a' data :
  results_ok a = true -> forget a' = forget a ->
  mail_search_args_result_deserialize_arg a' (mail_search_args_result_serialize_arg a ++ data) = Some (a, data).
Proof.
  revert a' data. induction a as [v subs IH]. intros [v' subs'] data Hok Hf. apply forget_inv in Hf as (Ht & Hr & Hs).
  cbn [results_ok mail_search_args_result_deserialize_arg mail_search_args_result_serialize_arg app] in *. apply andb_true_iff in Hok as [Hok Hok3].
  assert ((if (if a_result v <? 0 then 255 else a_result v mod 256) =? 255 then -1 else if a_result v <? 0 then 255 else a_result v mod 256) = a_result v) as ->.
  { destruct (Z.ltb_spec (a_result v) 0); cbn; [lia |]. rewrite Z.mod_small by lia. destruct (Z.eqb_spec (a_result v) 255); lia. }
  rewrite Hr. change (has_subargs (put_result (a_result v) v)) with (has_subargs v). assert (put_result (a_result v) v = v) as -> by (by destruct v).
  destruct (has_subargs v); [| by rewrite Hs]. by rewrite deserialize_list_spec.
Qed.

Lemma result_roundtrip args args' :
  forallb results_ok args = true -> map forget args' = map forget args ->
  mail_search_args_result_deserialize args' (mail_search_args_result_serialize args) = Some args.
Proof.
  intros Hok Hf. unfold mail_search_args_result_deserialize, mail_search_args_result_serialize.
  rewrite <- (app_nil_r (flat_map _ args)), deserialize_list_spec by (done || apply Forall_true; intros a a' data; apply deserialize_arg_spec). done.
Qed.

(** C22: results that are saved are restored: what is written for the results
    of search arguments, given back to the same arguments after their results
    have changed, restores every result, also of nested arguments. *)
Theorem mail_search_args_result_roundtrip args args' :
  forallb results_ok args = true -> map forget args' = map forget args ->
  mail_search_args_result_deserialize args' (mail_search_args_result_serialize args) = Some args.
Proof. apply result_roundtrip. Qed.

(** ** Witnesses *)

(** OR (MAILBOX work) (SUB (FLAGS) INTHREAD (MAILBOX_GLOB w%)), with results. *)
Definition demo_arg (t : mail_search_arg_type) (s : list Z) (r : Z) : arg_value := put_result r (Value t [] (Some s) 0 0 8 0 0 0 None None false None false false false false 0).

Definition demo_tree (r1 r2 r3 r4 : Z) : mail_search_arg :=
  Arg (demo_arg SEARCH_OR [] r1)
    [Arg (demo_arg SEARCH_MAILBOX (str "work") r2) [];
     Arg (demo_arg SEARCH_INTHREAD [] r3) [Arg (demo_arg SEARCH_FLAGS [] r4) []; Arg (demo_arg SEARCH_MAILBOX_GLOB (str "w%") r1) []]].

Lemma mail_search_args_result_roundtrip_witness :
  mail_search_args_result_deserialize [demo_tree 0 0 0 0] (mail_search_args_result_serialize [demo_tree (-1) 1 0 1]) = Some [demo_tree (-1) 1 0 1].
Proof. apply mail_search_args_result_roundtrip; reflexivity. Defined.
