(* ===== verification/MailSearchSimplify.v ===== *)
(** * Simplifying search arguments (src/src/lib-storage/mail-search-args-simplify.c)

    A level of arguments is rewritten from left to right: [done] are the
    arguments passed, [args] those ahead.  The code keeps a pointer to the
    argument that stands for a mask; here it is its index in [done], stored in a
    table behind the interface of Table.v.  Unlinking and overwriting nodes are
    the corresponding changes of the lists.

    The loops have fuel.  A member access through a NULL [subargs] and a
    failure of a table or of a sequence set have no result. *)

From S2P Require Import Prelude SeqRange Table ImapArg MailSearch.

Record mail_search_simplify_mask := Mask {
  mask_type : mail_search_arg_type;
  mask_search_flags : Z;
  mask_date_type : Z;
  mask_match_not : bool;
  mask_fuzzy : bool;
  hdr_field_name_mask : option (list Z);
  str_mask : option (list Z);
}.

#[export] Instance mask_eq_dec : EqDecision mail_search_simplify_mask.
Proof. solve_decision. Defined.

Definition mail_search_arg_get_base_mask (v : arg_value) : mail_search_simplify_mask :=
  Mask (a_type v) (a_search_flags v) 0 (a_match_not v) (a_fuzzy v) None None.

Definition time_mask (v : arg_value) : mail_search_simplify_mask :=
  Mask (a_type v) (a_search_flags v) (a_date_type v) (a_match_not v) (a_fuzzy v) None None.

Definition text_mask (v : arg_value) : mail_search_simplify_mask :=
  Mask (a_type v) (a_search_flags v) 0 (a_match_not v) (a_fuzzy v) (a_hdr_field_name v) (a_str v).

Definition toggle_not (a : mail_search_arg) : mail_search_arg := map_value (fun v => put_not (negb (a_match_not v)) v) a.

(** The negation of a SUB or an OR moves to its arguments. *)
Definition push_not (a : mail_search_arg) : option mail_search_arg :=
  let '(Arg v subs) := a in
  if a_match_not v && (is_type SEARCH_SUB v || is_type SEARCH_OR v) then
    _ ← assert (negb (length subs =? 0)%nat);
    Some (Arg (put_not false (put_type (if is_type SEARCH_SUB v then SEARCH_OR else SEARCH_SUB) v)) (map toggle_not subs))
  else Some a.

(** Whether the arguments of [a] take its place. *)
Definition flattens (parent_and : bool) (a : mail_search_arg) : option bool :=
  let '(Arg v subs) := a in
  if (is_type SEARCH_SUB v && parent_and) || (is_type SEARCH_OR v && negb parent_and) then
    _ ← assert (negb (length subs =? 0)%nat); Some true
  else if is_type SEARCH_SUB v || is_type SEARCH_OR v then
    _ ← assert (negb (length subs =? 0)%nat); Some (length subs =? 1)%nat
  else Some false.

(** How the value of the earlier argument and of this one are merged: [None]
    inside when they are not. *)
Definition merge_time_value (parent_and : bool) (prev v : arg_value) : option arg_value :=
  let lt := a_time prev <? a_time v in
  match a_type v with
  | SEARCH_BEFORE =>
      if parent_and then Some (if lt then prev else put_time (a_time v) prev)
      else Some (if lt then put_time (a_time v) prev else prev)
  | SEARCH_ON => if a_time prev =? a_time v then Some prev else None
  | SEARCH_SINCE =>
      if parent_and then Some (if lt then put_time (a_time v) prev else prev)
      else Some (if lt then prev else put_time (a_time v) prev)
  | _ => None
  end.

Definition merge_size_value (parent_and : bool) (prev v : arg_value) : option arg_value :=
  let lt := a_size prev <? a_size v in
  match a_type v with
  | SEARCH_SMALLER =>
      if parent_and then Some (if lt then prev else put_size (a_size v) prev)
      else Some (if lt then put_size (a_size v) prev else prev)
  | SEARCH_LARGER =>
      if parent_and then Some (if lt then put_size (a_size v) prev else prev)
      else Some (if lt then prev else put_size (a_size v) prev)
  | _ => None
  end.

Section Simplify.
Context {T : Type} `{!Table mail_search_simplify_mask nat T}.
(** The table that [hash_table_create] makes. *)
Variable prev_args0 : T.

(** What a merge does: the arguments passed, the table, and whether the
    argument was merged. *)
Notation merge_result := (option (list mail_search_arg * T * bool)).

(** Looks up the argument of a mask: the first one is recorded and not merged,
    the next ones are given to [merge] with it. *)
Definition merge_with (mask : mail_search_simplify_mask) (merge : arg_value -> option (option arg_value))
    (done : list mail_search_arg) (prev_args : T) : merge_result :=
  prev ← table_lookup prev_args mask;
  match prev with
  | None => prev_args ← table_insert prev_args mask (length done); Some (done, prev_args, false)
  | Some i =>
      p ← done !! i;
      merged ← merge (value p);
      match merged with
      | Some v => Some (<[i := Arg v (subargs p)]> done, prev_args, true)
      | None => Some (done, prev_args, false)
      end
  end.

Definition mail_search_args_merge_flags (parent_and : bool) (done : list mail_search_arg) (prev_args : T) (v : arg_value) : merge_result :=
  if negb ((negb (a_match_not v) && parent_and) || (a_match_not v && negb parent_and)) then Some (done, prev_args, false)
  else merge_with (mail_search_arg_get_base_mask v) (fun prev => Some (Some (put_flags (Z.lor (a_flags prev) (a_flags v)) prev))) done prev_args.

Definition mail_search_args_merge_set (parent_and : bool) (done : list mail_search_arg) (prev_args : T) (v : arg_value) : merge_result :=
  if negb ((negb (a_match_not v) && parent_and) || (a_match_not v && negb parent_and)) then Some (done, prev_args, false)
  else merge_with (mail_search_arg_get_base_mask v)
         (fun prev => s ← seq_range_array_merge (a_seqset prev) (a_seqset v); Some (Some (put_seqset s prev))) done prev_args.

Definition mail_search_args_merge_time (parent_and : bool) (done : list mail_search_arg) (prev_args : T) (v : arg_value) : merge_result :=
  merge_with (time_mask v) (fun prev => Some (merge_time_value parent_and prev v)) done prev_args.

Definition mail_search_args_merge_size (parent_and : bool) (done : list mail_search_arg) (prev_args : T) (v : arg_value) : merge_result :=
  merge_with (mail_search_arg_get_base_mask v) (fun prev => Some (merge_size_value parent_and prev v)) done prev_args.

Definition mail_search_args_merge_text (done : list mail_search_arg) (prev_args : T) (v : arg_value) : merge_result :=
  merge_with (text_mask v) (fun prev => Some (Some prev)) done prev_args.

Definition try_merge (parent_and : bool) (done : list mail_search_arg) (prev_args : T) (v : arg_value) : merge_result :=
  match a_type v with
  | SEARCH_FLAGS => mail_search_args_merge_flags parent_and done prev_args v
  | SEARCH_SEQSET | SEARCH_UIDSET => mail_search_args_merge_set parent_and done prev_args v
  | SEARCH_BEFORE | SEARCH_ON | SEARCH_SINCE => mail_search_args_merge_time parent_and done prev_args v
  | SEARCH_SMALLER | SEARCH_LARGER => mail_search_args_merge_size parent_and done prev_args v
  | SEARCH_HEADER | SEARCH_HEADER_ADDRESS | SEARCH_HEADER_COMPRESS_LWSP | SEARCH_BODY | SEARCH_TEXT =>
      mail_search_args_merge_text done prev_args v
  | _ => Some (done, prev_args, false)
  end.

(** The arguments after the loop, and [removals]. *)
Fixpoint simplify_loop (fuel : nat) (parent_and : bool) (done : list mail_search_arg) (prev_args : T) (removals : bool)
    (args : list mail_search_arg) : option (list mail_search_arg * bool) :=
  match fuel, args with
  | O, _ => None
  | S _, [] => Some (done, removals)
  | S fuel, a :: args =>
      a ← push_not a;
      flat ← flattens parent_and a;
      if (flat : bool) then simplify_loop fuel parent_and done prev_args removals (subargs a ++ args)
      else
        '(subs, removals) ← (if has_subargs (value a) then
                               '(subs, r) ← simplify_loop fuel (negb (is_type SEARCH_OR (value a))) [] prev_args0 false (subargs a);
                               Some (subs, removals || r)
                             else Some (subargs a, removals));
        '(done, prev_args, merged) ← try_merge parent_and done prev_args (value a);
        if (merged : bool) then simplify_loop fuel parent_and done prev_args true args
        else simplify_loop fuel parent_and (done ++ [Arg (value a) subs]) prev_args removals args
  end.

(** A bound of the nodes of a tree, and of those of a list. *)
Fixpoint arg_size (a : mail_search_arg) : nat := let '(Arg _ subs) := a in S (list_sum (map arg_size subs)).
Definition args_size (args : list mail_search_arg) : nat := list_sum (map arg_size args).

Definition mail_search_args_simplify_sub (args : list mail_search_arg) (parent_and : bool) : option (list mail_search_arg * bool) :=
  simplify_loop (S (args_size args)) parent_and [] prev_args0 false args.

End Simplify.

(** ** INTHREADs inside INTHREADs *)

Definition put_arg_result (r : Z) (a : mail_search_arg) : mail_search_arg := map_value (put_result r) a.

(** The second loop of [mail_search_args_unnest_inthreads]: it moves along
    the [next] member that it has just overwritten, so it ends with the first
    argument whose result is 0, which becomes the last of the list.  The new
    INTHREAD that collects these arguments is never linked to the list. *)
Fixpoint move_non_inthreads (args : list mail_search_arg) : list mail_search_arg :=
  match args with
  | [] => []
  | a :: args => if result a =? 0 then [a] else a :: move_non_inthreads args
  end.

(** The arguments and [have_inthreads] of a level, with what it found. *)
Record unnested := Unnested { un_args : list mail_search_arg; un_have : bool; un_child : bool; un_non : bool }.

(** The end of a call: the arguments, [have_inthreads] and the return value. *)
Definition unnest_finish (parent_inthreads : bool) (u : unnested) : list mail_search_arg * bool * bool :=
  if negb parent_inthreads || negb (un_child u) || negb (un_non u) then (un_args u, un_have u, false)
  else (move_non_inthreads (un_args u), un_have u, true).

Section Unnest.
Variable unnest_arg : bool -> mail_search_arg -> unnested.

Fixpoint unnest_level (parent_inthreads : bool) (args : list mail_search_arg) : unnested :=
  match args with
  | [] => Unnested [] false false false
  | a :: args =>
      let u1 := unnest_arg parent_inthreads a in
      let u2 := unnest_level parent_inthreads args in
      Unnested (un_args u1 ++ un_args u2) (un_have u1 || un_have u2) (un_child u1 || un_child u2) (un_non u1 || un_non u2)
  end.
End Unnest.

(** What the first loop does with one argument. *)
Fixpoint unnest_arg (parent_inthreads : bool) (a : mail_search_arg) : unnested :=
  let '(Arg v subs) := a in
  match a_type v with
  | SEARCH_SUB | SEARCH_OR =>
      let '(subs, have, converted) := unnest_finish parent_inthreads (unnest_level unnest_arg parent_inthreads subs) in
      if negb converted then Unnested [Arg (put_result 1 v) subs] have true false
      else Unnested [Arg (put_result 0 v) subs] have false true
  | SEARCH_INTHREAD =>
      let '(subs, _, converted) := unnest_finish true (unnest_level unnest_arg true subs) in
      Unnested [Arg (put_result 1 (if (converted : bool) then put_type SEARCH_SUB v else v)) subs] true true false
  | _ => Unnested [Arg (put_result 0 v) subs] false false true
  end.

Definition mail_search_args_unnest_inthreads (args : list mail_search_arg) (parent_inthreads : bool) : list mail_search_arg * bool * bool :=
  unnest_finish parent_inthreads (unnest_level unnest_arg parent_inthreads args).

(** ** The whole simplification *)

Record mail_search_args := Args { args : list mail_search_arg; simplified : bool; have_inthreads : bool }.

Section Whole.
Context {T : Type} `{!Table mail_search_simplify_mask nat T}.
Variable prev_args0 : T.
Notation simplify_sub := (mail_search_args_simplify_sub prev_args0).

Fixpoint removals_loop (fuel : nat) (removals : bool) (l : list mail_search_arg) : option (list mail_search_arg) :=
  if negb removals then Some l
  else match fuel with
       | O => None
       | S fuel => '(l, removals) ← simplify_sub l true; removals_loop fuel removals l
       end.

Definition mail_search_args_simplify (a : mail_search_args) : option mail_search_args :=
  '(l, removals) ← simplify_sub (args a) true;
  let '(l, have, unnested) := mail_search_args_unnest_inthreads l false in
  l ← (if (unnested : bool) then '(l, _) ← simplify_sub l true; Some l else Some l);
  l ← removals_loop (S (args_size l)) removals l;
  Some (Args l true (have_inthreads a || have)).

Definition mail_search_args_match_mailbox (a : mail_search_args) (vname : list Z) (sep : Z) : option bool :=
  a ← (if negb (simplified a) then mail_search_args_simplify a else Some a);
  match_mailbox_loop vname sep (args a).

End Whole.
