(* ===== verification/MailSearchEval.v ===== *)
(** * What search arguments mean, and their evaluation in passes

    A condition is false, unknown or true for a message: 0, 1 or 2, so that a
    conjunction is the minimum, a disjunction the maximum and a negation the
    difference to 2.  [eval] gives a tree its value from those of its leaves.
    The passes of [mail_search_args_foreach], each of which decides the leaves
    that its callback can decide, are shown to compute this value. *)

From S2P Require Import Prelude SeqRange ImapArg MailSearch.

Definition neg (b : bool) (x : Z) : Z := if b then 2 - x else x.
Definition conj_all (l : list Z) : Z := foldr Z.min 2 l.
Definition disj_all (l : list Z) : Z := foldr Z.max 0 l.

(** The [result] member that stands for a value. *)
Definition code (x : Z) : Z := if x =? 0 then 0 else if x =? 2 then 1 else -1.

Definition tri (x : Z) : Prop := 0 <= x <= 2.

Definition is_group (v : arg_value) : bool := is_type SEARCH_SUB v || is_type SEARCH_OR v.

Section Eval.
Context {M : Type} (leaf : M -> arg_value -> Z) (thread : Z -> M -> list M).

(** A message is in a thread when a message of the thread matches. *)
Fixpoint eval (a : mail_search_arg) (m : M) : Z :=
  let '(Arg v subs) := a in
  neg (a_match_not v)
    (match a_type v with
     | SEARCH_SUB => conj_all (map (fun sub => eval sub m) subs)
     | SEARCH_OR => disj_all (map (fun sub => eval sub m) subs)
     | SEARCH_INTHREAD => disj_all (map (fun m' => conj_all (map (fun sub => eval sub m') subs)) (thread (a_thread_type v) m))
     | _ => leaf m v
     end).

(** A list of arguments as a conjunction or a disjunction. *)
Definition eval_list (parent_and : bool) (l : list mail_search_arg) (m : M) : Z :=
  (if parent_and then conj_all else disj_all) (map (fun a => eval a m) l).

Lemma neg_tri b x : tri x -> tri (neg b x).
Proof. unfold tri, neg. destruct b; lia. Qed.

Lemma conj_all_tri l : Forall tri l -> tri (conj_all l).
Proof. unfold tri, conj_all. induction 1; cbn; lia. Qed.

Lemma disj_all_tri l : Forall tri l -> tri (disj_all l).
Proof. unfold tri, disj_all. induction 1; cbn; lia. Qed.

Hypothesis leaf_tri : forall m v, tri (leaf m v).

Lemma eval_tri a m : tri (eval a m).
Proof.
  revert m. induction a as [v subs IH]. intros m. cbn [eval]. apply neg_tri.
  assert (H : forall m, Forall tri (map (fun sub => eval sub m) subs)).
  { intros m'. apply Forall_map. eapply Forall_impl; [exact IH |]. cbn. auto. }
  destruct (a_type v); try apply leaf_tri; [by apply disj_all_tri | by apply conj_all_tri |].
  apply disj_all_tri, Forall_map, Forall_true. intros m'. by apply conj_all_tri.
Qed.

End Eval.

(** ** The loops over lists *)

Section Subs.
Variable f : mail_search_arg -> option mail_search_arg.
Hypothesis f_known : forall s, result s <> -1 -> f s = Some s.

Definition open (a : mail_search_arg) : bool := result a =? -1.

(** Either the loop stops at an argument, or it has gone through all. *)
Lemma foreach_subs_spec stop res stop_res subs :
  Forall (fun s => is_Some (f s)) subs ->
  exists r subs', foreach_subs f stop res stop_res subs = Some (r, subs') /\
    Forall2 (fun s s' => s' = s \/ f s = Some s') subs subs' /\
    ((r = stop_res /\ Exists (fun s' => open s' = false /\ stop (result s') = true) subs') \/
     (r = (if existsb open subs' then -1 else res) /\ Forall2 (fun s s' => f s = Some s') subs subs' /\
      Forall (fun s' => open s' = true \/ stop (result s') = false) subs')).
Proof.
  intros H. revert res. induction H as [|s subs [s1 Hs1] _ IH]; intros res; cbn [foreach_subs].
  { exists res, []. split_and!; [done | constructor | right]. repeat constructor. }
  assert (Hs : (if result s =? -1 then f s else Some s) = Some s1).
  { destruct (Z.eqb_spec (result s) (-1)); [done |]. rewrite f_known in Hs1 by done. congruence. }
  rewrite Hs. cbn [mbind option_bind]. fold (open s1). destruct (open s1) eqn:Ho.
  - destruct (IH (-1)) as (r & subs' & -> & Hw & Hr). exists r, (s1 :: subs'). split_and!; [done | constructor; auto |].
    destruct Hr as [[-> He] | (-> & Hf & Hn)]; [left; split; [done | by right] |]. right. cbn. rewrite Ho. cbn.
    split_and!; [by destruct (existsb open subs') | by constructor | constructor; auto].
  - destruct (stop (result s1)) eqn:Hst.
    + exists stop_res, (s1 :: subs). split_and!; [done | | left; split; [done | by left]].
      constructor; [by right |]. clear. induction subs; constructor; auto.
    + destruct (IH res) as (r & subs' & -> & Hw & Hr). exists r, (s1 :: subs'). split_and!; [done | constructor; auto |].
      destruct Hr as [[-> He] | (-> & Hf & Hn)]; [left; split; [done | by right] |]. right. cbn. rewrite Ho. cbn.
      split_and!; [done | by constructor | constructor; auto].
Qed.
End Subs.

Lemma foreach_known callback a : result a <> -1 -> search_arg_foreach callback a = Some a.
Proof. destruct a as [v subs]. unfold result. cbn. intros H. by destruct (Z.eqb_spec (a_result v) (-1)). Qed.

(** The loop over the top level is that of a SUB. *)
Lemma foreach_loop_subs callback res args :
  foreach_loop callback res args = foreach_subs (search_arg_foreach callback) (fun r => r =? 0) res 0 args.
Proof.
  revert res. induction args as [|a args IH]; intros res; cbn [foreach_loop foreach_subs]; [done |].
  destruct (Z.eqb_spec (result a) (-1)) as [E | E]; [| rewrite (foreach_known callback a E)];
    cbn [mbind option_bind].
  - destruct (search_arg_foreach callback a) as [a'|]; [| done]. cbn [mbind option_bind].
    destruct (Z.eqb_spec (result a') (-1)) as [-> |]; [cbn; by rewrite IH |].
    destruct (result a' =? 0); [done | by rewrite IH].
  - destruct (Z.eqb_spec (result a) (-1)); [done |]. destruct (result a =? 0); [done | by rewrite IH].
Qed.

(** ** One pass *)

(** The leaves at which a callback is called. *)
Fixpoint leaves (a : mail_search_arg) : list mail_search_arg :=
  let '(Arg v subs) := a in if is_group v then flat_map leaves subs else [a].

Section Pass.
Context {M : Type} (leaf : M -> arg_value -> Z) (thread : Z -> M -> list M).
Hypothesis leaf_tri : forall m v, tri (leaf m v).
Hypothesis leaf_result : forall m v r, leaf m (put_result r v) = leaf m v.
Variable m : M.
Notation eval a := (eval leaf thread a m).

(** What the evaluation relies on: a known result is the right one, and a
    group is not empty. *)
#[local] Unset Elimination Schemes.

Inductive sound : mail_search_arg -> Prop :=
  | sound_arg v subs :
      (a_result v <> -1 -> a_result v = code (eval (Arg v subs))) ->
      (is_group v = true -> subs <> [] /\ Forall sound subs) -> sound (Arg v subs).

(** A callback sets the result of a leaf only, to the right one if to any. *)
Definition callback_ok (callback : arg_value -> option arg_value) (a : mail_search_arg) : Prop :=
  open a = true -> exists r, callback (value a) = Some (put_result r (value a)) /\ (r <> -1 -> r = code (eval a)).

(** The results that decide a group. *)
Definition stops (v : arg_value) (r : Z) : bool := if is_type SEARCH_SUB v then r =? 0 else r >? 0.

(** A group that is still open: it has an open argument, and none decides it. *)
Definition undecided (v : arg_value) (subs : list mail_search_arg) : Prop :=
  Exists (fun s => open s = true) subs /\ Forall (fun s => open s = true \/ stops v (result s) = false) subs.

(** The callbacks [D] have seen every leaf that is still of interest. *)
Inductive pending (D : list (arg_value -> option arg_value)) : mail_search_arg -> Prop :=
  | pending_known a : open a = false -> pending D a
  | pending_leaf v subs : is_group v = false -> Forall (fun cb => cb v = Some v) D -> pending D (Arg v subs)
  | pending_group v subs : is_group v = true -> Forall (pending D) subs -> (D <> [] -> undecided v subs) ->
      pending D (Arg v subs).

#[local] Set Elimination Schemes.

Definition same_leaf (l l' : mail_search_arg) : Prop := l' = l \/ open l' = false.

(** What a pass guarantees of an argument. *)
Record stepped (callback : arg_value -> option arg_value) (a a' : mail_search_arg) : Prop := {
  stepped_eval : eval a' = eval a;
  stepped_sound : sound a';
  stepped_leaves : Forall2 same_leaf (leaves a) (leaves a');
  stepped_pending D : pending D a -> pending (callback :: D) a';
}.

Lemma sound_result a : sound a -> open a = false -> result a = code (eval a).
Proof. intros [v subs Hr _] Ho. apply Hr. by apply Z.eqb_neq in Ho. Qed.

Lemma code_neg x : tri x -> code (2 - x) = if code x =? -1 then -1 else if code x =? 0 then 1 else 0.
Proof. unfold tri, code. intros. assert (x = 0 \/ x = 1 \/ x = 2) as [-> | [-> | ->]] by lia; done. Qed.

Lemma conj_all_zero l : Forall tri l -> Exists (fun x => x = 0) l -> conj_all l = 0.
Proof.
  unfold conj_all. intros Ht He. induction Ht as [|x l Hx Ht IH]; inversion He as [? ? H | ? ? H]; subst; unfold tri in *; cbn.
  - pose proof (conj_all_tri l Ht) as H. unfold conj_all, tri in H. lia.
  - rewrite IH by done. lia.
Qed.

Lemma disj_all_two l : Forall tri l -> Exists (fun x => x = 2) l -> disj_all l = 2.
Proof.
  unfold disj_all. intros Ht He. induction Ht as [|x l Hx Ht IH]; inversion He as [? ? H | ? ? H]; subst; unfold tri in *; cbn.
  - pose proof (disj_all_tri l Ht) as H. unfold disj_all, tri in H. lia.
  - rewrite IH by done. lia.
Qed.

Lemma evals_tri subs : Forall tri (map (fun s => eval s) subs).
Proof. apply Forall_map, Forall_true. intros s. by apply eval_tri. Qed.

Lemma eval_cases s : eval s = 0 \/ eval s = 1 \/ eval s = 2.
Proof. pose proof (eval_tri leaf thread leaf_tri s m) as H. unfold tri in H. lia. Qed.

(** The outcome of a loop over sound arguments is the value of the group. *)
Lemma conj_outcome subs r :
  Forall sound subs ->
  (r = 0 /\ Exists (fun s => open s = false /\ (result s =? 0) = true) subs) \/
  (r = (if existsb open subs then -1 else 1) /\ Forall (fun s => open s = true \/ (result s =? 0) = false) subs) ->
  r <> -1 -> r = code (conj_all (map (fun s => eval s) subs)).
Proof.
  intros Hs [[-> He] | [-> Hf]] Hr.
  - rewrite conj_all_zero; [done | apply evals_tri |]. apply Exists_exists in He as (s & Hin & Ho & H0).
    apply Exists_exists. exists (eval s). split; [apply list_elem_of_fmap; eauto |].
    rewrite (sound_result s) in H0; [| by eapply (Forall_forall sound subs) | done]. revert H0.
    by destruct (eval_cases s) as [-> | [-> | ->]].
  - destruct (existsb open subs) eqn:E; [done |]. cut (conj_all (map (fun s => eval s) subs) = 2); [by intros -> |].
    clear Hr. induction Hs as [|s subs H Hs IH]; [done |]. cbn in E |- *. apply orb_false_iff in E as [Eo E].
    inversion Hf as [| ? ? Hx Hf']; subst. unfold conj_all in *. cbn. rewrite IH by done. destruct Hx as [? | Hx]; [congruence |].
    rewrite (sound_result s H Eo) in Hx. unfold open in Eo. rewrite (sound_result s H) in Eo by done. revert Hx Eo.
    by destruct (eval_cases s) as [-> | [-> | ->]].
Qed.

Lemma disj_outcome subs r :
  Forall sound subs ->
  (r = 1 /\ Exists (fun s => open s = false /\ (result s >? 0) = true) subs) \/
  (r = (if existsb open subs then -1 else 0) /\ Forall (fun s => open s = true \/ (result s >? 0) = false) subs) ->
  r <> -1 -> r = code (disj_all (map (fun s => eval s) subs)).
Proof.
  intros Hs [[-> He] | [-> Hf]] Hr.
  - rewrite disj_all_two; [done | apply evals_tri |]. apply Exists_exists in He as (s & Hin & Ho & H0).
    apply Exists_exists. exists (eval s). split; [apply list_elem_of_fmap; eauto |].
    rewrite (sound_result s) in H0; [| by eapply (Forall_forall sound subs) | done]. revert H0.
    by destruct (eval_cases s) as [-> | [-> | ->]].
  - destruct (existsb open subs) eqn:E; [done |]. cut (disj_all (map (fun s => eval s) subs) = 0); [by intros -> |].
    clear Hr. induction Hs as [|s subs H Hs IH]; [done |]. cbn in E |- *. apply orb_false_iff in E as [Eo E].
    inversion Hf as [| ? ? Hx Hf']; subst. unfold disj_all in *. cbn. rewrite IH by done. destruct Hx as [? | Hx]; [congruence |].
    rewrite (sound_result s H Eo) in Hx. unfold open in Eo. rewrite (sound_result s H) in Eo by done. revert Hx Eo.
    by destruct (eval_cases s) as [-> | [-> | ->]].
Qed.

(** The value of a group before its negation. *)
Definition group_value (v : arg_value) (subs : list mail_search_arg) : Z :=
  (if is_type SEARCH_SUB v then conj_all else disj_all) (map (fun s => eval s) subs).

Lemma is_type_true t v : is_type t v = true <-> a_type v = t.
Proof. unfold is_type. by rewrite bool_decide_eq_true. Qed.

Lemma eval_group v subs : is_group v = true -> eval (Arg v subs) = neg (a_match_not v) (group_value v subs).
Proof.
  intros Hg. cbn [MailSearchEval.eval]. unfold group_value, is_group, is_type in *. destruct (a_type v); try discriminate Hg; done.
Qed.

Lemma eval_put_result v r subs : eval (Arg (put_result r v) subs) = eval (Arg v subs).
Proof. cbn [MailSearchEval.eval a_type a_match_not a_thread_type put_result]. destruct (a_type v); by rewrite ?leaf_result. Qed.

Lemma group_value_tri v subs : tri (group_value v subs).
Proof. unfold group_value. destruct (is_type SEARCH_SUB v); [apply conj_all_tri | apply disj_all_tri]; apply evals_tri. Qed.

(** The result that a group gets. *)
Lemma negate_group v subs r :
  is_group v = true -> (r <> -1 -> r = code (group_value v subs)) ->
  exists r', negate_result (put_result r v) = put_result r' v /\ (r' = -1 <-> r = -1) /\ (r' <> -1 -> r' = code (eval (Arg v subs))).
Proof.
  intros Hg Hr. rewrite (eval_group v subs Hg). unfold negate_result. cbn [a_match_not a_result put_result].
  destruct (a_match_not v) eqn:En, (Z.eqb_spec r (-1)) as [-> | Hne]; cbn [andb negb neg].
  - by exists (-1).
  - rewrite (code_neg _ (group_value_tri v subs)), <- Hr by done. destruct (Z.eqb_spec r (-1)); [done |].
    exists (if r =? 0 then 1 else 0). split_and!; [done | | done]. split; [by destruct (r =? 0) | done].
  - by exists (-1).
  - exists r. split_and!; [done | done | by rewrite <- Hr].
Qed.

Lemma same_leaf_refl l : Forall2 same_leaf l l.
Proof. induction l; constructor; [by left | done]. Qed.

Lemma leaves_flat subs subs' :
  Forall2 (fun s s' => Forall2 same_leaf (leaves s) (leaves s')) subs subs' -> Forall2 same_leaf (flat_map leaves subs) (flat_map leaves subs').
Proof. induction 1; cbn; [constructor | by apply Forall2_app]. Qed.

Lemma evals_eq subs subs' :
  Forall2 (fun s s' => eval s' = eval s) subs subs' -> map (fun s => eval s) subs' = map (fun s => eval s) subs.
Proof. induction 1; cbn; congruence. Qed.

(** The step of a group from those of its arguments, all of them or a part. *)
Lemma group_stepped callback v subs subs' r :
  is_group v = true -> a_result v = -1 -> subs <> [] -> Forall sound subs ->
  Forall2 (fun s s' => s' = s \/ stepped callback s s') subs subs' ->
  (r <> -1 -> r = code (group_value v subs')) ->
  (r = -1 -> Forall2 (stepped callback) subs subs' /\ undecided v subs') ->
  stepped callback (Arg v subs) (Arg (negate_result (put_result r v)) subs').
Proof.
  intros Hg Hv Hne Hs Hw Hr Hall. destruct (negate_group v subs' r Hg Hr) as (r' & -> & Hiff & Hr').
  assert (Hev : map (fun s => eval s) subs' = map (fun s => eval s) subs).
  { apply evals_eq. eapply Forall2_impl; [exact Hw |]. intros s s' [-> | H]; [done | apply H]. }
  assert (He : eval (Arg v subs') = eval (Arg v subs)) by (rewrite !eval_group by done; unfold group_value; by rewrite Hev).
  assert (Hs' : Forall sound subs').
  { apply Forall_forall. intros s' Hin. apply list_elem_of_lookup in Hin as [i Hi].
    destruct (Forall2_lookup_r _ _ _ _ _ Hw Hi) as (s & Hsi & [-> | H]); [| apply H].
    by eapply (Forall_lookup_1 sound subs). }
  split.
  - by rewrite eval_put_result.
  - constructor; [cbn [a_result put_result]; by rewrite eval_put_result |]. intros _. split; [| done].
    intros ->. by inversion Hw; subst.
  - cbn [leaves]. change (is_group (put_result r' v)) with (is_group v). rewrite Hg. apply leaves_flat.
    eapply Forall2_impl; [exact Hw |]. intros s s' [-> | H]; [apply same_leaf_refl | apply H].
  - intros D HD. destruct (decide (r' = -1)) as [-> | Hn]; [| by apply pending_known, Z.eqb_neq].
    destruct Hall as [Hf Hex]; [by apply Hiff |]. apply pending_group; [done | | done].
    inversion HD as [? Ho | ? ? Hl | ? ? _ Hp _]; subst; [unfold open, result in Ho; cbn in Ho; rewrite Hv in Ho; done | congruence |].
    apply Forall_forall. intros s' Hin. apply list_elem_of_lookup in Hin as [i Hi].
    destruct (Forall2_lookup_r _ _ _ _ _ Hf Hi) as (s & Hsi & H). apply H. by eapply (Forall_lookup_1 (pending D) subs).
Qed.

(** What a loop over [subs] gives, when each argument can be stepped. *)
Lemma subs_stepped callback stop res stop_res subs :
  Forall (fun s => exists s', search_arg_foreach callback s = Some s' /\ stepped callback s s') subs ->
  exists r subs', foreach_subs (search_arg_foreach callback) stop res stop_res subs = Some (r, subs') /\
    Forall2 (fun s s' => s' = s \/ stepped callback s s') subs subs' /\
    ((r = stop_res /\ Exists (fun s' => open s' = false /\ stop (result s') = true) subs') \/
     (r = (if existsb open subs' then -1 else res) /\ Forall2 (stepped callback) subs subs' /\
      Forall (fun s' => open s' = true \/ stop (result s') = false) subs')).
Proof.
  intros H.
  destruct (foreach_subs_spec (search_arg_foreach callback) (foreach_known callback) stop res stop_res subs) as (r & subs' & -> & Hw & Hr).
  { eapply Forall_impl; [exact H |]. intros s (s' & -> & _). by eexists. }
  assert (Hst : forall s s', s ∈ subs -> search_arg_foreach callback s = Some s' -> stepped callback s s').
  { intros s s' Hin Hs. destruct (proj1 (Forall_forall _ _) H s Hin) as (s1 & Hs1 & Hp). congruence. }
  exists r, subs'. split_and!; [done | |].
  - apply Forall2_same_length_lookup in Hw as [Hl Hw]. apply Forall2_same_length_lookup. split; [done |]. intros i s s' Hi Hi'.
    destruct (Hw i s s' Hi Hi') as [-> | Hs]; [by left | right]. apply Hst; [by eapply list_elem_of_lookup_2 | done].
  - destruct Hr as [? | (Hr & Hf & Hn)]; [by left | right]. split_and!; [done | | done].
    apply Forall2_same_length_lookup in Hf as [Hl Hf]. apply Forall2_same_length_lookup. split; [done |]. intros i s s' Hi Hi'.
    apply Hst; [by eapply list_elem_of_lookup_2 | eauto].
Qed.

Lemma stepped_known callback a : sound a -> open a = false -> stepped callback a a.
Proof. intros Hs Ho. split; [done | done | apply same_leaf_refl |]. intros. by apply pending_known. Qed.

Lemma existsb_open subs : existsb open subs = true -> Exists (fun s => open s = true) subs.
Proof. intros (s & Hin & Ho)%existsb_exists. apply Exists_exists. exists s. split; [by apply list_elem_of_In | done]. Qed.

Lemma stepped_sounds callback subs subs' :
  Forall sound subs -> Forall2 (fun s s' => s' = s \/ stepped callback s s') subs subs' -> Forall sound subs'.
Proof. intros Hs Hw. induction Hw as [|s s' ? ? [-> | H]]; inversion Hs; subst; constructor; auto. apply H. Qed.

Lemma put_result_same v r : a_result v = r -> put_result r v = v.
Proof. destruct v. cbn. by intros ->. Qed.

Lemma leaf_stepped callback v subs :
  is_group v = false -> a_result v = -1 -> sound (Arg v subs) -> callback_ok callback (Arg v subs) ->
  exists v', callback v = Some v' /\ stepped callback (Arg v subs) (Arg v' subs).
Proof.
  intros Hg Hv Hs Hc. destruct Hc as (r & Heq & Hr); [unfold open, result; cbn; by rewrite Hv |]. cbn [value] in Heq.
  exists (put_result r v). split; [done |]. split.
  - apply eval_put_result.
  - constructor; [cbn [a_result put_result]; by rewrite eval_put_result |].
    change (is_group (put_result r v)) with (is_group v). by rewrite Hg.
  - cbn [leaves]. change (is_group (put_result r v)) with (is_group v). rewrite Hg. constructor; [| constructor].
    destruct (decide (r = -1)) as [-> | Hn]; [left; by rewrite put_result_same | right; by apply Z.eqb_neq].
  - intros D HD. destruct (decide (r = -1)) as [-> | Hn]; [| by apply pending_known, Z.eqb_neq].
    rewrite put_result_same in * by done. apply pending_leaf; [done |]. constructor; [done |].
    inversion HD as [? Ho | ? ? _ Hl | ? ? Hgr]; subst; [unfold open, result in Ho; cbn in Ho; by rewrite Hv in Ho | done | congruence].
Qed.

Lemma foreach_arg_spec callback a :
  sound a -> Forall (callback_ok callback) (leaves a) -> exists a', search_arg_foreach callback a = Some a' /\ stepped callback a a'.
Proof.
  induction a as [v subs IH]. intros Hs Hc. destruct (decide (a_result v = -1)) as [Hv | Hv].
  2:{ exists (Arg v subs). split; [by apply foreach_known | apply stepped_known; [done | by apply Z.eqb_neq]]. }
  cbn [search_arg_foreach]. rewrite Hv. cbn [Z.eqb Pos.eqb negb]. destruct (is_group v) eqn:Hg.
  2:{ unfold is_group in Hg. apply orb_false_iff in Hg as [H1 H2]. rewrite H1, H2.
      assert (Hg : is_group v = false) by (unfold is_group; by rewrite H1, H2). cbn [leaves] in Hc. rewrite Hg in Hc.
      inversion Hc as [| ? ? Hcb _]; subst. destruct (leaf_stepped callback v subs Hg Hv Hs Hcb) as (v' & -> & ?). by eexists. }
  inversion Hs as [? ? Hres Hsub]; subst. destruct (Hsub Hg) as [Hne Hss]. cbn [leaves] in Hc. rewrite Hg in Hc.
  rewrite assert_true by (by destruct subs). cbn [mbind option_bind].
  assert (Hst : Forall (fun s => exists s', search_arg_foreach callback s = Some s' /\ stepped callback s s') subs).
  { clear -IH Hss Hc. induction subs as [|s subs IHs]; [constructor |]. inversion IH; inversion Hss; subst. cbn in Hc.
    apply Forall_app in Hc as [? ?]. constructor; auto. }
  assert (Hgt : is_type SEARCH_SUB v = true \/ is_type SEARCH_SUB v = false /\ is_type SEARCH_OR v = true)
    by (unfold is_group in Hg; destruct (is_type SEARCH_SUB v); auto).
  destruct Hgt as [Ht | [Ht Ht']]; rewrite Ht, ?Ht'.
  - destruct (subs_stepped callback (fun r => r =? 0) 1 0 subs Hst) as (r & subs' & -> & Hw & Hr). cbn [mbind option_bind].
    eexists. split; [done |]. apply group_stepped; [done.. | |].
    + unfold group_value. rewrite Ht. apply conj_outcome; [by eapply stepped_sounds |]. tauto.
    + intros ->. destruct Hr as [[? _] | (Hr & ? & Hn)]; [done |]. split; [done |]. unfold undecided, stops. rewrite Ht. split; [| done].
      apply existsb_open. by destruct (existsb open subs').
  - destruct (subs_stepped callback (fun r => r >? 0) 0 1 subs Hst) as (r & subs' & -> & Hw & Hr). cbn [mbind option_bind].
    eexists. split; [done |]. apply group_stepped; [done.. | |].
    + unfold group_value. rewrite Ht. apply disj_outcome; [by eapply stepped_sounds |]. tauto.
    + intros ->. destruct Hr as [[? _] | (Hr & ? & Hn)]; [done |]. split; [done |]. unfold undecided, stops. rewrite Ht. split; [| done].
      apply existsb_open. by destruct (existsb open subs').
Qed.

(** ** Several passes *)

(** The callbacks [D] can decide every leaf that has a value. *)
Definition decided (D : list (arg_value -> option arg_value)) (l : mail_search_arg) : Prop :=
  open l = true -> eval l = 1 \/ Exists (fun cb => cb (value l) <> Some (value l)) D.

Lemma undecided_value v subs :
  is_group v = true -> undecided v subs -> Forall sound subs -> Forall (fun s => open s = true -> eval s = 1) subs -> group_value v subs = 1.
Proof.
  intros Hg [He Hf] Hs Ho.
  assert (Hv : Forall (fun s => eval s = 1 \/ eval s = if is_type SEARCH_SUB v then 2 else 0) subs).
  { apply Forall_forall. intros s Hin. pose proof (proj1 (Forall_forall _ _) Ho s Hin) as H1.
    destruct (open s) eqn:Eo; [left; by apply H1 | right].
    destruct (proj1 (Forall_forall _ _) Hf s Hin) as [? | Hst]; [congruence |]. pose proof (proj1 (Forall_forall _ _) Hs s Hin) as Hsn.
    unfold stops in Hst. unfold open in Eo. rewrite (sound_result s Hsn) in Hst, Eo by done. revert Hst Eo.
    destruct (is_type SEARCH_SUB v); by destruct (eval_cases s) as [-> | [-> | ->]]. }
  assert (H1 : Exists (fun s => eval s = 1) subs).
  { apply Exists_exists in He as (s & Hin & Hos). apply Exists_exists. exists s. split; [done |].
    by apply (proj1 (Forall_forall _ _) Ho s Hin). }
  unfold group_value. clear -Hv H1. destruct (is_type SEARCH_SUB v); unfold conj_all, disj_all.
  - induction H1 as [s subs Hs | s subs H1 IH]; inversion Hv; subst; cbn.
    + assert (1 <= foldr Z.min 2 (map (fun s => eval s) subs)) by (clear -H2; induction H2; cbn; lia). lia.
    + rewrite IH; [lia | done].
  - induction H1 as [s subs Hs | s subs H1 IH]; inversion Hv; subst; cbn.
    + assert (0 <= foldr Z.max 0 (map (fun s => eval s) subs) <= 1) by (clear -H2; induction H2; cbn; lia). lia.
    + rewrite IH; [lia | done].
Qed.

Lemma pending_value D a :
  D <> [] -> pending D a -> sound a -> Forall (decided D) (leaves a) -> open a = true -> eval a = 1.
Proof.
  intros HD. induction a as [v subs IH]. intros Hp Hs Hl Ho. inversion Hp as [? Hk | ? ? Hg Hf | ? ? Hg Hf Hu]; subst; [congruence | |].
  - cbn [leaves] in Hl. rewrite Hg in Hl. inversion Hl as [| ? ? Hd _]; subst. destruct (Hd Ho) as [? | He]; [done | exfalso].
    apply Exists_exists in He as (cb & Hin & Hr). apply Hr. by apply (proj1 (Forall_forall _ _) Hf cb Hin).
  - inversion Hs as [? ? _ Hss]; subst. destruct (Hss Hg) as [_ Hss']. rewrite (eval_group v subs Hg), (undecided_value v subs Hg (Hu HD) Hss'); [by destruct (a_match_not v) |].
    cbn [leaves] in Hl. rewrite Hg in Hl. clear -IH Hf Hss' Hl. induction subs as [|s subs IHs]; [constructor |].
    inversion IH; inversion Hf; inversion Hss'; subst. cbn in Hl. apply Forall_app in Hl as [? ?]. constructor; auto.
Qed.

(** The passes of a search: the callbacks are tried one after the other until
    the result is known. *)
Fixpoint search_passes (cbs : list (arg_value -> option arg_value)) (args : list mail_search_arg) : option (Z * list mail_search_arg) :=
  match cbs with
  | [] => Some (-1, args)
  | cb :: cbs => '(r, args) ← mail_search_args_foreach cb args; if r =? -1 then search_passes cbs args else Some (r, args)
  end.

(** The argument list as the arguments of a SUB. *)
Definition top : arg_value := put_result (-1) (zero_value SEARCH_SUB).

Lemma foreach_top cb args :
  args <> [] ->
  search_arg_foreach cb (Arg top args) = '(r, args') ← mail_search_args_foreach cb args; Some (Arg (put_result r top) args').
Proof. intros Hne. cbn. unfold mail_search_args_foreach. rewrite foreach_loop_subs, assert_true by (by destruct args). done. Qed.

Lemma pending_nil a : pending [] a.
Proof.
  induction a as [v subs IH]. destruct (is_group v) eqn:Hg; [by apply pending_group | by apply pending_leaf].
Qed.

Lemma decided_same D l l' : Forall2 same_leaf l l' -> Forall (decided D) l -> Forall (decided D) l'.
Proof.
  induction 1 as [|x x' l l' [-> | Hx] _ IH]; intros Hd; inversion Hd; subst; constructor; auto.
  intros Ho. congruence.
Qed.

Lemma callback_ok_same cb l l' : Forall2 same_leaf l l' -> Forall (callback_ok cb) l -> Forall (callback_ok cb) l'.
Proof.
  induction 1 as [|x x' l l' [-> | Hx] _ IH]; intros Hd; inversion Hd; subst; constructor; auto.
  intros Ho. congruence.
Qed.

Lemma search_passes_spec cbs D args :
  args <> [] -> sound (Arg top args) -> pending D (Arg top args) -> cbs ++ D <> [] ->
  Forall (fun cb => Forall (callback_ok cb) (leaves (Arg top args))) cbs -> Forall (decided (rev cbs ++ D)) (leaves (Arg top args)) ->
  exists args', search_passes cbs args = Some (code (eval (Arg top args)), args').
Proof.
  revert D args. induction cbs as [|cb cbs IH]; intros D args Hne Hs Hp HD Hc Hd.
  { exists args. cbn [search_passes]. cut (eval (Arg top args) = 1); [by intros -> |]. by apply (pending_value D). }
  inversion Hc as [| ? ? Hcb Hcbs]; subst. destruct (foreach_arg_spec cb (Arg top args) Hs Hcb) as (a' & Ha' & Hst).
  rewrite foreach_top in Ha' by done. cbn [search_passes]. destruct (mail_search_args_foreach cb args) as [[r args']|]; [| done].
  cbn [mbind option_bind] in *. injection Ha' as <-. destruct (Z.eqb_spec r (-1)) as [-> | Hr].
  - change (put_result (-1) top) with top in Hst. rewrite <- (stepped_eval _ _ _ Hst). apply (IH (cb :: D)).
    + intros ->. pose proof (stepped_sound _ _ _ Hst) as H. inversion H as [? ? _ Hx]; subst. by destruct (Hx eq_refl).
    + apply Hst.
    + by apply (stepped_pending _ _ _ Hst).
    + by destruct cbs.
    + eapply Forall_impl; [exact Hcbs |]. intros cb' H. eapply callback_ok_same; [apply Hst | done].
    + eapply decided_same; [apply Hst |]. cbn [rev] in Hd. by rewrite <- app_assoc in Hd.
  - exists args'. do 2 f_equal. rewrite <- (stepped_eval _ _ _ Hst).
    by apply (sound_result (Arg (put_result r top) args') (stepped_sound _ _ _ Hst)), Z.eqb_neq.
Qed.

End Pass.
