(* ===== verification/MailSearchSimplifyProps.v ===== *)
(** * Simplifying search arguments: meaning and constraints

    What merging relies on ([LeafSpec], kept by the leaves of index-search.c),
    the constraints that the leaves of a tree put on merging, and that a
    merge of compatible leaves keeps the meaning of a level. *)

From S2P Require Import Prelude SeqRange Table ImapArg MailSearch MailSearchSimplify MailSearchEval.

Definition is_time (t : mail_search_arg_type) : bool := match t with SEARCH_BEFORE | SEARCH_ON | SEARCH_SINCE => true | _ => false end.
Definition is_size (t : mail_search_arg_type) : bool := match t with SEARCH_SMALLER | SEARCH_LARGER => true | _ => false end.
Definition is_set (t : mail_search_arg_type) : bool := match t with SEARCH_SEQSET | SEARCH_UIDSET => true | _ => false end.
Definition is_text (t : mail_search_arg_type) : bool :=
  match t with SEARCH_HEADER | SEARCH_HEADER_ADDRESS | SEARCH_HEADER_COMPRESS_LWSP | SEARCH_BODY | SEARCH_TEXT => true | _ => false end.

(** What the value of a leaf depends on. *)
Class LeafSpec {M : Type} (leaf : M -> arg_value -> Z) : Prop := {
  leaf_range m v : tri (leaf m v);
  leaf_not m v b : leaf m (put_not b v) = leaf m v;
  leaf_res m v r : leaf m (put_result r v) = leaf m v;
  leaf_flags m v1 v2 : a_type v1 = SEARCH_FLAGS -> a_type v2 = SEARCH_FLAGS ->
    leaf m (put_flags (Z.lor (a_flags v1) (a_flags v2)) v1) = Z.min (leaf m v1) (leaf m v2);
  leaf_set m v1 v2 : is_set (a_type v1) = true -> a_type v2 = a_type v1 -> a_seqset v2 = a_seqset v1 -> leaf m v2 = leaf m v1;
  leaf_time m v1 v2 : is_time (a_type v1) = true -> time_mask v1 = time_mask v2 -> leaf m v2 = leaf m (put_time (a_time v2) v1);
  leaf_size m v1 v2 : is_size (a_type v1) = true -> a_type v1 = a_type v2 -> leaf m v2 = leaf m (put_size (a_size v2) v1);
  leaf_text m v1 v2 : is_text (a_type v1) = true -> text_mask v1 = text_mask v2 -> leaf m v2 = leaf m v1;
  leaf_before m v t1 t2 : a_type v = SEARCH_BEFORE -> t1 <= t2 -> leaf m (put_time t1 v) <= leaf m (put_time t2 v);
  leaf_since m v t1 t2 : a_type v = SEARCH_SINCE -> t1 <= t2 -> leaf m (put_time t2 v) <= leaf m (put_time t1 v);
  leaf_smaller m v s1 s2 : a_type v = SEARCH_SMALLER -> s1 <= s2 -> leaf m (put_size s1 v) <= leaf m (put_size s2 v);
  leaf_larger m v s1 s2 : a_type v = SEARCH_LARGER -> s1 <= s2 -> leaf m (put_size s2 v) <= leaf m (put_size s1 v);
}.

(** ** One function for all merges *)

(** The mask under which a leaf is recorded, if it is. *)
Definition mask_of (c : bool) (v : arg_value) : option mail_search_simplify_mask :=
  match a_type v with
  | SEARCH_FLAGS | SEARCH_SEQSET | SEARCH_UIDSET => if xorb (a_match_not v) c then Some (mail_search_arg_get_base_mask v) else None
  | SEARCH_BEFORE | SEARCH_ON | SEARCH_SINCE => Some (time_mask v)
  | SEARCH_SMALLER | SEARCH_LARGER => Some (mail_search_arg_get_base_mask v)
  | SEARCH_HEADER | SEARCH_HEADER_ADDRESS | SEARCH_HEADER_COMPRESS_LWSP | SEARCH_BODY | SEARCH_TEXT => Some (text_mask v)
  | _ => None
  end.

(** What becomes of the earlier argument [prev]. *)
Definition merge_value (c : bool) (v prev : arg_value) : option (option arg_value) :=
  match a_type v with
  | SEARCH_FLAGS => Some (Some (put_flags (Z.lor (a_flags prev) (a_flags v)) prev))
  | SEARCH_SEQSET | SEARCH_UIDSET => s ← seq_range_array_merge (a_seqset prev) (a_seqset v); Some (Some (put_seqset s prev))
  | SEARCH_BEFORE | SEARCH_ON | SEARCH_SINCE => Some (merge_time_value c prev v)
  | SEARCH_SMALLER | SEARCH_LARGER => Some (merge_size_value c prev v)
  | _ => Some (Some prev)
  end.

Lemma try_merge_mask {T} `{!Table mail_search_simplify_mask nat T} c done (t : T) v :
  try_merge c done t v = match mask_of c v with None => Some (done, t, false) | Some mask => merge_with mask (merge_value c v) done t end.
Proof.
  unfold try_merge, mask_of, mail_search_args_merge_flags, mail_search_args_merge_set, merge_value.
  destruct (a_type v) eqn:E; try done; destruct (a_match_not v), c; cbn; try done.
Qed.

(** ** Constraints *)

(** The leaves that merging must not change: sets that are merged although
    the parent wants their intersection, and negated comparisons. *)
Inductive payload := PSet (s : list seq_range) | PNum (n : Z).

Definition leaf_csts (c : bool) (v : arg_value) : list (mail_search_simplify_mask * payload) :=
  match a_type v with
  | SEARCH_SEQSET | SEARCH_UIDSET => if xorb (a_match_not v) c then [(mail_search_arg_get_base_mask v, PSet (a_seqset v))] else []
  | SEARCH_BEFORE | SEARCH_SINCE => if a_match_not v then [(time_mask v, PNum (a_time v))] else []
  | SEARCH_SMALLER | SEARCH_LARGER => if a_match_not v then [(mail_search_arg_get_base_mask v, PNum (a_size v))] else []
  | _ => []
  end.

Definition compatible (x y : mail_search_simplify_mask * payload) : bool :=
  negb (bool_decide (x.1 = y.1)) ||
  match x.2, y.2 with
  | PSet s1, PSet s2 => bool_decide (s1 = s2) && bool_decide (seq_range_array_merge s1 s2 = Some s1)
  | PNum a, PNum b => a =? b
  | _, _ => false
  end.

(** The constraints of a tree below [n] negations, in a conjunction ([c]) or a
    disjunction.  A group of one argument is replaced by its argument. *)
Fixpoint csts (n c : bool) (a : mail_search_arg) : list (mail_search_simplify_mask * payload) :=
  let '(Arg v subs) := a in
  let n := xorb n (a_match_not v) in
  if is_group v then
    flat_map (csts n (if (length subs =? 1)%nat then c else if is_type SEARCH_OR v then n else negb n)) subs
  else if is_type SEARCH_INTHREAD v then flat_map (csts false true) subs
  else leaf_csts c (put_not n v).

Definition csts_list (c : bool) (l : list mail_search_arg) : list (mail_search_simplify_mask * payload) := flat_map (csts false c) l.

Fixpoint pairwise (l : list (mail_search_simplify_mask * payload)) : bool :=
  match l with [] => true | x :: l => forallb (compatible x) l && pairwise l end.

(** No two leaves are in conflict. *)
Definition no_conflicts (l : list mail_search_arg) : bool := pairwise (csts_list true l).

(** Every SUB and OR has arguments. *)
Fixpoint groups_ok (a : mail_search_arg) : bool :=
  let '(Arg v subs) := a in
  (negb (is_group v) || negb (length subs =? 0)%nat) && (if has_subargs v then forallb groups_ok subs else true).

Lemma pairwise_app l1 l2 : pairwise (l1 ++ l2) = true -> pairwise l1 = true /\ pairwise l2 = true /\
  forall x y, x ∈ l1 -> y ∈ l2 -> compatible x y = true.
Proof.
  induction l1 as [|z l1 IH]; cbn; intros H; [split_and!; [done | done |]; intros x y Hx; inversion Hx |].
  apply andb_true_iff in H as [Hz H]. destruct (IH H) as (H1 & H2 & H3). rewrite forallb_app in Hz. apply andb_true_iff in Hz as [Hz1 Hz2].
  rewrite H1, Hz1. split_and!; [done | done |]. intros x y Hx Hy. apply elem_of_cons in Hx as [-> | Hx]; [| by apply H3].
  rewrite forallb_forall in Hz2. apply Hz2. by apply list_elem_of_In.
Qed.

Lemma pairwise_sublist l1 l2 : sublist l1 l2 -> pairwise l2 = true -> pairwise l1 = true.
Proof.
  induction 1 as [| x l1 l2 Hs IH | x l1 l2 Hs IH]; cbn; intros H; [done | |]; apply andb_true_iff in H as [Hx H]; [| by apply IH].
  rewrite IH by done. rewrite andb_true_r. rewrite forallb_forall in Hx |- *. intros y Hy. apply Hx. apply list_elem_of_In.
  eapply sublist_subseteq; [exact Hs |]. by apply list_elem_of_In.
Qed.

(** ** Merging two leaves *)

Lemma mask_of_type c v k : mask_of c v = Some k -> mask_type k = a_type v /\ mask_match_not k = a_match_not v.
Proof. unfold mask_of. destruct (a_type v) eqn:E; try destruct (xorb _ c); intros [= <-]; cbn; auto. Qed.

(** A recorded leaf has its constraints wherever it is moved. *)
Lemma leaf_csts_moved c c' v k : mask_of c v = Some k -> sublist (leaf_csts c' v) (leaf_csts c v).
Proof.
  unfold mask_of, leaf_csts. destruct (a_type v); try done; destruct (xorb _ c) eqn:E; intros H; try discriminate H; try done;
    destruct (xorb (a_match_not v) c'); auto using sublist_nil_l.
Qed.

Lemma put_time_same v : put_time (a_time v) v = v. Proof. by destruct v. Qed.
Lemma put_size_same v : put_size (a_size v) v = v. Proof. by destruct v. Qed.
Lemma put_seqset_same v : put_seqset (a_seqset v) v = v. Proof. by destruct v. Qed.
Lemma put_not_same v : put_not (a_match_not v) v = v. Proof. by destruct v. Qed.

Definition combine (c : bool) (x y : Z) : Z := if c then Z.min x y else Z.max x y.

Section Merge.
Context {M : Type} (leaf : M -> arg_value -> Z) `{!LeafSpec leaf}.

Definition leaf_value (v : arg_value) (m : M) : Z := neg (a_match_not v) (leaf m v).

Record merged (c : bool) (k : mail_search_simplify_mask) (p v p' : arg_value) : Prop := {
  merged_mask : mask_of c p' = Some k;
  merged_csts : leaf_csts c p' = leaf_csts c p;
  merged_value m : leaf_value p' m = combine c (leaf_value p m) (leaf_value v m);
}.

Lemma combine_idem c x : combine c x x = x.
Proof. unfold combine. destruct c; lia. Qed.

(** Two leaves with the same value. *)
Lemma merged_same c k p v :
  mask_of c p = Some k -> a_match_not v = a_match_not p -> (forall m, leaf m v = leaf m p) -> merged c k p v p.
Proof. intros Hp Hn Hv. split; [done | done |]. intros m. unfold leaf_value. by rewrite Hn, Hv, combine_idem. Qed.

(** The merged value of a comparison, where a larger number makes it weaker
    ([up]) or stronger. *)
Lemma compare_merge (f : Z -> Z) (up c : bool) a b :
  (forall x y, x <= y -> if up then f x <= f y else f y <= f x) ->
  f (if Bool.eqb up c then if a <? b then a else b else if a <? b then b else a) = combine c (f a) (f b).
Proof. intros Hf. pose proof (Hf a b). pose proof (Hf b a). unfold combine. destruct up, c; cbn; destruct (Z.ltb_spec a b); lia. Qed.

Lemma compatible_num k a b : compatible (k, PNum a) (k, PNum b) = true -> a = b.
Proof. unfold compatible. cbn. rewrite bool_decide_eq_true_2 by done. cbn. apply Z.eqb_eq. Qed.

Lemma compatible_set k s1 s2 : compatible (k, PSet s1) (k, PSet s2) = true -> s1 = s2 /\ seq_range_array_merge s1 s2 = Some s1.
Proof. unfold compatible. cbn. rewrite bool_decide_eq_true_2 by done. cbn. intros [? ?]%andb_true_iff. by rewrite !bool_decide_eq_true in *. Qed.

(** The date and size comparisons, with the number and the way to set it. *)
Section Compare.
Variables (num : arg_value -> Z) (put : Z -> arg_value -> arg_value) (p v : arg_value) (up c : bool).
Hypothesis put_same : put (num p) p = p.
Hypothesis put_keeps : forall x, mask_of c (put x p) = mask_of c p /\ a_match_not (put x p) = a_match_not p.
Hypothesis put_csts : forall x, leaf_csts c (put x p) = if a_match_not p then [(default (mail_search_arg_get_base_mask p) (mask_of c p), PNum x)] else [].
Hypothesis csts_v : leaf_csts c v = if a_match_not v then [(default (mail_search_arg_get_base_mask v) (mask_of c v), PNum (num v))] else [].
Hypothesis leaf_v : forall m, leaf m v = leaf m (put (num v) p).
Hypothesis leaf_mono : forall m x y, x <= y -> if up then leaf m (put x p) <= leaf m (put y p) else leaf m (put y p) <= leaf m (put x p).

Lemma compare_merged k :
  mask_of c p = Some k -> mask_of c v = Some k ->
  (forall x y, x ∈ leaf_csts c p -> y ∈ leaf_csts c v -> compatible x y = true) ->
  merged c k p v (put (if Bool.eqb up c then if num p <? num v then num p else num v else if num p <? num v then num v else num p) p).
Proof.
  intros Hp Hv Hc. destruct (mask_of_type c p k Hp) as [_ Hnp], (mask_of_type c v k Hv) as [_ Hnv].
  pose proof (put_csts (num p)) as Hcp. rewrite put_same in Hcp. set (x := if Bool.eqb up c then _ else _).
  destruct (a_match_not p) eqn:En.
  - assert (num p = num v) as Hpv.
    { rewrite Hcp, csts_v, Hp, Hv in Hc. destruct (a_match_not v); [| congruence].
      apply (compatible_num k). apply Hc; by apply list_elem_of_singleton. }
    assert (Hx : x = num p) by (subst x; rewrite <- Hpv; destruct (Bool.eqb up c), (num p <? num p); done).
    rewrite Hx, put_same. apply merged_same; [done | congruence |]. intros m. by rewrite leaf_v, <- Hpv, put_same.
  - destruct (put_keeps x) as [Hk Hn]. split; [by rewrite Hk | by rewrite put_csts, Hcp |]. intros m. unfold leaf_value.
    rewrite Hn, En. replace (a_match_not v) with false by congruence. cbn [neg]. rewrite leaf_v. subst x.
    rewrite (compare_merge (fun x => leaf m (put x p))) by apply leaf_mono. by rewrite put_same.
Qed.
End Compare.

Notation compatible_csts c p v := (forall x y, x ∈ leaf_csts c p -> y ∈ leaf_csts c v -> compatible x y = true).

Lemma merge_time_sound c k p v :
  is_time (a_type v) = true -> a_type p = a_type v -> mask_of c p = Some k -> mask_of c v = Some k -> compatible_csts c p v ->
  forall p', merge_time_value c p v = Some p' -> merged c k p v p'.
Proof.
  intros Hty Ht Hp Hv Hc p'. destruct (mask_of_type c p k Hp) as [_ Hnp], (mask_of_type c v k Hv) as [_ Hnv].
  assert (Hm : time_mask p = time_mask v) by (unfold mask_of in Hp, Hv; rewrite Ht in Hp; destruct (a_type v); try done; congruence).
  assert (Hl : forall m, leaf m v = leaf m (put_time (a_time v) p)) by (intros m; apply leaf_time; [by rewrite Ht | done]).
  unfold merge_time_value. destruct (a_type v) eqn:E; try discriminate Hty.
  - intros Hp'. replace p' with (put_time (if Bool.eqb true c then if a_time p <? a_time v then a_time p else a_time v
                                          else if a_time p <? a_time v then a_time v else a_time p) p).
    2:{ destruct c; cbn; destruct (a_time p <? a_time v); injection Hp' as <-; try done; by rewrite put_time_same. }
    apply compare_merged; try done.
    + apply put_time_same.
    + intros x. unfold mask_of, leaf_csts. cbn [a_type put_time]. by rewrite Ht.
    + unfold leaf_csts, mask_of. by rewrite E.
    + intros m x y Hxy. by apply leaf_before.
  - destruct (Z.eqb_spec (a_time p) (a_time v)) as [Hpv | _]; intros [= <-]. apply merged_same; [done | congruence |].
    intros m. by rewrite Hl, <- Hpv, put_time_same.
  - intros Hp'. replace p' with (put_time (if Bool.eqb false c then if a_time p <? a_time v then a_time p else a_time v
                                          else if a_time p <? a_time v then a_time v else a_time p) p).
    2:{ destruct c; cbn; destruct (a_time p <? a_time v); injection Hp' as <-; try done; by rewrite put_time_same. }
    apply compare_merged; try done.
    + apply put_time_same.
    + intros x. unfold mask_of, leaf_csts. cbn [a_type put_time]. by rewrite Ht.
    + unfold leaf_csts, mask_of. by rewrite E.
    + intros m x y Hxy. by apply leaf_since.
Qed.

Lemma merge_size_sound c k p v :
  is_size (a_type v) = true -> a_type p = a_type v -> mask_of c p = Some k -> mask_of c v = Some k -> compatible_csts c p v ->
  forall p', merge_size_value c p v = Some p' -> merged c k p v p'.
Proof.
  intros Hty Ht Hp Hv Hc p'.
  assert (Hl : forall m, leaf m v = leaf m (put_size (a_size v) p)) by (intros m; apply leaf_size; [by rewrite Ht | done]).
  unfold merge_size_value. destruct (a_type v) eqn:E; try discriminate Hty; intros Hp'.
  - replace p' with (put_size (if Bool.eqb true c then if a_size p <? a_size v then a_size p else a_size v
                               else if a_size p <? a_size v then a_size v else a_size p) p).
    2:{ destruct c; cbn; destruct (a_size p <? a_size v); injection Hp' as <-; try done; by rewrite put_size_same. }
    apply compare_merged; try done.
    + apply put_size_same.
    + intros x. unfold mask_of, leaf_csts. cbn [a_type put_size]. by rewrite Ht.
    + unfold leaf_csts, mask_of. by rewrite E.
    + intros m x y Hxy. by apply leaf_smaller.
  - replace p' with (put_size (if Bool.eqb false c then if a_size p <? a_size v then a_size p else a_size v
                               else if a_size p <? a_size v then a_size v else a_size p) p).
    2:{ destruct c; cbn; destruct (a_size p <? a_size v); injection Hp' as <-; try done; by rewrite put_size_same. }
    apply compare_merged; try done.
    + apply put_size_same.
    + intros x. unfold mask_of, leaf_csts. cbn [a_type put_size]. by rewrite Ht.
    + unfold leaf_csts, mask_of. by rewrite E.
    + intros m x y Hxy. by apply leaf_larger.
Qed.

Lemma merge_flags_sound c k p v :
  a_type v = SEARCH_FLAGS -> a_type p = SEARCH_FLAGS -> mask_of c p = Some k -> mask_of c v = Some k ->
  merged c k p v (put_flags (Z.lor (a_flags p) (a_flags v)) p).
Proof.
  intros Htv Htp Hp Hv. destruct (mask_of_type c p k Hp) as [_ Hnp], (mask_of_type c v k Hv) as [_ Hnv].
  split; [done | by unfold leaf_csts; cbn [a_type put_flags]; rewrite Htp |]. intros m. unfold leaf_value. cbn [a_match_not put_flags].
  rewrite leaf_flags by done. unfold mask_of in Hp. rewrite Htp in Hp. rewrite <- Hnv, Hnp. unfold combine, neg.
  destruct (a_match_not p), c; try discriminate Hp; lia.
Qed.

Lemma merge_set_sound c k p v :
  is_set (a_type v) = true -> a_type p = a_type v -> mask_of c p = Some k -> mask_of c v = Some k -> compatible_csts c p v ->
  exists s, seq_range_array_merge (a_seqset p) (a_seqset v) = Some s /\ merged c k p v (put_seqset s p).
Proof.
  intros Hty Ht Hp Hv Hc. destruct (mask_of_type c p k Hp) as [_ Hnp], (mask_of_type c v k Hv) as [_ Hnv].
  assert (Hcs : (k, PSet (a_seqset p)) ∈ leaf_csts c p /\ (k, PSet (a_seqset v)) ∈ leaf_csts c v).
  { unfold mask_of, leaf_csts in *. rewrite Ht in *. destruct (a_type v); try done; destruct (xorb (a_match_not p) c), (xorb (a_match_not v) c);
      try discriminate; split; apply list_elem_of_singleton; congruence. }
  destruct Hcs as [Hcp Hcv]. destruct (compatible_set k (a_seqset p) (a_seqset v)) as [He Hm]; [by apply Hc |].
  exists (a_seqset p). split; [done |]. rewrite put_seqset_same. apply merged_same; [done | congruence |].
  intros m. apply leaf_set; [by rewrite Ht | done | done].
Qed.

Lemma merge_text_sound c k p v :
  is_text (a_type v) = true -> a_type p = a_type v -> mask_of c p = Some k -> mask_of c v = Some k -> merged c k p v p.
Proof.
  intros Hty Ht Hp Hv. destruct (mask_of_type c p k Hp) as [_ Hnp], (mask_of_type c v k Hv) as [_ Hnv].
  apply merged_same; [done | congruence |]. intros m. apply leaf_text; [by rewrite Ht |].
  unfold mask_of in Hp, Hv. rewrite Ht in Hp. destruct (a_type v); try done; congruence.
Qed.

Lemma merge_sound c k p v :
  mask_of c p = Some k -> mask_of c v = Some k -> compatible_csts c p v ->
  exists o, merge_value c v p = Some o /\ forall p', o = Some p' -> merged c k p v p'.
Proof.
  intros Hp Hv Hc. destruct (mask_of_type c p k Hp) as [Htp _], (mask_of_type c v k Hv) as [Htv _].
  assert (Ht : a_type p = a_type v) by congruence. clear Htp Htv. unfold merge_value.
  destruct (a_type v) eqn:E; try (unfold mask_of in Hv; rewrite E in Hv; discriminate Hv).
  1, 2: (destruct (merge_set_sound c k p v) as (s & -> & Hs); [by rewrite E | congruence | done.. |];
      eexists; split; [done |]; intros p' [= <-]; done).
  1: (eexists; split; [done |]; intros p' [= <-]; by apply merge_flags_sound).
  1, 2, 3: (eexists; split; [done |]; apply merge_time_sound; [by rewrite E | congruence | done..]).
  1, 2: (eexists; split; [done |]; apply merge_size_sound; [by rewrite E | congruence | done..]).
  all: (eexists; split; [done |]; intros p' [= <-]; apply merge_text_sound; [by rewrite E | congruence | done..]).
Qed.

End Merge.
