(* ===== verification/MailSearchSimplifyLoop.v ===== *)
(** * Simplifying search arguments: a pass keeps the meaning

    Each rewriting of [simplify_loop] keeps the value of the level, and leaves
    a sublist of the constraints.  A pass therefore returns, with fuel for the
    nodes of the tree, a level of the same value. *)

From S2P Require Import Prelude SeqRange Table ImapArg MailSearch MailSearchSimplify MailSearchEval MailSearchSimplifyProps.

(** ** Negation and nesting *)

Lemma conj_all_le l : conj_all l <= 2.
Proof. unfold conj_all. induction l; cbn; lia. Qed.

Lemma disj_all_ge l : 0 <= disj_all l.
Proof. unfold disj_all. induction l; cbn; lia. Qed.

Lemma conj_all_app l1 l2 : conj_all (l1 ++ l2) = Z.min (conj_all l1) (conj_all l2).
Proof. pose proof (conj_all_le l2). unfold conj_all in *. induction l1; cbn; lia. Qed.

Lemma disj_all_app l1 l2 : disj_all (l1 ++ l2) = Z.max (disj_all l1) (disj_all l2).
Proof. pose proof (disj_all_ge l2). unfold disj_all in *. induction l1; cbn; lia. Qed.

Lemma conj_all_neg {A} (f g : A -> Z) l : (forall a, f a = 2 - g a) -> conj_all (map f l) = 2 - disj_all (map g l).
Proof. intros H. unfold conj_all, disj_all. induction l as [|a l IH]; cbn; rewrite ?H; lia. Qed.

Lemma disj_all_neg {A} (f g : A -> Z) l : (forall a, f a = 2 - g a) -> disj_all (map f l) = 2 - conj_all (map g l).
Proof. intros H. unfold conj_all, disj_all. induction l as [|a l IH]; cbn; rewrite ?H; lia. Qed.

Lemma csts_toggle n c a : csts n c (toggle_not a) = csts (negb n) c a.
Proof.
  destruct a as [v subs]. cbn [toggle_not map_value csts]. change (is_group (put_not _ v)) with (is_group v).
  change (is_type ?t (put_not _ v)) with (is_type t v). cbn [a_match_not put_not].
  replace (xorb n (negb (a_match_not v))) with (xorb (negb n) (a_match_not v)) by (by destruct n, (a_match_not v)). done.
Qed.

Lemma csts_toggles c subs n : flat_map (csts n c) (map toggle_not subs) = flat_map (csts (negb n) c) subs.
Proof. induction subs as [|a subs IH]; [done |]. cbn [flat_map map]. by rewrite csts_toggle, IH. Qed.

Lemma args_size_app l1 l2 : args_size (l1 ++ l2) = (args_size l1 + args_size l2)%nat.
Proof. unfold args_size. by rewrite map_app, list_sum_app. Qed.

Lemma args_size_toggle subs : args_size (map toggle_not subs) = args_size subs.
Proof. unfold args_size. rewrite map_map. f_equal. apply map_ext. by intros [v l]. Qed.

Lemma groups_ok_toggle subs : forallb groups_ok (map toggle_not subs) = forallb groups_ok subs.
Proof. induction subs as [|[v l] subs IH]; [done |]. cbn [map forallb]. by rewrite IH. Qed.

Lemma is_group_subargs v : is_group v = true -> has_subargs v = true.
Proof. unfold is_group, has_subargs. by destruct (is_type SEARCH_SUB v), (is_type SEARCH_OR v). Qed.

Section Level.
Context {M : Type} (leaf : M -> arg_value -> Z) (thread : Z -> M -> list M) `{!LeafSpec leaf}.
Notation eval := (eval leaf thread).
Notation eval_list := (eval_list leaf thread).

Lemma eval_list_app c l1 l2 m : eval_list c (l1 ++ l2) m = combine c (eval_list c l1 m) (eval_list c l2 m).
Proof. unfold MailSearchEval.eval_list, combine. destruct c; rewrite map_app; [apply conj_all_app | apply disj_all_app]. Qed.

Lemma eval_list_one c a m : eval_list c [a] m = eval a m.
Proof.
  pose proof (eval_tri leaf thread (leaf_range) a m) as H. unfold tri in H. unfold MailSearchEval.eval_list, conj_all, disj_all.
  destruct c; cbn [map foldr]; lia.
Qed.

Lemma eval_toggle a m : eval (toggle_not a) m = 2 - eval a m.
Proof.
  destruct a as [v subs]. cbn [toggle_not map_value MailSearchEval.eval]. cbn [a_match_not a_type a_thread_type put_not].
  assert (Hn : forall x, neg (negb (a_match_not v)) x = 2 - neg (a_match_not v) x) by (intros x; unfold neg; destruct (a_match_not v); cbn; lia).
  rewrite <- Hn. destruct (a_type v); by rewrite ?leaf_not.
Qed.

(** What [push_not] gives. *)
Record pushed (a a' : mail_search_arg) : Prop := {
  pushed_eval m : eval a' m = eval a m;
  pushed_csts c : csts false c a' = csts false c a;
  pushed_ok : groups_ok a' = true;
  pushed_size : arg_size a' = arg_size a;
  pushed_not : is_group (value a') = true -> a_match_not (value a') = false;
}.

Lemma push_not_spec a : groups_ok a = true -> exists a', push_not a = Some a' /\ pushed a a'.
Proof.
  destruct a as [v subs]. intros Hok. unfold push_not. fold (is_group v). destruct (a_match_not v && is_group v) eqn:E.
  2:{ exists (Arg v subs). split; [done |]. split; try done. cbn. intros Hg. by rewrite Hg, andb_true_r in E. }
  apply andb_true_iff in E as [En Eg]. cbn [groups_ok] in Hok. rewrite Eg, (is_group_subargs v Eg) in Hok. cbn [negb orb] in Hok.
  apply andb_true_iff in Hok as [Hne Hok]. rewrite assert_true by done. cbn [mbind option_bind]. eexists. split; [done |].
  assert (Ht : is_type SEARCH_SUB v = true /\ is_type SEARCH_OR v = false \/ is_type SEARCH_SUB v = false /\ is_type SEARCH_OR v = true).
  { unfold is_group, is_type in *. destruct (a_type v); try discriminate Eg; auto. }
  split.
  - intros m. assert (Hd : forall s, eval (toggle_not s) m = 2 - eval s m) by (intros; apply eval_toggle).
    destruct Ht as [[H1 H2] | [H1 H2]]; rewrite H1; unfold is_type in H1, H2; cbn [MailSearchEval.eval a_type a_match_not put_type put_not];
      rewrite En, map_map; destruct (a_type v); try done; cbn [neg].
    + by rewrite (disj_all_neg _ (fun s => eval s m)).
    + by rewrite (conj_all_neg _ (fun s => eval s m)).
  - intros c. cbn [csts a_match_not put_not put_type]. rewrite En, Eg, length_map. cbn [xorb].
    destruct Ht as [[H1 H2] | [H1 H2]]; rewrite H1, H2; cbn; by rewrite csts_toggles.
  - cbn [groups_ok]. rewrite length_map, groups_ok_toggle, Hne. destruct Ht as [[-> _] | [-> _]]; by rewrite ?Hok.
  - cbn. f_equal. apply args_size_toggle.
  - done.
Qed.

(** Whether a group dissolves into its level. *)
Record dissolves (c : bool) (a : mail_search_arg) : Prop := {
  dissolves_nonempty : subargs a <> [];
  dissolves_eval m : eval a m = eval_list c (subargs a) m;
  dissolves_csts c' : (length (subargs a) = 1%nat \/ c' = c) -> csts false c' a = csts_list c' (subargs a);
  dissolves_ok : forallb groups_ok (subargs a) = true;
}.

Lemma eval_group_list v subs m :
  is_group v = true -> a_match_not v = false -> eval (Arg v subs) m = eval_list (negb (is_type SEARCH_OR v)) subs m.
Proof.
  intros Hg Hn. cbn [MailSearchEval.eval]. rewrite Hn. cbn [neg]. unfold is_group, is_type, MailSearchEval.eval_list in *.
  destruct (a_type v); try discriminate Hg; done.
Qed.

Lemma csts_group v subs c :
  is_group v = true -> a_match_not v = false ->
  csts false c (Arg v subs) = csts_list (if (length subs =? 1)%nat then c else negb (is_type SEARCH_OR v)) subs.
Proof. intros Hg Hn. cbn [csts]. rewrite Hg, Hn. cbn [xorb negb]. by destruct (is_type SEARCH_OR v). Qed.

Lemma flattens_spec c a :
  groups_ok a = true -> (is_group (value a) = true -> a_match_not (value a) = false) ->
  exists b, flattens c a = Some b /\
    if (b : bool) then dissolves c a
    else is_group (value a) = true -> (2 <= length (subargs a))%nat /\ negb (is_type SEARCH_OR (value a)) = negb c.
Proof.
  destruct a as [v subs]. cbn [value subargs flattens]. intros Hok Hnot. destruct (is_group v) eqn:Hg.
  2:{ exists false. unfold is_group in Hg. apply orb_false_iff in Hg as [-> ->]. by destruct c. }
  specialize (Hnot eq_refl). cbn [groups_ok] in Hok. rewrite Hg, (is_group_subargs v Hg) in Hok. cbn [negb orb] in Hok.
  apply andb_true_iff in Hok as [Hne Hok]. rewrite assert_true by done. cbn [mbind option_bind].
  assert (Hsub : is_type SEARCH_SUB v = negb (is_type SEARCH_OR v)) by (unfold is_group, is_type in *; destruct (a_type v); done).
  assert (Hd : (length subs = 1%nat \/ negb (is_type SEARCH_OR v) = c) -> dissolves c (Arg v subs)).
  { intros Hd. split; cbn [subargs]; [by destruct subs | | | done].
    - intros m. rewrite eval_group_list by done. destruct Hd as [Hl | ->]; [| done].
      destruct subs as [|s [|]]; try discriminate Hl. by rewrite !eval_list_one.
    - intros c' Hc. rewrite csts_group by done. destruct (Nat.eqb_spec (length subs) 1) as [|Hl]; [done |].
      destruct Hc as [? | ->]; [done |]. by destruct Hd as [? | ->]. }
  rewrite Hsub. destruct (is_type SEARCH_OR v) eqn:Ho, c; cbn [negb andb orb]; eexists; (split; [done |]).
  - destruct (Nat.eqb_spec (length subs) 1); [by apply Hd; left |]. intros _. destruct subs as [|? [|]]; cbn in *; try done; split; [lia | done].
  - apply Hd. by right.
  - apply Hd. by right.
  - destruct (Nat.eqb_spec (length subs) 1); [by apply Hd; left |]. intros _. destruct subs as [|? [|]]; cbn in *; try done; split; [lia | done].
Qed.

(** ** The loop *)

Context {T : Type} `{!Table mail_search_simplify_mask nat T, !TableSpec mail_search_simplify_mask nat T}.
Variable prev_args0 : T.
Hypothesis prev_args0_inv : table_inv prev_args0.
Hypothesis prev_args0_empty : forall k, table_get prev_args0 k = None.
Notation simplify_loop := (simplify_loop prev_args0).

(** The list of a level: its constraints are among [K], and so they are
    wherever it is moved when it has become a single argument of a group
    ([mv]). *)
Definition within (mv c : bool) (K : list (mail_search_simplify_mask * payload)) (l : list mail_search_arg) : Prop :=
  sublist (csts_list c l) K /\ (mv = true -> (2 <= length l)%nat \/ forall c', sublist (csts_list c' l) K).

Record table_ok (c : bool) (t : T) (done : list mail_search_arg) : Prop := {
  ok_inv : table_inv t;
  ok_get k i : table_get t k = Some i -> exists p, done !! i = Some p /\ mask_of c (value p) = Some k;
}.

(** The level [l'] after some steps from [l]. *)
Record improves (mv c : bool) (K : list (mail_search_simplify_mask * payload)) (l l' : list mail_search_arg) : Prop := {
  imp_eval m : eval_list c l' m = eval_list c l m;
  imp_within : within mv c K l';
  imp_ok : forallb groups_ok l = true -> forallb groups_ok l' = true;
  imp_nonempty : l <> [] -> l' <> [];
  imp_size : (args_size l' <= args_size l)%nat;
}.

Lemma improves_trans mv c K l1 l2 l3 : improves mv c K l1 l2 -> improves mv c K l2 l3 -> improves mv c K l1 l3.
Proof.
  intros [He1 Hw1 Ho1 Hn1 Hs1] [He2 Hw2 Ho2 Hn2 Hs2]. split; auto; [| lia]. intros m. by rewrite He2.
Qed.

Lemma csts_list_app c l1 l2 : csts_list c (l1 ++ l2) = csts_list c l1 ++ csts_list c l2.
Proof. apply flat_map_app. Qed.

Lemma csts_list_cons c a l : csts_list c (a :: l) = csts false c a ++ csts_list c l.
Proof. done. Qed.

Lemma csts_list_mid c l1 a l2 : csts_list c (l1 ++ a :: l2) = csts_list c l1 ++ csts false c a ++ csts_list c l2.
Proof. by rewrite csts_list_app. Qed.

(** Replacing an argument by one that means the same. *)
Lemma replace_within mv c K l1 a a' l2 :
  (forall c', sublist (csts false c' a') (csts false c' a)) \/ (forall c', sublist (csts false c' a') (csts false c a)) ->
  within mv c K (l1 ++ a :: l2) -> within mv c K (l1 ++ a' :: l2).
Proof.
  intros Hc [Hs Hm]. split.
  - etransitivity; [| exact Hs]. rewrite !csts_list_mid. apply sublist_app; [done |]. apply sublist_app; [| done].
    destruct Hc as [Hc | Hc]; apply Hc.
  - intros Hmv. specialize (Hm Hmv). rewrite length_mid in *. destruct Hm as [? | Hm]; [by left |]. destruct l1, l2; try (left; cbn; lia). right. intros c'.
    specialize (Hm c'). unfold csts_list in *. cbn in *. rewrite app_nil_r in *. destruct Hc as [Hc | Hc]; etransitivity; eauto.
Qed.

Lemma eval_list_mid c l1 a a' l2 m : eval a' m = eval a m -> eval_list c (l1 ++ a' :: l2) m = eval_list c (l1 ++ a :: l2) m.
Proof. intros H. unfold MailSearchEval.eval_list. rewrite !map_app. cbn [map]. by rewrite H. Qed.

Lemma forallb_mid l1 a (l2 : list mail_search_arg) :
  forallb groups_ok (l1 ++ a :: l2) = forallb groups_ok l1 && (groups_ok a && forallb groups_ok l2).
Proof. by rewrite forallb_app. Qed.

Lemma args_size_cons a l : args_size (a :: l) = (arg_size a + args_size l)%nat.
Proof. done. Qed.

Lemma args_size_mid l1 a l2 : args_size (l1 ++ a :: l2) = (args_size l1 + (arg_size a + args_size l2))%nat.
Proof. rewrite args_size_app. done. Qed.

(** The step that replaces the first argument ahead. *)
Lemma replace_improves mv c K done a a' args :
  within mv c K (done ++ a :: args) ->
  (forall m, eval a' m = eval a m) ->
  (forall c', sublist (csts false c' a') (csts false c' a)) \/ (forall c', sublist (csts false c' a') (csts false c a)) ->
  groups_ok a' = true -> (arg_size a' <= arg_size a)%nat ->
  improves mv c K (done ++ a :: args) (done ++ a' :: args).
Proof.
  intros Hw He Hc Hok Hs. split.
  - intros m. by apply eval_list_mid.
  - by eapply replace_within.
  - rewrite !forallb_mid, Hok. rewrite !andb_true_iff. tauto.
  - intros _ H. by destruct done.
  - rewrite !args_size_mid. lia.
Qed.

Lemma dissolve_improves mv c K done a args :
  within mv c K (done ++ a :: args) -> dissolves c a -> improves mv c K (done ++ a :: args) (done ++ subargs a ++ args).
Proof.
  intros [Hs Hm] [Hne He Hc Hok]. split.
  - intros m. rewrite !eval_list_app, <- He. change (a :: args) with ([a] ++ args). by rewrite eval_list_app, eval_list_one.
  - split.
    + etransitivity; [| exact Hs]. rewrite csts_list_mid, !csts_list_app, Hc by auto. done.
    + intros Hmv. specialize (Hm Hmv). rewrite length_mid, !length_app in *. destruct (subargs a) as [|s [|]] eqn:E; [done | | left; cbn; lia].
      destruct Hm as [? | Hm]; [left; cbn; lia |]. right. intros c'. etransitivity; [| exact (Hm c')].
      rewrite csts_list_mid, !csts_list_app, Hc by auto. done.
  - rewrite forallb_mid, !forallb_app, Hok. rewrite !andb_true_iff. tauto.
  - intros _ H. apply app_eq_nil in H as [_ H]. by apply app_eq_nil in H as [? _].
  - rewrite args_size_mid, !args_size_app. destruct a as [v subs]. cbn [subargs arg_size]. fold (args_size subs). lia.
Qed.

(** ** Merging *)

Lemma masked_leaf c v k :
  mask_of c v = Some k ->
  is_group v = false /\ is_type SEARCH_INTHREAD v = false /\ has_subargs v = false /\ forall subs m, eval (Arg v subs) m = leaf_value leaf v m.
Proof.
  unfold mask_of, is_group, has_subargs, is_type, leaf_value. intros H. split_and!; [| | | intros subs m; cbn [MailSearchEval.eval]];
    destruct (a_type v); try done; discriminate H.
Qed.

Lemma masked_csts c c' v k subs : mask_of c v = Some k -> csts false c' (Arg v subs) = leaf_csts c' v.
Proof.
  intros H. destruct (masked_leaf c v k H) as (Hg & Hi & _ & _). cbn [csts]. rewrite Hg, Hi, xorb_false_l. by rewrite put_not_same.
Qed.

Lemma masked_ok c v k subs : mask_of c v = Some k -> groups_ok (Arg v subs) = true.
Proof. intros H. destruct (masked_leaf c v k H) as (Hg & _ & Hs & _). cbn [groups_ok]. by rewrite Hg, Hs. Qed.

(** A later leaf disappears into an earlier one. *)
Lemma merge_improves mv c K k l1 p ps l2 v subs args p' :
  mask_of c p = Some k -> mask_of c v = Some k -> merged leaf c k p v p' ->
  within mv c K ((l1 ++ Arg p ps :: l2) ++ Arg v subs :: args) ->
  improves mv c K ((l1 ++ Arg p ps :: l2) ++ Arg v subs :: args) ((l1 ++ Arg p' ps :: l2) ++ args).
Proof.
  intros Hp Hv [Hk Hc He] [Hs _].
  assert (Hsub : sublist (csts_list c ((l1 ++ Arg p' ps :: l2) ++ args)) K).
  { etransitivity; [| exact Hs]. rewrite !csts_list_app, !csts_list_cons, (masked_csts c c p' k), (masked_csts c c p k), Hc by done.
    apply sublist_app; [done |]. by apply sublist_inserts_l. }
  split.
  - intros m. rewrite !eval_list_app. change (Arg p' ps :: l2) with ([Arg p' ps] ++ l2). change (Arg p ps :: l2) with ([Arg p ps] ++ l2).
    change (Arg v subs :: args) with ([Arg v subs] ++ args). rewrite !eval_list_app, !eval_list_one.
    destruct (masked_leaf c p k Hp) as (_ & _ & _ & ->), (masked_leaf c v k Hv) as (_ & _ & _ & ->), (masked_leaf c p' k Hk) as (_ & _ & _ & ->).
    rewrite He. unfold combine. destruct c; lia.
  - split; [done |]. intros _. rewrite length_app, length_mid. destruct l1, l2, args; try (left; cbn; lia). right. intros c'.
    etransitivity; [| exact Hsub]. unfold csts_list. cbn [flat_map app]. rewrite !app_nil_r, !(masked_csts c _ p' k) by done.
    by eapply leaf_csts_moved.
  - rewrite !forallb_app. cbn [forallb]. rewrite (masked_ok c p' k) by done. rewrite !andb_true_iff. tauto.
  - intros _ H. by destruct l1.
  - rewrite !args_size_app, !args_size_cons. cbn [arg_size]. lia.
Qed.

Lemma table_ok_insert c t done k v subs :
  table_ok c t done -> mask_of c v = Some k ->
  exists t', table_insert t k (length done) = Some t' /\ table_ok c t' (done ++ [Arg v subs]).
Proof.
  intros [Hi Hg] Hk. destruct (table_insert_spec t k (length done) Hi) as (t' & -> & Hi' & Hg'). exists t'. split; [done |]. split; [done |].
  intros k' i. rewrite Hg'. case_decide as Hd.
  - intros [= <-]. subst k'. exists (Arg v subs). split; [by apply list_lookup_middle | done].
  - intros H. destruct (Hg _ _ H) as (q & Hq & Hm). exists q. split; [by apply lookup_app_l_Some | done].
Qed.

Lemma table_ok_app c t done l : table_ok c t done -> table_ok c t (done ++ l).
Proof.
  intros [Hi Hg]. split; [done |]. intros k i H. destruct (Hg _ _ H) as (q & Hq & Hm). exists q. split; [by apply lookup_app_l_Some | done].
Qed.

Lemma within_compatible mv c K k l1 p ps l2 v subs args :
  pairwise K = true -> within mv c K ((l1 ++ Arg p ps :: l2) ++ Arg v subs :: args) -> mask_of c p = Some k -> mask_of c v = Some k ->
  forall x y, x ∈ leaf_csts c p -> y ∈ leaf_csts c v -> compatible x y = true.
Proof.
  intros HK [Hs _] Hp Hv x y Hx Hy. apply (pairwise_sublist _ _ Hs) in HK. rewrite csts_list_mid in HK.
  apply pairwise_app in HK as (_ & _ & HK). apply HK.
  - rewrite csts_list_mid, (masked_csts c c p k) by done. apply elem_of_app. right. apply elem_of_app. by left.
  - rewrite (masked_csts c c v k) by done. apply elem_of_app. by left.
Qed.

Lemma try_merge_spec mv c K done t v subs args :
  table_ok c t done -> pairwise K = true -> within mv c K (done ++ Arg v subs :: args) ->
  exists done' t' b, try_merge c done t v = Some (done', t', b) /\
    if (b : bool) then
      table_ok c t' done' /\ improves mv c K (done ++ Arg v subs :: args) (done' ++ args) /\
      (args_size (done' ++ args) < args_size (done ++ Arg v subs :: args))%nat
    else done' = done /\ forall subs', table_ok c t' (done ++ [Arg v subs']).
Proof.
  intros Ht HK Hw. rewrite try_merge_mask. destruct (mask_of c v) as [k|] eqn:Hv.
  2:{ exists done, t, false. split_and!; [done | done |]. intros subs'. by apply table_ok_app. }
  unfold merge_with. rewrite table_lookup_spec by apply Ht. cbn [mbind option_bind]. destruct (table_get t k) as [i|] eqn:Hg.
  2:{ destruct (table_insert_spec t k (length done) (ok_inv _ _ _ Ht)) as (t' & Hins & _). rewrite Hins. cbn [mbind option_bind].
      exists done, t', false. split_and!; [done | done |]. intros subs'. destruct (table_ok_insert c t done k v subs' Ht Hv) as (t'' & ? & ?). congruence. }
  destruct (ok_get _ _ _ Ht k i Hg) as ([p ps] & Hi & Hp). rewrite Hi. cbn [mbind option_bind value] in *.
  rewrite <- (take_drop_middle done i _ Hi) in Hw.
  destruct (merge_sound leaf c k p v Hp Hv) as (o & -> & Ho); [by eapply within_compatible |]. cbn [mbind option_bind].
  destruct o as [p'|].
  2:{ exists done, t, false. split_and!; [done | done |]. intros subs'. by apply table_ok_app. }
  exists (<[i := Arg p' ps]> done), t, true. split; [done |]. pose proof (Ho p' eq_refl) as Hm.
  assert (Hins : <[i := Arg p' ps]> done = take i done ++ Arg p' ps :: drop (S i) done) by (apply insert_take_drop; by eapply lookup_lt_Some).
  split_and!.
  - split; [apply Ht |]. intros k' j Hj. destruct (decide (i = j)) as [<- | Hne].
    + exists (Arg p' ps). rewrite list_lookup_insert_eq by (by eapply lookup_lt_Some). split; [done |]. cbn [value].
      destruct (ok_get _ _ _ Ht k' i Hj) as (q & Hq & Hmq). rewrite (merged_mask _ _ _ _ _ _ Hm). rewrite Hi in Hq. injection Hq as <-. cbn [value] in Hmq. congruence.
    + rewrite list_lookup_insert_ne by done. by apply (ok_get _ _ _ Ht).
  - rewrite Hins. rewrite <- (take_drop_middle done i _ Hi) at 1. by apply (merge_improves mv c K k).
  - pose proof (f_equal args_size (take_drop_middle done i _ Hi)) as Hsz. rewrite Hins, !args_size_app, !args_size_cons in *. cbn [arg_size] in *. lia.
Qed.

(** ** The whole pass *)

Lemma improves_refl mv c K l : within mv c K l -> improves mv c K l l.
Proof. intros Hw. by split. Qed.

(** An argument whose own level has been simplified. *)
Lemma nested_spec v subs subs' :
  has_subargs v = true -> groups_ok (Arg v subs) = true ->
  (is_group v = true -> a_match_not v = false /\ (2 <= length subs)%nat) ->
  improves (is_group v) (negb (is_type SEARCH_OR v)) (csts_list (negb (is_type SEARCH_OR v)) subs) subs subs' ->
  (forall m, eval (Arg v subs') m = eval (Arg v subs) m) /\
  (forall c, sublist (csts false c (Arg v subs')) (csts false c (Arg v subs))) /\
  groups_ok (Arg v subs') = true /\ (arg_size (Arg v subs') <= arg_size (Arg v subs))%nat.
Proof.
  intros Hs Hok Hg [He [Hc Hm] Ho Hne Hsz]. cbn [groups_ok arg_size] in *. fold (args_size subs) (args_size subs'). rewrite Hs in *.
  apply andb_true_iff in Hok as [Hok1 Hok2]. rewrite (Ho Hok2), andb_true_r. destruct (is_group v) eqn:Eg.
  - destruct (Hg eq_refl) as [Hn Hl]. split_and!.
    + intros m. by rewrite !eval_group_list.
    + intros c. rewrite !csts_group by done. destruct (Nat.eqb_spec (length subs) 1); [lia |].
      destruct (Nat.eqb_spec (length subs') 1); [| done]. destruct (Hm eq_refl) as [? | Hm']; [lia | apply Hm'].
    + cbn [negb orb]. destruct subs' as [|]; [| done]. exfalso. apply Hne; [| done]. by intros ->.
    + lia.
  - assert (Hi : is_type SEARCH_INTHREAD v = true /\ is_type SEARCH_OR v = false)
      by (unfold has_subargs, is_group, is_type in *; destruct (a_type v); done). destruct Hi as [Hi Hno]. rewrite Hno in *. cbn [negb] in *.
    split_and!; [| | done | lia].
    + intros m. cbn [MailSearchEval.eval]. apply is_type_true in Hi. rewrite Hi. do 2 f_equal. apply map_ext. intros m'. apply He.
    + intros c. cbn [csts]. by rewrite Eg, Hi.
Qed.

(** What the recursion on the arguments of [a] gives. *)
Lemma nested_loop_spec fuel v subs r :
  groups_ok (Arg v subs) = true -> (is_group v = true -> a_match_not v = false /\ (2 <= length subs)%nat) ->
  (has_subargs v = true -> forall c, c = negb (is_type SEARCH_OR v) ->
    exists out r', simplify_loop fuel c [] prev_args0 false subs = Some (out, r') /\ improves (is_group v) c (csts_list c subs) subs out /\
      (r' = true -> (args_size out < args_size subs)%nat)) ->
  exists subs' r1,
    (if has_subargs v then '(subs', r1) ← simplify_loop fuel (negb (is_type SEARCH_OR v)) [] prev_args0 false subs; Some (subs', r || r1)
     else Some (subs, r)) = Some (subs', r1) /\
    (forall m, eval (Arg v subs') m = eval (Arg v subs) m) /\
    (forall c, sublist (csts false c (Arg v subs')) (csts false c (Arg v subs))) /\
    groups_ok (Arg v subs') = true /\ (arg_size (Arg v subs') <= arg_size (Arg v subs))%nat /\
    (r1 = true -> r = true \/ (arg_size (Arg v subs') < arg_size (Arg v subs))%nat).
Proof.
  intros Hok Hg IH. destruct (has_subargs v) eqn:Hs.
  2:{ exists subs, r. by split_and!; auto. }
  destruct (IH eq_refl _ eq_refl) as (subs' & r' & -> & Hi & Hr). cbn [mbind option_bind]. exists subs', (r || r').
  destruct (nested_spec v subs subs' Hs Hok Hg Hi) as (He & Hc & Ho & Hsz). split_and!; [done.. |].
  intros [? | H]%orb_true_iff; [by left | right]. cbn [arg_size]. fold (args_size subs) (args_size subs'). specialize (Hr H). lia.
Qed.

Lemma table_ok_empty c : table_ok c prev_args0 [].
Proof. split; [done |]. intros k i H. by rewrite prev_args0_empty in H. Qed.

Lemma nested_pairwise c K done v subs args :
  pairwise K = true -> sublist (csts_list c (done ++ Arg v subs :: args)) K -> has_subargs v = true ->
  (is_group v = true -> a_match_not v = false /\ (2 <= length subs)%nat) -> pairwise (csts_list (negb (is_type SEARCH_OR v)) subs) = true.
Proof.
  intros HK Hs Hsub Hg. eapply pairwise_sublist; [| exact HK]. etransitivity; [| exact Hs]. rewrite csts_list_mid.
  apply sublist_inserts_l, sublist_inserts_r. destruct (is_group v) eqn:Eg.
  - destruct (Hg eq_refl) as [Hn Hl]. rewrite csts_group by done. by destruct (Nat.eqb_spec (length subs) 1); [lia |].
  - assert (Hi : is_type SEARCH_INTHREAD v = true /\ is_type SEARCH_OR v = false)
      by (unfold has_subargs, is_group, is_type in *; destruct (a_type v); done). destruct Hi as [Hi Hno]. cbn [csts]. by rewrite Eg, Hi, Hno.
Qed.

Lemma simplify_loop_spec fuel mv c K done t r args :
  (args_size args < fuel)%nat -> table_ok c t done -> pairwise K = true -> within mv c K (done ++ args) -> forallb groups_ok (done ++ args) = true ->
  exists out r', simplify_loop fuel c done t r args = Some (out, r') /\ improves mv c K (done ++ args) out /\
    (r' = true -> r = true \/ (args_size out < args_size (done ++ args))%nat).
Proof.
  revert mv c K done t r args. induction fuel as [|fuel IH]; intros mv c K done t r args Hf Ht HK Hw Hok; [lia |].
  destruct args as [|a args].
  { exists done, r. cbn [MailSearchSimplify.simplify_loop]. rewrite app_nil_r in *. split_and!; [done | by apply improves_refl | by left]. }
  cbn [MailSearchSimplify.simplify_loop]. rewrite forallb_mid in Hok. apply andb_true_iff in Hok as [Hokd Hok]. apply andb_true_iff in Hok as [Hoka Hokr].
  destruct (push_not_spec a Hoka) as (a1 & -> & Hp). cbn [mbind option_bind].
  destruct (flattens_spec c a1 (pushed_ok _ _ Hp) (pushed_not _ _ Hp)) as (b & -> & Hb). cbn [mbind option_bind].
  assert (Hi1 : improves mv c K (done ++ a :: args) (done ++ a1 :: args)).
  { apply replace_improves; [done | apply Hp | left; intros c'; by rewrite (pushed_csts _ _ Hp) | apply Hp | by rewrite (pushed_size _ _ Hp)]. }
  rewrite args_size_cons, <- (pushed_size _ _ Hp) in Hf. destruct b.
  { pose proof (dissolve_improves mv c K done a1 args (imp_within _ _ _ _ _ Hi1) Hb) as Hi2.
    destruct (IH mv c K done t r (subargs a1 ++ args)) as (out & r' & -> & Hi3 & Hr); [| done | done | apply Hi2 | |].
    - rewrite args_size_app. destruct a1 as [v subs]. cbn [subargs arg_size] in *. fold (args_size subs) in Hf. lia.
    - rewrite !forallb_app, Hokd, Hokr, (dissolves_ok _ _ Hb). done.
    - pose proof (improves_trans _ _ _ _ _ _ Hi1 Hi2) as Hi4. exists out, r'. split_and!; [done | by eapply improves_trans |].
      pose proof (imp_size _ _ _ _ _ Hi4) as Hz. intros Hr'. destruct (Hr Hr'); [by left | right; lia]. }
  destruct a1 as [v subs]. cbn [value subargs] in *.
  assert (Hg : is_group v = true -> a_match_not v = false /\ (2 <= length subs)%nat) by (intros Hg; split; [by apply (pushed_not _ _ Hp) | by apply Hb]).
  pose proof (imp_within _ _ _ _ _ Hi1) as Hw1. cbn [arg_size] in Hf. fold (args_size subs) in Hf.
  destruct (nested_loop_spec fuel v subs r (pushed_ok _ _ Hp) Hg) as (subs' & r1 & -> & He & Hc & Ho & Hsz & Hr1).
  { intros Hsub c2 ->. destruct (IH (is_group v) (negb (is_type SEARCH_OR v)) (csts_list (negb (is_type SEARCH_OR v)) subs) [] prev_args0 false subs)
      as (out & r' & -> & Hi & Hr); [lia | apply table_ok_empty | | | | exists out, r'; split_and!; [done | done |]; intros H; by destruct (Hr H)].
    - eapply nested_pairwise; [exact HK | apply Hw1 | done | done].
    - split; [done |]. intros Hgr. left. by apply Hg.
    - pose proof (pushed_ok _ _ Hp) as Hpo. cbn [groups_ok] in Hpo. rewrite Hsub in Hpo. by apply andb_true_iff in Hpo as [_ ?]. }
  cbn [mbind option_bind].
  assert (Hi2 : improves mv c K (done ++ a :: args) (done ++ Arg v subs' :: args)).
  { eapply improves_trans; [exact Hi1 |]. by apply replace_improves; auto. }
  destruct (try_merge_spec mv c K done t v subs' args Ht HK (imp_within _ _ _ _ _ Hi2)) as (done' & t' & b & -> & Hm). cbn [mbind option_bind].
  pose proof (imp_size _ _ _ _ _ Hi1) as Hz1. pose proof (imp_size _ _ _ _ _ Hi2) as Hz2. destruct b.
  - destruct Hm as (Ht' & Hi3 & Hlt). pose proof (improves_trans _ _ _ _ _ _ Hi2 Hi3) as Hi4.
    destruct (IH mv c K done' t' true args) as (out & r' & -> & Hi5 & _); [lia | done | done | apply Hi4 | |].
    + apply (imp_ok _ _ _ _ _ Hi4). by rewrite forallb_mid, Hokd, Hoka, Hokr.
    + exists out, r'. split_and!; [done | by eapply improves_trans |]. pose proof (imp_size _ _ _ _ _ Hi5). intros _. right. lia.
  - destruct Hm as [-> Ht']. assert (Heq : (done ++ [Arg v subs']) ++ args = done ++ Arg v subs' :: args) by (by rewrite <- app_assoc).
    destruct (IH mv c K (done ++ [Arg v subs']) t' r1 args) as (out & r' & -> & Hi5 & Hr); [lia | apply Ht' | done | rewrite Heq; apply Hi2 | |].
    + rewrite Heq. by rewrite forallb_mid, Hokd, Ho, Hokr.
    + rewrite Heq in *. exists out, r'. split_and!; [done | by eapply improves_trans |]. pose proof (imp_size _ _ _ _ _ Hi5) as Hz5.
      intros Hr'. destruct (Hr Hr') as [Hx |]; [| right; lia]. destruct (Hr1 Hx) as [| Hx']; [by left | right].
      rewrite !args_size_mid in *. lia.
Qed.

End Level.
