(* ===== verification/MailSearchSimplifyCorrect.v ===== *)
(** * Simplifying search arguments: the whole simplification

    The shape of the arguments after a pass, that a pass without removals
    leaves them as another pass wants them, and the simplification with its
    repeated passes. *)

From S2P Require Import Prelude SeqRange Table ImapArg MailSearch MailSearchSimplify MailSearchEval MailSearchSimplifyProps MailSearchSimplifyLoop.

(** ** Shapes *)

(** No group is negated. *)
Fixpoint nnf (a : mail_search_arg) : bool :=
  let '(Arg v subs) := a in negb (is_group v && a_match_not v) && (if has_subargs v then forallb nnf subs else true).

Definition is_leaf (a : mail_search_arg) : bool := negb (has_subargs (value a)).

(** The conditions of an INTHREAD are leaves; without [allowed] there are no
    INTHREADs. *)
Fixpoint flat_inthreads (allowed : bool) (a : mail_search_arg) : bool :=
  let '(Arg v subs) := a in
  if is_type SEARCH_INTHREAD v then allowed && forallb is_leaf subs else if is_group v then forallb (flat_inthreads allowed) subs else true.

Lemma is_leaf_shapes b a : is_leaf a = true -> nnf a = true /\ flat_inthreads b a = true.
Proof.
  destruct a as [v subs]. unfold is_leaf. cbn [value nnf flat_inthreads]. rewrite negb_true_iff. intros H. rewrite H.
  unfold has_subargs, is_group in *. rewrite !orb_false_iff in H. by destruct H as [[-> ->] ->].
Qed.

(** Two values of a leaf that have the same shape. *)
Lemma shapes_same v v' subs :
  a_type v' = a_type v -> a_match_not v' = a_match_not v ->
  nnf (Arg v' subs) = nnf (Arg v subs) /\ (forall b, flat_inthreads b (Arg v' subs) = flat_inthreads b (Arg v subs)) /\ is_leaf (Arg v' subs) = is_leaf (Arg v subs).
Proof. intros Ht Hn. unfold is_leaf. cbn [value nnf flat_inthreads]. unfold has_subargs, is_group, is_type. by rewrite Ht, Hn. Qed.

Lemma forallb_insert {A} (P : A -> bool) l i x : forallb P l = true -> P x = true -> forallb P (<[i := x]> l) = true.
Proof.
  revert i. induction l as [|y l IH]; intros [|i] Hl Hx; cbn in *; [done.. | |]; apply andb_true_iff in Hl as [Hy Hl]; apply andb_true_iff; auto.
Qed.

Lemma merge_value_shape c v p p' : merge_value c v p = Some (Some p') -> a_type p' = a_type p /\ a_match_not p' = a_match_not p.
Proof.
  unfold merge_value, merge_time_value, merge_size_value.
  destruct (a_type v); try (destruct (seq_range_array_merge _ _); [cbn [mbind option_bind] | done]);
    try destruct c; try destruct (_ <? _); try destruct (_ =? _); by intros [= <-].
Qed.

Lemma toggle_shapes b a : flat_inthreads b (toggle_not a) = flat_inthreads b a /\ is_leaf (toggle_not a) = is_leaf a.
Proof. by destruct a as [v subs]. Qed.

Lemma push_not_shape a a' :
  push_not a = Some a' ->
  (is_group (value a') = true -> a_match_not (value a') = false) /\ (forall b, flat_inthreads b a = true -> flat_inthreads b a' = true) /\ (is_leaf a = true -> a' = a).
Proof.
  destruct a as [v subs]. unfold push_not. fold (is_group v). destruct (a_match_not v && is_group v) eqn:E.
  2:{ intros [= <-]. cbn. split_and!; [| done | done]. intros Hg. by rewrite Hg, andb_true_r in E. }
  destruct (assert _); [cbn [mbind option_bind]; intros [= <-] | done]. apply andb_true_iff in E as [En Eg]. cbn [value]. split_and!; [done | |].
  - intros b. cbn [flat_inthreads]. assert (Hi : is_type SEARCH_INTHREAD v = false) by (unfold is_group, is_type in *; destruct (a_type v); done).
    rewrite Hi, Eg. assert (Hm : forallb (flat_inthreads b) (map toggle_not subs) = forallb (flat_inthreads b) subs).
    { clear. induction subs as [|s subs IH]; [done |]. cbn [map forallb]. by rewrite IH, (proj1 (toggle_shapes b s)). }
    rewrite Hm. unfold is_group, is_type in *. cbn [a_type put_type put_not]. by destruct (bool_decide (a_type v = SEARCH_SUB)).
  - unfold is_leaf. cbn [value]. by rewrite (is_group_subargs v Eg).
Qed.

Section Shape.
Context {T : Type} `{!Table mail_search_simplify_mask nat T}.
Variable prev_args0 : T.
Notation simplify_loop := (simplify_loop prev_args0).

Lemma try_merge_shape c done (t : T) v done' t' b :
  try_merge c done t v = Some (done', t', b) ->
  if b then exists i p p', done !! i = Some p /\ done' = <[i := Arg p' (subargs p)]> done /\ a_type p' = a_type (value p) /\ a_match_not p' = a_match_not (value p)
  else done' = done.
Proof.
  rewrite try_merge_mask. destruct (mask_of c v) as [k|]; [| by intros [= <- <- <-]]. unfold merge_with.
  destruct (table_lookup t k) as [[i|]|]; [cbn [mbind option_bind] | cbn [mbind option_bind] | done].
  - destruct (done !! i) as [p|] eqn:Hi; [cbn [mbind option_bind] | done].
    destruct (merge_value c v (value p)) as [[p'|]|] eqn:Hm; [cbn [mbind option_bind] | by intros [= <- <- <-] | done].
    intros [= <- <- <-]. apply merge_value_shape in Hm as [? ?]. eauto 10.
  - destruct (table_insert t k (length done)); [| done]. by intros [= <- <- <-].
Qed.

(** The shapes that a pass keeps, of all arguments or of those passed. *)
Definition shapes (done args : list mail_search_arg) (out : list mail_search_arg) : Prop :=
  (forallb nnf done = true -> forallb nnf out = true) /\
  (forall b, forallb (flat_inthreads b) (done ++ args) = true -> forallb (flat_inthreads b) out = true) /\
  (forallb is_leaf (done ++ args) = true -> forallb is_leaf out = true).

Lemma merged_shapes done i p p' args a out :
  done !! i = Some p -> a_type p' = a_type (value p) -> a_match_not p' = a_match_not (value p) ->
  shapes (<[i := Arg p' (subargs p)]> done) args out -> shapes done (a :: args) out.
Proof.
  intros Hi Ht Hn (H1 & H2 & H3). destruct p as [v subs]. cbn [value subargs] in *. destruct (shapes_same v p' subs Ht Hn) as (E1 & E2 & E3).
  assert (Hin : forall P, forallb P done = true -> P (Arg v subs) = true).
  { intros P HP. rewrite forallb_forall in HP. apply HP, list_elem_of_In. by eapply list_elem_of_lookup_2. }
  split_and!; [intros H | intros b H | intros H].
  - apply H1, forallb_insert; [done | rewrite E1; by apply Hin].
  - apply H2. rewrite forallb_app in *. cbn [forallb] in H. rewrite !andb_true_iff in *. destruct H as (Hd & _ & Ha).
    split; [apply forallb_insert; [done | rewrite E2; by apply Hin] | done].
  - apply H3. rewrite forallb_app in *. cbn [forallb] in H. rewrite !andb_true_iff in *. destruct H as (Hd & _ & Ha).
    split; [apply forallb_insert; [done | rewrite E3; by apply Hin] | done].
Qed.

Lemma flattens_shape c a b :
  flattens c a = Some b -> (b = true -> is_group (value a) = true /\ subargs a <> []) /\
    (b = false -> is_group (value a) = true -> (2 <= length (subargs a))%nat).
Proof.
  destruct a as [v subs]. unfold flattens, is_group. cbn [value subargs].
  destruct (is_type SEARCH_SUB v), (is_type SEARCH_OR v), c; cbn [negb andb orb];
    (destruct subs as [|s [|s' subs]]; cbn; intros [= <-]; split; intros; try done; try lia).
Qed.

(** An argument whose own level has been simplified. *)
Lemma nested_shapes v subs subs' :
  (is_group v = true -> a_match_not v = false) -> (if has_subargs v then shapes [] subs subs' else subs' = subs) ->
  nnf (Arg v subs') = true /\ (forall b, flat_inthreads b (Arg v subs) = true -> flat_inthreads b (Arg v subs') = true) /\ is_leaf (Arg v subs') = is_leaf (Arg v subs).
Proof.
  intros Hn Hs. cbn [nnf flat_inthreads]. assert (Hg : is_group v && a_match_not v = false) by (destruct (is_group v); [by rewrite Hn | done]).
  rewrite Hg. cbn [negb andb]. destruct (has_subargs v) eqn:E; [| subst subs'; by split_and!]. destruct Hs as (H1 & H2 & H3).
  split_and!; [by apply H1 | | done]. intros [|]; by destruct (is_type SEARCH_INTHREAD v); [| destruct (is_group v)]; cbn [andb]; auto.
Qed.

Lemma simplify_loop_shape fuel c done t r args out r' :
  simplify_loop fuel c done t r args = Some (out, r') -> shapes done args out.
Proof.
  revert c done t r args out r'. induction fuel as [|fuel IH]; intros c done t r args out r'; [discriminate |].
  destruct args as [|a args]; cbn [MailSearchSimplify.simplify_loop].
  { intros [= <- <-]. unfold shapes. by rewrite app_nil_r. }
  destruct (push_not a) as [[v subs]|] eqn:Hp; [cbn [mbind option_bind] | done]. apply push_not_shape in Hp as (Hn & Hfl & Hlf).
  destruct (flattens c (Arg v subs)) as [b|] eqn:Hfs; [cbn [mbind option_bind] | done]. apply flattens_shape in Hfs as [Hf1 Hf2].
  cbn [value subargs] in *. destruct b.
  - intros H. apply IH in H as (H1 & H2 & H3). destruct (Hf1 eq_refl) as [Hg _]. split_and!; [done | intros b Hx | intros Hx].
    + apply H2. rewrite !forallb_app in *. cbn [forallb] in Hx. rewrite !andb_true_iff in *. destruct Hx as (Hd & Ha & Har). split_and!; [done | | done].
      specialize (Hfl b Ha). cbn [flat_inthreads] in Hfl. rewrite Hg in Hfl. by destruct (is_type SEARCH_INTHREAD v) eqn:Ei; [unfold is_group, is_type in *; destruct (a_type v) |].
    + exfalso. rewrite !forallb_app in *. cbn [forallb] in Hx. rewrite !andb_true_iff in *. destruct Hx as (_ & Ha & _). pose proof (Hlf Ha) as <-.
      unfold is_leaf in Ha. cbn [value] in Ha. by rewrite (is_group_subargs v Hg) in Ha.
  - destruct (if has_subargs v then _ else _) as [[subs' r1]|] eqn:Hr; [cbn [mbind option_bind] | discriminate].
    assert (Hs : if has_subargs v then shapes [] subs subs' else subs' = subs).
    { destruct (has_subargs v); [| congruence]. destruct (simplify_loop fuel _ [] _ _ subs) as [[s1 r2]|] eqn:Hl; [| discriminate].
      cbn [mbind option_bind] in Hr. apply IH in Hl. congruence. }
    destruct (nested_shapes v subs subs' Hn Hs) as (S1 & S2 & S3).
    destruct (try_merge c done t v) as [[[done' t'] b]|] eqn:Hm; [cbn [mbind option_bind] | discriminate]. apply try_merge_shape in Hm. destruct b.
    + destruct Hm as (i & p & p' & Hi & -> & Ht & Hpn). intros H. apply IH in H. by eapply merged_shapes.
    + subst done'. intros H. apply IH in H as (H1 & H2 & H3). rewrite !forallb_app in H1. cbn [forallb] in H1. rewrite S1, andb_true_r in H1.
      rewrite <- app_assoc in H2, H3. split_and!; [done | intros b Hx | intros Hx]; [apply H2 | apply H3]; rewrite forallb_app in *;
        cbn [forallb app] in *; rewrite !andb_true_iff in *; destruct Hx as (Hd & Ha & Har); split_and!; auto.
      rewrite S3. by rewrite (Hlf Ha).
Qed.

(** ** Stability *)

(** Arguments that differ at most in their results. *)
Inductive same : mail_search_arg -> mail_search_arg -> Prop :=
  | same_arg v subs r subs' : Forall2 same subs subs' -> same (Arg v subs) (Arg (put_result r v) subs').

Lemma removals_kept fuel c done t args out r' : simplify_loop fuel c done t true args = Some (out, r') -> r' = true.
Proof.
  revert c done t args. induction fuel as [|fuel IH]; intros c done t args; [discriminate |].
  destruct args as [|a args]; cbn [MailSearchSimplify.simplify_loop]; [by intros [= <- <-] |].
  destruct (push_not a) as [[v subs]|]; [cbn [mbind option_bind] | discriminate].
  destruct (flattens c (Arg v subs)) as [[|]|]; [cbn [mbind option_bind]; apply IH | cbn [mbind option_bind value subargs] | discriminate].
  destruct (if has_subargs v then _ else _) as [[subs' r1]|] eqn:Hr; [cbn [mbind option_bind] | discriminate].
  assert (r1 = true) as ->.
  { destruct (has_subargs v); [| congruence]. destruct (simplify_loop fuel _ [] _ _ subs) as [[s1 r2]|]; cbn [mbind option_bind orb] in Hr; congruence. }
  destruct (try_merge c done t v) as [[[done' t'] [|]]|]; [cbn [mbind option_bind]; apply IH.. | discriminate].
Qed.

Lemma merge_value_same c v p r r' : merge_value c v p = Some None -> merge_value c (put_result r v) (put_result r' p) = Some None.
Proof.
  unfold merge_value, merge_time_value, merge_size_value. cbn [a_type a_time a_size a_seqset put_result].
  destruct (a_type v); try discriminate; try (destruct (seq_range_array_merge _ _); discriminate);
    try destruct c; try destruct (_ <? _); try destruct (_ =? _); done.
Qed.

Lemma try_merge_same c done done' (t t' : T) v r :
  Forall2 same done done' -> try_merge c done t v = Some (done, t', false) -> try_merge c done' t (put_result r v) = Some (done', t', false).
Proof.
  intros Hd. rewrite !try_merge_mask. change (mask_of c (put_result r v)) with (mask_of c v).
  destruct (mask_of c v) as [k|]; [| by intros [= <-]]. unfold merge_with. rewrite <- (Forall2_length _ _ _ Hd).
  destruct (table_lookup t k) as [[i|]|]; [cbn [mbind option_bind] | cbn [mbind option_bind] | discriminate].
  - destruct (done !! i) as [p|] eqn:Hi; [cbn [mbind option_bind] | discriminate].
    destruct (Forall2_lookup_l _ _ _ _ _ Hd Hi) as (p' & -> & Hp). destruct Hp as [pv ps pr ps' _]. cbn [mbind option_bind value subargs].
    destruct (merge_value c v pv) as [[q|]|] eqn:Hm; cbn [mbind option_bind]; try discriminate. intros [= <-]. by rewrite merge_value_same.
  - destruct (table_insert t k (length done)); [| discriminate]. by intros [= <-].
Qed.

(** A group that was kept is kept again. *)
Lemma flattens_again c v subs r subs' :
  flattens c (Arg v subs) = Some false -> (length subs <= length subs')%nat -> flattens c (Arg (put_result r v) subs') = Some false.
Proof.
  unfold flattens. change (is_type ?t (put_result r v)) with (is_type t v).
  destruct (is_type SEARCH_SUB v), (is_type SEARCH_OR v), c; cbn [negb andb orb]; destruct subs as [|s1 [|s2 subs]], subs' as [|s1' [|s2' subs']];
    cbn; intros; try done; lia.
Qed.

Lemma push_not_again v subs r : (is_group v = true -> a_match_not v = false) -> push_not (Arg (put_result r v) subs) = Some (Arg (put_result r v) subs).
Proof.
  intros H. unfold push_not. change (a_match_not (put_result r v)) with (a_match_not v). change (is_type ?t (put_result r v)) with (is_type t v).
  fold (is_group v). destruct (a_match_not v), (is_group v); try done. by specialize (H eq_refl).
Qed.

Lemma same_length l l' : Forall2 same l l' -> length l' = length l.
Proof. intros H. symmetry. by eapply Forall2_length. Qed.

(** A pass that removes nothing gives a list that a pass does not change,
    whatever the results in it. *)
Lemma simplify_loop_stable fuel c done t args out :
  simplify_loop fuel c done t false args = Some (out, false) ->
  exists suf, out = done ++ suf /\ (length args <= length suf)%nat /\
    forall fuel' done' suf', Forall2 same done done' -> Forall2 same suf suf' -> (args_size suf' < fuel')%nat ->
      simplify_loop fuel' c done' t false suf' = Some (done' ++ suf', false).
Proof.
  revert c done t args out. induction fuel as [|fuel IH]; intros c done t args out; [discriminate |].
  destruct args as [|a args]; cbn [MailSearchSimplify.simplify_loop].
  { intros [= <-]. exists []. rewrite app_nil_r. split_and!; [done | done |]. intros [|fuel'] done' suf' Hd Hs Hf; [lia |].
    inversion Hs; subst. cbn. by rewrite app_nil_r. }
  destruct (push_not a) as [[v subs]|] eqn:Hp; [cbn [mbind option_bind] | discriminate]. apply push_not_shape in Hp as (Hn & _ & _).
  destruct (flattens c (Arg v subs)) as [b|] eqn:Hfs; [cbn [mbind option_bind value subargs] in * | discriminate].
  destruct (flattens_shape _ _ _ Hfs) as [Hf1 Hf2]. cbn [value subargs] in *. destruct b.
  { intros H. apply IH in H as (suf & -> & Hl & Hst). exists suf. split_and!; [done | | done].
    rewrite length_app in Hl. destruct (Hf1 eq_refl) as [_ Hne]. destruct subs; [done | cbn in *; lia]. }
  destruct (if has_subargs v then _ else _) as [[subs1 r1]|] eqn:Hr; [cbn [mbind option_bind] | discriminate].
  destruct (try_merge c done t v) as [[[done1 t1] b]|] eqn:Hm; [cbn [mbind option_bind] | discriminate].
  destruct b; [intros H; by apply removals_kept in H |]. pose proof (try_merge_shape _ _ _ _ _ _ _ Hm) as ->.
  destruct r1; [intros H; by apply removals_kept in H |]. intros H. apply IH in H as (suf & -> & Hl & Hst).
  assert (Hsub : (length subs <= length subs1)%nat /\ forall fuel' subs', Forall2 same subs1 subs' -> (args_size subs' < fuel')%nat ->
            (if has_subargs v then '(s, r) ← simplify_loop fuel' (negb (is_type SEARCH_OR v)) [] prev_args0 false subs'; Some (s, false || r)
             else Some (subs', false)) = Some (subs', false)).
  { destruct (has_subargs v); [| injection Hr as <-; by split].
    destruct (simplify_loop fuel _ [] _ _ subs) as [[s2 r2]|] eqn:Hl2; [| discriminate]. cbn in Hr. injection Hr as <- ->.
    apply IH in Hl2 as (suf2 & -> & Hl2 & Hst2). split; [done |]. intros fuel' subs' Hs Hf. by rewrite (Hst2 fuel' [] subs'). }
  destruct Hsub as [Hlen Hsub]. exists (Arg v subs1 :: suf). split_and!; [by rewrite <- app_assoc | cbn; lia |].
  intros [|fuel'] done' suf' Hd Hs Hf; [lia |]. inversion Hs as [| ? a' ? suf2 Ha Hs2]; subst. inversion Ha as [? ? r ? Hss]; subst.
  cbn [MailSearchSimplify.simplify_loop]. rewrite push_not_again by done. cbn [mbind option_bind].
  rewrite (flattens_again c v subs r subs' Hfs) by (rewrite (same_length _ _ Hss); done). cbn [mbind option_bind value subargs].
  rewrite args_size_cons in Hf. cbn [arg_size] in Hf. fold (args_size subs') in Hf.
  change (has_subargs (put_result r v)) with (has_subargs v). change (is_type ?t (put_result r v)) with (is_type t v).
  rewrite (Hsub fuel' subs' Hss) by lia. cbn [mbind option_bind]. rewrite (try_merge_same c done done' t t1 v r Hd Hm). cbn [mbind option_bind].
  rewrite (Hst fuel' (done' ++ [Arg (put_result r v) subs']) suf2); [by rewrite <- app_assoc | | done | lia].
  apply Forall2_app; [done |]. by repeat constructor.
Qed.

End Shape.

(** ** Results do not matter *)

Lemma put_result_self v : put_result (a_result v) v = v.
Proof. by destruct v. Qed.

Lemma same_refl a : same a a.
Proof.
  induction a as [v subs IH]. rewrite <- (put_result_self v) at 2. constructor. induction IH; constructor; auto.
Qed.

Lemma same_list_refl l : Forall2 same l l.
Proof. induction l; constructor; [apply same_refl | done]. Qed.

(** Induction over two lists that are the same. *)
Lemma same_list_ind (P : mail_search_arg -> mail_search_arg -> Prop) :
  (forall v subs subs' r, Forall2 P subs subs' -> P (Arg v subs) (Arg (put_result r v) subs')) ->
  forall l l', Forall2 same l l' -> Forall2 P l l'.
Proof.
  intros HP. assert (Ha : forall a a', same a a' -> P a a').
  { intros a. induction a as [v subs IH]. intros a' H. inversion H as [? ? r subs' Hs]; subst. apply HP.
    clear H. revert subs' Hs. induction IH as [|s subs Hx _ IHs]; intros subs' Hs; inversion Hs; subst; constructor; auto. }
  induction 1; constructor; auto.
Qed.

Lemma forallb_Forall2 (f : mail_search_arg -> bool) l l' : Forall2 (fun a a' => f a' = f a) l l' -> forallb f l' = forallb f l.
Proof. induction 1; cbn; congruence. Qed.

Lemma flat_map_Forall2 {B} (f : mail_search_arg -> list B) l l' : Forall2 (fun a a' => f a' = f a) l l' -> flat_map f l' = flat_map f l.
Proof. induction 1; cbn; congruence. Qed.

Lemma map_Forall2 {B} (f : mail_search_arg -> B) l l' : Forall2 (fun a a' => f a' = f a) l l' -> map f l' = map f l.
Proof. induction 1; cbn; congruence. Qed.

Lemma same_groups_ok l l' : Forall2 same l l' -> forallb groups_ok l' = forallb groups_ok l.
Proof.
  intros H. apply forallb_Forall2. revert l l' H. apply same_list_ind. intros v subs subs' r Hs.
  cbn [groups_ok]. by rewrite (forallb_Forall2 _ _ _ Hs), (Forall2_length _ _ _ Hs).
Qed.

Lemma same_nnf l l' : Forall2 same l l' -> forallb nnf l' = forallb nnf l.
Proof.
  intros H. apply forallb_Forall2. revert l l' H. apply same_list_ind. intros v subs subs' r Hs. cbn [nnf]. by rewrite (forallb_Forall2 _ _ _ Hs).
Qed.

Lemma same_size l l' : Forall2 same l l' -> args_size l' = args_size l.
Proof.
  intros H. unfold args_size. f_equal. apply map_Forall2. revert l l' H. apply same_list_ind. intros v subs subs' r Hs.
  cbn [arg_size]. by rewrite (map_Forall2 _ _ _ Hs).
Qed.

Lemma same_flat b l l' : Forall2 same l l' -> forallb (flat_inthreads b) l' = forallb (flat_inthreads b) l.
Proof.
  intros H. apply forallb_Forall2.
  assert (Hx : Forall2 (fun a a' => flat_inthreads b a' = flat_inthreads b a /\ is_leaf a' = is_leaf a) l l').
  { revert l l' H. apply same_list_ind. intros v subs subs' r Hs. split; [| done]. cbn [flat_inthreads].
    rewrite (forallb_Forall2 is_leaf subs subs'), (forallb_Forall2 (flat_inthreads b) subs subs') by (eapply Forall2_impl; [exact Hs |]; by intros ? ? [? ?]). done. }
  eapply Forall2_impl; [exact Hx |]. by intros ? ? [? ?].
Qed.

Lemma same_csts c l l' : Forall2 same l l' -> csts_list c l' = csts_list c l.
Proof.
  intros H. apply flat_map_Forall2. assert (Hx : Forall2 (fun a a' => forall n c, csts n c a' = csts n c a) l l').
  { revert l l' H. apply same_list_ind. intros v subs subs' r Hs n c'. cbn [csts]. rewrite <- (Forall2_length _ _ _ Hs).
    change (is_group (put_result r v)) with (is_group v). change (is_type ?t (put_result r v)) with (is_type t v).
    destruct (is_group v); [apply flat_map_Forall2; by eapply Forall2_impl |].
    destruct (is_type SEARCH_INTHREAD v); [apply flat_map_Forall2; by eapply Forall2_impl | done]. }
  by eapply Forall2_impl.
Qed.

Lemma same_eval {M} (leaf : M -> arg_value -> Z) thread `{!LeafSpec leaf} c l l' m :
  Forall2 same l l' -> eval_list leaf thread c l' m = eval_list leaf thread c l m.
Proof.
  intros H. unfold eval_list. f_equal. apply map_Forall2. assert (Hx : Forall2 (fun a a' => forall m, eval leaf thread a' m = eval leaf thread a m) l l').
  { clear m. revert l l' H. apply same_list_ind. intros v subs subs' r Hs m. cbn [eval a_type a_match_not a_thread_type put_result].
    assert (Hm : forall m, map (fun s => eval leaf thread s m) subs' = map (fun s => eval leaf thread s m) subs).
    { intros m'. apply (map_Forall2 (fun s => eval leaf thread s m')). by eapply Forall2_impl. }
    f_equal. destruct (a_type v); rewrite ?Hm, ?leaf_res; try done. f_equal. apply map_ext. intros m'. by rewrite Hm. }
  by eapply Forall2_impl.
Qed.

(** ** Unnesting *)

Lemma unnest_leaves parent l :
  forallb is_leaf l = true ->
  un_child (unnest_level unnest_arg parent l) = false /\ Forall2 same l (un_args (unnest_level unnest_arg parent l)).
Proof.
  induction l as [|[v subs] l IH]; cbn [forallb]; [by split |]. intros [Hv Hl]%andb_true_iff. destruct (IH Hl) as [Hc Hs].
  cbn [unnest_level un_child un_args]. rewrite Hc. unfold is_leaf, has_subargs, is_type in Hv. cbn [value] in Hv. cbn [unnest_arg].
  destruct (a_type v); try discriminate Hv; cbn [un_child un_args orb app]; (split; [done |]); (constructor; [| done]); constructor; apply same_list_refl.
Qed.

(** Unnesting changes only results, and it finds the INTHREADs. *)
Lemma unnest_have l : un_have (unnest_level unnest_arg false l) = false -> forallb (flat_inthreads false) l = true.
Proof.
  intros Hl. assert (Ha : Forall (fun a => un_have (unnest_arg false a) = false -> flat_inthreads false a = true) l).
  { apply Forall_true. clear. intros a. induction a as [v subs IH]. cbn [flat_inthreads unnest_arg]. unfold is_type, is_group, is_type.
    assert (Hsub : un_have (unnest_level unnest_arg false subs) = false -> forallb (flat_inthreads false) subs = true).
    { induction IH as [|s subs Hx _ IHs]; [done |]. cbn [unnest_level un_have forallb]. intros [? ?]%orb_false_iff. by rewrite Hx, IHs. }
    destruct (a_type v); cbn; auto. by destruct (unnest_finish true _) as [[? ?] ?]. }
  induction Ha as [|a l Hx _ IH]; [done |]. cbn [unnest_level un_have] in Hl. apply orb_false_iff in Hl as [? ?]. cbn [forallb]. by rewrite Hx, IH.
Qed.

Lemma unnest_flat l : forallb (flat_inthreads true) l = true -> Forall2 same l (un_args (unnest_level unnest_arg false l)).
Proof.
  intros Hl. assert (Ha : Forall (fun a => flat_inthreads true a = true -> exists a', un_args (unnest_arg false a) = [a'] /\ same a a') l).
  { apply Forall_true. clear. intros a. induction a as [v subs IH]. intros Hf. cbn [flat_inthreads unnest_arg] in *.
    assert (Hsub : forallb (flat_inthreads true) subs = true -> Forall2 same subs (un_args (unnest_level unnest_arg false subs))).
    { clear Hf. intros Hf. induction IH as [|s subs Hx _ IHs]; [constructor |]. cbn [forallb] in Hf. apply andb_true_iff in Hf as [Hf1 Hf2].
      cbn [unnest_level un_args]. destruct (Hx Hf1) as (a' & -> & ?). constructor; auto. }
    unfold is_type, is_group, is_type in Hf. destruct (a_type v); cbn [bool_decide] in Hf;
      try (eexists; split; [reflexivity |]; constructor; apply same_list_refl).
    - cbn. eexists. split; [reflexivity |]. constructor. by apply Hsub.
    - cbn. eexists. split; [reflexivity |]. constructor. by apply Hsub.
    - destruct (unnest_leaves true subs Hf) as [Hc Hs]. unfold unnest_finish. rewrite Hc. cbn. eexists. split; [reflexivity |]. by constructor. }
  induction Ha as [|a l Hx _ IH]; [constructor |]. cbn [forallb] in Hl. apply andb_true_iff in Hl as [Hl1 Hl2].
  cbn [unnest_level un_args]. destruct (Hx Hl1) as (a' & -> & ?). constructor; auto.
Qed.

(** ** The whole simplification *)

Section Whole.
Context {M : Type} (leaf : M -> arg_value -> Z) (thread : Z -> M -> list M) `{!LeafSpec leaf}.
Context {T : Type} `{!Table mail_search_simplify_mask nat T, !TableSpec mail_search_simplify_mask nat T}.
Variable prev_args0 : T.
Hypothesis prev_args0_inv : table_inv prev_args0.
Hypothesis prev_args0_empty : forall k, table_get prev_args0 k = None.
Notation simplify_sub := (mail_search_args_simplify_sub prev_args0).
Notation eval_list := (eval_list leaf thread true).

(** What the passes need, and keep. *)
Record ready (l : list mail_search_arg) : Prop := {
  ready_ok : forallb groups_ok l = true;
  ready_flat : forallb (flat_inthreads true) l = true;
  ready_compatible : no_conflicts l = true;
}.

Lemma ready_same l l' : Forall2 same l l' -> ready l -> ready l'.
Proof.
  intros Hs [H1 H2 H3]. split; [by rewrite (same_groups_ok l) | by rewrite (same_flat true l) |]. unfold no_conflicts. by rewrite (same_csts true l).
Qed.

(** One pass over the top level. *)
Lemma pass_spec l :
  ready l -> exists l' r, simplify_sub l true = Some (l', r) /\ ready l' /\ forallb nnf l' = true /\
    (forallb (flat_inthreads false) l = true -> forallb (flat_inthreads false) l' = true) /\ (forall m, eval_list l' m = eval_list l m) /\
    (if r then (args_size l' < args_size l)%nat else forall l2, Forall2 same l' l2 -> simplify_sub l2 true = Some (l2, false)).
Proof.
  intros [Hok Hfl Hc].
  destruct (simplify_loop_spec leaf thread prev_args0 prev_args0_inv prev_args0_empty (S (args_size l)) false true (csts_list true l) [] prev_args0 false l)
    as (l' & r & Heq & [He [Hs _] Ho _ Hsz] & Hr); [lia | by apply table_ok_empty | done | by split | done |].
  exists l', r. unfold mail_search_args_simplify_sub. destruct (simplify_loop_shape _ _ _ _ _ _ _ _ _ Heq) as (Hn & Hf & _).
  split_and!; [done | | by apply Hn | by apply Hf | done |].
  - split; [by apply Ho | by apply Hf | by eapply pairwise_sublist].
  - destruct r; [by destruct (Hr eq_refl) |]. intros l2 Hs2. apply simplify_loop_stable in Heq as (suf & Hsuf & _ & Hst). cbn in Hsuf. subst suf.
    apply (Hst _ []); [constructor | done | lia].
Qed.

Lemma removals_loop_spec fuel r l :
  ready l -> (args_size l < fuel)%nat -> forallb nnf l = true -> (r = false -> simplify_sub l true = Some (l, false)) ->
  exists l', removals_loop prev_args0 fuel r l = Some l' /\ forallb nnf l' = true /\
    (forallb (flat_inthreads false) l = true -> forallb (flat_inthreads false) l' = true) /\ (forall m, eval_list l' m = eval_list l m) /\
    simplify_sub l' true = Some (l', false).
Proof.
  revert r l. induction fuel as [|fuel IH]; intros r l Hl Hf Hn Hst; [lia |]. cbn [removals_loop]. destruct r; cbn [negb].
  2:{ exists l. split_and!; [done | done | done | done | by apply Hst]. }
  destruct (pass_spec l Hl) as (l1 & r1 & -> & Hl1 & Hn1 & Hi1 & He1 & Hr1). cbn [mbind option_bind]. destruct r1.
  - destruct (IH true l1) as (l' & -> & Hn' & Hi' & He' & Hst'); [done | lia | done | done |]. exists l'. split_and!; [done | done | auto | | done].
    intros m. by rewrite He'.
  - exists l1. assert (removals_loop prev_args0 fuel false l1 = Some l1) as -> by (by destruct fuel). split_and!; [done | done | done | done |]. apply Hr1, same_list_refl.
Qed.

(** Simplification returns; it keeps the meaning of the arguments, tells
    whether there are INTHREADs, and its result is what a further pass would
    leave as it is. *)
Lemma simplify_spec a :
  ready (args a) ->
  exists a', mail_search_args_simplify prev_args0 a = Some a' /\ simplified a' = true /\ forallb nnf (args a') = true /\
    (have_inthreads a' = true \/ forallb (flat_inthreads false) (args a') = true) /\
    (forall m, eval_list (args a') m = eval_list (args a) m) /\ simplify_sub (args a') true = Some (args a', false).
Proof.
  intros Ha. unfold mail_search_args_simplify. destruct (pass_spec (args a) Ha) as (l1 & r1 & -> & Hl1 & Hn1 & Hi1 & He1 & Hr1). cbn [mbind option_bind].
  pose proof (unnest_flat l1 (ready_flat _ Hl1)) as Hs. pose proof (unnest_have l1) as Hh. unfold mail_search_args_unnest_inthreads, unnest_finish. cbn [negb orb].
  set (l2 := un_args _) in *. clearbody l2. set (have := un_have _) in *. clearbody have. cbn [mbind option_bind].
  destruct (removals_loop_spec (S (args_size l2)) r1 l2) as (l' & -> & Hn' & Hi' & He' & Hst).
  - by eapply ready_same.
  - lia.
  - by rewrite (same_nnf l1).
  - intros ->. by apply Hr1.
  - cbn [mbind option_bind]. eexists. split_and!; [reflexivity | done | done | | | done]; cbn [args have_inthreads]; [| intros m].
    { destruct have; [left; apply orb_true_r |]. right. apply Hi'. rewrite (same_flat false l1) by done. by apply Hh. }
    by rewrite He', (same_eval leaf thread true l1).
Qed.
End Whole.
