(* ===== verification/MailSearchSimplifyHash.v ===== *)
(** * Simplifying search arguments with a hash table

    mail-search-args-simplify.c finds the argument of a mask in a hash table of
    hash.c, with its own hash and comparison of masks.  They satisfy the
    interface of Table.v, so that what is proved of the simplification against
    the interface holds for the code.

    How the compiler lays out [bin_mask] in memory is a parameter: equal
    members have equal bytes and the other way round, as the structs are
    cleared before their members are set. *)

From S2P Require Import Prelude SeqRange Table Hash HashProps HashLaws ImapArg.
From S2P Require Import MailSearch MailSearchSimplify MailSearchEval MailSearchSimplifyProps MailSearchSimplifyLoop MailSearchSimplifyCorrect.

Definition null_strcmp (s1 s2 : option (list Z)) : Z :=
  match s1, s2 with
  | None, None => 0
  | None, Some _ => -1
  | Some _, None => 1
  | Some s1, Some s2 => strcmp s1 s2
  end.

Lemma null_strcmp_eq s1 s2 : null_strcmp s1 s2 = 0 <-> s1 = s2.
Proof. destruct s1, s2; cbn; [rewrite strcmp_eq | ..]; split; congruence. Qed.

(** [memcmp] compares as [strcmp] does, without a terminator. *)
Definition memcmp : list Z -> list Z -> Z := strcmp.

Section Masks.
(** The bytes of type, search_flags, date_type, match_not and fuzzy. *)
Variable bin_mask : mail_search_arg_type * Z * Z * bool * bool -> list Z.
Hypothesis bin_mask_inj : forall x y, bin_mask x = bin_mask y -> x = y.

Definition mask_bytes (k : mail_search_simplify_mask) : list Z :=
  bin_mask (mask_type k, mask_search_flags k, mask_date_type k, mask_match_not k, mask_fuzzy k).

Definition mail_search_simplify_prev_arg_cmp (arg1 arg2 : mail_search_simplify_mask) : Z :=
  let ret := memcmp (mask_bytes arg1) (mask_bytes arg2) in
  let ret := if ret =? 0 then null_strcmp (hdr_field_name_mask arg1) (hdr_field_name_mask arg2) else ret in
  if ret =? 0 then null_strcmp (str_mask arg1) (str_mask arg2) else ret.

Definition mail_search_simplify_prev_arg_hash (arg : mail_search_simplify_mask) : Z :=
  let hash := mem_hash (mask_bytes arg) in
  let hash := match hdr_field_name_mask arg with Some s => Z.lxor hash (str_hash s) | None => hash end in
  match str_mask arg with Some s => Z.lxor hash (str_hash s) | None => hash end.

Lemma mask_cmp_eq a b : mail_search_simplify_prev_arg_cmp a b = 0 <-> a = b.
Proof using bin_mask_inj.
  unfold mail_search_simplify_prev_arg_cmp, memcmp. cbv zeta. pose proof (strcmp_eq (mask_bytes a) (mask_bytes b)) as H1.
  pose proof (null_strcmp_eq (hdr_field_name_mask a) (hdr_field_name_mask b)) as H2. pose proof (null_strcmp_eq (str_mask a) (str_mask b)) as H3.
  split.
  - intros H. destruct (Z.eqb_spec (strcmp (mask_bytes a) (mask_bytes b)) 0) as [E1 | E1];
      [| destruct (Z.eqb_spec (strcmp (mask_bytes a) (mask_bytes b)) 0); congruence].
    destruct (Z.eqb_spec (null_strcmp (hdr_field_name_mask a) (hdr_field_name_mask b)) 0) as [E2 |]; [| congruence].
    apply H1, bin_mask_inj in E1. apply H2 in E2. apply H3 in H. destruct a, b. cbn in *. congruence.
  - intros ->. by rewrite (proj2 H1 eq_refl), (proj2 H2 eq_refl), (proj2 H3 eq_refl).
Qed.

Lemma mask_key : HashKey mail_search_simplify_prev_arg_hash mail_search_simplify_prev_arg_cmp.
Proof using bin_mask_inj.
  split; intros *; rewrite !mask_cmp_eq; congruence.
Qed.

#[local] Instance mask_table : Table mail_search_simplify_mask nat (hash_table mail_search_simplify_mask nat) :=
  hash_key_table mail_search_simplify_prev_arg_hash mail_search_simplify_prev_arg_cmp.

(** The simplification of a level and of all arguments, with the table that
    [hash_table_create] makes for it. *)
Definition simplify_sub_with_hash (l : list mail_search_arg) (parent_and : bool) : option (list mail_search_arg * bool) :=
  prev_args ← hash_table_create 0; mail_search_args_simplify_sub prev_args l parent_and.

Definition simplify_with_hash (a : mail_search_args) : option mail_search_args :=
  prev_args ← hash_table_create 0; mail_search_args_simplify prev_args a.

Lemma simplify_with_hash_spec {M} (leaf : M -> arg_value -> Z) (thread : Z -> M -> list M) `{!LeafSpec leaf} a :
  ready (args a) ->
  exists a', simplify_with_hash a = Some a' /\ simplified a' = true /\ forallb nnf (args a') = true /\
    (have_inthreads a' = true \/ forallb (flat_inthreads false) (args a') = true) /\
    (forall m, eval_list leaf thread true (args a') m = eval_list leaf thread true (args a) m) /\
    simplify_sub_with_hash (args a') true = Some (args a', false).
Proof using bin_mask_inj.
  intros Ha. pose proof mask_key as Hk.
  destruct (hash_table_create_spec mail_search_simplify_prev_arg_hash mail_search_simplify_prev_arg_cmp (V := nat) 0) as (t & Ht & Hwf & He & Hfr).
  unfold simplify_with_hash, simplify_sub_with_hash. rewrite Ht. cbn [mbind option_bind].
  apply (simplify_spec leaf thread (TableSpec0 := hash_key_table_spec _ _ mask_cmp_eq)); [by split | | done].
  intros k. cbn. unfold key_table_get. by rewrite (lookup_fresh mail_search_simplify_prev_arg_hash mail_search_simplify_prev_arg_cmp t k Hwf) by (rewrite He; constructor).
Qed.
End Masks.
