(* ===== verification/IndexSearch.v ===== *)
(** * Searching an index (src/src/lib-storage/index/index-search.c)

    The callbacks that decide the conditions of a search for one message, the
    range of messages that a search has to look at, the rounds of lookups for a
    message, and the loop over the messages, some of which are prefetched while
    others are returned.

    A message is a record of what the storage and the index return for it:
    [None] where a lookup fails.  Matching headers and bodies reads the message
    and is one of its members.  The conditions that the code leaves to several
    callbacks are the arguments of [mail_search_args_foreach].  What is in the
    cache, and which messages are ready at once, is given by [search_env]. *)

From S2P Require Import Prelude SeqRange ImapArg ImapMatch ImapQuote MailSearch.

Record mail := Mail {
  m_seq : Z;
  m_uid : Z;
  (** Whether it is the last message of the mailbox. *)
  m_last : bool;
  (** The flags of the record, whether the message is recent, and with a
      private view its mask and the flags of the private record. *)
  m_flags : Z;
  m_recent : bool;
  m_pvt : option (Z * option Z);
  m_keyword_indexes : list Z;
  m_modseq : Z;
  m_modseq_flags : Z -> Z;
  m_modseq_keywords : list Z -> Z;
  (** Date and time zone of the header, other dates, and the local offset. *)
  m_date : option (Z * Z);
  m_received_date : option Z;
  m_save_date : option Z;
  m_utc_offset : Z -> Z;
  m_virtual_size : option Z;
  m_guid : option (list Z);
  m_real_uid : option Z;
  (** The mailbox, its separator, and the name of the mail's own mailbox. *)
  m_vname : list Z;
  m_sep : Z;
  m_mailbox_name : option (list Z);
  m_mailbox_guid : option (list Z);
  (** Headers and bodies: 0 no match, 1 unknown, 2 match. *)
  m_text : mail_search_arg_type -> option (list Z) -> option (list Z) -> bool -> Z;
}.

Definition bool_result (b : bool) : Z := if b then 1 else 0.

Definition search_seqset_arg (m : mail) (v : arg_value) : option arg_value :=
  if is_type SEARCH_SEQSET v then
    b ← seq_range_exists (a_seqset v) (m_seq m);
    Some (ARG_SET_RESULT (bool_result b) v)
  else Some v.

Definition search_arg_match_keywords (m : mail) (search_kws : list Z) : Z :=
  bool_result (forallb (fun k => bool_decide (k ∈ m_keyword_indexes m)) search_kws).

(** The flags of the message that a condition on [flags] sees. *)
Definition match_flags (m : mail) (flags : Z) : Z :=
  let f := Z.ldiff (m_flags m) MAIL_RECENT in
  let f := if negb (Z.land flags MAIL_RECENT =? 0) && m_recent m then Z.lor f MAIL_RECENT else f in
  match m_pvt m with
  | None => f
  | Some (mask, pvt) => let f := Z.ldiff f mask in match pvt with Some rec_flags => Z.lor f (Z.land rec_flags mask) | None => f end
  end.

(** 1 matched, 0 not matched, -1 unknown. *)
Definition search_arg_match_index (m : mail) (v : arg_value) : option Z :=
  match a_type v with
  | SEARCH_UIDSET | SEARCH_INTHREAD => b ← seq_range_exists (a_seqset v) (m_uid m); Some (bool_result b)
  | SEARCH_FLAGS => Some (bool_result (Z.land (match_flags m (a_flags v)) (a_flags v) =? a_flags v))
  | SEARCH_KEYWORDS => kws ← a_keywords v; Some (search_arg_match_keywords m kws)
  | SEARCH_MODSEQ =>
      let modseq := if negb (a_flags v =? 0) then m_modseq_flags m (a_flags v)
                    else match a_keywords v with Some kws => m_modseq_keywords m kws | None => m_modseq m end in
      q ← a_modseq v; Some (bool_result (modseq >=? modseq_value q))
  | _ => Some (-1)
  end.

(** The callbacks set the result that their match functions return. *)
Definition set_match (ret : option Z) (v : arg_value) : option arg_value :=
  ret ← ret;
  Some (if ret =? -1 then v else if ret =? 0 then ARG_SET_RESULT 0 v else ARG_SET_RESULT 1 v).

Definition search_index_arg (m : mail) (v : arg_value) : option arg_value := set_match (search_arg_match_index m v) v.

(** The glob is the one that [mail_search_args_init] made of [value.str]. *)
Definition search_arg_match_mailbox (m : mail) (v : arg_value) : option Z :=
  match a_type v with
  | SEARCH_MAILBOX =>
      s ← a_str v;
      if bool_decide (m_vname m = s) then Some 1
      else match m_mailbox_name m with
           | None => Some (-1)
           | Some name => Some (bool_result (if strcaseeq name (str "INBOX") then strcaseeq s (str "INBOX") else bool_decide (name = s)))
           end
  | SEARCH_MAILBOX_GLOB =>
      s ← a_str v;
      glob ← imap_match_init s true (m_sep m);
      r ← imap_match glob (m_vname m);
      if r =? IMAP_MATCH_YES then Some 1
      else match m_mailbox_name m with
           | None => Some (-1)
           | Some name => r ← imap_match glob name; Some (bool_result (r =? IMAP_MATCH_YES))
           end
  | _ => Some (-1)
  end.

Definition search_mailbox_arg (m : mail) (v : arg_value) : option arg_value := set_match (search_arg_match_mailbox m v) v.

(** The date that a condition compares: [None] when it is not known. *)
Definition match_date (m : mail) (v : arg_value) : option Z :=
  let adjust date tz := if Z.land (a_search_flags v) MAIL_SEARCH_ARG_FLAG_USE_TZ =? 0 then date + tz * 60 else date in
  if a_date_type v =? MAIL_SEARCH_DATE_TYPE_SENT then '(date, tz) ← m_date m; Some (adjust date tz)
  else if a_date_type v =? MAIL_SEARCH_DATE_TYPE_RECEIVED then date ← m_received_date m; Some (adjust date (m_utc_offset m date))
  else if a_date_type v =? MAIL_SEARCH_DATE_TYPE_SAVED then date ← m_save_date m; Some (adjust date (m_utc_offset m date))
  else Some (adjust (-1) (m_utc_offset m (-1))).

Definition search_arg_match_cached (m : mail) (v : arg_value) : option Z :=
  match a_type v with
  | SEARCH_BEFORE => Some (match match_date m v with Some date => bool_result (date <? a_time v) | None => -1 end)
  | SEARCH_ON =>
      Some (match match_date m v with Some date => bool_result ((date >=? a_time v) && (date <? a_time v + 3600 * 24)) | None => -1 end)
  | SEARCH_SINCE => Some (match match_date m v with Some date => bool_result (date >=? a_time v) | None => -1 end)
  | SEARCH_SMALLER => Some (match m_virtual_size m with Some size => bool_result (size <? a_size v) | None => -1 end)
  | SEARCH_LARGER => Some (match m_virtual_size m with Some size => bool_result (size >? a_size v) | None => -1 end)
  | SEARCH_GUID =>
      match m_guid m with Some guid => s ← a_str v; Some (bool_result (bool_decide (guid = s))) | None => Some (-1) end
  | SEARCH_REAL_UID =>
      match m_real_uid m with Some uid => b ← seq_range_exists (a_seqset v) uid; Some (bool_result b) | None => Some (-1) end
  | _ => Some (-1)
  end.

Definition search_cached_arg (m : mail) (v : arg_value) : option arg_value := set_match (search_arg_match_cached m v) v.

(** ** What a new search sets up *)

(** [have_seqsets], [have_index_args] and [have_mailbox_args]. *)
Record search_needs := Needs { have_seqsets : bool; have_index_args : bool; have_mailbox_args : bool }.

Definition search_init_arg (mailbox_guid : option (list Z)) (v : arg_value) (needs : search_needs) : option (arg_value * search_needs) :=
  match a_type v with
  | SEARCH_SEQSET => Some (v, Needs true (have_index_args needs) (have_mailbox_args needs))
  | SEARCH_UIDSET | SEARCH_INTHREAD | SEARCH_FLAGS | SEARCH_KEYWORDS | SEARCH_MODSEQ =>
      Some (v, Needs (have_seqsets needs) true (have_mailbox_args needs))
  | SEARCH_MAILBOX_GUID =>
      match mailbox_guid with
      | None => Some (v, needs)
      | Some guid =>
          s ← a_str v;
          let match_ := bool_decide (guid = s) in
          Some (if negb (Bool.eqb match_ (a_match_not v)) then put_always true (a_nonmatch_always v) v
                else put_always (a_match_always v) true v, needs)
      end
  | SEARCH_MAILBOX | SEARCH_MAILBOX_GLOB => Some (v, Needs (have_seqsets needs) (have_index_args needs) true)
  | SEARCH_ALL =>
      Some (if negb (a_match_not v) then put_always true (a_nonmatch_always v) v else put_always (a_match_always v) true v, needs)
  | _ => Some (v, needs)
  end.

(** ** The range of messages to look at *)

(** Whether the set can match, and the set without nonexistent messages. *)
Definition search_msgset_fix_limits (messages_count : Z) (seqset : list seq_range) (match_not : bool) : option (bool * list seq_range) :=
  _ ← assert (messages_count >? 0);
  seqset ← (if negb (length seqset =? 0)%nat then
              first ← seqset !! 0%nat;
              last ← seqset !! (length seqset - 1)%nat;
              _ ← assert (negb (seq1 first =? 0));
              '(_, seqset) ← (if seq2 last =? UINT32_MAX then seq_range_array_add seqset messages_count else Some (false, seqset));
              '(_, seqset) ← seq_range_array_remove_range seqset (u32 (messages_count + 1)) UINT32_MAX;
              Some seqset
            else Some seqset);
  if negb match_not then Some (negb (length seqset =? 0)%nat, seqset)
  else if (length seqset =? 0)%nat then Some (true, seqset)
  else first ← seqset !! 0%nat;
       last ← seqset !! (length seqset - 1)%nat;
       Some (negb (seq1 first =? 1) || negb (seq2 last =? messages_count), seqset).

(** The set and the range [seq1_r], [seq2_r]. *)
Definition search_msgset_fix (messages_count : Z) (seqset : list seq_range) (s1 s2 : Z) (match_not : bool) : option (list seq_range * (Z * Z)) :=
  '(can_match, seqset) ← search_msgset_fix_limits messages_count seqset match_not;
  if negb can_match then Some (seqset, (UINT32_MAX, 0))
  else
    let limit min_seq max_seq :=
      Some (seqset, (if (s1 <? min_seq) || (s1 =? 0) then min_seq else s1, if s2 >? max_seq then max_seq else s2)) in
    if match_not && (length seqset =? 0)%nat then limit 1 messages_count
    else
      first ← seqset !! 0%nat;
      last ← seqset !! (length seqset - 1)%nat;
      if negb match_not then limit (seq1 first) (seq2 last)
      else
        let min_seq := if seq1 first >? 1 then 1 else u32 (seq2 first + 1) in
        let max_seq := if seq2 last <? messages_count then messages_count else u32 (seq1 last - 1) in
        if min_seq >? max_seq then Some (seqset, (UINT32_MAX, 0)) else limit min_seq max_seq.

(** The arguments are returned with their changed sets. *)
Section ParseMsgset.
Variable messages_count : Z.
Variable parse_arg : mail_search_arg -> Z * Z -> option (mail_search_arg * (Z * Z)).

(** The loop of [search_parse_msgset_args]. *)
Fixpoint msgset_and_loop (args : list mail_search_arg) (range : Z * Z) : option (list mail_search_arg * (Z * Z)) :=
  match args with
  | [] => Some ([], range)
  | a :: args =>
      '(a, range) ← parse_arg a range;
      '(args, range) ← msgset_and_loop args range;
      Some (a :: args, range)
  end.

(** The loop of [search_or_parse_msgset_args], with [min_seq1], [max_seq2]. *)
Fixpoint msgset_or_loop (args : list mail_search_arg) (widest : Z * Z) : option (list mail_search_arg * (Z * Z)) :=
  match args with
  | [] => Some ([], widest)
  | a :: args =>
      '(a, (s1, s2)) ← parse_arg a (1, messages_count);
      let '(min_seq1, max_seq2) := widest in
      let widest := if min_seq1 =? 0 then (s1, s2)
                    else (if s1 <? min_seq1 then s1 else min_seq1, if s2 >? max_seq2 then s2 else max_seq2) in
      '(args, widest) ← msgset_or_loop args widest;
      Some (a :: args, widest)
  end.

Definition search_or_parse_msgset (args : list mail_search_arg) (range : Z * Z) : option (list mail_search_arg * (Z * Z)) :=
  '(args, (min_seq1, max_seq2)) ← msgset_or_loop args (0, 0);
  _ ← assert (negb (min_seq1 =? 0));
  let '(s1, s2) := range in
  Some (args, (if min_seq1 >? s1 then min_seq1 else s1, if max_seq2 <? s2 then max_seq2 else s2)).
End ParseMsgset.

(** The switch of both functions. *)
Fixpoint search_parse_msgset_arg (messages_count : Z) (a : mail_search_arg) (range : Z * Z) : option (mail_search_arg * (Z * Z)) :=
  let '(Arg v subs) := a in
  match a_type v with
  | SEARCH_SUB =>
      _ ← assert (negb (a_match_not v));
      '(subs, range) ← msgset_and_loop (search_parse_msgset_arg messages_count) subs range; Some (Arg v subs, range)
  | SEARCH_OR =>
      _ ← assert (negb (a_match_not v));
      '(subs, range) ← search_or_parse_msgset messages_count (search_parse_msgset_arg messages_count) subs range; Some (Arg v subs, range)
  | SEARCH_SEQSET =>
      '(seqset, range) ← search_msgset_fix messages_count (a_seqset v) range.1 range.2 (a_match_not v); Some (Arg (put_seqset seqset v) subs, range)
  | _ => Some (a, range)
  end.

Definition search_parse_msgset_args (messages_count : Z) (args : list mail_search_arg) (range : Z * Z) : option (list mail_search_arg * (Z * Z)) :=
  msgset_and_loop (search_parse_msgset_arg messages_count) args range.

(** What the header of the index says, and the private flags. *)
Record index_header := Header {
  messages_count : Z;
  seen_messages_count : Z;
  deleted_messages_count : Z;
  first_unseen_uid_lowwater : Z;
  first_deleted_uid_lowwater : Z;
  highest_modseq : Z;
  pvt_flags_mask : Z;
  (** The first sequence of [mail_index_lookup_seq_range] from this UID on. *)
  lookup_seq : Z -> Z;
}.

Definition search_limit_lowwater (hdr : index_header) (uid_lowwater first_seq : Z) : Z :=
  if uid_lowwater =? 0 then first_seq
  else let s1 := lookup_seq hdr uid_lowwater in if first_seq <? s1 then s1 else first_seq.

Definition flag_set (flags flag : Z) : bool := negb (Z.land flags flag =? 0).

(** One flag of a FLAGS condition: [None] inside when nothing can match. *)
Definition limit_by_seen (hdr : index_header) (v : arg_value) (s1 : Z) : option (arg_value * Z) :=
  if flag_set (a_flags v) MAIL_SEEN && negb (flag_set (pvt_flags_mask hdr) MAIL_SEEN) then
    if negb (a_match_not v) && (seen_messages_count hdr =? 0) then None
    else if seen_messages_count hdr =? messages_count hdr then
      if a_match_not v then None else Some (put_always true (a_nonmatch_always v) v, s1)
    else if a_match_not v then Some (v, search_limit_lowwater hdr (first_unseen_uid_lowwater hdr) s1)
    else Some (v, s1)
  else Some (v, s1).

Definition limit_by_deleted (hdr : index_header) (v : arg_value) (s1 : Z) : option (arg_value * Z) :=
  if flag_set (a_flags v) MAIL_DELETED && negb (flag_set (pvt_flags_mask hdr) MAIL_DELETED) then
    if negb (a_match_not v) && (deleted_messages_count hdr =? 0) then None
    else if deleted_messages_count hdr =? messages_count hdr then
      if a_match_not v then None else Some (put_always true (a_nonmatch_always v) v, s1)
    else if negb (a_match_not v) then Some (v, search_limit_lowwater hdr (first_deleted_uid_lowwater hdr) s1)
    else Some (v, s1)
  else Some (v, s1).

(** The return value, the arguments and the first sequence. *)
Fixpoint search_limit_by_hdr (hdr : index_header) (args : list mail_search_arg) (s1 s2 : Z) : option (bool * list mail_search_arg * Z) :=
  match args with
  | [] => Some (s1 <=? s2, [], s1)
  | Arg v subs :: rest =>
      let continue v s1 := '(ret, rest, s1) ← search_limit_by_hdr hdr rest s1 s2; Some (ret, Arg v subs :: rest, s1) in
      match a_type v with
      | SEARCH_ALL => if a_match_not v then Some (false, args, s1) else continue v s1
      | SEARCH_MODSEQ => q ← a_modseq v; if modseq_value q >? highest_modseq hdr then Some (false, args, s1) else continue v s1
      | SEARCH_FLAGS =>
          match limit_by_seen hdr v s1 with
          | None => Some (false, args, s1)
          | Some (v, s1) =>
              match limit_by_deleted hdr v s1 with
              | None => Some (false, Arg v subs :: rest, s1)
              | Some (v, s1) => continue v s1
              end
          end
      | _ => continue v s1
      end
  end.

(** The arguments and the range. *)
Definition search_get_seqset (hdr : index_header) (count : Z) (args : list mail_search_arg) : option (list mail_search_arg * (Z * Z)) :=
  if count =? 0 then Some (args, (1, 0))
  else
    '(args, (s1, s2)) ← search_parse_msgset_args count args (1, count);
    let '(s1, s2) := if s1 =? 0 then (1, count) else (s1, s2) in
    if s1 >? s2 then Some (args, (s1, s2))
    else
      '(ret, args, s1) ← search_limit_by_hdr hdr args s1 s2;
      Some (args, if negb ret then (1, 0) else (s1, s2)).

(** ** Running a search *)

(** What [index_storage_search_next_update_seq] does for one sequence. *)
Definition search_update_seq (needs : search_needs) (m : mail) (args : list mail_search_arg) : option (Z * list mail_search_arg) :=
  if negb (have_seqsets needs) && negb (have_index_args needs) then Some (1, args)
  else
    '(ret, args) ← mail_search_args_foreach (search_seqset_arg m) args;
    if negb (ret =? 0) && have_index_args needs then mail_search_args_foreach (search_index_arg m) args else Some (ret, args).

(** How far the lookups of a message may go. *)
Inductive mail_lookup_abort := MAIL_LOOKUP_ABORT_NEVER | MAIL_LOOKUP_ABORT_READ_MAIL | MAIL_LOOKUP_ABORT_NOT_IN_CACHE.

Definition cache_lookups : list mail_lookup_abort := [MAIL_LOOKUP_ABORT_NOT_IN_CACHE; MAIL_LOOKUP_ABORT_READ_MAIL; MAIL_LOOKUP_ABORT_NEVER].

(** What a search is given: the callback of [search_arg_match_text], which
    reads the message; what the lookups of a message return when they may be
    aborted; [max_mails]; [stop_on_nonmatch]; and what [mail_prefetch] returns. *)
Record search_env := SearchEnv {
  search_text : mail -> arg_value -> option arg_value;
  aborted_lookups : mail_lookup_abort -> mail -> mail;
  max_mails : Z;
  stop_on_nonmatch : bool;
  mail_prefetch : mail -> bool;
}.

Section Match.
Variable env : search_env.

Definition lookups (lookup_abort : mail_lookup_abort) (m : mail) : mail :=
  match lookup_abort with MAIL_LOOKUP_ABORT_NEVER => m | _ => aborted_lookups env lookup_abort m end.

Definition search_match_once (m : mail) (args : list mail_search_arg) : option (Z * list mail_search_arg) :=
  '(ret, args) ← mail_search_args_foreach (search_cached_arg m) args;
  if ret <? 0 then mail_search_args_foreach (search_text env m) args else Some (ret, args).

(** The loop over [cache_lookups]. *)
Fixpoint match_rounds (rounds : list mail_lookup_abort) (m : mail) (ret : Z) (args : list mail_search_arg) : option (Z * list mail_search_arg) :=
  match rounds with
  | [] => Some (ret, args)
  | lookup_abort :: rounds =>
      if ret <? 0 then '(ret, args) ← search_match_once (lookups lookup_abort m) args; match_rounds rounds m ret args
      else Some (ret, args)
  end.

Definition search_match_next (needs : search_needs) (m : mail) (args : list mail_search_arg) : option (Z * list mail_search_arg) :=
  '(ret, args) ← (if have_mailbox_args needs then mail_search_args_foreach (search_mailbox_arg m) args else Some (-1, args));
  match_rounds (if max_mails env >? 1 then take 2 cache_lookups else cache_lookups) m ret args.

(** The loop of [search_more_with_mail] with that of
    [index_storage_search_next_update_seq], over the messages from the next
    sequence on: the message that may match, with its [search_results], and the
    messages behind it. *)
Fixpoint search_next_mail (needs : search_needs) (ahead : list mail) (args : list mail_search_arg)
    : option (option (mail * option (list Z)) * list mail * list mail_search_arg) :=
  match ahead with
  | [] => Some (None, [], args)
  | m :: ahead =>
      '(ret, args) ← search_update_seq needs m args;
      if ret =? 0 then search_next_mail needs ahead (mail_search_args_reset args false)
      else
        '(match_, args) ← search_match_next needs m args;
        let search_results := if match_ <? 0 then Some (mail_search_args_result_serialize args) else None in
        let args := mail_search_args_reset args false in
        if negb (match_ =? 0) then Some (Some (m, search_results), ahead, args)
        else if stop_on_nonmatch env then Some (None, ahead, args)
        else search_next_mail needs ahead args
  end.

(** The arguments, the messages to come, and the first [unused_mail_idx] mails
    with their [search_results]. *)
Record search_state := SearchState { s_args : list mail_search_arg; s_ahead : list mail; s_mails : list (mail * option (list Z)) }.

Definition search_more_with_mail (needs : search_needs) (st : search_state) : option (option (mail * option (list Z)) * search_state) :=
  '(found, ahead, args) ← search_next_mail needs (s_ahead st) (mail_search_args_reset (s_args st) false);
  Some (found, SearchState args ahead (s_mails st)).

(** The first mail of the prefetch buffer. *)
Definition next_prefetched (st : search_state) : option (option (mail * option (list Z)) * search_state) :=
  match s_mails st with
  | [] => Some (None, st)
  | mail :: mails => Some (Some mail, SearchState (s_args st) (s_ahead st) mails)
  end.

(** [None] inside when the search is finished. *)
Fixpoint search_more_with_prefetching (fuel : nat) (needs : search_needs) (st : search_state) : option (option (mail * option (list Z)) * search_state) :=
  match fuel with
  | O => None
  | S fuel =>
      if Z.of_nat (length (s_mails st)) =? max_mails env then next_prefetched st
      else
        '(found, st) ← search_more_with_mail needs st;
        match found with
        | None => next_prefetched st
        | Some mail =>
            if mail_prefetch env mail.1 && (length (s_mails st) =? 0)%nat then Some (Some mail, st)
            else search_more_with_prefetching fuel needs (SearchState (s_args st) (s_ahead st) (s_mails st ++ [mail]))
        end
  end.

Definition search_finish_prefetch (m : mail) (search_results : list Z) (st : search_state) : option (bool * search_state) :=
  args ← mail_search_args_result_deserialize (s_args st) search_results;
  '(ret, args) ← search_match_once m args;
  Some (ret >? 0, SearchState args (s_ahead st) (s_mails st)).

Fixpoint search_more (fuel : nat) (needs : search_needs) (st : search_state) : option (option mail * search_state) :=
  match fuel with
  | O => None
  | S fuel =>
      '(found, st) ← search_more_with_prefetching (S (length (s_ahead st))) needs st;
      match found with
      | None => Some (None, st)
      | Some (m, None) => Some (Some m, st)
      | Some (m, Some search_results) =>
          '(matched, st) ← search_finish_prefetch m search_results st;
          if (matched : bool) then Some (Some m, st)
          else if stop_on_nonmatch env then Some (None, st)
          else search_more fuel needs st
      end
  end.

(** The sequences that [index_storage_search_next_nonblock] returns until the
    search is finished, when it never has to wait and nothing is sorted. *)
Definition search_left (st : search_state) : nat := length (s_ahead st) + length (s_mails st).

Fixpoint search_messages (fuel : nat) (needs : search_needs) (st : search_state) : option (list Z) :=
  match fuel with
  | O => None
  | S fuel =>
      '(found, st) ← search_more (S (search_left st)) needs st;
      match found with
      | None => Some []
      | Some m => rest ← search_messages fuel needs st; Some (m_seq m :: rest)
      end
  end.
End Match.

(** [mail_search_args_foreach] with [search_init_arg], which decides nothing
    and so comes to every leaf. *)
Section InitList.
Variable init_arg : mail_search_arg -> search_needs -> option (mail_search_arg * search_needs).

Fixpoint init_list (args : list mail_search_arg) (needs : search_needs) : option (list mail_search_arg * search_needs) :=
  match args with
  | [] => Some ([], needs)
  | a :: args => '(a, needs) ← init_arg a needs; '(args, needs) ← init_list args needs; Some (a :: args, needs)
  end.
End InitList.

Fixpoint init_arg (mailbox_guid : option (list Z)) (a : mail_search_arg) (needs : search_needs) : option (mail_search_arg * search_needs) :=
  let '(Arg v subs) := a in
  if is_type SEARCH_SUB v || is_type SEARCH_OR v then
    '(subs, needs) ← init_list (init_arg mailbox_guid) subs needs; Some (Arg v subs, needs)
  else '(v, needs) ← search_init_arg mailbox_guid v needs; Some (Arg v subs, needs).

(** [index_storage_search_init]: the arguments, the range and the needs. *)
Definition index_storage_search_init (mailbox_guid : option (list Z)) (hdr : index_header) (count : Z) (args : list mail_search_arg)
    : option (list mail_search_arg * (Z * Z) * search_needs) :=
  '(args, range) ← search_get_seqset hdr count (mail_search_args_reset args true);
  '(args, needs) ← init_list (init_arg mailbox_guid) args (Needs false false false);
  Some (mail_search_args_reset args false, range, needs).

(** The whole search over the messages of the mailbox, in order. *)
Definition index_search (env : search_env) (mailbox_guid : option (list Z)) (hdr : index_header) (mails : list mail) (args : list mail_search_arg)
    : option (list Z) :=
  '(args, (s1, s2), needs) ← index_storage_search_init mailbox_guid hdr (Z.of_nat (length mails)) args;
  let ahead := filter (fun m => (s1 <=? m_seq m) && (m_seq m <=? s2) = true) mails in
  search_messages env (S (length ahead)) needs (SearchState args ahead []).
