(* ===== verification/IndexSearchProps.v ===== *)
(** * Searching an index: the meaning of the conditions

    The value of a leaf for a message, from the match functions of
    index-search.c; in a set, * is the last message.  It satisfies what the
    simplification relies on, and the callbacks decide it. *)

From S2P Require Import Prelude SeqRange SeqRangeProps SeqRangeSets Table ImapArg ImapMatch ImapQuote.
From S2P Require Import MailSearch MailSearchSimplify MailSearchEval MailSearchSimplifyProps IndexSearch.

Definition tri_of (o : option Z) : Z := match o with Some r => if r =? 1 then 2 else if r =? 0 then 0 else 1 | None => 1 end.

Definition leaf (m : mail) (v : arg_value) : Z :=
  match a_type v with
  | SEARCH_ALL => 2
  | SEARCH_SEQSET =>
      tri_of (b ← seq_range_exists (a_seqset v) (m_seq m); star ← seq_range_exists (a_seqset v) UINT32_MAX; Some (bool_result (b || (star && m_last m))))
  | SEARCH_UIDSET | SEARCH_FLAGS | SEARCH_KEYWORDS | SEARCH_MODSEQ => tri_of (search_arg_match_index m v)
  | SEARCH_MAILBOX | SEARCH_MAILBOX_GLOB => tri_of (search_arg_match_mailbox m v)
  | SEARCH_MAILBOX_GUID => tri_of (guid ← m_mailbox_guid m; s ← a_str v; Some (bool_result (bool_decide (guid = s))))
  | SEARCH_BEFORE | SEARCH_ON | SEARCH_SINCE | SEARCH_SMALLER | SEARCH_LARGER | SEARCH_GUID | SEARCH_REAL_UID => tri_of (search_arg_match_cached m v)
  | SEARCH_HEADER | SEARCH_HEADER_ADDRESS | SEARCH_HEADER_COMPRESS_LWSP | SEARCH_BODY | SEARCH_TEXT =>
      Z.max 0 (Z.min 2 (m_text m (a_type v) (a_hdr_field_name v) (a_str v) (a_fuzzy v)))
  | SEARCH_SUB | SEARCH_OR | SEARCH_INTHREAD => 1
  end.

(** ** Flags *)

Lemma recent_bit i : 0 <= i -> Z.testbit MAIL_RECENT i = (i =? 5).
Proof. intros Hi. change MAIL_RECENT with (2 ^ 5). rewrite Z.pow2_bits_eqb by lia. apply Z.eqb_sym. Qed.

(** A condition sees the same flags whatever other flags it asks for. *)
Lemma match_flags_asked m f : Z.land (match_flags m f) f = Z.land (match_flags m MAIL_RECENT) f.
Proof.
  assert (Hc : negb (Z.land f MAIL_RECENT =? 0) = Z.testbit f 5).
  { destruct (Z.testbit f 5) eqn:E.
    - destruct (Z.eqb_spec (Z.land f MAIL_RECENT) 0) as [H |]; [| done]. apply (f_equal (fun x => Z.testbit x 5)) in H.
      by rewrite Z.land_spec, E, recent_bit in H.
    - destruct (Z.eqb_spec (Z.land f MAIL_RECENT) 0) as [| H]; [done |]. exfalso. apply H. apply Z.bits_inj'. intros i Hi.
      rewrite Z.land_spec, recent_bit, Z.bits_0 by done. destruct (Z.eqb_spec i 5) as [-> |]; [by rewrite E | by rewrite andb_false_r]. }
  unfold match_flags. rewrite Hc. change (negb (Z.land MAIL_RECENT MAIL_RECENT =? 0)) with true. cbn [andb].
  set (F := Z.ldiff (m_flags m) MAIL_RECENT).
  assert (Hb : forall i, 0 <= i -> Z.testbit f i = true ->
            Z.testbit (if Z.testbit f 5 && m_recent m then Z.lor F MAIL_RECENT else F) i = Z.testbit (if m_recent m then Z.lor F MAIL_RECENT else F) i).
  { intros i Hi Hf. destruct (m_recent m); [| by rewrite andb_false_r]. rewrite andb_true_r. destruct (Z.testbit f 5) eqn:E; [done |].
    rewrite Z.lor_spec, recent_bit by done. destruct (Z.eqb_spec i 5) as [-> |]; [congruence | by rewrite orb_false_r]. }
  apply Z.bits_inj'. intros i Hi. rewrite !Z.land_spec. destruct (Z.testbit f i) eqn:Hf; [| by rewrite !andb_false_r]. rewrite !andb_true_r.
  destruct (m_pvt m) as [[mask [pf|]]|]; rewrite ?Z.lor_spec, ?Z.ldiff_spec, ?Hb by done; done.
Qed.

Lemma land_lor_both g f1 f2 : (Z.land g (Z.lor f1 f2) =? Z.lor f1 f2) = (Z.land g f1 =? f1) && (Z.land g f2 =? f2).
Proof.
  assert (Hs : forall f, Z.land g f = f <-> forall i, 0 <= i -> Z.testbit f i = true -> Z.testbit g i = true).
  { intros f. split.
    - intros H i Hi Hf. rewrite <- H, Z.land_spec in Hf. by apply andb_true_iff in Hf as [? _].
    - intros H. apply Z.bits_inj'. intros i Hi. rewrite Z.land_spec. destruct (Z.testbit f i) eqn:E; [by rewrite H | by rewrite andb_false_r]. }
  apply eq_true_iff_eq. rewrite andb_true_iff, !Z.eqb_eq, !Hs. split.
  - intros H. split; intros i Hi Hf; apply H; [done | by rewrite Z.lor_spec, Hf | done | by rewrite Z.lor_spec, Hf, orb_true_r].
  - intros [H1 H2] i Hi Hf. rewrite Z.lor_spec in Hf. apply orb_true_iff in Hf as [? | ?]; auto.
Qed.

Lemma tri_of_bool b : tri_of (Some (bool_result b)) = if b then 2 else 0.
Proof. by destruct b. Qed.

Lemma tri_of_range o : tri (tri_of o).
Proof. unfold tri, tri_of. destruct o as [r|]; [destruct (r =? 1), (r =? 0) |]; lia. Qed.

#[export] Instance leaf_spec : LeafSpec leaf.
Proof.
  split.
  - intros m v. unfold leaf. destruct (a_type v); try apply tri_of_range; unfold tri; lia.
  - done.
  - done.
  - intros m v1 v2 H1 H2. unfold leaf. cbn [a_type put_flags]. rewrite H1, H2. unfold search_arg_match_index. cbn [a_type a_flags put_flags].
    rewrite H1, H2, !tri_of_bool, !match_flags_asked, land_lor_both. by destruct (_ =? a_flags v1), (_ =? a_flags v2).
  - intros m v1 v2 Hs Ht He. unfold leaf, search_arg_match_index. rewrite Ht, He. by destruct (a_type v1).
  - intros m v1 v2 Ht Hm. injection Hm as Hty Hsf Hd Hn Hfz. unfold leaf, search_arg_match_cached, match_date. cbn [a_type a_time a_date_type a_search_flags put_time].
    rewrite <- Hty, <- Hsf, <- Hd. by destruct (a_type v1).
  - intros m v1 v2 Hs Ht. unfold leaf, search_arg_match_cached. cbn [a_type a_size put_size]. rewrite <- Ht. by destruct (a_type v1).
  - intros m v1 v2 Ht Hm. injection Hm as Hty Hsf Hn Hfz Hh Hst. unfold leaf. rewrite <- Hty, <- Hh, <- Hst, <- Hfz. by destruct (a_type v1).
  - intros m v t1 t2 Ht Hle. unfold leaf, search_arg_match_cached. cbn [a_type a_time put_time]. rewrite Ht.
    change (match_date m (put_time ?t v)) with (match_date m v). destruct (match_date m v); [| done]. rewrite !tri_of_bool. zcases.
  - intros m v t1 t2 Ht Hle. unfold leaf, search_arg_match_cached. cbn [a_type a_time put_time]. rewrite Ht.
    change (match_date m (put_time ?t v)) with (match_date m v). destruct (match_date m v); [| done]. rewrite !tri_of_bool. zcases.
  - intros m v t1 t2 Ht Hle. unfold leaf, search_arg_match_cached. cbn [a_type a_size put_size]. rewrite Ht.
    destruct (m_virtual_size m); [| done]. rewrite !tri_of_bool. zcases.
  - intros m v t1 t2 Ht Hle. unfold leaf, search_arg_match_cached. cbn [a_type a_size put_size]. rewrite Ht.
    destruct (m_virtual_size m); [| done]. rewrite !tri_of_bool. zcases.
Qed.
