(* ===== verification/IndexSearchPasses.v ===== *)
(** * Searching an index: the passes decide the conditions

    The callbacks of index-search.c, tried one after the other, give a message
    the value of the search arguments. *)

From S2P Require Import Prelude SeqRange SeqRangeProps SeqRangeSets ImapArg ImapMatch ImapMatchProps ImapQuote.
From S2P Require Import MailSearch MailSearchResults MailSearchEval MailSearchSimplifyProps IndexSearch IndexSearchProps.

(** Headers and bodies: the result of reading the message. *)
Definition search_text_arg (m : mail) (v : arg_value) : option arg_value :=
  Some (if is_text (a_type v) then put_result (code (neg (a_match_not v) (leaf m v))) v else v).

(** The members that the condition of a leaf needs. *)
Definition set_ok (s : list seq_range) (x : Z) : Prop := wf s /\ len_ok s /\ 0 <= x.

Definition leaf_ok (m : mail) (v : arg_value) : Prop :=
  match a_type v with
  | SEARCH_SEQSET => set_ok (a_seqset v) (m_seq m) /\ mem UINT32_MAX (a_seqset v) = false
  | SEARCH_UIDSET | SEARCH_INTHREAD => set_ok (a_seqset v) (m_uid m)
  | SEARCH_REAL_UID => forall uid, m_real_uid m = Some uid -> set_ok (a_seqset v) uid
  | SEARCH_KEYWORDS => is_Some (a_keywords v)
  | SEARCH_MODSEQ => is_Some (a_modseq v)
  | SEARCH_MAILBOX | SEARCH_GUID | SEARCH_MAILBOX_GUID => is_Some (a_str v)
  | SEARCH_MAILBOX_GLOB => is_Some (a_str v) /\ cstr (m_vname m) /\ forall name, m_mailbox_name m = Some name -> cstr name
  | _ => True
  end.

Section Passes.
Variable thread : Z -> mail -> list mail.
Variable m : mail.
Notation eval a := (eval leaf thread a m).

(** An argument when the search starts: what [search_init_arg] has marked,
    and what [search_build_inthreads] has found for INTHREADs. *)
Inductive prepared : mail_search_arg -> Prop :=
  | prepared_group v subs :
      is_group v = true -> a_match_always v = false -> a_nonmatch_always v = false -> subs <> [] -> Forall prepared subs -> prepared (Arg v subs)
  | prepared_leaf v subs :
      is_group v = false -> leaf_ok m v ->
      (a_match_always v = true -> eval (Arg v subs) = 2) ->
      (a_match_always v = false -> a_nonmatch_always v = true -> eval (Arg v subs) = 0) ->
      (a_type v = SEARCH_ALL \/ a_type v = SEARCH_MAILBOX_GUID ->
       a_match_always v = true \/ a_nonmatch_always v = true \/ eval (Arg v subs) = 1) ->
      (a_type v = SEARCH_INTHREAD -> eval (Arg v subs) = neg (a_match_not v) (if mem (m_uid m) (a_seqset v) then 2 else 0) /\ forallb results_ok subs = true) ->
      prepared (Arg v subs).

Lemma seq_range_exists_ok s x : set_ok s x -> seq_range_exists s x = Some (mem x s).
Proof. intros (? & ? & ?). by apply seq_range_exists_spec. Qed.

(** The result that a match function stands for. *)
Lemma set_match_spec v subs ret :
  a_result v = -1 -> (ret = -1 \/ ret = 0 \/ ret = 1) ->
  (ret <> -1 -> eval (Arg v subs) = neg (a_match_not v) (tri_of (Some ret))) ->
  exists r, set_match (Some ret) v = Some (put_result r v) /\ (r <> -1 -> r = code (eval (Arg v subs))) /\ (ret <> -1 -> r <> -1).
Proof.
  intros Hv Hret He. unfold set_match. cbn [mbind option_bind]. destruct (Z.eqb_spec ret (-1)) as [-> | Hne].
  - exists (-1). by rewrite put_result_same.
  - unfold ARG_SET_RESULT. destruct Hret as [? | [-> | ->]]; [done | |]; cbn [Z.eqb Pos.eqb]; eexists; (split; [reflexivity |]); rewrite He by done;
      by destruct (a_match_not v).
Qed.

Lemma bool_result_cases b : bool_result b = -1 \/ bool_result b = 0 \/ bool_result b = 1.
Proof. destruct b; auto. Qed.

Lemma bool_result_known b : bool_result b <> -1.
Proof. by destruct b. Qed.

(** What a callback does at an open leaf: it leaves it open or gives it its
    value; [mine] are the leaves with a value that it decides. *)
Definition decides (mine : arg_value -> bool) (cb : arg_value -> option arg_value) : Prop :=
  forall v subs, prepared (Arg v subs) -> is_group v = false -> a_result v = -1 ->
    exists r, cb v = Some (put_result r v) /\ (r <> -1 -> r = code (eval (Arg v subs))) /\ (mine v = true -> r = -1 -> eval (Arg v subs) = 1).

Lemma eval_leaf v subs : is_group v = false -> a_type v <> SEARCH_INTHREAD -> eval (Arg v subs) = neg (a_match_not v) (leaf m v).
Proof. intros Hg Hi. cbn [MailSearchEval.eval]. unfold is_group, is_type in Hg. by destruct (a_type v). Qed.

Lemma neg_one b : neg b 1 = 1.
Proof. by destruct b. Qed.

Lemma skip_spec v subs : a_result v = -1 -> exists r, Some v = Some (put_result r v) /\ (r <> -1 -> r = code (eval (Arg v subs))) /\ (false = true -> r = -1 -> eval (Arg v subs) = 1).
Proof. intros Hv. exists (-1). by rewrite put_result_same. Qed.

(** The callbacks that set the result of a match function. *)
Lemma match_decides mine (f : arg_value -> option Z) :
  (forall v subs, prepared (Arg v subs) -> is_group v = false ->
     exists ret, f v = Some ret /\ (ret = -1 \/ ret = 0 \/ ret = 1) /\
       (ret <> -1 -> eval (Arg v subs) = neg (a_match_not v) (tri_of (Some ret))) /\ (mine v = true -> ret = -1 -> eval (Arg v subs) = 1)) ->
  decides mine (fun v => set_match (f v) v).
Proof.
  intros Hf v subs Hp Hg Hv. destruct (Hf v subs Hp Hg) as (ret & -> & Hr & He & Hm).
  destruct (set_match_spec v subs ret Hv Hr He) as (r & Hs & Hc & Hn). exists r. split_and!; [done | done |]. intros Hmv ->. apply Hm; [done |].
  destruct (decide (ret = -1)) as [| Hne]; [done | by specialize (Hn Hne)].
Qed.

(** A leaf whose value is that of the match function. *)
Lemma ret_spec v subs ret (mine : bool) :
  is_group v = false -> a_type v <> SEARCH_INTHREAD -> (ret = -1 \/ ret = 0 \/ ret = 1) -> leaf m v = tri_of (Some ret) ->
  exists r, Some ret = Some r /\ (r = -1 \/ r = 0 \/ r = 1) /\ (r <> -1 -> eval (Arg v subs) = neg (a_match_not v) (tri_of (Some r))) /\
    (mine = true -> r = -1 -> eval (Arg v subs) = 1).
Proof.
  intros Hg Hi Hr Hl. exists ret. rewrite (eval_leaf v subs Hg Hi), Hl. split_and!; [done | done | done |]. intros _ ->. apply neg_one.
Qed.

Lemma unknown_spec v subs :
  exists r, Some (-1) = Some r /\ (r = -1 \/ r = 0 \/ r = 1) /\ (r <> -1 -> eval (Arg v subs) = neg (a_match_not v) (tri_of (Some r))) /\
    (false = true -> r = -1 -> eval (Arg v subs) = 1).
Proof. exists (-1). split_and!; auto; done. Qed.

Definition seqset_type (v : arg_value) : bool := is_type SEARCH_SEQSET v.
Definition index_type (v : arg_value) : bool :=
  match a_type v with SEARCH_UIDSET | SEARCH_INTHREAD | SEARCH_FLAGS | SEARCH_KEYWORDS | SEARCH_MODSEQ => true | _ => false end.
Definition mailbox_type (v : arg_value) : bool := match a_type v with SEARCH_MAILBOX | SEARCH_MAILBOX_GLOB => true | _ => false end.
Definition cached_type (v : arg_value) : bool :=
  match a_type v with
  | SEARCH_BEFORE | SEARCH_ON | SEARCH_SINCE | SEARCH_SMALLER | SEARCH_LARGER | SEARCH_GUID | SEARCH_REAL_UID => true
  | _ => false
  end.

Lemma seqset_decides : decides seqset_type (search_seqset_arg m).
Proof.
  intros v subs Hp Hg Hv. unfold search_seqset_arg, seqset_type. destruct (is_type SEARCH_SEQSET v) eqn:E; [| by apply skip_spec].
  inversion Hp as [| ? ? _ Hok _ _ _ _]; subst; [congruence |]. apply is_type_true in E. unfold leaf_ok in Hok. rewrite E in Hok.
  destruct Hok as [Hok Hstar]. assert (Hmax : set_ok (a_seqset v) UINT32_MAX) by (destruct Hok as (? & ? & _); by split_and!).
  assert (He : eval (Arg v subs) = neg (a_match_not v) (if mem (m_seq m) (a_seqset v) then 2 else 0)).
  { rewrite eval_leaf by (done || congruence). unfold leaf. rewrite E, !seq_range_exists_ok by done. cbn [mbind option_bind]. rewrite Hstar, orb_false_r.
    by destruct (mem (m_seq m) (a_seqset v)). }
  rewrite seq_range_exists_ok by done. cbn [mbind option_bind]. unfold ARG_SET_RESULT. eexists. split_and!; [reflexivity | |]; rewrite He;
    by destruct (a_match_not v), (mem (m_seq m) (a_seqset v)).
Qed.

Lemma index_decides : decides index_type (search_index_arg m).
Proof.
  apply (match_decides index_type (search_arg_match_index m)). intros v subs Hp Hg. inversion Hp as [| ? ? _ Hok _ _ _ Hi]; subst; [congruence |].
  unfold index_type. unfold leaf_ok in Hok. destruct (a_type v) eqn:E; try (unfold search_arg_match_index; rewrite E; apply unknown_spec).
  - unfold search_arg_match_index. rewrite E, seq_range_exists_ok by done. cbn [mbind option_bind]. apply ret_spec; [done | congruence | apply bool_result_cases |].
    unfold leaf, search_arg_match_index. by rewrite E, seq_range_exists_ok.
  - unfold search_arg_match_index. rewrite E. apply ret_spec; [done | congruence | apply bool_result_cases |].
    unfold leaf, search_arg_match_index. by rewrite E.
  - unfold search_arg_match_index. rewrite E. destruct Hok as [kws Hk]. rewrite Hk. cbn [mbind option_bind].
    apply ret_spec; [done | congruence | apply bool_result_cases |]. unfold leaf, search_arg_match_index. by rewrite E, Hk.
  - unfold search_arg_match_index. rewrite E. destruct Hok as [q Hq]. rewrite Hq. cbn [mbind option_bind].
    apply ret_spec; [done | congruence | apply bool_result_cases |]. unfold leaf, search_arg_match_index. by rewrite E, Hq.
  - unfold search_arg_match_index. rewrite E, seq_range_exists_ok by done. cbn [mbind option_bind].
    exists (bool_result (mem (m_uid m) (a_seqset v))). rewrite (proj1 (Hi eq_refl)), tri_of_bool. split_and!; [done | apply bool_result_cases | done |].
    intros _ H. by apply bool_result_known in H.
Qed.

Lemma mailbox_decides : decides mailbox_type (search_mailbox_arg m).
Proof.
  apply (match_decides mailbox_type (search_arg_match_mailbox m)). intros v subs Hp Hg. inversion Hp as [| ? ? _ Hok _ _ _ _]; subst; [congruence |].
  unfold mailbox_type. unfold leaf_ok in Hok. destruct (a_type v) eqn:E; try (unfold search_arg_match_mailbox; rewrite E; apply unknown_spec).
  - assert (Hx : exists ret, search_arg_match_mailbox m v = Some ret /\ (ret = -1 \/ ret = 0 \/ ret = 1)).
    { unfold search_arg_match_mailbox. rewrite E. destruct Hok as [s ->]. cbn [mbind option_bind]. destruct (bool_decide (m_vname m = s)); [eauto |].
      destruct (m_mailbox_name m); [| eauto]. eexists. split; [done | apply bool_result_cases]. }
    destruct Hx as (ret & Hx & Hr). rewrite Hx. apply ret_spec; [done | congruence | done |]. unfold leaf. by rewrite E, Hx.
  - assert (Hx : exists ret, search_arg_match_mailbox m v = Some ret /\ (ret = -1 \/ ret = 0 \/ ret = 1)).
    { unfold search_arg_match_mailbox. rewrite E. destruct Hok as ([s ->] & Hv & Hn). cbn [mbind option_bind]. unfold imap_match_init.
      destruct (imap_match_spec [s] true (m_sep m) (m_vname m) Hv) as (glob & r & Hg1 & Hr & _). rewrite Hg1. cbn [mbind option_bind].
      rewrite Hr. cbn [mbind option_bind]. destruct (r =? IMAP_MATCH_YES); [eauto |]. destruct (m_mailbox_name m) as [name|]; [| eauto].
      destruct (imap_match_spec [s] true (m_sep m) name (Hn name eq_refl)) as (glob' & r' & Hg' & Hr' & _). rewrite Hg1 in Hg'. injection Hg' as <-.
      rewrite Hr'. cbn [mbind option_bind]. eexists. split; [done | apply bool_result_cases]. }
    destruct Hx as (ret & Hx & Hr). rewrite Hx. apply ret_spec; [done | congruence | done |]. unfold leaf. by rewrite E, Hx.
Qed.

Lemma cached_spec v subs :
  prepared (Arg v subs) -> is_group v = false ->
  exists ret, search_arg_match_cached m v = Some ret /\ (ret = -1 \/ ret = 0 \/ ret = 1) /\
    (ret <> -1 -> eval (Arg v subs) = neg (a_match_not v) (tri_of (Some ret))) /\ (cached_type v = true -> ret = -1 -> eval (Arg v subs) = 1).
Proof.
  intros Hp Hg. inversion Hp as [| ? ? _ Hok _ _ _ _]; subst; [congruence |].
  unfold cached_type. unfold leaf_ok in Hok. destruct (a_type v) eqn:E; try (unfold search_arg_match_cached; rewrite E; apply unknown_spec).
  all: (assert (Hx : exists ret, search_arg_match_cached m v = Some ret /\ (ret = -1 \/ ret = 0 \/ ret = 1));
    [| destruct Hx as (ret & Hx & Hr); rewrite Hx; apply ret_spec; [done | congruence | done |]; unfold leaf; by rewrite E, Hx]).
  all: unfold search_arg_match_cached; rewrite E.
  1, 2, 3: (destruct (match_date m v); eauto using bool_result_cases).
  1, 2: (destruct (m_virtual_size m); eauto using bool_result_cases).
  - destruct (m_guid m); [| eauto]. destruct Hok as [s ->]. cbn [mbind option_bind]. eauto using bool_result_cases.
  - destruct (m_real_uid m) as [uid|]; [| eauto]. rewrite (seq_range_exists_ok _ uid) by (by apply Hok). cbn [mbind option_bind]. eauto using bool_result_cases.
Qed.

Lemma cached_decides : decides cached_type (search_cached_arg m).
Proof. apply (match_decides cached_type (search_arg_match_cached m)). apply cached_spec. Qed.

Lemma text_decides : decides (fun v => is_text (a_type v)) (search_text_arg m).
Proof.
  intros v subs Hp Hg Hv. unfold search_text_arg. destruct (is_text (a_type v)) eqn:E; [| by apply skip_spec].
  rewrite (eval_leaf v subs Hg) by (intros H; by rewrite H in E). eexists. split_and!; [reflexivity | done |]. intros _ Hc.
  pose proof (neg_tri (a_match_not v) _ (leaf_range (leaf := leaf) m v)) as Ht. revert Hc. unfold tri, code in *. zcases.
Qed.

(** Lookups that may be aborted return what they return otherwise, or fail. *)
Record lesser (m' : mail) : Prop := {
  lesser_date : m_date m' = m_date m \/ m_date m' = None;
  lesser_received : m_received_date m' = m_received_date m \/ m_received_date m' = None;
  lesser_saved : m_save_date m' = m_save_date m \/ m_save_date m' = None;
  lesser_offset : m_utc_offset m' = m_utc_offset m;
  lesser_size : m_virtual_size m' = m_virtual_size m \/ m_virtual_size m' = None;
  lesser_guid : m_guid m' = m_guid m \/ m_guid m' = None;
  lesser_real_uid : m_real_uid m' = m_real_uid m \/ m_real_uid m' = None;
  lesser_text t h s f : m_text m' t h s f = m_text m t h s f \/ m_text m' t h s f = 1;
}.

Lemma lesser_match_date m' v : lesser m' -> match_date m' v = match_date m v \/ match_date m' v = None.
Proof.
  intros [H1 H2 H3 H4 _ _ _ _]. unfold match_date. rewrite H4.
  repeat match goal with |- context [if ?b then _ else _] => destruct b end;
    repeat match goal with H : _ \/ _ |- _ => destruct H as [-> | ->] end; auto.
Qed.

Lemma lesser_cached m' v : lesser m' -> search_arg_match_cached m' v = search_arg_match_cached m v \/ search_arg_match_cached m' v = Some (-1).
Proof.
  intros Hm. pose proof (lesser_match_date m' v Hm) as Hd. destruct Hm as [_ _ _ _ H5 H6 H7 _]. unfold search_arg_match_cached.
  destruct (a_type v); auto; repeat match goal with H : _ \/ _ |- _ => destruct H as [-> | ->] end; auto.
Qed.

Lemma lesser_cached_decides m' : lesser m' -> decides (fun _ => false) (search_cached_arg m').
Proof.
  intros Hm. apply (match_decides (fun _ => false) (search_arg_match_cached m')). intros v subs Hp Hg.
  destruct (lesser_cached m' v Hm) as [-> | ->]; [| apply unknown_spec]. destruct (cached_spec v subs Hp Hg) as (ret & ? & ? & ? & _). exists ret. by split_and!.
Qed.

Lemma lesser_text_decides m' : lesser m' -> decides (fun _ => false) (search_text_arg m').
Proof.
  intros Hm v subs Hp Hg Hv. unfold search_text_arg. destruct (is_text (a_type v)) eqn:E; [| by apply skip_spec].
  assert (Hl : leaf m' v = leaf m v \/ leaf m' v = 1).
  { unfold leaf. destruct (a_type v); try discriminate E; match goal with |- context [m_text m' ?t ?h ?s ?f] => destruct (lesser_text _ Hm t h s f) as [-> | ->] end; auto. }
  rewrite (eval_leaf v subs Hg) by (intros H; by rewrite H in E). eexists. split_and!; [reflexivity | | done].
  destruct Hl as [-> | ->]; [done |]. rewrite neg_one. done.
Qed.

(** ** The start of a search for a message *)

Lemma reset_false v :
  reset_value false v = put_result (if a_match_always v then 1 else if a_nonmatch_always v then 0 else -1) v.
Proof. unfold reset_value. by destruct (a_match_always v), (a_nonmatch_always v). Qed.

Lemma eval_reset a : eval (reset_arg false a) = eval a.
Proof.
  induction a as [v subs IH]. cbn [reset_arg]. rewrite reset_false, (eval_put_result leaf thread leaf_res).
  destruct (is_type SEARCH_OR v || is_type SEARCH_SUB v) eqn:E; [| done].
  assert (Hm : map (fun s => eval s) (map (reset_arg false) subs) = map (fun s => eval s) subs).
  { rewrite map_map. induction IH as [|s subs Hs _ IHs]; [done |]. cbn. by rewrite Hs, IHs. }
  cbn [MailSearchEval.eval]. unfold is_type in E. by destruct (a_type v); rewrite ?Hm.
Qed.

Lemma reset_sound a : prepared a -> sound leaf thread m (reset_arg false a).
Proof.
  induction a as [v subs IH]. intros Hp. pose proof (eval_reset (Arg v subs)) as He. cbn [reset_arg] in *. rewrite reset_false in *. rewrite orb_comm in *. fold (is_group v) in *.
  inversion Hp as [? ? Hg H1 H2 Hne Hs | ? ? Hg Hok H1 H2 H3 H4]; subst; rewrite Hg in *.
  - constructor; [cbn [a_result put_result]; by rewrite H1, H2 |]. intros _. split; [by destruct subs |]. apply Forall_map.
    clear -IH Hs. induction IH; inversion Hs; subst; constructor; auto.
  - constructor; [| change (is_group (put_result _ v)) with (is_group v); by rewrite Hg]. rewrite He. cbn [a_result put_result].
    destruct (a_match_always v); [by rewrite H1 |]. destruct (a_nonmatch_always v); [by rewrite H2 | done].
Qed.

(** The leaves at the start. *)
Definition started (l : mail_search_arg) : Prop :=
  prepared l /\ is_group (value l) = false /\ (open l = true -> a_match_always (value l) = false /\ a_nonmatch_always (value l) = false).

Lemma reset_leaves a : prepared a -> Forall started (leaves (reset_arg false a)).
Proof.
  induction a as [v subs IH]. intros Hp. cbn [reset_arg leaves]. rewrite reset_false, orb_comm. fold (is_group v).
  change (is_group (put_result _ v)) with (is_group v).
  inversion Hp as [? ? Hg H1 H2 Hne Hs | ? ? Hg Hok H1 H2 H3 H4]; subst; rewrite Hg.
  - clear -IH Hs. induction IH as [|s subs Hx _ IHs]; [constructor |]. inversion Hs; subst. cbn. apply Forall_app. split; auto.
  - constructor; [| constructor]. split_and!; cbn [value]; [| done |].
    + apply prepared_leaf; cbn [a_match_always a_nonmatch_always a_type a_match_not a_seqset put_result];
        rewrite ?(eval_put_result leaf thread leaf_res); done.
    + unfold open, result. cbn. by destruct (a_match_always v), (a_nonmatch_always v).
Qed.

Lemma started_callback mine cb l : decides mine cb -> started l -> callback_ok leaf thread m cb l.
Proof.
  intros Hd (Hp & Hg & _) Ho. destruct l as [v subs]. cbn [value] in *. apply Z.eqb_eq in Ho.
  destruct (Hd v subs Hp Hg Ho) as (r & -> & Hr & _). eauto.
Qed.

Lemma decides_changes mine cb v subs :
  decides mine cb -> prepared (Arg v subs) -> is_group v = false -> a_result v = -1 -> mine v = true ->
  eval (Arg v subs) = 1 \/ cb v <> Some v.
Proof.
  intros Hd Hp Hg Hv Hm. destruct (Hd v subs Hp Hg Hv) as (r & -> & _ & H1). destruct (decide (r = -1)) as [Hr | Hr]; [left; auto | right].
  intros [= H]. apply Hr. rewrite <- Hv, <- H. done.
Qed.

(** The callbacks that are run include the one for a leaf. *)
Record covers (cbs : list (arg_value -> option arg_value)) (v : arg_value) : Prop := {
  covers_seqset : seqset_type v = true -> search_seqset_arg m ∈ cbs;
  covers_index : index_type v = true -> search_index_arg m ∈ cbs;
  covers_mailbox : mailbox_type v = true -> search_mailbox_arg m ∈ cbs;
  covers_cached : search_cached_arg m ∈ cbs;
  covers_text : search_text_arg m ∈ cbs;
}.

Lemma started_decided cbs l : covers cbs (value l) -> started l -> decided leaf thread m (rev cbs) l.
Proof.
  intros Hcov (Hp & Hg & Hf) Ho. destruct (Hf Ho) as [F1 F2]. destruct l as [v subs]. cbn [value] in *. apply Z.eqb_eq in Ho. unfold result in Ho. cbn in Ho.
  cut (eval (Arg v subs) = 1 \/ exists cb, cb ∈ cbs /\ cb v <> Some v).
  { intros [? | (cb & Hin & Hcb)]; [by left | right]. apply Exists_exists. exists cb. split; [by apply list_elem_of_In, (proj1 (in_rev _ _)), list_elem_of_In | done]. }
  assert (Hby : forall mine cb, decides mine cb -> mine v = true -> cb ∈ cbs ->
            eval (Arg v subs) = 1 \/ exists cb, cb ∈ cbs /\ cb v <> Some v).
  { intros mine cb Hd Hm Hin. destruct (decides_changes mine cb v subs Hd Hp Hg Ho Hm); eauto. }
  inversion Hp as [| ? ? _ _ _ _ H3 _]; subst; [congruence |]. destruct Hcov as [C1 C2 C3 C4 C5].
  pose proof (Hby _ _ seqset_decides) as B1. pose proof (Hby _ _ index_decides) as B2. pose proof (Hby _ _ mailbox_decides) as B3.
  pose proof (Hby _ _ cached_decides) as B4. pose proof (Hby _ _ text_decides) as B5. cbn beta in B5.
  unfold seqset_type, index_type, mailbox_type, cached_type, is_group, is_type in *.
  destruct (a_type v) eqn:E; try discriminate Hg;
    first [ solve [destruct H3 as [? | [? | ?]]; [auto | congruence | congruence | by left]]
          | solve [apply B1; [done | by apply C1]] | solve [apply B2; [done | by apply C2]] | solve [apply B3; [done | by apply C3]]
          | solve [by apply B4] | solve [by apply B5] ].
Qed.

(** The passes over the arguments give the value that they have for [m]. *)
Lemma search_spec cbs args :
  Forall prepared args -> cbs <> [] -> Forall (fun cb => exists mine, decides mine cb) cbs -> Forall (fun l => covers cbs (value l)) (flat_map leaves args) ->
  exists args', search_passes cbs (mail_search_args_reset args false) = Some (code (eval_list leaf thread true args m), args').
Proof.
  intros Hp Hne Hcb Hcov. destruct args as [|a0 rest]; [destruct cbs; [done | by exists []] |]. set (args := a0 :: rest) in *. unfold mail_search_args_reset.
  assert (Hl : Forall (fun l => started l /\ covers cbs (value l)) (leaves (Arg top (map (reset_arg false) args)))).
  { cbn [leaves]. change (is_group top) with true. cbn [orb]. clear -Hp Hcov. induction Hp as [|a l Ha _ IH]; cbn in *; [constructor |].
    apply Forall_app in Hcov as [H1 H2]. apply Forall_app. split; [| by apply IH]. clear -Ha H1.
    pose proof (reset_leaves a Ha) as Hr. clear Ha. induction a as [v subs IH]. cbn [leaves reset_arg] in *. rewrite reset_false in *. rewrite orb_comm in *. fold (is_group v) in *.
    change (is_group (put_result _ v)) with (is_group v) in *. destruct (is_group v).
    - induction IH as [|s subs Hs _ IHs]; cbn in *; [constructor |]. apply Forall_app in H1 as [? ?], Hr as [? ?]. apply Forall_app. split; auto.
    - inversion H1 as [| ? ? Hc _]; inversion Hr; subst. constructor; [| constructor]. split; [done |]. destruct Hc. by split. }
  destruct (search_passes_spec leaf thread leaf_range leaf_res m cbs [] (map (reset_arg false) args)) as (args' & Hs).
  - done.
  - constructor; [done |]. intros _. split; [done |]. apply Forall_map. eapply Forall_impl; [exact Hp |]. apply reset_sound.
  - apply pending_nil.
  - by rewrite app_nil_r.
  - eapply Forall_impl; [exact Hcb |]. intros cb [mine Hd]. eapply Forall_impl; [exact Hl |]. intros l [? _]. by eapply started_callback.
  - rewrite app_nil_r. eapply Forall_impl; [exact Hl |]. intros l [? ?]. by apply started_decided.
  - exists args'. rewrite Hs. do 3 f_equal. cbn [MailSearchEval.eval]. unfold eval_list. cbn [neg top a_match_not a_type put_result zero_value].
    f_equal. rewrite map_map. apply map_ext. intros a. apply eval_reset.
Qed.

End Passes.
