(* ===== verification/MailSearchLaws.v ===== *)
(** * Laws of the operations on search arguments

    Copies, and what it means that no argument matches the name of a mailbox;
    with the values that index-search.c gives to conditions. *)

From S2P Require Import Prelude SeqRange ImapArg ImapMatch ImapMatchProps MailSearch MailSearchResults MailSearchSimplify MailSearchEval MailSearchSimplifyProps.
From S2P Require Import MailSearchSimplifyCorrect IndexSearch IndexSearchProps IndexSearchPasses.

(** ** Copies

    A copy has no keywords until it is initialised, and loses [fuzzy] and what
    belongs to a MODSEQ besides its number. *)
Definition copied_value (v : arg_value) : bool :=
  match a_type v with
  | SEARCH_KEYWORDS => false
  | SEARCH_HEADER | SEARCH_HEADER_ADDRESS | SEARCH_HEADER_COMPRESS_LWSP => negb (a_fuzzy v)
  | SEARCH_BODY | SEARCH_TEXT => negb (a_fuzzy v) && bool_decide (a_hdr_field_name v = None)
  | SEARCH_MODSEQ => bool_decide (is_Some (a_modseq v)) && (a_flags v =? 0) && bool_decide (a_keywords v = None)
  | _ => true
  end.

Fixpoint copied (a : mail_search_arg) : bool :=
  let '(Arg v subs) := a in if has_subargs v then forallb copied subs else copied_value v.

Lemma dup_value_spec v :
  copied_value v = true ->
  exists v', dup_value v = Some v' /\ a_type v' = a_type v /\ a_match_not v' = a_match_not v /\
    (a_type v = SEARCH_INTHREAD -> a_thread_type v' = a_thread_type v) /\ forall m, leaf m v' = leaf m v.
Proof.
  unfold copied_value, dup_value, leaf, search_arg_match_index, search_arg_match_cached, match_date, search_arg_match_mailbox.
  destruct v; cbn. destruct a_type; cbn; intros H; try discriminate H; try (eexists; split_and!; (reflexivity || done));
    try (apply negb_true_iff in H; subst; eexists; split_and!; (reflexivity || done));
    try (apply andb_true_iff in H as [H ->%bool_decide_eq_true]; apply negb_true_iff in H; subst; eexists; split_and!; (reflexivity || done)).
  apply andb_true_iff in H as [H Hk]. apply andb_true_iff in H as [Hm Hf]. apply bool_decide_eq_true in Hm as [q ->], Hk as ->. apply Z.eqb_eq in Hf as ->.
  eexists; split_and!; (reflexivity || done).
Qed.

(** A copy of search arguments, without keywords that need a mailbox,
    fuzzy texts and MODSEQs of a flag or keyword, has the value of the
    original for every message. *)
Lemma mail_search_arg_dup_spec thread l :
  forallb copied l = true -> exists l', mail_search_arg_dup l = Some l' /\ length l' = length l /\ forall m, eval_list leaf thread true l' m = eval_list leaf thread true l m.
Proof.
  intros H. assert (Hx : exists l', mail_search_arg_dup l = Some l' /\ length l' = length l /\ forall m, map (fun a => eval leaf thread a m) l' = map (fun a => eval leaf thread a m) l);
    [| destruct Hx as (l' & ? & ? & Hx); exists l'; split_and!; [done | done |]; intros m; unfold eval_list; by rewrite Hx].
  assert (Hl : forall l, forallb copied l = true -> Forall (fun a => copied a = true -> exists a', mail_search_arg_dup_one a = Some a' /\ forall m, eval leaf thread a' m = eval leaf thread a m) l ->
            exists l', mapM mail_search_arg_dup_one l = Some l' /\ length l' = length l /\ forall m, map (fun a => eval leaf thread a m) l' = map (fun a => eval leaf thread a m) l).
  { clear. intros l H Hl. induction Hl as [|a l Ha _ IH]; cbn in H; [by exists [] |]. apply andb_true_iff in H as [H1 H2].
    destruct (Ha H1) as (a' & Ha' & He), (IH H2) as (l' & Hl' & Hlen & Hm). exists (a' :: l'). cbn. rewrite Ha', Hl'. cbn. split_and!; [done | by rewrite Hlen |]. intros m. by rewrite He, Hm. }
  apply Hl; [done |]. apply Forall_true. intros a. clear H l. induction a as [v subs IH]. cbn [copied mail_search_arg_dup_one]. destruct (has_subargs v) eqn:Hs.
  - intros H. destruct (Hl subs H IH) as (subs' & Hd & _ & Hm). assert (Hv : copied_value v = true) by (unfold has_subargs, is_type in Hs; unfold copied_value; by destruct (a_type v)).
    destruct (dup_value_spec v Hv) as (v' & -> & Ht & Hn & Hth & _). cbn [mbind option_bind]. rewrite Hd. cbn [mbind option_bind]. eexists. split; [done |]. intros m.
    cbn [eval]. rewrite Ht, Hn. unfold has_subargs, is_type in Hs. destruct (a_type v); try discriminate Hs; rewrite ?Hm; [done | done |]. rewrite Hth by done. f_equal. f_equal.
    apply map_ext. intros m'. by rewrite Hm.
  - intros H. destruct (dup_value_spec v H) as (v' & -> & Ht & Hn & _ & Hlf). cbn [mbind option_bind]. eexists. split; [done |]. intros m.
    cbn [eval]. rewrite Ht, Hn, Hlf. unfold has_subargs, is_type in Hs. by destruct (a_type v).
Qed.

(** ** Mailbox names *)

Section Mailbox.
Variable thread : Z -> mail -> list mail.
Variables (vname : list Z) (sep : Z).

(** The message is in the mailbox, whose name is not INBOX. *)
Definition in_mailbox (m : mail) : Prop := m_vname m = vname /\ m_mailbox_name m = Some vname /\ m_sep m = sep.
Hypothesis not_inbox : strcaseeq vname (str "INBOX") = false.
Hypothesis name_ok : cstr vname.
Hypothesis thread_mailbox : forall t m, in_mailbox m -> Forall in_mailbox (thread t m).

(** No condition on the mailbox, and no empty group. *)
Fixpoint no_mailbox (a : mail_search_arg) : bool :=
  let '(Arg v subs) := a in
  if has_subargs v then negb (length subs =? 0)%nat && forallb no_mailbox subs
  else match a_type v with SEARCH_MAILBOX | SEARCH_MAILBOX_GLOB => false | _ => true end.

(** No negated groups, no conditions on the mailbox in negated threads, and
    names where they are needed. *)
Fixpoint mailbox_args (a : mail_search_arg) : bool :=
  let '(Arg v subs) := a in
  if has_subargs v then
    if a_match_not v then is_type SEARCH_INTHREAD v && forallb no_mailbox subs else forallb mailbox_args subs
  else match a_type v with SEARCH_MAILBOX | SEARCH_MAILBOX_GLOB => bool_decide (is_Some (a_str v)) | _ => true end.

Lemma mailbox_leaf v m b :
  in_mailbox m -> has_subargs v = false -> mail_search_args_match_mailbox_arg vname sep (Arg v []) = Some b -> b = false -> neg (a_match_not v) (leaf m v) = 0.
Proof using not_inbox.
  intros (H1 & H2 & H3) Hs Hb ->. cbn [mail_search_args_match_mailbox_arg] in Hb. unfold leaf, search_arg_match_mailbox. unfold has_subargs, is_type in Hs.
  destruct (a_type v); try discriminate Hs; try discriminate Hb.
  - destruct (a_str v) as [s|]; [| discriminate]. cbn [mbind option_bind] in *. rewrite H1, H2, not_inbox. injection Hb as Hb.
    replace (bool_decide (vname = s)) with (bool_decide (s = vname)) by (apply bool_decide_ext; split; congruence).
    by destruct (bool_decide (s = vname)), (a_match_not v).
  - destruct (a_str v) as [s|]; [| discriminate]. cbn [mbind option_bind] in *. rewrite H1, H2, H3. destruct (imap_match_init s true sep) as [glob|]; [| discriminate].
    cbn [mbind option_bind] in *. destruct (imap_match glob vname) as [r|]; [| discriminate]. cbn [mbind option_bind] in *. injection Hb as Hb.
    by destruct (r =? IMAP_MATCH_YES), (a_match_not v).
Qed.

Lemma mailbox_total v : has_subargs v = false -> mailbox_args (Arg v []) = true -> exists b, mail_search_args_match_mailbox_arg vname sep (Arg v []) = Some b.
Proof using name_ok.
  intros Hs. cbn [mailbox_args mail_search_args_match_mailbox_arg]. rewrite Hs. unfold has_subargs, is_type in Hs.
  destruct (a_type v); try discriminate Hs; try (by eauto); intros [s ->]%bool_decide_eq_true; cbn [mbind option_bind]; [by eauto |].
  unfold imap_match_init. destruct (imap_match_spec [s] true sep vname name_ok) as (glob & r & -> & Hr & _). cbn [mbind option_bind]. rewrite Hr. cbn. eauto.
Qed.

Notation eval := (eval leaf thread).

(** What is returned for an argument. *)
Definition mailbox_sound (a : mail_search_arg) : Prop :=
  exists b, mail_search_args_match_mailbox_arg vname sep a = Some b /\ (b = false -> forall m, in_mailbox m -> eval a m = 0).

Lemma mailbox_all_sound l : Forall mailbox_sound l -> exists b, match_mailbox_loop vname sep l = Some b /\ (b = false -> forall m, in_mailbox m -> conj_all (map (fun a => eval a m) l) = 0).
Proof.
  assert (Ht : forall l m, Forall tri (map (fun a => eval a m) l)) by (intros; apply evals_tri, leaf_range).
  induction 1 as [|a l (b & Hb & Ha) _ (b' & Hb' & IH)]; cbn [match_mailbox_loop]; [exists true; split; [done | discriminate] |]. rewrite Hb. cbn [mbind option_bind].
  destruct b; cbn [negb].
  - exists b'. split; [done |]. intros Hf m Hm. specialize (IH Hf m Hm). pose proof (Ht [a] m) as Ha1. cbn in Ha1. inversion Ha1; subst. unfold conj_all, tri in *. cbn. lia.
  - exists false. split; [done |]. intros _ m Hm. apply conj_all_zero; [apply (Ht (a :: l)) |]. cbn. left. by apply Ha.
Qed.

Lemma disj_zero l : Forall (fun x => x = 0) l -> disj_all l = 0.
Proof. unfold disj_all. induction 1 as [|x l -> _ IH]; [done |]. cbn. lia. Qed.

Lemma match_mailbox_all v subs :
  a_type v = SEARCH_SUB \/ a_type v = SEARCH_INTHREAD -> mail_search_args_match_mailbox_arg vname sep (Arg v subs) = match_mailbox_loop vname sep subs.
Proof.
  intros Ht. cbn [mail_search_args_match_mailbox_arg].
  destruct Ht as [-> | ->]; (induction subs as [|a l IH]; [done |]); cbn [match_mailbox_loop];
    destruct (mail_search_args_match_mailbox_arg vname sep a) as [[]|]; done.
Qed.

(** Nothing is decided without a condition on the mailbox. *)
Lemma no_mailbox_match a : no_mailbox a = true -> mail_search_args_match_mailbox_arg vname sep a = Some true.
Proof.
  induction a as [v subs IH]. cbn [no_mailbox]. intros Hok. destruct (has_subargs v) eqn:Hs.
  2:{ cbn [mail_search_args_match_mailbox_arg]. unfold has_subargs, is_type in Hs. by destruct (a_type v). }
  apply andb_true_iff in Hok as [Hne Hok].
  assert (Hsub : Forall (fun a => mail_search_args_match_mailbox_arg vname sep a = Some true) subs)
    by (clear -IH Hok; induction IH; cbn in Hok; [constructor |]; apply andb_true_iff in Hok as [? ?]; constructor; auto).
  unfold has_subargs, is_type in Hs. destruct (a_type v) eqn:Ht; try discriminate Hs.
  2, 3: rewrite match_mailbox_all by auto; clear -Hsub; induction Hsub as [|a l Ha _ IHl]; [done |]; cbn [match_mailbox_loop]; by rewrite Ha.
  cbn [mail_search_args_match_mailbox_arg]. rewrite Ht. destruct Hsub as [|a l Ha _]; [done |]. by rewrite Ha.
Qed.

Lemma mailbox_arg_sound a : mailbox_args a = true -> mailbox_sound a.
Proof using not_inbox name_ok thread_mailbox.
  induction a as [v subs IH]. intros Hok. destruct (has_subargs v) eqn:Hs.
  - cbn [mailbox_args] in Hok. rewrite Hs in Hok. destruct (a_match_not v) eqn:Hn.
    { apply andb_true_iff in Hok as [Hi%is_type_true Hok]. exists true. split; [| discriminate]. rewrite match_mailbox_all by auto.
      clear -Hok. induction subs as [|a l IHl]; [done |]. cbn in Hok. apply andb_true_iff in Hok as [Ha Hl]. cbn [match_mailbox_loop]. rewrite no_mailbox_match by done. by apply IHl. }
    assert (Hsub : Forall mailbox_sound subs) by (clear -IH Hok; induction IH; cbn in Hok; [constructor |]; apply andb_true_iff in Hok as [? ?]; constructor; auto).
    unfold mailbox_sound. cbn [MailSearchEval.eval]. rewrite Hn. cbn [neg]. destruct (mailbox_all_sound subs Hsub) as (b & Hb & Hall).
    unfold has_subargs, is_type in Hs. destruct (a_type v) eqn:Ht; try discriminate Hs; [| rewrite match_mailbox_all by auto..].
    + cbn [mail_search_args_match_mailbox_arg]. rewrite Ht. clear Hb Hall Hok IH.
      induction Hsub as [|a l (b1 & Hb1 & Ha) _ (b2 & Hb2 & Hl)]; [exists false; split; [done |]; intros _ m _; done |].
      rewrite Hb1. cbn [mbind option_bind]. destruct b1; [exists true; split; [done | discriminate] |].
      exists b2. split; [exact Hb2 |]. intros Hf m Hm. specialize (Ha eq_refl m Hm). specialize (Hl Hf m Hm). unfold disj_all in *. cbn. lia.
    + exists b. split; [exact Hb | exact Hall].
    + exists b. split; [exact Hb |]. intros Hf m Hm. apply disj_zero, Forall_map. eapply Forall_impl; [by apply thread_mailbox |]. intros m' Hm'. by apply Hall.
  - assert (Hd : forall subs', mail_search_args_match_mailbox_arg vname sep (Arg v subs') = mail_search_args_match_mailbox_arg vname sep (Arg v []))
      by (intros; cbn [mail_search_args_match_mailbox_arg]; unfold has_subargs, is_type in Hs; by destruct (a_type v)).
    destruct (mailbox_total v Hs) as [b Hb]; [cbn [mailbox_args] in *; by rewrite Hs in * |]. exists b. split; [by rewrite Hd |]. intros Hf m Hm.
    cbn [MailSearchEval.eval]. pose proof (mailbox_leaf v m b Hm Hs Hb Hf) as Hl. unfold has_subargs, is_type in Hs. by destruct (a_type v).
Qed.

(** C23: a mailbox is skipped only when nothing in it can match:
    the loop of mail_search_args_match_mailbox returns, and when it says that the
    arguments do not match the name of a mailbox other than INBOX, they are
    false for every message in it.  The messages are those that are stored in
    this mailbox and whose threads stay in it.  The arguments have no negated
    groups, as after the simplification, and no conditions on the mailbox
    inside of a negated INTHREAD; there the answer is wrong, as
    match_mailbox_negated_inthread shows. *)
Theorem mail_search_args_match_mailbox_sound l :
  forallb mailbox_args l = true ->
  exists b, match_mailbox_loop vname sep l = Some b /\ (b = false -> forall m, in_mailbox m -> eval_list leaf thread true l m = 0).
Proof using not_inbox name_ok thread_mailbox.
  intros H. apply mailbox_all_sound. apply Forall_forall. intros a Ha. apply mailbox_arg_sound.
  rewrite forallb_forall in H. by apply H, list_elem_of_In.
Qed.
End Mailbox.

(** MAILBOX or MAILBOX_GLOB with a name. *)
Definition name_arg (t : mail_search_arg_type) (name : list Z) (n : bool) : mail_search_arg :=
  Arg (Value t [] (Some name) 0 0 0 0 0 0 None None false None n false false false 0) [].

(** NOT INTHREAD (MAILBOX work) does not match the mailbox home, although it is
    true for every message there. *)
Lemma match_mailbox_negated_inthread m :
  in_mailbox (str "home") 47 m ->
  let query := [Arg (put_not true (zero_value SEARCH_INTHREAD)) [name_arg SEARCH_MAILBOX (str "work") false]] in
  match_mailbox_loop (str "home") 47 query = Some false /\ eval_list leaf (fun _ m => [m]) true query m = 2.
Proof.
  intros (H1 & H2 & _). split; [reflexivity |]. unfold eval_list. cbn [map MailSearchEval.eval put_not zero_value name_arg a_type a_match_not].
  unfold leaf, search_arg_match_mailbox. cbn [zero_value put_not a_type a_str a_match_not a_thread_type mbind option_bind map]. by rewrite H1, H2.
Qed.

(** ** Witnesses *)

(** OR MAILBOX work NOT MAILBOX home, in the mailbox home. *)
Lemma mail_search_args_match_mailbox_sound_witness :
  let query := [Arg (zero_value SEARCH_OR) [name_arg SEARCH_MAILBOX (str "work") false; name_arg SEARCH_MAILBOX (str "home") true]] in
  match_mailbox_loop (str "home") 47 query = Some false /\
  forall m, in_mailbox (str "home") 47 m -> eval_list leaf (fun _ m => [m]) true query m = 0.
Proof.
  intros query. destruct (mail_search_args_match_mailbox_sound (fun _ m => [m]) (str "home") 47) with (l := query) as (b & Hb & Hf); [reflexivity | | | reflexivity |].
  - repeat constructor; discriminate.
  - intros t m Hm. constructor; [exact Hm | constructor].
  - vm_compute in Hb. injection Hb as <-. split; [reflexivity | exact (Hf eq_refl)].
Defined.
