(* ===== verification/IndexSearchRange.v ===== *)
(** * Searching an index: the range of messages

    The range that [search_get_seqset] computes contains every message that
    can match, except where the code draws a wrong conclusion from a negated
    set, a negated MODSEQ or several flags. *)

From S2P Require Import Prelude SeqRange SeqRangeProps SeqRangeSets ImapArg ImapQuote.
From S2P Require Import MailSearch MailSearchSimplify MailSearchEval MailSearchSimplifyProps MailSearchSimplifyLoop MailSearchSimplifyCorrect IndexSearch IndexSearchProps.

(** ** One set *)

(** A set as it comes from the parser: no message 0, and of moderate length. *)
Definition seqset_ok (s : list seq_range) : Prop := wf_from 1 s /\ Z.of_nat (length s) + 4 < INT_MAX.

Lemma wf_from_wf lo s : 0 <= lo -> wf_from lo s -> wf s.
Proof. intros H. by apply wf_from_mono. Qed.

(** The set without nonexistent messages, where * is the last message. *)
Definition fixed (count : Z) (s : list seq_range) (x : Z) : bool := (x <=? count) && (mem x s || (mem UINT32_MAX s && (x =? count))).

Lemma wf_no_zero s : wf s -> mem 0 s = false -> wf_from 1 s.
Proof. unfold wf. destruct s as [|r s]; cbn; [done |]. intros (H1 & H2 & H3) H0. split; [lia | done]. Qed.

Lemma array_set_length {A} (l : list A) i v l' : array_set l i v = Some l' -> length l' = length l.
Proof. unfold array_set. destruct (i <? length l)%nat; intros [= <-]. apply length_insert. Qed.

Lemma array_insert_length {A} (l : list A) i v l' : array_insert l i v = Some l' -> length l' = S (length l).
Proof.
  unfold array_insert. destruct (Nat.leb_spec i (length l)); intros [= <-]. rewrite length_app. cbn. rewrite length_take, length_drop. lia.
Qed.

Lemma array_delete_length {A} (l : list A) i n : (length (array_delete l i n) <= length l)%nat.
Proof. unfold array_delete. rewrite length_app, length_take, length_drop. lia. Qed.

Lemma add_length data seq b d : seq_range_array_add data seq = Some (b, d) -> (length d <= S (length data))%nat.
Proof.
  unfold seq_range_array_add. intros H.
  repeat (case_match; simplify_option_eq);
    repeat match goal with
           | H : array_set _ _ _ = Some _ |- _ => apply array_set_length in H
           | H : array_insert _ _ _ = Some _ |- _ => apply array_insert_length in H
           end; rewrite ?length_app, ?drop_0; cbn [length];
    repeat match goal with |- context [array_delete ?l ?i ?n] => pose proof (array_delete_length l i n); generalize dependent (array_delete l i n); intros end; try lia.
Qed.

Lemma last_mem lo s r : wf_from lo (s ++ [r]) -> forall x, mem x (s ++ [r]) = true -> x <= seq2 r.
Proof.
  intros Hw x Hx. apply wf_from_app in Hw as [Hw Hr]. cbn in Hr. destruct Hr as (H1 & H2 & _). rewrite mem_app in Hx. cbn in Hx.
  apply orb_true_iff in Hx as [Hx | Hx]; [| lia]. pose proof (mem_bounds _ _ x Hw Hx). lia.
Qed.

Lemma max_last lo s r : wf_from lo (s ++ [r]) -> mem UINT32_MAX (s ++ [r]) = (seq2 r =? UINT32_MAX).
Proof.
  intros Hw. pose proof (last_mem lo s r Hw UINT32_MAX) as H. apply wf_from_app in Hw as [Hw Hr]. cbn in Hr. destruct Hr as (H1 & H2 & _).
  destruct (mem UINT32_MAX (s ++ [r])) eqn:E; [specialize (H eq_refl); lia |]. rewrite mem_app in E. cbn in E. lia.
Qed.


(** The first part of [search_msgset_fix_limits]. *)
Definition fix_set (count : Z) (s : list seq_range) : option (list seq_range) :=
  if negb (length s =? 0)%nat then
    first ← s !! 0%nat;
    last ← s !! (length s - 1)%nat;
    _ ← assert (negb (seq1 first =? 0));
    '(_, s) ← (if seq2 last =? UINT32_MAX then seq_range_array_add s count else Some (false, s));
    '(_, s) ← seq_range_array_remove_range s (u32 (count + 1)) UINT32_MAX;
    Some s
  else Some s.

Lemma fix_set_spec count s :
  seqset_ok s -> 1 <= count < UINT32_MAX ->
  exists s', fix_set count s = Some s' /\ wf_from 1 s' /\ (forall x, mem x s' = fixed count s x) /\ (length s' <= length s + 4)%nat.
Proof.
  intros [Hw Hl] Hc. unfold fix_set. destruct (array_ends s) as [-> | (r0 & l0 & l & rl & Hs0 & Hsl & -> & -> & -> & Hlen)].
  { exists []. cbn. split_and!; [done | done | | lia]. intros x. unfold fixed. cbn. by rewrite andb_false_r. }
  cbn [negb mbind option_bind]. assert (H0 : 1 <= seq1 r0) by (rewrite Hs0 in Hw; cbn in Hw; lia).
  rewrite assert_true by (apply negb_true_iff, Z.eqb_neq; lia). cbn [mbind option_bind].
  assert (Hmax : mem UINT32_MAX s = (seq2 rl =? UINT32_MAX)) by (rewrite Hsl in *; by eapply max_last).
  assert (Hadd : exists b d, (if seq2 rl =? UINT32_MAX then seq_range_array_add s count else Some (false, s)) = Some (b, d) /\ wf d /\
            (forall x, mem x d = mem x s || (mem UINT32_MAX s && (x =? count))) /\ (length d <= S (length s))%nat).
  { rewrite Hmax. destruct (seq2 rl =? UINT32_MAX).
    - destruct (seq_range_array_add_spec s count) as ([b d] & Hd & Hwd & _ & Hm); [apply (wf_from_wf 1); [lia | done] | unfold len_ok; lia | unfold is_u32; lia |].
      exists b, d. split_and!; [done | done | | by eapply add_length]. intros x. cbn in Hm. rewrite Hm. apply orb_comm.
    - exists false, s. split_and!; [done | apply (wf_from_wf 1); [lia | done] | | lia]. intros x. by rewrite orb_false_r. }
  destruct Hadd as (b & d & -> & Hwd & Hmd & Hld). cbn [mbind option_bind]. rewrite u32_small by (unfold is_u32; lia).
  destruct (seq_range_array_remove_range_spec d (count + 1) UINT32_MAX) as ([n s'] & -> & Hw' & Hm' & Hl' & _); [done | lia | lia | lia |].
  cbn [mbind option_bind fst snd] in *. assert (Hm : forall x, mem x s' = fixed count s x).
  { intros x. rewrite Hm', Hmd. unfold fixed. pose proof (mem_bounds 1 s x Hw). destruct (mem x s), (mem UINT32_MAX s); lia. }
  exists s'. split_and!; [done | | done | lia]. apply wf_no_zero; [done |]. rewrite Hm. unfold fixed. pose proof (mem_bounds 1 s 0 Hw). destruct (mem 0 s), (mem UINT32_MAX s); lia.
Qed.

Lemma fix_limits_spec count s (n : bool) :
  seqset_ok s -> 1 <= count < UINT32_MAX ->
  exists s' b, search_msgset_fix_limits count s n = Some (b, s') /\ wf_from 1 s' /\ (forall x, mem x s' = fixed count s x) /\
    (length s' <= length s + 4)%nat /\
    b = (if n then match s' with [] => true | r :: _ => negb (seq1 r =? 1) || negb (mem count s') end else negb (length s' =? 0)%nat).
Proof.
  intros Hs Hc. destruct (fix_set_spec count s Hs Hc) as (s' & Hf & Hw' & Hm & Hl'). unfold search_msgset_fix_limits. rewrite assert_true by lia.
  cbn [mbind option_bind]. fold (fix_set count s). rewrite Hf. cbn [mbind option_bind]. destruct n; cbn [negb].
  2:{ exists s', (negb (length s' =? 0)%nat). by split_and!. }
  destruct (array_ends s') as [-> | (r0 & l0 & l & rl & Hs0 & Hsl & -> & -> & -> & Hlen)].
  { exists [], true. by split_and!. }
  exists s'. cbn [mbind option_bind]. eexists. split_and!; [reflexivity | done | done | done |]. rewrite Hs0 at 1. f_equal. f_equal.
  assert (Hle : seq2 rl <= count).
  { assert (Hx : mem (seq2 rl) s' = true) by (rewrite Hsl in Hw' |- *; apply wf_from_app in Hw' as [_ (? & ? & _)]; rewrite mem_app; cbn; lia).
    rewrite Hm in Hx. unfold fixed in Hx. lia. }
  rewrite Hsl in Hw' |- *. pose proof (last_mem 1 l rl Hw' count) as Hlm. apply wf_from_app in Hw' as [Hw1 Hw2]. cbn in Hw2.
  destruct (mem count (l ++ [rl])) eqn:E; [specialize (Hlm eq_refl); lia |]. rewrite mem_app in E. cbn in E. lia.
Qed.

(** The set holds all messages, if it holds the first and the last one.  The
    code takes this for granted when a set is negated. *)
Definition no_gap (count : Z) (s : list seq_range) : Prop :=
  fixed count s 1 = true -> fixed count s count = true -> forall y, 1 <= y <= count -> fixed count s y = true.

Lemma one_range_no_gap count s : (length s <= 1)%nat -> seqset_ok s -> 1 <= count < UINT32_MAX -> no_gap count s.
Proof. intros Hl [Hw _] Hc H1 H2 y Hy. unfold fixed in *. destruct s as [|r [|]]; cbn [mem length wf_from] in *; lia. Qed.

Lemma msgset_fix_spec count s s1 s2 (n : bool) :
  seqset_ok s -> 1 <= count < UINT32_MAX -> 1 <= s1 -> (n = true -> no_gap count s) ->
  exists s' t1 t2, search_msgset_fix count s s1 s2 n = Some (s', (t1, t2)) /\ 1 <= t1 /\ wf_from 1 s' /\ (length s' <= length s + 4)%nat /\
    (forall x, mem x s' = fixed count s x) /\
    (forall x, 1 <= x <= count -> s1 <= x <= s2 -> mem x s' = negb n -> t1 <= x <= t2).
Proof.
  intros Hs Hc H1 Hn. destruct (fix_limits_spec count s n Hs Hc) as (s' & b & Hf & Hw & Hm & Hl & Hb). unfold search_msgset_fix. rewrite Hf.
  cbn [mbind option_bind]. destruct b; cbn [negb].
  2:{ exists s', UINT32_MAX, 0. split_and!; [done | lia | done | done | done |]. intros x Hx _ Hmx. exfalso. destruct n; cbn in Hmx.
      - destruct s' as [|r l]; [done |]. symmetry in Hb. apply orb_false_iff in Hb as [Hb1 Hb2]. apply negb_false_iff in Hb1, Hb2.
        assert (Hr : mem 1 (r :: l) = true) by (cbn in *; lia). rewrite Hm in Hmx, Hr, Hb2.
        by rewrite (Hn eq_refl Hr Hb2 x Hx) in Hmx.
      - symmetry in Hb. apply negb_false_iff, Nat.eqb_eq in Hb. by destruct s'. }
  assert (Hlim : forall lo hi, 1 <= lo -> (forall x, 1 <= x <= count -> mem x s' = negb n -> lo <= x <= hi) ->
            exists s'0 t1 t2, Some (s', (if (s1 <? lo) || (s1 =? 0) then lo else s1, if s2 >? hi then hi else s2)) = Some (s'0, (t1, t2)) /\
              1 <= t1 /\ wf_from 1 s'0 /\ (length s'0 <= length s + 4)%nat /\ (forall x, mem x s'0 = fixed count s x) /\
              (forall x, 1 <= x <= count -> s1 <= x <= s2 -> mem x s'0 = negb n -> t1 <= x <= t2)).
  { intros lo hi Hlo Hx. eexists _, _, _. split_and!; [reflexivity | | done | done | done |].
    - zcases.
    - intros x Hxc Hxs Hmx. specialize (Hx x Hxc Hmx). zcases. }
  destruct (array_ends s') as [-> | (r0 & l0 & l & rl & Hs0 & Hsl & -> & -> & -> & Hlen)].
  { destruct n; [| done]. cbn. apply Hlim; [lia |]. intros; lia. }
  rewrite andb_false_r. cbn [mbind option_bind].
  assert (Hhd : forall x, mem x s' = true -> seq1 r0 <= x).
  { intros x Hx. rewrite Hs0 in Hx, Hw. cbn in Hx, Hw. destruct Hw as (? & ? & Hw). pose proof (mem_bounds _ _ x Hw). destruct (mem x l0); lia. }
  assert (Hr0 : 1 <= seq1 r0 <= seq2 r0 /\ forall x, seq1 r0 <= x <= seq2 r0 -> mem x s' = true).
  { rewrite Hs0 in Hw |- *. cbn in Hw. split; [lia |]. intros x Hx. cbn. lia. }
  assert (Hrl : seq1 rl <= seq2 rl <= count /\ 1 <= seq1 rl /\ (forall x, seq1 rl <= x <= seq2 rl -> mem x s' = true) /\ forall x, mem x s' = true -> x <= seq2 rl).
  { assert (Hx : forall x, seq1 rl <= x <= seq2 rl -> mem x s' = true) by (intros x Hx; rewrite Hsl, mem_app; cbn; lia).
    rewrite Hsl in Hw. pose proof (last_mem 1 l rl Hw) as Hlm. rewrite <- Hsl in Hlm. pose proof (nxt_ge 1 l) as Hnx. apply wf_from_app in Hw as [Hw1 Hw2]. specialize (Hnx Hw1). cbn in Hw2.
    split_and!; [lia | | lia | done | done]. specialize (Hx (seq2 rl)). rewrite Hm in Hx. unfold fixed in Hx. lia. }
  destruct Hr0 as [Hr0 Hr0m], Hrl as (Hrl & Hrl1 & Hrlm & Hlast). destruct n; cbn [negb].
  2:{ apply Hlim; [lia |]. intros x _ Hx. split; auto. }
  rewrite (u32_small (seq2 r0 + 1)), (u32_small (seq1 rl - 1)) by (unfold is_u32; specialize (Hlast (seq2 r0)); rewrite Hr0m in Hlast by lia; lia).
  assert (Hx : forall x, 1 <= x <= count -> mem x s' = false ->
            (if seq1 r0 >? 1 then 1 else seq2 r0 + 1) <= x <= (if seq2 rl <? count then count else seq1 rl - 1)).
  { intros x Hxc Hmx. specialize (Hr0m x). specialize (Hrlm x). rewrite Hmx in *. zcases. }
  destruct (Z.gtb_spec (if seq1 r0 >? 1 then 1 else seq2 r0 + 1) (if seq2 rl <? count then count else seq1 rl - 1)) as [Hgt | Hle].
  - exists s', UINT32_MAX, 0. split_and!; [done | lia | done | done | done |]. intros x Hxc _ Hmx. specialize (Hx x Hxc Hmx). lia.
  - apply Hlim; [zcases | done].
Qed.

(** ** Trees *)

(** What the computation of the range relies on: groups are not negated, and
    a negated set with the first and the last message has them all. *)
Inductive range_ok (count : Z) : mail_search_arg -> Prop :=
  | range_ok_group v subs : is_group v = true -> a_match_not v = false -> subs <> [] -> Forall (range_ok count) subs -> range_ok count (Arg v subs)
  | range_ok_set v subs :
      a_type v = SEARCH_SEQSET -> seqset_ok (a_seqset v) -> (a_match_not v = true -> no_gap count (a_seqset v)) -> range_ok count (Arg v subs)
  | range_ok_other v subs : is_group v = false -> a_type v <> SEARCH_SEQSET -> range_ok count (Arg v subs).

(** The arguments with their sets fixed. *)
Inductive fixed_arg (count : Z) : mail_search_arg -> mail_search_arg -> Prop :=
  | fixed_group v subs subs' : is_group v = true -> Forall2 (fixed_arg count) subs subs' -> fixed_arg count (Arg v subs) (Arg v subs')
  | fixed_set v subs s' :
      a_type v = SEARCH_SEQSET -> wf_from 1 s' -> len_ok s' -> (forall x, mem x s' = fixed count (a_seqset v) x) ->
      fixed_arg count (Arg v subs) (Arg (put_seqset s' v) subs)
  | fixed_other v subs : is_group v = false -> a_type v <> SEARCH_SEQSET -> fixed_arg count (Arg v subs) (Arg v subs).

Lemma fixed_no_star count s s' : (forall x, mem x s' = fixed count s x) -> count < UINT32_MAX -> mem UINT32_MAX s' = false.
Proof. intros -> Hc. unfold fixed. lia. Qed.

Section Range.
Variable thread : Z -> mail -> list mail.
Variable count : Z.
Hypothesis count_ok : 1 <= count < UINT32_MAX.
Notation eval := (eval leaf thread).

(** The messages for which [P] may hold are in the range [t], if in [s]. *)
Definition keeps (P : mail -> Prop) (s t : Z * Z) : Prop :=
  forall m, 1 <= m_seq m <= count -> s.1 <= m_seq m <= s.2 -> P m -> t.1 <= m_seq m <= t.2.

(** What the code does with an argument. *)
Definition parsed (a : mail_search_arg) : Prop :=
  forall s1 s2, 1 <= s1 -> exists a' t, search_parse_msgset_arg count a (s1, s2) = Some (a', t) /\ 1 <= t.1 /\ fixed_arg count a a' /\
    keeps (fun m => eval a' m <> 0) (s1, s2) t.

Lemma conj_all_nonzero l x : Forall tri l -> conj_all l <> 0 -> x ∈ l -> x <> 0.
Proof. intros Ht Hc Hx ->. apply Hc, conj_all_zero; [done |]. apply Exists_exists. eauto. Qed.

Lemma disj_all_nonzero l : disj_all l <> 0 -> exists x, x ∈ l /\ x <> 0.
Proof.
  induction l as [|y l IH]; [done |]. intros H. destruct (decide (y = 0)) as [-> | Hy]; [| exists y; split; [by left | done]].
  destruct IH as (x & Hx & Hx0); [| exists x; split; [by right | done]]. intros H0. apply H. unfold disj_all in *. cbn. lia.
Qed.

Lemma and_loop_spec subs s1 s2 :
  Forall parsed subs -> 1 <= s1 ->
  exists subs' t, msgset_and_loop (search_parse_msgset_arg count) subs (s1, s2) = Some (subs', t) /\ 1 <= t.1 /\ Forall2 (fixed_arg count) subs subs' /\
    keeps (fun m => Forall (fun a => eval a m <> 0) subs') (s1, s2) t.
Proof.
  intros Hs. revert s1 s2. induction Hs as [|a subs Ha _ IH]; intros s1 s2 H1; cbn [msgset_and_loop].
  { exists [], (s1, s2). split_and!; [done | done | constructor |]. intros m _ Hm _. done. }
  destruct (Ha s1 s2 H1) as (a' & [t1 t2] & -> & Ht & Hf & Hk). cbn [mbind option_bind]. destruct (IH t1 t2 Ht) as (subs' & u & -> & Hu & Hfs & Hks).
  cbn [mbind option_bind]. exists (a' :: subs'), u. split_and!; [done | done | by constructor |].
  intros m Hc Hm Hall. inversion Hall; subst. apply Hks; [done | by apply Hk | done].
Qed.

Lemma or_loop_spec subs w :
  Forall parsed subs -> (w.1 = 0 \/ 1 <= w.1) -> (w.1 = 0 -> subs <> []) ->
  exists subs' u, msgset_or_loop count (search_parse_msgset_arg count) subs w = Some (subs', u) /\ 1 <= u.1 /\ Forall2 (fixed_arg count) subs subs' /\
    (w.1 <> 0 -> u.1 <= w.1 /\ w.2 <= u.2) /\
    forall m, 1 <= m_seq m <= count -> Exists (fun a => eval a m <> 0) subs' -> u.1 <= m_seq m <= u.2.
Proof.
  intros Hs. revert w. induction Hs as [|a subs Ha _ IH]; intros [w1 w2] Hw Hne; cbn [msgset_or_loop fst snd] in *.
  { exists [], (w1, w2). destruct Hw as [-> | Hw]; [by destruct (Hne eq_refl) |]. split_and!; [done | done | constructor | done |]. intros m _ He. inversion He. }
  destruct (Ha 1 count) as (a' & [t1 t2] & -> & Ht & Hf & Hk); [lia |]. cbn [mbind option_bind]. cbn [fst snd] in Ht.
  set (w' := if w1 =? 0 then (t1, t2) else _).
  assert (Hw' : 1 <= w'.1 /\ (w1 <> 0 -> w'.1 <= w1 /\ w2 <= w'.2) /\ w'.1 <= t1 /\ t2 <= w'.2) by (subst w'; zcases).
  clearbody w'. destruct Hw' as (H1 & H2 & H3). destruct (IH w') as (subs' & u & -> & Hu & Hfs & Hwu & Hx); [lia | lia |]. cbn [mbind option_bind].
  exists (a' :: subs'), u. specialize (Hwu ltac:(lia)). split_and!; [done | done | by constructor | intros; specialize (H2 ltac:(done)); lia |].
  intros m Hm He. inversion He as [? ? Ha' | ? ? He']; subst; [| by apply Hx]. specialize (Hk m Hm). cbn in Hk. specialize (Hk Hm Ha'). lia.
Qed.

Lemma range_ok_parsed a : range_ok count a -> parsed a.
Proof.
  induction a as [v subs IH]. intros Hok s1 s2 H1. inversion Hok as [? ? Hg Hn Hne Hs | ? ? Ht Hs Hl | ? ? Hg Ht]; subst.
  - assert (Hp : Forall parsed subs) by (clear -IH Hs; induction IH; inversion Hs; subst; constructor; auto).
    assert (Htr : forall subs' m, Forall tri (map (fun s => eval s m) subs')) by (intros; apply evals_tri, leaf_range).
    unfold is_group, is_type in Hg. cbn [search_parse_msgset_arg]. destruct (a_type v) eqn:E; try discriminate Hg; rewrite Hn, assert_true by done; cbn [mbind option_bind].
    + unfold search_or_parse_msgset. destruct (or_loop_spec subs (0, 0) Hp) as (subs' & [u1 u2] & -> & Hu & Hf & _ & Hx); [by left | done |].
      cbn [mbind option_bind fst snd] in *. rewrite assert_true by lia. cbn [mbind option_bind]. eexists _, _. split_and!; [reflexivity | | |].
      * cbn. zcases.
      * by constructor; [unfold is_group, is_type; rewrite E |].
      * intros m Hm Hr He. cbn [MailSearchEval.eval] in He. rewrite E, Hn in He. cbn [neg] in He. apply disj_all_nonzero in He as (x & Hin & Hx0).
        apply list_elem_of_fmap in Hin as (s & -> & Hin). specialize (Hx m Hm). cbn in *.
        assert (u1 <= m_seq m <= u2) by (apply Hx, Exists_exists; eauto). zcases.
    + destruct (and_loop_spec subs s1 s2 Hp H1) as (subs' & t & -> & Ht & Hf & Hk). cbn [mbind option_bind]. eexists _, _. split_and!; [reflexivity | done | |].
      * by constructor; [unfold is_group, is_type; rewrite E |].
      * intros m Hm Hr He. apply Hk; [done | done |]. cbn [MailSearchEval.eval] in He. rewrite E, Hn in He. cbn [neg] in He.
        apply Forall_forall. intros s Hin. apply (conj_all_nonzero (map (fun s => eval s m) subs')); [apply Htr | done |]. apply list_elem_of_fmap. eauto.
  - cbn [search_parse_msgset_arg fst snd]. rewrite Ht. destruct (msgset_fix_spec count (a_seqset v) s1 s2 (a_match_not v) Hs count_ok H1 Hl) as (s' & t1 & t2 & -> & H1' & Hw & Hlen & Hm & Hk).
    cbn [mbind option_bind]. assert (Hlo : len_ok s') by (destruct Hs; unfold len_ok; lia). eexists _, _. split_and!; [reflexivity | done | by constructor |].
    intros m Hc Hr He. apply Hk; [done | done |]. cbn [MailSearchEval.eval a_type put_seqset a_match_not] in He. rewrite Ht in He.
    unfold leaf in He. cbn [a_type put_seqset a_seqset] in He. rewrite Ht, !seq_range_exists_spec in He by first [apply (wf_from_wf 1); [lia | done] | done | lia].
    cbn [mbind option_bind] in He. rewrite (fixed_no_star count (a_seqset v) s') in He by (done || lia). revert He. by destruct (a_match_not v), (mem (m_seq m) s').
  - exists (Arg v subs), (s1, s2). unfold is_group, is_type in Hg. cbn [search_parse_msgset_arg]. split_and!; [by destruct (a_type v) | done | by constructor |].
    intros m _ Hr _. done.
Qed.

End Range.

(** ** The header of the index *)

(** What the header says of a message: its counts, low-water marks and
    modification sequence are those of the messages. *)
Record header_ok (hdr : index_header) (m : mail) : Prop := {
  hdr_pvt : pvt_flags_mask hdr = match m_pvt m with Some (mask, _) => mask | None => 0 end;
  hdr_no_seen : seen_messages_count hdr = 0 -> flag_set (m_flags m) MAIL_SEEN = false;
  hdr_all_seen : seen_messages_count hdr = messages_count hdr -> flag_set (m_flags m) MAIL_SEEN = true;
  hdr_unseen_low : m_uid m < first_unseen_uid_lowwater hdr -> flag_set (m_flags m) MAIL_SEEN = true;
  hdr_no_deleted : deleted_messages_count hdr = 0 -> flag_set (m_flags m) MAIL_DELETED = false;
  hdr_all_deleted : deleted_messages_count hdr = messages_count hdr -> flag_set (m_flags m) MAIL_DELETED = true;
  hdr_deleted_low : m_uid m < first_deleted_uid_lowwater hdr -> flag_set (m_flags m) MAIL_DELETED = false;
  hdr_lookup uid : uid <= m_uid m -> lookup_seq hdr uid <= m_seq m;
  hdr_modseq : m_modseq m <= highest_modseq hdr /\ (forall f, m_modseq_flags m f <= highest_modseq hdr) /\
    forall k, m_modseq_keywords m k <= highest_modseq hdr;
}.

Lemma flag_set_bit f k : 0 <= k -> flag_set f (2 ^ k) = Z.testbit f k.
Proof. intros Hk. unfold flag_set. by rewrite land_bit, negb_involutive. Qed.

(** A flag that is not private is that of the record. *)
Lemma match_flags_bit hdr m f k :
  header_ok hdr m -> 0 <= k -> k <> 5 -> flag_set (pvt_flags_mask hdr) (2 ^ k) = false -> Z.testbit (match_flags m f) k = flag_set (m_flags m) (2 ^ k).
Proof.
  intros Hh Hk H5 Hp. rewrite flag_set_bit in * by done. rewrite (hdr_pvt _ _ Hh) in Hp. unfold match_flags.
  assert (Hb : forall b : bool, Z.testbit (if b then Z.lor (Z.ldiff (m_flags m) MAIL_RECENT) MAIL_RECENT else Z.ldiff (m_flags m) MAIL_RECENT) k = Z.testbit (m_flags m) k).
  { intros b. assert (Hr : Z.testbit MAIL_RECENT k = false) by (rewrite recent_bit by done; by apply Z.eqb_neq).
    destruct b; rewrite ?Z.lor_spec, Z.ldiff_spec, Hr; cbn; by rewrite ?orb_false_r, andb_true_r. }
  destruct (m_pvt m) as [[mask [pf|]]|]; rewrite ?Z.lor_spec, ?Z.land_spec, ?Z.ldiff_spec, ?Hb, ?Hp; cbn; by rewrite ?andb_true_r, ?andb_false_r, ?orb_false_r.
Qed.

Lemma leaf_flag_missing hdr m v k :
  header_ok hdr m -> a_type v = SEARCH_FLAGS -> 0 <= k -> k <> 5 -> flag_set (a_flags v) (2 ^ k) = true ->
  flag_set (pvt_flags_mask hdr) (2 ^ k) = false -> flag_set (m_flags m) (2 ^ k) = false -> leaf m v = 0.
Proof.
  intros Hh Ht Hk H5 Hf Hp Hm. unfold leaf, search_arg_match_index. rewrite Ht, tri_of_bool.
  destruct (Z.eqb_spec (Z.land (match_flags m (a_flags v)) (a_flags v)) (a_flags v)) as [He |]; [exfalso | done].
  rewrite flag_set_bit in Hf by done. rewrite <- He, Z.land_spec, (match_flags_bit hdr m _ k Hh Hk H5 Hp), Hm in Hf. done.
Qed.

Lemma leaf_flag_single hdr m v k :
  header_ok hdr m -> a_type v = SEARCH_FLAGS -> 0 <= k -> k <> 5 -> a_flags v = 2 ^ k ->
  flag_set (pvt_flags_mask hdr) (2 ^ k) = false -> flag_set (m_flags m) (2 ^ k) = true -> leaf m v = 2.
Proof.
  intros Hh Ht Hk H5 Hf Hp Hm. unfold leaf, search_arg_match_index. rewrite Ht, tri_of_bool, Hf.
  assert (Z.land (match_flags m (2 ^ k)) (2 ^ k) = 2 ^ k) as ->; [| by rewrite Z.eqb_refl].
  apply Z.bits_inj'. intros i Hi. rewrite Z.land_spec, Z.pow2_bits_eqb by done. destruct (Z.eqb_spec k i) as [<- |]; [| by rewrite andb_false_r].
  by rewrite (match_flags_bit hdr m _ k Hh Hk H5 Hp), Hm.
Qed.

(** A flag from which the code concludes, where [P] holds, that a message has
    all the flags asked for is the only one. *)
Definition flag_alone (hdr : index_header) (v : arg_value) (flag : Z) (P : Prop) : Prop :=
  flag_set (a_flags v) flag = true -> flag_set (pvt_flags_mask hdr) flag = false -> P -> a_flags v = flag.

Definition seen_decides (hdr : index_header) (v : arg_value) : Prop :=
  seen_messages_count hdr = messages_count hdr \/ (a_match_not v = true /\ first_unseen_uid_lowwater hdr <> 0).

(** What the header can decide: such flags, and MODSEQs that are not negated
    or not above the highest one. *)
Definition limit_ok (hdr : index_header) (a : mail_search_arg) : Prop :=
  match a_type (value a) with
  | SEARCH_FLAGS => flag_alone hdr (value a) MAIL_SEEN (seen_decides hdr (value a)) /\
      flag_alone hdr (value a) MAIL_DELETED (deleted_messages_count hdr = messages_count hdr)
  | SEARCH_MODSEQ => exists q, a_modseq (value a) = Some q /\ (a_match_not (value a) = true -> modseq_value q <= highest_modseq hdr)
  | _ => True
  end.

(** The arguments after it: some are marked as matching always. *)
Inductive marked (hdr : index_header) : mail_search_arg -> mail_search_arg -> Prop :=
  | marked_same a : marked hdr a a
  | marked_always v subs : a_type v = SEARCH_FLAGS -> a_match_not v = false -> (forall m, header_ok hdr m -> leaf m v = 2) ->
      marked hdr (Arg v subs) (Arg (put_always true (a_nonmatch_always v) v) subs).

(** The effect of one flag on the first sequence: [None] when nothing matches. *)
Definition flag_limited (hdr : index_header) (v : arg_value) (s1 : Z) (o : option (arg_value * Z)) : Prop :=
  match o with
  | None => forall m, header_ok hdr m -> neg (a_match_not v) (leaf m v) = 0
  | Some (v', s1') => s1 <= s1' /\ (v' = v \/ v' = put_always true (a_nonmatch_always v) v /\ a_match_not v = false /\ forall m, header_ok hdr m -> leaf m v = 2) /\
      forall m, header_ok hdr m -> s1 <= m_seq m -> neg (a_match_not v) (leaf m v) <> 0 -> s1' <= m_seq m
  end.

Lemma lowwater_spec hdr uid s1 m : header_ok hdr m -> s1 <= m_seq m -> (uid <> 0 -> uid <= m_uid m) -> search_limit_lowwater hdr uid s1 <= m_seq m.
Proof. intros Hh Hs Hu. unfold search_limit_lowwater. pose proof (hdr_lookup _ _ Hh uid). zcases. Qed.

Lemma lowwater_ge hdr uid s1 : s1 <= search_limit_lowwater hdr uid s1.
Proof. unfold search_limit_lowwater. zcases. Qed.

Lemma limit_by_seen_spec hdr v s1 :
  a_type v = SEARCH_FLAGS -> flag_alone hdr v MAIL_SEEN (seen_decides hdr v) -> flag_limited hdr v s1 (limit_by_seen hdr v s1).
Proof.
  intros Ht Ha. unfold limit_by_seen. change MAIL_SEEN with (2 ^ 3) in *.
  assert (Hskip : flag_limited hdr v s1 (Some (v, s1))) by (cbn; split_and!; [lia | by left | auto]).
  destruct (flag_set (a_flags v) (2 ^ 3)) eqn:Hf; [| done]. destruct (flag_set (pvt_flags_mask hdr) (2 ^ 3)) eqn:Hp; [done |]. cbn [negb andb].
  pose proof (fun H => Ha Hf Hp H) as Hal.
  destruct (a_match_not v) eqn:Hn; cbn [negb andb].
  - destruct (Z.eqb_spec (seen_messages_count hdr) (messages_count hdr)) as [Hall | _].
    + intros m Hh. rewrite Hn, (leaf_flag_single hdr m v 3) by (done || (apply Hal; by left) || by apply (hdr_all_seen _ _ Hh)). done.
    + split_and!; [apply lowwater_ge | by left |]. intros m Hh Hs Hl. apply lowwater_spec; [done | done |]. intros Hne.
      destruct (Z.lt_ge_cases (m_uid m) (first_unseen_uid_lowwater hdr)) as [Hlt |]; [exfalso | done]. apply Hl.
      rewrite Hn, (leaf_flag_single hdr m v 3) by (done || (apply Hal; by right) || by apply (hdr_unseen_low _ _ Hh)). done.
  - destruct (Z.eqb_spec (seen_messages_count hdr) 0) as [H0 | _].
    + intros m Hh. rewrite Hn, (leaf_flag_missing hdr m v 3) by (done || by apply (hdr_no_seen _ _ Hh)). done.
    + destruct (Z.eqb_spec (seen_messages_count hdr) (messages_count hdr)) as [Hall | _]; [| done].
      split_and!; [lia | right; split_and!; [done | done |] | auto]. intros m Hh.
      apply (leaf_flag_single hdr m v 3); try done; [apply Hal; by left | by apply (hdr_all_seen _ _ Hh)].
Qed.

Lemma limit_by_deleted_spec hdr v s1 :
  a_type v = SEARCH_FLAGS -> flag_alone hdr v MAIL_DELETED (deleted_messages_count hdr = messages_count hdr) -> flag_limited hdr v s1 (limit_by_deleted hdr v s1).
Proof.
  intros Ht Ha. unfold limit_by_deleted. change MAIL_DELETED with (2 ^ 2) in *.
  assert (Hskip : flag_limited hdr v s1 (Some (v, s1))) by (cbn; split_and!; [lia | by left | auto]).
  destruct (flag_set (a_flags v) (2 ^ 2)) eqn:Hf; [| done]. destruct (flag_set (pvt_flags_mask hdr) (2 ^ 2)) eqn:Hp; [done |]. cbn [negb andb].
  pose proof (fun H => Ha Hf Hp H) as Hal.
  destruct (a_match_not v) eqn:Hn; cbn [negb andb].
  - destruct (Z.eqb_spec (deleted_messages_count hdr) (messages_count hdr)) as [Hall | _]; [| done].
    intros m Hh. rewrite Hn, (leaf_flag_single hdr m v 2) by (done || auto || by apply (hdr_all_deleted _ _ Hh)). done.
  - destruct (Z.eqb_spec (deleted_messages_count hdr) 0) as [H0 | _].
    + intros m Hh. rewrite Hn, (leaf_flag_missing hdr m v 2) by (done || by apply (hdr_no_deleted _ _ Hh)). done.
    + destruct (Z.eqb_spec (deleted_messages_count hdr) (messages_count hdr)) as [Hall | _].
      * split_and!; [lia | right; split_and!; [done | done |] | auto]. intros m Hh.
        apply (leaf_flag_single hdr m v 2); try done; [auto | by apply (hdr_all_deleted _ _ Hh)].
      * split_and!; [apply lowwater_ge | by left |]. intros m Hh Hs Hl. apply lowwater_spec; [done | done |]. intros _.
        destruct (Z.lt_ge_cases (m_uid m) (first_deleted_uid_lowwater hdr)) as [Hlt |]; [exfalso | done]. apply Hl.
        rewrite Hn, (leaf_flag_missing hdr m v 2) by (done || by apply (hdr_deleted_low _ _ Hh)). done.
Qed.

Section Header.
Variable thread : Z -> mail -> list mail.
Variable hdr : index_header.
Notation eval := (eval leaf thread).

(** The messages that match are still looked at. *)
Definition limited (args : list mail_search_arg) (s1 s2 : Z) (ret : bool) (s1' : Z) : Prop :=
  s1 <= s1' /\ forall m, header_ok hdr m -> s1 <= m_seq m <= s2 -> Forall (fun a => eval a m <> 0) args -> ret = true /\ s1' <= m_seq m.

Lemma limit_skip a args s1 s2 ret s1' : limited args s1 s2 ret s1' -> limited (a :: args) s1 s2 ret s1'.
Proof. intros [H1 H2]. split; [done |]. intros m Hh Hs Ha. inversion Ha; subst. by apply H2. Qed.

Lemma limit_none a args s1 s2 : (forall m, header_ok hdr m -> eval a m = 0) -> limited (a :: args) s1 s2 false s1.
Proof. intros H0. split; [done |]. intros m Hh _ Ha. inversion Ha; subst. by specialize (H0 m Hh). Qed.

(** An argument that raises the first sequence. *)
Lemma limit_step a args s1 t s2 ret s1' :
  s1 <= t -> (forall m, header_ok hdr m -> s1 <= m_seq m -> eval a m <> 0 -> t <= m_seq m) ->
  limited args t s2 ret s1' -> limited (a :: args) s1 s2 ret s1'.
Proof.
  intros Ht Ha [H1 H2]. split; [lia |]. intros m Hh Hs Hall. inversion Hall; subst. apply H2; [done | | done]. split; [apply Ha; [done | lia | done] | lia].
Qed.

Lemma eval_flags v subs m : a_type v = SEARCH_FLAGS -> eval (Arg v subs) m = neg (a_match_not v) (leaf m v).
Proof. intros Ht. cbn [MailSearchEval.eval]. by rewrite Ht. Qed.

Lemma modseq_none v subs q m :
  a_type v = SEARCH_MODSEQ -> a_match_not v = false -> a_modseq v = Some q -> highest_modseq hdr < modseq_value q -> header_ok hdr m -> eval (Arg v subs) m = 0.
Proof.
  intros Ht Hn Hq Hlt Hh. cbn [MailSearchEval.eval]. rewrite Ht, Hn. cbn [neg]. unfold leaf, search_arg_match_index. rewrite Ht, Hq. cbn [mbind option_bind].
  rewrite tri_of_bool. destruct (hdr_modseq _ _ Hh) as (H1 & H2 & H3). specialize (H2 (a_flags v)).
  destruct (a_keywords v) as [k|]; [specialize (H3 k) |]; destruct (a_flags v =? 0); cbn; zcases.
Qed.

Lemma limit_by_hdr_spec args s1 s2 :
  Forall (limit_ok hdr) args ->
  exists ret args' s1', search_limit_by_hdr hdr args s1 s2 = Some (ret, args', s1') /\ Forall2 (marked hdr) args args' /\ limited args s1 s2 ret s1'.
Proof.
  assert (Hrefl : forall l, Forall2 (marked hdr) l l) by (intros l; induction l; constructor; [constructor | done]).
  intros Hl. revert s1. induction Hl as [|[v subs] args Ha _ IH]; intros s1; cbn [search_limit_by_hdr].
  { exists (s1 <=? s2), [], s1. split_and!; [done | constructor |]. split; [lia |]. intros m _ Hs _. split; lia. }
  unfold limit_ok in Ha. cbn [value] in Ha.
  assert (Hgo : forall v' t, s1 <= t -> marked hdr (Arg v subs) (Arg v' subs) -> (forall m, header_ok hdr m -> s1 <= m_seq m -> eval (Arg v subs) m <> 0 -> t <= m_seq m) ->
            exists ret args' s1', ('(ret, rest, s1) ← search_limit_by_hdr hdr args t s2; Some (ret, Arg v' subs :: rest, s1)) = Some (ret, args', s1') /\
              Forall2 (marked hdr) (Arg v subs :: args) args' /\ limited (Arg v subs :: args) s1 s2 ret s1').
  { intros v' t Ht Hm Hk. destruct (IH t) as (ret & args' & s1' & -> & Hf & Hlim). cbn [mbind option_bind]. exists ret, (Arg v' subs :: args'), s1'.
    split_and!; [done | by constructor | by eapply limit_step]. }
  destruct (a_type v) eqn:E; try (apply Hgo; [lia | constructor | auto]).
  - destruct (a_match_not v) eqn:Hn; [| apply Hgo; [lia | constructor | auto]]. exists false, (Arg v subs :: args), s1. split_and!; [done | apply Hrefl |].
    apply limit_none. intros m _. cbn [MailSearchEval.eval]. rewrite E, Hn. unfold leaf. by rewrite E.
  - destruct Ha as [Ha1 Ha2]. pose proof (limit_by_seen_spec hdr v s1 E Ha1) as H1. destruct (limit_by_seen hdr v s1) as [[v1 t1]|].
    2:{ exists false, (Arg v subs :: args), s1. split_and!; [done | apply Hrefl |]. apply limit_none. intros m Hh. rewrite eval_flags by done. by apply H1. }
    destruct H1 as (Ht1 & Hv1 & Hk1).
    assert (Hsame : a_type v1 = SEARCH_FLAGS /\ a_match_not v1 = a_match_not v /\ a_flags v1 = a_flags v /\ (forall m, leaf m v1 = leaf m v) /\ a_nonmatch_always v1 = a_nonmatch_always v)
      by (destruct Hv1 as [-> | [-> _]]; done). destruct Hsame as (E1 & En & Ef & El & Ena).
    assert (Hal : flag_alone hdr v1 MAIL_DELETED (deleted_messages_count hdr = messages_count hdr)) by (unfold flag_alone in *; by rewrite Ef).
    pose proof (limit_by_deleted_spec hdr v1 t1 E1 Hal) as H2. destruct (limit_by_deleted hdr v1 t1) as [[v2 t2]|].
    + destruct H2 as (Ht2 & Hv2 & Hk2). apply Hgo; [lia | |].
      * destruct Hv2 as [-> | (-> & Hn2 & Hall2)]; [destruct Hv1 as [-> | (-> & Hn1 & Hall1)]; by constructor |].
        replace (put_always true (a_nonmatch_always v1) v1) with (put_always true (a_nonmatch_always v) v) by (destruct Hv1 as [-> | [-> _]]; done).
        constructor; [done | congruence |]. intros m Hh. rewrite <- El. auto.
      * intros m Hh Hs He. rewrite eval_flags in He by done. apply Hk2; [done | by apply Hk1 | by rewrite En, El].
    + exists false, (Arg v1 subs :: args), t1. split_and!; [done | |].
      * constructor; [| apply Hrefl]. destruct Hv1 as [-> | (-> & Hn1 & Hall1)]; by constructor.
      * split; [done |]. intros m Hh _ Hall. inversion Hall as [| ? ? He _]; subst. exfalso. apply He. rewrite eval_flags, <- En, <- El by done. by apply H2.
  - destruct Ha as (q & Hq & Hn). rewrite Hq. cbn [mbind option_bind]. destruct (Z.gtb_spec (modseq_value q) (highest_modseq hdr)); [| apply Hgo; [lia | constructor | auto]].
    assert (a_match_not v = false) by (destruct (a_match_not v); [specialize (Hn eq_refl); lia | done]). exists false, (Arg v subs :: args), s1. split_and!; [done | apply Hrefl |]. apply limit_none. intros m Hh. by apply (modseq_none v subs q).
Qed.
End Header.
