(* ===== verification/IndexSearchCorrect.v ===== *)
(** * Searching an index: a search returns the messages that match

    The pieces put together: what a search sets up, the passes for each
    message in the range, and the list of sequences that it returns. *)

From S2P Require Import Prelude SeqRange SeqRangeProps SeqRangeSets ImapArg ImapMatch ImapMatchProps ImapQuote.
From S2P Require Import MailSearch MailSearchResults MailSearchSimplify MailSearchEval MailSearchSimplifyProps MailSearchSimplifyLoop MailSearchSimplifyCorrect.
From S2P Require Import IndexSearch IndexSearchProps IndexSearchPasses IndexSearchRange.

(** ** Passes that are skipped, and passes after the result is known *)

(** A known match stays one. *)
Lemma foreach_match cb args args' : mail_search_args_foreach cb args = Some (1, args') -> forall cb2, mail_search_args_foreach cb2 args' = Some (1, args').
Proof.
  unfold mail_search_args_foreach. intros H cb2.
  assert (Hx : forall res args args', foreach_loop cb res args = Some (1, args') -> res = 1 /\ Forall (fun a => result a <> -1 /\ result a <> 0) args').
  { clear. intros res args. revert res. induction args as [|a args IH]; intros res args'; cbn [foreach_loop]; [by intros [= -> <-] |].
    destruct (search_arg_foreach cb a) as [a'|]; [| discriminate]. cbn [mbind option_bind]. destruct (Z.eqb_spec (result a') 0); [discriminate |].
    destruct (foreach_loop cb _ args) as [[r l]|] eqn:Hl; [| discriminate]. cbn [mbind option_bind]. intros [= -> <-].
    apply IH in Hl as [Hr Hl]. destruct (Z.eqb_spec (result a') (-1)); [done |]. split; [done |]. by constructor. }
  apply Hx in H as [_ Hall]. clear Hx. induction Hall as [|a l [H1 H0] _ IH]; [done |]. cbn [foreach_loop].
  rewrite foreach_known by done. cbn [mbind option_bind]. destruct (Z.eqb_spec (result a) 0); [done |]. destruct (Z.eqb_spec (result a) (-1)); [done |].
  by rewrite IH.
Qed.

Lemma foreach_values cb args r args' : mail_search_args_foreach cb args = Some (r, args') -> r = -1 \/ r = 0 \/ r = 1.
Proof.
  unfold mail_search_args_foreach. assert (Hx : forall res, res = -1 \/ res = 1 -> foreach_loop cb res args = Some (r, args') -> r = -1 \/ r = 0 \/ r = 1).
  { revert args'. induction args as [|a args IH]; intros args' res Hres; cbn [foreach_loop]; [intros [= <- <-]; lia |].
    destruct (search_arg_foreach cb a) as [a'|]; [| discriminate]. cbn [mbind option_bind]. destruct (result a' =? 0); [intros [= <- <-]; lia |].
    destruct (foreach_loop cb _ args) as [[r' l]|] eqn:Hl; [| discriminate]. cbn [mbind option_bind]. intros [= <- <-].
    eapply IH; [| exact Hl]. destruct (result a' =? -1); lia. }
  apply Hx. lia.
Qed.

Lemma passes_values cbs args r args' : search_passes cbs args = Some (r, args') -> r = -1 \/ r = 0 \/ r = 1.
Proof.
  revert args. induction cbs as [|cb cbs IH]; intros args; cbn [search_passes]; [intros [= <- _]; auto |].
  destruct (mail_search_args_foreach cb args) as [[r1 a1]|] eqn:H1; [| discriminate]. cbn [mbind option_bind].
  destruct (r1 =? -1); [apply IH |]. intros [= <- _]. by eapply foreach_values.
Qed.

Lemma passes_app cbs1 cbs2 args :
  search_passes (cbs1 ++ cbs2) args = '(r, args) ← search_passes cbs1 args; if r =? -1 then search_passes cbs2 args else Some (r, args).
Proof.
  revert args. induction cbs1 as [|cb cbs1 IH]; intros args; [done |]. cbn [app search_passes].
  destruct (mail_search_args_foreach cb args) as [[r1 a1]|]; [| done]. cbn [mbind option_bind].
  destruct (r1 =? -1) eqn:E; [apply IH |]. cbn [mbind option_bind]. by rewrite E.
Qed.

Section Message.
Variable env : search_env.
Hypothesis text_env : search_text env = search_text_arg.

(** The callbacks of a round, and those from the mailbox name on. *)
Definition once_callbacks (m : mail) : list (arg_value -> option arg_value) := [search_cached_arg m; search_text_arg m].

Definition rounds : list mail_lookup_abort := if max_mails env >? 1 then take 2 cache_lookups else cache_lookups.

Definition late_callbacks (needs : search_needs) (m : mail) : list (arg_value -> option arg_value) :=
  (if have_mailbox_args needs then [search_mailbox_arg m] else []) ++ flat_map (fun l => once_callbacks (lookups env l m)) rounds.

(** The callbacks that a search runs for a message. *)
Definition run_callbacks (needs : search_needs) (m : mail) : list (arg_value -> option arg_value) :=
  (if negb (have_seqsets needs) && negb (have_index_args needs) then []
   else search_seqset_arg m :: (if have_index_args needs then [search_index_arg m] else [])) ++ late_callbacks needs m.

(** The evaluation of one message. *)
Definition search_message (needs : search_needs) (m : mail) (args : list mail_search_arg) : option (Z * list mail_search_arg) :=
  '(ret, args) ← search_update_seq needs m args;
  if ret =? 0 then Some (0, args) else search_match_next env needs m args.

Lemma match_once_passes m args : search_match_once env m args = search_passes (once_callbacks m) args.
Proof using text_env.
  unfold search_match_once, once_callbacks. rewrite text_env. cbn [search_passes].
  destruct (mail_search_args_foreach (search_cached_arg m) args) as [[r1 a1]|] eqn:H1; [| done]. cbn [mbind option_bind].
  apply foreach_values in H1. destruct H1 as [-> | [-> | ->]]; [| done | done]. cbn.
  destruct (mail_search_args_foreach (search_text_arg m) a1) as [[r2 a2]|] eqn:H2; [| done]. cbn [mbind option_bind]. by destruct (Z.eqb_spec r2 (-1)) as [-> |].
Qed.

Lemma match_rounds_passes ls m ret args :
  ret = -1 \/ ret = 0 \/ ret = 1 ->
  match_rounds env ls m ret args = if ret =? -1 then search_passes (flat_map (fun l => once_callbacks (lookups env l m)) ls) args else Some (ret, args).
Proof using text_env.
  revert ret args. induction ls as [|l ls IH]; intros ret args Hr; cbn [match_rounds flat_map]; [by destruct Hr as [-> | [-> | ->]] |].
  destruct Hr as [-> | [-> | ->]]; [| done | done]. cbn [Z.ltb Z.compare Z.eqb Pos.eqb]. rewrite match_once_passes, passes_app.
  destruct (search_passes (once_callbacks (lookups env l m)) args) as [[r1 a1]|] eqn:H1; [| done]. cbn [mbind option_bind].
  apply IH. by eapply passes_values.
Qed.

Lemma match_next_passes needs m args : search_match_next env needs m args = search_passes (late_callbacks needs m) args.
Proof using text_env.
  unfold search_match_next, late_callbacks. fold rounds. rewrite passes_app. destruct (have_mailbox_args needs); cbn [search_passes].
  2:{ cbn [mbind option_bind]. rewrite match_rounds_passes by auto. done. }
  destruct (mail_search_args_foreach (search_mailbox_arg m) args) as [[r1 a1]|] eqn:H1; [| done]. cbn [mbind option_bind].
  apply foreach_values in H1. rewrite match_rounds_passes by done. by destruct H1 as [-> | [-> | ->]].
Qed.

Lemma known_passes cbs args : cbs <> [] -> (forall cb, mail_search_args_foreach cb args = Some (1, args)) -> search_passes cbs args = Some (1, args).
Proof. intros Hne H. destruct cbs; [done |]. cbn [search_passes]. by rewrite H. Qed.

Lemma late_callbacks_some needs m : late_callbacks needs m <> [].
Proof. unfold late_callbacks, rounds. destruct (have_mailbox_args needs), (max_mails env >? 1); discriminate. Qed.

Lemma message_passes needs m args : search_message needs m args = search_passes (run_callbacks needs m) args.
Proof using text_env.
  unfold run_callbacks, search_message, search_update_seq.
  destruct (negb (have_seqsets needs) && negb (have_index_args needs)); [apply match_next_passes |].
  cbn [app search_passes]. destruct (mail_search_args_foreach (search_seqset_arg m) args) as [[r1 a1]|] eqn:H1; [| done]. cbn [mbind option_bind].
  assert (Hknown : forall cb a a', mail_search_args_foreach cb a = Some (1, a') -> search_match_next env needs m a' = Some (1, a')).
  { intros cb a a' H. rewrite match_next_passes. apply known_passes; [apply late_callbacks_some | by eapply foreach_match]. }
  destruct (foreach_values _ _ _ _ H1) as [-> | [-> | ->]]; cbn [Z.eqb Pos.eqb negb andb]; [| done |].
  - destruct (have_index_args needs); cbn [app search_passes mbind option_bind]; [| apply match_next_passes].
    destruct (mail_search_args_foreach (search_index_arg m) a1) as [[r2 a2]|] eqn:H2; [| done]. cbn [mbind option_bind].
    destruct (foreach_values _ _ _ _ H2) as [-> | [-> | ->]]; cbn [Z.eqb Pos.eqb]; [apply match_next_passes | done | by eapply Hknown].
  - destruct (have_index_args needs); [rewrite (foreach_match _ _ _ H1) |]; cbn [mbind option_bind Z.eqb]; by eapply Hknown.
Qed.
End Message.

(** ** The arguments between two messages *)

Definition sets_result (cb : arg_value -> option arg_value) : Prop :=
  forall v v', cb v = Some v' -> exists r, v' = put_result r v /\ (r = a_result v \/ -1 <= r <= 1).

Lemma reset_put_result v r subs subs' :
  (if is_type SEARCH_OR v || is_type SEARCH_SUB v then map (reset_arg false) subs' = map (reset_arg false) subs else subs' = subs) ->
  reset_arg false (Arg (put_result r v) subs') = reset_arg false (Arg v subs).
Proof.
  intros H. cbn [reset_arg]. rewrite !reset_false. change (is_type ?t (put_result r v)) with (is_type t v).
  destruct (is_type SEARCH_OR v || is_type SEARCH_SUB v); by rewrite H.
Qed.

Lemma negate_result_put r v : exists r', negate_result (put_result r v) = put_result r' v.
Proof. unfold negate_result. destruct (_ && _); eexists; reflexivity. Qed.

(** A loop over arguments that are changed in their results only. *)
Lemma foreach_subs_reset (f : mail_search_arg -> option mail_search_arg) stop res stop_res subs r subs' :
  Forall (fun s => forall s', f s = Some s' -> reset_arg false s' = reset_arg false s) subs ->
  foreach_subs f stop res stop_res subs = Some (r, subs') -> map (reset_arg false) subs' = map (reset_arg false) subs.
Proof.
  intros Hs. revert res subs'. induction Hs as [|s subs Hf _ IH]; intros res subs'; cbn [foreach_subs]; [by intros [= <- <-] |].
  destruct (if result s =? -1 then f s else Some s) as [s'|] eqn:Hs'; [| discriminate]. cbn [mbind option_bind].
  assert (Hr : reset_arg false s' = reset_arg false s) by (destruct (result s =? -1); [by apply Hf | by injection Hs' as <-]).
  destruct (result s' =? -1); [| destruct (stop (result s')); [intros [= <- <-]; cbn; by rewrite Hr |]].
  all: (destruct (foreach_subs f stop _ stop_res subs) as [[r2 l]|] eqn:Hl; [| discriminate]; cbn [mbind option_bind]; intros [= <- <-];
    cbn; rewrite Hr; f_equal; by eapply IH).
Qed.

Lemma foreach_arg_reset cb a a' : sets_result cb -> search_arg_foreach cb a = Some a' -> reset_arg false a' = reset_arg false a.
Proof.
  intros Hcb. revert a'. induction a as [v subs IH]. intros a'. cbn [search_arg_foreach]. destruct (a_result v =? -1); cbn [negb]; [| by intros [= <-]].
  assert (Hgo : forall stop res stop_res, is_type SEARCH_SUB v = true \/ is_type SEARCH_OR v = true ->
            ('(r, subs) ← foreach_subs (search_arg_foreach cb) stop res stop_res subs; Some (Arg (negate_result (put_result r v)) subs)) = Some a' ->
            reset_arg false a' = reset_arg false (Arg v subs)).
  { intros stop res stop_res Ht. destruct (foreach_subs _ stop res stop_res subs) as [[r subs']|] eqn:Hs; [| discriminate]. cbn [mbind option_bind]. intros [= <-].
    destruct (negate_result_put r v) as [r' ->]. apply reset_put_result. destruct Ht as [-> | ->]; rewrite ?orb_true_r; cbn [orb]; by eapply foreach_subs_reset. }
  destruct (is_type SEARCH_SUB v) eqn:E1.
  { destruct (assert _); [cbn [mbind option_bind] | discriminate]. apply Hgo. by left. }
  destruct (is_type SEARCH_OR v) eqn:E2.
  { destruct (assert _); [cbn [mbind option_bind] | discriminate]. apply Hgo. by right. }
  destruct (cb v) as [v'|] eqn:Hv; [| discriminate]. cbn [mbind option_bind]. intros [= <-]. destruct (Hcb v v' Hv) as (r & -> & _).
  apply reset_put_result. by rewrite E1, E2.
Qed.

Lemma foreach_reset cb args r args' :
  sets_result cb -> mail_search_args_foreach cb args = Some (r, args') -> mail_search_args_reset args' false = mail_search_args_reset args false.
Proof.
  intros Hcb H. unfold mail_search_args_foreach in H. rewrite foreach_loop_subs in H. eapply foreach_subs_reset; [| exact H].
  apply Forall_true. intros s s'. by apply foreach_arg_reset.
Qed.

(** The results that are written for a message are small. *)
Lemma foreach_subs_results (f : mail_search_arg -> option mail_search_arg) stop res stop_res subs r subs' :
  Forall (fun s => forall s', f s = Some s' -> results_ok s = true -> results_ok s' = true) subs -> -1 <= res <= 1 -> -1 <= stop_res <= 1 ->
  foreach_subs f stop res stop_res subs = Some (r, subs') -> forallb results_ok subs = true -> -1 <= r <= 1 /\ forallb results_ok subs' = true.
Proof.
  intros Hs Hres Hstop. revert res subs' Hres. induction Hs as [|s subs Hf _ IH]; intros res subs' Hres; cbn [foreach_subs]; [by intros [= <- <-] |].
  destruct (if result s =? -1 then f s else Some s) as [s'|] eqn:Hs'; [| discriminate]. cbn [mbind option_bind forallb]. intros H Hok. apply andb_true_iff in Hok as [Hok1 Hok2].
  assert (Hr : results_ok s' = true) by (destruct (result s =? -1); [by apply Hf | by injection Hs' as <-]).
  revert H. destruct (result s' =? -1); [| destruct (stop (result s')); [intros [= <- <-]; cbn; by rewrite Hr |]].
  all: (destruct (foreach_subs f stop _ stop_res subs) as [[r2 l]|] eqn:Hl; [| discriminate]; cbn [mbind option_bind]; intros [= <- <-];
    cbn; rewrite Hr; (eapply IH; [| exact Hl | done]); lia).
Qed.

Lemma results_ok_put v r subs' :
  -1 <= r < 255 -> (if has_subargs v then forallb results_ok subs' = true else True) -> results_ok (Arg (put_result r v) subs') = true.
Proof.
  intros Hr Hs. cbn [results_ok a_result put_result]. change (has_subargs (put_result r v)) with (has_subargs v). destruct (has_subargs v); [rewrite Hs |]; lia.
Qed.

Lemma foreach_arg_results cb a a' : sets_result cb -> search_arg_foreach cb a = Some a' -> results_ok a = true -> results_ok a' = true.
Proof.
  intros Hcb. revert a'. induction a as [v subs IH]. intros a'. cbn [search_arg_foreach]. destruct (a_result v =? -1) eqn:Ev; cbn [negb]; [| by intros [= <-]].
  intros H Hok. pose proof Hok as Hok'. cbn [results_ok] in Hok'. apply andb_true_iff in Hok' as [Hv Hsub].
  assert (Hgo : forall stop res stop_res, is_type SEARCH_SUB v = true \/ is_type SEARCH_OR v = true -> -1 <= res <= 1 -> -1 <= stop_res <= 1 ->
            ('(r, subs) ← foreach_subs (search_arg_foreach cb) stop res stop_res subs; Some (Arg (negate_result (put_result r v)) subs)) = Some a' -> results_ok a' = true).
  { intros stop res stop_res Ht H1 H2. destruct (foreach_subs _ stop res stop_res subs) as [[r subs']|] eqn:Hs; [| discriminate]. cbn [mbind option_bind]. intros [= <-].
    assert (Hh : has_subargs v = true) by (unfold has_subargs; destruct Ht as [-> | ->]; by rewrite ?orb_true_r). rewrite Hh in Hsub.
    destruct (foreach_subs_results _ _ _ _ _ _ _ IH H1 H2 Hs Hsub) as [Hr Hok'].
    assert (Hn : exists r', negate_result (put_result r v) = put_result r' v /\ -1 <= r' <= 1).
    { unfold negate_result. cbn [a_match_not a_result put_result]. destruct (a_match_not v && negb (r =? -1)); [destruct (r =? 0) |]; eexists; (split; [reflexivity | lia]). }
    destruct Hn as (r' & -> & Hr'). apply (results_ok_put v r'); [lia | by rewrite Hh]. }
  destruct (is_type SEARCH_SUB v) eqn:E1.
  { destruct (assert _); [cbn [mbind option_bind] in H | discriminate]. revert H. apply Hgo; auto; lia. }
  destruct (is_type SEARCH_OR v) eqn:E2.
  { destruct (assert _); [cbn [mbind option_bind] in H | discriminate]. revert H. apply Hgo; auto; lia. }
  destruct (cb v) as [v'|] eqn:Hcv; [| discriminate]. cbn [mbind option_bind] in H. injection H as <-. destruct (Hcb v v' Hcv) as (r & -> & Hr).
  apply (results_ok_put v r); [lia | by destruct (has_subargs v)].
Qed.

Lemma foreach_results cb args r args' :
  sets_result cb -> mail_search_args_foreach cb args = Some (r, args') -> forallb results_ok args = true -> forallb results_ok args' = true.
Proof.
  intros Hcb H. unfold mail_search_args_foreach in H. rewrite foreach_loop_subs in H. intros Hok. eapply foreach_subs_results; [| | | exact H | done]; [| lia..].
  apply Forall_true. intros s s'. by apply foreach_arg_results.
Qed.

Lemma passes_reset cbs args r args' :
  Forall sets_result cbs -> search_passes cbs args = Some (r, args') ->
  mail_search_args_reset args' false = mail_search_args_reset args false /\ (forallb results_ok args = true -> forallb results_ok args' = true).
Proof.
  intros Hcbs. revert args. induction Hcbs as [|cb cbs Hcb _ IH]; intros args; cbn [search_passes]; [by intros [= _ <-] |].
  destruct (mail_search_args_foreach cb args) as [[r1 a1]|] eqn:H1; [| discriminate]. cbn [mbind option_bind].
  pose proof (foreach_reset _ _ _ _ Hcb H1) as Hr. pose proof (foreach_results _ _ _ _ Hcb H1) as Ho.
  destruct (r1 =? -1); [| intros [= _ <-]; auto]. intros H2. destruct (IH a1 H2) as [Hr2 Ho2]. split; [congruence | auto].
Qed.

(** All callbacks are of this kind. *)
Lemma callbacks_set_result m : sets_result (search_seqset_arg m) /\ sets_result (search_index_arg m) /\ sets_result (search_mailbox_arg m) /\
  sets_result (search_cached_arg m) /\ sets_result (search_text_arg m).
Proof.
  assert (Hid : forall v, exists r, v = put_result r v /\ (r = a_result v \/ -1 <= r <= 1)) by (intros v; exists (a_result v); split; [by destruct v | by left]).
  assert (Hset : forall ret v, exists r, ARG_SET_RESULT (bool_result ret) v = put_result r v /\ (r = a_result v \/ -1 <= r <= 1))
    by (intros [] v; unfold ARG_SET_RESULT; destruct (a_match_not v); eexists; (split; [reflexivity | cbn; lia])).
  assert (Hsm : forall o v v', set_match o v = Some v' -> exists r, v' = put_result r v /\ (r = a_result v \/ -1 <= r <= 1)).
  { intros o v v'. unfold set_match. destruct o as [ret|]; [| discriminate]. cbn [mbind option_bind]. intros [= <-].
    destruct (ret =? -1); [apply Hid |]. destruct (ret =? 0); [apply (Hset false) | apply (Hset true)]. }
  split_and!; intros v v'; [| apply Hsm | apply Hsm | apply Hsm |].
  - unfold search_seqset_arg. destruct (is_type SEARCH_SEQSET v); [| intros [= <-]; apply Hid].
    destruct (seq_range_exists (a_seqset v) (m_seq m)) as [b|]; [| discriminate]. cbn [mbind option_bind]. intros [= <-]. apply Hset.
  - unfold search_text_arg. intros [= <-]. destruct (is_text (a_type v)); [| apply Hid]. eexists. split; [reflexivity |]. right. unfold code. zcases.
Qed.

Lemma run_callbacks_set_result env needs m : Forall sets_result (run_callbacks env needs m) /\ Forall sets_result (once_callbacks m).
Proof.
  assert (Ho : forall m, Forall sets_result (once_callbacks m)) by (intros m'; destruct (callbacks_set_result m') as (_ & _ & _ & ? & ?); by repeat (constructor; [done |])).
  split; [| apply Ho]. destruct (callbacks_set_result m) as (H1 & H2 & H3 & _). unfold run_callbacks, late_callbacks. rewrite !Forall_app. split_and!.
  - destruct (_ && _); [constructor |]. constructor; [done |]. destruct (have_index_args needs); by repeat constructor.
  - destruct (have_mailbox_args needs); by repeat constructor.
  - induction (rounds env) as [|l ls IH]; cbn [flat_map]; [constructor |]. apply Forall_app. by split.
Qed.

(** ** The start of a search *)

Section Start.
Variable thread : Z -> mail -> list mail.
Notation eval := (eval leaf thread).
Notation prepared := (prepared thread).

(** What the arguments need for a message, before the search starts.  The
    result of an INTHREAD is what [search_build_inthreads] has stored. *)
Inductive searchable (m : mail) : mail_search_arg -> Prop :=
  | searchable_group v subs :
      is_group v = true -> a_match_always v && a_nonmatch_always v = false -> subs <> [] -> Forall (searchable m) subs -> searchable m (Arg v subs)
  | searchable_leaf v subs :
      is_group v = false -> a_match_always v && a_nonmatch_always v = false -> (a_type v <> SEARCH_SEQSET -> leaf_ok m v) ->
      (a_type v = SEARCH_INTHREAD -> eval (Arg v subs) m = neg (a_match_not v) (if mem (m_uid m) (a_seqset v) then 2 else 0) /\ forallb results_ok subs = true) ->
      searchable m (Arg v subs).

(** The same with its sets fixed; FLAGS may be known to match always. *)
Inductive primed (m : mail) : mail_search_arg -> Prop :=
  | primed_group v subs :
      is_group v = true -> a_match_always v = false -> a_nonmatch_always v = false -> subs <> [] -> Forall (primed m) subs -> primed m (Arg v subs)
  | primed_leaf v subs :
      is_group v = false -> a_nonmatch_always v = false -> leaf_ok m v ->
      (a_match_always v = true -> a_type v = SEARCH_FLAGS /\ eval (Arg v subs) m = 2) ->
      (a_type v = SEARCH_INTHREAD -> eval (Arg v subs) m = neg (a_match_not v) (if mem (m_uid m) (a_seqset v) then 2 else 0) /\ forallb results_ok subs = true) ->
      primed m (Arg v subs).

Lemma reset_true v :
  a_match_always v && a_nonmatch_always v = false -> reset_value true v = put_result (-1) (put_always false false v).
Proof. unfold reset_value. destruct v; cbn. by destruct a_match_always, a_nonmatch_always. Qed.

Lemma eval_clear v subs m : eval (Arg (put_result (-1) (put_always false false v)) subs) m = eval (Arg v subs) m.
Proof. done. Qed.

(** From the arguments of a search to those after [search_parse_msgset_args]. *)
Lemma fixed_primed m count a a1 :
  0 <= m_seq m -> count < UINT32_MAX -> searchable m a -> fixed_arg count (reset_arg true a) a1 -> primed m a1.
Proof.
  intros Hseq Hc. revert a1. induction a as [v subs IH]. intros a1 Hs Hf. cbn [reset_arg] in Hf. rewrite orb_comm in Hf. fold (is_group v) in Hf.
  inversion Hs as [? ? Hg Hfl Hne Hsub | ? ? Hg Hfl Hok Hi]; subst; rewrite Hg, (reset_true v Hfl) in Hf.
  - inversion Hf as [? ? subs' _ Hs' | ? ? ? Ht | ? ? Hg' _]; subst;
      [| unfold is_group, is_type in Hg; cbn in Ht; by rewrite Ht in Hg | change (is_group v = false) in Hg'; congruence].
    apply primed_group; [done | done | done | |].
    + intros ->. inversion Hs' as [Hx |]. by destruct subs.
    + clear -IH Hsub Hs'. revert subs' Hs'. induction IH as [|s subs Hx _ IHs]; intros subs' Hs'; cbn in Hs'; inversion Hs'; subst; [constructor |].
      inversion Hsub; subst. constructor; auto.
  - inversion Hf as [? ? subs' Hg' _ | ? ? s' Ht Hw Hl Hm | ? ? _ Hnt]; subst.
    + change (is_group v = true) in Hg'. congruence.
    + apply primed_leaf; [done | done | | done |].
      * unfold leaf_ok. cbn [a_type put_seqset]. rewrite Ht. split; [split_and!; [apply (wf_from_wf 1); [lia | done] | done | done] | by eapply fixed_no_star].
      * cbn in Ht |- *. congruence.
    + by apply primed_leaf; auto.
Qed.

Lemma marked_primed hdr m a a' : header_ok hdr m -> primed m a -> marked hdr a a' -> primed m a'.
Proof.
  intros Hh Hp Hm. destruct Hm as [a | v subs Ht Hn Hl]; [done |]. inversion Hp as [? ? Hg | ? ? Hg Hna Hok Hal Hi]; subst.
  - unfold is_group, is_type in Hg. by rewrite Ht in Hg.
  - apply primed_leaf; [done | done | done | | done]. intros _. split; [done |]. cbn [MailSearchEval.eval a_type put_always a_match_not]. rewrite Ht, Hn.
    change (leaf m (put_always _ _ v)) with (leaf m v). by rewrite Hl.
Qed.

Lemma marked_eval hdr a a' m : marked hdr a a' -> eval a' m = eval a m.
Proof. by intros [| v subs Ht Hn _]. Qed.

(** ** Initialisation *)

Definition guid_ok (a : mail_search_arg) : Prop := Forall (fun l => a_type (value l) = SEARCH_MAILBOX_GUID -> is_Some (a_str (value l))) (leaves a).

(** The needs that a leaf puts, and that they only grow. *)
Definition needed (needs : search_needs) (v : arg_value) : Prop :=
  (seqset_type v = true -> have_seqsets needs = true) /\ (index_type v = true -> have_index_args needs = true) /\
  (mailbox_type v = true -> have_mailbox_args needs = true).

Definition needs_le (n n' : search_needs) : Prop :=
  (have_seqsets n = true -> have_seqsets n' = true) /\ (have_index_args n = true -> have_index_args n' = true) /\
  (have_mailbox_args n = true -> have_mailbox_args n' = true).

Lemma needs_le_trans n1 n2 n3 : needs_le n1 n2 -> needs_le n2 n3 -> needs_le n1 n3.
Proof. unfold needs_le. naive_solver. Qed.

Lemma needed_le n n' v : needs_le n n' -> needed n v -> needed n' v.
Proof. unfold needs_le, needed. naive_solver. Qed.

(** A leaf that is known in advance. *)
Lemma decided_prepared m v subs (b : bool) :
  primed m (Arg v subs) -> is_group v = false -> a_type v <> SEARCH_FLAGS -> eval (Arg v subs) m = (if b then 2 else 0) ->
  prepared m (Arg (if b then put_always true (a_nonmatch_always v) v else put_always (a_match_always v) true v) subs).
Proof.
  intros Hp Hg Ht He. inversion Hp as [| ? ? _ Hna Hok Hal Hi]; subst; [congruence |].
  assert (Hma : a_match_always v = false) by (destruct (a_match_always v); [by destruct (Hal eq_refl) | done]).
  destruct b; apply prepared_leaf; cbn [a_type a_match_always a_nonmatch_always a_match_not a_seqset put_always]; try done; try congruence; auto.
Qed.

(** What [search_init_arg] makes of a leaf. *)
Lemma search_init_arg_spec guid v needs :
  (a_type v = SEARCH_MAILBOX_GUID -> is_Some (a_str v)) ->
  exists b1 b2 needs', search_init_arg guid v needs = Some (put_always b1 b2 v, needs') /\ needs_le needs needs' /\ needed needs' v /\
    forall m subs, guid = m_mailbox_guid m -> primed m (Arg v subs) -> is_group v = false -> prepared m (Arg (put_always b1 b2 v) subs).
Proof.
  intros Hs.
  assert (Hid : put_always (a_match_always v) (a_nonmatch_always v) v = v) by (by destruct v).
  assert (Hkeep : (a_type v <> SEARCH_ALL /\ a_type v <> SEARCH_MAILBOX_GUID) -> forall m subs, primed m (Arg v subs) -> is_group v = false -> prepared m (Arg v subs)).
  { intros [Hn1 Hn2] m subs Hp Hg. inversion Hp as [| ? ? _ Hna Hok Hal Hi]; subst; [congruence |].
    apply prepared_leaf; [done | done | by intros H; apply Hal | congruence | tauto | done]. }
  unfold search_init_arg, needed, needs_le, seqset_type, index_type, mailbox_type, is_type.
  destruct (a_type v) eqn:E;
    try (exists (a_match_always v), (a_nonmatch_always v); rewrite Hid; eexists; split_and!; [reflexivity | done.. |]; intros m subs _; by apply Hkeep).
  - assert (He : forall m subs, eval (Arg v subs) m = neg (a_match_not v) 2) by (intros; cbn [MailSearchEval.eval]; rewrite E; unfold leaf; by rewrite E).
    destruct (a_match_not v); cbn [negb].
    + exists (a_match_always v), true. eexists. split_and!; [reflexivity | done.. |]. intros m subs _ Hp Hg. apply (decided_prepared m v subs false); [done | done | congruence | apply He].
    + exists true, (a_nonmatch_always v). eexists. split_and!; [reflexivity | done.. |]. intros m subs _ Hp Hg. apply (decided_prepared m v subs true); [done | done | congruence | apply He].
  - destruct (Hs eq_refl) as [s Hstr]. rewrite Hstr. cbn [mbind option_bind].
    assert (He : forall m subs, eval (Arg v subs) m = neg (a_match_not v) (tri_of (guid ← m_mailbox_guid m; Some (bool_result (bool_decide (guid = s))))))
      by (intros m subs; cbn [MailSearchEval.eval]; rewrite E; unfold leaf; rewrite E, Hstr; by destruct (m_mailbox_guid m)).
    destruct guid as [g|].
    + assert (Hp : forall m subs b, Some g = m_mailbox_guid m -> negb (Bool.eqb (bool_decide (g = s)) (a_match_not v)) = b -> primed m (Arg v subs) -> is_group v = false ->
                prepared m (Arg (if b then put_always true (a_nonmatch_always v) v else put_always (a_match_always v) true v) subs)).
      { intros m subs b Hm Hb Hp Hg. apply decided_prepared; [done | done | congruence |]. rewrite He, <- Hm. cbn [mbind option_bind]. rewrite tri_of_bool, <- Hb.
        by destruct (bool_decide (g = s)), (a_match_not v). }
      destruct (negb (Bool.eqb (bool_decide (g = s)) (a_match_not v))) eqn:Hb.
      * exists true, (a_nonmatch_always v). eexists. split_and!; [reflexivity | done.. |]. intros m subs Hm Hpr Hg. by apply (Hp m subs true).
      * exists (a_match_always v), true. eexists. split_and!; [reflexivity | done.. |]. intros m subs Hm Hpr Hg. by apply (Hp m subs false).
    + exists (a_match_always v), (a_nonmatch_always v). rewrite Hid. eexists. split_and!; [reflexivity | done.. |]. intros m subs Hm Hp Hg.
      inversion Hp as [| ? ? _ Hna Hok Hal Hi]; subst; [congruence |]. apply prepared_leaf; [done | done | by intros H; apply Hal | congruence | | congruence].
      intros _. right. right. rewrite He, <- Hm. cbn. apply neg_one.
Qed.

(** The initialisation of a tree. *)
Definition initialised (needs needs' : search_needs) (guid : option (list Z)) (a a' : mail_search_arg) : Prop :=
  needs_le needs needs' /\ Forall (fun l => needed needs' (value l)) (leaves a') /\
  forall m, (guid = m_mailbox_guid m -> primed m a -> prepared m a') /\ eval a' m = eval a m.

Lemma init_list_spec guid l needs :
  Forall (fun a => forall needs, exists a' needs', init_arg guid a needs = Some (a', needs') /\ initialised needs needs' guid a a') l ->
  exists l' needs', init_list (init_arg guid) l needs = Some (l', needs') /\ needs_le needs needs' /\
    Forall (fun l => needed needs' (value l)) (flat_map leaves l') /\
    Forall2 (fun a a' => forall m, (guid = m_mailbox_guid m -> primed m a -> prepared m a') /\ eval a' m = eval a m) l l'.
Proof.
  intros Hl. revert needs. induction Hl as [|a l Ha _ IH]; intros needs; cbn [init_list].
  { exists [], needs. by split_and!; [| unfold needs_le | constructor | constructor]. }
  destruct (Ha needs) as (a' & n1 & -> & Hle1 & Hn1 & Hm1). cbn [mbind option_bind]. destruct (IH n1) as (l' & n2 & -> & Hle2 & Hn2 & Hm2). cbn [mbind option_bind].
  exists (a' :: l'), n2. split_and!; [done | by eapply needs_le_trans | | by constructor]. cbn. apply Forall_app. split; [| done].
  eapply Forall_impl; [exact Hn1 |]. intros x. by apply needed_le.
Qed.

Lemma init_arg_spec guid a needs : guid_ok a -> exists a' needs', init_arg guid a needs = Some (a', needs') /\ initialised needs needs' guid a a'.
Proof.
  revert needs. induction a as [v subs IH]. intros needs Hg. unfold guid_ok in Hg. cbn [init_arg leaves] in *. fold (is_group v). destruct (is_group v) eqn:E.
  - destruct (init_list_spec guid subs needs) as (l' & n' & -> & Hle & Hn & Hm).
    { clear -IH Hg. induction IH as [|s subs Hs _ IHs]; [constructor |]. cbn in Hg. apply Forall_app in Hg as [? ?]. constructor; [intros n; by apply Hs | auto]. }
    cbn [mbind option_bind]. exists (Arg v l'), n'. split; [done |]. split_and!; [done | cbn [leaves]; by rewrite E |]. intros m. split.
    + intros Hgm Hp. inversion Hp as [? ? _ H1 H2 Hne Hs | ? ? Hx]; subst; [| congruence]. apply prepared_group; [done | done | done | |].
      * intros ->. inversion Hm; subst. done.
      * clear -Hs Hm. induction Hm as [|s s' subs l' Hx _ IHm]; inversion Hs; subst; constructor; [by apply Hx | auto].
    + assert (Hmap : map (fun s => eval s m) l' = map (fun s => eval s m) subs) by (clear -Hm; induction Hm as [|s s' subs l' Hx _ IHm]; cbn; [done | by rewrite IHm, (proj2 (Hx m))]).
      cbn [MailSearchEval.eval]. unfold is_group, is_type in E. destruct (a_type v); try discriminate E; by rewrite Hmap.
  - inversion Hg as [| ? ? Hs _]; subst. cbn [value] in Hs. destruct (search_init_arg_spec guid v needs Hs) as (b1 & b2 & n' & -> & Hle & Hn & Hp). cbn [mbind option_bind].
    exists (Arg (put_always b1 b2 v) subs), n'. split; [done |]. split_and!; [done | | intros m; split; [intros; by apply Hp | done]].
    cbn [leaves]. change (is_group (put_always b1 b2 v)) with (is_group v). rewrite E. by constructor.
Qed.

(** ** The range *)

(** What the header is asked about does not depend on the sets. *)
Lemma limit_ok_fixed hdr count a a1 : a_match_always (value a) && a_nonmatch_always (value a) = false -> fixed_arg count (reset_arg true a) a1 -> limit_ok hdr a -> limit_ok hdr a1.
Proof.
  destruct a as [v subs]. intros Hal Hf. cbn [value] in Hal. cbn [reset_arg] in Hf. rewrite (reset_true v Hal) in Hf. unfold limit_ok.
  by destruct (is_type SEARCH_OR v || is_type SEARCH_SUB v); inversion Hf; subst.
Qed.

Lemma eval_all_nonzero args m : eval_list leaf thread true args m = 2 -> Forall (fun a => eval a m <> 0) args.
Proof.
  unfold eval_list. intros H. apply Forall_forall. intros a Ha. apply (conj_all_nonzero (map (fun a => eval a m) args)); [apply evals_tri, leaf_range | lia |].
  by apply list_elem_of_In, (in_map (fun a => eval a m)), list_elem_of_In.
Qed.

(** The range holds every message that matches. *)
Lemma get_seqset_spec hdr count args :
  1 <= count < UINT32_MAX -> Forall (range_ok count) (mail_search_args_reset args true) -> Forall (limit_ok hdr) args ->
  Forall (fun a => a_match_always (value a) && a_nonmatch_always (value a) = false) args ->
  exists args1 args2 s1 s2, search_get_seqset hdr count (mail_search_args_reset args true) = Some (args2, (s1, s2)) /\
    Forall2 (fixed_arg count) (mail_search_args_reset args true) args1 /\ Forall2 (marked hdr) args1 args2 /\
    forall m, header_ok hdr m -> 1 <= m_seq m <= count -> eval_list leaf thread true args1 m = 2 -> s1 <= m_seq m <= s2.
Proof.
  intros Hc Hr Hl Hal. unfold search_get_seqset. destruct (Z.eqb_spec count 0); [lia |].
  destruct (and_loop_spec thread count (mail_search_args_reset args true) 1 count) as (args1 & [s1 s2] & Hp & H1 & Hf & Hk); [| lia |].
  { eapply Forall_impl; [exact Hr |]. intros a. by apply range_ok_parsed. }
  unfold search_parse_msgset_args. rewrite Hp. cbn [mbind option_bind fst snd] in *. destruct (Z.eqb_spec s1 0); [lia |].
  assert (Hrefl : Forall2 (marked hdr) args1 args1) by (clear; induction args1; constructor; [constructor | done]).
  assert (Hin : forall m, 1 <= m_seq m <= count -> eval_list leaf thread true args1 m = 2 -> s1 <= m_seq m <= s2).
  { intros m Hm He. apply (Hk m); [done | done |]. by apply eval_all_nonzero. }
  destruct (s1 >? s2). { exists args1, args1, s1, s2. split_and!; auto. }
  destruct (limit_by_hdr_spec thread hdr args1 s1 s2) as (ret & args2 & t & -> & Hmk & Hlim).
  { clear -Hf Hl Hal. unfold mail_search_args_reset in Hf. revert args1 Hf. induction args as [|a args IH]; intros args1 Hf; inversion Hf; subst; [constructor |].
    inversion Hl; inversion Hal; subst. constructor; [by eapply limit_ok_fixed | auto]. }
  cbn [mbind option_bind]. destruct Hlim as [_ Hlim].
  assert (Hin2 : forall m, header_ok hdr m -> 1 <= m_seq m <= count -> eval_list leaf thread true args1 m = 2 -> ret = true /\ t <= m_seq m <= s2).
  { intros m Hh Hm He. destruct (Hlim m Hh (Hin m Hm He)) as [-> Ht]; [by apply eval_all_nonzero |]. split; [done |]. specialize (Hin m Hm He). lia. }
  destruct ret; cbn [negb]; eexists args1, args2, _, _; (split_and!; [reflexivity | done | done |]); intros m Hh Hm He; by destruct (Hin2 m Hh Hm He).
Qed.

(** ** The messages *)

Lemma reset_again args : mail_search_args_reset (mail_search_args_reset args false) false = mail_search_args_reset args false.
Proof.
  unfold mail_search_args_reset. rewrite map_map. apply map_ext. intros a. induction a as [v subs IH]. cbn [reset_arg]. rewrite !reset_false.
  change (is_type ?t (put_result ?r v)) with (is_type t v). destruct (is_type SEARCH_OR v || is_type SEARCH_SUB v); [| by destruct v].
  f_equal. rewrite map_map. apply map_ext_Forall. exact IH.
Qed.

Lemma forget_reset a : forget (reset_arg false a) = forget a.
Proof.
  induction a as [v subs IH]. cbn [reset_arg]. rewrite reset_false. cbn [forget]. set (r := if a_match_always v then 1 else _).
  change (has_subargs (put_result r v)) with (has_subargs v). f_equal. unfold has_subargs. destruct (is_type SEARCH_OR v || is_type SEARCH_SUB v); cbn [orb]; [| done].
  rewrite map_map. apply map_ext_Forall. exact IH.
Qed.

Lemma reset_forget l l' : mail_search_args_reset l false = mail_search_args_reset l' false -> map forget l = map forget l'.
Proof.
  intros H. assert (Hx : forall l, map forget (mail_search_args_reset l false) = map forget l)
    by (intros; unfold mail_search_args_reset; rewrite map_map; apply map_ext, forget_reset). by rewrite <- (Hx l), H.
Qed.

Lemma prepared_results m args : Forall (prepared m) args -> forallb results_ok (mail_search_args_reset args false) = true.
Proof.
  assert (Hl : forall l, Forall (fun a => prepared m a -> results_ok (reset_arg false a) = true) l -> Forall (prepared m) l -> forallb results_ok (map (reset_arg false) l) = true).
  { induction 1 as [|a l Ha _ IH]; intros H; inversion H; subst; [done |]. cbn. rewrite Ha, IH by done. done. }
  apply Hl, Forall_true. intros a. induction a as [v subs IH]. intros Hp. cbn [reset_arg]. rewrite reset_false. apply results_ok_put.
  { destruct (a_match_always v), (a_nonmatch_always v); lia. }
  inversion Hp as [? ? Hg _ _ _ Hs | ? ? Hg _ _ _ _ Hi]; subst; unfold has_subargs; unfold is_group in Hg; rewrite orb_comm in Hg; rewrite Hg; cbn [orb]; [by apply Hl |].
  destruct (is_type SEARCH_INTHREAD v) eqn:E; [| done]. apply is_type_true in E. by apply Hi.
Qed.

Section Run.
Variable env : search_env.
Hypothesis text_env : search_text env = search_text_arg.
Hypothesis no_stop : stop_on_nonmatch env = false.
Hypothesis some_mails : 1 <= max_mails env.
Variables (needs : search_needs) (args : list mail_search_arg).
Hypothesis args_needed : Forall (fun l => needed needs (value l)) (flat_map leaves args).
Notation args0 := (mail_search_args_reset args false).
Notation value_of m := (eval_list leaf thread true args m).

(** The arguments fit the message, and so do lookups that may be aborted. *)
Definition runs (m : mail) : Prop := Forall (prepared m) args /\ forall l, lesser m (aborted_lookups env l m).

Lemma run_decides m : runs m -> Forall (fun cb => exists mine, decides thread m mine cb) (run_callbacks env needs m ++ once_callbacks m).
Proof.
  intros [_ Hl]. set (D := fun cb => exists mine, decides thread m mine cb).
  assert (Hopt : forall (b : bool) cb, D cb -> Forall D (if b then [cb] else [])) by (intros [] cb Hcb; constructor; [done | constructor]).
  assert (Honce : Forall D (once_callbacks m)) by (constructor; [exists cached_type; apply cached_decides | constructor; [eexists; apply text_decides | constructor]]).
  rewrite Forall_app. split; [| done]. unfold run_callbacks, late_callbacks. rewrite !Forall_app. split_and!.
  - destruct (_ && _); [constructor |]. constructor; [exists seqset_type; apply seqset_decides |]. apply Hopt. exists index_type. apply index_decides.
  - apply Hopt. exists mailbox_type. apply mailbox_decides.
  - induction (rounds env) as [|l ls IH]; cbn [flat_map]; [constructor |]. apply Forall_app. split; [| done]. destruct l; [done | |].
    all: (constructor; [eexists; apply lesser_cached_decides, Hl | constructor; [eexists; apply lesser_text_decides, Hl | constructor]]).
Qed.

Lemma run_covers m : Forall (fun l => covers m (run_callbacks env needs m ++ once_callbacks m) (value l)) (flat_map leaves args).
Proof using args_needed.
  eapply Forall_impl; [exact args_needed |]. intros l (N1 & N2 & N3). unfold run_callbacks, late_callbacks, once_callbacks.
  split; intros; rewrite !elem_of_app, ?elem_of_cons; auto 8.
  - left. left. rewrite N1 by done. cbn. by left.
  - left. left. rewrite N2 by done. rewrite andb_false_r. rewrite !elem_of_cons. auto.
  - left. right. left. rewrite N3 by done. by left.
Qed.

(** A message is evaluated to its value, or a further round does it.  What is
    left of the arguments does not matter to the next message. *)
Lemma search_message_spec m :
  runs m -> exists r args1, search_message env needs m args0 = Some (r, args1) /\ (r = -1 \/ r = 0 \/ r = 1) /\
    mail_search_args_reset args1 false = args0 /\ forallb results_ok args1 = true /\
    if r =? -1 then exists args2, search_match_once env m args1 = Some (code (value_of m), args2) /\ mail_search_args_reset args2 false = args0
    else r = code (value_of m).
Proof using text_env args_needed.
  intros Hm. destruct (search_spec thread m (run_callbacks env needs m ++ once_callbacks m) args) as (a' & H); [apply Hm | | by apply run_decides | apply run_covers |].
  { by destruct (run_callbacks env needs m). }
  rewrite passes_app in H. rewrite message_passes by done. destruct (run_callbacks_set_result env needs m) as [S1 S2].
  destruct (search_passes (run_callbacks env needs m) args0) as [[r a1]|] eqn:H1; [| discriminate]. cbn [mbind option_bind] in H.
  destruct (passes_reset _ _ _ _ S1 H1) as [R1 O1]. rewrite reset_again in R1. specialize (O1 (prepared_results m args (proj1 Hm))).
  exists r, a1. split_and!; [done | by eapply passes_values | done | done |].
  destruct (r =? -1); [| by injection H]. rewrite match_once_passes by done. exists a'. split; [done |].
  destruct (passes_reset _ _ _ _ S2 H) as [R2 _]. congruence.
Qed.

(** The messages to be found, and a mail of the prefetch buffer. *)
Definition wanted (l : list mail) : list mail := filter (fun m => value_of m = 2) l.

Definition pending_ok (p : mail * option (list Z)) : Prop :=
  match p.2 with
  | None => value_of p.1 = 2
  | Some data =>
      exists args1 args2, data = mail_search_args_result_serialize args1 /\ forallb results_ok args1 = true /\ mail_search_args_reset args1 false = args0 /\
        search_match_once env p.1 args1 = Some (code (value_of p.1), args2) /\ mail_search_args_reset args2 false = args0
  end.

Lemma wanted_app l l' : wanted (l ++ l') = wanted l ++ wanted l'.
Proof. apply filter_app. Qed.

Lemma wanted_none m l : value_of m <> 2 -> wanted l = [] -> wanted (m :: l) = [].
Proof. intros Hm Hl. unfold wanted. rewrite filter_cons, decide_False by done. exact Hl. Qed.

Lemma code_zero x : code x = 0 -> x <> 2.
Proof. unfold code. zcases. Qed.

Lemma code_one x : code x = 1 -> x = 2.
Proof. unfold code. zcases. Qed.

(** One step of the loop over the messages. *)
Lemma next_mail_step m ahead :
  runs m ->
  (value_of m <> 2 /\ search_next_mail env needs (m :: ahead) args0 = search_next_mail env needs ahead args0) \/
  exists d, pending_ok (m, d) /\ search_next_mail env needs (m :: ahead) args0 = Some (Some (m, d), ahead, args0).
Proof using text_env no_stop args_needed.
  intros Hm. destruct (search_message_spec m Hm) as (r & args1 & Hs & Hr & R1 & O1 & Hval). unfold search_message in Hs. cbn [search_next_mail].
  destruct (search_update_seq needs m args0) as [[ret a]|]; [| discriminate]. cbn [mbind option_bind] in *. rewrite no_stop.
  destruct (ret =? 0); [| rewrite Hs; cbn [mbind option_bind]].
  { injection Hs as <- <-. cbn [Z.eqb] in Hval. left. rewrite R1. split; [by apply code_zero | done]. }
  destruct Hr as [-> | [-> | ->]]; cbn [Z.eqb Pos.eqb Z.ltb Z.compare negb] in *; rewrite R1.
  - right. destruct Hval as (args2 & Hs2 & R2). eexists. split; [| reflexivity]. exists args1, args2. by split_and!.
  - left. split; [by apply code_zero | done].
  - right. eexists. split; [| reflexivity]. by apply code_one.
Qed.

Lemma next_mail_spec ahead :
  Forall runs ahead ->
  exists found ahead', search_next_mail env needs ahead args0 = Some (found, ahead', args0) /\
    match found with
    | None => ahead' = [] /\ wanted ahead = []
    | Some p => pending_ok p /\ exists skipped, ahead = skipped ++ p.1 :: ahead' /\ wanted skipped = []
    end.
Proof using text_env no_stop args_needed.
  induction 1 as [|m ahead Hm _ (found & ahead' & Heq & IH)]; [by exists None, [] |].
  destruct (next_mail_step m ahead Hm) as [[Hv ->] | (d & Hd & ->)].
  - exists found, ahead'. split; [done |]. destruct found as [p|]; [| destruct IH; split; [done | by apply wanted_none]].
    destruct IH as (Hp & skipped & -> & Hs). split; [done |]. exists (m :: skipped). split; [done | by apply wanted_none].
  - exists (Some (m, d)), ahead. split; [done |]. split; [done |]. by exists [].
Qed.

(** The states of a search, and what it has still to return. *)
Record inv (st : search_state) : Prop := {
  inv_args : mail_search_args_reset (s_args st) false = args0;
  inv_ahead : Forall runs (s_ahead st);
  inv_mails : Forall pending_ok (s_mails st);
}.

Definition answers (st : search_state) : list mail := wanted (map fst (s_mails st)) ++ wanted (s_ahead st).

(** [p] is returned from [st], which leaves [st']. *)
Definition returned (st : search_state) (p : mail) (st' : search_state) : Prop :=
  inv st' /\ answers st = wanted [p] ++ answers st' /\ (search_left st' < search_left st)%nat.

Lemma next_prefetched_spec p mails args1 ahead :
  inv (SearchState args1 ahead (p :: mails)) ->
  next_prefetched (SearchState args1 ahead (p :: mails)) = Some (Some p, SearchState args1 ahead mails) /\ pending_ok p /\
  returned (SearchState args1 ahead (p :: mails)) p.1 (SearchState args1 ahead mails).
Proof.
  intros [H1 H2 H3]. cbn [s_args s_ahead s_mails] in *. inversion H3; subst. split_and!; [done | done |]. split_and!; [by split | | cbn; lia].
  unfold answers. cbn [s_mails s_ahead map]. change (p.1 :: map fst mails) with ([p.1] ++ map fst mails). by rewrite wanted_app, app_assoc.
Qed.

Lemma prefetching_spec fuel st :
  inv st -> (length (s_ahead st) < fuel)%nat ->
  exists found st', search_more_with_prefetching env fuel needs st = Some (found, st') /\
    match found with None => answers st = [] | Some p => pending_ok p /\ returned st p.1 st' end.
Proof using text_env no_stop args_needed some_mails.
  revert st. induction fuel as [|fuel IH]; intros [args1 ahead mails] Hinv Hf; [lia |]. cbn [search_more_with_prefetching s_mails].
  destruct (Z.eqb_spec (Z.of_nat (length mails)) (max_mails env)) as [Hfull | _].
  { destruct mails as [|p mails]; [cbn in Hfull; lia |]. destruct (next_prefetched_spec p mails args1 ahead Hinv) as (-> & ? & ?). by eexists _, _. }
  destruct Hinv as [Ha Hah Hml]. cbn [s_args s_ahead s_mails] in Ha, Hah, Hml, Hf. unfold search_more_with_mail. cbn [s_ahead s_args s_mails]. rewrite Ha.
  destruct (next_mail_spec ahead Hah) as (found & ahead' & -> & Hfound). cbn [mbind option_bind]. destruct found as [p|].
  - destruct Hfound as (Hp & skipped & -> & Hs). apply Forall_app in Hah as [_ Hah]. inversion Hah as [| ? ? _ Hah']; subst. rewrite length_app in Hf. cbn in Hf.
    assert (Hw : wanted (skipped ++ p.1 :: ahead') = wanted [p.1] ++ wanted ahead')
      by (change (p.1 :: ahead') with ([p.1] ++ ahead'); by rewrite !wanted_app, Hs).
    cbn [s_mails s_args s_ahead]. destruct (mail_prefetch env p.1 && (length mails =? 0)%nat) eqn:E.
    + apply andb_true_iff in E as [_ E]. destruct mails; [| done]. eexists _, _. split; [reflexivity |]. split; [done |]. split_and!.
      * split; cbn [s_args s_ahead s_mails]; [apply reset_again | done | done].
      * unfold answers. cbn [s_mails s_ahead map]. by rewrite Hw.
      * unfold search_left. cbn. rewrite length_app. cbn. lia.
    + destruct (IH (SearchState args0 ahead' (mails ++ [p]))) as (found & st' & -> & Hr).
      { split; cbn [s_args s_ahead s_mails]; [apply reset_again | done |]. apply Forall_app. split; [done |]. by constructor. }
      { cbn. lia. }
      exists found, st'. split; [done |]. assert (Hans : answers (SearchState args1 (skipped ++ p.1 :: ahead') mails) = answers (SearchState args0 ahead' (mails ++ [p]))).
      { unfold answers. cbn [s_mails s_ahead]. rewrite Hw, map_app, wanted_app, <- app_assoc. done. }
      rewrite Hans. destruct found as [q|]; [| done]. destruct Hr as (Hq & Hi & Hansq & Hlt). split; [done |]. split_and!; [done | by rewrite Hans |].
      unfold search_left in *. cbn in *. rewrite length_app in Hlt |- *. cbn in *. lia.
  - destruct Hfound as [-> Hw]. cbn [s_mails]. destruct mails as [|p mails].
    + eexists _, _. split; [reflexivity |]. unfold answers. cbn. exact Hw.
    + destruct (next_prefetched_spec p mails args0 []) as (-> & Hp & Hi & Hans & Hlt); [split; cbn [s_args s_ahead s_mails]; [apply reset_again | constructor | done] |].
      eexists _, _. split; [reflexivity |]. split; [done |]. split_and!; [done | | unfold search_left in *; cbn in *; lia].
      rewrite <- Hans. unfold answers. cbn [s_mails s_ahead]. by rewrite Hw.
Qed.

(** The results that were kept are those that the last round goes on from. *)
Lemma finish_prefetch_spec p data st :
  inv st -> pending_ok (p, Some data) ->
  exists st', search_finish_prefetch env p data st = Some (bool_decide (value_of p = 2), st') /\ inv st' /\ answers st' = answers st /\ search_left st' = search_left st.
Proof.
  intros [H1 H2 H3] (args1 & args2 & -> & Ho & R1 & Hs & R2). cbn [fst] in Hs. unfold search_finish_prefetch.
  rewrite result_roundtrip by (done || apply reset_forget; congruence). cbn [mbind option_bind]. rewrite Hs. cbn [mbind option_bind].
  assert (code (value_of p) >? 0 = bool_decide (value_of p = 2)) as ->.
  { unfold code. case_bool_decide as Hv; [by rewrite Hv |]. destruct (Z.eqb_spec (value_of p) 0); [done |]. by destruct (Z.eqb_spec (value_of p) 2). }
  eexists. split; [reflexivity |]. by split_and!.
Qed.

Lemma search_more_spec fuel st :
  inv st -> (search_left st < fuel)%nat ->
  exists found st', search_more env fuel needs st = Some (found, st') /\
    match found with None => answers st = [] | Some m => inv st' /\ answers st = m :: answers st' /\ (search_left st' < search_left st)%nat end.
Proof using text_env no_stop args_needed some_mails.
  revert st. induction fuel as [|fuel IH]; intros st Hinv Hf; [lia |]. cbn [search_more].
  destruct (prefetching_spec (S (length (s_ahead st))) st Hinv) as (found & st1 & -> & Hr); [lia |]. cbn [mbind option_bind].
  destruct found as [[p d]|]; [| by exists None, st1]. destruct Hr as (Hp & Hi1 & Ha1 & Hl1). cbn [fst] in Ha1.
  assert (Hw : wanted [p] = if decide (value_of p = 2) then [p] else []) by (unfold wanted; rewrite filter_cons; by destruct (decide _)).
  destruct d as [data|].
  - destruct (finish_prefetch_spec p data st1 Hi1 Hp) as (st2 & -> & Hi2 & Ha2 & Hl2). cbn [mbind option_bind]. rewrite no_stop, Ha1, Hw. case_bool_decide as Hv.
    + rewrite decide_True by done. eexists (Some p), st2. split; [done |]. rewrite Ha2. split_and!; [done | done | lia].
    + rewrite decide_False by done. destruct (IH st2 Hi2) as (found & st' & -> & Hfound); [lia |]. exists found, st'. split; [done |]. rewrite <- Ha2.
      destruct found; [| done]. destruct Hfound as (? & ? & ?). split_and!; [done | done | lia].
  - exists (Some p), st1. split; [done |]. rewrite Ha1, Hw, decide_True by exact Hp. by split_and!.
Qed.

Lemma search_messages_spec fuel st :
  inv st -> (search_left st < fuel)%nat -> search_messages env fuel needs st = Some (map m_seq (answers st)).
Proof using text_env no_stop args_needed some_mails.
  revert st. induction fuel as [|fuel IH]; intros st Hinv Hf; [lia |]. cbn [search_messages].
  destruct (search_more_spec (S (search_left st)) st Hinv) as (found & st' & -> & Hr); [lia |]. cbn [mbind option_bind].
  destruct found as [m|]; [| by rewrite Hr]. destruct Hr as (Hi & -> & Hl). rewrite IH by (done || lia). done.
Qed.
End Run.

(** ** The whole search *)

Lemma primed_guid m a : primed m a -> guid_ok a.
Proof.
  unfold guid_ok. induction a as [v subs IH]. intros Hp. cbn [leaves]. inversion Hp as [? ? Hg _ _ _ Hs | ? ? Hg _ Hok _ _]; subst; rewrite Hg.
  - clear -IH Hs. induction IH; inversion Hs; subst; cbn; [constructor |]. apply Forall_app. auto.
  - constructor; [| constructor]. cbn [value]. intros Ht. unfold leaf_ok in Hok. by rewrite Ht in Hok.
Qed.

Lemma eval_list_eq l l' m : Forall2 (fun a a' => eval a' m = eval a m) l l' -> eval_list leaf thread true l' m = eval_list leaf thread true l m.
Proof. intros H. unfold eval_list. f_equal. induction H as [|a a' l l' Ha _ IH]; cbn; [done | by rewrite Ha, IH]. Qed.

Lemma filter_ext (P Q : mail -> Prop) `{!forall m, Decision (P m), !forall m, Decision (Q m)} l :
  Forall (fun m => P m <-> Q m) l -> filter P l = filter Q l.
Proof. induction 1 as [|m l Hm _ IH]; [done |]. rewrite !filter_cons, IH. destruct (decide (P m)), (decide (Q m)); tauto || done. Qed.

Lemma filter_range (P Q : mail -> Prop) `{!forall m, Decision (P m), !forall m, Decision (Q m)} l :
  Forall (fun m => P m -> Q m) l -> filter P (filter Q l) = filter P l.
Proof.
  induction 1 as [|m l Hm _ IH]; [done |]. rewrite !filter_cons. destruct (decide (Q m)); [rewrite filter_cons, IH; done |].
  destruct (decide (P m)); [tauto | done].
Qed.

(** What is asked of the environment of a search. *)
Record env_ok (env : search_env) : Prop := {
  env_text : search_text env = search_text_arg;
  env_no_stop : stop_on_nonmatch env = false;
  env_some_mails : 1 <= max_mails env;
}.

(** Removing the nonexistent messages from the sets makes no difference to a
    message that exists. *)
Lemma fixed_eval count m a a1 :
  1 <= m_seq m <= count -> m_last m = (m_seq m =? count) -> count < UINT32_MAX -> searchable m a -> range_ok count (reset_arg true a) ->
  fixed_arg count (reset_arg true a) a1 -> eval a1 m = eval a m.
Proof.
  intros Hm Hlast Hc. revert a1. induction a as [v subs IH]. intros a1 Hs Hr Hf. cbn [reset_arg] in Hr, Hf. rewrite orb_comm in Hr, Hf. fold (is_group v) in Hr, Hf.
  assert (Hfl : a_match_always v && a_nonmatch_always v = false) by (by inversion Hs). rewrite (reset_true v Hfl) in Hr, Hf.
  destruct (is_group v) eqn:Hg.
  - assert (Hx : Forall (range_ok count) (map (reset_arg true) subs) /\ exists subs', a1 = Arg (put_result (-1) (put_always false false v)) subs' /\ Forall2 (fixed_arg count) (map (reset_arg true) subs) subs').
    { split; [inversion Hr as [| ? ? Ht | ? ? Hg']; subst; [done | | change (is_group v = false) in Hg'; congruence] |
              inversion Hf as [| ? ? ? Ht | ? ? Hg']; subst; [eauto | | change (is_group v = false) in Hg'; congruence]];
        cbn in Ht; unfold is_group, is_type in Hg; by rewrite Ht in Hg. }
    destruct Hx as (Hrs & subs' & -> & Hfs). inversion Hs as [? ? _ _ _ Hss | ? ? Hg']; subst; [| congruence].
    assert (Hmap : map (fun s => eval s m) subs' = map (fun s => eval s m) subs).
    { clear -IH Hss Hrs Hfs. revert subs' Hfs. induction IH as [|s subs Hx _ IHs]; intros subs' Hfs; cbn in *; inversion Hfs; subst; [done |].
      inversion Hss; inversion Hrs; subst. cbn. f_equal; auto. }
    cbn [MailSearchEval.eval a_type put_result put_always a_match_not]. unfold is_group, is_type in Hg. by destruct (a_type v); try discriminate Hg; rewrite Hmap.
  - inversion Hf as [? ? ? Hg' | ? ? s' Ht Hw Hl Hmem |]; subst; [change (is_group v = true) in Hg'; congruence | | done].
    inversion Hr as [? ? Hg' | ? ? _ Hok _ | ? ? _ Ht']; subst; [change (is_group v = true) in Hg'; congruence | | done]. cbn in Ht, Hok, Hmem.
    cbn [MailSearchEval.eval a_type put_seqset put_result put_always a_match_not]. rewrite Ht. f_equal. unfold leaf. cbn [a_type put_seqset put_result put_always a_seqset].
    rewrite Ht. destruct Hok as [Hw0 Hl0].
    rewrite !seq_range_exists_spec by first [done | lia | unfold len_ok; lia | apply (wf_from_wf 1); [lia | done]]. cbn [mbind option_bind].
    rewrite (fixed_no_star count (a_seqset v) s') by done. do 3 f_equal. rewrite Hmem, Hlast. unfold fixed. destruct (mem UINT32_MAX (a_seqset v)); cbn; lia.
Qed.

(** The messages of a mailbox in their order. *)
Definition numbered (mails : list mail) : Prop :=
  forall i m, mails !! i = Some m -> m_seq m = Z.of_nat i + 1 /\ m_last m = (m_seq m =? Z.of_nat (length mails)).

Lemma fixed_eval_list mails args args1 m :
  numbered mails -> Z.of_nat (length mails) < UINT32_MAX -> m ∈ mails -> Forall (searchable m) args ->
  Forall (range_ok (Z.of_nat (length mails))) (mail_search_args_reset args true) ->
  Forall2 (fixed_arg (Z.of_nat (length mails))) (mail_search_args_reset args true) args1 ->
  eval_list leaf thread true args1 m = eval_list leaf thread true args m.
Proof.
  intros Hn Hc [i Hx]%list_elem_of_lookup Hs Hr Hf. destruct (Hn i m Hx) as [Hseq Hl]. apply lookup_lt_Some in Hx. apply eval_list_eq.
  unfold mail_search_args_reset in *. revert args1 Hf. induction Hs as [|a l Ha _ IH]; intros args1 Hf; inversion Hf; subst; [constructor |]. inversion Hr; subst.
  constructor; [| by apply IH]. eapply fixed_eval; [| exact Hl | done..]. lia.
Qed.

Lemma index_search_spec env guid hdr mails args :
  env_ok env -> 1 <= Z.of_nat (length mails) < UINT32_MAX -> numbered mails ->
  Forall (fun m => header_ok hdr m /\ guid = m_mailbox_guid m /\ Forall (searchable m) args /\ forall l, lesser m (aborted_lookups env l m)) mails ->
  Forall (range_ok (Z.of_nat (length mails))) (mail_search_args_reset args true) -> Forall (limit_ok hdr) args ->
  index_search env guid hdr mails args = Some (map m_seq (filter (fun m => eval_list leaf thread true args m = 2) mails)).
Proof.
  intros [Ht Hns Hmx] Hc Hseq Hm Hr Hl.
  assert (Hal : Forall (fun a => a_match_always (value a) && a_nonmatch_always (value a) = false) args).
  { destruct mails as [|m mails]; [cbn in Hc; lia |]. inversion Hm as [| ? ? (_ & _ & Hs & _) _]; subst. eapply Forall_impl; [exact Hs |]. by intros a []. }
  destruct (get_seqset_spec hdr _ args Hc Hr Hl Hal) as (args1 & args2 & s1 & s2 & Hg & Hf & Hmk & Hin).
  unfold index_search, index_storage_search_init. rewrite Hg. cbn [mbind option_bind].
  assert (Hp : Forall (fun m => Forall (primed m) args2) mails).
  { apply Forall_forall. intros m Hi. destruct (proj1 (Forall_forall _ _) Hm m Hi) as (Hh & _ & Hs & _). apply list_elem_of_lookup in Hi as [i Hi]. destruct (Hseq i m Hi) as [Hsi _]. clear Hseq. rename Hsi into Hseq.
    clear -Hs Hf Hmk Hh Hseq Hc. revert args2 Hmk. unfold mail_search_args_reset in Hf. revert args1 Hf.
    induction Hs as [|a args Ha _ IH]; intros args1 Hf args2 Hmk; inversion Hf; subst; inversion Hmk; subst; constructor;
      [eapply marked_primed; [exact Hh | | done]; eapply fixed_primed; [| apply Hc | done..]; lia | eauto]. }
  destruct (init_list_spec guid args2 (Needs false false false)) as (args3 & needs & Hi & _ & Hn & Hev).
  { destruct mails as [|m mails]; [cbn in Hc; lia |]. inversion Hp as [| ? ? Hs _]; subst. eapply Forall_impl; [exact Hs |].
    intros a Ha n. apply init_arg_spec. by eapply primed_guid. }
  rewrite Hi. cbn [mbind option_bind].
  assert (He : forall m, eval_list leaf thread true args3 m = eval_list leaf thread true args1 m).
  { intros m. transitivity (eval_list leaf thread true args2 m); apply eval_list_eq.
    - eapply Forall2_impl; [exact Hev |]. intros a a' H. apply H.
    - eapply Forall2_impl; [exact Hmk |]. intros a a' H. by eapply marked_eval. }
  rewrite (search_messages_spec env Ht Hns Hmx needs args3 Hn).
  - do 2 f_equal. unfold answers, wanted. cbn [s_mails s_ahead map app].
    assert (Hraw : filter (fun m => eval_list leaf thread true args m = 2) mails = filter (fun m => eval_list leaf thread true args1 m = 2) mails).
    { apply filter_ext, Forall_forall. intros m Hx. destruct (proj1 (Forall_forall _ _) Hm m Hx) as (_ & _ & Hs & _). by rewrite (fixed_eval_list mails args args1) by (done || lia). }
    rewrite Hraw, <- (filter_range (fun m => eval_list leaf thread true args1 m = 2) (fun m => (s1 <=? m_seq m) && (m_seq m <=? s2) = true) mails).
    + apply list_filter_iff. intros m. by rewrite He.
    + apply Forall_forall. intros m Hx Hv. destruct (proj1 (Forall_forall _ _) Hm m Hx) as (Hh & _). apply list_elem_of_lookup in Hx as [i Hx].
      destruct (Hseq i m Hx) as [? _]. apply lookup_lt_Some in Hx. specialize (Hin m Hh ltac:(lia) Hv). lia.
  - split; cbn [s_args s_ahead s_mails]; [apply reset_again | | constructor]. apply Forall_forall. intros m Hx. apply list_elem_of_filter in Hx as [_ Hx].
    destruct (proj1 (Forall_forall _ _) Hm m Hx) as (_ & Hgm & _ & Hle). split; [| done].
    pose proof (proj1 (Forall_forall _ _) Hp m Hx) as Hpm. clear -Hpm Hev Hgm. induction Hev as [|a a' l l' Ha _ IH]; inversion Hpm; subst; constructor; [by apply Ha | auto].
  - unfold search_left. cbn [s_ahead s_mails length]. lia.
Qed.
End Start.
