(* ===== verification/IndexSearchThreads.v ===== *)
(** * Searching an index: threads

    INTHREADs: [search_build_inthreads] of index-search.c, which finds the
    messages that the conditions of an INTHREAD match by a search of its own
    ([mailbox_search_result_build] of mail-storage.c), and stores the UIDs of
    the threads that have one of them.  The threads are given, as trees; the
    iterations over them and the inner searches do not fail. *)

From S2P Require Import Prelude SeqRange SeqRangeProps SeqRangeSets ImapArg ImapQuote.
From S2P Require Import MailSearch MailSearchResults MailSearchSimplify MailSearchEval MailSearchSimplifyProps MailSearchSimplifyLoop MailSearchSimplifyCorrect.
From S2P Require Import IndexSearch IndexSearchProps IndexSearchPasses IndexSearchRange IndexSearchCorrect.

(** A message of a thread, and those below it. *)
#[local] Unset Elimination Schemes.

Inductive thread_node := Node (uid : Z) (children : list thread_node).

#[local] Set Elimination Schemes.

Section Induction.
Variable P : thread_node -> Prop.
Hypothesis P_node : forall uid children, Forall P children -> P (Node uid children).

Fixpoint thread_node_ind (n : thread_node) : P n :=
  match n with
  | Node uid children =>
      P_node uid children ((fix go l : Forall P l :=
                              match l with [] => List.Forall_nil _ | n :: l => List.Forall_cons _ _ _ (thread_node_ind n) (go l) end) children)
  end.
End Induction.

(** ** The code *)

Section Iterate.
Variable step : thread_node -> list seq_range -> option (list seq_range).

Fixpoint iterate (iter : list thread_node) (uids : list seq_range) : option (list seq_range) :=
  match iter with
  | [] => Some uids
  | n :: iter => uids ← step n uids; iterate iter uids
  end.
End Iterate.

(** The loop of [search_build_subthread] for one node. *)
Fixpoint subthread_step (n : thread_node) (uids : list seq_range) : option (list seq_range) :=
  let '(Node uid children) := n in
  uids ← iterate subthread_step children uids;
  '(_, uids) ← seq_range_array_add uids uid; Some uids.

Definition search_build_subthread (iter : list thread_node) (uids : list seq_range) : option (list seq_range) := iterate subthread_step iter uids.

(** The loop of [search_build_inthread_result] over the threads. *)
Fixpoint inthread_loop (iter : list thread_node) (search_uids seqset : list seq_range) : option (list seq_range) :=
  match iter with
  | [] => Some seqset
  | Node uid children :: iter =>
      '(_, thread_uids) ← seq_range_array_add [] uid;
      thread_uids ← search_build_subthread children thread_uids;
      common ← seq_range_array_have_common thread_uids search_uids;
      seqset ← (if (common : bool) then seq_range_array_merge seqset thread_uids else Some seqset);
      inthread_loop iter search_uids seqset
  end.

(** During the first search, when [added_uids] has not been created. *)
Definition mailbox_search_result_add (uids : list seq_range) (uid : Z) : option (list seq_range) :=
  _ ← assert (uid >? 0);
  b ← seq_range_exists uids uid;
  if (b : bool) then Some uids else '(_, uids) ← seq_range_array_add uids uid; Some uids.

Section Build.
Variables (env : search_env) (mailbox_guid : option (list Z)) (hdr : index_header) (mails : list mail).
(** The threads of each [thread_type]. *)
Variable threads : Z -> list thread_node.

(** The UIDs of the messages that a search returns. *)
Fixpoint add_found (seqs : list Z) (uids : list seq_range) : option (list seq_range) :=
  match seqs with
  | [] => Some uids
  | seq :: seqs => m ← mails !! Z.to_nat (seq - 1); uids ← mailbox_search_result_add uids (m_uid m); add_found seqs uids
  end.

(** The arguments are those of [search_args], which are never simplified again. *)
Definition mailbox_search_result_build (args : list mail_search_arg) : option (list seq_range) :=
  seqs ← index_search env mailbox_guid hdr mails args; add_found seqs [].

Definition search_build_inthread_result (v : arg_value) (subs : list mail_search_arg) : option arg_value :=
  _ ← assert (a_thread_args v);
  search_uids ← mailbox_search_result_build subs;
  if (length search_uids =? 0)%nat then Some (put_seqset [] v)
  else seqset ← inthread_loop (threads (a_thread_type v)) search_uids []; Some (put_seqset seqset v).

Section List.
Variable build : mail_search_arg -> option mail_search_arg.

Fixpoint build_list (args : list mail_search_arg) : option (list mail_search_arg) :=
  match args with
  | [] => Some []
  | a :: args => a ← build a; args ← build_list args; Some (a :: args)
  end.
End List.

Fixpoint build_arg (a : mail_search_arg) : option mail_search_arg :=
  let '(Arg v subs) := a in
  match a_type v with
  | SEARCH_OR | SEARCH_SUB => subs ← build_list build_arg subs; Some (Arg v subs)
  | SEARCH_INTHREAD => v ← search_build_inthread_result v subs; Some (Arg v subs)
  | _ => Some a
  end.

Definition search_build_inthreads (args : list mail_search_arg) : option (list mail_search_arg) := build_list build_arg args.

(** A search with its INTHREADs.  [index_storage_search_init] resets the
    arguments first, which does not change what this reads. *)
Definition index_search_args (a : mail_search_args) : option (list Z) :=
  l ← (if have_inthreads a then search_build_inthreads (args a) else Some (args a));
  index_search env mailbox_guid hdr mails l.
End Build.

(** ** Sets of UIDs *)

Fixpoint node_uids (n : thread_node) : list Z := let '(Node uid children) := n in uid :: flat_map node_uids children.

(** All sets are made of these UIDs, of which there are not too many. *)
Definition uids_small (L : list Z) : Prop := Forall (fun uid => 1 <= uid < UINT32_MAX) L /\ 2 * Z.of_nat (length L) < INT_MAX.
Definition drawn (L : list Z) (s : list seq_range) : Prop := wf s /\ forall x, mem x s = true -> x ∈ L.

Lemma seq1_mem r s : r ∈ s -> wf s -> mem (seq1 r) s = true.
Proof.
  unfold wf. generalize 0. induction s as [|r' s IH]; intros lo Hr Hw; [inversion Hr |]. cbn in Hw |- *. destruct Hw as (? & ? & Hw).
  apply elem_of_cons in Hr as [-> | Hr]; [lia |]. rewrite (IH _ Hr Hw). by rewrite orb_true_r.
Qed.

Lemma drawn_length L s : drawn L s -> (length s <= length L)%nat.
Proof.
  intros [Hw Hs]. rewrite <- (length_map seq1 s). apply submseteq_length, NoDup_submseteq.
  - clear Hs. unfold wf in Hw. revert Hw. generalize 0. induction s as [|r s IH]; intros lo Hw; cbn; [constructor |]. destruct Hw as (? & ? & Hw).
    constructor; [| by eapply IH]. intros (r' & Heq & Hr')%list_elem_of_fmap.
    assert (seq2 r + 2 <= seq1 r'); [| lia]. clear -Hw Hr'. revert Hw. generalize (seq2 r + 2). induction s as [|r'' s IH]; intros lo Hw; [inversion Hr' |].
    cbn in Hw. destruct Hw as (? & ? & Hw). apply elem_of_cons in Hr' as [-> | Hr']; [lia |]. specialize (IH Hr' _ Hw). lia.
  - intros x (r & -> & Hr)%list_elem_of_fmap. by apply Hs, seq1_mem.
Qed.

Section Drawn.
Variable L : list Z.
Hypothesis L_small : uids_small L.

Lemma uid_range uid : uid ∈ L -> 1 <= uid < UINT32_MAX.
Proof. exact (proj1 (Forall_forall _ _) (proj1 L_small) uid). Qed.

Lemma drawn_len s : drawn L s -> len_ok s.
Proof. intros H%drawn_length. destruct L_small. unfold len_ok. lia. Qed.

Lemma drawn_nil : drawn L [].
Proof. by split. Qed.

Lemma add_drawn s uid : drawn L s -> uid ∈ L -> exists b d, seq_range_array_add s uid = Some (b, d) /\ drawn L d /\ forall x, mem x d = (x =? uid) || mem x s.
Proof.
  intros Hd Hu. pose proof (uid_range uid Hu). pose proof Hd as [Hw Hs].
  destruct (seq_range_array_add_spec s uid) as ([b d] & -> & Hwd & _ & Hm); [done | by apply drawn_len | unfold is_u32; lia |]. cbn in Hm. exists b, d.
  split_and!; [done | | done]. split; [done |]. intros x. rewrite Hm. intros [->%Z.eqb_eq | Hx]%orb_true_iff; [done | by apply Hs].
Qed.

Lemma merge_drawn s1 s2 : drawn L s1 -> drawn L s2 -> exists d, seq_range_array_merge s1 s2 = Some d /\ drawn L d /\ forall x, mem x d = mem x s1 || mem x s2.
Proof.
  intros H1 H2. pose proof (drawn_length _ _ H1). pose proof (drawn_length _ _ H2). destruct H1 as [Hw1 Hs1], H2 as [Hw2 Hs2]. pose proof (proj2 L_small).
  destruct (seq_range_array_merge_spec s1 s2) as (d & -> & Hw & Hm); [done | done | lia | |].
  { destruct (mem UINT32_MAX s1) eqn:E; [| done]. apply Hs1, uid_range in E. lia. }
  exists d. split_and!; [done | | done]. split; [done |]. intros x. rewrite Hm. intros [Hx | Hx]%orb_true_iff; auto.
Qed.

(** ** One thread *)

Definition collects (step : list seq_range -> option (list seq_range)) (uids : list Z) : Prop :=
  forall s, drawn L s -> exists d, step s = Some d /\ drawn L d /\ forall x, mem x d = true <-> x ∈ uids \/ mem x s = true.

Lemma iterate_collects (step : thread_node -> list seq_range -> option (list seq_range)) l :
  Forall (fun n => collects (step n) (node_uids n)) l -> collects (iterate step l) (flat_map node_uids l).
Proof.
  induction 1 as [|n l Hn _ IH]; intros s Hs; cbn [iterate flat_map].
  { exists s. split_and!; [done | done |]. intros x. split; [by right |]. by intros [?%not_elem_of_nil | ?]. }
  destruct (Hn s Hs) as (d & -> & Hd & Hm). cbn [mbind option_bind]. destruct (IH d Hd) as (e & -> & He & Hme). exists e.
  split_and!; [done | done |]. intros x. rewrite Hme, Hm, elem_of_app. tauto.
Qed.

Lemma subthread_step_spec n : Forall (fun uid => uid ∈ L) (node_uids n) -> collects (subthread_step n) (node_uids n).
Proof.
  induction n as [uid children IH]. cbn [node_uids]. intros [Hu Hc]%Forall_cons s Hs. cbn [subthread_step].
  assert (Hi : collects (iterate subthread_step children) (flat_map node_uids children)).
  { apply iterate_collects. clear -IH Hc. induction IH as [|n l Hn _ IHl]; [constructor |]. cbn in Hc. apply Forall_app in Hc as [? ?]. constructor; auto. }
  destruct (Hi s Hs) as (d & -> & Hd & Hm). cbn [mbind option_bind]. destruct (add_drawn d uid Hd Hu) as (b & e & -> & He & Hme). cbn [mbind option_bind].
  exists e. split_and!; [done | done |]. intros x. rewrite Hme, orb_true_iff, Hm, elem_of_cons, Z.eqb_eq. tauto.
Qed.

(** ** All threads *)

(** The UIDs of the threads that have one of [search_uids]. *)
Lemma inthread_loop_spec iter search_uids s :
  Forall (fun uid => uid ∈ L) (flat_map node_uids iter) -> wf search_uids -> drawn L s ->
  exists d, inthread_loop iter search_uids s = Some d /\ drawn L d /\
    forall x, mem x d = true <-> mem x s = true \/ exists n y, n ∈ iter /\ x ∈ node_uids n /\ y ∈ node_uids n /\ mem y search_uids = true.
Proof.
  intros Hi Hf. revert s. induction iter as [|[uid children] iter IH]; intros s Hs; cbn [inthread_loop].
  { exists s. split_and!; [done | done |]. intros x. split; [by left |]. intros [? | (n & y & Hn & _)]; [done | by apply not_elem_of_nil in Hn]. }
  cbn [flat_map] in Hi. apply Forall_app in Hi as [Hn Hi]. cbn [node_uids] in Hn. apply Forall_cons in Hn as [Hu Hc].
  destruct (add_drawn [] uid drawn_nil Hu) as (b & d & -> & Hd & Hm). cbn [mbind option_bind].
  assert (Hcs : collects (iterate subthread_step children) (flat_map node_uids children)).
  { apply iterate_collects. clear -Hc L_small. induction children as [|n l IHl]; [constructor |]. cbn in Hc. apply Forall_app in Hc as [? ?]. constructor; [by apply subthread_step_spec | auto]. }
  destruct (Hcs d Hd) as (t & Ht & Hdt & Hmt). unfold search_build_subthread. rewrite Ht. cbn [mbind option_bind].
  assert (Hx : forall x, mem x t = true <-> x ∈ node_uids (Node uid children)) by (intros x; cbn [node_uids]; rewrite Hmt, Hm, orb_false_r, Z.eqb_eq, elem_of_cons; tauto).
  destruct (have_common_loop_spec (S (length t + length search_uids)) [] t [] search_uids 0 0) as (c & Hcc & Hcm); [apply Hdt | done | lia |].
  unfold seq_range_array_have_common. cbn [app length] in Hcc. rewrite Hcc. cbn [mbind option_bind].
  assert (Hnext : exists s', (if c then seq_range_array_merge s t else Some s) = Some s' /\ drawn L s' /\
            forall x, mem x s' = true <-> mem x s = true \/ (c = true /\ mem x t = true)).
  { destruct c; [| exists s; split_and!; [done | done | intros x; intuition discriminate]].
    destruct (merge_drawn s t Hs Hdt) as (s' & -> & Hs' & Hm'). exists s'. split_and!; [done | done |]. intros x. rewrite Hm', orb_true_iff. tauto. }
  destruct Hnext as (s' & -> & Hs' & Hm'). cbn [mbind option_bind]. destruct (IH Hi s' Hs') as (e & -> & He & Hme). exists e. split_and!; [done | done |].
  intros x. rewrite Hme, Hm'. split.
  - intros [[? | [Hct Hxt]] | (n & y & ? & ?)]; [by left | | right; exists n, y; rewrite elem_of_cons; tauto].
    apply Hcm in Hct as (y & Hy1 & Hy2). right. exists (Node uid children), y. rewrite elem_of_cons, <- !Hx. tauto.
  - intros [? | (n & y & [-> | ?]%elem_of_cons & Hxn & Hyn & Hy)]; [by left; left | | right; by exists n, y].
    left. right. rewrite <- Hx in Hxn, Hyn. split; [apply Hcm; by exists y | done].
Qed.
End Drawn.

(** ** Messages and threads *)

(** The messages of a mailbox. *)
Record messages_ok (mails : list mail) : Prop := {
  box_count : 1 <= Z.of_nat (length mails) < UINT32_MAX;
  box_numbered : numbered mails;
  box_uids : Forall (fun m => 1 <= m_uid m < UINT32_MAX) mails;
  box_distinct : NoDup (map m_uid mails);
}.

Section Threads.
Variables (env : search_env) (mailbox_guid : option (list Z)) (hdr : index_header) (mails : list mail) (threads : Z -> list thread_node).
Hypothesis mails_ok : messages_ok mails.
Hypothesis envs_ok : env_ok env.
Hypothesis each_ok : Forall (fun m => header_ok hdr m /\ mailbox_guid = m_mailbox_guid m /\ forall l, lesser m (aborted_lookups env l m)) mails.
Notation count := (Z.of_nat (length mails)).

(** The messages that are in a thread with [m]. *)
Definition in_thread (t : Z) (m : mail) : list mail :=
  filter (fun m' => Exists (fun n => m_uid m ∈ node_uids n /\ m_uid m' ∈ node_uids n) (threads t)) mails.
Notation eval := (eval leaf in_thread).
Notation eval_list := (eval_list leaf in_thread true).

(** What the conditions of an INTHREAD need: they can be searched for, and are
    true or false for every message. *)
Record inthread_ok (v : arg_value) (subs : list mail_search_arg) : Prop := {
  inthread_args : a_thread_args v = true;
  inthread_threads : uids_small (flat_map node_uids (threads (a_thread_type v)));
  inthread_count : 2 * count < INT_MAX;
  inthread_searchable : Forall (fun m => Forall (searchable in_thread m) subs) mails;
  inthread_range : Forall (range_ok count) (mail_search_args_reset subs true);
  inthread_limit : Forall (limit_ok hdr) subs;
  inthread_known : Forall (fun m => eval_list subs m <> 1) mails;
  inthread_results : forallb results_ok subs = true;
}.

(** What the arguments of a search need for a message, before it starts. *)
Inductive askable (m : mail) : mail_search_arg -> Prop :=
  | askable_group v subs :
      is_group v = true -> a_match_always v && a_nonmatch_always v = false -> subs <> [] -> Forall (askable m) subs -> askable m (Arg v subs)
  | askable_leaf v subs :
      is_group v = false -> a_type v <> SEARCH_INTHREAD -> a_match_always v && a_nonmatch_always v = false ->
      (a_type v <> SEARCH_SEQSET -> leaf_ok m v) -> askable m (Arg v subs)
  | askable_inthread v subs :
      a_type v = SEARCH_INTHREAD -> a_match_always v && a_nonmatch_always v = false -> inthread_ok v subs -> askable m (Arg v subs).

(** ** The UIDs that a search finds *)

Lemma found_lookup m : m ∈ mails -> mails !! Z.to_nat (m_seq m - 1) = Some m.
Proof using mails_ok.
  intros [i Hi]%list_elem_of_lookup. destruct (box_numbered _ mails_ok i m Hi) as [-> _]. by replace (Z.to_nat (Z.of_nat i + 1 - 1)) with i by lia.
Qed.

Lemma mails_small : 2 * count < INT_MAX -> uids_small (map m_uid mails).
Proof using mails_ok. intros H. split; [apply Forall_map, mails_ok | by rewrite length_map]. Qed.

Lemma add_found_spec ms s :
  2 * count < INT_MAX -> Forall (fun m => m ∈ mails) ms -> drawn (map m_uid mails) s ->
  exists d, add_found mails (map m_seq ms) s = Some d /\ drawn (map m_uid mails) d /\ forall x, mem x d = true <-> mem x s = true \/ x ∈ map m_uid ms.
Proof using mails_ok.
  clear each_ok envs_ok threads. intros Hc Hms. revert s. induction Hms as [|m ms Hm _ IH]; intros s Hs; cbn [map add_found].
  { exists s. split_and!; [done | done |]. intros x. split; [by left |]. by intros [? | ?%not_elem_of_nil]. }
  rewrite found_lookup by done. cbn [mbind option_bind]. assert (Hu : m_uid m ∈ map m_uid mails) by (apply list_elem_of_fmap; by exists m).
  pose proof (mails_small Hc) as Hsm. pose proof (uid_range _ Hsm _ Hu).
  assert (Hadd : exists d, mailbox_search_result_add s (m_uid m) = Some d /\ drawn (map m_uid mails) d /\ forall x, mem x d = (x =? m_uid m) || mem x s).
  { unfold mailbox_search_result_add. rewrite assert_true by lia. cbn [mbind option_bind].
    rewrite seq_range_exists_spec by first [apply Hs | by eapply drawn_len | lia]. cbn [mbind option_bind]. destruct (mem (m_uid m) s) eqn:E.
    - exists s. split_and!; [done | done |]. intros x. destruct (Z.eqb_spec x (m_uid m)) as [-> |]; [by rewrite E | done].
    - destruct (add_drawn _ Hsm s (m_uid m) Hs Hu) as (b & d & -> & ? & ?). by exists d. }
  destruct Hadd as (d & -> & Hd & Hmd). cbn [mbind option_bind]. destruct (IH d Hd) as (e & -> & He & Hme). exists e. split_and!; [done | done |].
  intros x. rewrite Hme, Hmd, orb_true_iff, Z.eqb_eq, elem_of_cons. tauto.
Qed.

Lemma result_build_spec v subs :
  inthread_ok v subs ->
  exists d, mailbox_search_result_build env mailbox_guid hdr mails subs = Some d /\ wf d /\
    forall x, mem x d = true <-> exists m, m ∈ mails /\ m_uid m = x /\ eval_list subs m = 2.
Proof using mails_ok envs_ok each_ok.
  intros [_ _ Hc Hs Hr Hl _ _]. unfold mailbox_search_result_build.
  rewrite (index_search_spec in_thread env mailbox_guid hdr mails subs envs_ok (box_count _ mails_ok) (box_numbered _ mails_ok)); [| | done | done].
  2:{ apply Forall_forall. intros m Hm. destruct (proj1 (Forall_forall _ _) each_ok m Hm) as (? & ? & ?). split_and!; [done | done | exact (proj1 (Forall_forall _ _) Hs m Hm) | done]. }
  cbn [mbind option_bind]. destruct (add_found_spec (filter (fun m => eval_list subs m = 2) mails) [] Hc) as (d & -> & [Hd _] & Hm); [| by split |].
  { apply Forall_forall. intros m Hm. by apply list_elem_of_filter in Hm as [_ ?]. }
  exists d. split_and!; [done | done |]. intros x. rewrite Hm. split.
  - intros [? | (m & -> & [? ?]%list_elem_of_filter)%list_elem_of_fmap]; [done | by exists m].
  - intros (m & Hin & <- & ?). right. apply list_elem_of_fmap. exists m. split; [done |]. by apply list_elem_of_filter.
Qed.

(** ** One INTHREAD *)

(** A disjunction of conditions that are true or false. *)
Lemma disj_all_known l : Forall tri l -> Forall (fun x => x <> 1) l -> disj_all l = 2 /\ 2 ∈ l \/ disj_all l = 0 /\ 2 ∉ l.
Proof.
  induction l as [|x l IH]; intros Ht Hk; [right; split; [done | by intros ?%not_elem_of_nil] |]. apply Forall_cons in Ht as [Hx Ht], Hk as [Hx1 Hk].
  unfold disj_all, tri in *. cbn [foldr]. rewrite elem_of_cons. destruct (decide (x = 2)) as [-> | Hx2].
  - left. split; [| by left]. destruct (IH Ht Hk) as [[-> _] | [-> _]]; lia.
  - assert (x = 0) as -> by lia. destruct (IH Ht Hk) as [[-> ?] | [-> ?]]; [left; split; [lia | by right] | right; split; [lia |]]. by intros [? | ?].
Qed.

Lemma inthread_result_spec v subs :
  a_type v = SEARCH_INTHREAD -> inthread_ok v subs ->
  exists s, search_build_inthread_result env mailbox_guid hdr mails threads v subs = Some (put_seqset s v) /\ wf s /\ len_ok s /\
    forall m, m ∈ mails -> eval (Arg v subs) m = neg (a_match_not v) (if mem (m_uid m) s then 2 else 0).
Proof using mails_ok envs_ok each_ok.
  intros Ht Hv. destruct (result_build_spec v subs Hv) as (d & Hd & Hw & Hm). unfold search_build_inthread_result. rewrite (inthread_args _ _ Hv), assert_true by done.
  cbn [mbind option_bind]. rewrite Hd. cbn [mbind option_bind].
  assert (Hs : exists s, (if (length d =? 0)%nat then Some (put_seqset [] v) else seqset ← inthread_loop (threads (a_thread_type v)) d []; Some (put_seqset seqset v)) = Some (put_seqset s v) /\
            wf s /\ len_ok s /\ forall x, mem x s = true <-> exists n y, n ∈ threads (a_thread_type v) /\ x ∈ node_uids n /\ y ∈ node_uids n /\ mem y d = true).
  { destruct (Nat.eqb_spec (length d) 0) as [E | _].
    - exists []. destruct d; [| done]. split_and!; [done | done | done |]. intros x. split; [done |]. by intros (n & y & _ & _ & _ & ?).
    - pose proof (inthread_threads _ _ Hv) as Hsm.
      destruct (inthread_loop_spec _ Hsm (threads (a_thread_type v)) d []) as (s & -> & Hs & Hms); [by apply Forall_forall | done | apply drawn_nil |].
      exists s. split_and!; [done | apply Hs | by eapply drawn_len |]. intros x. rewrite Hms. split; [by intros [? | ?] | by right]. }
  destruct Hs as (s & -> & Hws & Hls & Hms). exists s. split_and!; [done | done | done |]. intros m Hin. cbn [MailSearchEval.eval]. rewrite Ht. f_equal.
  set (l := map _ (in_thread _ m)). assert (Hl : Forall tri l /\ Forall (fun x => x <> 1) l).
  { split; apply Forall_map, Forall_forall; intros m' Hm'.
    - apply conj_all_tri, evals_tri, leaf_range.
    - apply list_elem_of_filter in Hm' as [_ Hm']. exact (proj1 (Forall_forall _ _) (inthread_known _ _ Hv) m' Hm'). }
  destruct Hl as [Htri Hkn]. assert (Hiff : 2 ∈ l <-> mem (m_uid m) s = true).
  { rewrite Hms. subst l. rewrite (list_elem_of_fmap (fun m' => conj_all (map (fun sub => eval sub m') subs))). split.
    - intros (m' & He & [(n & Hn & Hu & Hu')%Exists_exists Hm']%list_elem_of_filter). exists n, (m_uid m'). split_and!; [done | done | done |]. apply Hm. by exists m'.
    - intros (n & y & Hn & Hu & Hy & (m' & Hm' & <- & He)%Hm). exists m'. split; [done |]. apply list_elem_of_filter. split; [| done]. apply Exists_exists. by exists n. }
  destruct (disj_all_known l Htri Hkn) as [[-> H2] | [-> H2]]; rewrite Hiff in H2; by destruct (mem (m_uid m) s).
Qed.

(** ** All INTHREADs *)

(** The arguments with their INTHREADs searched for. *)
Inductive built : mail_search_arg -> mail_search_arg -> Prop :=
  | built_group v subs subs' : is_group v = true -> Forall2 built subs subs' -> built (Arg v subs) (Arg v subs')
  | built_inthread v subs s :
      a_type v = SEARCH_INTHREAD -> wf s -> len_ok s -> (forall m, m ∈ mails -> eval (Arg v subs) m = neg (a_match_not v) (if mem (m_uid m) s then 2 else 0)) ->
      built (Arg v subs) (Arg (put_seqset s v) subs)
  | built_leaf v subs : is_group v = false -> a_type v <> SEARCH_INTHREAD -> built (Arg v subs) (Arg v subs).

Lemma build_list_spec (P : mail_search_arg -> Prop) build l :
  Forall (fun a => P a -> exists a', build a = Some a' /\ built a a') l -> Forall P l -> exists l', build_list build l = Some l' /\ Forall2 built l l'.
Proof.
  induction 1 as [|a l Ha _ IH]; intros Hl; cbn [build_list]; [by exists [] |]. apply Forall_cons in Hl as [H1 H2].
  destruct (Ha H1) as (a' & -> & ?). cbn [mbind option_bind]. destruct (IH H2) as (l' & -> & ?). exists (a' :: l'). split; [done | by constructor].
Qed.

Lemma build_arg_spec m a : askable m a -> exists a', build_arg env mailbox_guid hdr mails threads a = Some a' /\ built a a'.
Proof using mails_ok envs_ok each_ok.
  induction a as [v subs IH]. intros Ha. cbn [build_arg]. inversion Ha as [? ? Hg _ _ Hs | ? ? Hg Hi _ _ | ? ? Ht _ Hv]; subst.
  - destruct (build_list_spec (askable m) (build_arg env mailbox_guid hdr mails threads) subs IH Hs) as (subs' & E & Hb).
    exists (Arg v subs'). split; [| by constructor]. unfold is_group, is_type in Hg. destruct (a_type v); try discriminate Hg; by rewrite E.
  - exists (Arg v subs). split; [| by constructor]. unfold is_group, is_type in Hg. by destruct (a_type v).
  - destruct (inthread_result_spec v subs Ht Hv) as (s & E & ? & ? & ?). rewrite Ht, E. cbn [mbind option_bind]. eexists. split; [reflexivity | by constructor].
Qed.

Lemma built_eval a a' m : built a a' -> eval a' m = eval a m.
Proof.
  revert a'. induction a as [v subs IH]. intros a' Hb. inversion Hb as [? ? subs' Hg Hbs | ? ? s Ht |]; subst; [| | done].
  - assert (Hmap : map (fun s => eval s m) subs' = map (fun s => eval s m) subs).
    { clear -IH Hbs. revert subs' Hbs. induction IH as [|s subs Hx _ IHs]; intros subs' Hbs; inversion Hbs; subst; [done |]. cbn. f_equal; auto. }
    cbn [MailSearchEval.eval]. unfold is_group, is_type in Hg. by destruct (a_type v); try discriminate Hg; rewrite Hmap.
  - cbn [MailSearchEval.eval a_type put_seqset a_match_not a_thread_type]. by rewrite Ht.
Qed.

Lemma built_searchable m a a' : m ∈ mails -> askable m a -> built a a' -> searchable in_thread m a'.
Proof using mails_ok.
  intros Hm. revert a'. induction a as [v subs IH]. intros a' Ha Hb. inversion Ha as [? ? Hg Hal Hne Hs | ? ? Hg Hi Hal Hok | ? ? Ht Hal Hv]; subst.
  - inversion Hb as [? ? subs' _ Hbs | ? ? ? Ht | ? ? Hg']; subst; [| unfold is_group, is_type in Hg; by rewrite Ht in Hg | congruence].
    apply searchable_group; [done | done | by intros ->; inversion Hbs; subst |].
    clear -IH Hs Hbs. revert subs' Hbs. induction IH as [|s subs Hx _ IHs]; intros subs' Hbs; inversion Hbs; subst; [constructor |]. inversion Hs; subst. constructor; auto.
  - inversion Hb; subst; [congruence | done | by apply searchable_leaf].
  - inversion Hb as [? ? ? Hg | ? ? s _ Hw Hl He | ? ? _ Hi]; subst; [unfold is_group, is_type in Hg; by rewrite Ht in Hg | | done].
    apply searchable_leaf; [unfold is_group, is_type; cbn; by rewrite Ht | done | |].
    + intros _. unfold leaf_ok. cbn [a_type put_seqset a_seqset]. rewrite Ht. pose proof (proj1 (Forall_forall _ _) (box_uids _ mails_ok) m Hm) as Hu. cbn in Hu. split_and!; [done | done | lia].
    + intros _. split; [rewrite (built_eval _ _ m Hb); exact (He m Hm) | apply Hv].
Qed.

Lemma built_limit a a' : built a a' -> limit_ok hdr a -> limit_ok hdr a'.
Proof. by intros []. Qed.

Lemma reset_type full v : a_type (reset_value full v) = a_type v.
Proof. unfold reset_value. by destruct (a_match_always v), (a_nonmatch_always v), full. Qed.

Lemma built_range a a' : built a a' -> range_ok count (reset_arg true a) -> range_ok count (reset_arg true a').
Proof.
  revert a'. induction a as [v subs IH]. intros a' Hb Hr. inversion Hb as [? ? subs' Hg Hbs | ? ? s Ht |]; subst; [| | done].
  - cbn [reset_arg] in *. rewrite orb_comm in Hr |- *. fold (is_group v) in Hr |- *. rewrite Hg in Hr |- *.
    assert (Hgr : is_group (reset_value true v) = true) by (unfold is_group, is_type in *; by rewrite reset_type).
    inversion Hr as [? ? _ Hn Hne Hs | ? ? Ht | ? ? Hg']; subst; [| unfold is_group, is_type in Hgr; by rewrite Ht in Hgr | congruence].
    apply range_ok_group; [done | done | by intros Hn'; destruct Hbs |]. clear -IH Hs Hbs. revert subs' Hbs.
    induction IH as [|s subs Hx _ IHs]; intros subs' Hbs; inversion Hbs; subst; cbn [map] in *; [constructor |]. inversion Hs; subst. constructor; auto.
  - cbn [reset_arg]. rewrite orb_comm. fold (is_group (put_seqset s v)). assert (is_group (put_seqset s v) = false) as -> by (unfold is_group, is_type; cbn; by rewrite Ht).
    apply range_ok_other; unfold is_group, is_type; rewrite reset_type; cbn; by rewrite Ht.
Qed.

Lemma askable_searchable m a : flat_inthreads false a = true -> askable m a -> searchable in_thread m a.
Proof.
  induction a as [v subs IH]. cbn [flat_inthreads]. intros Hf Ha. inversion Ha as [? ? Hg Hal Hne Hs | ? ? Hg Hi Hal Hok | ? ? Ht]; subst.
  - apply searchable_group; [done | done | done |]. assert (is_type SEARCH_INTHREAD v = false) as E by (unfold is_group, is_type in *; destruct (a_type v); done).
    rewrite E, Hg in Hf. clear -IH Hs Hf. induction IH as [|s subs Hx _ IHs]; inversion Hs; subst; [constructor |]. cbn in Hf. apply andb_true_iff in Hf as [? ?]. constructor; auto.
  - by apply searchable_leaf.
  - unfold is_type in Hf. by rewrite Ht in Hf.
Qed.

(** ** The whole search *)

Lemma index_search_args_spec a :
  have_inthreads a = true \/ forallb (flat_inthreads false) (args a) = true ->
  Forall (fun m => Forall (askable m) (args a)) mails ->
  Forall (range_ok count) (mail_search_args_reset (args a) true) -> Forall (limit_ok hdr) (args a) ->
  index_search_args env mailbox_guid hdr mails threads a = Some (map m_seq (filter (fun m => eval_list (args a) m = 2) mails)).
Proof using mails_ok envs_ok each_ok.
  intros Hh Hs Hr Hl. unfold index_search_args. set (L := args a) in *. clearbody L.
  assert (Hb : exists l, (if have_inthreads a then search_build_inthreads env mailbox_guid hdr mails threads L else Some L) = Some l /\
            Forall (fun m => Forall (searchable in_thread m) l) mails /\ Forall (range_ok count) (mail_search_args_reset l true) /\ Forall (limit_ok hdr) l /\
            forall m, eval_list l m = eval_list L m).
  { destruct (have_inthreads a).
    - assert (Hm0 : exists m0, m0 ∈ mails) by (pose proof (box_count _ mails_ok); clear -H; destruct mails as [|m0 ?]; [cbn in H; lia | exists m0; by left]).
      destruct Hm0 as [m0 Hm0]. pose proof (proj1 (Forall_forall _ _) Hs m0 Hm0) as H0. cbn in H0.
      destruct (build_list_spec (askable m0) (build_arg env mailbox_guid hdr mails threads) L) as (l & E & Hb); [apply Forall_true; intros x; apply build_arg_spec | done |].
      exists l. unfold search_build_inthreads. split_and!; [done | | | |].
      + apply Forall_forall. intros m Hm. pose proof (proj1 (Forall_forall _ _) Hs m Hm) as Hsm. clear -Hb Hsm Hm mails_ok.
        induction Hb as [|x x' l l' Hx _ IH]; inversion Hsm; subst; constructor; [by eapply built_searchable | auto].
      + unfold mail_search_args_reset in *. clear -Hb Hr. induction Hb as [|x x' l l' Hx _ IH]; [constructor |]. inversion Hr; subst. constructor; [by eapply built_range | auto].
      + clear -Hb Hl. induction Hb as [|x x' l l' Hx _ IH]; [constructor |]. inversion Hl; subst. constructor; [by eapply built_limit | auto].
      + intros m. apply eval_list_eq. eapply Forall2_impl; [exact Hb |]. intros x x'. apply built_eval.
    - destruct Hh as [? | Hh]; [done |]. exists L. split_and!; [done | | done | done | done]. eapply Forall_impl; [exact Hs |]. intros m Hm. cbn in Hm.
      clear -Hh Hm. induction Hm as [|x l Hx _ IH]; [constructor |]. cbn in Hh. apply andb_true_iff in Hh as [? ?]. constructor; [by apply askable_searchable | auto]. }
  destruct Hb as (l & -> & Hs' & Hr' & Hl' & He). cbn [mbind option_bind].
  rewrite (index_search_spec in_thread env mailbox_guid hdr mails l envs_ok (box_count _ mails_ok) (box_numbered _ mails_ok)); [| | done | done].
  - do 2 f_equal. apply filter_ext, Forall_true. intros m. by rewrite He.
  - apply Forall_forall. intros m Hm. destruct (proj1 (Forall_forall _ _) each_ok m Hm) as (? & ? & ?). split_and!; [done | done | exact (proj1 (Forall_forall _ _) Hs' m Hm) | done].
Qed.
End Threads.
