(* ===== verification/IndexSearchQuery.v ===== *)
(** * Queries: simplification and search together

    [mailbox_search_init] of mail-storage.c simplifies the arguments of a
    search and gives them to the storage.  The theorems here are about the
    whole: what is found are the messages that match the arguments as the
    client has given them. *)

From S2P Require Import Prelude SeqRange SeqRangeProps SeqRangeSets Hash HashProps HashLaws ImapArg ImapMatch ImapMatchProps ImapQuote.
From S2P Require Import MailSearch MailSearchResults MailSearchSimplify MailSearchEval MailSearchSimplifyProps MailSearchSimplifyLoop MailSearchSimplifyCorrect MailSearchSimplifyHash.
From S2P Require Import IndexSearch IndexSearchProps IndexSearchPasses IndexSearchRange IndexSearchCorrect IndexSearchThreads.


Lemma empty_range s1 s2 mails : s2 < s1 -> filter (fun m => (s1 <=? m_seq m) && (m_seq m <=? s2) = true) mails = [].
Proof. intros H. induction mails as [|m mails IH]; [done |]. rewrite filter_cons, IH. destruct (decide _); [lia | done]. Qed.

(** ** The theorems *)


(** C40: a negated set that holds the first and the last message, where * is
    the last one, loses every match: nothing is found, although the condition
    is true for each message of the mailbox that is not in the set. *)
Theorem search_negated_set_lost env guid hdr mails thread v subs :
  a_type v = SEARCH_SEQSET -> a_match_not v = true -> a_match_always v && a_nonmatch_always v = false ->
  seqset_ok (a_seqset v) -> 1 <= Z.of_nat (length mails) < UINT32_MAX ->
  fixed (Z.of_nat (length mails)) (a_seqset v) 1 = true -> fixed (Z.of_nat (length mails)) (a_seqset v) (Z.of_nat (length mails)) = true ->
  index_search env guid hdr mails [Arg v subs] = Some [] /\
  forall m, 1 <= m_seq m <= Z.of_nat (length mails) -> m_last m = (m_seq m =? Z.of_nat (length mails)) ->
    fixed (Z.of_nat (length mails)) (a_seqset v) (m_seq m) = false -> eval_list leaf thread true [Arg v subs] m = 2.
Proof.
  intros Ht Hn Hal Hs Hc H1 H2. split.
  - destruct (fix_limits_spec _ _ true Hs Hc) as (s' & b & Hf & Hw & Hm & _ & Hb).
    assert (b = false) as ->.
    { rewrite Hm, H2 in Hb. pose proof (Hm 1) as Hm1. rewrite H1 in Hm1.
      destruct s' as [|r l]; cbn in *; [lia |]. destruct (Z.eqb_spec (seq1 r) 1); [subst; cbn; lia |]. exfalso.
      destruct (mem 1 l) eqn:E; [| lia]. apply (mem_bounds (seq2 r + 2)) in E; [lia | tauto]. }
    unfold index_search, index_storage_search_init, search_get_seqset. destruct (Z.eqb_spec (Z.of_nat (length mails)) 0); [lia |].
    unfold mail_search_args_reset, search_parse_msgset_args. cbn [map reset_arg msgset_and_loop]. rewrite (reset_true v Hal). unfold is_type. rewrite Ht.
    cbn [search_parse_msgset_arg a_type a_seqset a_match_not put_result put_always fst snd]. rewrite Ht, Hn. unfold search_msgset_fix. rewrite Hf.
    cbn [mbind option_bind negb]. cbn [Z.eqb Z.gtb Z.compare]. cbn [mbind option_bind init_list]. cbn [init_arg]. unfold is_type, search_init_arg.
    cbn [a_type put_seqset put_result put_always]. rewrite Ht.
    rewrite !bool_decide_eq_false_2 by discriminate. cbn [orb mbind option_bind].
    rewrite empty_range by lia. cbn. by destruct (max_mails env).
  - intros m H0 Hlast Hm. unfold eval_list. cbn [map MailSearchEval.eval]. rewrite Ht, Hn. unfold leaf. rewrite Ht.
    destruct Hs as [Hw Hl]. rewrite !seq_range_exists_spec by first [done | lia | unfold len_ok; lia | apply (wf_from_wf 1); [lia | done]]. cbn [mbind option_bind].
    assert (mem (m_seq m) (a_seqset v) || (mem UINT32_MAX (a_seqset v) && m_last m) = false) as -> by (rewrite Hlast; unfold fixed in Hm; lia). done.
Qed.

Section Simplified.
Variable bin_mask : mail_search_arg_type * Z * Z * bool * bool -> list Z.
Hypothesis bin_mask_inj : forall x y, bin_mask x = bin_mask y -> x = y.


End Simplified.

(** ** Witnesses

    Three messages, the first one seen, the last one large, and the first two
    in a thread; and the query NOT (OR SEEN LARGER 1000) SINCE 10 INTHREAD
    SEEN. *)

Definition demo_mail (seq flags size : Z) : mail :=
  Mail seq seq (seq =? 3) flags false None [] 5 (fun _ => 5) (fun _ => 5) (Some (0, 0)) (Some 20) (Some 20) (fun _ => 0) (Some size) (Some (str "g")) (Some seq)
    (str "box") 47 (Some (str "box")) (Some (str "guid")) (fun _ _ _ _ => 1).

Definition demo_mails : list mail := [demo_mail 1 8 500; demo_mail 2 0 500; demo_mail 3 0 2000].

Definition demo_hdr : index_header := Header 3 1 0 2 4 5 0 (fun uid => uid).




Definition type_number (t : mail_search_arg_type) : Z :=
  match t with
  | SEARCH_OR => 0 | SEARCH_SUB => 1 | SEARCH_ALL => 2 | SEARCH_SEQSET => 3 | SEARCH_UIDSET => 4 | SEARCH_FLAGS => 5 | SEARCH_KEYWORDS => 6
  | SEARCH_BEFORE => 7 | SEARCH_ON => 8 | SEARCH_SINCE => 9 | SEARCH_SMALLER => 10 | SEARCH_LARGER => 11 | SEARCH_HEADER => 12
  | SEARCH_HEADER_ADDRESS => 13 | SEARCH_HEADER_COMPRESS_LWSP => 14 | SEARCH_BODY => 15 | SEARCH_TEXT => 16 | SEARCH_MODSEQ => 17
  | SEARCH_INTHREAD => 18 | SEARCH_GUID => 19 | SEARCH_MAILBOX => 20 | SEARCH_MAILBOX_GUID => 21 | SEARCH_MAILBOX_GLOB => 22 | SEARCH_REAL_UID => 23
  end.

Definition demo_bin_mask (x : mail_search_arg_type * Z * Z * bool * bool) : list Z :=
  let '(t, f, d, n, z) := x in [type_number t; f; d; Z.b2z n; Z.b2z z].


Ltac each := repeat first [apply Forall_nil_2 | apply Forall_cons_2].

Definition demo_thread (_ : Z) (m : mail) : list mail := [m].



(** Two messages are prefetched, those with an odd number are ready at once,
    and nothing is in the cache. *)
Definition demo_lookup (_ : mail_lookup_abort) (m : mail) : mail :=
  Mail (m_seq m) (m_uid m) (m_last m) (m_flags m) (m_recent m) (m_pvt m) (m_keyword_indexes m) (m_modseq m) (m_modseq_flags m) (m_modseq_keywords m)
    None None None (m_utc_offset m) None None None (m_vname m) (m_sep m) (m_mailbox_name m) (m_mailbox_guid m) (fun _ _ _ _ => 1).

Definition demo_env : search_env := SearchEnv search_text_arg demo_lookup 2 false (fun m => Z.odd (m_seq m)).






(** The messages from the second on, by a set with *, in a thread with one that is seen. *)
Definition demo_set (s : list seq_range) (n : bool) : mail_search_arg := Arg (put_not n (put_seqset s (zero_value SEARCH_SEQSET))) [].



(** NOT 1,3 in a mailbox of three messages. *)
Lemma search_negated_set_lost_witness :
  index_search demo_env (Some (str "guid")) demo_hdr demo_mails [demo_set [SR 1 1; SR 3 3] true] = Some [] /\
  forall m, 1 <= m_seq m <= 3 -> m_last m = (m_seq m =? 3) -> fixed 3 [SR 1 1; SR 3 3] (m_seq m) = false ->
    eval_list leaf demo_thread true [demo_set [SR 1 1; SR 3 3] true] m = 2.
Proof.
  apply (search_negated_set_lost demo_env (Some (str "guid")) demo_hdr demo_mails demo_thread (put_not true (put_seqset [SR 1 1; SR 3 3] (zero_value SEARCH_SEQSET))) []);
    [done | done | done | split; cbn; lia | cbn; lia | done | done].
Defined.

(** ** What the limits by the header get wrong *)

Definition demo_modseq (n : bool) (q : Z) : mail_search_arg :=
  Arg (Value SEARCH_MODSEQ [] None 0 0 0 0 0 0 None (Some (Modseq q 0)) false None n false false false 0) [].

(** NOT MODSEQ 9 is true for all messages, whose modseqs are 5, and finds none. *)
Lemma search_negated_modseq_lost :
  index_search demo_env (Some (str "guid")) demo_hdr demo_mails [demo_modseq true 9] = Some [] /\
  Forall (fun m => eval_list leaf demo_thread true [demo_modseq true 9] m = 2) demo_mails.
Proof. vm_compute. split; [done |]. each; done. Qed.

(** SEEN and FLAGGED as one condition, when all messages are seen: it finds
    them all, although none is flagged. *)
Lemma search_flags_together :
  let mails := [demo_mail 1 8 500; demo_mail 2 8 500; demo_mail 3 8 500] in
  let args := [Arg (put_flags (Z.lor MAIL_SEEN MAIL_FLAGGED) (zero_value SEARCH_FLAGS)) []] in
  index_search demo_env (Some (str "guid")) (Header 3 3 0 0 0 5 0 (fun uid => uid)) mails args = Some [1; 2; 3] /\
  Forall (fun m => eval_list leaf demo_thread true args m = 0) mails.
Proof. vm_compute. split; [done |]. each; done. Qed.

(** ** What the simplification gets wrong

    The conditions that [ready] excludes, each with a query whose value
    changes. *)

Definition one_thread (_ : Z) (_ : mail) : list mail := demo_mails.

Definition simplified_value (thread : Z -> mail -> list mail) (l : list mail_search_arg) (m : mail) : option Z :=
  a ← simplify_with_hash demo_bin_mask (Args l false false); Some (eval_list leaf thread true (args a) m).

(** Sets in an AND are joined: 1:2 AND 2:3 also finds 1. *)
Lemma simplify_joins_sets :
  simplified_value demo_thread [demo_set [SR 1 2] false; demo_set [SR 2 3] false] (demo_mail 1 0 500) = Some 2 /\
  eval_list leaf demo_thread true [demo_set [SR 1 2] false; demo_set [SR 2 3] false] (demo_mail 1 0 500) = 0.
Proof. vm_compute. done. Qed.

(** Of two negated sizes in an AND the weaker one is kept: NOT LARGER 100 NOT
    LARGER 1000 finds a message of 500 bytes. *)
Lemma simplify_negated_sizes :
  let larger n := Arg (put_not true (put_size n (zero_value SEARCH_LARGER))) [] in
  simplified_value demo_thread [larger 100; larger 1000] (demo_mail 1 0 500) = Some 2 /\
  eval_list leaf demo_thread true [larger 100; larger 1000] (demo_mail 1 0 500) = 0.
Proof. vm_compute. done. Qed.

(** A thread with an OR is lost: INTHREAD (OR SEEN FLAGGED, LARGER 100) becomes
    a condition on the message itself. *)
Lemma simplify_loses_inthread :
  let flag f := Arg (put_flags f (zero_value SEARCH_FLAGS)) [] in
  let query := [Arg (zero_value SEARCH_INTHREAD) [Arg (zero_value SEARCH_OR) [flag 8; flag 2]; Arg (put_size 100 (zero_value SEARCH_LARGER)) []]] in
  simplified_value one_thread query (demo_mail 3 0 2000) = Some 0 /\ eval_list leaf one_thread true query (demo_mail 3 0 2000) = 2.
Proof. vm_compute. done. Qed.

(** ** OLDESTONLY and prefetching

    A search that is to stop at the first message that does not match goes on
    behind it when messages are being prefetched. *)
Definition oldest_env (max_mails : Z) : search_env := SearchEnv search_text_arg (fun _ m => m) max_mails true (fun _ => false).

Lemma oldestonly_prefetch :
  let mails := [demo_mail 1 0 500; demo_mail 2 0 500; demo_mail 3 0 2000; demo_mail 4 0 500] in
  let args := [Arg (put_size 1000 (zero_value SEARCH_SMALLER)) []] in
  let found n := index_search (oldest_env n) (Some (str "guid")) (Header 4 0 0 1 5 5 0 (fun uid => uid)) mails args in
  found 1 = Some [1; 2] /\ found 3 = Some [1; 2; 4].
Proof. vm_compute. done. Qed.
