(* ===== verification/MailIndexMap.v ===== *)
(** * Maps of a mail index (src/src/lib-index/mail-index-map.c, mail-index-private.h)

    A map is the header of an index and its records in memory.  Several maps
    may share their records: a view that was opened earlier sees fewer of them,
    but the same flags.  The state has the maps and the record maps by number;
    a map whose reference count is 0 has been freed, and the [maps] array of a
    record map are the others that refer to it.

    Of the header, the members are modelled that synchronisation counts or
    searches use.  Extensions, keywords and modification sequences are left
    out; [in_memory] tells whether the records are not in a mapped file. *)

From S2P Require Import Prelude SeqRange ImapQuote.

Record mail_index_record := Rec { r_uid : Z; r_flags : Z }.

#[export] Instance mail_index_record_eq_dec : EqDecision mail_index_record.
Proof. solve_decision. Defined.

Record mail_index_header := Hdr {
  h_base_header_size : Z;
  h_flags : Z;
  h_next_uid : Z;
  h_messages_count : Z;
  h_seen_messages_count : Z;
  h_deleted_messages_count : Z;
  h_first_unseen_uid_lowwater : Z;
  h_first_deleted_uid_lowwater : Z;
}.

(** [records_count] is the length of [records]. *)
Record mail_index_record_map := RecMap { records : list mail_index_record; last_appended_uid : Z; in_memory : bool }.

(** [log_head] is the [log_file_head_offset] of the header: how many changes of
    the log are in the map. *)
Record mail_index_map := IndexMap { hdr : mail_index_header; refcount : Z; rec_map : nat; log_head : nat }.

(** The maps, the record maps, the map of the view that is synchronised, and
    [errors]. *)
Record mail_index := Index { maps : list mail_index_map; rec_maps : list mail_index_record_map; view_map : nat; errors : bool }.

(** ** Members of the header *)

Definition set_h_flags (x : Z) (h : mail_index_header) : mail_index_header :=
  Hdr (h_base_header_size h) x (h_next_uid h) (h_messages_count h) (h_seen_messages_count h) (h_deleted_messages_count h) (h_first_unseen_uid_lowwater h) (h_first_deleted_uid_lowwater h).

Definition set_h_next_uid (x : Z) (h : mail_index_header) : mail_index_header :=
  Hdr (h_base_header_size h) (h_flags h) x (h_messages_count h) (h_seen_messages_count h) (h_deleted_messages_count h) (h_first_unseen_uid_lowwater h) (h_first_deleted_uid_lowwater h).

Definition set_h_messages (x : Z) (h : mail_index_header) : mail_index_header :=
  Hdr (h_base_header_size h) (h_flags h) (h_next_uid h) x (h_seen_messages_count h) (h_deleted_messages_count h) (h_first_unseen_uid_lowwater h) (h_first_deleted_uid_lowwater h).

Definition set_h_seen (n low : Z) (h : mail_index_header) : mail_index_header :=
  Hdr (h_base_header_size h) (h_flags h) (h_next_uid h) (h_messages_count h) n (h_deleted_messages_count h) low (h_first_deleted_uid_lowwater h).

Definition set_h_deleted (n low : Z) (h : mail_index_header) : mail_index_header :=
  Hdr (h_base_header_size h) (h_flags h) (h_next_uid h) (h_messages_count h) (h_seen_messages_count h) n (h_first_unseen_uid_lowwater h) low.

(** ** Lookups by UID *)

Definition MAIL_INDEX_MAP_IDX (recs : list mail_index_record) (idx : Z) : option mail_index_record :=
  if idx <? 0 then None else recs !! Z.to_nat idx.

Definition MAIL_INDEX_REC_AT_SEQ (recs : list mail_index_record) (seq : Z) : option mail_index_record := MAIL_INDEX_MAP_IDX recs (seq - 1).

(** The last index that was compared. *)
Fixpoint bsearch_uid_loop (fuel : nat) (recs : list mail_index_record) (uid left_idx idx right_idx : Z) : option Z :=
  match fuel with
  | O => None
  | S fuel =>
      if left_idx <? right_idx then
        let idx := u32 (left_idx + right_idx) / 2 in
        rec ← MAIL_INDEX_MAP_IDX recs idx;
        if r_uid rec <? uid then bsearch_uid_loop fuel recs uid (idx + 1) idx right_idx
        else if r_uid rec >? uid then bsearch_uid_loop fuel recs uid left_idx idx idx
        else Some idx
      else Some idx
  end.

Definition mail_index_bsearch_uid (h : mail_index_header) (recs : list mail_index_record) (uid left_idx nearest_side : Z) : option Z :=
  _ ← assert (h_messages_count h <=? Z.of_nat (length recs));
  let right_idx := Z.min (h_messages_count h) uid in
  _ ← assert (right_idx <? INT_MAX);
  idx ← bsearch_uid_loop (S (length recs)) recs uid left_idx left_idx right_idx;
  _ ← assert (idx <? h_messages_count h);
  rec ← MAIL_INDEX_MAP_IDX recs idx;
  Some (if negb (r_uid rec =? uid) then
          if nearest_side >? 0 then
            if r_uid rec >? uid then idx + 1 else if idx =? u32 (h_messages_count h - 1) then 0 else idx + 2
          else if r_uid rec <? uid then idx + 1 else idx
        else idx + 1).

(** [first_seq_r] and [last_seq_r]. *)
Definition mail_index_map_lookup_seq_range (h : mail_index_header) (recs : list mail_index_record) (first_uid last_uid : Z) : option (Z * Z) :=
  _ ← assert (first_uid >? 0);
  _ ← assert (first_uid <=? last_uid);
  if h_messages_count h =? 0 then Some (0, 0)
  else
    first_seq ← mail_index_bsearch_uid h recs first_uid 0 1;
    if first_seq =? 0 then Some (0, 0)
    else
      rec ← MAIL_INDEX_REC_AT_SEQ recs first_seq;
      if r_uid rec >? last_uid then Some (0, 0)
      else if last_uid >=? u32 (h_next_uid h - 1) then
        if first_uid >? u32 (h_next_uid h - 1) then Some (0, 0) else Some (first_seq, h_messages_count h)
      else
        last_seq ← (if first_uid =? last_uid then Some first_seq else mail_index_bsearch_uid h recs last_uid (first_seq - 1) (-1));
        _ ← assert (last_seq >=? first_seq);
        Some (first_seq, last_seq).

(** [view_lookup_first] of mail-index-view.c: the loop over the records, and
    the first sequence from the low-water marks on; 0 when there is none. *)
Fixpoint lookup_first_loop (n : nat) (recs : list mail_index_record) (seq flags flags_mask : Z) : option Z :=
  match n with
  | O => Some 0
  | S n =>
      rec ← MAIL_INDEX_REC_AT_SEQ recs seq;
      if Z.land (r_flags rec) flags_mask =? flags mod 256 then Some seq else lookup_first_loop n recs (seq + 1) flags flags_mask
  end.

Definition view_lookup_first (h : mail_index_header) (recs : list mail_index_record) (flags flags_mask : Z) : option Z :=
  let asks f := negb (Z.land flags_mask f =? 0) in
  let low_uid := 1 in
  let low_uid := if asks MAIL_SEEN && (Z.land flags MAIL_SEEN =? 0) then Z.max low_uid (h_first_unseen_uid_lowwater h) else low_uid in
  let low_uid := if asks MAIL_DELETED && negb (Z.land flags MAIL_DELETED =? 0) then Z.max low_uid (h_first_deleted_uid_lowwater h) else low_uid in
  seq ← (if low_uid =? 1 then Some 1 else '(seq, _) ← mail_index_map_lookup_seq_range h recs low_uid (h_next_uid h); Some seq);
  if seq =? 0 then Some 0
  else
    _ ← assert (h_messages_count h <=? Z.of_nat (length recs));
    lookup_first_loop (Z.to_nat (h_messages_count h - seq + 1)) recs seq flags flags_mask.

(** ** The state *)

Definition put_map (i : nat) (m : mail_index_map) (st : mail_index) : mail_index := Index (<[i := m]> (maps st)) (rec_maps st) (view_map st) (errors st).

Definition put_rec_map (k : nat) (r : mail_index_record_map) (st : mail_index) : mail_index := Index (maps st) (<[k := r]> (rec_maps st)) (view_map st) (errors st).

Definition set_hdr (h : mail_index_header) (m : mail_index_map) : mail_index_map := IndexMap h (refcount m) (rec_map m) (log_head m).

Definition set_refcount (n : Z) (m : mail_index_map) : mail_index_map := IndexMap (hdr m) n (rec_map m) (log_head m).

Definition set_rec_map (k : nat) (m : mail_index_map) : mail_index_map := IndexMap (hdr m) (refcount m) k (log_head m).

Definition mail_index_sync_set_corrupted (st : mail_index) : mail_index := Index (maps st) (rec_maps st) (view_map st) true.

(** A map and its records. *)
Definition get_map (st : mail_index) (i : nat) : option (mail_index_map * mail_index_record_map) :=
  m ← maps st !! i; r ← rec_maps st !! rec_map m; Some (m, r).

(** Membership of the [maps] array of record map [k]. *)
Definition linked (k : nat) (m : mail_index_map) : bool := (0 <? refcount m) && (rec_map m =? k)%nat.

Definition linked_count (k : nat) (st : mail_index) : nat := length (filter (fun m => Is_true (linked k m)) (maps st)).

Definition mail_index_map_clone (st : mail_index) (i : nat) : option (mail_index * nat) :=
  m ← maps st !! i;
  Some (Index (maps st ++ [set_refcount 1 m]) (rec_maps st) (view_map st) (errors st), length (maps st)).

Definition mail_index_unmap (st : mail_index) (i : nat) : option mail_index :=
  m ← maps st !! i;
  _ ← assert (0 <=? refcount m - 1);
  Some (put_map i (set_refcount (refcount m - 1) m) st).

(** [mail_index_record_map_alloc] for map [i], with the records of its present
    record map copied. *)
Definition mail_index_map_copy_records (st : mail_index) (i : nat) : option mail_index :=
  '(m, r) ← get_map st i;
  Some (Index (<[i := set_rec_map (length (rec_maps st)) m]> (maps st)) (rec_maps st ++ [RecMap (records r) 0 true]) (view_map st) (errors st)).

Definition mail_index_record_map_move_to_private (st : mail_index) (i : nat) : option mail_index :=
  '(m, _) ← get_map st i;
  st ← (if (1 <? linked_count (rec_map m) st)%nat then mail_index_map_copy_records st i else Some st);
  '(m, r) ← get_map st i;
  let n := h_messages_count (hdr m) in
  if Z.of_nat (length (records r)) =? n then Some st
  else
    last ← (if n =? 0 then Some 0 else rec ← MAIL_INDEX_REC_AT_SEQ (records r) n; Some (r_uid rec));
    Some (put_rec_map (rec_map m) (RecMap (take (Z.to_nat n) (records r)) last (in_memory r)) st).

Definition mail_index_map_move_to_memory (st : mail_index) (i : nat) : option mail_index :=
  '(m, r) ← get_map st i;
  if in_memory r then Some st
  else if (linked_count (rec_map m) st =? 1)%nat then Some (put_rec_map (rec_map m) (RecMap (records r) (last_appended_uid r) true) st)
  else mail_index_map_copy_records st i.

(** ** The check of a map (mail-index-sync-update.c) *)

(** The counters of deleted and seen messages of the records from [prev_uid] on. *)
Fixpoint map_check_loop (h : mail_index_header) (recs : list mail_index_record) (prev_uid del seen : Z) : option (Z * Z) :=
  match recs with
  | [] => Some (del, seen)
  | rec :: recs =>
      _ ← assert (r_uid rec >? prev_uid);
      del ← (if negb (Z.land (r_flags rec) MAIL_DELETED =? 0)
             then _ ← assert (r_uid rec >=? h_first_deleted_uid_lowwater h); Some (u32 (del + 1)) else Some del);
      seen ← (if negb (Z.land (r_flags rec) MAIL_SEEN =? 0) then Some (u32 (seen + 1))
              else _ ← assert (r_uid rec >=? h_first_unseen_uid_lowwater h); Some seen);
      map_check_loop h recs (r_uid rec) del seen
  end.

(** [None] when an assertion fails. *)
Definition mail_index_map_check (h : mail_index_header) (recs : list mail_index_record) : option unit :=
  _ ← assert (h_messages_count h <=? Z.of_nat (length recs));
  '(del, seen) ← map_check_loop h (take (Z.to_nat (h_messages_count h)) recs) 0 0 0;
  _ ← assert (del =? h_deleted_messages_count h);
  assert (seen =? h_seen_messages_count h).
