(* ===== verification/MailIndexMapProps.v ===== *)
(** * Lookups in a map of a mail index

    The binary search for a UID, the range of sequences of a range of UIDs, and
    the first message with given flags from the low-water marks on. *)

From S2P Require Import Prelude SeqRange ImapQuote MailIndexMap.

(** ** Ascending UIDs *)

Definition ascending (recs : list mail_index_record) : Prop := StronglySorted (fun a b => r_uid a < r_uid b) recs /\ Forall (fun r => 1 <= r_uid r) recs.

Lemma ascending_lt recs i j a b : ascending recs -> recs !! i = Some a -> recs !! j = Some b -> (i < j)%nat -> r_uid a < r_uid b.
Proof.
  intros [Hs _]. revert i j. induction Hs as [| r l Hs IH Hf]; intros i j Ha Hb Hij; [done |]. destruct j as [|j]; [lia |]. destruct i as [|i]; cbn in *.
  - injection Ha as <-. rewrite Forall_lookup in Hf. eauto.
  - eapply IH; [done.. | lia].
Qed.

Lemma ascending_ge recs i a : ascending recs -> recs !! i = Some a -> Z.of_nat i + 1 <= r_uid a.
Proof.
  intros Hs. revert a. induction i as [|i IH]; intros a Ha.
  - destruct Hs as [_ Hf]. rewrite Forall_lookup in Hf. specialize (Hf _ _ Ha). cbn in Hf. lia.
  - destruct (lookup_lt_is_Some_2 recs i) as [b Hb]; [apply lookup_lt_Some in Ha; lia |]. specialize (IH b Hb).
    pose proof (ascending_lt recs i (S i) b a Hs Hb Ha). lia.
Qed.

Lemma ascending_take n recs : ascending recs -> ascending (take n recs).
Proof.
  intros [Hs Hf]. split; [| by apply Forall_take]. clear Hf. revert n. induction Hs as [| r l Hs IH Hf]; intros [|n]; cbn; constructor; auto using Forall_take.
Qed.

Lemma map_idx_lookup recs idx : 0 <= idx -> MAIL_INDEX_MAP_IDX recs idx = recs !! Z.to_nat idx.
Proof. intros. unfold MAIL_INDEX_MAP_IDX. destruct (Z.ltb_spec idx 0); [lia | done]. Qed.

Lemma map_idx_some recs idx : 0 <= idx < Z.of_nat (length recs) -> exists rec, recs !! Z.to_nat idx = Some rec /\ MAIL_INDEX_MAP_IDX recs idx = Some rec.
Proof. intros H. rewrite map_idx_lookup by lia. destruct (lookup_lt_is_Some_2 recs (Z.to_nat idx)) as [rec ->]; [lia | eauto]. Qed.

(** The first [n] records have [P] from index [lo] to before [hi]. *)
Definition span (recs : list mail_index_record) (lo hi : Z) (P : Z -> Prop) : Prop := forall i rec, recs !! i = Some rec -> lo <= Z.of_nat i < hi -> P (r_uid rec).

Section Search.
Context (h : mail_index_header) (recs : list mail_index_record).
Let n := h_messages_count h.
Hypothesis Hasc : ascending recs.
Hypothesis Hn : 0 <= n <= Z.of_nat (length recs).
Hypothesis Hmax : n < INT_MAX.

(** Where a search for [uid] ends. *)
Definition nearest (uid idx : Z) : Prop :=
  exists rec, recs !! Z.to_nat idx = Some rec /\ 0 <= idx < n /\
    (r_uid rec = uid \/ (r_uid rec < uid /\ span recs (idx + 1) n (fun u => uid < u)) \/ (uid < r_uid rec /\ span recs 0 idx (fun u => u < uid))).

Lemma bsearch_uid_loop_spec fuel uid left_idx idx right_idx :
  0 <= left_idx <= right_idx -> right_idx <= n -> right_idx - left_idx < Z.of_nat fuel ->
  span recs 0 left_idx (fun u => u < uid) -> span recs right_idx n (fun u => uid < u) ->
  (left_idx < right_idx \/ nearest uid idx) ->
  exists idx', bsearch_uid_loop fuel recs uid left_idx idx right_idx = Some idx' /\ nearest uid idx'.
Proof.
  revert left_idx idx right_idx. induction fuel as [|fuel IH]; intros l idx r H1 H2 Hf Hl Hr Hd; [lia |]. cbn [bsearch_uid_loop].
  destruct (Z.ltb_spec l r) as [Hlt |]; [| exists idx; split; [done |]; destruct Hd; [lia | done]].
  rewrite u32_small by (unfold is_u32; lia). set (m := (l + r) / 2). assert (Hm : l <= m < r) by (subst m; Z.to_euclidean_division_equations; lia). clearbody m.
  destruct (map_idx_some recs m) as (rec & Hrec & ->); [lia |]. cbn [mbind option_bind].
  assert (Hbelow : r_uid rec < uid -> span recs 0 (m + 1) (fun u => u < uid)).
  { intros Hu i x Hx Hi. destruct (decide (i = Z.to_nat m)) as [-> |]; [by simplify_eq |]. pose proof (ascending_lt recs i (Z.to_nat m) x rec Hasc Hx Hrec). lia. }
  assert (Habove : uid < r_uid rec -> span recs m n (fun u => uid < u)).
  { intros Hu i x Hx Hi. destruct (decide (i = Z.to_nat m)) as [-> |]; [by simplify_eq |]. pose proof (ascending_lt recs (Z.to_nat m) i rec x Hasc Hrec Hx). lia. }
  destruct (Z.ltb_spec (r_uid rec) uid) as [Hu |].
  - apply IH; [lia | lia | lia | by apply Hbelow | done |]. destruct (decide (m + 1 < r)); [by left | right]. assert (m + 1 = r) as <- by lia.
    exists rec. split_and!; [done | lia | lia |]. right. by left.
  - destruct (Z.gtb_spec (r_uid rec) uid) as [Hu |].
    + apply IH; [lia | lia | lia | done | by apply Habove |]. destruct (decide (l < m)); [by left | right]. assert (l = m) as -> by lia.
      exists rec. split_and!; [done | lia | lia |]. right. by right.
    + exists m. split; [done |]. exists rec. split_and!; [done | lia | lia |]. left. lia.
Qed.

Lemma mail_index_bsearch_uid_spec uid left_idx side :
  0 <= left_idx < Z.min n uid -> span recs 0 left_idx (fun u => u < uid) ->
  exists s, mail_index_bsearch_uid h recs uid left_idx side = Some s /\ 0 <= s <= n /\
    if side >? 0 then (s = 0 /\ span recs 0 n (fun u => u < uid)) \/ (1 <= s /\ span recs 0 (s - 1) (fun u => u < uid) /\ span recs (s - 1) n (fun u => uid <= u))
    else span recs 0 s (fun u => u <= uid) /\ span recs s n (fun u => uid < u).
Proof.
  intros Hl Hs. unfold mail_index_bsearch_uid. fold n. rewrite assert_true by lia. cbn [mbind option_bind]. rewrite assert_true by lia. cbn [mbind option_bind].
  destruct (bsearch_uid_loop_spec (S (length recs)) uid left_idx left_idx (Z.min n uid)) as (idx & -> & rec & Hrec & Hi & Hc); [lia | lia | lia | done | | by left; lia |].
  { intros i x Hx Hi. pose proof (ascending_ge recs i x Hasc Hx). lia. }
  cbn [mbind option_bind]. rewrite assert_true by lia. cbn [mbind option_bind]. rewrite map_idx_lookup, Hrec by lia. cbn [mbind option_bind].
  rewrite u32_small by (unfold is_u32; lia).
  assert (Hb : forall i x, recs !! i = Some x -> Z.of_nat i < idx -> r_uid x < r_uid rec) by (intros i x Hx ?; eapply (ascending_lt recs i (Z.to_nat idx)); [done.. | lia]).
  assert (Ha : forall i x, recs !! i = Some x -> idx < Z.of_nat i -> r_uid rec < r_uid x) by (intros i x Hx ?; eapply (ascending_lt recs (Z.to_nat idx) i); [done.. | lia]).
  assert (He : forall i x, recs !! i = Some x -> Z.of_nat i = idx -> r_uid rec = r_uid x) by (intros i x Hx <-; rewrite Nat2Z.id in Hrec; by simplify_eq).
  assert (Hall : forall i x, recs !! i = Some x -> Z.of_nat i < n ->
    (Z.of_nat i < idx /\ r_uid x < r_uid rec /\ r_uid x < uid) \/ (Z.of_nat i = idx /\ r_uid x = r_uid rec) \/ (idx < Z.of_nat i /\ r_uid rec < r_uid x /\ uid < r_uid x)).
  { intros i x Hx Hin. specialize (Hb i x Hx). specialize (Ha i x Hx). specialize (He i x Hx).
    destruct Hc as [? | [[? Hc] | [? Hc]]]; [lia | specialize (Hc i x Hx); cbv beta in Hc; lia..]. }
  clear Hb Ha He Hs Hc. eexists. split; [reflexivity |]. unfold span.
  destruct (Z.gtb_spec side 0), (Z.eqb_spec (r_uid rec) uid), (Z.gtb_spec (r_uid rec) uid), (Z.ltb_spec (r_uid rec) uid), (Z.eqb_spec idx (n - 1)); cbn [negb]; try lia;
    (split; [lia |]); first [split | left; split; [done |] | right; split_and!; [lia | |]]; intros i x Hx Hix; specialize (Hall i x Hx); cbv beta; lia.
Qed.
End Search.

(** ** The invariant of the UIDs of a map *)

Record uids_ok (h : mail_index_header) (recs : list mail_index_record) : Prop := {
  uids_ascending : ascending recs;
  uids_count : 0 <= h_messages_count h <= Z.of_nat (length recs);
  uids_room : h_messages_count h < INT_MAX;
  uids_next : 1 <= h_next_uid h <= UINT32_MAX;
  uids_below : span recs 0 (h_messages_count h) (fun u => u < h_next_uid h);
}.

(** The sequences [s1] to [s2], or 0 and 0, are those of the messages with
    [first_uid] to [last_uid]. *)
Definition is_seq_range (h : mail_index_header) (recs : list mail_index_record) (first_uid last_uid s1 s2 : Z) : Prop :=
  0 <= s1 <= s2 /\ s2 <= h_messages_count h /\ (s1 = 0 -> s2 = 0) /\
  forall i rec, recs !! i = Some rec -> Z.of_nat i < h_messages_count h -> first_uid <= r_uid rec <= last_uid <-> s1 <= Z.of_nat i + 1 <= s2.

Lemma lookup_seq_range_spec h recs first_uid last_uid :
  uids_ok h recs -> 1 <= first_uid <= last_uid ->
  exists s1 s2, mail_index_map_lookup_seq_range h recs first_uid last_uid = Some (s1, s2) /\ is_seq_range h recs first_uid last_uid s1 s2.
Proof.
  intros [Hasc Hn Hmax Hnext Hbelow] Hu. unfold mail_index_map_lookup_seq_range, is_seq_range. set (n := h_messages_count h) in *. rewrite !assert_true by lia. cbn [mbind option_bind].
  destruct (Z.eqb_spec n 0) as [-> |]; [exists 0, 0; split_and!; [done | lia..] |].
  destruct (mail_index_bsearch_uid_spec h recs Hasc Hn Hmax first_uid 0 1) as (s & -> & Hs & Hc); [lia | intros ?; lia |]. cbn [mbind option_bind] in *. fold n in Hs, Hc.
  destruct (Z.eqb_spec s 0) as [-> |].
  { exists 0, 0. split_and!; [done | lia.. |]. intros i x Hx Hi. destruct Hc as [[_ Hc] | [? _]]; [| lia]. specialize (Hc i x Hx). cbv beta in Hc. lia. }
  destruct Hc as [[? _] | (_ & Hlo & Hhi)]; [lia |]. unfold MAIL_INDEX_REC_AT_SEQ. destruct (map_idx_some recs (s - 1)) as (rec & Hrec & ->); [lia |]. cbn [mbind option_bind].
  assert (Hge : forall i x, recs !! i = Some x -> s - 1 <= Z.of_nat i -> r_uid rec <= r_uid x).
  { intros i x Hx Hi. destruct (decide (i = Z.to_nat (s - 1))) as [-> |]; [by simplify_eq |]. pose proof (ascending_lt recs (Z.to_nat (s - 1)) i rec x Hasc Hrec Hx). lia. }
  destruct (Z.gtb_spec (r_uid rec) last_uid).
  { exists 0, 0. split_and!; [done | lia.. |]. intros i x Hx Hi. specialize (Hge i x Hx). specialize (Hlo i x Hx). cbv beta in Hlo. lia. }
  pose proof (Hbelow _ _ Hrec) as Hrn. pose proof (Hhi _ _ Hrec) as Hrf. cbv beta in Hrn, Hrf. rewrite u32_small by (unfold is_u32; lia).
  destruct (Z.geb_spec last_uid (h_next_uid h - 1)).
  { destruct (Z.gtb_spec first_uid (h_next_uid h - 1)); [lia |]. exists s, n. split_and!; [done | lia.. |].
    intros i x Hx Hi. specialize (Hlo i x Hx). specialize (Hhi i x Hx). specialize (Hbelow i x Hx). cbv beta in *. lia. }
  destruct (Z.eqb_spec first_uid last_uid) as [<- |]; cbn [mbind option_bind].
  { rewrite assert_true by lia. exists s, s. split_and!; [done | lia.. |]. intros i x Hx Hi. specialize (Hlo i x Hx). specialize (Hge i x Hx). cbv beta in *. split; [| intros Hi'].
    - intros Hf. destruct (decide (i = Z.to_nat (s - 1))) as [-> |]; [lia |]. pose proof (ascending_lt recs (Z.to_nat (s - 1)) i rec x Hasc Hrec Hx). lia.
    - assert (i = Z.to_nat (s - 1)) as -> by lia. simplify_eq. lia. }
  pose proof (ascending_ge recs _ _ Hasc Hrec).
  destruct (mail_index_bsearch_uid_spec h recs Hasc Hn Hmax last_uid (s - 1) (-1)) as (t & -> & Ht & Hc1 & Hc2); [lia | |].
  { intros i x Hx Hi. specialize (Hlo i x Hx). cbv beta in *. lia. }
  cbn [mbind option_bind]. fold n in Ht, Hc2. pose proof (Hc2 _ _ Hrec) as Hrt. cbv beta in Hrt.
  rewrite assert_true by lia. exists s, t. split_and!; [done | lia.. |]. intros i x Hx Hi. specialize (Hlo i x Hx). specialize (Hhi i x Hx). specialize (Hc1 i x Hx). specialize (Hc2 i x Hx). cbv beta in *. lia.
Qed.

(** ** Flags and low-water marks *)

Lemma land_seen f : (Z.land f MAIL_SEEN =? 0) = negb (Z.testbit f 3).
Proof. by apply (land_bit f 3). Qed.

Lemma land_deleted f : (Z.land f MAIL_DELETED =? 0) = negb (Z.testbit f 2).
Proof. by apply (land_bit f 2). Qed.

Definition seen (r : mail_index_record) : bool := Z.testbit (r_flags r) 3.
Definition deleted (r : mail_index_record) : bool := Z.testbit (r_flags r) 2.

Record lows_ok (h : mail_index_header) (recs : list mail_index_record) : Prop := {
  lows_unseen : Forall (fun r => seen r = false -> h_first_unseen_uid_lowwater h <= r_uid r) (take (Z.to_nat (h_messages_count h)) recs);
  lows_deleted : Forall (fun r => deleted r = true -> h_first_deleted_uid_lowwater h <= r_uid r) (take (Z.to_nat (h_messages_count h)) recs);
  lows_bound : h_first_unseen_uid_lowwater h <= h_next_uid h /\ h_first_deleted_uid_lowwater h <= h_next_uid h;
}.

Definition flags_match (flags flags_mask : Z) (r : mail_index_record) : Prop := Z.land (r_flags r) flags_mask = flags mod 256.

(** [s] is the first sequence from [from] on whose record has [P], or 0. *)
Definition is_first (h : mail_index_header) (recs : list mail_index_record) (P : mail_index_record -> Prop) (from s : Z) : Prop :=
  (s = 0 /\ forall i rec, recs !! i = Some rec -> from <= Z.of_nat i + 1 <= h_messages_count h -> ~ P rec) \/
  (from <= s <= h_messages_count h /\ (exists rec, recs !! Z.to_nat (s - 1) = Some rec /\ P rec) /\
   forall i rec, recs !! i = Some rec -> from <= Z.of_nat i + 1 < s -> ~ P rec).

Lemma lookup_first_loop_spec h recs flags flags_mask k seq :
  h_messages_count h <= Z.of_nat (length recs) -> 1 <= seq -> k = Z.to_nat (h_messages_count h - seq + 1) ->
  exists s, lookup_first_loop k recs seq flags flags_mask = Some s /\ is_first h recs (flags_match flags flags_mask) seq s.
Proof.
  intros Hl. revert seq. induction k as [|k IH]; intros seq H1 Hk; cbn [lookup_first_loop].
  { exists 0. split; [done |]. left. split; [done |]. intros; lia. }
  unfold MAIL_INDEX_REC_AT_SEQ. destruct (map_idx_some recs (seq - 1)) as (rec & Hrec & ->); [lia |]. cbn [mbind option_bind].
  destruct (Z.eqb_spec (Z.land (r_flags rec) flags_mask) (flags mod 256)) as [He | He].
  { exists seq. split; [done |]. right. split_and!; [lia | lia | by exists rec | intros; lia]. }
  destruct (IH (seq + 1)) as (s & -> & Hs); [lia | lia |]. exists s. split; [done |].
  assert (Hhere : forall i x, recs !! i = Some x -> Z.of_nat i + 1 = seq -> ~ flags_match flags flags_mask x).
  { intros i x Hx Hi. assert (i = Z.to_nat (seq - 1)) as -> by lia. by simplify_eq. }
  destruct Hs as [[-> Hs] | (Hr & Hx & Hs)]; [left; split; [done |] | right; split_and!; [lia | lia | done |]];
    intros i x Hi Hir; (destruct (decide (Z.of_nat i + 1 = seq)); [by eapply Hhere | eapply Hs; [done | lia]]).
Qed.

(** The low-water mark that a lookup starts from skips no match. *)
Lemma low_uid_spec h recs flags flags_mask i rec :
  lows_ok h recs -> recs !! i = Some rec -> Z.of_nat i < h_messages_count h -> flags_match flags flags_mask rec ->
  (negb (Z.land flags_mask MAIL_SEEN =? 0) && (Z.land flags MAIL_SEEN =? 0) = true -> h_first_unseen_uid_lowwater h <= r_uid rec) /\
  (negb (Z.land flags_mask MAIL_DELETED =? 0) && negb (Z.land flags MAIL_DELETED =? 0) = true -> h_first_deleted_uid_lowwater h <= r_uid rec).
Proof.
  intros [Hu Hd _] Hi Hn Hm. rewrite Forall_lookup in Hu, Hd. assert (Ht : take (Z.to_nat (h_messages_count h)) recs !! i = Some rec) by (rewrite lookup_take_lt; [done | lia]).
  specialize (Hu _ _ Ht). specialize (Hd _ _ Ht). unfold seen, deleted in *. rewrite !land_seen, !land_deleted, !negb_involutive.
  assert (Hb : forall k, 0 <= k < 8 -> Z.testbit (r_flags rec) k && Z.testbit flags_mask k = Z.testbit flags k).
  { intros k Hk. rewrite <- Z.land_spec. unfold flags_match in Hm. rewrite Hm. change 256 with (2 ^ 8). by rewrite Z.mod_pow2_bits_low by lia. }
  pose proof (Hb 3 ltac:(lia)) as H3. pose proof (Hb 2 ltac:(lia)) as H2.
  split; intros [Ha Hb']%andb_true_iff.
  - apply Hu. rewrite <- H3, Ha, andb_true_r in Hb'. by apply negb_true_iff.
  - apply Hd. by rewrite <- H2, Ha, andb_true_r in Hb'.
Qed.

Lemma view_lookup_first_spec h recs flags flags_mask :
  uids_ok h recs -> lows_ok h recs -> exists s, view_lookup_first h recs flags flags_mask = Some s /\ is_first h recs (flags_match flags flags_mask) 1 s.
Proof.
  intros Huids Hlows. pose proof (uids_count _ _ Huids) as Hn. pose proof (uids_next _ _ Huids) as Hnext. destruct (lows_bound _ _ Hlows) as [Hbu Hbd].
  unfold view_lookup_first. cbv zeta. set (low := if negb (Z.land flags_mask MAIL_DELETED =? 0) && _ then _ else _).
  assert (Hlow : 1 <= low <= h_next_uid h) by (subst low; destruct (_ && _), (_ && _); lia).
  assert (Hskip : forall i rec, recs !! i = Some rec -> Z.of_nat i < h_messages_count h -> flags_match flags flags_mask rec -> low <= r_uid rec).
  { intros i rec Hi Hin Hm. destruct (low_uid_spec h recs flags flags_mask i rec Hlows Hi Hin Hm) as [H1 H2]. pose proof (ascending_ge _ _ _ (uids_ascending _ _ Huids) Hi).
    subst low. destruct (_ && _); [specialize (H2 eq_refl) |]; (destruct (_ && _); [specialize (H1 eq_refl) |]); lia. }
  clearbody low.
  assert (Hseq : exists seq, (if low =? 1 then Some 1 else '(seq, _) ← mail_index_map_lookup_seq_range h recs low (h_next_uid h); Some seq) = Some seq /\ 0 <= seq /\ forall i rec, recs !! i = Some rec -> Z.of_nat i < h_messages_count h -> low <= r_uid rec -> 1 <= seq <= Z.of_nat i + 1).
  { destruct (Z.eqb_spec low 1); [exists 1; split_and!; [done | lia | intros; lia] |].
    destruct (lookup_seq_range_spec h recs low (h_next_uid h) Huids ltac:(lia)) as (s1 & s2 & -> & H1 & H2 & H3 & Hm). exists s1. split_and!; [done | lia |].
    intros i rec Hi Hin Hl. pose proof (uids_below _ _ Huids i rec Hi) as Hb. cbv beta in Hb. specialize (Hm i rec Hi Hin). lia. }
  destruct Hseq as (seq & -> & Hseq0 & Hseq). cbn [mbind option_bind]. destruct (Z.eqb_spec seq 0) as [-> |].
  { exists 0. split; [done |]. left. split; [done |]. intros i rec Hi Hin Hm. specialize (Hseq i rec Hi ltac:(lia) (Hskip i rec Hi ltac:(lia) Hm)). lia. }
  rewrite assert_true by lia. cbn [mbind option_bind]. destruct (lookup_first_loop_spec h recs flags flags_mask (Z.to_nat (h_messages_count h - seq + 1)) seq) as (s & -> & Hs); [lia | lia | done |].
  exists s. split; [done |]. destruct Hs as [[-> Hs] | (Hr & Hx & Hs)]; [left; split; [done |] | right; split_and!; [lia | lia | done |]]; intros i rec Hi Hir Hm;
    (assert (Hin : Z.of_nat i < h_messages_count h) by lia); specialize (Hseq i rec Hi Hin (Hskip i rec Hi Hin Hm)); (eapply Hs; [done | lia | done]).
Qed.
