(* ===== verification/MailIndexSync.v ===== *)
(** * Synchronising a map of a mail index (src/src/lib-index/mail-index-sync-update.c)

    The records of the transaction log that append, expunge and flag messages
    or change the header are applied to the map of a view.  A map that others
    share is cloned first, and its records are copied before they are moved, so
    that the other maps keep theirs; a change of flags is made in place, and the
    counters of every map with these records follow.

    Extensions, keywords, modification sequences and expunge handlers are left
    out, as is reading the log: a transaction is given as its records. *)

From S2P Require Import Prelude SeqRange ImapQuote MailIndexMap.

Definition MAIL_INDEX_MAIL_FLAG_DIRTY : Z := 0x80.
Definition MAIL_INDEX_HDR_FLAG_HAVE_DIRTY : Z := 0x0002.

(** ** Maps of one's own *)

Definition mail_index_sync_replace_map (st : mail_index) (i : nat) : option mail_index :=
  _ ← assert (negb (view_map st =? i)%nat);
  st ← mail_index_unmap st (view_map st);
  Some (Index (maps st) (rec_maps st) i (errors st)).

Definition mail_index_sync_move_to_private_memory (st : mail_index) : option mail_index :=
  m ← maps st !! view_map st;
  st ← (if refcount m >? 1 then '(st, i) ← mail_index_map_clone st (view_map st); mail_index_sync_replace_map st i else Some st);
  mail_index_map_move_to_memory st (view_map st).

Definition mail_index_sync_get_atomic_map (st : mail_index) : option mail_index :=
  st ← mail_index_sync_move_to_private_memory st;
  mail_index_record_map_move_to_private st (view_map st).

(** ** Counters and low-water marks *)

(** The header, and false when a counter is wrong. *)
Definition update_seen_count (h : mail_index_header) (old_flags new_flags : Z) : mail_index_header * bool :=
  let n := h_seen_messages_count h in
  if negb (Z.land (Z.lxor old_flags new_flags) MAIL_SEEN =? 0) then
    if negb (Z.land old_flags MAIL_SEEN =? 0) then
      if n =? 0 then (h, false) else (set_h_seen (n - 1) (h_first_unseen_uid_lowwater h) h, true)
    else if n >=? h_messages_count h then (h, false)
    else (set_h_seen (n + 1) (if n + 1 =? h_messages_count h then h_next_uid h else h_first_unseen_uid_lowwater h) h, true)
  else (h, true).

Definition update_deleted_count (h : mail_index_header) (old_flags new_flags : Z) : mail_index_header * bool :=
  let n := h_deleted_messages_count h in
  let low := h_first_deleted_uid_lowwater h in
  if negb (Z.land (Z.lxor old_flags new_flags) MAIL_DELETED =? 0) then
    if Z.land old_flags MAIL_DELETED =? 0 then
      let n := u32 (n + 1) in (set_h_deleted n low h, negb (n >? h_messages_count h))
    else if (n =? 0) || (n >? h_messages_count h) then (h, false)
    else (set_h_deleted (n - 1) (if n - 1 =? 0 then h_next_uid h else low) h, true)
  else (h, true).

Definition mail_index_header_update_counts (h : mail_index_header) (old_flags new_flags : Z) : mail_index_header * bool :=
  let '(h, ok) := update_seen_count h old_flags new_flags in if ok then update_deleted_count h old_flags new_flags else (h, false).

(** [f] on the header of every map of record map [k]. *)
Definition update_linked (k : nat) (f : mail_index_header -> mail_index_header * bool) (st : mail_index) : mail_index :=
  Index (map (fun m => if linked k m then set_hdr (f (hdr m)).1 m else m) (maps st)) (rec_maps st) (view_map st)
    (errors st || existsb (fun m => linked k m && negb (f (hdr m)).2) (maps st)).

Definition mail_index_sync_header_update_counts_all (st : mail_index) (uid old_flags new_flags : Z) : option mail_index :=
  m ← maps st !! view_map st;
  Some (update_linked (rec_map m) (fun h => if uid >=? h_next_uid h then (h, true) else mail_index_header_update_counts h old_flags new_flags) st).

Definition mail_index_sync_header_update_counts (st : mail_index) (uid old_flags new_flags : Z) : option mail_index :=
  m ← maps st !! view_map st;
  Some (if uid >=? h_next_uid (hdr m) then mail_index_sync_set_corrupted st
        else
          let '(h, ok) := mail_index_header_update_counts (hdr m) old_flags new_flags in
          let st := put_map (view_map st) (set_hdr h m) st in
          if ok then st else mail_index_sync_set_corrupted st).

Definition lower_lowwaters (uid flags : Z) (h : mail_index_header) : mail_index_header :=
  let h := if (Z.land flags MAIL_SEEN =? 0) && (uid <? h_first_unseen_uid_lowwater h) then set_h_seen (h_seen_messages_count h) uid h else h in
  if negb (Z.land flags MAIL_DELETED =? 0) && (uid <? h_first_deleted_uid_lowwater h) then set_h_deleted (h_deleted_messages_count h) uid h else h.

Definition mail_index_header_update_lowwaters (st : mail_index) (uid flags : Z) : option mail_index :=
  m ← maps st !! view_map st;
  Some (update_linked (rec_map m) (fun h => (lower_lowwaters uid flags h, true)) st).

(** ** Expunges *)

(** [memmove] of [count] records between sequences. *)
Definition move_records (buf : list mail_index_record) (dest_seq src_seq count : Z) : option (list mail_index_record) :=
  _ ← assert ((1 <=? dest_seq) && (1 <=? src_seq) && (dest_seq - 1 + count <=? Z.of_nat (length buf)) && (src_seq - 1 + count <=? Z.of_nat (length buf)));
  let d := Z.to_nat (dest_seq - 1) in
  let n := Z.to_nat count in
  Some (take d buf ++ take n (drop (Z.to_nat (src_seq - 1)) buf) ++ drop (d + n) buf).

(** The counters of the records from [seq] on. *)
Fixpoint expunge_counts (n : nat) (buf : list mail_index_record) (seq : Z) (st : mail_index) : option mail_index :=
  match n with
  | O => Some st
  | S n =>
      rec ← MAIL_INDEX_REC_AT_SEQ buf seq;
      st ← mail_index_sync_header_update_counts st (r_uid rec) (r_flags rec) 0;
      expunge_counts n buf (seq + 1) st
  end.

(** The last sequence and destination, the records in their buffer and how many
    of them are left. *)
Fixpoint expunge_loop (seqs : list seq_range) (prev_seq2 dest_seq1 : Z) (buf : list mail_index_record) (records_count : Z) (st : mail_index) :
    option (Z * Z * list mail_index_record * Z * mail_index) :=
  match seqs with
  | [] => Some (prev_seq2, dest_seq1, buf, records_count, st)
  | SR seq1 seq2 :: seqs =>
      _ ← assert (seq1 >? prev_seq2);
      st ← expunge_counts (Z.to_nat (seq2 - seq1 + 1)) buf seq1 st;
      '(dest_seq1, buf) ←
        (if prev_seq2 + 1 <=? seq1 - 1 then
           let move_count := (seq1 - 1) - (prev_seq2 + 1) + 1 in
           buf ← (if negb (prev_seq2 =? dest_seq1 - 1) then move_records buf dest_seq1 (prev_seq2 + 1) move_count else Some buf);
           Some (dest_seq1 + move_count, buf)
         else Some (dest_seq1, buf));
      let seq_count := seq2 - seq1 + 1 in
      m ← maps st !! view_map st;
      let h := set_h_messages (u32 (h_messages_count (hdr m) - seq_count)) (hdr m) in
      expunge_loop seqs seq2 dest_seq1 buf (u32 (records_count - seq_count)) (put_map (view_map st) (set_hdr h m) st)
  end.

Definition sync_expunge_range (st : mail_index) (seqs : list seq_range) : option mail_index :=
  match seqs with
  | [] => Some st
  | _ =>
      st ← mail_index_sync_get_atomic_map st;
      '(_, r) ← get_map st (view_map st);
      let orig_rec_count := Z.of_nat (length (records r)) in
      '(prev_seq2, dest_seq1, buf, count, st) ← expunge_loop seqs 0 1 (records r) orig_rec_count st;
      buf ← (if orig_rec_count >? prev_seq2 then move_records buf dest_seq1 (prev_seq2 + 1) (orig_rec_count - prev_seq2) else Some buf);
      m ← maps st !! view_map st;
      Some (put_rec_map (rec_map m) (RecMap (take (Z.to_nat count) buf) (last_appended_uid r) (in_memory r)) st)
  end.

(** ** Appends, flags and the header *)

(** The result is false for an error. *)
Definition sync_append (rec : mail_index_record) (st : mail_index) : option (bool * mail_index) :=
  m ← maps st !! view_map st;
  if r_uid rec <? h_next_uid (hdr m) then Some (false, mail_index_sync_set_corrupted st)
  else
    st ← mail_index_sync_move_to_private_memory st;
    '(m, r) ← get_map st (view_map st);
    '(new_flags, st) ←
      (if r_uid rec <=? last_appended_uid r then
         _ ← assert (h_messages_count (hdr m) <? Z.of_nat (length (records r)));
         old_rec ← MAIL_INDEX_MAP_IDX (records r) (h_messages_count (hdr m));
         _ ← assert (r_uid old_rec =? r_uid rec);
         Some (r_flags old_rec, st)
       else Some (r_flags rec, put_rec_map (rec_map m) (RecMap (records r ++ [rec]) (r_uid rec) (in_memory r)) st));
    let h := set_h_next_uid (u32 (r_uid rec + 1)) (set_h_messages (u32 (h_messages_count (hdr m) + 1)) (hdr m)) in
    let h := if negb (Z.land new_flags MAIL_INDEX_MAIL_FLAG_DIRTY =? 0) then set_h_flags (Z.lor (h_flags h) MAIL_INDEX_HDR_FLAG_HAVE_DIRTY) h else h in
    let st := put_map (view_map st) (set_hdr h m) st in
    st ← mail_index_header_update_lowwaters st (r_uid rec) new_flags;
    st ← mail_index_sync_header_update_counts st (r_uid rec) 0 new_flags;
    Some (true, st).

Record mail_transaction_flag_update := FlagUpdate { uid1 : Z; uid2 : Z; add_flags : Z; remove_flags : Z }.

(** The record at [seq] gets new flags; the counters follow when [counted]. *)
Definition flag_update_record (u : mail_transaction_flag_update) (counted : bool) (seq : Z) (st : mail_index) : option mail_index :=
  '(m, r) ← get_map st (view_map st);
  rec ← MAIL_INDEX_REC_AT_SEQ (records r) seq;
  let new_flags := Z.lor (Z.ldiff (r_flags rec) (remove_flags u)) (add_flags u) in
  let st := put_rec_map (rec_map m) (RecMap (<[Z.to_nat (seq - 1) := Rec (r_uid rec) new_flags]> (records r)) (last_appended_uid r) (in_memory r)) st in
  if counted then
    st ← mail_index_header_update_lowwaters st (r_uid rec) new_flags;
    mail_index_sync_header_update_counts_all st (r_uid rec) (r_flags rec) new_flags
  else Some st.

Fixpoint flag_update_loop (n : nat) (u : mail_transaction_flag_update) (counted : bool) (seq : Z) (st : mail_index) : option mail_index :=
  match n with
  | O => Some st
  | S n => st ← flag_update_record u counted seq st; flag_update_loop n u counted (seq + 1) st
  end.

Definition sync_flag_update (u : mail_transaction_flag_update) (st : mail_index) : option mail_index :=
  '(m, r) ← get_map st (view_map st);
  '(seq1, seq2) ← mail_index_map_lookup_seq_range (hdr m) (records r) (uid1 u) (uid2 u);
  if seq1 =? 0 then Some st
  else
    let h := if negb (Z.land (add_flags u) MAIL_INDEX_MAIL_FLAG_DIRTY =? 0) then set_h_flags (Z.lor (h_flags (hdr m)) MAIL_INDEX_HDR_FLAG_HAVE_DIRTY) (hdr m) else hdr m in
    let st := put_map (view_map st) (set_hdr h m) st in
    let counted := negb (Z.land (Z.lor (add_flags u) (remove_flags u)) (Z.lor MAIL_SEEN MAIL_DELETED) =? 0) in
    flag_update_loop (Z.to_nat (seq2 - seq1 + 1)) u counted seq1 st.

(** An update of the bytes of the header at [hu_offset]. *)
Record mail_transaction_header_update := HeaderUpdate { hu_offset : Z; hu_data : list Z }.

Definition hu_size (u : mail_transaction_header_update) : Z := Z.of_nat (length (hu_data u)).

(** The little-endian member of [size] bytes at [offset], which was [x]. *)
Fixpoint overwrite (u : mail_transaction_header_update) (offset : Z) (size : nat) (x : Z) : Z :=
  match size with
  | O => 0
  | S size =>
      let b := if hu_offset u <=? offset then default (x mod 256) (hu_data u !! Z.to_nat (offset - hu_offset u)) else x mod 256 in
      b + 256 * overwrite u (offset + 1) size (x / 256)
  end.

(** The offsets are those of [struct mail_index_header]. *)
Definition overwrite_header (u : mail_transaction_header_update) (h : mail_index_header) : mail_index_header :=
  Hdr (overwrite u 2 2 (h_base_header_size h)) (overwrite u 20 4 (h_flags h)) (overwrite u 28 4 (h_next_uid h)) (overwrite u 32 4 (h_messages_count h))
    (overwrite u 40 4 (h_seen_messages_count h)) (overwrite u 44 4 (h_deleted_messages_count h))
    (overwrite u 52 4 (h_first_unseen_uid_lowwater h)) (overwrite u 56 4 (h_first_deleted_uid_lowwater h)).

Definition sync_header_update (u : mail_transaction_header_update) (st : mail_index) : option (bool * mail_index) :=
  m ← maps st !! view_map st;
  let size := h_base_header_size (hdr m) in
  if (hu_offset u >=? size) || (hu_offset u + hu_size u >? size) then Some (false, mail_index_sync_set_corrupted st)
  else
    let h := overwrite_header u (hdr m) in
    let h := if h_next_uid h <? h_next_uid (hdr m) then set_h_next_uid (h_next_uid (hdr m)) h else h in
    Some (true, put_map (view_map st) (set_hdr h m) st).

(** ** Transactions *)

Inductive transaction :=
  | MAIL_TRANSACTION_APPEND (recs : list mail_index_record)
  | MAIL_TRANSACTION_EXPUNGE (external : bool) (uids : list (Z * Z))
  | MAIL_TRANSACTION_EXPUNGE_GUID (external : bool) (uids : list Z)
  | MAIL_TRANSACTION_FLAG_UPDATE (updates : list mail_transaction_flag_update)
  | MAIL_TRANSACTION_HEADER_UPDATE (updates : list mail_transaction_header_update).

(** Records in turn until one fails. *)
Fixpoint each {A} (f : A -> mail_index -> option (bool * mail_index)) (l : list A) (st : mail_index) : option mail_index :=
  match l with
  | [] => Some st
  | x :: l => '(ok, st) ← f x st; if (ok : bool) then each f l st else Some st
  end.

Fixpoint flag_updates (us : list mail_transaction_flag_update) (st : mail_index) : option mail_index :=
  match us with
  | [] => Some st
  | u :: us => st ← sync_flag_update u st; flag_updates us st
  end.

(** The sequences of the expunged UIDs. *)
Fixpoint expunge_seqs (h : mail_index_header) (recs : list mail_index_record) (uids : list (Z * Z)) (seqs : list seq_range) : option (list seq_range) :=
  match uids with
  | [] => Some seqs
  | (u1, u2) :: uids =>
      '(seq1, seq2) ← mail_index_map_lookup_seq_range h recs u1 u2;
      seqs ← (if seq1 =? 0 then Some seqs else seq_range_array_add_range seqs seq1 seq2);
      expunge_seqs h recs uids seqs
  end.

(** [mail_index_lookup_seq] has one place for both ends of the range, so it gives
    the last one. *)
Fixpoint expunge_guid_seqs (h : mail_index_header) (recs : list mail_index_record) (uids : list Z) (seqs : list seq_range) : option (list seq_range) :=
  match uids with
  | [] => Some seqs
  | uid :: uids =>
      _ ← assert (negb (uid =? 0));
      '(_, seq) ← mail_index_map_lookup_seq_range h recs uid uid;
      seqs ← (if seq =? 0 then Some seqs else '(_, seqs) ← seq_range_array_add seqs seq; Some seqs);
      expunge_guid_seqs h recs uids seqs
  end.

Definition mail_index_sync_record (t : transaction) (st : mail_index) : option mail_index :=
  match t with
  | MAIL_TRANSACTION_APPEND recs => each sync_append recs st
  | MAIL_TRANSACTION_EXPUNGE external uids =>
      if negb external then Some st
      else '(m, r) ← get_map st (view_map st); seqs ← expunge_seqs (hdr m) (records r) uids []; sync_expunge_range st seqs
  | MAIL_TRANSACTION_EXPUNGE_GUID external uids =>
      if negb external then Some st
      else '(m, r) ← get_map st (view_map st); seqs ← expunge_guid_seqs (hdr m) (records r) uids []; sync_expunge_range st seqs
  | MAIL_TRANSACTION_FLAG_UPDATE updates => flag_updates updates st
  | MAIL_TRANSACTION_HEADER_UPDATE updates => each sync_header_update updates st
  end.

(** ** The synchronisation of a map *)

Definition mail_index_sync_update_hdr_dirty_flag (h : mail_index_header) (recs : list mail_index_record) : mail_index_header :=
  if negb (Z.land (h_flags h) MAIL_INDEX_HDR_FLAG_HAVE_DIRTY =? 0) then h
  else if existsb (fun rec => negb (Z.land (r_flags rec) MAIL_INDEX_MAIL_FLAG_DIRTY =? 0)) recs then set_h_flags (Z.lor (h_flags h) MAIL_INDEX_HDR_FLAG_HAVE_DIRTY) h else h.

(** The records of the log and where each of them ends; a record that was
    applied is before the head of the map. *)
Fixpoint sync_records (log : list (transaction * nat)) (st : mail_index) : option mail_index :=
  match log with
  | [] => Some st
  | (t, head) :: log =>
      st ← mail_index_sync_record t st;
      m ← maps st !! view_map st;
      sync_records log (put_map (view_map st) (IndexMap (hdr m) (refcount m) (rec_map m) head) st)
  end.

(** The map of a view over the rest of the log, from the head of the map on.  The
    reference that the view adds is taken away again for the time, and the flag
    for dirty messages is cleared and set again if there are any.  A reset of
    the index, and records before the head that are read for the handlers of
    extensions only, are left out; the check is that of a debug build. *)
Definition mail_index_sync_map (log : list (transaction * nat)) (st : mail_index) : option mail_index :=
  m ← maps st !! view_map st;
  let had_dirty := negb (Z.land (h_flags (hdr m)) MAIL_INDEX_HDR_FLAG_HAVE_DIRTY =? 0) in
  let h := if had_dirty then set_h_flags (Z.ldiff (h_flags (hdr m)) MAIL_INDEX_HDR_FLAG_HAVE_DIRTY) (hdr m) else hdr m in
  st ← sync_records log (put_map (view_map st) (set_hdr h m) st);
  '(m, r) ← get_map st (view_map st);
  let st := if had_dirty then put_map (view_map st) (set_hdr (mail_index_sync_update_hdr_dirty_flag (hdr m) (records r)) m) st else st in
  '(m, r) ← get_map st (view_map st);
  _ ← mail_index_map_check (hdr m) (records r);
  Some st.
