(* ===== verification/MailIndexCounts.v ===== *)
(** * Counters and low-water marks of the header of a mail index

    What the header says of a list of messages, and that each change of a
    message's flags, each new message and each expunged one keeps it true. *)

From S2P Require Import Prelude SeqRange ImapQuote MailIndexMap MailIndexMapProps MailIndexSync.

#[local] Arguments Z.testbit : simpl never.
#[local] Arguments Z.add : simpl never.
#[local] Arguments Z.sub : simpl never.

(** ** Counting *)

Fixpoint count (p : mail_index_record -> bool) (l : list mail_index_record) : Z :=
  match l with
  | [] => 0
  | r :: l => Z.b2z (p r) + count p l
  end.

Lemma count_app p l1 l2 : count p (l1 ++ l2) = count p l1 + count p l2.
Proof. induction l1 as [| r l1 IH]; cbn [count app]; lia. Qed.

Lemma count_bounds p l : 0 <= count p l <= Z.of_nat (length l).
Proof. induction l as [| r l IH]; cbn [count length]; [lia |]. destruct (p r); cbn [Z.b2z]; lia. Qed.

Lemma count_insert p l i x y : l !! i = Some x -> count p (<[i := y]> l) = count p l - Z.b2z (p x) + Z.b2z (p y).
Proof. revert i. induction l as [| r l IH]; intros [|i] Hi; [done | done | cbn in *; simplify_eq; lia |]. change (<[S i := y]> (r :: l)) with (r :: <[i := y]> l). cbn [count]. rewrite (IH i Hi). lia. Qed.

Lemma count_all p l : count p l = Z.of_nat (length l) -> Forall (fun r => p r = true) l.
Proof.
  induction l as [| r l IH]; cbn [count length]; intros H; constructor; pose proof (count_bounds p l); destruct (p r); cbn [Z.b2z] in H; [done | lia | |]; apply IH; lia.
Qed.

Lemma count_none p l : count p l = 0 -> Forall (fun r => p r = false) l.
Proof.
  induction l as [| r l IH]; cbn [count]; intros H; constructor; pose proof (count_bounds p l); destruct (p r); cbn [Z.b2z] in H; [lia | done | |]; apply IH; lia.
Qed.

Lemma count_pos p l i x : l !! i = Some x -> p x = true -> 0 < count p l.
Proof. revert i. induction l as [| r l IH]; intros [|i] Hi Hp; cbn in *; simplify_eq; pose proof (count_bounds p l); [rewrite Hp; cbn; lia |]. specialize (IH i Hi Hp). destruct (p r); cbn; lia. Qed.

Lemma count_lt p l i x : l !! i = Some x -> p x = false -> count p l < Z.of_nat (length l).
Proof. revert i. induction l as [| r l IH]; intros [|i] Hi Hp; cbn in *; simplify_eq; pose proof (count_bounds p l); [rewrite Hp; cbn; lia |]. specialize (IH i Hi Hp). destruct (p r); cbn [Z.b2z]; lia. Qed.

(** ** What the header says *)

Record tallies (h : mail_index_header) (l : list mail_index_record) : Prop := {
  tally_seen : h_seen_messages_count h = count seen l;
  tally_deleted : h_deleted_messages_count h = count deleted l;
  tally_unseen_low : Forall (fun r => seen r = false -> h_first_unseen_uid_lowwater h <= r_uid r) l;
  tally_deleted_low : Forall (fun r => deleted r = true -> h_first_deleted_uid_lowwater h <= r_uid r) l;
  tally_bound : 0 <= h_first_unseen_uid_lowwater h <= h_next_uid h /\ 0 <= h_first_deleted_uid_lowwater h <= h_next_uid h;
}.

(** The members that counting leaves alone. *)
Definition same_counts (h h' : mail_index_header) : Prop :=
  h_base_header_size h' = h_base_header_size h /\ h_next_uid h' = h_next_uid h /\ h_messages_count h' = h_messages_count h.

Lemma same_counts_trans h1 h2 h3 : same_counts h1 h2 -> same_counts h2 h3 -> same_counts h1 h3.
Proof. unfold same_counts. intuition congruence. Qed.

(** ** The counters *)

Definition new_low (from to next low : Z) (now : bool) : Z := if now && (from =? to) then next else low.

Lemma update_seen_count_spec h f g :
  0 <= h_seen_messages_count h -> (Z.testbit f 3 = true -> 0 < h_seen_messages_count h) ->
  (Z.testbit f 3 = false -> Z.testbit g 3 = true -> h_seen_messages_count h < h_messages_count h) ->
  let n := h_seen_messages_count h - Z.b2z (Z.testbit f 3) + Z.b2z (Z.testbit g 3) in
  update_seen_count h f g = (set_h_seen n (new_low n (h_messages_count h) (h_next_uid h) (h_first_unseen_uid_lowwater h) (negb (Z.testbit f 3) && Z.testbit g 3)) h, true).
Proof.
  intros Hs S1 S2 n. unfold update_seen_count, new_low. subst n. rewrite !land_seen, !Z.lxor_spec, !negb_involutive. destruct h. cbn in *.
  destruct (Z.testbit f 3), (Z.testbit g 3); cbn [xorb negb andb Z.b2z]; unfold set_h_seen; cbn.
  - f_equal; f_equal; lia.
  - destruct (Z.eqb_spec h_seen_messages_count 0); [lia |]. f_equal; f_equal; lia.
  - destruct (Z.geb_spec h_seen_messages_count h_messages_count); [lia |]. rewrite Z.sub_0_r. done.
  - f_equal; f_equal; lia.
Qed.

Lemma update_deleted_count_spec h f g :
  0 <= h_deleted_messages_count h <= h_messages_count h -> h_messages_count h < INT_MAX -> (Z.testbit f 2 = true -> 0 < h_deleted_messages_count h) ->
  (Z.testbit f 2 = false -> Z.testbit g 2 = true -> h_deleted_messages_count h < h_messages_count h) ->
  let n := h_deleted_messages_count h - Z.b2z (Z.testbit f 2) + Z.b2z (Z.testbit g 2) in
  update_deleted_count h f g = (set_h_deleted n (new_low n 0 (h_next_uid h) (h_first_deleted_uid_lowwater h) (Z.testbit f 2 && negb (Z.testbit g 2))) h, true).
Proof.
  intros Hd Hn D1 D2 n. unfold update_deleted_count, new_low. subst n. rewrite !land_deleted, !Z.lxor_spec, !negb_involutive. destruct h. cbn in *.
  destruct (Z.testbit f 2), (Z.testbit g 2); cbn [xorb negb andb Z.b2z]; unfold set_h_deleted; cbn.
  - f_equal; f_equal; lia.
  - destruct (Z.eqb_spec h_deleted_messages_count 0); [lia |]. destruct (Z.gtb_spec h_deleted_messages_count h_messages_count); [lia |]. cbn [orb]. rewrite Z.add_0_r. done.
  - rewrite u32_small by (unfold is_u32; lia). destruct (Z.gtb_spec (h_deleted_messages_count + 1) h_messages_count); [lia |]. rewrite Z.sub_0_r. done.
  - f_equal; f_equal; lia.
Qed.

(** The header after the flags of a message changed from [f] to [g]. *)
Definition recounted (f g : Z) (h : mail_index_header) : mail_index_header :=
  let s := h_seen_messages_count h - Z.b2z (Z.testbit f 3) + Z.b2z (Z.testbit g 3) in
  let d := h_deleted_messages_count h - Z.b2z (Z.testbit f 2) + Z.b2z (Z.testbit g 2) in
  set_h_deleted d (new_low d 0 (h_next_uid h) (h_first_deleted_uid_lowwater h) (Z.testbit f 2 && negb (Z.testbit g 2)))
    (set_h_seen s (new_low s (h_messages_count h) (h_next_uid h) (h_first_unseen_uid_lowwater h) (negb (Z.testbit f 3) && Z.testbit g 3)) h).

(** The counters allow for the change. *)
Record countable (f g : Z) (h : mail_index_header) : Prop := {
  cnt_seen : 0 <= h_seen_messages_count h;
  cnt_deleted : 0 <= h_deleted_messages_count h <= h_messages_count h;
  cnt_room : h_messages_count h < INT_MAX;
  cnt_seen_dec : Z.testbit f 3 = true -> 0 < h_seen_messages_count h;
  cnt_seen_inc : Z.testbit f 3 = false -> Z.testbit g 3 = true -> h_seen_messages_count h < h_messages_count h;
  cnt_deleted_dec : Z.testbit f 2 = true -> 0 < h_deleted_messages_count h;
  cnt_deleted_inc : Z.testbit f 2 = false -> Z.testbit g 2 = true -> h_deleted_messages_count h < h_messages_count h;
}.

Lemma update_counts_spec f g h : countable f g h -> mail_index_header_update_counts h f g = (recounted f g h, true).
Proof.
  intros []. unfold mail_index_header_update_counts. rewrite update_seen_count_spec by done. rewrite update_deleted_count_spec; [done | by destruct h..].
Qed.

(** ** Every change keeps the tallies *)

Lemma lower_bounds uid flags h :
  let h' := lower_lowwaters uid flags h in
  same_counts h h' /\ h_seen_messages_count h' = h_seen_messages_count h /\ h_deleted_messages_count h' = h_deleted_messages_count h /\
  h_first_unseen_uid_lowwater h' <= h_first_unseen_uid_lowwater h /\ h_first_deleted_uid_lowwater h' <= h_first_deleted_uid_lowwater h /\
  (0 <= uid -> 0 <= h_first_unseen_uid_lowwater h -> 0 <= h_first_unseen_uid_lowwater h') /\ (0 <= uid -> 0 <= h_first_deleted_uid_lowwater h -> 0 <= h_first_deleted_uid_lowwater h') /\
  (Z.testbit flags 3 = false -> h_first_unseen_uid_lowwater h' <= uid) /\ (Z.testbit flags 2 = true -> h_first_deleted_uid_lowwater h' <= uid).
Proof.
  unfold lower_lowwaters, same_counts. rewrite land_seen, land_deleted, negb_involutive. destruct h; cbn.
  destruct (Z.testbit flags 3), (Z.testbit flags 2); cbn; repeat (match goal with |- context [uid <? ?x] => destruct (Z.ltb_spec uid x) end; cbn in *); split_and!; solve [done | intros; lia].
Qed.

Lemma recounted_same f g h : same_counts h (recounted f g h).
Proof. by destruct h. Qed.

(** A header with other members, which has the same counters and no higher marks. *)
Lemma tallies_weaken h h' l :
  h_seen_messages_count h' = h_seen_messages_count h -> h_deleted_messages_count h' = h_deleted_messages_count h ->
  0 <= h_first_unseen_uid_lowwater h' <= h_first_unseen_uid_lowwater h -> 0 <= h_first_deleted_uid_lowwater h' <= h_first_deleted_uid_lowwater h -> h_next_uid h <= h_next_uid h' ->
  tallies h l -> tallies h' l.
Proof.
  intros Hs Hd Hl1 Hl2 Hn [T1 T2 T3 T4 T5]. split; [congruence | congruence | | | lia].
  - eapply Forall_impl; [exact T3 |]. intros x Hx Hf. specialize (Hx Hf). lia.
  - eapply Forall_impl; [exact T4 |]. intros x Hx Hf. specialize (Hx Hf). lia.
Qed.

Lemma tallies_lower uid flags h l : 0 <= uid -> tallies h l -> tallies (lower_lowwaters uid flags h) l.
Proof.
  intros Hu T. destruct (tally_bound _ _ T). destruct (lower_bounds uid flags h) as ((_ & Hn & _) & Hs & Hd & Hl1 & Hl2 & Hz1 & Hz2 & _).
  apply (tallies_weaken h); [done | done | lia | lia | lia | done].
Qed.

(** New counters for [l'], whose low-water marks the old ones already are. *)
Lemma tallies_recount f g h l l' :
  tallies h l -> count seen l' = count seen l - Z.b2z (Z.testbit f 3) + Z.b2z (Z.testbit g 3) -> count deleted l' = count deleted l - Z.b2z (Z.testbit f 2) + Z.b2z (Z.testbit g 2) ->
  (Z.testbit g 3 = true -> Z.of_nat (length l') = h_messages_count h) ->
  Forall (fun r => seen r = false -> h_first_unseen_uid_lowwater h <= r_uid r) l' -> Forall (fun r => deleted r = true -> h_first_deleted_uid_lowwater h <= r_uid r) l' ->
  tallies (recounted f g h) l'.
Proof.
  intros [T1 T2 _ _ T5] Hs Hd Hlen Hl1 Hl2. split; unfold recounted, new_low; cbn; [lia | lia | | | destruct (_ && _), (_ && _); lia].
  - destruct (_ && _) eqn:E; [| done]. destruct (Z.testbit g 3); [| by destruct (negb _) in E]. apply Forall_forall. intros x Hx Hf. exfalso.
    assert (Hall : count seen l' = Z.of_nat (length l')) by (rewrite Hlen by done; apply andb_true_iff in E as [_ E]; lia).
    apply count_all in Hall. rewrite Forall_forall in Hall. specialize (Hall x Hx). congruence.
  - destruct (_ && _) eqn:E; [| done]. apply Forall_forall. intros x Hx Hf. exfalso.
    assert (Hnone : count deleted l' = 0) by (apply andb_true_iff in E as [_ E]; lia).
    apply count_none in Hnone. rewrite Forall_forall in Hnone. specialize (Hnone x Hx). congruence.
Qed.

(** A message that is counted: its flags may change. *)
Lemma countable_at h l i x g :
  tallies h l -> l !! i = Some x -> Z.of_nat (length l) <= h_messages_count h -> h_messages_count h < INT_MAX -> countable (r_flags x) g h.
Proof.
  intros [T1 T2 _ _ _] Hi Hl Hn. pose proof (count_bounds seen l). pose proof (count_bounds deleted l).
  split; try lia; rewrite ?T1, ?T2; intros Hf; [| intros _ | | intros _].
  - by eapply count_pos.
  - pose proof (count_lt seen l i x Hi Hf). lia.
  - by eapply count_pos.
  - pose proof (count_lt deleted l i x Hi Hf). lia.
Qed.

(** The flags of a message change. *)
Lemma tallies_flags h l i x g :
  0 <= r_uid x -> tallies h l -> l !! i = Some x -> Z.of_nat (length l) = h_messages_count h ->
  tallies (recounted (r_flags x) g (lower_lowwaters (r_uid x) g h)) (<[i := Rec (r_uid x) g]> l).
Proof.
  intros H0 T Hi Hl. pose proof (tallies_lower (r_uid x) g h l H0 T) as T'. destruct (lower_bounds (r_uid x) g h) as ((_ & _ & Hn) & _ & _ & _ & _ & _ & _ & Hu & Hd).
  apply (tallies_recount _ _ _ l); [done | by rewrite (count_insert _ _ _ _ _ Hi) | by rewrite (count_insert _ _ _ _ _ Hi) | intros _; rewrite length_insert; lia | |].
  - apply Forall_insert; [apply T' | apply Hu].
  - apply Forall_insert; [apply T' | apply Hd].
Qed.

(** A message is added, after its number. *)
Lemma tallies_append h l x :
  0 <= r_uid x -> tallies h l -> Z.of_nat (length l) + 1 = h_messages_count h ->
  tallies (recounted 0 (r_flags x) (lower_lowwaters (r_uid x) (r_flags x) h)) (l ++ [x]).
Proof.
  intros H0 T Hl. pose proof (tallies_lower (r_uid x) (r_flags x) h l H0 T) as T'. destruct (lower_bounds (r_uid x) (r_flags x) h) as ((_ & _ & Hn) & _ & _ & _ & _ & _ & _ & Hu & Hd).
  apply (tallies_recount _ _ _ l); [done | rewrite count_app, Z.bits_0; cbn; unfold seen; lia | rewrite count_app, Z.bits_0; cbn; unfold deleted; lia | intros _; rewrite length_app; cbn; lia | |].
  - apply Forall_app. split; [apply T' |]. apply Forall_cons_2; [apply Hu | by apply Forall_nil_2].
  - apply Forall_app. split; [apply T' |]. apply Forall_cons_2; [apply Hd | by apply Forall_nil_2].
Qed.

(** A message is expunged. *)
Lemma tallies_expunge h l1 x l2 : tallies h (l1 ++ x :: l2) -> tallies (recounted (r_flags x) 0 h) (l1 ++ l2).
Proof.
  intros T. apply (tallies_recount _ _ _ (l1 ++ x :: l2)); [done | rewrite !count_app, Z.bits_0; cbn; unfold seen; lia | rewrite !count_app, Z.bits_0; cbn; unfold deleted; lia | by rewrite Z.bits_0 | |].
  - pose proof (tally_unseen_low _ _ T) as [H1 H2]%Forall_app. apply Forall_app. split; [done |]. by inversion H2.
  - pose proof (tally_deleted_low _ _ T) as [H1 H2]%Forall_app. apply Forall_app. split; [done |]. by inversion H2.
Qed.

(** ** The check of a map *)

Lemma map_check_loop_spec h l prev d s :
  StronglySorted (fun a b => r_uid a < r_uid b) l -> Forall (fun r => prev < r_uid r) l ->
  Forall (fun r => seen r = false -> h_first_unseen_uid_lowwater h <= r_uid r) l -> Forall (fun r => deleted r = true -> h_first_deleted_uid_lowwater h <= r_uid r) l ->
  0 <= d -> 0 <= s -> d + Z.of_nat (length l) < INT_MAX -> s + Z.of_nat (length l) < INT_MAX ->
  map_check_loop h l prev d s = Some (d + count deleted l, s + count seen l).
Proof.
  intros Hs. revert prev d s. induction Hs as [| r l Hs IH Hr]; intros prev d s Hp Hu Hd Hd0 Hs0 Hd1 Hs1; cbn [map_check_loop count length] in *; [f_equal; f_equal; lia |].
  inversion_clear Hp as [| ? ? Hp1 _]. inversion_clear Hu as [| ? ? Hu1 Hu2]. inversion_clear Hd as [| ? ? Hdl1 Hdl2]. rewrite land_deleted, land_seen, !negb_involutive.
  fold (seen r) (deleted r). cbv beta in *. rewrite (assert_true (r_uid r >? prev)) by lia. cbn [mbind option_bind].
  destruct (deleted r), (seen r); cbn [Z.b2z]; try specialize (Hu1 eq_refl); try specialize (Hdl1 eq_refl); rewrite ?assert_true by lia; cbn [mbind option_bind]; rewrite ?u32_small by (unfold is_u32; lia); rewrite IH by (done || lia); f_equal; f_equal; lia.
Qed.

Lemma map_check_spec h recs : uids_ok h recs -> tallies h (take (Z.to_nat (h_messages_count h)) recs) -> mail_index_map_check h recs = Some tt.
Proof.
  intros [Hasc Hn Hmax _ _] [T1 T2 T3 T4 _]. unfold mail_index_map_check. rewrite assert_true by lia. cbn [mbind option_bind].
  destruct (ascending_take (Z.to_nat (h_messages_count h)) recs Hasc) as [Hs Hf].
  rewrite (map_check_loop_spec h _ 0 0 0); rewrite ?length_take; try done; try lia. 2: { eapply Forall_impl; [exact Hf |]. cbn. lia. }
  cbn [mbind option_bind]. rewrite <- T1, <- T2, !assert_true by lia. done.
Qed.

(** The check finds nothing wrong only when the header is right. *)
Lemma map_check_loop_sound h l prev d s res :
  map_check_loop h l prev d s = Some res -> 0 <= d -> 0 <= s -> d + Z.of_nat (length l) < INT_MAX -> s + Z.of_nat (length l) < INT_MAX ->
  res = (d + count deleted l, s + count seen l) /\
  Forall (fun r => seen r = false -> h_first_unseen_uid_lowwater h <= r_uid r) l /\ Forall (fun r => deleted r = true -> h_first_deleted_uid_lowwater h <= r_uid r) l.
Proof.
  revert prev d s. induction l as [| r l IH]; intros prev d s; cbn [map_check_loop count length].
  { intros [= <-] **. split_and!; [f_equal; lia | by apply Forall_nil_2..]. }
  rewrite land_deleted, land_seen, !negb_involutive. fold (seen r) (deleted r). intros H Hd Hs Hd1 Hs1. unfold assert in H. destruct (r_uid r >? prev); [| done]. cbn [mbind option_bind] in H.
  destruct (deleted r) eqn:Ed; [destruct (Z.geb_spec (r_uid r) (h_first_deleted_uid_lowwater h)); [| done] |]; cbn [mbind option_bind] in H;
    (destruct (seen r) eqn:Es; [| destruct (Z.geb_spec (r_uid r) (h_first_unseen_uid_lowwater h)); [| done]]); cbn [mbind option_bind] in H;
    rewrite ?u32_small in H by (unfold is_u32; lia); destruct (IH _ _ _ H ltac:(lia) ltac:(lia) ltac:(lia) ltac:(lia)) as (-> & Hu & Hdl);
    (split_and!; [cbn [Z.b2z]; f_equal; lia | apply Forall_cons_2; [congruence || done | done] | apply Forall_cons_2; [congruence || done | done]]).
Qed.

Lemma map_check_sound h recs :
  mail_index_map_check h recs = Some tt -> h_messages_count h = Z.of_nat (length recs) -> h_messages_count h < INT_MAX ->
  0 <= h_first_unseen_uid_lowwater h <= h_next_uid h -> 0 <= h_first_deleted_uid_lowwater h <= h_next_uid h -> tallies h recs.
Proof.
  intros H Hn Hmax Hl1 Hl2. unfold mail_index_map_check in H. rewrite Hn, assert_true, take_ge in H by lia. cbn [mbind option_bind] in H.
  destruct (map_check_loop h recs 0 0 0) as [[d s] |] eqn:E; [| done]. cbn [mbind option_bind] in H.
  destruct (map_check_loop_sound _ _ _ _ _ _ E) as ([= -> ->] & Hu & Hd); [lia.. |]. unfold assert in H.
  destruct (Z.eqb_spec (0 + count deleted recs) (h_deleted_messages_count h)); [| done]. cbn [mbind option_bind] in H.
  destruct (Z.eqb_spec (0 + count seen recs) (h_seen_messages_count h)); [| done]. split; [lia | lia | done..].
Qed.
