(* ===== verification/MailIndexLog.v ===== *)
(** * What a transaction log says of the messages

    The specification of synchronisation: the UIDs of the messages and the next
    UID after any number of changes of the log, counted one message or header
    update at a time.  A log is valid when each change is one that the log
    writes: appended UIDs ascend, and header updates leave the counters alone. *)

From S2P Require Import Prelude SeqRange MailIndexMap MailIndexSync.

Inductive change :=
  | Append (rec : mail_index_record)
  | Expunge (uids : list (Z * Z))
  | Update (u : mail_transaction_header_update).

(** Flags change no UID, and a request for an expunge changes nothing. *)
Definition changes (t : transaction) : list change :=
  match t with
  | MAIL_TRANSACTION_APPEND recs => Append <$> recs
  | MAIL_TRANSACTION_EXPUNGE true uids => [Expunge uids]
  | MAIL_TRANSACTION_EXPUNGE_GUID true uids => [Expunge ((fun u => (u, u)) <$> uids)]
  | MAIL_TRANSACTION_FLAG_UPDATE _ | MAIL_TRANSACTION_EXPUNGE false _ | MAIL_TRANSACTION_EXPUNGE_GUID false _ => []
  | MAIL_TRANSACTION_HEADER_UPDATE us => Update <$> us
  end.

Definition expunged (uids : list (Z * Z)) (uid : Z) : bool := existsb (fun '(u1, u2) => (u1 <=? uid) && (uid <=? u2)) uids.

(** The UIDs and the next one. *)
Definition mailbox : Type := list Z * Z.

Definition apply_change (a : mailbox) (c : change) : mailbox :=
  match c with
  | Append rec => (a.1 ++ [r_uid rec], r_uid rec + 1)
  | Expunge uids => (List.filter (fun uid => negb (expunged uids uid)) a.1, a.2)
  | Update u => (a.1, Z.max a.2 (overwrite u 28 4 a.2))
  end.

Definition replay (base : mailbox) (log : list change) (p : nat) : mailbox := foldl apply_change base (take p log).

(** The bytes of [u] are none of those from [lo] to before [hi]. *)
Definition spares (u : mail_transaction_header_update) (lo hi : Z) : Prop := hu_offset u + hu_size u <= lo \/ hi <= hu_offset u.

Definition change_ok (base_size : Z) (a : mailbox) (c : change) : Prop :=
  match c with
  | Append rec => a.2 <= r_uid rec < UINT32_MAX /\ Z.of_nat (length a.1) + 1 < INT_MAX
  | Expunge uids => Forall (fun '(u1, u2) => 1 <= u1 <= u2) uids
  | Update u => 0 <= hu_offset u < base_size /\ hu_offset u + hu_size u <= base_size /\ Forall (fun b => 0 <= b <= 255) (hu_data u) /\
      spares u 2 4 /\ spares u 32 36 /\ spares u 40 48 /\ spares u 52 60
  end.

Definition mailbox_ok (a : mailbox) : Prop :=
  StronglySorted Z.lt a.1 /\ Forall (fun u => 1 <= u < a.2) a.1 /\ 1 <= a.2 <= UINT32_MAX /\ Z.of_nat (length a.1) < INT_MAX.

(** ** Members of the header *)

Lemma overwrite_spared u o n x : spares u o (o + Z.of_nat n) -> 0 <= x < 256 ^ Z.of_nat n -> overwrite u o n x = x.
Proof.
  revert o x. induction n as [|n IH]; intros o x Hs Hx; cbn [overwrite]; [cbn in Hx; lia |]. rewrite Nat2Z.inj_succ, Z.pow_succ_r in Hx by lia.
  rewrite IH; [| unfold spares in *; lia | split; [apply Z.div_pos; lia | apply Z.div_lt_upper_bound; lia]].
  assert (Hb : (if hu_offset u <=? o then default (x mod 256) (hu_data u !! Z.to_nat (o - hu_offset u)) else x mod 256) = x mod 256).
  { destruct (Z.leb_spec (hu_offset u) o); [| done]. rewrite lookup_ge_None_2; [done |]. unfold spares, hu_size in Hs. lia. }
  rewrite Hb. pose proof (Z.div_mod x 256). lia.
Qed.

Lemma overwrite_range u o n x : Forall (fun b => 0 <= b <= 255) (hu_data u) -> 0 <= overwrite u o n x < 256 ^ Z.of_nat n.
Proof.
  intros Hd. revert o x. induction n as [|n IH]; intros o x; cbn [overwrite]; [cbn; lia |]. rewrite Nat2Z.inj_succ, Z.pow_succ_r by lia. specialize (IH (o + 1) (x / 256)).
  set (b := if hu_offset u <=? o then _ else _). assert (0 <= b <= 255); [| lia]. subst b. pose proof (Z.mod_pos_bound x 256).
  destruct (Z.leb_spec (hu_offset u) o); [| lia]. destruct (hu_data u !! _) eqn:E; cbn; [| lia]. rewrite Forall_lookup in Hd. by eapply Hd.
Qed.

(** ** The mailbox at a position *)

Section Replay.
Context (base_size : Z) (base : mailbox) (log : list change).
Hypothesis Hbase : mailbox_ok base.
Hypothesis Hlog : forall p c, log !! p = Some c -> change_ok base_size (replay base log p) c.

Lemma replay_S p c : log !! p = Some c -> replay base log (S p) = apply_change (replay base log p) c.
Proof. intros Hc. unfold replay. by rewrite (take_S_r _ _ _ Hc), foldl_app. Qed.

Lemma filter_sorted (f : Z -> bool) l : StronglySorted Z.lt l -> StronglySorted Z.lt (List.filter f l).
Proof.
  induction 1 as [| x l Hs IH Hf]; cbn; [constructor |]. destruct (f x); [| done]. constructor; [done |].
  rewrite Forall_forall in *. intros y Hy. apply Hf. apply list_elem_of_In in Hy. apply filter_In in Hy as [Hy _]. by apply list_elem_of_In.
Qed.

Lemma filter_forall {A} (P : A -> Prop) (f : A -> bool) l : Forall P l -> Forall P (List.filter f l).
Proof. induction 1; cbn; [constructor |]. destruct (f _); [by constructor | done]. Qed.

Lemma sorted_snoc l x : StronglySorted Z.lt l -> Forall (fun y => y < x) l -> StronglySorted Z.lt (l ++ [x]).
Proof.
  induction 1 as [| y l Hs IH Hf]; intros Hx; cbn; [by repeat constructor |]. inversion_clear Hx. constructor; [by apply IH |].
  apply Forall_app. split; [done |]. by apply Forall_cons_2; [| apply Forall_nil_2].
Qed.

Lemma apply_change_ok a c : mailbox_ok a -> change_ok base_size a c -> mailbox_ok (apply_change a c).
Proof.
  intros (Hs & Hf & Hn & Hl) Hc. destruct c as [rec | uids | u]; cbn [apply_change]; unfold mailbox_ok; cbn [fst snd].
  - destruct Hc as [Hu Hr]. split_and!; [apply sorted_snoc; [done |] | apply Forall_app; split | lia | lia | rewrite length_app; cbn; lia].
    + eapply Forall_impl; [exact Hf |]. cbn. lia.
    + eapply Forall_impl; [exact Hf |]. cbn. lia.
    + apply Forall_cons_2; [lia | by apply Forall_nil_2].
  - split_and!; [by apply filter_sorted | by apply filter_forall | lia | lia |]. pose proof (filter_length_le (fun uid => negb (expunged uids uid)) a.1). lia.
  - destruct Hc as (_ & _ & Hb & _). pose proof (overwrite_range u 28 4 a.2 Hb) as Hr. change (256 ^ Z.of_nat 4) with 4294967296 in Hr.
    split_and!; [done | | lia | lia | done]. eapply Forall_impl; [exact Hf |]. cbn. lia.
Qed.

Lemma replay_ok p : mailbox_ok (replay base log p).
Proof.
  induction p as [|p IH]; [done |]. destruct (log !! p) as [c|] eqn:E.
  - rewrite (replay_S p c E). apply apply_change_ok; auto.
  - unfold replay in *. rewrite take_ge in IH |- * by (apply lookup_ge_None_1 in E; lia). done.
Qed.

Lemma replay_next_S p : (replay base log p).2 <= (replay base log (S p)).2.
Proof.
  destruct (log !! p) as [c|] eqn:E.
  - rewrite (replay_S p c E). specialize (Hlog p c E). destruct c; cbn in *; lia.
  - unfold replay. apply lookup_ge_None_1 in E. rewrite !take_ge by lia. lia.
Qed.

Lemma replay_next p q : (p <= q)%nat -> (replay base log p).2 <= (replay base log q).2.
Proof. induction 1 as [| q Hq IH]; [lia |]. pose proof (replay_next_S q). lia. Qed.

(** A UID that was not there is a new one. *)
Lemma replay_new p q u : (p <= q)%nat -> u ∈ (replay base log q).1 -> u ∈ (replay base log p).1 \/ (replay base log p).2 <= u.
Proof.
  induction 1 as [| q Hq IH]; [by left |]. destruct (log !! q) as [c|] eqn:E.
  2: { unfold replay in *. apply lookup_ge_None_1 in E. rewrite (take_ge _ (S q)) by lia. rewrite take_ge in IH by lia. done. }
  rewrite (replay_S q c E). pose proof (replay_next p q Hq) as Hn. specialize (Hlog q c E). destruct c as [rec | uids | w]; cbn in *.
  - intros [Hu | Hu]%elem_of_app; [auto |]. apply list_elem_of_singleton in Hu as ->. right. lia.
  - intros Hu. apply list_elem_of_In, filter_In in Hu as [Hu _]. apply IH. by apply list_elem_of_In.
  - done.
Qed.
End Replay.
