(* ===== verification/MailIndexSyncInv.v ===== *)
(** * The invariant of the maps of a mail index

    Every map stands at a position of the log: its messages are those that the
    log has there, and its header counts them.  Maps that share records are
    prefixes of what one of them has at the highest position. *)

From S2P Require Import Prelude SeqRange ImapQuote MailIndexMap MailIndexMapProps MailIndexSync MailIndexCounts MailIndexLog.

Section Invariant.
Context (base_size : Z) (base : mailbox) (log : list change).
Hypothesis Hsize : 0 <= base_size < 65536.
Hypothesis Hbase : mailbox_ok base.
Hypothesis Hlog : forall p c, log !! p = Some c -> change_ok base_size (replay base log p) c.

Notation L := (replay base log).

Definition visible (h : mail_index_header) (r : mail_index_record_map) : list mail_index_record := take (Z.to_nat (h_messages_count h)) (records r).

(** A map with the records [r], which stand at [q], stands at [p]. *)
Record map_at (r : mail_index_record_map) (q p : nat) (h : mail_index_header) : Prop := {
  at_pos : (p <= q)%nat;
  at_count : 0 <= h_messages_count h <= Z.of_nat (length (records r));
  at_uids : r_uid <$> visible h r = (L p).1;
  at_next : h_next_uid h = (L p).2;
  at_prefix p' : (p <= p' <= q)%nat -> (L p').1 `prefix_of` (r_uid <$> records r);
  at_tallies : tallies h (visible h r);
  at_size : h_base_header_size h = base_size;
  at_hidden : h_messages_count h < Z.of_nat (length (records r)) -> exists x, last (records r) = Some x /\ last_appended_uid r = r_uid x;
  at_shown : h_messages_count h = Z.of_nat (length (records r)) -> last_appended_uid r < h_next_uid h;
  at_mapped : in_memory r = false -> h_messages_count h = Z.of_nat (length (records r));
}.

Definition records_at (r : mail_index_record_map) (q : nat) : Prop := r_uid <$> records r = (L q).1.

(** The positions of the maps and the records. *)
Record index_ok (pos tops : list nat) (st : mail_index) : Prop := {
  ok_pos : length pos = length (maps st);
  ok_tops : length tops = length (rec_maps st);
  ok_map i m : maps st !! i = Some m -> 0 < refcount m ->
    exists r q p, rec_maps st !! rec_map m = Some r /\ tops !! rec_map m = Some q /\ pos !! i = Some p /\ records_at r q /\ map_at r q p (hdr m);
  ok_view : exists m, maps st !! view_map st = Some m /\ 0 < refcount m;
  ok_errors : errors st = false;
}.

(** ** Facts of a position *)

Lemma visible_length r q p h : map_at r q p h -> Z.of_nat (length (visible h r)) = h_messages_count h.
Proof. intros [_ Hc _ _ _ _ _ _ _ _]. unfold visible. rewrite length_take. lia. Qed.

Lemma count_at r q p h : map_at r q p h -> h_messages_count h = Z.of_nat (length (L p).1).
Proof. intros H. rewrite <- (at_uids _ _ _ _ H), length_fmap. symmetry. by eapply visible_length. Qed.

Lemma sorted_fmap recs : StronglySorted Z.lt (r_uid <$> recs) -> StronglySorted (fun a b => r_uid a < r_uid b) recs.
Proof. induction recs as [| r recs IH]; intros H; [constructor |]. inversion_clear H as [| ? ? Hs Hf]. constructor; [by apply IH |]. by apply (proj1 (Forall_fmap r_uid (Z.lt (r_uid r)) recs)) in Hf. Qed.

Lemma records_ascending r q : records_at r q -> ascending (records r).
Proof.
  intros Hr. destruct (replay_ok base_size base log Hbase Hlog q) as (Hs & Hf & _). rewrite <- Hr in Hs, Hf. split; [by apply sorted_fmap |].
  apply Forall_fmap in Hf. eapply Forall_impl; [exact Hf |]. cbn. lia.
Qed.

Lemma visible_lookup h r i x : records r !! i = Some x -> Z.of_nat i < h_messages_count h -> visible h r !! i = Some x.
Proof. intros Hi Hl. unfold visible. rewrite lookup_take_lt; [done | lia]. Qed.

Lemma map_at_uids_ok r q p h : records_at r q -> map_at r q p h -> uids_ok h (records r).
Proof.
  intros Hr Hm. destruct (replay_ok base_size base log Hbase Hlog p) as (_ & Hf & Hn & Hl).
  split; [by eapply records_ascending | apply Hm | rewrite (count_at _ _ _ _ Hm); lia | rewrite (at_next _ _ _ _ Hm); lia |].
  intros i x Hi Hc. assert (Hu : (L p).1 !! i = Some (r_uid x)).
  { rewrite <- (at_uids _ _ _ _ Hm), list_lookup_fmap. by rewrite (visible_lookup _ _ _ _ Hi) by lia. }
  rewrite Forall_lookup in Hf. specialize (Hf _ _ Hu). rewrite (at_next _ _ _ _ Hm). lia.
Qed.

Lemma map_at_check r q p h : records_at r q -> map_at r q p h -> mail_index_map_check h (records r) = Some tt.
Proof. intros Hr Hm. apply map_check_spec; [by eapply map_at_uids_ok | apply Hm]. Qed.

(** The records that a map does not show are new to it. *)
Lemma hidden_new r q p h i x : records_at r q -> map_at r q p h -> records r !! i = Some x -> h_messages_count h <= Z.of_nat i -> h_next_uid h <= r_uid x.
Proof.
  intros Hr Hm Hi Hc. rewrite (at_next _ _ _ _ Hm). destruct (replay_new base_size base log Hlog p q (r_uid x)) as [Hin | ?]; [apply Hm | | exfalso | done].
  - rewrite <- Hr. apply list_elem_of_fmap. eexists. split; [done |]. by eapply list_elem_of_lookup_2.
  - rewrite <- (at_uids _ _ _ _ Hm) in Hin. apply list_elem_of_fmap in Hin as (y & Hy & Hin). apply list_elem_of_lookup in Hin as [j Hj]. unfold visible in Hj.
    apply lookup_take_Some in Hj as [Hj Hlt]. pose proof (ascending_lt _ j i y x (records_ascending _ _ Hr) Hj Hi). pose proof (at_count _ _ _ _ Hm). lia.
Qed.

(** ** Changes of the state *)

(** The records [k], their position and the maps that share them change. *)
Lemma index_ok_change pos tops st k r r' q q' pos' ms :
  index_ok pos tops st -> rec_maps st !! k = Some r -> tops !! k = Some q -> records_at r' q' -> length pos' = length pos -> length ms = length (maps st) ->
  (exists m, ms !! view_map st = Some m /\ 0 < refcount m) ->
  (forall i m', ms !! i = Some m' -> 0 < refcount m' -> exists m, maps st !! i = Some m /\ 0 < refcount m /\ rec_map m' = rec_map m /\
     (rec_map m <> k -> hdr m' = hdr m /\ pos' !! i = pos !! i) /\
     (rec_map m = k -> forall p, pos !! i = Some p -> map_at r q p (hdr m) -> exists p', pos' !! i = Some p' /\ map_at r' q' p' (hdr m'))) ->
  index_ok pos' (<[k := q']> tops) (Index ms (<[k := r']> (rec_maps st)) (view_map st) false).
Proof.
  intros [H1 H2 H3 H4 H5] Hk Hq Hr Hp Hm Hv Hch. split; cbn; [congruence | by rewrite !length_insert | | done | done].
  intros i m' Hi Hrc. destruct (Hch i m' Hi Hrc) as (m & Hi0 & Hrc0 & Hrm & Hne & Heq). destruct (H3 i m Hi0 Hrc0) as (r0 & q0 & p0 & A1 & A2 & A3 & A4 & A5).
  rewrite Hrm. destruct (decide (rec_map m = k)) as [E | E].
  - rewrite E in *. simplify_eq. destruct (Heq eq_refl p0 A3 A5) as (p' & B1 & B2). exists r', q', p'.
    split_and!; [apply list_lookup_insert_eq; by eapply lookup_lt_Some | apply list_lookup_insert_eq; by eapply lookup_lt_Some | done..].
  - destruct (Hne E) as [-> Hpos]. exists r0, q0, p0. rewrite !list_lookup_insert_ne by done. rewrite Hpos. done.
Qed.

(** The map that is synchronised. *)
Record view_at (pos tops : list nat) (st : mail_index) (m : mail_index_map) (r : mail_index_record_map) (q p : nat) : Prop := {
  view_map_is : maps st !! view_map st = Some m;
  view_live : 0 < refcount m;
  view_records : rec_maps st !! rec_map m = Some r;
  view_top : tops !! rec_map m = Some q;
  view_pos : pos !! view_map st = Some p;
  view_records_at : records_at r q;
  view_map_at : map_at r q p (hdr m);
}.

Lemma view_intro pos tops st : index_ok pos tops st -> exists m r q p, view_at pos tops st m r q p.
Proof. intros [_ _ H3 (m & Hm & Hl) _]. destruct (H3 _ _ Hm Hl) as (r & q & p & ? & ? & ? & ? & ?). by exists m, r, q, p. Qed.

Lemma view_get pos tops st m r q p : view_at pos tops st m r q p -> get_map st (view_map st) = Some (m, r).
Proof. intros []. unfold get_map. by rewrite view_map_is0; cbn; rewrite view_records0. Qed.

(** The map alone has the records that it shows. *)
Lemma map_at_private r q p h r' :
  map_at r q p h -> records r' = visible h r -> last_appended_uid r' < h_next_uid h -> records_at r' p /\ map_at r' p p h.
Proof.
  intros Hm Hr Hl. pose proof (visible_length _ _ _ _ Hm) as Hlen.
  assert (Hv : visible h r' = records r') by (unfold visible at 1; apply take_ge; rewrite Hr; lia).
  split; [unfold records_at; rewrite Hr; apply Hm |]. split; [done | rewrite Hr; lia | rewrite Hv, Hr; apply Hm | apply Hm | | rewrite Hv, Hr; apply Hm | apply Hm | rewrite Hr; lia | done | intros _; rewrite Hr; lia].
  intros p' Hp. assert (p' = p) as -> by lia. rewrite Hr, (at_uids _ _ _ _ Hm). done.
Qed.

(** The map gets records of its own. *)
Lemma index_ok_own pos tops st m r q p r' :
  index_ok pos tops st -> view_at pos tops st m r q p -> records r' = visible (hdr m) r -> last_appended_uid r' < h_next_uid (hdr m) ->
  let st' := Index (<[view_map st := set_rec_map (length (rec_maps st)) m]> (maps st)) (rec_maps st ++ [r']) (view_map st) (errors st) in
  index_ok pos (tops ++ [p]) st' /\ view_at pos (tops ++ [p]) st' (set_rec_map (length (rec_maps st)) m) r' p p.
Proof.
  intros [H1 H2 H3 H4 H5] [V1 V2 V3 V4 V5 V6 V7] Hr Hl st'. destruct (map_at_private r q p (hdr m) r' V7 Hr Hl) as [Hr' Hm'].
  assert (Hview : view_at pos (tops ++ [p]) st' (set_rec_map (length (rec_maps st)) m) r' p p).
  { split; try done; cbn; [by apply list_lookup_insert_eq, (lookup_lt_Some _ _ _ V1) | by rewrite lookup_app_r, Nat.sub_diag | by rewrite <- H2, lookup_app_r, Nat.sub_diag]. }
  split; [| done]. split; cbn; [by rewrite length_insert | rewrite !length_app; cbn; lia | | | done].
  - intros i m' Hi Hrc. destruct (decide (i = view_map st)) as [-> |].
    + pose proof (view_map_is _ _ _ _ _ _ _ Hview) as Hi'. cbn in Hi'. rewrite Hi' in Hi. injection Hi as <-. exists r', p, p. destruct Hview. done.
    + rewrite list_lookup_insert_ne in Hi by done. destruct (H3 i m' Hi Hrc) as (r0 & q0 & p0 & A1 & A2 & A). exists r0, q0, p0.
      rewrite !lookup_app_l by (by eapply lookup_lt_Some). done.
  - eexists. split; [apply (view_map_is _ _ _ _ _ _ _ Hview) | done].
Qed.

(** ** Maps of one's own *)

Lemma filter_one {A} (P : A -> Prop) `{!forall x, Decision (P x)} (l : list A) i j x y :
  (length (filter P l) <= 1)%nat -> l !! i = Some x -> l !! j = Some y -> P x -> P y -> i = j.
Proof.
  revert i j. induction l as [| z l IH]; intros i j Hl Hi Hj Hx Hy; [done |]. rewrite filter_cons in Hl.
  assert (Hnone : P z -> forall k w, l !! k = Some w -> P w -> False).
  { intros Hz k w Hk Hw. rewrite decide_True in Hl by done. cbn in Hl. assert (Hf : filter P l = []) by (apply length_zero_iff_nil; lia).
    assert (Hin : w ∈ filter P l) by (apply list_elem_of_filter; split; [done | by eapply list_elem_of_lookup_2]). rewrite Hf in Hin. by apply not_elem_of_nil in Hin. }
  destruct i as [|i], j as [|j]; cbn in Hi, Hj; simplify_eq; [done | exfalso; eauto | exfalso; eauto |].
  f_equal. eapply IH; [| done..]. destruct (decide (P z)); cbn in Hl; lia.
Qed.

(** No other map shares the records of the view. *)
Definition alone (st : mail_index) (k : nat) : Prop := forall i m, maps st !! i = Some m -> 0 < refcount m -> rec_map m = k -> i = view_map st.

Lemma linked_alone pos tops st m r q p : view_at pos tops st m r q p -> (linked_count (rec_map m) st <= 1)%nat -> alone st (rec_map m).
Proof.
  intros [V1 V2 _ _ _ _ _] Hl i m' Hi Hrc Ek.
  eapply (filter_one _ _ i (view_map st) m' m Hl Hi V1); unfold linked; rewrite ?Ek, Nat.eqb_refl, (proj2 (Z.ltb_lt 0 _)) by done; done.
Qed.

(** A map that is alone with its records changes, and they with it. *)
Lemma index_ok_alone pos tops st m r q p r' p' h' :
  index_ok pos tops st -> view_at pos tops st m r q p -> alone st (rec_map m) -> records_at r' p' -> map_at r' p' p' h' ->
  let st' := Index (<[view_map st := set_hdr h' m]> (maps st)) (<[rec_map m := r']> (rec_maps st)) (view_map st) false in
  index_ok (<[view_map st := p']> pos) (<[rec_map m := p']> tops) st' /\
  view_at (<[view_map st := p']> pos) (<[rec_map m := p']> tops) st' (set_hdr h' m) r' p' p'.
Proof.
  intros Hok [V1 V2 V3 V4 V5 V6 V7] Hone Hr' Hm' st'. pose proof (lookup_lt_Some _ _ _ V1) as Hlt. split.
  - apply (index_ok_change pos tops st (rec_map m) r r' q p'); [done.. | by rewrite length_insert | by rewrite length_insert | eexists; by rewrite list_lookup_insert_eq |].
    intros i m0 Hi Hrc. destruct (decide (i = view_map st)) as [-> | Hne].
    + rewrite list_lookup_insert_eq in Hi by done. injection Hi as <-. exists m. split_and!; [done.. |]. intros _ p0 _ _. exists p'.
      split; [| done]. apply list_lookup_insert_eq. by eapply lookup_lt_Some.
    + rewrite list_lookup_insert_ne in Hi by done. exists m0. rewrite list_lookup_insert_ne by done. split_and!; [done.. |]. intros Ek. exfalso. by apply Hne, (Hone _ _ Hi).
  - split; try done; cbn; apply list_lookup_insert_eq; by eapply lookup_lt_Some.
Qed.

(** Only the records change, to those that the map shows. *)
Lemma index_ok_trim pos tops st m r q p r' :
  index_ok pos tops st -> view_at pos tops st m r q p -> alone st (rec_map m) -> records r' = visible (hdr m) r -> last_appended_uid r' < h_next_uid (hdr m) ->
  let st' := put_rec_map (rec_map m) r' st in
  index_ok pos (<[rec_map m := p]> tops) st' /\ view_at pos (<[rec_map m := p]> tops) st' m r' p p.
Proof.
  intros Hok Hv Hone Hr Hl st'. destruct (map_at_private r q p (hdr m) r' (view_map_at _ _ _ _ _ _ _ Hv) Hr Hl) as [Hr' Hm'].
  pose proof (index_ok_alone pos tops st m r q p r' p (hdr m) Hok Hv Hone Hr' Hm') as H. cbv zeta in H. destruct Hv as [V1 V2 V3 V4 V5 V6 V7].
  replace (set_hdr (hdr m) m) with m in H by (by destruct m). rewrite (list_insert_id (maps st)), (list_insert_id pos) in H by done.
  unfold st', put_rec_map. by rewrite (ok_errors _ _ _ Hok).
Qed.

Definition heads (st : mail_index) : list nat := log_head <$> maps st.

Lemma next_pos r q p h : map_at r q p h -> 0 < h_next_uid h.
Proof. intros Hm. rewrite (at_next _ _ _ _ Hm). destruct (replay_ok base_size base log Hbase Hlog p) as (_ & _ & ? & _). lia. Qed.

Lemma visible_all r q p h : map_at r q p h -> h_messages_count h = Z.of_nat (length (records r)) -> visible h r = records r.
Proof. intros Hm Hn. unfold visible. apply take_ge. lia. Qed.

Lemma heads_rec_map st m k : maps st !! view_map st = Some m -> log_head <$> <[view_map st := set_rec_map k m]> (maps st) = heads st.
Proof. intros Hm. unfold heads. rewrite list_fmap_insert. apply list_insert_id. by rewrite list_lookup_fmap, Hm. Qed.

(** What moving the records of a map does to it. *)
Definition moved (pos tops : list nat) (st : mail_index) (m : mail_index_map) (p : nat) (st' : mail_index) (tops' : list nat) (m' : mail_index_map) (r' : mail_index_record_map) (q' : nat) : Prop :=
  index_ok pos tops' st' /\ view_at pos tops' st' m' r' q' p /\ view_map st' = view_map st /\ heads st' = heads st /\ hdr m' = hdr m /\ refcount m' = refcount m /\ in_memory r' = true.

Lemma move_to_memory_spec pos tops st m r q p :
  index_ok pos tops st -> view_at pos tops st m r q p ->
  exists st' tops' m' r' q', mail_index_map_move_to_memory st (view_map st) = Some st' /\ moved pos tops st m p st' tops' m' r' q'.
Proof.
  intros Hok Hv. unfold mail_index_map_move_to_memory. rewrite (view_get _ _ _ _ _ _ _ Hv). cbn [mbind option_bind]. pose proof Hv as [V1 V2 V3 V4 V5 V6 V7].
  destruct (in_memory r) eqn:Em; [by exists st, tops, m, r, q |]. pose proof (at_mapped _ _ _ _ V7 Em) as Hn. pose proof (visible_all _ _ _ _ V7 Hn) as Hvis.
  destruct (Nat.eqb_spec (linked_count (rec_map m) st) 1) as [Hc |].
  - destruct (index_ok_trim pos tops st m r q p (RecMap (records r) (last_appended_uid r) true) Hok Hv) as [Hok' Hv'];
      [eapply linked_alone; [done | lia] | done | by apply (at_shown _ _ _ _ V7) |]. by eexists _, _, m, _, p.
  - unfold mail_index_map_copy_records. rewrite (view_get _ _ _ _ _ _ _ Hv). cbn [mbind option_bind].
    destruct (index_ok_own pos tops st m r q p (RecMap (records r) 0 true) Hok Hv) as [Hok' Hv']; [done | by eapply next_pos |].
    eexists _, _, _, _, p. split; [done |]. unfold moved. split_and!; try done. by apply heads_rec_map.
Qed.

(** The map of the view is [m] still, or a clone of it that was added. *)
Definition placed (pos : list nat) (st : mail_index) (m : mail_index_map) (p : nat) (st' : mail_index) (pos' : list nat) : Prop :=
  (view_map st' = view_map st /\ pos' = <[view_map st := p]> pos /\ heads st' = heads st) \/
  (1 < refcount m /\ view_map st' = length (maps st) /\ pos' = pos ++ [p] /\ heads st' = heads st ++ [log_head m]).

(** Another reference keeps the map, and the view has a clone. *)
Lemma clone_spec pos tops st m r q p :
  index_ok pos tops st -> view_at pos tops st m r q p -> 1 < refcount m ->
  let st' := Index (<[view_map st := set_refcount (refcount m - 1) m]> (maps st) ++ [set_refcount 1 m]) (rec_maps st) (length (maps st)) (errors st) in
  ('(st, i) ← mail_index_map_clone st (view_map st); mail_index_sync_replace_map st i) = Some st' /\
  index_ok (pos ++ [p]) tops st' /\ view_at (pos ++ [p]) tops st' (set_refcount 1 m) r q p /\ placed pos st m p st' (pos ++ [p]).
Proof.
  intros [H1 H2 H3 H4 H5] [V1 V2 V3 V4 V5 V6 V7] Hrc st'. pose proof (lookup_lt_Some _ _ _ V1) as Hlt. split_and!.
  - unfold mail_index_map_clone. rewrite V1. cbn [mbind option_bind]. unfold mail_index_sync_replace_map. cbn [view_map]. rewrite assert_true by (apply negb_true_iff, Nat.eqb_neq; lia).
    cbn [mbind option_bind]. unfold mail_index_unmap. cbn [maps]. rewrite lookup_app_l, V1 by lia. cbn [mbind option_bind]. rewrite assert_true by lia. cbn [mbind option_bind].
    unfold put_map. cbn. by rewrite insert_app_l by lia.
  - split; cbn; [rewrite !length_app, length_insert; cbn; lia | done | | | done].
    + intros i m' Hi Hrc'. destruct (decide (i = length (maps st))) as [-> | Hne].
      * rewrite lookup_app_r, length_insert, Nat.sub_diag in Hi by (rewrite length_insert; lia). injection Hi as <-. exists r, q, p. split_and!; try done.
        by rewrite lookup_app_r, H1, Nat.sub_diag by lia.
      * assert (i < length (maps st))%nat by (apply lookup_lt_Some in Hi; rewrite length_app, length_insert in Hi; cbn in Hi; lia).
        rewrite lookup_app_l in Hi by (by rewrite length_insert). rewrite lookup_app_l by lia. destruct (decide (i = view_map st)) as [-> | Hv].
        -- rewrite list_lookup_insert_eq in Hi by done. injection Hi as <-. by exists r, q, p.
        -- rewrite list_lookup_insert_ne in Hi by done. by apply H3.
    + exists (set_refcount 1 m). by rewrite lookup_app_r, length_insert, Nat.sub_diag by (rewrite length_insert; lia).
  - split; try done; cbn; [by rewrite lookup_app_r, length_insert, Nat.sub_diag by (rewrite length_insert; lia) | by rewrite lookup_app_r, H1, Nat.sub_diag by lia].
  - right. split_and!; [done.. |]. unfold heads. cbn. rewrite fmap_app, list_fmap_insert. f_equal. apply list_insert_id. by rewrite list_lookup_fmap, V1.
Qed.

Lemma private_memory_spec pos tops st m r q p :
  index_ok pos tops st -> view_at pos tops st m r q p ->
  exists st' pos' tops' m' r' q', mail_index_sync_move_to_private_memory st = Some st' /\ index_ok pos' tops' st' /\ view_at pos' tops' st' m' r' q' p /\
    placed pos st m p st' pos' /\ hdr m' = hdr m /\ refcount m' = 1 /\ in_memory r' = true.
Proof.
  intros Hok Hv. pose proof Hv as [V1 V2 V3 V4 V5 V6 V7]. unfold mail_index_sync_move_to_private_memory. rewrite V1. cbn [mbind option_bind]. destruct (Z.gtb_spec (refcount m) 1) as [Hrc | Hrc].
  - destruct (clone_spec pos tops st m r q p Hok Hv Hrc) as (E & Hok' & Hv' & Hp). setoid_rewrite E. cbn [mbind option_bind].
    destruct (move_to_memory_spec _ _ _ _ _ _ _ Hok' Hv') as (st' & tops' & m' & r' & q' & -> & Hok2 & Hv2 & E1 & E2 & E3 & E4 & E5).
    exists st', (pos ++ [p]), tops', m', r', q'. split_and!; try done. destruct Hp as [(Hbad & _) | Hp]; [cbn in Hbad; apply lookup_lt_Some in V1; lia |].
    right. rewrite E1, E2. done.
  - cbn [mbind option_bind]. destruct (move_to_memory_spec _ _ _ _ _ _ _ Hok Hv) as (st' & tops' & m' & r' & q' & -> & Hok2 & Hv2 & E1 & E2 & E3 & E4 & E5).
    exists st', pos, tops', m', r', q'. split_and!; try done; [| lia]. left. rewrite list_insert_id by done. done.
Qed.

Lemma last_shown r q p h : records_at r q -> map_at r q p h ->
  exists last, (if h_messages_count h =? 0 then Some 0 else rec ← MAIL_INDEX_REC_AT_SEQ (records r) (h_messages_count h); Some (r_uid rec)) = Some last /\ last < h_next_uid h.
Proof.
  intros Hr Hm. pose proof (next_pos _ _ _ _ Hm). pose proof (at_count _ _ _ _ Hm). destruct (Z.eqb_spec (h_messages_count h) 0); [by exists 0 |].
  unfold MAIL_INDEX_REC_AT_SEQ. destruct (map_idx_some (records r) (h_messages_count h - 1)) as (rec & Hrec & ->); [lia |]. exists (r_uid rec). split; [done |].
  eapply (uids_below _ _ (map_at_uids_ok _ _ _ _ Hr Hm)); [done | lia].
Qed.

Lemma own_alone pos tops st m : index_ok pos tops st -> forall i m', <[view_map st := set_rec_map (length (rec_maps st)) m]> (maps st) !! i = Some m' -> 0 < refcount m' -> rec_map m' = length (rec_maps st) -> i = view_map st.
Proof.
  intros Hok i m' Hi Hrc Ek. destruct (decide (i = view_map st)); [done |]. rewrite list_lookup_insert_ne in Hi by done.
  destruct (ok_map _ _ _ Hok i m' Hi Hrc) as (r & _ & _ & Hr & _). apply lookup_lt_Some in Hr. lia.
Qed.

Lemma move_to_private_spec pos tops st m r q p :
  index_ok pos tops st -> view_at pos tops st m r q p ->
  exists st' tops' m' r', mail_index_record_map_move_to_private st (view_map st) = Some st' /\ index_ok pos tops' st' /\ view_at pos tops' st' m' r' p p /\
    view_map st' = view_map st /\ heads st' = heads st /\ hdr m' = hdr m /\ refcount m' = refcount m /\ alone st' (rec_map m') /\ records r' = visible (hdr m) r'.
Proof.
  intros Hok Hv. pose proof Hv as [V1 V2 V3 V4 V5 V6 V7]. unfold mail_index_record_map_move_to_private. rewrite (view_get _ _ _ _ _ _ _ Hv). cbn [mbind option_bind].
  pose proof (visible_length _ _ _ _ V7) as Hlen. destruct (last_shown _ _ _ _ V6 V7) as (last & Hlast & Hlt).
  assert (Hself : forall x, records x = visible (hdr m) r -> records x = visible (hdr m) x) by (intros x Hx; unfold visible at 1; rewrite take_ge; [done | rewrite Hx; lia]).
  destruct (Nat.ltb_spec 1 (linked_count (rec_map m) st)) as [Hc | Hc]; cbn [mbind option_bind].
  - unfold mail_index_map_copy_records. rewrite (view_get _ _ _ _ _ _ _ Hv). cbn [mbind option_bind].
    assert (Hg : forall x, get_map (Index (<[view_map st := set_rec_map (length (rec_maps st)) m]> (maps st)) (rec_maps st ++ [x]) (view_map st) (errors st)) (view_map st) = Some (set_rec_map (length (rec_maps st)) m, x)).
    { intros x. unfold get_map. cbn. rewrite list_lookup_insert_eq by (by eapply lookup_lt_Some). cbn. by rewrite lookup_app_r, Nat.sub_diag. }
    rewrite Hg. cbn [mbind option_bind records hdr set_rec_map]. destruct (Z.eqb_spec (Z.of_nat (length (records r))) (h_messages_count (hdr m))) as [Hn | Hn].
    + destruct (index_ok_own pos tops st m r q p (RecMap (records r) 0 true) Hok Hv) as [Hok' Hv']; [by rewrite (visible_all _ _ _ _ V7) | by eapply next_pos |].
      eexists _, _, _, _. split; [done |]. split_and!; try done; [by apply heads_rec_map | exact (own_alone pos tops st m Hok) | by apply Hself; rewrite (visible_all _ _ _ _ V7)].
    + setoid_rewrite Hlast. cbn [mbind option_bind]. destruct (index_ok_own pos tops st m r q p (RecMap (visible (hdr m) r) last true) Hok Hv) as [Hok' Hv']; [done | done |].
      eexists _, _, _, _. split. { unfold put_rec_map. cbn. rewrite insert_app_r_alt, Nat.sub_diag by lia. reflexivity. }
      split_and!; try done; [by apply heads_rec_map | exact (own_alone pos tops st m Hok) | by apply Hself].
  - rewrite (view_get _ _ _ _ _ _ _ Hv). cbn [mbind option_bind]. pose proof (linked_alone _ _ _ _ _ _ _ Hv Hc) as Hone.
    destruct (Z.eqb_spec (Z.of_nat (length (records r))) (h_messages_count (hdr m))) as [Hn | Hn].
    + pose proof (visible_all _ _ _ _ V7 (eq_sym Hn)) as Hvis. destruct (index_ok_trim pos tops st m r q p r Hok Hv Hone) as [Hok' Hv']; [done | by apply (at_shown _ _ _ _ V7) |].
      unfold put_rec_map in *. rewrite (list_insert_id (rec_maps st)) in Hok', Hv' by done. replace (Index _ _ _ _) with st in Hok', Hv' by (by destruct st).
      eexists _, _, _, _. split_and!; try done.
    + setoid_rewrite Hlast. cbn [mbind option_bind]. destruct (index_ok_trim pos tops st m r q p (RecMap (visible (hdr m) r) last (in_memory r)) Hok Hv Hone) as [Hok' Hv']; [done | done |].
      eexists _, _, _, _. split_and!; try done. by apply Hself.
Qed.

(** The map is alone with the records that it shows. *)
Lemma atomic_map_spec pos tops st m r q p :
  index_ok pos tops st -> view_at pos tops st m r q p ->
  exists st' pos' tops' m' r', mail_index_sync_get_atomic_map st = Some st' /\ index_ok pos' tops' st' /\ view_at pos' tops' st' m' r' p p /\
    placed pos st m p st' pos' /\ hdr m' = hdr m /\ refcount m' = 1 /\ alone st' (rec_map m') /\ records r' = visible (hdr m) r'.
Proof.
  intros Hok Hv. unfold mail_index_sync_get_atomic_map. destruct (private_memory_spec _ _ _ _ _ _ _ Hok Hv) as (st1 & pos1 & tops1 & m1 & r1 & q1 & -> & Hok1 & Hv1 & Hp & E1 & E2 & _).
  cbn [mbind option_bind]. destruct (move_to_private_spec _ _ _ _ _ _ _ Hok1 Hv1) as (st2 & tops2 & m2 & r2 & -> & Hok2 & Hv2 & F1 & F2 & F3 & F4 & F5 & F6).
  exists st2, pos1, tops2, m2, r2. rewrite E1 in F3, F6. split_and!; try done; [| lia]. unfold placed in *. by rewrite F1, F2.
Qed.
End Invariant.
