(* ===== verification/MailIndexSyncSteps.v ===== *)
(** * Each change of the log on a map

    Appends, changes of flags, header updates and expunges keep the invariant of
    the maps, and move the map of the view to the next position of the log. *)

From S2P Require Import Prelude SeqRange SeqRangeProps ImapQuote MailIndexMap MailIndexMapProps MailIndexSync MailIndexCounts MailIndexLog MailIndexSyncInv.

Section Steps.
Context (base_size : Z) (base : mailbox) (log : list change).
Hypothesis Hsize : 0 <= base_size < 65536.
Hypothesis Hbase : mailbox_ok base.
Hypothesis Hlog : forall p c, log !! p = Some c -> change_ok base_size (replay base log p) c.

Notation L := (replay base log).
Notation map_at := (map_at base_size base log).
Notation records_at := (records_at base log).
Notation index_ok := (index_ok base_size base log).
Notation view_at := (view_at base_size base log).

(** ** Appends *)

Lemma map_at_lower r q p h uid f : 0 <= uid -> map_at r q p h -> map_at r q p (lower_lowwaters uid f h).
Proof.
  intros Hu [A1 A2 A3 A4 A5 A6 A7 A8 A9 A10]. destruct (lower_bounds uid f h) as ((E1 & E2 & E3) & _).
  split; unfold visible in *; rewrite ?E1, ?E2, ?E3; try done. by apply tallies_lower.
Qed.

Lemma map_at_push r q p h rec :
  records_at r q -> log !! q = Some (Append rec) -> in_memory r = true -> map_at r q p h ->
  map_at (RecMap (records r ++ [rec]) (r_uid rec) (in_memory r)) (S q) p h.
Proof.
  intros Hr Hq Hmem [A1 A2 A3 A4 A5 A6 A7 A8 A9 A10]. assert (Hv : visible h (RecMap (records r ++ [rec]) (r_uid rec) (in_memory r)) = visible h r) by (unfold visible; cbn; apply take_app_le; lia).
  split; cbn [records last_appended_uid in_memory]; rewrite ?Hv, ?length_app; cbn [length]; try done; try lia.
  - intros p' Hp. rewrite fmap_app. destruct (decide (p' = S q)) as [-> |].
    + rewrite (replay_S base log q _ Hq). cbn. unfold MailIndexSyncInv.records_at in Hr. by rewrite Hr.
    + apply prefix_app_r, A5. lia.
  - intros _. exists rec. by rewrite last_snoc.
Qed.

(** The record is there already, when another map has it, or is added. *)
Lemma append_record st m r q p rec :
  records_at r q -> map_at r q p (hdr m) -> in_memory r = true -> log !! p = Some (Append rec) -> rec_maps st !! rec_map m = Some r ->
  let n := h_messages_count (hdr m) in
  exists r' q' x,
    (if r_uid rec <=? last_appended_uid r then
       _ ← assert (n <? Z.of_nat (length (records r)));
       old_rec ← MAIL_INDEX_MAP_IDX (records r) n;
       _ ← assert (r_uid old_rec =? r_uid rec);
       Some (r_flags old_rec, st)
     else Some (r_flags rec, put_rec_map (rec_map m) (RecMap (records r ++ [rec]) (r_uid rec) (in_memory r)) st)) = Some (r_flags x, put_rec_map (rec_map m) r' st) /\
    r_uid x = r_uid rec /\ records r' !! Z.to_nat n = Some x /\ take (Z.to_nat n) (records r') = visible (hdr m) r /\ records_at r' q' /\ (p < q')%nat /\
    (forall p' h, map_at r q p' h -> map_at r' q' p' h) /\
    (n + 1 < Z.of_nat (length (records r')) -> exists y, last (records r') = Some y /\ last_appended_uid r' = r_uid y) /\
    (n + 1 = Z.of_nat (length (records r')) -> last_appended_uid r' = r_uid rec) /\ in_memory r' = true.
Proof.
  intros Hr Hm Hmem Hp Hk n. pose proof (at_count _ _ _ _ _ _ _ Hm) as Hn. fold n in Hn. pose proof (replay_S base log p _ Hp) as HS. cbn in HS. destruct (Hlog p _ Hp) as [Hnext _].
  pose proof (count_at _ _ _ _ _ _ _ Hm) as HL. fold n in HL.
  assert (Hpq : (p < q)%nat -> (r_uid <$> records r) !! Z.to_nat n = Some (r_uid rec)).
  { intros Hlt. eapply prefix_lookup_Some; [| apply (at_prefix _ _ _ _ _ _ _ Hm (S p)); lia]. rewrite HS. cbn. apply list_lookup_middle. lia. }
  destruct (decide (n < Z.of_nat (length (records r)))) as [Hlt | Hge].
  - assert (p < q)%nat as Hlt'.
    { pose proof (at_pos _ _ _ _ _ _ _ Hm). destruct (decide (p = q)) as [<- |]; [| lia]. unfold MailIndexSyncInv.records_at in Hr. rewrite <- Hr, length_fmap in HL. lia. }
    specialize (Hpq Hlt'). apply list_lookup_fmap_Some in Hpq as (x & Hxr & Hx). destruct (at_hidden _ _ _ _ _ _ _ Hm Hlt) as (y & Hy & Hya).
    rewrite last_lookup in Hy. assert (r_uid x <= r_uid y).
    { destruct (decide (Z.to_nat n = pred (length (records r)))) as [E |]; [rewrite <- E in Hy; simplify_eq; lia |].
      pose proof (ascending_lt _ _ _ x y (records_ascending _ _ _ Hbase Hlog _ _ Hr) Hx Hy). lia. }
    exists r, q, x. rewrite (proj2 (Z.leb_le _ _)) by lia. rewrite assert_true by lia. cbn [mbind option_bind]. rewrite map_idx_lookup, Hx by lia. cbn [mbind option_bind].
    rewrite assert_true by lia. unfold put_rec_map. rewrite list_insert_id by done. split_and!; try done; [by destruct st | intros _; exists y; by rewrite last_lookup |].
    intros Hlast. rewrite Hya. replace (pred (length (records r))) with (Z.to_nat n) in Hy by lia. by simplify_eq.
  - assert (Hlen : n = Z.of_nat (length (records r))) by lia. pose proof (at_shown _ _ _ _ _ _ _ Hm Hlen) as Hsh. rewrite (at_next _ _ _ _ _ _ _ Hm) in Hsh.
    assert (p = q) as <-. { pose proof (at_pos _ _ _ _ _ _ _ Hm). destruct (decide (p = q)); [done |]. apply lookup_lt_Some in Hpq; [rewrite length_fmap in Hpq; lia | lia]. }
    exists (RecMap (records r ++ [rec]) (r_uid rec) (in_memory r)), (S p), rec. rewrite (proj2 (Z.leb_gt _ _)) by lia. cbn [records last_appended_uid in_memory].
    split_and!; try done; [apply list_lookup_middle; lia | unfold visible; apply take_app_le; fold n; lia | | lia | | intros; exists rec; by rewrite last_snoc].
    + unfold MailIndexSyncInv.records_at. cbn. by rewrite fmap_app, HS, Hr.
    + intros p' h. by apply map_at_push.
Qed.

(** [g] on the headers of the maps with the records [k]. *)
Definition relink (k : nat) (g : mail_index_header -> mail_index_header) (ms : list mail_index_map) : list mail_index_map :=
  map (fun m => if linked k m then set_hdr (g (hdr m)) m else m) ms.

Lemma relink_lookup k g ms i : relink k g ms !! i = (fun m => if linked k m then set_hdr (g (hdr m)) m else m) <$> ms !! i.
Proof. apply list_lookup_fmap. Qed.

Lemma relink_insert k g ms i m : relink k g (<[i := m]> ms) = <[i := if linked k m then set_hdr (g (hdr m)) m else m]> (relink k g ms).
Proof. unfold relink. apply list_fmap_insert. Qed.

Lemma relink_heads k g ms : log_head <$> relink k g ms = log_head <$> ms.
Proof. unfold relink. rewrite <- list_fmap_compose. apply list_fmap_ext. intros i m _. cbn. by destruct (linked k m). Qed.

Lemma relink_put_heads k g ms i m h : ms !! i = Some m -> log_head <$> <[i := set_hdr h m]> (relink k g ms) = log_head <$> ms.
Proof. intros Hm. rewrite list_fmap_insert, relink_heads. apply list_insert_id. by rewrite list_lookup_fmap, Hm. Qed.

Lemma linked_spec k m : linked k m = true <-> 0 < refcount m /\ rec_map m = k.
Proof. unfold linked. rewrite andb_true_iff, Z.ltb_lt, Nat.eqb_eq. done. Qed.

Lemma update_linked_spec k f g st :
  (forall i m, maps st !! i = Some m -> linked k m = true -> f (hdr m) = (g (hdr m), true)) ->
  update_linked k f st = Index (relink k g (maps st)) (rec_maps st) (view_map st) (errors st).
Proof.
  intros Hf. unfold update_linked. f_equal.
  - apply list_fmap_ext. intros i m Hi. destruct (linked k m) eqn:E; [| done]. by rewrite (Hf i m Hi E).
  - rewrite <- (orb_false_r (errors st)) at 2. f_equal. apply not_true_iff_false. intros (m & Hin & Hx)%existsb_exists.
    apply list_elem_of_In, list_elem_of_lookup in Hin as [i Hi]. apply andb_true_iff in Hx as [Hl Hx]. by rewrite (Hf i m Hi Hl) in Hx.
Qed.

(** The records change, the headers of the maps with them by [g], and that of
    the view to [h']. *)
Lemma index_ok_relink pos tops st m r q p r' q' p' h' g :
  index_ok pos tops st -> view_at pos tops st m r q p -> records_at r' q' -> map_at r' q' p' h' ->
  (forall pj hj, map_at r q pj hj -> map_at r' q' pj (g hj)) ->
  let st' := Index (<[view_map st := set_hdr h' m]> (relink (rec_map m) g (maps st))) (<[rec_map m := r']> (rec_maps st)) (view_map st) false in
  index_ok (<[view_map st := p']> pos) (<[rec_map m := q']> tops) st' /\ view_at (<[view_map st := p']> pos) (<[rec_map m := q']> tops) st' (set_hdr h' m) r' q' p'.
Proof.
  intros Hok [V1 V2 V3 V4 V5 V6 V7] Hr' Hm' Hg st'. pose proof (lookup_lt_Some _ _ _ V1) as Hlt.
  assert (Hlen : length (relink (rec_map m) g (maps st)) = length (maps st)) by apply length_map. assert (Hlt' : (view_map st < length (relink (rec_map m) g (maps st)))%nat) by lia. split.
  - apply (index_ok_change base_size base log pos tops st (rec_map m) r r' q q'); [done.. | by rewrite length_insert | by rewrite length_insert | eexists; by rewrite list_lookup_insert_eq |].
    intros i m0 Hi Hrc. destruct (decide (i = view_map st)) as [-> | Hne].
    + rewrite list_lookup_insert_eq in Hi by done. injection Hi as <-. exists m. split_and!; [done.. |]. intros _ p0 _ _. exists p'.
      split; [| done]. apply list_lookup_insert_eq. by eapply lookup_lt_Some.
    + rewrite list_lookup_insert_ne, relink_lookup in Hi by done. apply fmap_Some in Hi as (m1 & Hi & ->). exists m1. rewrite list_lookup_insert_ne by done.
      destruct (linked (rec_map m) m1) eqn:E.
      * apply linked_spec in E as [E1 E2]. split_and!; try done. intros _ pj Hpj Hmj. exists pj. split; [done | by apply Hg].
      * split_and!; try done. intros E2. exfalso. apply not_true_iff_false in E. by apply E, linked_spec.
  - split; try done; cbn; apply list_lookup_insert_eq; [done | by eapply lookup_lt_Some..].
Qed.

Lemma placed_step pos tops st m p p' st1 pos1 st2 :
  index_ok pos tops st -> placed pos st m p st1 pos1 -> view_map st2 = view_map st1 -> heads st2 = heads st1 -> placed pos st m p' st2 (<[view_map st1 := p']> pos1).
Proof.
  intros Hok Hp Hv Hh. unfold placed in *. rewrite Hv, Hh. destruct Hp as [(E1 & -> & E3) | (E1 & E2 & -> & E4)].
  - left. split_and!; try done. by rewrite E1, list_insert_insert_eq.
  - right. split_and!; try done. rewrite E2, <- (ok_pos _ _ _ _ _ _ Hok). by rewrite insert_app_r_alt, Nat.sub_diag by lia.
Qed.

(** What a change does: the view has the map [m'], which stands at [p']. *)
Definition stepped (pos : list nat) (st : mail_index) (m : mail_index_map) (p' : nat) (st' : mail_index) (m' : mail_index_map) : Prop :=
  exists pos' tops' r' q', index_ok pos' tops' st' /\ view_at pos' tops' st' m' r' q' p' /\ placed pos st m p' st' pos'.

Lemma stepped_refl pos tops st m r q p : index_ok pos tops st -> view_at pos tops st m r q p -> stepped pos st m p st m.
Proof. intros Hok Hv. exists pos, tops, r, q. split_and!; [done.. |]. left. destruct Hv. by rewrite list_insert_id. Qed.

(** A change after another: the map is not cloned again. *)
Lemma placed_trans pos tops st m p1 st1 pos1 m1 p2 st2 pos2 :
  index_ok pos tops st -> placed pos st m p1 st1 pos1 -> placed pos1 st1 m1 p2 st2 pos2 -> refcount m1 <= 1 -> placed pos st m p2 st2 pos2.
Proof. intros Hok H1 [(E1 & -> & E2) | (E1 & _)] Hrc; [by eapply placed_step | lia]. Qed.

(** The header with one message more, before it is counted. *)
Definition appended (uid flags : Z) (h : mail_index_header) : mail_index_header :=
  let h := set_h_next_uid (u32 (uid + 1)) (set_h_messages (u32 (h_messages_count h + 1)) h) in
  if negb (Z.land flags MAIL_INDEX_MAIL_FLAG_DIRTY =? 0) then set_h_flags (Z.lor (h_flags h) MAIL_INDEX_HDR_FLAG_HAVE_DIRTY) h else h.

Lemma appended_spec r q p h rec f :
  map_at r q p h -> log !! p = Some (Append rec) ->
  let h' := appended (r_uid rec) f h in
  h_next_uid h' = r_uid rec + 1 /\ h_messages_count h' = h_messages_count h + 1 /\ h_base_header_size h' = base_size /\ h_messages_count h' < INT_MAX /\ tallies h' (visible h r).
Proof.
  intros Hm Hp h'. destruct (Hlog p _ Hp) as [Hnext Hlen]. rewrite <- (at_next _ _ _ _ _ _ _ Hm) in Hnext. pose proof (next_pos _ _ _ Hbase Hlog _ _ _ _ Hm).
  rewrite <- (count_at _ _ _ _ _ _ _ Hm) in Hlen. pose proof (at_count _ _ _ _ _ _ _ Hm). subst h'. unfold appended. rewrite !u32_small by (unfold is_u32; lia).
  pose proof (tally_bound _ _ (at_tallies _ _ _ _ _ _ _ Hm)). pose proof (at_size _ _ _ _ _ _ _ Hm).
  destruct (negb _); cbn; split_and!; try done; try lia; (apply (tallies_weaken h); [done | done | cbn; lia.. | apply Hm]).
Qed.

(** The map of the view shows the record [x] too. *)
Lemma map_at_append r q p h r' q' rec x :
  map_at r q p h -> log !! p = Some (Append rec) -> r_uid x = r_uid rec -> records r' !! Z.to_nat (h_messages_count h) = Some x ->
  take (Z.to_nat (h_messages_count h)) (records r') = visible h r -> records_at r' q' -> (p < q')%nat -> (forall p' h, map_at r q p' h -> map_at r' q' p' h) ->
  (h_messages_count h + 1 < Z.of_nat (length (records r')) -> exists y, last (records r') = Some y /\ last_appended_uid r' = r_uid y) ->
  (h_messages_count h + 1 = Z.of_nat (length (records r')) -> last_appended_uid r' = r_uid rec) -> in_memory r' = true ->
  let h' := lower_lowwaters (r_uid x) (r_flags x) (appended (r_uid rec) (r_flags x) h) in
  countable 0 (r_flags x) h' /\ map_at r' q' (S p) (recounted 0 (r_flags x) h').
Proof.
  intros Hm Hp Hx Hl Ht Hr' Hq' Hothers Hh Hs Hmem h'. destruct (appended_spec r q p h rec (r_flags x) Hm Hp) as (E1 & E2 & E3 & E4 & T).
  pose proof (at_count _ _ _ _ _ _ _ Hm) as Hn. pose proof (visible_length _ _ _ _ _ _ _ Hm) as Hlen. destruct (Hlog p _ Hp) as [Hnext _].
  pose proof (next_pos _ _ _ Hbase Hlog _ _ _ _ Hm) as Hpos. rewrite (at_next _ _ _ _ _ _ _ Hm) in Hpos.
  destruct (lower_bounds (r_uid x) (r_flags x) (appended (r_uid rec) (r_flags x) h)) as ((B1 & B2 & B3) & B4 & B5 & _). fold h' in B1, B2, B3, B4, B5.
  assert (Hv : take (Z.to_nat (h_messages_count h + 1)) (records r') = visible h r ++ [x]).
  { replace (Z.to_nat (h_messages_count h + 1)) with (S (Z.to_nat (h_messages_count h))) by lia. by rewrite (take_S_r _ _ _ Hl), Ht. }
  assert (HT : tallies (recounted 0 (r_flags x) h') (visible h r ++ [x])) by (apply tallies_append; [lia | done | lia]).
  assert (HuL : r_uid <$> visible h r ++ [x] = (L (S p)).1) by (rewrite fmap_app, (at_uids _ _ _ _ _ _ _ Hm), (replay_S base log p _ Hp); cbn; by rewrite Hx).
  pose proof (count_bounds seen (visible h r)). pose proof (count_bounds deleted (visible h r)). pose proof (tally_seen _ _ T). pose proof (tally_deleted _ _ T).
  pose proof (lookup_lt_Some _ _ _ Hl). split.
  - split; rewrite ?Z.bits_0; try done; lia.
  - destruct (recounted_same 0 (r_flags x) h') as (R1 & R2 & R3). split; unfold visible; rewrite ?R1, ?R2, ?R3, ?B1, ?B2, ?B3, ?E2, ?Hv; try done; try lia.
    + by rewrite E1, (replay_S base log p _ Hp).
    + intros p' Hp'. apply (at_prefix _ _ _ _ _ _ _ (Hothers p h Hm)). lia.
Qed.

Lemma count_append st m uid f :
  maps st !! view_map st = Some m -> 0 < refcount m -> uid < h_next_uid (hdr m) -> countable 0 f (lower_lowwaters uid f (hdr m)) ->
  (st ← mail_index_header_update_lowwaters st uid f; mail_index_sync_header_update_counts st uid 0 f) =
  Some (Index (<[view_map st := set_hdr (recounted 0 f (lower_lowwaters uid f (hdr m))) m]> (relink (rec_map m) (lower_lowwaters uid f) (maps st))) (rec_maps st) (view_map st) (errors st)).
Proof.
  intros Hm Hrc Hu Hc. unfold mail_index_header_update_lowwaters. rewrite Hm. cbn [mbind option_bind].
  rewrite (update_linked_spec _ _ (lower_lowwaters uid f)) by done. unfold mail_index_sync_header_update_counts. cbn [maps view_map].
  rewrite relink_lookup, Hm. cbn [fmap option_fmap option_map]. rewrite (proj2 (linked_spec (rec_map m) m)) by done. cbn [mbind option_bind hdr set_hdr].
  destruct (lower_bounds uid f (hdr m)) as ((_ & B2 & _) & _). rewrite B2. destruct (Z.geb_spec uid (h_next_uid (hdr m))); [lia |].
  by rewrite (update_counts_spec _ _ _ Hc).
Qed.

Lemma sync_append_spec pos tops st m r q p rec :
  index_ok pos tops st -> view_at pos tops st m r q p -> log !! p = Some (Append rec) ->
  exists st' m', sync_append rec st = Some (true, st') /\ stepped pos st m (S p) st' m' /\ refcount m' = 1.
Proof.
  intros Hok Hv Hp. destruct (Hlog p _ Hp) as [Hnext _]. unfold sync_append. rewrite (view_map_is _ _ _ _ _ _ _ _ _ _ Hv). cbn [mbind option_bind].
  rewrite (proj2 (Z.ltb_ge _ _)) by (rewrite (at_next _ _ _ _ _ _ _ (view_map_at _ _ _ _ _ _ _ _ _ _ Hv)); lia).
  destruct (private_memory_spec _ _ _ Hbase Hlog _ _ _ _ _ _ _ Hok Hv) as (st1 & pos1 & tops1 & m1 & r1 & q1 & -> & Hok1 & Hv1 & Hpl & E1 & E2 & E3).
  cbn [mbind option_bind]. rewrite (view_get _ _ _ _ _ _ _ _ _ _ Hv1). cbn [mbind option_bind]. pose proof Hv1 as [V1 V2 V3 V4 V5 V6 V7]. pose proof (lookup_lt_Some _ _ _ V1) as Hlt.
  destruct (append_record st1 m1 r1 q1 p rec V6 V7 E3 Hp V3) as (r2 & q2 & x & -> & Hx & Hl & Ht & Hr2 & Hq2 & Hoth & Hh & Hs & Hmem). cbn [mbind option_bind].
  destruct (map_at_append r1 q1 p (hdr m1) r2 q2 rec x V7 Hp Hx Hl Ht Hr2 Hq2 Hoth Hh Hs Hmem) as [Hc Hm2]. rewrite Hx in Hc, Hm2.
  destruct (appended_spec _ _ _ _ _ (r_flags x) V7 Hp) as (A1 & _). pose proof (next_pos _ _ _ Hbase Hlog _ _ _ _ V7) as Hpos. rewrite (at_next _ _ _ _ _ _ _ V7) in Hpos.
  set (h := appended (r_uid rec) (r_flags x) (hdr m1)) in *. unfold appended in h. fold h.
  set (st2 := put_map (view_map (put_rec_map (rec_map m1) r2 st1)) (set_hdr h m1) (put_rec_map (rec_map m1) r2 st1)).
  assert (Hst2 : maps st2 !! view_map st2 = Some (set_hdr h m1)) by (apply list_lookup_insert_eq; done).
  pose proof (count_append st2 (set_hdr h m1) (r_uid rec) (r_flags x) Hst2 V2 ltac:(cbn; lia) Hc) as Hfin.
  apply bind_Some in Hfin as (st3 & Hst3 & Hfin). rewrite Hst3. cbn [mbind option_bind]. rewrite Hfin. cbn [mbind option_bind].
  destruct (index_ok_relink pos1 tops1 st1 m1 r1 q1 p r2 q2 (S p) _ (lower_lowwaters (r_uid rec) (r_flags x)) Hok1 Hv1 Hr2 Hm2) as [Hok3 Hv3].
  { intros pj hj Hj. apply map_at_lower; [lia | by apply Hoth]. }
  match type of Hok3 with context [Index ?ms ?rs ?v ?e] => eexists (Index ms rs v e), _ end. split.
  { do 2 f_equal. unfold st2. cbn [put_map put_rec_map maps view_map rec_maps errors]. rewrite relink_insert, list_insert_insert_eq, (ok_errors _ _ _ _ _ _ Hok1). reflexivity. }
  split; [| instantiate (1 := set_hdr _ m1); exact E2]. eexists _, _, _, _. split_and!; [exact Hok3 | exact Hv3 |]. eapply placed_step; [done | done | done |]. by apply relink_put_heads.
Qed.

Lemma appends_spec recs pos tops st m r q p :
  index_ok pos tops st -> view_at pos tops st m r q p -> (forall i rec, recs !! i = Some rec -> log !! (p + i)%nat = Some (Append rec)) ->
  exists st' m', each sync_append recs st = Some st' /\ stepped pos st m (p + length recs)%nat st' m'.
Proof.
  revert pos tops st m r q p. induction recs as [| rec recs IH]; intros pos tops st m r q p Hok Hv Hl; cbn [each length].
  { exists st, m. rewrite Nat.add_0_r. split; [done | by eapply stepped_refl]. }
  destruct (sync_append_spec pos tops st m r q p rec Hok Hv) as (st1 & m1 & -> & (pos1 & tops1 & r1 & q1 & Hok1 & Hv1 & Hp1) & Hrc); [rewrite <- (Hl 0%nat rec eq_refl); f_equal; lia |].
  cbn [mbind option_bind]. destruct (IH pos1 tops1 st1 m1 r1 q1 (S p) Hok1 Hv1) as (st2 & m2 & -> & (pos2 & tops2 & r2 & q2 & Hok2 & Hv2 & Hp2)).
  { intros i x Hx. rewrite <- (Hl (S i) x Hx). f_equal. lia. }
  exists st2, m2. split; [done |]. rewrite Nat.add_succ_r. exists pos2, tops2, r2, q2. split_and!; [done.. |]. eapply (placed_trans pos tops st m (S p) st1 pos1 m1); [done.. | lia].
Qed.

(** ** Changes that leave the messages alone *)

Lemma relink_id k ms : relink k (fun h => h) ms = ms.
Proof. unfold relink. rewrite <- (list_fmap_id ms) at 2. apply list_fmap_ext. intros i m _. by destruct (linked k m), m. Qed.

Lemma map_at_extend r q p h : records_at r q -> (L (S q)).1 = (L q).1 -> map_at r q p h -> map_at r (S q) p h.
Proof.
  intros Hr HS Hm. pose proof Hm as [A1 A2 A3 A4 A5 A6 A7 A8 A9 A10]. split; try done; [lia |]. intros p' Hp'. destruct (decide (p' = S q)) as [-> |]; [| apply A5; lia].
  rewrite HS. apply A5. lia.
Qed.

Lemma still_step pos tops st m r q p h' :
  index_ok pos tops st -> view_at pos tops st m r q p -> (L (S p)).1 = (L p).1 -> h_messages_count h' = h_messages_count (hdr m) -> h_next_uid h' = (L (S p)).2 ->
  h_base_header_size h' = base_size -> tallies h' (visible (hdr m) r) -> stepped pos st m (S p) (put_map (view_map st) (set_hdr h' m) st) (set_hdr h' m).
Proof.
  intros Hok Hv HS En Enext Esize HT. pose proof Hv as [V1 V2 V3 V4 V5 V6 V7]. pose proof V7 as [A1 A2 A3 A4 A5 A6 A7 A8 A9 A10].
  set (q' := Nat.max q (S p)). assert (Hq' : q' = q /\ (S p <= q)%nat \/ q' = S q /\ p = q) by lia.
  assert (Hext : forall pj hj, map_at r q pj hj -> map_at r q' pj hj).
  { intros pj hj Hj. destruct Hq' as [[-> _] | [-> ->]]; [done | by apply map_at_extend]. }
  assert (Hr' : records_at r q') by (unfold MailIndexSyncInv.records_at in *; destruct Hq' as [[-> _] | [-> ->]]; congruence).
  pose proof (replay_next base_size base log Hlog p (S p) ltac:(lia)) as Hmono.
  assert (Hm' : map_at r q' (S p) h').
  { split; unfold visible in *; rewrite ?En; try done; [lia | congruence | intros p' Hp'; apply (at_prefix _ _ _ _ _ _ _ (Hext p _ V7)); lia | intros Hs; specialize (A9 Hs); lia]. }
  destruct (index_ok_relink pos tops st m r q p r q' (S p) h' (fun h => h) Hok Hv Hr' Hm' Hext) as [Hok' Hv']. rewrite relink_id, (list_insert_id (rec_maps st)) in Hok', Hv' by done.
  unfold put_map. rewrite (ok_errors _ _ _ _ _ _ Hok). eexists _, _, _, _. split_and!; [exact Hok' | exact Hv' |]. left. split_and!; [done.. |].
  unfold heads. cbn. rewrite list_fmap_insert. apply list_insert_id. by rewrite list_lookup_fmap, V1.
Qed.

Lemma sync_header_update_spec pos tops st m r q p u :
  index_ok pos tops st -> view_at pos tops st m r q p -> log !! p = Some (Update u) ->
  exists st' m', sync_header_update u st = Some (true, st') /\ stepped pos st m (S p) st' m' /\ refcount m' = refcount m /\ view_map st' = view_map st.
Proof.
  intros Hok Hv Hp. pose proof Hv as [V1 V2 V3 V4 V5 V6 V7]. destruct (Hlog p _ Hp) as (Ho & Hb & Hd & S1 & S2 & S3 & S4).
  pose proof (replay_S base log p _ Hp) as HS. cbn [apply_change] in HS. pose proof (at_size _ _ _ _ _ _ _ V7) as Hsz. unfold sync_header_update. rewrite V1. cbn [mbind option_bind].
  rewrite Hsz. destruct (Z.geb_spec (hu_offset u) base_size); [lia |]. destruct (Z.gtb_spec (hu_offset u + hu_size u) base_size); [lia |]. cbn [orb].
  set (h' := if _ <? _ then _ else _). pose proof (count_bounds seen (visible (hdr m) r)). pose proof (count_bounds deleted (visible (hdr m) r)).
  pose proof (at_tallies _ _ _ _ _ _ _ V7) as T. pose proof (tally_seen _ _ T). pose proof (tally_deleted _ _ T). pose proof (tally_bound _ _ T).
  pose proof (visible_length _ _ _ _ _ _ _ V7). pose proof (map_at_uids_ok _ _ _ Hbase Hlog _ _ _ _ V6 V7) as [_ Hc1 Hc2 Hc3 _].
  pose proof (at_next _ _ _ _ _ _ _ V7) as Hnx.
  assert (Hover : overwrite_header u (hdr m) = Hdr base_size (overwrite u 20 4 (h_flags (hdr m))) (overwrite u 28 4 (h_next_uid (hdr m))) (h_messages_count (hdr m))
    (h_seen_messages_count (hdr m)) (h_deleted_messages_count (hdr m)) (h_first_unseen_uid_lowwater (hdr m)) (h_first_deleted_uid_lowwater (hdr m))).
  { unfold overwrite_header. rewrite Hsz. rewrite (overwrite_spared u 2 2 base_size); [| done | done].
    rewrite (overwrite_spared u 32 4), (overwrite_spared u 40 4), (overwrite_spared u 44 4), (overwrite_spared u 52 4), (overwrite_spared u 56 4); [done | ..];
      unfold spares in *; change (256 ^ Z.of_nat 4) with 4294967296; lia. }
  assert (Hh' : h_next_uid h' = (L (S p)).2 /\ h_messages_count h' = h_messages_count (hdr m) /\ h_base_header_size h' = base_size /\ tallies h' (visible (hdr m) r)).
  { subst h'. rewrite Hover. cbn [h_next_uid]. rewrite HS. cbn [snd]. rewrite <- Hnx.
    generalize (overwrite u 28 4 (h_next_uid (hdr m))) (overwrite u 20 4 (h_flags (hdr m))). intros next flags.
    destruct (Z.ltb_spec next (h_next_uid (hdr m))); cbn; split_and!; try done; try lia; (apply (tallies_weaken (hdr m)); [done | done | cbn; lia.. | done]). }
  clearbody h'. destruct Hh' as (Hn1 & Hn2 & Hn3 & HT). eexists _, (set_hdr h' m). split; [done |]. split_and!; [| done | done].
  eapply still_step; try done. by rewrite HS.
Qed.

Lemma header_updates_spec us pos tops st m r q p :
  index_ok pos tops st -> view_at pos tops st m r q p -> (forall i u, us !! i = Some u -> log !! (p + i)%nat = Some (Update u)) ->
  exists st' m', each sync_header_update us st = Some st' /\ stepped pos st m (p + length us)%nat st' m'.
Proof.
  intros Hok Hv Hl. enough (H : exists st' m', each sync_header_update us st = Some st' /\ stepped pos st m (p + length us)%nat st' m' /\ view_map st' = view_map st) by naive_solver.
  revert pos tops st m r q p Hok Hv Hl. induction us as [| u us IH]; intros pos tops st m r q p Hok Hv Hl; cbn [each length].
  { exists st, m. rewrite Nat.add_0_r. split; [done |]. split; [by eapply stepped_refl | done]. }
  destruct (sync_header_update_spec pos tops st m r q p u Hok Hv) as (st1 & m1 & -> & (pos1 & tops1 & r1 & q1 & Hok1 & Hv1 & Hp1) & _ & Hw1); [rewrite <- (Hl 0%nat u eq_refl); f_equal; lia |].
  cbn [mbind option_bind]. destruct (IH pos1 tops1 st1 m1 r1 q1 (S p) Hok1 Hv1) as (st2 & m2 & -> & (pos2 & tops2 & r2 & q2 & Hok2 & Hv2 & Hp2) & Hw2).
  { intros i x Hx. rewrite <- (Hl (S i) x Hx). f_equal. lia. }
  exists st2, m2. split; [done |]. split; [| congruence]. rewrite Nat.add_succ_r. exists pos2, tops2, r2, q2. split_and!; [done.. |].
  destruct Hp2 as [(E1 & -> & E2) | (_ & E2 & _)]; [by eapply placed_step |]. exfalso. pose proof (lookup_lt_Some _ _ _ (view_map_is _ _ _ _ _ _ _ _ _ _ Hv1)). lia.
Qed.

(** ** Flags *)

Lemma index_ok_put pos tops st m r q p h' :
  index_ok pos tops st -> view_at pos tops st m r q p -> map_at r q p h' ->
  let st' := put_map (view_map st) (set_hdr h' m) st in index_ok pos tops st' /\ view_at pos tops st' (set_hdr h' m) r q p /\ heads st' = heads st.
Proof.
  intros Hok Hv Hm' st'. pose proof Hv as [V1 V2 V3 V4 V5 V6 V7]. pose proof (index_ok_relink pos tops st m r q p r q p h' (fun h => h) Hok Hv V6 Hm' ltac:(done)) as H. cbv zeta in H.
  rewrite relink_id, (list_insert_id (rec_maps st)), (list_insert_id pos), (list_insert_id tops) in H by done. unfold st', put_map. rewrite (ok_errors _ _ _ _ _ _ Hok).
  split_and!; [apply H | apply H |]. unfold heads. cbn. rewrite list_fmap_insert. apply list_insert_id. by rewrite list_lookup_fmap, V1.
Qed.

(** The header of a map after a message got other flags. *)
Definition reflagged (counted : bool) (uid f g : Z) (h : mail_index_header) : mail_index_header :=
  if counted then let h := lower_lowwaters uid g h in if uid >=? h_next_uid h then h else recounted f g h else h.

Lemma reflagged_same counted uid f g h : same_counts h (reflagged counted uid f g h).
Proof.
  unfold reflagged. destruct counted; [| done]. destruct (lower_bounds uid g h) as (Hs & _). cbv zeta. destruct (_ >=? _); [done |]. eapply same_counts_trans; [done | apply recounted_same].
Qed.

(** Flags that are not counted. *)
Lemma tallies_uncounted h l i x g :
  tallies h l -> l !! i = Some x -> Z.testbit g 3 = Z.testbit (r_flags x) 3 -> Z.testbit g 2 = Z.testbit (r_flags x) 2 -> tallies h (<[i := Rec (r_uid x) g]> l).
Proof.
  intros [T1 T2 T3 T4 T5] Hi H3 H2. assert (Hs : seen (Rec (r_uid x) g) = seen x) by exact H3. assert (Hd : deleted (Rec (r_uid x) g) = deleted x) by exact H2. split; [| | | | done].
  - rewrite (count_insert _ _ _ _ _ Hi), Hs. lia.
  - rewrite (count_insert _ _ _ _ _ Hi), Hd. lia.
  - apply Forall_insert; [done |]. rewrite Hs. by apply (Forall_lookup_1 _ _ _ _ T3 Hi).
  - apply Forall_insert; [done |]. rewrite Hd. by apply (Forall_lookup_1 _ _ _ _ T4 Hi).
Qed.

Lemma insert_uids (recs : list mail_index_record) (i : nat) x g : recs !! i = Some x -> r_uid <$> <[i := Rec (r_uid x) g]> recs = r_uid <$> recs.
Proof. intros Hi. rewrite list_fmap_insert. apply list_insert_id. by rewrite list_lookup_fmap, Hi. Qed.

Lemma map_at_flags r q p h i x g counted :
  records_at r q -> map_at r q p h -> records r !! i = Some x -> (counted = false -> Z.testbit g 3 = Z.testbit (r_flags x) 3 /\ Z.testbit g 2 = Z.testbit (r_flags x) 2) ->
  map_at (RecMap (<[i := Rec (r_uid x) g]> (records r)) (last_appended_uid r) (in_memory r)) q p (reflagged counted (r_uid x) (r_flags x) g h).
Proof.
  intros Hr Hm Hi Hcnt. pose proof Hm as [A1 A2 A3 A4 A5 A6 A7 A8 A9 A10]. pose proof (map_at_uids_ok _ _ _ Hbase Hlog _ _ _ _ Hr Hm) as Hu.
  destruct (reflagged_same counted (r_uid x) (r_flags x) g h) as (E1 & E2 & E3). pose proof (visible_length _ _ _ _ _ _ _ Hm) as Hlen.
  assert (H0 : 0 <= r_uid x) by (pose proof (ascending_ge _ _ _ (records_ascending _ _ _ Hbase Hlog _ _ Hr) Hi); lia).
  assert (HT : tallies (reflagged counted (r_uid x) (r_flags x) g h) (take (Z.to_nat (h_messages_count h)) (<[i := Rec (r_uid x) g]> (records r)))).
  { unfold reflagged. cbv zeta. destruct (lower_bounds (r_uid x) g h) as ((_ & B2 & B3) & _). rewrite B2.
    destruct (decide (Z.of_nat i < h_messages_count h)) as [Hin | Hout].
    - pose proof (visible_lookup h r i x Hi Hin) as Hvi. rewrite take_insert_lt by lia. fold (visible h r). pose proof (uids_below _ _ Hu i x Hi ltac:(lia)) as Hb. cbv beta in Hb.
      destruct counted; [| destruct (Hcnt eq_refl); by apply tallies_uncounted]. destruct (Z.geb_spec (r_uid x) (h_next_uid h)); [lia |]. by apply tallies_flags.
    - rewrite take_insert_ge by lia. fold (visible h r). pose proof (hidden_new _ _ _ Hbase Hlog _ _ _ _ _ _ Hr Hm Hi ltac:(lia)).
      destruct counted; [| done]. destruct (Z.geb_spec (r_uid x) (h_next_uid h)); [| lia]. by apply tallies_lower. }
  split; unfold visible; cbn [records last_appended_uid in_memory]; rewrite ?E1, ?E2, ?E3, ?length_insert, ?(insert_uids _ _ _ _ Hi); try done.
  - rewrite <- firstn_map. change (map r_uid) with (fmap (M := list) r_uid). rewrite (insert_uids _ _ _ _ Hi). rewrite <- A3. unfold visible. by rewrite fmap_take.
  - intros Hh. destruct (A8 Hh) as (y & Hy & Hya). rewrite last_lookup in *. rewrite length_insert. destruct (decide (i = pred (length (records r)))) as [-> |].
    + simplify_eq. eexists. rewrite list_lookup_insert_eq by (by eapply lookup_lt_Some). done.
    + exists y. by rewrite list_lookup_insert_ne.
Qed.

Lemma relink_relink k g1 g2 ms : relink k g2 (relink k g1 ms) = relink k (fun h => g2 (g1 h)) ms.
Proof.
  unfold relink. rewrite map_map. apply map_ext. intros m. destruct (linked k m) eqn:E; [| by rewrite E].
  change (linked k (set_hdr (g1 (hdr m)) m)) with (linked k m). by rewrite E.
Qed.

Lemma relink_ext k g1 g2 ms : (forall i m, ms !! i = Some m -> linked k m = true -> g1 (hdr m) = g2 (hdr m)) -> relink k g1 ms = relink k g2 ms.
Proof. intros Hg. apply list_fmap_ext. intros i m Hi. destruct (linked k m) eqn:E; [| done]. by rewrite (Hg i m Hi E). Qed.

(** Every map with the record follows. *)
Lemma recount_all pos tops st m r q p i x g :
  index_ok pos tops st -> view_at pos tops st m r q p -> records r !! i = Some x ->
  let st1 := put_rec_map (rec_map m) (RecMap (<[i := Rec (r_uid x) g]> (records r)) (last_appended_uid r) (in_memory r)) st in
  (st ← mail_index_header_update_lowwaters st1 (r_uid x) g; mail_index_sync_header_update_counts_all st (r_uid x) (r_flags x) g) =
  Some (Index (relink (rec_map m) (reflagged true (r_uid x) (r_flags x) g) (maps st)) (rec_maps st1) (view_map st) (errors st)).
Proof.
  intros Hok Hv Hi st1. pose proof Hv as [V1 V2 V3 V4 V5 V6 V7]. subst st1. unfold mail_index_header_update_lowwaters. cbn [put_rec_map maps view_map]. rewrite V1. cbn [mbind option_bind].
  rewrite (update_linked_spec _ _ (lower_lowwaters (r_uid x) g)) by done. unfold mail_index_sync_header_update_counts_all. cbn [maps rec_maps view_map errors put_rec_map].
  rewrite relink_lookup, V1. cbn [fmap option_fmap option_map]. rewrite (proj2 (linked_spec (rec_map m) m)) by done. cbn [mbind option_bind rec_map set_hdr].
  rewrite (update_linked_spec _ _ (fun h => if r_uid x >=? h_next_uid h then h else recounted (r_flags x) g h)); cbn [maps rec_maps view_map errors put_rec_map].
  { by rewrite relink_relink. }
  intros j mj Hj Hl. rewrite relink_lookup in Hj. apply fmap_Some in Hj as (m0 & Hj & ->).
  assert (Hl0 : linked (rec_map m) m0 = true) by (by destruct (linked (rec_map m) m0) eqn:E; [| rewrite E in Hl]). rewrite Hl0. cbn [hdr set_hdr].
  apply linked_spec in Hl0 as [Hrc Hk]. destruct (ok_map _ _ _ _ _ _ Hok j m0 Hj Hrc) as (r0 & q0 & p0 & B1 & B2 & B3 & B4 & B5). rewrite Hk in B1. simplify_eq.
  destruct (lower_bounds (r_uid x) g (hdr m0)) as ((_ & C2 & C3) & C4 & C5 & _). destruct (Z.geb_spec (r_uid x) (h_next_uid (lower_lowwaters (r_uid x) g (hdr m0)))); [done |].
  apply update_counts_spec. pose proof (map_at_uids_ok _ _ _ Hbase Hlog _ _ _ _ B4 B5) as Hu. pose proof (uids_room _ _ Hu). pose proof (visible_length _ _ _ _ _ _ _ B5).
  assert (Hin : Z.of_nat i < h_messages_count (hdr m0)).
  { destruct (decide (h_messages_count (hdr m0) <= Z.of_nat i)) as [Hge |]; [| lia]. pose proof (hidden_new _ _ _ Hbase Hlog _ _ _ _ _ _ B4 B5 Hi Hge). lia. }
  pose proof (ascending_ge _ _ _ (uids_ascending _ _ Hu) Hi).
  eapply (countable_at _ (visible (hdr m0) r) i); [apply tallies_lower; [lia | apply B5] | by apply visible_lookup | lia | lia].
Qed.

(** What changes of flags keep. *)
Definition reflag (pos tops : list nat) (st : mail_index) (m : mail_index_map) (q p : nat) (st' : mail_index) : Prop :=
  exists m' r', index_ok pos tops st' /\ view_at pos tops st' m' r' q p /\ view_map st' = view_map st /\ heads st' = heads st /\
    h_messages_count (hdr m') = h_messages_count (hdr m).

Lemma flag_update_record_spec pos tops st m r q p u counted seq :
  index_ok pos tops st -> view_at pos tops st m r q p -> 1 <= seq <= h_messages_count (hdr m) ->
  (counted = false -> forall f k, k = 3 \/ k = 2 -> Z.testbit (Z.lor (Z.ldiff f (remove_flags u)) (add_flags u)) k = Z.testbit f k) ->
  exists st', flag_update_record u counted seq st = Some st' /\ reflag pos tops st m q p st'.
Proof.
  intros Hok Hv Hs Hc. pose proof Hv as [V1 V2 V3 V4 V5 V6 V7]. pose proof (at_count _ _ _ _ _ _ _ V7). unfold flag_update_record. rewrite (view_get _ _ _ _ _ _ _ _ _ _ Hv). cbn [mbind option_bind].
  unfold MAIL_INDEX_REC_AT_SEQ. destruct (map_idx_some (records r) (seq - 1)) as (x & Hx & ->); [lia |]. cbn [mbind option_bind]. set (g := Z.lor _ _).
  assert (Hcnt : counted = false -> Z.testbit g 3 = Z.testbit (r_flags x) 3 /\ Z.testbit g 2 = Z.testbit (r_flags x) 2) by (intros E; split; apply (Hc E); auto).
  clearbody g. set (r' := RecMap _ _ _). set (gh := reflagged counted (r_uid x) (r_flags x) g).
  assert (Hr' : records_at r' q) by (unfold MailIndexSyncInv.records_at, r'; cbn; rewrite (insert_uids _ _ _ _ Hx); exact V6).
  pose proof (index_ok_relink pos tops st m r q p r' q p (gh (hdr m)) gh Hok Hv Hr') as H'. cbv zeta in H'.
  destruct H' as [Hok' Hv']; [by apply map_at_flags | intros; by apply map_at_flags |].
  rewrite (list_insert_id pos), (list_insert_id tops) in Hok', Hv' by done.
  assert (Hself : <[view_map st := set_hdr (gh (hdr m)) m]> (relink (rec_map m) gh (maps st)) = relink (rec_map m) gh (maps st)).
  { apply list_insert_id. rewrite relink_lookup, V1. cbn. by rewrite (proj2 (linked_spec (rec_map m) m)). }
  rewrite Hself in Hok', Hv'.
  match type of Hok' with context [Index ?ms ?rs ?v ?e] => exists (Index ms rs v e) end. split.
  - destruct counted.
    + pose proof (recount_all pos tops st m r q p _ x g Hok Hv Hx) as Hall. cbv zeta in Hall. rewrite (ok_errors _ _ _ _ _ _ Hok) in Hall. exact Hall.
    + unfold gh, reflagged. rewrite relink_id. unfold put_rec_map. by rewrite (ok_errors _ _ _ _ _ _ Hok).
  - exists (set_hdr (gh (hdr m)) m), r'. split_and!; [done.. | apply relink_heads | apply reflagged_same].
Qed.

Lemma reflag_trans pos tops st m q p st1 m1 st2 :
  view_map st1 = view_map st -> heads st1 = heads st -> h_messages_count (hdr m1) = h_messages_count (hdr m) -> reflag pos tops st1 m1 q p st2 -> reflag pos tops st m q p st2.
Proof. intros E1 E2 E3 (m2 & r2 & H1 & H2 & H3 & H4 & H5). exists m2, r2. split_and!; congruence. Qed.

Lemma flag_update_loop_spec n pos tops st m r q p u counted seq :
  index_ok pos tops st -> view_at pos tops st m r q p -> 1 <= seq -> seq + Z.of_nat n - 1 <= h_messages_count (hdr m) ->
  (counted = false -> forall f k, k = 3 \/ k = 2 -> Z.testbit (Z.lor (Z.ldiff f (remove_flags u)) (add_flags u)) k = Z.testbit f k) ->
  exists st', flag_update_loop n u counted seq st = Some st' /\ reflag pos tops st m q p st'.
Proof.
  revert st m r seq. induction n as [|n IH]; intros st m r seq Hok Hv Hs Hn Hc; cbn [flag_update_loop]; [exists st; split; [done | by exists m, r] |].
  destruct (flag_update_record_spec pos tops st m r q p u counted seq Hok Hv ltac:(lia) Hc) as (st1 & -> & m1 & r1 & Hok1 & Hv1 & E1 & E2 & E3). cbn [mbind option_bind].
  destruct (IH st1 m1 r1 (seq + 1) Hok1 Hv1 ltac:(lia) ltac:(lia) Hc) as (st2 & -> & H2). exists st2. split; [done |]. by eapply reflag_trans.
Qed.

Lemma uncounted_bits u : negb (Z.land (Z.lor (add_flags u) (remove_flags u)) (Z.lor MAIL_SEEN MAIL_DELETED) =? 0) = false ->
  forall f k, k = 3 \/ k = 2 -> Z.testbit (Z.lor (Z.ldiff f (remove_flags u)) (add_flags u)) k = Z.testbit f k.
Proof.
  intros H%negb_false_iff%Z.eqb_eq f k Hk. apply (f_equal (fun x => Z.testbit x k)) in H. rewrite Z.land_spec, Z.lor_spec, Z.bits_0 in H.
  assert (Hb : Z.testbit (Z.lor MAIL_SEEN MAIL_DELETED) k = true) by (by destruct Hk as [-> | ->]). rewrite Hb, andb_true_r in H. apply orb_false_iff in H as [Ha Hr].
  by rewrite Z.lor_spec, Z.ldiff_spec, Ha, Hr, andb_true_r, orb_false_r.
Qed.

Lemma map_at_set_flags r q p h f : map_at r q p h -> map_at r q p (set_h_flags f h).
Proof. intros [A1 A2 A3 A4 A5 A6 A7 A8 A9 A10]. split; try done. apply (tallies_weaken h); try done; pose proof (tally_bound _ _ A6); cbn; lia. Qed.

Lemma sync_flag_update_spec pos tops st m r q p u :
  index_ok pos tops st -> view_at pos tops st m r q p -> 1 <= uid1 u <= uid2 u -> exists st', sync_flag_update u st = Some st' /\ reflag pos tops st m q p st'.
Proof.
  intros Hok Hv Hu. pose proof Hv as [V1 V2 V3 V4 V5 V6 V7]. unfold sync_flag_update. rewrite (view_get _ _ _ _ _ _ _ _ _ _ Hv). cbn [mbind option_bind].
  destruct (lookup_seq_range_spec (hdr m) (records r) (uid1 u) (uid2 u) (map_at_uids_ok _ _ _ Hbase Hlog _ _ _ _ V6 V7) Hu) as (s1 & s2 & -> & B1 & B2 & B3 & _). cbn [mbind option_bind].
  destruct (Z.eqb_spec s1 0); [exists st; split; [done | by exists m, r] |]. set (h := if negb _ then _ else hdr m).
  assert (Hm' : map_at r q p h) by (subst h; destruct (negb _); [by apply map_at_set_flags | done]).
  assert (En : h_messages_count h = h_messages_count (hdr m)) by (subst h; by destruct (negb _)). clearbody h.
  destruct (index_ok_put pos tops st m r q p h Hok Hv Hm') as (Hok1 & Hv1 & Hh1). set (counted := negb _).
  destruct (flag_update_loop_spec (Z.to_nat (s2 - s1 + 1)) pos tops _ _ r q p u counted s1 Hok1 Hv1) as (st' & E & H'); [lia | cbn; lia | by apply uncounted_bits |].
  exists st'. split; [exact E |]. eapply reflag_trans; [.. | exact H']; [done | exact Hh1 | done].
Qed.

Lemma flag_updates_spec us pos tops st m r q p :
  index_ok pos tops st -> view_at pos tops st m r q p -> Forall (fun u => 1 <= uid1 u <= uid2 u) us ->
  exists st' m', flag_updates us st = Some st' /\ stepped pos st m p st' m'.
Proof.
  intros Hok Hv Hf. enough (H : exists st', flag_updates us st = Some st' /\ reflag pos tops st m q p st').
  { destruct H as (st' & E & m' & r' & Hok' & Hv' & E1 & E2 & _). exists st', m'. split; [done |]. exists pos, tops, r', q. split_and!; [done.. |]. left.
    rewrite list_insert_id by apply Hv. done. }
  revert st m r Hok Hv. induction Hf as [| u us Hu Hf IH]; intros st m r Hok Hv; cbn [flag_updates]; [exists st; split; [done | by exists m, r] |].
  destruct (sync_flag_update_spec pos tops st m r q p u Hok Hv Hu) as (st1 & -> & m1 & r1 & Hok1 & Hv1 & E1 & E2 & E3). cbn [mbind option_bind].
  destruct (IH st1 m1 r1 Hok1 Hv1) as (st2 & -> & H2). exists st2. split; [done |]. by eapply reflag_trans.
Qed.
End Steps.
