(* ===== verification/MailIndexExpunge.v ===== *)
(** * Expunges of a map of a mail index

    The records that are left are moved over those that are expunged, range by
    range in place.  The result is the records whose sequences are in none of
    the ranges, and the header counts them. *)

From S2P Require Import Prelude SeqRange SeqRangeProps ImapQuote MailIndexMap MailIndexMapProps MailIndexSync MailIndexCounts MailIndexLog.

(** ** What is left *)

(** The records of [l], which starts at [seq], whose sequences are not in [seqs]. *)
Fixpoint keep (seq : Z) (seqs : list seq_range) (l : list mail_index_record) : list mail_index_record :=
  match l with
  | [] => []
  | x :: l => if mem seq seqs then keep (seq + 1) seqs l else x :: keep (seq + 1) seqs l
  end.

Lemma keep_app seq seqs l1 l2 : keep seq seqs (l1 ++ l2) = keep seq seqs l1 ++ keep (seq + Z.of_nat (length l1)) seqs l2.
Proof.
  revert seq. induction l1 as [| x l1 IH]; intros seq; cbn [keep app length]; [by rewrite Z.add_0_r |]. rewrite IH.
  replace (seq + 1 + Z.of_nat (length l1)) with (seq + Z.of_nat (S (length l1))) by lia. by destruct (mem seq seqs).
Qed.

Lemma keep_all seq seqs l : (forall x, seq <= x < seq + Z.of_nat (length l) -> mem x seqs = false) -> keep seq seqs l = l.
Proof.
  revert seq. induction l as [| x l IH]; intros seq H; cbn [keep length] in *; [done |]. rewrite H by lia. f_equal. apply IH. intros y Hy. apply H. lia.
Qed.

Lemma keep_none seq seqs l : (forall x, seq <= x < seq + Z.of_nat (length l) -> mem x seqs = true) -> keep seq seqs l = [].
Proof.
  revert seq. induction l as [| x l IH]; intros seq H; cbn [keep length] in *; [done |]. rewrite H by lia. apply IH. intros y Hy. apply H. lia.
Qed.

Lemma keep_ext seq seqs seqs' l : (forall x, seq <= x < seq + Z.of_nat (length l) -> mem x seqs = mem x seqs') -> keep seq seqs l = keep seq seqs' l.
Proof.
  revert seq. induction l as [| x l IH]; intros seq H; cbn [keep length] in *; [done |]. rewrite (H seq) by lia. rewrite (IH (seq + 1)); [done |]. intros y Hy. apply H. lia.
Qed.

(** Ranges after [prev], up to [n]. *)
Fixpoint ranges (prev n : Z) (seqs : list seq_range) : Prop :=
  match seqs with
  | [] => prev <= n
  | SR s1 s2 :: seqs => prev < s1 <= s2 /\ ranges s2 n seqs
  end.

Lemma ranges_le prev n seqs : ranges prev n seqs -> prev <= n.
Proof. revert prev. induction seqs as [| [s1 s2] seqs IH]; intros prev H; cbn in H; [done |]. destruct H as [H1 H2]. specialize (IH s2 H2). lia. Qed.

Lemma ranges_mem prev n seqs x : ranges prev n seqs -> mem x seqs = true -> prev < x <= n.
Proof.
  revert prev. induction seqs as [| [s1 s2] seqs IH]; intros prev H Hm; cbn in H, Hm; [done |]. destruct H as [H1 H2]. pose proof (ranges_le _ _ _ H2).
  apply orb_true_iff in Hm as [Hm | Hm]; [lia |]. specialize (IH s2 H2 Hm). lia.
Qed.

(** One range: the records before it stay, and those in it go. *)
Lemma keep_range prev n s1 s2 seqs l :
  ranges (Z.of_nat prev) n (SR s1 s2 :: seqs) -> n = Z.of_nat prev + Z.of_nat (length l) ->
  keep (Z.of_nat prev + 1) (SR s1 s2 :: seqs) l =
  take (Z.to_nat (s1 - 1) - prev) l ++ keep (s2 + 1) seqs (drop (Z.to_nat s2 - prev) l).
Proof.
  intros [H1 H2] Hn. pose proof (ranges_le _ _ _ H2) as Hle. set (a := (Z.to_nat (s1 - 1) - prev)%nat). set (b := (Z.to_nat s2 - prev)%nat).
  rewrite <- (take_drop a l) at 1. rewrite keep_app, length_take. f_equal.
  - apply keep_all. intros x Hx. rewrite length_take in Hx. apply not_true_iff_false. cbn. intros [Hm | Hm]%orb_true_iff; [lia |]. apply (ranges_mem _ _ _ _ H2) in Hm. lia.
  - rewrite <- (take_drop (b - a) (drop a l)), keep_app, drop_drop, length_take, length_drop. rewrite keep_none; cbn [app].
    + replace (a + (b - a))%nat with b by lia. replace (Z.of_nat prev + 1 + _ + _) with (s2 + 1) by lia. apply keep_ext. intros x Hx. cbn. zcases.
    + intros x Hx. rewrite length_take, length_drop in Hx. cbn. apply orb_true_iff. left. lia.
Qed.

(** ** Counting those that go *)

Definition in_view (st : mail_index) (m : mail_index_map) : Prop := maps st !! view_map st = Some m.

Lemma put_view st m h : in_view st m -> in_view (put_map (view_map st) (set_hdr h m) st) (set_hdr h m).
Proof. intros Hm. unfold in_view. cbn. apply list_lookup_insert_eq. by eapply lookup_lt_Some. Qed.

Lemma put_put st i m m' : put_map i m (put_map i m' st) = put_map i m st.
Proof. unfold put_map. cbn. by rewrite list_insert_insert_eq. Qed.

Lemma put_self st m : in_view st m -> put_map (view_map st) (set_hdr (hdr m) m) st = st.
Proof. intros Hm. unfold put_map. replace (set_hdr (hdr m) m) with m by (by destruct m). rewrite list_insert_id by done. by destruct st. Qed.

Lemma expunge_counts_spec mid l1 l2 rest buf seq st m :
  in_view st m -> tallies (hdr m) (l1 ++ mid ++ l2) -> Z.of_nat (length (l1 ++ mid ++ l2)) <= h_messages_count (hdr m) -> h_messages_count (hdr m) < INT_MAX ->
  Forall (fun x => r_uid x < h_next_uid (hdr m)) mid -> 1 <= seq -> drop (Z.to_nat (seq - 1)) buf = mid ++ rest ->
  exists h', expunge_counts (length mid) buf seq st = Some (put_map (view_map st) (set_hdr h' m) st) /\ same_counts (hdr m) h' /\ tallies h' (l1 ++ l2).
Proof.
  revert seq st m. induction mid as [| x mid IH]; intros seq st m Hv HT Hn Hmax Hu Hs Hbuf; cbn [length expunge_counts app] in *.
  { exists (hdr m). by rewrite put_self. }
  inversion_clear Hu as [| ? ? Hx Hu'].
  assert (Hget : MAIL_INDEX_REC_AT_SEQ buf seq = Some x).
  { unfold MAIL_INDEX_REC_AT_SEQ. rewrite map_idx_lookup by lia. rewrite <- (Nat.add_0_r (Z.to_nat _)), <- lookup_drop, Hbuf. done. }
  rewrite Hget. cbn [mbind option_bind]. unfold mail_index_sync_header_update_counts. unfold in_view in Hv. rewrite Hv. cbn [mbind option_bind].
  destruct (Z.geb_spec (r_uid x) (h_next_uid (hdr m))); [lia |].
  rewrite update_counts_spec by (apply (countable_at _ (l1 ++ x :: mid ++ l2) (length l1)); [done | by apply list_lookup_middle | done | done]).
  destruct (recounted_same (r_flags x) 0 (hdr m)) as (R1 & R2 & R3). set (h := recounted (r_flags x) 0 (hdr m)) in *.
  destruct (IH (seq + 1) (put_map (view_map st) (set_hdr h m) st) (set_hdr h m)) as (h' & -> & Hsame & HT'); cbn [hdr set_hdr].
  - by apply put_view.
  - by apply tallies_expunge.
  - rewrite R3. rewrite !length_app in *. cbn [length] in Hn. rewrite length_app in Hn. lia.
  - by rewrite R3.
  - by rewrite R2.
  - lia.
  - replace (Z.to_nat (seq + 1 - 1)) with (1 + Z.to_nat (seq - 1))%nat by lia. rewrite Nat.add_comm, <- drop_drop, Hbuf. done.
  - exists h'. cbn [view_map put_map]. rewrite put_put. split_and!; [done | | done]. eapply same_counts_trans; [| exact Hsame]. done.
Qed.

(** ** Moving those that stay *)

(** The buffer while it is worked on: [kept] are in place, and from [prev] on it
    is as it was. *)
Record moving (orig kept buf : list mail_index_record) (prev : nat) : Prop := {
  mv_length : length buf = length orig;
  mv_prev : (length kept <= prev <= length orig)%nat;
  mv_kept : take (length kept) buf = kept;
  mv_rest : drop prev buf = drop prev orig;
}.

(** [mid] is moved after [kept]. *)
Lemma move_mid orig kept buf prev k s2 :
  moving orig kept buf prev -> (prev + k <= s2 <= length orig)%nat -> (0 < k)%nat ->
  let mid := take k (drop prev orig) in
  exists buf', (if negb (Z.of_nat prev =? Z.of_nat (length kept) + 1 - 1) then move_records buf (Z.of_nat (length kept) + 1) (Z.of_nat prev + 1) (Z.of_nat k) else Some buf) = Some buf' /\
    moving orig (kept ++ mid) buf' s2.
Proof.
  intros [M1 M2 M3 M4] Hs Hk mid. assert (Hmid : length mid = k) by (subst mid; rewrite length_take, length_drop; lia).
  assert (Hdrop : forall b, drop prev b = drop prev orig -> drop s2 b = drop s2 orig).
  { intros b Hb. replace s2 with (prev + (s2 - prev))%nat by lia. by rewrite <- !drop_drop, Hb. }
  destruct (Z.eqb_spec (Z.of_nat prev) (Z.of_nat (length kept) + 1 - 1)) as [E | E]; cbn [negb].
  - exists buf. split; [done |]. split; [done | rewrite length_app; lia | | by apply Hdrop]. rewrite length_app, Hmid.
    rewrite <- (take_drop (length kept) buf) at 1. rewrite take_app, length_take, take_take, Nat.min_r by lia. rewrite M3. f_equal.
    replace (length kept + k - _)%nat with k by lia. replace (length kept) with prev by lia. by rewrite M4.
  - unfold move_records. rewrite assert_true by lia. cbn [mbind option_bind]. eexists. split; [reflexivity |].
    replace (Z.to_nat (Z.of_nat (length kept) + 1 - 1)) with (length kept) by lia. replace (Z.to_nat (Z.of_nat prev + 1 - 1)) with prev by lia. rewrite Nat2Z.id, M3, M4. fold mid.
    split.
    + rewrite !length_app, length_drop. lia.
    + rewrite length_app. lia.
    + rewrite app_assoc. by rewrite take_app_length.
    + rewrite app_assoc, drop_app_ge by (rewrite length_app; lia). rewrite drop_drop, length_app, Hmid. rewrite <- (Hdrop buf M4). f_equal. lia.
Qed.

Lemma moving_skip orig kept buf prev s2 : moving orig kept buf prev -> (prev <= s2 <= length orig)%nat -> moving orig kept buf s2.
Proof.
  intros [M1 M2 M3 M4] Hs. split; [done | lia | done |]. replace s2 with (prev + (s2 - prev))%nat by lia. by rewrite <- !drop_drop, M4.
Qed.

(** What is between two ranges is moved. *)
Lemma move_range orig kept buf prev s1 s2 :
  moving orig kept buf prev -> Z.of_nat prev < s1 -> s1 <= Z.of_nat s2 <= Z.of_nat (length orig) ->
  let mid := take (Z.to_nat (s1 - 1) - prev) (drop prev orig) in
  exists buf', (if Z.of_nat prev + 1 <=? s1 - 1 then
      let move_count := (s1 - 1) - (Z.of_nat prev + 1) + 1 in
      buf ← (if negb (Z.of_nat prev =? Z.of_nat (length kept) + 1 - 1) then move_records buf (Z.of_nat (length kept) + 1) (Z.of_nat prev + 1) move_count else Some buf);
      Some (Z.of_nat (length kept) + 1 + move_count, buf)
    else Some (Z.of_nat (length kept) + 1, buf)) = Some (Z.of_nat (length (kept ++ mid)) + 1, buf') /\ moving orig (kept ++ mid) buf' s2.
Proof.
  intros Hmv H1 H2. set (k := (Z.to_nat (s1 - 1) - prev)%nat). cbv zeta. set (mid := take k (drop prev orig)).
  assert (Hmid : length mid = k) by (subst mid; rewrite length_take, length_drop; pose proof (mv_prev _ _ _ _ Hmv); lia).
  rewrite length_app, Hmid. destruct (Z.leb_spec (Z.of_nat prev + 1) (s1 - 1)).
  - replace (s1 - 1 - (Z.of_nat prev + 1) + 1) with (Z.of_nat k) by lia. destruct (move_mid orig kept buf prev k s2 Hmv) as (buf1 & -> & Hb); [lia | lia |].
    exists buf1. cbn [mbind option_bind]. split; [do 2 f_equal; lia | done].
  - assert (Hk0 : k = 0%nat) by lia. exists buf. rewrite Hk0. split; [do 2 f_equal; lia |]. assert (mid = []) as -> by (by apply nil_length_inv; rewrite Hmid).
    rewrite app_nil_r. apply (moving_skip _ _ _ prev); [done | lia].
Qed.

Lemma expunge_loop_spec seqs orig kept buf prev st m :
  ranges (Z.of_nat prev) (Z.of_nat (length orig)) seqs -> moving orig kept buf prev -> in_view st m ->
  tallies (hdr m) (kept ++ drop prev orig) -> h_messages_count (hdr m) = Z.of_nat (length (kept ++ drop prev orig)) -> h_messages_count (hdr m) < INT_MAX ->
  Forall (fun x => r_uid x < h_next_uid (hdr m)) orig ->
  exists prev' kept' buf' h', let left := kept' ++ drop prev' orig in
    expunge_loop seqs (Z.of_nat prev) (Z.of_nat (length kept) + 1) buf (h_messages_count (hdr m)) st =
      Some (Z.of_nat prev', Z.of_nat (length kept') + 1, buf', Z.of_nat (length left), put_map (view_map st) (set_hdr h' m) st) /\
    moving orig kept' buf' prev' /\ left = kept ++ keep (Z.of_nat prev + 1) seqs (drop prev orig) /\ tallies h' left /\
    h_messages_count h' = Z.of_nat (length left) /\ h_next_uid h' = h_next_uid (hdr m) /\ h_base_header_size h' = h_base_header_size (hdr m).
Proof.
  revert kept buf prev st m. induction seqs as [| [s1 s2] seqs IH]; intros kept buf prev st m Hr Hmv Hv HT Hn Hmax Hu; cbn [expunge_loop].
  { exists prev, kept, buf, (hdr m). cbv zeta. rewrite put_self by done. rewrite keep_all by done. rewrite Hn. done. }
  pose proof Hr as [Hr1 Hr2]. pose proof (ranges_le _ _ _ Hr2) as Hle. pose proof Hmv as [M1 M2 M3 M4]. rewrite assert_true by lia. cbn [mbind option_bind].
  set (k := (Z.to_nat (s1 - 1) - prev)%nat). set (mid := take k (drop prev orig)). set (t := Z.to_nat s2). set (gone := take (t - (prev + k)) (drop (prev + k) orig)).
  assert (Hsplit : drop prev orig = mid ++ gone ++ drop t orig).
  { rewrite <- (take_drop k (drop prev orig)) at 1. fold mid. f_equal. rewrite drop_drop. rewrite <- (take_drop (t - (prev + k)) (drop (prev + k) orig)) at 1. fold gone.
    f_equal. rewrite drop_drop. f_equal. lia. }
  assert (Hmid : length mid = k) by (subst mid; rewrite length_take, length_drop; lia).
  assert (Hgone : Z.of_nat (length gone) = s2 - s1 + 1) by (subst gone; rewrite length_take, length_drop; lia).
  destruct (expunge_counts_spec gone (kept ++ mid) (drop t orig) (drop t orig) buf s1 st m) as (h1 & Hc & (R1 & R2 & R3) & HT1); [done | | | done | | lia | |].
  { by rewrite <- app_assoc, <- Hsplit. }
  { rewrite <- app_assoc, <- Hsplit. lia. }
  { subst gone. by apply Forall_take, Forall_drop. }
  { replace (Z.to_nat (s1 - 1)) with (prev + k)%nat by lia. rewrite <- drop_drop, M4, Hsplit, drop_app_length' by lia. done. }
  replace (Z.to_nat (s2 - s1 + 1)) with (length gone) by lia. rewrite Hc. cbn [mbind option_bind].
  destruct (move_range orig kept buf prev s1 t Hmv ltac:(lia) ltac:(lia)) as (buf1 & Hmove & Hmv1). cbv zeta in Hmove. fold k mid in Hmove, Hmv1. rewrite Hmove.
  cbn [mbind option_bind put_map maps view_map]. rewrite list_lookup_insert_eq by (by eapply lookup_lt_Some). cbn [mbind option_bind hdr set_hdr].
  rewrite Hsplit, !length_app in Hn. rewrite R3, u32_small by (unfold is_u32; lia). set (n := h_messages_count (hdr m) - (s2 - s1 + 1)) in *. set (h2 := set_h_messages n h1).
  assert (Hn2 : n = Z.of_nat (length ((kept ++ mid) ++ drop t orig))) by (rewrite !length_app; lia).
  destruct (IH (kept ++ mid) buf1 t (put_map (view_map st) (set_hdr h2 m) st) (set_hdr h2 m)) as (prev' & kept' & buf' & h' & E & Hmv' & Hleft & HT' & E1 & E2 & E3); cbn [hdr set_hdr h2 set_h_messages h_messages_count h_next_uid].
  - by replace (Z.of_nat t) with s2 by lia.
  - done.
  - by apply put_view.
  - apply (tallies_weaken h1); try done; cbn; pose proof (tally_bound _ _ HT1); lia.
  - done.
  - lia.
  - by rewrite R2.
  - exists prev', kept', buf', h'. cbv zeta in *. cbn [hdr set_hdr h2 set_h_messages h_messages_count h_next_uid h_base_header_size] in *. replace (Z.of_nat t) with s2 in E by lia.
    split_and!; [| done | | done | done | congruence | congruence].
    + unfold put_map in E |- *. cbn [maps view_map rec_maps errors] in E |- *. rewrite list_insert_insert_eq in E |- *. exact E.
    + rewrite Hleft, <- app_assoc. f_equal. rewrite (keep_range prev _ s1 s2 seqs _ Hr) by (rewrite length_drop; lia). fold k mid. f_equal.
      rewrite drop_drop. replace (prev + (Z.to_nat s2 - prev))%nat with t by lia. by replace (Z.of_nat t) with s2 by lia.
Qed.

(** What is after the last range is moved too. *)
Lemma move_stragglers orig kept buf prev :
  moving orig kept buf prev ->
  exists buf', (if Z.of_nat (length orig) >? Z.of_nat prev then move_records buf (Z.of_nat (length kept) + 1) (Z.of_nat prev + 1) (Z.of_nat (length orig) - Z.of_nat prev) else Some buf) = Some buf' /\
    take (length (kept ++ drop prev orig)) buf' = kept ++ drop prev orig.
Proof.
  intros [M1 M2 M3 M4]. rewrite length_app, length_drop. destruct (Z.gtb_spec (Z.of_nat (length orig)) (Z.of_nat prev)).
  - unfold move_records. rewrite assert_true by lia. cbn [mbind option_bind]. eexists. split; [reflexivity |].
    replace (Z.to_nat (Z.of_nat (length kept) + 1 - 1)) with (length kept) by lia. replace (Z.to_nat (Z.of_nat prev + 1 - 1)) with prev by lia. rewrite M3, M4.
    rewrite (take_ge (drop prev orig)) by (rewrite length_drop; lia). rewrite app_assoc. apply take_app_length'. rewrite length_app, length_drop. lia.
  - exists buf. split; [done |]. rewrite drop_ge by lia. rewrite app_nil_r. by replace (length kept + (length orig - prev))%nat with (length kept) by lia.
Qed.

Lemma expunge_private st m r seqs :
  get_map st (view_map st) = Some (m, r) -> ranges 0 (Z.of_nat (length (records r))) seqs -> tallies (hdr m) (records r) ->
  h_messages_count (hdr m) = Z.of_nat (length (records r)) -> h_messages_count (hdr m) < INT_MAX -> Forall (fun x => r_uid x < h_next_uid (hdr m)) (records r) ->
  let left := keep 1 seqs (records r) in
  exists h', ('(_, r) ← get_map st (view_map st);
      let orig_rec_count := Z.of_nat (length (records r)) in
      '(prev_seq2, dest_seq1, buf, count, st) ← expunge_loop seqs 0 1 (records r) orig_rec_count st;
      buf ← (if orig_rec_count >? prev_seq2 then move_records buf dest_seq1 (prev_seq2 + 1) (orig_rec_count - prev_seq2) else Some buf);
      m ← maps st !! view_map st;
      Some (put_rec_map (rec_map m) (RecMap (take (Z.to_nat count) buf) (last_appended_uid r) (in_memory r)) st)) =
    Some (Index (<[view_map st := set_hdr h' m]> (maps st)) (<[rec_map m := RecMap left (last_appended_uid r) (in_memory r)]> (rec_maps st)) (view_map st) (errors st)) /\
    tallies h' left /\ h_messages_count h' = Z.of_nat (length left) /\ h_next_uid h' = h_next_uid (hdr m) /\ h_base_header_size h' = h_base_header_size (hdr m).
Proof.
  intros Hg Hr HT Hn Hmax Hu left. assert (Hv : in_view st m) by (unfold get_map, in_view in *; destruct (maps st !! view_map st); cbn in Hg; [destruct (rec_maps st !! _); cbn in Hg; congruence | done]).
  rewrite Hg. cbn [mbind option_bind]. cbv zeta.
  destruct (expunge_loop_spec seqs (records r) [] (records r) 0 st m) as (prev & kept & buf & h' & E & Hmv & Hleft & HT' & E1 & E2 & E3); [done | | done | done | done | done | done |].
  { split; cbn; try done. lia. }
  cbv zeta in *. cbn [length app] in *. change (Z.of_nat 0 + 1) with 1 in *. change (Z.of_nat 0) with 0 in *. rewrite drop_0 in Hleft. rewrite <- Hn, E. cbn [mbind option_bind]. rewrite Hn.
  destruct (move_stragglers _ _ _ _ Hmv) as (buf' & -> & Hbuf). cbn [mbind option_bind put_map maps view_map]. rewrite list_lookup_insert_eq by (by eapply lookup_lt_Some).
  cbn [mbind option_bind rec_map set_hdr]. rewrite Nat2Z.id, Hbuf, Hleft. exists h'. rewrite Hleft in HT', E1. done.
Qed.

(** ** Sequences of the expunged messages *)

Lemma wf_length lo l n : wf_from lo l -> (forall x, mem x l = true -> x <= n) -> Z.of_nat (length l) <= Z.max 0 (n - lo + 1).
Proof.
  revert lo. induction l as [| [s1 s2] l IH]; intros lo Hw Hm; cbn [wf_from length seq1 seq2] in *; [lia |]. destruct Hw as (H1 & H2 & H3).
  specialize (IH _ H3 ltac:(intros x Hx; apply Hm; cbn; rewrite Hx; apply orb_true_r)). assert (s2 <= n) by (apply Hm; cbn; apply orb_true_iff; left; lia). lia.
Qed.

Lemma wf_ranges lo l n : wf_from lo l -> (forall x, mem x l = true -> 1 <= x <= n) -> 0 <= n -> forall prev, prev < Z.max 1 lo -> prev <= n -> ranges prev n l.
Proof.
  revert lo. induction l as [| [s1 s2] l IH]; intros lo Hw Hm Hn prev Hp Hpn; cbn [wf_from ranges seq1 seq2] in *; [done |]. destruct Hw as (H1 & H2 & H3).
  assert (1 <= s1) by (apply Hm; cbn; apply orb_true_iff; left; lia). assert (s2 <= n) by (apply Hm; cbn; apply orb_true_iff; left; lia).
  split; [lia |]. apply (IH _ H3); [intros x Hx; apply Hm; cbn; rewrite Hx; apply orb_true_r | done | lia | done].
Qed.

(** [seqs] are among the messages, and has those with [P]. *)
Record seqs_of (h : mail_index_header) (recs : list mail_index_record) (P : Z -> bool) (seqs : list seq_range) : Prop := {
  seqs_wf : wf seqs;
  seqs_in x : mem x seqs = true -> 1 <= x <= h_messages_count h;
  seqs_mem i rec : recs !! i = Some rec -> Z.of_nat i < h_messages_count h -> mem (Z.of_nat i + 1) seqs = P (r_uid rec);
}.

Lemma seqs_of_nil h recs : seqs_of h recs (fun _ => false) [].
Proof. by split. Qed.

(** A range of UIDs is added. *)
Lemma seqs_of_add h recs P seqs u1 u2 s1 s2 seqs' :
  seqs_of h recs P seqs -> is_seq_range h recs u1 u2 s1 s2 -> wf seqs' -> (forall x, mem x seqs' = (s1 <=? x) && (x <=? s2) && negb (s1 =? 0) || mem x seqs) ->
  seqs_of h recs (fun u => P u || (u1 <=? u) && (u <=? u2)) seqs'.
Proof.
  intros [S1 S2 S3] (R1 & R2 & R3 & R4) Hw Hm. split; [done | |].
  - intros x Hx. rewrite Hm in Hx. apply orb_true_iff in Hx as [Hx | Hx]; [lia | by apply S2].
  - intros i rec Hi Hn. rewrite Hm, (S3 i rec Hi Hn), orb_comm. f_equal. specialize (R4 i rec Hi Hn). apply eq_true_iff_eq. rewrite !andb_true_iff, negb_true_iff, !Z.leb_le, Z.eqb_neq. lia.
Qed.

Lemma seqs_of_ext h recs P Q seqs : (forall u, P u = Q u) -> seqs_of h recs P seqs -> seqs_of h recs Q seqs.
Proof. intros He [S1 S2 S3]. split; [done | done |]. intros i rec Hi Hn. rewrite <- He. by apply S3. Qed.

Lemma seqs_of_len h recs P seqs : uids_ok h recs -> seqs_of h recs P seqs -> len_ok seqs.
Proof.
  intros Hu [S1 S2 _]. pose proof (uids_room _ _ Hu). pose proof (uids_count _ _ Hu). unfold len_ok.
  destruct seqs as [| [s1 s2] seqs]; [done |]. assert (1 <= s1) by (destruct S1 as (? & ? & _); apply S2; cbn in *; apply orb_true_iff; left; lia).
  assert (Hw : wf_from 1 (SR s1 s2 :: seqs)) by (destruct S1 as (? & ? & ?); cbn [wf_from seq1 seq2] in *; split_and!; [lia.. | done]). pose proof (wf_length 1 _ (h_messages_count h) Hw ltac:(intros x Hx; by apply S2)). lia.
Qed.

Lemma expunge_seqs_spec h recs uids P seqs :
  uids_ok h recs -> Forall (fun '(u1, u2) => 1 <= u1 <= u2) uids -> seqs_of h recs P seqs ->
  exists seqs', expunge_seqs h recs uids seqs = Some seqs' /\ seqs_of h recs (fun u => P u || expunged uids u) seqs'.
Proof.
  intros Hu Hf. revert P seqs. induction Hf as [| [u1 u2] uids Hr Hf IH]; intros P seqs Hs; cbn [expunge_seqs].
  { exists seqs. split; [done |]. eapply seqs_of_ext; [| done]. intros u. cbn. by rewrite orb_false_r. }
  destruct (lookup_seq_range_spec h recs u1 u2 Hu Hr) as (s1 & s2 & -> & Hrange). cbn [mbind option_bind]. pose proof Hrange as (R1 & R2 & R3 & _). pose proof (uids_room _ _ Hu).
  assert (Hadd : exists seqs1, (if s1 =? 0 then Some seqs else seq_range_array_add_range seqs s1 s2) = Some seqs1 /\ seqs_of h recs (fun u => P u || (u1 <=? u) && (u <=? u2)) seqs1).
  { destruct (Z.eqb_spec s1 0) as [-> |].
    - exists seqs. split; [done |]. eapply seqs_of_add; [done | done | apply Hs |]. intros x. by rewrite Z.eqb_refl, andb_false_r.
    - unfold seq_range_array_add_range. destruct (seq_range_array_add_range_internal_spec seqs s1 s2 false) as ([c seqs1] & -> & Hw & Hm & _); [apply Hs | by eapply seqs_of_len | lia | lia | lia |].
      exists seqs1. split; [done |]. eapply seqs_of_add; [done | done | done |]. intros x. cbn in Hm. rewrite Hm. rewrite (proj2 (Z.eqb_neq s1 0)) by done. by rewrite andb_true_r. }
  destruct Hadd as (seqs1 & -> & Hs1). cbn [mbind option_bind]. destruct (IH _ _ Hs1) as (seqs' & -> & Hs'). exists seqs'. split; [done |].
  eapply seqs_of_ext; [| done]. intros u. cbn. by rewrite orb_assoc.
Qed.

(** A single UID has one sequence. *)
Lemma seq_range_one h recs uid s1 s2 : uids_ok h recs -> is_seq_range h recs uid uid s1 s2 -> s1 = s2.
Proof.
  intros Hu (R1 & R2 & R3 & R4). destruct (decide (s1 = 0)); [lia |]. pose proof (uids_count _ _ Hu) as Hc. pose proof (uids_ascending _ _ Hu) as Hasc.
  destruct (map_idx_some recs (s1 - 1)) as (x1 & Hx1 & _); [lia |]. destruct (map_idx_some recs (s2 - 1)) as (x2 & Hx2 & _); [lia |].
  pose proof (R4 _ _ Hx1 ltac:(lia)). pose proof (R4 _ _ Hx2 ltac:(lia)). destruct (decide (s1 = s2)); [done |]. pose proof (ascending_lt _ _ _ _ _ Hasc Hx1 Hx2). lia.
Qed.

Lemma expunge_guid_seqs_spec h recs uids P seqs :
  uids_ok h recs -> Forall (fun u => 1 <= u) uids -> seqs_of h recs P seqs ->
  exists seqs', expunge_guid_seqs h recs uids seqs = Some seqs' /\ seqs_of h recs (fun u => P u || expunged ((fun u => (u, u)) <$> uids) u) seqs'.
Proof.
  intros Hu Hf. revert P seqs. induction Hf as [| uid uids Hr Hf IH]; intros P seqs Hs; cbn [expunge_guid_seqs].
  { exists seqs. split; [done |]. eapply seqs_of_ext; [| done]. intros u. cbn. by rewrite orb_false_r. }
  rewrite assert_true by (apply negb_true_iff, Z.eqb_neq; lia). cbn [mbind option_bind].
  destruct (lookup_seq_range_spec h recs uid uid Hu ltac:(lia)) as (s1 & s2 & -> & Hrange). cbn [mbind option_bind]. rewrite (seq_range_one _ _ _ _ _ Hu Hrange) in Hrange.
  pose proof Hrange as (R1 & R2 & _). pose proof (uids_room _ _ Hu).
  assert (Hadd : exists seqs1, (if s2 =? 0 then Some seqs else '(_, seqs) ← seq_range_array_add seqs s2; Some seqs) = Some seqs1 /\ seqs_of h recs (fun u => P u || (uid <=? u) && (u <=? uid)) seqs1).
  { destruct (Z.eqb_spec s2 0) as [-> |].
    - exists seqs. split; [done |]. eapply seqs_of_add; [done | done | apply Hs |]. intros x. by rewrite Z.eqb_refl, andb_false_r.
    - destruct (seq_range_array_add_spec seqs s2) as ([c seqs1] & -> & Hw & _ & Hm); [apply Hs | by eapply seqs_of_len | unfold is_u32; lia |].
      exists seqs1. split; [done |]. eapply (seqs_of_add _ _ _ seqs uid uid s2 s2); [done | done | done |]. intros x. cbn in Hm. rewrite Hm. f_equal. zcases. }
  destruct Hadd as (seqs1 & -> & Hs1). cbn [mbind option_bind]. destruct (IH _ _ Hs1) as (seqs' & -> & Hs'). exists seqs'. split; [done |].
  eapply seqs_of_ext; [| done]. intros u. cbn. by rewrite orb_assoc.
Qed.

(** The records that are left are those whose UIDs are not expunged. *)
Lemma keep_uids h seqs P recs :
  seqs_of h recs P seqs -> h_messages_count h = Z.of_nat (length recs) -> r_uid <$> keep 1 seqs recs = List.filter (fun u => negb (P u)) (r_uid <$> recs).
Proof.
  intros [_ _ Hm] Hn. assert (Hall : forall i rec, recs !! i = Some rec -> mem (1 + Z.of_nat i) seqs = P (r_uid rec)).
  { intros i rec Hi. rewrite Z.add_comm. apply Hm; [done |]. apply lookup_lt_Some in Hi. lia. }
  clear Hm Hn h. revert Hall. generalize 1. induction recs as [| x recs IH]; intros s Hall; cbn; [done |].
  pose proof (Hall 0%nat x eq_refl) as H0. rewrite Z.add_0_r in H0. rewrite H0.
  assert (IH' := IH (s + 1) ltac:(intros i rec Hi; rewrite <- (Hall (S i) rec Hi); f_equal; lia)).
  destruct (P (r_uid x)); cbn [negb]; [exact IH' |]. cbn. by f_equal.
Qed.
