(* ===== verification/MailIndexSyncCorrect.v ===== *)
(** * Synchronisation is correct

    A transaction of the log on a map, and the synchronisation of a map over
    any part of the log.  Maps are shared, cloned and closed in any order; every
    one of them has the messages of its position, with a header that counts
    them, and no synchronisation fails. *)

From S2P Require Import Prelude SeqRange SeqRangeProps ImapQuote MailIndexMap MailIndexMapProps MailIndexSync MailIndexCounts MailIndexLog MailIndexSyncInv MailIndexSyncSteps MailIndexExpunge.

Section Correct.
Context (base_size : Z) (base : mailbox) (log : list change).
Hypothesis Hsize : 0 <= base_size < 65536.
Hypothesis Hbase : mailbox_ok base.
Hypothesis Hlog : forall p c, log !! p = Some c -> change_ok base_size (replay base log p) c.

Notation L := (replay base log).
Notation map_at := (map_at base_size base log).
Notation records_at := (records_at base log).
Notation index_ok := (index_ok base_size base log).
Notation view_at := (view_at base_size base log).
Notation stepped := (stepped base_size base log).

(** ** Expunges *)

Lemma seqs_of_uids h recs recs' P seqs :
  seqs_of h recs P seqs -> r_uid <$> take (Z.to_nat (h_messages_count h)) recs = r_uid <$> recs' -> seqs_of h recs' P seqs.
Proof.
  intros [S1 S2 S3] E. split; [done | done |]. intros i x Hi Hn. assert (Hu : (r_uid <$> recs') !! i = Some (r_uid x)) by (by rewrite list_lookup_fmap, Hi).
  rewrite <- E, list_lookup_fmap in Hu. apply fmap_Some in Hu as (y & Hy & ->). apply lookup_take_Some in Hy as [Hy _]. by apply S3.
Qed.

(** All records of [r] are shown. *)
Lemma map_at_whole r p h :
  records_at r p -> h_messages_count h = Z.of_nat (length (records r)) -> h_next_uid h = (L p).2 -> tallies h (records r) -> h_base_header_size h = base_size -> last_appended_uid r < h_next_uid h ->
  map_at r p p h.
Proof.
  intros Hr Hn Hx HT Hs Hl. assert (Hv : visible h r = records r) by (unfold visible; apply take_ge; lia). split; rewrite ?Hv; try done; try lia.
  intros p' Hp'. assert (p' = p) as -> by lia. unfold MailIndexSyncInv.records_at in Hr. by rewrite Hr.
Qed.

Lemma sync_expunge_range_spec pos tops st m r q p uids seqs :
  index_ok pos tops st -> view_at pos tops st m r q p -> log !! p = Some (Expunge uids) -> seqs_of (hdr m) (records r) (expunged uids) seqs ->
  exists st' m', sync_expunge_range st seqs = Some st' /\ stepped pos st m (S p) st' m'.
Proof.
  intros Hok Hv Hp Hs. pose proof Hv as [V1 V2 V3 V4 V5 V6 V7]. pose proof (replay_S base log p _ Hp) as HS. cbn in HS.
  pose proof (at_uids _ _ _ _ _ _ _ V7) as Hvis. pose proof (visible_length _ _ _ _ _ _ _ V7) as Hlen. pose proof (seqs_of_uids _ _ (visible (hdr m) r) _ _ Hs eq_refl) as Hsv.
  destruct seqs as [| s0 seqs0] eqn:Eseqs.
  - exists st, m. split; [done |]. pose proof (keep_uids _ _ _ _ Hsv (eq_sym Hlen)) as Hk. rewrite keep_all in Hk by done. rewrite Hvis in Hk.
    pose proof (still_step base_size base log Hlog pos tops st m r q p (hdr m) Hok Hv) as Hst. rewrite put_self in Hst by done. replace (set_hdr (hdr m) m) with m in Hst by (by destruct m).
    apply Hst; [rewrite HS; cbn; congruence | done | rewrite HS; apply V7 | apply V7 | apply V7].
  - destruct (atomic_map_spec _ _ _ Hbase Hlog _ _ _ _ _ _ _ Hok Hv) as (st1 & pos1 & tops1 & m1 & r1 & E & Hok1 & Hv1 & Hpl & E1 & E2 & Hone & Hr1).
    cbv beta iota delta [sync_expunge_range]. rewrite E. cbn [mbind option_bind]. pose proof Hv1 as [W1 W2 W3 W4 W5 W6 W7]. rewrite <- Eseqs in *. clear s0 seqs0 Eseqs.
    pose proof (visible_length _ _ _ _ _ _ _ W7) as Hlen1. rewrite E1 in Hlen1. rewrite <- Hr1 in Hlen1. pose proof (at_uids _ _ _ _ _ _ _ W7) as Hvis1. rewrite E1, <- Hr1 in Hvis1.
    assert (Hs1 : seqs_of (hdr m1) (records r1) (expunged uids) seqs) by (rewrite E1; exact (seqs_of_uids _ _ _ _ _ Hs (eq_trans Hvis (eq_sym Hvis1)))).
    pose proof (map_at_uids_ok _ _ _ Hbase Hlog _ _ _ _ W6 W7) as Hu1. pose proof (at_tallies _ _ _ _ _ _ _ W7) as HT1. rewrite E1, <- Hr1, <- E1 in HT1. rewrite <- E1 in Hlen1.
    destruct (expunge_private st1 m1 r1 seqs) as (h' & Hex & HT & Hn & Hnx & Hsz).
    { by eapply view_get. }
    { rewrite Hlen1. eapply wf_ranges; [apply Hs1 | intros x Hx; by apply (seqs_in _ _ _ _ Hs1) | lia.. ]. }
    { done. }
    { done. }
    { apply Hu1. }
    { apply Forall_lookup. intros i x Hi. apply (uids_below _ _ Hu1 i x Hi). apply lookup_lt_Some in Hi. lia. }
    eexists _, _. split; [exact Hex |]. set (r' := RecMap _ _ _).
    pose proof (keep_uids _ _ _ _ Hs1 (eq_sym Hlen1)) as Hk. rewrite Hvis1 in Hk.
    assert (Hr' : records_at r' (S p)) by (unfold MailIndexSyncInv.records_at, r'; cbn [records]; rewrite HS; exact Hk).
    assert (Hnext : h_next_uid h' = (L (S p)).2) by (rewrite Hnx, HS; apply W7).
    assert (Hm' : map_at r' (S p) (S p) h').
    { apply map_at_whole; try done; [rewrite Hsz; apply W7 |]. rewrite Hnx. apply (at_shown _ _ _ _ _ _ _ W7). lia. }
    rewrite (ok_errors _ _ _ _ _ _ Hok1). destruct (index_ok_alone base_size base log pos1 tops1 st1 m1 r1 p p r' (S p) h' Hok1 Hv1 Hone Hr' Hm') as [Hok2 Hv2].
    eexists _, _, _, _. split_and!; [exact Hok2 | exact Hv2 |]. eapply placed_step; [done | done | done |]. unfold heads. cbn. rewrite list_fmap_insert. apply list_insert_id. by rewrite list_lookup_fmap, W1.
Qed.

(** ** Transactions *)

(** The flag updates that the log holds. *)
Definition transaction_ok (t : transaction) : Prop :=
  match t with
  | MAIL_TRANSACTION_FLAG_UPDATE us => Forall (fun u => 1 <= uid1 u <= uid2 u) us
  | _ => True
  end.

(** The changes of [t] are at [p] in the log. *)
Definition written (p : nat) (t : transaction) : Prop := forall i c, changes t !! i = Some c -> log !! (p + i)%nat = Some c.

Lemma sync_record_spec t pos tops st m r q p :
  index_ok pos tops st -> view_at pos tops st m r q p -> transaction_ok t -> written p t ->
  exists st' m', mail_index_sync_record t st = Some st' /\ stepped pos st m (p + length (changes t)) st' m'.
Proof.
  intros Hok Hv Ht Hw. pose proof Hv as [V1 V2 V3 V4 V5 V6 V7]. pose proof (map_at_uids_ok _ _ _ Hbase Hlog _ _ _ _ V6 V7) as Hu.
  assert (Hstill : exists st' m', Some st = Some st' /\ stepped pos st m (p + 0) st' m') by (exists st, m; split; [done |]; rewrite Nat.add_0_r; by eapply stepped_refl).
  destruct t as [recs | [] uids | [] uids | us | us]; cbn [mail_index_sync_record changes negb] in *; try exact Hstill.
  - rewrite length_fmap. eapply appends_spec; [done.. |]. intros i rec Hi. apply Hw. cbn. by rewrite list_lookup_fmap, Hi.
  - assert (Hp : log !! p = Some (Expunge uids)) by (rewrite <- (Nat.add_0_r p); by apply Hw). rewrite (view_get _ _ _ _ _ _ _ _ _ _ Hv). cbn [mbind option_bind length]. rewrite Nat.add_1_r.
    destruct (expunge_seqs_spec _ _ uids _ _ Hu (Hlog _ _ Hp) (seqs_of_nil _ _)) as (seqs & -> & Hs). cbn [mbind option_bind]. by eapply sync_expunge_range_spec.
  - set (ranges := (fun u => (u, u)) <$> uids) in *. assert (Hp : log !! p = Some (Expunge ranges)) by (rewrite <- (Nat.add_0_r p); by apply Hw).
    rewrite (view_get _ _ _ _ _ _ _ _ _ _ Hv). cbn [mbind option_bind length]. rewrite Nat.add_1_r. pose proof (Hlog _ _ Hp) as Hf. unfold ranges in Hf. cbn in Hf.
    destruct (expunge_guid_seqs_spec _ _ uids _ _ Hu ltac:(apply (proj1 (Forall_fmap (fun u => (u, u)) _ uids)) in Hf; eapply Forall_impl; [exact Hf |]; cbn; lia) (seqs_of_nil _ _)) as (seqs & -> & Hs).
    cbn [mbind option_bind]. by eapply sync_expunge_range_spec.
  - rewrite Nat.add_0_r. by eapply flag_updates_spec.
  - rewrite length_fmap. eapply header_updates_spec; [done.. |]. intros i u Hi. apply Hw. cbn. by rewrite list_lookup_fmap, Hi.
Qed.

(** A part of the log from [p] on, and where each transaction of it ends. *)
Fixpoint follows (p : nat) (ts : list (transaction * nat)) : Prop :=
  match ts with
  | [] => True
  | (t, head) :: ts => transaction_ok t /\ written p t /\ head = (p + length (changes t))%nat /\ follows head ts
  end.

Fixpoint end_of (p : nat) (ts : list (transaction * nat)) : nat :=
  match ts with
  | [] => p
  | (_, head) :: ts => end_of head ts
  end.

Definition set_head (n : nat) (m : mail_index_map) : mail_index_map := IndexMap (hdr m) (refcount m) (rec_map m) n.

Lemma index_ok_head pos tops st m r q p n :
  index_ok pos tops st -> view_at pos tops st m r q p ->
  let st' := put_map (view_map st) (set_head n m) st in index_ok pos tops st' /\ view_at pos tops st' (set_head n m) r q p.
Proof.
  intros Hok [V1 V2 V3 V4 V5 V6 V7] st'. pose proof (lookup_lt_Some _ _ _ V1) as Hlt. destruct Hok as [H1 H2 H3 H4 H5]. split.
  - split; cbn; [by rewrite length_insert | done | | | done].
    + intros i m' Hi Hrc. destruct (decide (i = view_map st)) as [-> |]; [| rewrite list_lookup_insert_ne in Hi by done; by apply H3].
      rewrite list_lookup_insert_eq in Hi by done. injection Hi as <-. by exists r, q, p.
    + exists (set_head n m). by rewrite list_lookup_insert_eq.
  - split; try done. cbn. by apply list_lookup_insert_eq.
Qed.

(** The other maps stay where they were. *)
Definition untouched (st st' : mail_index) : Prop := forall j x, heads st !! j = Some x -> j <> view_map st -> heads st' !! j = Some x /\ j <> view_map st'.

Lemma untouched_trans st1 st2 st3 : untouched st1 st2 -> untouched st2 st3 -> untouched st1 st3.
Proof. intros H1 H2 j x Hj Hv. destruct (H1 j x Hj Hv) as [Hj2 Hv2]. by apply H2. Qed.

(** Between transactions the heads of the maps are their positions. *)
Lemma stepped_heads tops st m p st' m' :
  index_ok (heads st) tops st -> stepped (heads st) st m p st' m' ->
  let st2 := put_map (view_map st') (set_head p m') st' in
  (exists tops' r' q', index_ok (heads st2) tops' st2 /\ view_at (heads st2) tops' st2 (set_head p m') r' q' p) /\ untouched st st2.
Proof.
  intros Hok (pos' & tops' & r' & q' & Hok' & Hv' & Hp) st2. destruct (index_ok_head pos' tops' st' m' r' q' p p Hok' Hv') as [Hok2 Hv2].
  assert (Hh : heads st2 = pos').
  { unfold heads, st2. cbn. rewrite list_fmap_insert. cbn. fold (heads st'). destruct Hp as [(E1 & -> & ->) | (_ & E1 & -> & ->)]; rewrite E1; [done |].
    unfold heads at 1. rewrite insert_app_r_alt by (by rewrite length_fmap). by rewrite length_fmap, Nat.sub_diag. }
  split; [exists tops', r', q'; by rewrite Hh |]. intros j x Hj Hne. rewrite Hh. cbn [st2 put_map view_map]. pose proof (lookup_lt_Some _ _ _ Hj) as Hlt. unfold heads in Hlt. rewrite length_fmap in Hlt.
  destruct Hp as [(-> & -> & _) | (_ & -> & -> & _)]; [by rewrite list_lookup_insert_ne |]. rewrite lookup_app_l by (unfold heads; by rewrite length_fmap). split; [done | lia].
Qed.

Lemma sync_records_spec ts tops st m r q :
  index_ok (heads st) tops st -> view_at (heads st) tops st m r q (log_head m) -> follows (log_head m) ts ->
  exists st' tops' m' r' q', sync_records ts st = Some st' /\ index_ok (heads st') tops' st' /\ view_at (heads st') tops' st' m' r' q' (log_head m') /\ log_head m' = end_of (log_head m) ts /\
    untouched st st'.
Proof.
  revert tops st m r q. induction ts as [| [t head] ts IH]; intros tops st m r q Hok Hv Hf; cbn [sync_records end_of]; [exists st, tops, m, r, q; split_and!; try done; by split |].
  destruct Hf as (Ht & Hw & -> & Hf). destruct (sync_record_spec t _ _ _ _ _ _ _ Hok Hv Ht Hw) as (st1 & m1 & -> & Hst). cbn [mbind option_bind].
  destruct (stepped_heads _ _ _ _ _ _ Hok Hst) as ((tops2 & r2 & q2 & Hok2 & Hv2) & Hun). destruct Hst as (? & ? & ? & ? & _ & Hv1 & _). rewrite (view_map_is _ _ _ _ _ _ _ _ _ _ Hv1). cbn [mbind option_bind].
  destruct (IH _ _ _ _ _ Hok2 Hv2 Hf) as (st3 & tops3 & m3 & r3 & q3 & E3 & Hok3 & Hv3 & Hh3 & Hun3). exists st3, tops3, m3, r3, q3. split_and!; [done.. |]. by eapply untouched_trans.
Qed.

(** ** The synchronisation of a map *)

Lemma put_hdr_step tops st m r q h' :
  index_ok (heads st) tops st -> view_at (heads st) tops st m r q (log_head m) -> map_at r q (log_head m) h' ->
  let st' := put_map (view_map st) (set_hdr h' m) st in index_ok (heads st') tops st' /\ view_at (heads st') tops st' (set_hdr h' m) r q (log_head m) /\ untouched st st'.
Proof. intros Hok Hv Hm st'. destruct (index_ok_put base_size base log _ _ _ _ _ _ _ _ Hok Hv Hm) as (H1 & H2 & H3). subst st'. unfold untouched. by rewrite H3. Qed.

Lemma sync_map_spec ts tops st m r q :
  index_ok (heads st) tops st -> view_at (heads st) tops st m r q (log_head m) -> follows (log_head m) ts ->
  exists st' tops' m' r' q', mail_index_sync_map ts st = Some st' /\ index_ok (heads st') tops' st' /\ view_at (heads st') tops' st' m' r' q' (log_head m') /\ log_head m' = end_of (log_head m) ts /\
    untouched st st'.
Proof.
  intros Hok Hv Hf. pose proof Hv as [V1 V2 V3 V4 V5 V6 V7]. unfold mail_index_sync_map. rewrite V1. cbn [mbind option_bind]. set (dirty := negb _). set (h := if dirty then _ else hdr m).
  assert (Hm1 : map_at r q (log_head m) h) by (subst h; destruct dirty; [by apply map_at_set_flags | done]). clearbody h dirty.
  destruct (put_hdr_step _ _ _ _ _ h Hok Hv Hm1) as (Hok1 & Hv1 & Hun1). destruct (sync_records_spec ts _ _ (set_hdr h m) r q Hok1 Hv1 Hf) as (st2 & tops2 & m2 & r2 & q2 & -> & Hok2 & Hv2 & E2 & Hun2).
  cbn [mbind option_bind]. rewrite (view_get _ _ _ _ _ _ _ _ _ _ Hv2). cbn [mbind option_bind]. set (h3 := mail_index_sync_update_hdr_dirty_flag (hdr m2) (records r2)).
  assert (Hm3 : map_at r2 q2 (log_head m2) h3).
  { subst h3. unfold mail_index_sync_update_hdr_dirty_flag. destruct (negb _); [apply Hv2 |]. destruct (existsb _ _); [apply map_at_set_flags |]; apply Hv2. }
  clearbody h3. set (st3 := if dirty then _ else st2).
  assert (H3 : exists m3, index_ok (heads st3) tops2 st3 /\ view_at (heads st3) tops2 st3 m3 r2 q2 (log_head m3) /\ log_head m3 = log_head m2 /\ untouched st2 st3).
  { subst st3. destruct dirty; [exists (set_hdr h3 m2) | exists m2; split_and!; try done; by split]. by destruct (put_hdr_step _ _ _ _ _ h3 Hok2 Hv2 Hm3) as (? & ? & ?). }
  clearbody st3. destruct H3 as (m3 & Hok3 & Hv3 & E3 & Hun3). rewrite (view_get _ _ _ _ _ _ _ _ _ _ Hv3). cbn [mbind option_bind].
  rewrite (map_at_check _ _ _ Hbase Hlog _ _ _ _ (view_records_at _ _ _ _ _ _ _ _ _ _ Hv3) (view_map_at _ _ _ _ _ _ _ _ _ _ Hv3)). cbn [mbind option_bind].
  exists st3, tops2, m3, r2, q2. split_and!; [done.. | rewrite E3; exact E2 |]. eapply untouched_trans; [exact Hun1 |]. by eapply untouched_trans.
Qed.

(** ** Any sequence of synchronisations *)

Definition with_view (i : nat) (st : mail_index) : mail_index := Index (maps st) (rec_maps st) i (errors st).

(** A view opens on a map, is synchronised over the next part of the log, or is
    closed. *)
Inductive step : mail_index -> mail_index -> Prop :=
  | step_open i m st : maps st !! i = Some m -> 0 < refcount m -> step st (put_map i (set_refcount (refcount m + 1) m) st)
  | step_sync i m ts st st' : maps st !! i = Some m -> 0 < refcount m -> follows (log_head m) ts -> mail_index_sync_map ts (with_view i st) = Some st' -> step st st'
  | step_close i m st st' : maps st !! i = Some m -> 0 < refcount m -> mail_index_unmap st i = Some st' -> step st st'.

Inductive reachable (st0 : mail_index) : mail_index -> Prop :=
  | reach_start : reachable st0 st0
  | reach_step st st' : reachable st0 st -> step st st' -> reachable st0 st'.

(** One map, whose messages are those before the log. *)
Definition starts (st0 : mail_index) : Prop :=
  exists h r rc, 0 < rc /\ st0 = Index [IndexMap h rc 0 0] [r] 0 false /\ r_uid <$> records r = base.1 /\ h_next_uid h = base.2 /\
    h_messages_count h = Z.of_nat (length (records r)) /\ h_base_header_size h = base_size /\ last_appended_uid r < h_next_uid h /\
    0 <= h_first_unseen_uid_lowwater h <= h_next_uid h /\ 0 <= h_first_deleted_uid_lowwater h <= h_next_uid h /\ mail_index_map_check h (records r) = Some tt.

(** Whatever view comes next. *)
Definition consistent (st : mail_index) : Prop :=
  errors st = false /\ exists tops, length tops = length (rec_maps st) /\ forall i m, maps st !! i = Some m -> 0 < refcount m -> index_ok (heads st) tops (with_view i st).

Lemma index_ok_consistent tops st : index_ok (heads st) tops st -> consistent st.
Proof.
  intros [H1 H2 H3 H4 H5]. split; [done |]. exists tops. split; [done |]. intros i m Hi Hrc. split; try done. by exists m.
Qed.

Lemma consistent_view st i m : consistent st -> maps st !! i = Some m -> 0 < refcount m ->
  exists tops r q, index_ok (heads st) tops (with_view i st) /\ view_at (heads st) tops (with_view i st) m r q (log_head m).
Proof.
  intros (_ & tops & _ & Hok) Hi Hrc. pose proof (Hok i m Hi Hrc) as Hok'. destruct (ok_map _ _ _ _ _ _ Hok' i m Hi Hrc) as (r & q & p & A1 & A2 & A3 & A4 & A5).
  assert (p = log_head m) as -> by (unfold heads in A3; rewrite list_lookup_fmap, Hi in A3; by injection A3). exists tops, r, q. done.
Qed.

(** References change, and a map without one is gone. *)
Lemma consistent_refcount st i m n : consistent st -> maps st !! i = Some m -> 0 < refcount m -> consistent (put_map i (set_refcount n m) st).
Proof.
  intros (He & tops & Ht & Hok) Hi Hrc. pose proof (lookup_lt_Some _ _ _ Hi) as Hlt. split; [done |]. exists tops. split; [done |].
  assert (Hh : heads (put_map i (set_refcount n m) st) = heads st) by (unfold heads; cbn; rewrite list_fmap_insert; apply list_insert_id; by rewrite list_lookup_fmap, Hi).
  intros j mj Hj Hrcj. rewrite Hh. split; cbn; [unfold heads; by rewrite length_fmap, length_insert | done | | by exists mj | done].
  intros k mk Hk Hrck. destruct (decide (k = i)) as [-> |].
  - rewrite list_lookup_insert_eq in Hk by done. injection Hk as <-. apply (ok_map _ _ _ _ _ _ (Hok i m Hi Hrc) i m Hi Hrc).
  - rewrite list_lookup_insert_ne in Hk by done. apply (ok_map _ _ _ _ _ _ (Hok i m Hi Hrc) k mk Hk Hrck).
Qed.

Lemma starts_consistent st0 : starts st0 -> consistent st0.
Proof.
  intros (h & r & rc & Hrc & -> & Hu & Hx & Hn & Hs & Hl & Hl1 & Hl2 & Hc). apply (index_ok_consistent [0%nat]).
  assert (Hr : records_at r 0) by (by unfold MailIndexSyncInv.records_at).
  assert (Hmax : h_messages_count h < INT_MAX) by (destruct Hbase as (_ & _ & _ & ?); rewrite Hn; rewrite <- Hu, length_fmap in *; lia).
  assert (Hm : map_at r 0 0 h) by (apply map_at_whole; try done; by apply map_check_sound).
  split; try done; [| by eexists]. intros [|i] m Hi Hlive; [| done]. injection Hi as <-. by exists r, 0%nat, 0%nat.
Qed.

Lemma step_consistent st st' : consistent st -> step st st' -> consistent st'.
Proof.
  intros Hc Hstep. destruct Hstep as [i m st Hi Hrc | i m ts st st' Hi Hrc Hf Hs | i m st st' Hi Hrc Hu].
  - by apply consistent_refcount.
  - destruct (consistent_view st i m Hc Hi Hrc) as (tops & r & q & Hok & Hv).
    destruct (sync_map_spec ts tops (with_view i st) m r q Hok Hv Hf) as (st2 & tops2 & m2 & r2 & q2 & E & Hok2 & _). rewrite Hs in E. injection E as <-. by eapply index_ok_consistent.
  - unfold mail_index_unmap in Hu. rewrite Hi in Hu. cbn [mbind option_bind] in Hu. rewrite assert_true in Hu by lia. injection Hu as <-. by apply consistent_refcount.
Qed.

Lemma reachable_consistent st0 st : starts st0 -> reachable st0 st -> consistent st.
Proof. intros H0. induction 1 as [| st st' _ IH Hstep]; [by apply starts_consistent | by eapply step_consistent]. Qed.

(** What holds of every map. *)
Definition in_sync (st : mail_index) (m : mail_index_map) (r : mail_index_record_map) : Prop :=
  rec_maps st !! rec_map m = Some r /\ uids_ok (hdr m) (records r) /\ tallies (hdr m) (visible (hdr m) r) /\
  r_uid <$> visible (hdr m) r = (L (log_head m)).1 /\ h_next_uid (hdr m) = (L (log_head m)).2.

Lemma reachable_in_sync st0 st i m : starts st0 -> reachable st0 st -> maps st !! i = Some m -> 0 < refcount m -> exists r, in_sync st m r.
Proof.
  intros H0 Hr Hi Hrc. destruct (consistent_view st i m (reachable_consistent _ _ H0 Hr) Hi Hrc) as (tops & r & q & _ & [V1 V2 V3 V4 V5 V6 V7]).
  exists r. split_and!; [done | by eapply map_at_uids_ok | apply V7..].
Qed.
End Correct.

(** A log that synchronisation can apply to a mailbox. *)
Record log_ok (base_size : Z) (base : mailbox) (log : list change) : Prop := {
  log_size : 0 <= base_size < 65536;
  log_base : mailbox_ok base;
  log_changes p c : log !! p = Some c -> change_ok base_size (replay base log p) c;
}.

(** C3: However views are opened, their maps synchronised over parts of the log
    by [mail_index_sync_map], and views closed, every map has exactly the messages and the next UID that the log has at the
    map's position, its header's counters and low-water marks are right (all
    assertions of [mail_index_map_check] hold), and no corruption was reported.
    The log has appends in the order of UIDs, expunges, changes of flags and of
    the header; view synchronisation (mail-index-view-sync.c) is not part of it. *)
Theorem mail_index_sync_correct base_size base log st0 st i m :
  log_ok base_size base log -> starts base_size base st0 -> reachable log st0 st -> maps st !! i = Some m -> 0 < refcount m ->
  errors st = false /\ exists r, rec_maps st !! rec_map m = Some r /\
    r_uid <$> take (Z.to_nat (h_messages_count (hdr m))) (records r) = (replay base log (log_head m)).1 /\ h_next_uid (hdr m) = (replay base log (log_head m)).2 /\
    mail_index_map_check (hdr m) (records r) = Some tt.
Proof.
  intros [Hs Hb Hc] H0 Hr Hi Hrc. split; [apply (reachable_consistent base_size base log Hs Hb Hc st0 st H0 Hr) |].
  destruct (reachable_in_sync base_size base log Hs Hb Hc st0 st i m H0 Hr Hi Hrc) as (r & Hrm & Hu & HT & E1 & E2). exists r. split_and!; [done.. |]. by apply map_check_spec.
Qed.

(** C6: From every such state every map can be synchronised over the next part of
    the log: no assertion fails, the map of the view is then at the end of that
    part, and all other maps are where they were. *)
Theorem mail_index_sync_total base_size base log st0 st i m ts :
  log_ok base_size base log -> starts base_size base st0 -> reachable log st0 st -> maps st !! i = Some m -> 0 < refcount m -> follows log (log_head m) ts ->
  exists st' m', mail_index_sync_map ts (with_view i st) = Some st' /\ maps st' !! view_map st' = Some m' /\ 0 < refcount m' /\ log_head m' = end_of (log_head m) ts /\
    errors st' = false /\ forall j mj, maps st !! j = Some mj -> j <> i -> exists mj', maps st' !! j = Some mj' /\ log_head mj' = log_head mj.
Proof.
  intros [Hs Hb Hc] H0 Hr Hi Hrc Hf. destruct (consistent_view _ _ _ st i m (reachable_consistent base_size base log Hs Hb Hc st0 st H0 Hr) Hi Hrc) as (tops & r & q & Hok & Hv).
  destruct (sync_map_spec base_size base log Hs Hb Hc ts tops (with_view i st) m r q Hok Hv Hf) as (st' & tops' & m' & r' & q' & E & Hok' & Hv' & Hh & Hun).
  exists st', m'. split_and!; [done | apply Hv' | apply Hv' | done | apply Hok' |]. intros j mj Hj Hne.
  destruct (Hun j (log_head mj)) as [Hj' _]; [unfold heads; cbn; by rewrite list_lookup_fmap, Hj | done |].
  unfold heads in Hj'. rewrite list_lookup_fmap in Hj'. apply fmap_Some in Hj' as (mj' & Hj' & ->). by exists mj'.
Qed.

(** ** A log and two views

    Three messages are appended, two of them flagged, the next UID is raised,
    one message is expunged and one more appended.  The first of two views that
    share their map is synchronised up to the header update; the other one
    follows with the records that are there already, and goes on. *)

Definition demo_append : transaction := MAIL_TRANSACTION_APPEND [Rec 3 0; Rec 5 8; Rec 9 0].
Definition demo_flags : transaction := MAIL_TRANSACTION_FLAG_UPDATE [FlagUpdate 3 5 4 8].
Definition demo_next : transaction := MAIL_TRANSACTION_HEADER_UPDATE [HeaderUpdate 28 [20; 0; 0; 0]].
Definition demo_expunge : transaction := MAIL_TRANSACTION_EXPUNGE true [(4, 6)].
Definition demo_more : transaction := MAIL_TRANSACTION_APPEND [Rec 20 8].

Definition demo_log : list change := changes demo_append ++ changes demo_flags ++ changes demo_next ++ changes demo_expunge ++ changes demo_more.
Definition demo_first : list (transaction * nat) := [(demo_append, 3%nat); (demo_flags, 3%nat); (demo_next, 4%nat)].
Definition demo_rest : list (transaction * nat) := demo_first ++ [(demo_expunge, 5%nat)].
Definition demo_last : list (transaction * nat) := [(demo_more, 6%nat)].

Definition demo_start : mail_index := Index [IndexMap (Hdr 120 0 1 0 0 0 0 0) 1 0 0] [RecMap [] 0 true] 0 false.
Definition demo_opened : mail_index := put_map 0 (IndexMap (Hdr 120 0 1 0 0 0 0 0) 2 0 0) demo_start.
Definition demo_synced : mail_index := default demo_start (st ← mail_index_sync_map demo_first (with_view 0 demo_opened); mail_index_sync_map demo_rest (with_view 0 st)).

Lemma demo_log_ok : log_ok 120 ([], 1) demo_log.
Proof.
  split; [lia | split_and!; [constructor | by apply Forall_nil_2 | done | done | done] |].
  intros [|[|[|[|[|[|p]]]]]] c Hc; cbn in Hc; simplify_eq; [cbn; lia.. | cbn | cbn | split_and!; by vm_compute].
  - unfold spares, hu_size. cbn. split_and!; try lia. repeat (apply Forall_cons_2; [cbn; lia |]). by apply Forall_nil_2.
  - apply Forall_cons_2; [cbn; lia | by apply Forall_nil_2].
Qed.

Lemma demo_starts : starts 120 ([], 1) demo_start.
Proof. eexists _, _, 1. split_and!; [done | reflexivity | done.. | | ]; cbn; done. Qed.

Ltac written := let i := fresh in intros i ?; do 3 (destruct i as [|i]; [by intros [= <-] |]); by destruct i.

Lemma demo_follows_first : follows demo_log 0 demo_first.
Proof. cbn. split_and!; try done; try written. apply Forall_cons_2; [cbn; lia | by apply Forall_nil_2]. Qed.

Lemma demo_follows_rest : follows demo_log 0 demo_rest.
Proof. cbn. split_and!; try done; try written. apply Forall_cons_2; [cbn; lia | by apply Forall_nil_2]. Qed.

Lemma demo_follows_last : follows demo_log 5 demo_last.
Proof. cbn. split_and!; try done. written. Qed.

Lemma demo_sync_reachable : reachable demo_log demo_start demo_synced.
Proof.
  eapply reach_step; [eapply reach_step; [eapply reach_step; [apply reach_start |] |] |].
  - eapply (step_open _ 0); [reflexivity | done].
  - eapply (step_sync _ 0); [reflexivity | done | apply demo_follows_first | vm_compute; reflexivity].
  - eapply (step_sync _ 0); [reflexivity | done | apply demo_follows_rest | vm_compute; reflexivity].
Qed.

Definition demo_map : mail_index_map := default (IndexMap (Hdr 0 0 0 0 0 0 0 0) 0 0 0) (maps demo_synced !! 0%nat).

Lemma mail_index_sync_correct_witness :
  errors demo_synced = false /\ exists r, rec_maps demo_synced !! rec_map demo_map = Some r /\
    r_uid <$> take (Z.to_nat (h_messages_count (hdr demo_map))) (records r) = (replay ([], 1) demo_log (log_head demo_map)).1 /\
    h_next_uid (hdr demo_map) = (replay ([], 1) demo_log (log_head demo_map)).2 /\ mail_index_map_check (hdr demo_map) (records r) = Some tt.
Proof. apply (mail_index_sync_correct 120 ([], 1) demo_log demo_start demo_synced 0 demo_map demo_log_ok demo_starts demo_sync_reachable); vm_compute; reflexivity. Defined.

Lemma mail_index_sync_total_witness :
  exists st' m', mail_index_sync_map demo_last (with_view 0 demo_synced) = Some st' /\ maps st' !! view_map st' = Some m' /\ 0 < refcount m' /\
    log_head m' = end_of (log_head demo_map) demo_last /\ errors st' = false /\
    forall j mj, maps demo_synced !! j = Some mj -> j <> 0%nat -> exists mj', maps st' !! j = Some mj' /\ log_head mj' = log_head mj.
Proof. apply (mail_index_sync_total 120 ([], 1) demo_log demo_start demo_synced 0 demo_map demo_last demo_log_ok demo_starts demo_sync_reachable); [vm_compute; reflexivity.. | apply demo_follows_last]. Defined.

(** The two maps: the second view's is at 4 with the three messages, the first
    one's at 5 without the expunged one; both had their flags changed. *)
Lemma demo_synced_is :
  (fun m => (log_head m, h_messages_count (hdr m), h_deleted_messages_count (hdr m), h_next_uid (hdr m))) <$> maps demo_synced =
    [(5%nat, 2, 1, 20); (4%nat, 3, 2, 20)] /\
  records <$> rec_maps demo_synced = [[Rec 3 4; Rec 5 4; Rec 9 0]; [Rec 3 4; Rec 9 0]].
Proof. vm_compute. done. Qed.
