(* ===== verification/MailIndexSearch.v ===== *)
(** * Lookups and searches in a synchronised map

    The lookups of a view rely on the counters and low-water marks that
    synchronisation keeps, and so does a search: the header that it limits its
    range by is the one of the map. *)

From S2P Require Import Prelude SeqRange SeqRangeProps ImapArg ImapQuote MailIndexMap MailIndexMapProps MailIndexSync MailIndexCounts MailIndexLog MailIndexSyncInv MailIndexSyncSteps MailIndexExpunge MailIndexSyncCorrect.
From S2P Require Import MailSearch MailSearchResults MailSearchSimplify MailSearchEval MailSearchSimplifyCorrect IndexSearch IndexSearchProps IndexSearchPasses IndexSearchRange IndexSearchCorrect IndexSearchThreads IndexSearchQuery.









Lemma tallies_lows h r : tallies h (visible h r) -> lows_ok h (records r).
Proof. intros [T1 T2 T3 T4 T5]. split; [done | done | lia]. Qed.

(** ** The theorems *)

(** C14: The sequences of a range of UIDs, by binary search: exactly the messages
    from the first sequence to the last have a UID in the range, and both are 0
    when there is none.  No assertion fails. *)
Theorem mail_index_map_lookup_seq_range_correct h recs first_uid last_uid :
  uids_ok h recs -> 1 <= first_uid <= last_uid ->
  exists s1 s2, mail_index_map_lookup_seq_range h recs first_uid last_uid = Some (s1, s2) /\ 0 <= s1 <= s2 /\ s2 <= h_messages_count h /\ (s1 = 0 -> s2 = 0) /\
    forall i rec, recs !! i = Some rec -> Z.of_nat i < h_messages_count h -> first_uid <= r_uid rec <= last_uid <-> s1 <= Z.of_nat i + 1 <= s2.
Proof. apply lookup_seq_range_spec. Qed.

(** C15: In a map of any reachable state, the lookup of the first message with given
    flags finds the first one of all: the low-water marks that it starts from
    skip none. *)
Theorem view_lookup_first_correct base_size base log st0 st i m flags flags_mask :
  log_ok base_size base log -> starts base_size base st0 -> reachable log st0 st -> maps st !! i = Some m -> 0 < refcount m ->
  exists r s, rec_maps st !! rec_map m = Some r /\ view_lookup_first (hdr m) (records r) flags flags_mask = Some s /\ is_first (hdr m) (records r) (flags_match flags flags_mask) 1 s.
Proof.
  intros [Hs Hb Hc] H0 Hr Hi Hrc. destruct (reachable_in_sync base_size base log Hs Hb Hc st0 st i m H0 Hr Hi Hrc) as (r & Hrm & Hu & HT & _).
  destruct (view_lookup_first_spec (hdr m) (records r) flags flags_mask Hu (tallies_lows _ _ HT)) as (s & E & Hf). by exists r, s.
Qed.


(** ** Witnesses *)

Lemma mail_index_map_lookup_seq_range_correct_witness :
  let h := Hdr 120 0 20 3 0 0 0 0 in
  let recs := [Rec 3 4; Rec 5 4; Rec 9 0] in
  exists s1 s2, mail_index_map_lookup_seq_range h recs 4 12 = Some (s1, s2) /\ 0 <= s1 <= s2 /\ s2 <= h_messages_count h /\ (s1 = 0 -> s2 = 0) /\
    forall i rec, recs !! i = Some rec -> Z.of_nat i < h_messages_count h -> 4 <= r_uid rec <= 12 <-> s1 <= Z.of_nat i + 1 <= s2.
Proof.
  apply (mail_index_map_lookup_seq_range_correct (Hdr 120 0 20 3 0 0 0 0) [Rec 3 4; Rec 5 4; Rec 9 0] 4 12); [| lia].
  split; cbn; [split; [repeat constructor; cbn; lia | each; cbn; lia] | lia | lia | lia |]. intros [|[|[|i]]] rec Hi; [injection Hi as <-; cbn; lia.. | done].
Defined.

Lemma view_lookup_first_correct_witness :
  exists r s, rec_maps demo_synced !! rec_map demo_map = Some r /\ view_lookup_first (hdr demo_map) (records r) MAIL_DELETED MAIL_DELETED = Some s /\
    is_first (hdr demo_map) (records r) (flags_match MAIL_DELETED MAIL_DELETED) 1 s.
Proof. apply (view_lookup_first_correct 120 ([], 1) demo_log demo_start demo_synced 0 demo_map MAIL_DELETED MAIL_DELETED demo_log_ok demo_starts demo_sync_reachable); vm_compute; reflexivity. Defined.




